(* ===== verification/_CoqProject ===== *)
-Q . S2P
Prelude.v
NetIP.v
NetIPFacts.v
IPAddr.v
Cidr.v
IPRange.v
SubnetCIDR.v
Limiter.v
K8s.v
Retry.v
WorkQueue.v
ReservedIP.v
Convert.v
IPPoolManager.v
PoolLease.v
PoolUtils.v
IPPoolWebhook.v
Workload.v
Endpoint.v
IPAMRelease.v
Selector.v
PoolSelection.v
IPAMAllocate.v
PodTrace.v
GCScan.v
AppUtils.v
SubnetWebhook.v
SubnetManager.v
SubnetSync.v
PoolSync.v
AppController.v
NetPrefix.v
Coordinator.v
CoordinatorSync.v
MultusConfig.v
MultusSync.v
Ifacer.v
PodWebhook.v
CoordinatorConf.v
Networking.v
Detection.v
CoordinatorPlugin.v
IPAMPlugin.v
IaaS.v
NodeResources.v
PodOwner.v
Init.v
Clean.v
SubnetSelection.v
RDMAMetrics.v
Leader.v
