(* ===== verification/Prelude.v ===== *)
(** * Spiderpool: a verification of its IP address management

    Spiderpool assigns IP addresses to the Pods of a Kubernetes cluster.  Administrators define
    SpiderSubnets and SpiderIPPools (ranges of addresses), SpiderReservedIPs (addresses nobody may
    get); the IPAM (spiderpool-agent) serves the CNI ADD and DEL of Pods from the pools and keeps
    the addresses of a Pod in a SpiderEndpoint; controllers (spiderpool-controller) admit changes
    to the objects, create pools for applications out of subnets and collect the addresses of Pods
    that are gone.  All state is in API objects that many processes read and write; what makes the
    program correct is that no address is ever given to two owners, that an owner keeps its address
    while it has a right to it, and that addresses come back when it has not.

    ** How the code is modelled

    Every function is a Rocq function of the same name.  A call comes to an [outcome] (this file):
    a value, an error value, a run-time panic (nil dereference, index out of range, write to a nil
    map) or "out of fuel" for a loop that has not ended.  Code that reads or writes the API server
    is a command [cmd S A] (Retry.v), a function on the state of the server that may change it
    whatever it returns.  The server itself, the JSON codec, the caches of informers and the calls
    of third parties are parameters: the classes [KubeStore]/[KubeStoreLaws] (K8s.v: optimistic
    concurrency by resource versions), [JSON]/[JSONLaws], [EndpointStore] (Endpoint.v),
    [SubnetClient] (SubnetSync.v), [PoolWriter] (PoolSync.v), [CoordinatorClient]
    (CoordinatorSync.v), [NadClient] and [CNIJson] (MultusSync.v), [WebhookReader] (PodWebhook.v).
    The network of a node is a parameter too: [Netlink] (Ifacer.v), [Kernel]/[KernelLaws]
    (Networking.v: links, addresses, routing tables and rules in a namespace), [NetIO]/[Timely]
    (Detection.v: packets, the clock and deadlines), [PluginHost] (CoordinatorPlugin.v).  Between the IPAM
    plugin and the agent stands [AgentAPI] (IPAMPlugin.v), which the handlers of the agent
    implement; the service of a cloud provider is [Provider] (IaaS.v), the client and the files of
    the initial objects [InitClient] and [CNIFiles] (Init.v), those of the clean-up [CleanClient]
    (Clean.v), the meter of the metrics the record [Meter] (RDMAMetrics.v).  Each class has a
    concrete instance.  What other clients do meanwhile
    is a function [env] that may change the server at the points where the code can be interleaved
    with them.  The order of [range] over a map is the class [MapRange] (this file), the order of
    goroutines the class [Schedule] (Retry.v); theorems hold for any order.  Integers are [Z], with
    [int64] and [make_cap] where a width or a capacity matters; addresses are lists of bytes, texts
    are strings, so that parsing and printing are inside the model.

    ** The files

    - Prelude.v (this file): errors, outcomes, Go's comparison, loops and maps, strings; the tactic
      [inv_ret] and the hint database [addr].
    - NetIP.v, NetIPFacts.v: the parts of Go's net and net/netip the code uses, and that parsing
      inverts printing.
    - IPAddr.v (pkg/ip/ip.go), Cidr.v (pkg/ip/cidr.go, route.go), IPRange.v (pkg/ip/iprange.go,
      utils.go), SubnetCIDR.v (pkg/ip/subnet.go): addresses, subnets, ranges, sets of addresses.
    - Limiter.v (pkg/limiter/queue.go): the queue that serialises requests on pools, as a step
      relation over its critical sections.
    - K8s.v: the API types of pkg/k8s/apis/.../v2beta1, the server and JSON.
      Retry.v (pkg/utils/retry): commands and the retry loop on conflicts.
    - ReservedIP.v (pkg/reservedipmanager); Convert.v (pkg/utils/convert, pkg/types/ip.go): the
      conversions between results, records and answers.
    - IPPoolManager.v (pkg/ippoolmanager/ippool_manager.go): AllocateIP, ReleaseIP,
      UpdateAllocatedIPs.  PoolLease.v: the abstract specification of a pool, a table of leases,
      and the class [Guarantee] through which the clients of the manager are verified.
      PoolUtils.v (pkg/ippoolmanager/utils.go): affinity and order of pools, wildcards.
      IPPoolWebhook.v (ippool_mutate.go, ippool_validate.go, ippool_subnet_validate.go,
      ippool_webhook.go): admission of pools.
    - Workload.v (pkg/podmanager, pkg/statefulsetmanager, pkg/kubevirtmanager): who has a right to
      fixed addresses.  Endpoint.v (pkg/workloadendpointmanager): the records of Pods.
    - IPAMRelease.v (pkg/ipam/release.go), Selector.v (label selectors, network annotations),
      PoolSelection.v (pkg/ipam/pool_selections.go and the filters of allocate.go), IPAMAllocate.v
      (pkg/ipam/allocate.go): the CNI DEL and ADD.
    - PodTrace.v (pkg/gcmanager/pod_cache.go), GCScan.v (scanAll_IPPool.go, tracePod_worker.go,
      pod_informer.go): the collection of addresses.
    - AppUtils.v (pkg/applicationcontroller/applicationinformers/utils.go), SubnetWebhook.v,
      SubnetManager.v, SubnetSync.v (pkg/subnetmanager): subnets and the pools created from them.
    - WorkQueue.v: client-go's work queue as a step relation, and the worker loop of a controller.
      PoolSync.v (ippool_informer.go), AppController.v (app_controller.go): the controllers of pools
      and of applications.
    - NetPrefix.v: netip's prefixes.  Coordinator.v, CoordinatorSync.v (pkg/coordinatormanager):
      the webhook and the controller of SpiderCoordinators, which find out the CIDRs of a cluster.
    - MultusConfig.v (multusconfig_mutate.go, multusconfig_validate.go), MultusSync.v
      (multusconfig_informer.go, utils.go): the webhook and the controller of SpiderMultusConfigs,
      which generate chains of CNI plugins.
    - PodWebhook.v (pkg/podmanager/pod_webhook.go, utils.go): networks and resources of Pods.
    - Ifacer.v (cmd/ifacer): the plugin that makes VLANs and bonds.
    - CoordinatorConf.v (cmd/spiderpool-agent/cmd/coordinator.go, cmd/coordinator/cmd/cni_types.go),
      Networking.v (pkg/networking/networking: route.go, ip.go, mac.go), CoordinatorPlugin.v
      (cmd/coordinator/cmd): the plugin that sets up veths, routes and rules of a Pod.
    - Detection.v (packet.go, ipam_detection.go, pkg/errgroup): conflicts and gateways by ARP and
      NDP.  IPAMPlugin.v (cmd/spiderpool/cmd, cmd/spiderpool-agent/cmd/ipam.go): the IPAM plugin and
      the handlers of the agent that serve it.
    - SubnetSelection.v (pkg/ipam/pool_selections.go, utils.go): the pools of an application for a
      Pod with a subnet annotation, found or created during the ADD, and its composition with
      IPAMAllocate.v.  IaaS.v (pkg/ipam/iaas.go, pkg/iaas): the registration of addresses with a
      cloud provider over HTTP, and the cache of parent interfaces.
    - NodeResources.v (pkg/networkresourceplugin): the device plugin for master interfaces and
      secondary interfaces of a node.
    - Init.v (cmd/spiderpool-init), Clean.v (clean.go of the controller): the objects made at the
      installation, and their removal.
    - PodOwner.v (pkg/podownercache): Pods and their owners by address.  RDMAMetrics.v
      (pkg/rdmametrics): the counters of RDMA devices, labelled with them, and the exporter.
    - Leader.v (pkg/election, SetupInformer and Run of ippool_informer.go): the flag of the leader,
      and the generations of contexts, queues and workers that a controller goes through with it.

    ** What is shown

    - Addresses: enumeration, conversion to ranges and merging are exact and canonical, the search
      for free addresses finds the first ones, containment and overlap tests decide what they say;
      where the code fails (ranges whose enumeration does not end, reversed excluded ranges) the
      theorem says exactly when.
    - Pools: an allocation takes effect atomically on the version it was computed from and never
      gives out an address in use, excluded or reserved; release removes exactly the records of
      its owner; any interleaving keeps the records and the count consistent.  Whatever the webhook
      admits, no two pools share an address and no address in use is lost.
    - IPAM: the CNI ADD and DEL, over retries, conflicts, the failure cache and every error path,
      act on the abstract table of leases, between the changes of other clients ([beside]), only by
      the steps of their Pod (refinement; [lease_step] of PoolLease.v, [add_step] and [del_step] of
      IPAMAllocate.v): grants of free addresses under its UID, renewals for the name of its endpoint,
      revocations under the UID of its endpoint or of the request.  They spare the records of other
      Pods, give every NIC an address of a suitable pool (or the result an earlier attempt left in
      the failure cache) and free what a dead Pod had.
    - Collection: a scan spares Pods that are alive, unless the endpoint in the cache is that of
      another Pod, an executor spares other Pods, the database of traced Pods is well formed and
      bounded.
    - Limiter: mutual exclusion per ticket, bounded queue, no lost wake-up.
    - Subnets: admitted subnets are disjoint, the assignment of addresses to pools stays disjoint
      under concurrent reconciliation, as long as the pools that are given fit the record of their
      subnet ([given_fits]), keeps the addresses in use and has the desired size, the sync of the
      record is exact and comes to rest.
    - Controllers: a work queue hands an item out to one worker at a time and loses none; the
      controllers of pools, applications, coordinators and Multus configurations write what they
      should, and those of coordinators and Multus configurations come to rest, where the theorem
      says; a successful sync of an application is a chain of reconciliations, one for each of its
      interfaces and families; as leadership comes and goes, all workers but those of the running
      generation have been told to stop, and two of them handle one item only if a re-election falls
      between a worker's Get and its defer statement.
    - From the objects to the Pod: a coordinator that is admitted and synced reaches the plugin as
      it is, under side conditions that neither ensures; of an admitted Multus configuration exactly
      the chain of its type is generated, and its plugins fit together; the Pod webhook only adds;
      the coordinator plugin leaves, for what it has [observed], every route in place that it is to
      set up ([wired]), and moves default routes without losing others; the IPAM plugin reports only
      addresses that the agent gave and that were seen to be free in the course of the run, and gives
      them back otherwise; and from the runtime to the pools the leases are refined.
    - Subnet annotations: a Pod only gets pools of its own application, and the whole ADD with the
      creation of pools is still one of leases and of openings of empty pools.
    - The provider is told exactly the addresses on its networks, under the right parent interface,
      over any history of the cache; the plugin of a node computes exactly the resources configured
      for it, those of masters under the names the Pod webhook asks for.
    - Installation and metrics: the objects are all created, the clean-up removes what it lists, a
      Pod is found by its address, and an RDMA metric met for the first time is exported from the next
      turn of the goroutine until the one after; that this one loses it again, and that a collection
      and a turn can wait for each other for ever, are theorems of their own.

    ** Fuel

    The loop of [ParseIPRange] runs on [loop_fuel], the difference of its ends plus two, shown to be
    enough for every range whose enumeration ends (for the others no fuel is enough); the search of [FindAvailableIPs] and
    the matching of wildcards run on measures of their input that are shown to suffice (the results
    are total).  The retry loop is bounded by the number of steps in the code.  The reading loop of the
    ARP detection runs on as many packets as fit into the time of its context, ten timeouts, at one
    per [tick] of the class [Timely]; that of NDP need not end, which is shown too.

    ** Not modelled

    Logging, metrics and events; the text of error messages; timeouts other than as cancellation;
    the start of informers and the renewal of leases; generated code (clientsets, deep copies,
    the OpenAPI server and client) and vendored code except where a function of it is used in a
    decision.  The validation of URLs and durations in the configuration of the provider, the
    sysctl and ethtool wrappers of pkg/networking, the instruments of pkg/metric, and the start of
    the daemons with their configuration from the environment are not modelled. *)

From Stdlib Require Export ZArith Lia Ascii.
From stdpp Require Export prelude gmap strings sorting.

(** ** Notations and automation *)

(** Comparison as the code writes it, for any type with decidable equality. *)
Declare Scope go_scope.
Delimit Scope go_scope with go.
Notation "a == b" := (bool_decide (a = b)) (at level 70, no associativity) : go_scope.
Notation "a != b" := (negb (bool_decide (a = b))) (at level 70, no associativity) : go_scope.
Local Open Scope go_scope.

(** Facts about addresses and lists of addresses that side conditions ask for again and again. *)
Create HintDb addr.

(** ** Go values and control flow *)

(** The errors the modelled code returns or tests for.  [fmt.Errorf("%w ...", e)]
    keeps the wrapped sentinel; the message text is not modelled. *)
Inductive error :=
  (* pkg/ip/errors.go *)
  | ErrInvalidIPVersion
  | ErrInvalidIPRangeFormat
  | ErrInvalidIPFormat
  | ErrInvalidCIDRFormat
  | ErrInvalidRouteFormat
  | ErrInvalidIP
  (* pkg/constant/errors.go *)
  | ErrWrongInput
  | ErrNoAvailablePool
  | ErrRetriesExhausted
  | ErrIPUsedOut
  | ErrForbidReleasingStatefulWorkload
  | ErrForbidReleasingStatelessWorkload
  | ErrMissingRequiredParam
  | ErrUnknown
  | ErrFreeIPsNotEnough
  (* pkg/limiter/queue.go *)
  | ErrStartLimiteRrepeatedly
  | ErrShutdownQueue
  | ErrFullQueue
  (* errors of the API server that the code distinguishes *)
  | APINotFound
  | APIConflict
  | APIAlreadyExists
  | APIOther
  | APIInvalid
  | APIForbidden
  (* wait.Interrupted: out of retries, or the context is done *)
  | WaitInterrupted
  (* field.Error of the admission webhooks, by the path of the field *)
  | FieldInvalid (path : string)
  | FieldForbidden (path : string)
  | FieldNotSupported (path : string)
  | FieldRequired (path : string)
  | FieldInternal (path : string) (cause : error)
  (* multierr.Append of two errors *)
  | ErrAppend (left right : error)
  (* any other error value, by its origin *)
  | ErrOther (what : string).

#[export] Instance error_eq_dec : EqDecision error.
Proof. solve_decision. Defined.

(** What a call of a Go function comes to: a value, a returned error, a run-time
    panic (nil dereference, index or slice out of range, write to a nil map), or
    a loop that has not finished within the fuel the definition gives it. *)
Inductive outcome (A : Type) : Type :=
  | Ret (a : A)
  | Fail (e : error)
  | Panic
  | OutOfFuel.
Arguments Ret {A} _.
Arguments Fail {A} _.
Arguments Panic {A}.
Arguments OutOfFuel {A}.

#[export] Instance outcome_ret : MRet outcome := @Ret.

#[export] Instance outcome_bind : MBind outcome := λ A B f m,
  match m with
  | Ret a => f a
  | Fail e => Fail e
  | Panic => Panic
  | OutOfFuel => OutOfFuel
  end.

#[export] Instance outcome_fmap : FMap outcome := λ A B f m,
  match m with
  | Ret a => Ret (f a)
  | Fail e => Fail e
  | Panic => Panic
  | OutOfFuel => OutOfFuel
  end.

(** [if cond { return err }] as a statement. *)
Definition check (b : bool) (e : error) : outcome unit :=
  if b then Ret () else Fail e.

(** Dereference of a pointer, [nil] being [None]. *)
Definition deref {A} (p : option A) : outcome A :=
  match p with Some a => Ret a | None => Panic end.

(** [xs[i]] *)
Definition index {A} (xs : list A) (i : nat) : outcome A :=
  match xs !! i with Some a => Ret a | None => Panic end.

(** [xs[:n]]: a panic when [n] is negative or above the length (the capacity of
    every slice so cut in the modelled code is its length). *)
Definition slice_to {A} (xs : list A) (n : Z) : outcome (list A) :=
  if bool_decide (0 ≤ n ≤ Z.of_nat (length xs))%Z then Ret (take (Z.to_nat n) xs) else Panic.

(** The value of an [int64] holding the low 64 bits of [z]; [big.Int.Int64] and the
    arithmetic on [int] and [int64] give this on overflow. *)
Definition int64 (z : Z) : Z := ((z + 2 ^ 63) mod 2 ^ 64 - 2 ^ 63)%Z.

Lemma int64_small z : (- 2 ^ 63 ≤ z < 2 ^ 63)%Z → int64 z = z.
Proof. intros Hz. unfold int64. rewrite Z.mod_small by lia. lia. Qed.

(** [make([]T, 0, n)] with elements of [size] bytes: a run-time panic for a capacity that is
    negative or whose size exceeds the 48-bit address space. *)
Definition make_cap (size n : Z) : outcome unit :=
  if bool_decide (0 ≤ n ∧ n * size ≤ 2 ^ 48)%Z then Ret () else Panic.

(** A call whose error is assigned to the blank identifier. *)
Definition ignore_err {A} (zero : A) (m : outcome A) : outcome A :=
  match m with Fail _ => Ret zero | _ => m end.

Definition is_ret {A} (m : outcome A) : bool :=
  match m with Ret _ => true | _ => false end.

Lemma bind_Ret {A B} (m : outcome A) (f : A → outcome B) b :
  m ≫= f = Ret b ↔ ∃ a, m = Ret a ∧ f a = Ret b.
Proof. destruct m; naive_solver. Qed.

Lemma bind_Fail {A B} (m : outcome A) (f : A → outcome B) e :
  m ≫= f = Fail e ↔ m = Fail e ∨ ∃ a, m = Ret a ∧ f a = Fail e.
Proof. destruct m; naive_solver. Qed.

Lemma check_Ret b e : check b e = Ret () ↔ b = true.
Proof. destruct b; naive_solver. Qed.

Lemma check_Fail b e e' : check b e = Fail e' ↔ b = false ∧ e' = e.
Proof. destruct b; naive_solver. Qed.

Lemma deref_Ret {A} (p : option A) a : deref p = Ret a ↔ p = Some a.
Proof. destruct p; naive_solver. Qed.

Lemma Ret_inj {A} (a b : A) : Ret a = Ret b → a = b.
Proof. by intros [=]. Qed.

(** Opens every [_ ≫= _ = Ret _] of the context. *)
Ltac inv_ret :=
  repeat match goal with
  | H : _ ≫= _ = Ret _ |- _ =>
      apply bind_Ret in H; destruct H as (? & ? & H)
  | H : check _ _ = Ret _ |- _ => apply check_Ret in H
  | H : deref _ = Ret _ |- _ => apply deref_Ret in H
  | H : Ret _ = Ret _ |- _ => apply Ret_inj in H; simplify_eq
  | H : Fail _ = Ret _ |- _ => discriminate H
  | H : Panic = Ret _ |- _ => discriminate H
  | H : OutOfFuel = Ret _ |- _ => discriminate H
  | H : () = () |- _ => clear H
  | u : unit |- _ => destruct u
  end.

(** [for _, x := range xs { if err := f(x); err != nil { return err } }] *)
Fixpoint for_each {A} (f : A → outcome unit) (xs : list A) : outcome unit :=
  match xs with
  | [] => Ret ()
  | x :: xs => _ ← f x; for_each f xs
  end.

Lemma for_each_Ret {A} (f : A → outcome unit) xs :
  for_each f xs = Ret () ↔ Forall (λ x, f x = Ret ()) xs.
Proof.
  induction xs as [|x xs IH]; cbn [for_each]; [by split; [constructor|]|].
  rewrite bind_Ret, Forall_cons. split.
  - intros ([] & ? & ?%IH). done.
  - intros [? ?%IH]. eauto.
Qed.

Lemma for_each_total {A} (f : A → outcome unit) xs :
  (∀ x, f x = Ret () ∨ ∃ e, f x = Fail e) → for_each f xs = Ret () ∨ ∃ e, for_each f xs = Fail e.
Proof.
  intros Hf. induction xs as [|x xs IH]; cbn [for_each]; [by left|].
  destruct (Hf x) as [->|[e ->]]; cbn; eauto.
Qed.

(** [for _, x := range xs { ys, err := f(x); ...; sum = append(sum, ys...) }] *)
Fixpoint concat_map_m {A B} (f : A → outcome (list B)) (xs : list A) : outcome (list B) :=
  match xs with
  | [] => Ret []
  | x :: xs => ys ← f x; zs ← concat_map_m f xs; Ret (ys ++ zs)
  end.

Lemma concat_map_m_Ret {A B} (f : A → outcome (list B)) xs r :
  concat_map_m f xs = Ret r ↔ ∃ rs, Forall2 (λ x ys, f x = Ret ys) xs rs ∧ r = concat rs.
Proof.
  revert r. induction xs as [|x xs IH]; intros r; cbn [concat_map_m].
  - split; [intros [= <-]; by exists []|]. by intros (? & ->%Forall2_nil_inv_l & ->).
  - rewrite bind_Ret. split.
    + intros (ys & ? & (zs & (rs & ? & ->)%IH & [= <-])%bind_Ret).
      exists (ys :: rs). by split; [constructor|].
    + intros ([|ys rs] & Hall & ->); inversion Hall; subst.
      exists ys. split; [done|]. apply bind_Ret. exists (concat rs). split; [|done].
      apply IH. eauto.
Qed.

Lemma concat_map_m_app {A B} (f : A → outcome (list B)) xs ys :
  concat_map_m f (xs ++ ys) =
    (a ← concat_map_m f xs; b ← concat_map_m f ys; Ret (a ++ b)).
Proof.
  induction xs as [|x xs IH]; cbn.
  - by destruct (concat_map_m f ys).
  - destruct (f x); cbn; [|done..]. rewrite IH.
    destruct (concat_map_m f xs); cbn; [|done..].
    destruct (concat_map_m f ys); cbn; [|done..]. by rewrite app_assoc.
Qed.

(** Two filters that agree on the elements of the list. *)
Lemma filter_agree {A} (P Q : A → Prop) `{!∀ x, Decision (P x), !∀ x, Decision (Q x)} (l : list A) :
  Forall (λ x, P x ↔ Q x) l → filter P l = filter Q l.
Proof.
  induction 1 as [|x l Hx Hl IH]; [done|]. rewrite !filter_cons, IH.
  by rewrite (decide_ext _ _ _ _ Hx).
Qed.

Lemma filter_none {A} (P : A → Prop) `{!∀ x, Decision (P x)} (l : list A) : Forall (λ x, ¬ P x) l → filter P l = [].
Proof. induction 1 as [|x l Hx Hl IH]; [done|]. by rewrite filter_cons_False. Qed.
Lemma Forall_filter {A} (P Q : A → Prop) `{!∀ x, Decision (Q x)} (l : list A) : Forall P l → Forall P (filter Q l).
Proof. rewrite !Forall_forall. intros HP x [_ Hx]%list_elem_of_filter. eauto. Qed.

#[export] Hint Resolve Forall_filter : addr.

Lemma filter_all {A} (P : A → Prop) `{!∀ x, Decision (P x)} (l : list A) : (∀ x, P x) → filter P l = l.
Proof. intros HP. induction l as [|x l IH]; [done|]. rewrite filter_cons_True by done. by rewrite IH. Qed.

Lemma elem_of_concat {A} (x : A) (ls : list (list A)) : x ∈ concat ls ↔ ∃ l, l ∈ ls ∧ x ∈ l.
Proof. induction ls; cbn; set_solver. Qed.

(** ** Iteration over a Go map

    The order in which [range] visits a map is not specified.  Definitions that
    iterate over a map take the order from this class, so what is proved of them
    holds whatever order the runtime picks. *)
Class MapRange := {
  range_keys : ∀ {A}, gmap string A → list string;
  range_keys_perm : ∀ {A} (m : gmap string A), range_keys m ≡ₚ (map_to_list m).*1
}.

(** One possible order, for concrete evaluations. *)
Definition ordered_range : MapRange := {|
  range_keys A m := (map_to_list m).*1;
  range_keys_perm A m := Permutation_refl _
|}.

Section map_range.
Context `{MR : MapRange} {A : Type}.
Implicit Types m : gmap string A.

Lemma elem_of_range_keys m k : k ∈ range_keys m ↔ is_Some (m !! k).
Proof.
  rewrite range_keys_perm, list_elem_of_fmap. split.
  - intros ([k' v] & -> & ?%elem_of_map_to_list). eauto.
  - intros [v ?]. exists (k, v). by rewrite elem_of_map_to_list.
Qed.

Lemma NoDup_range_keys m : NoDup (range_keys m).
Proof. rewrite range_keys_perm. apply NoDup_fst_map_to_list. Qed.

Lemma length_range_keys m : length (range_keys m) = size m.
Proof. rewrite range_keys_perm, length_fmap. by rewrite length_map_to_list. Qed.

Lemma range_keys_empty : range_keys (∅ : gmap string A) = [].
Proof. apply nil_length_inv. by rewrite length_range_keys, map_size_empty. Qed.

(** [for k, v := range m] *)
Definition range_kv m : list (string * A) :=
  omap (λ k, (λ v, (k, v)) <$> m !! k) (range_keys m).

Lemma elem_of_range_kv m k v : (k, v) ∈ range_kv m ↔ m !! k = Some v.
Proof.
  unfold range_kv. rewrite list_elem_of_omap. split.
  - intros (k' & ? & Hk). destruct (m !! k') eqn:?; naive_solver.
  - intros Hk. exists k. rewrite elem_of_range_keys, Hk. naive_solver.
Qed.
End map_range.

(** ** Strings *)

(** [strings.Split(s, sep)] for a separator of one byte. *)
Fixpoint split_go (sep : ascii) (cur : string) (s : string) : list string :=
  match s with
  | EmptyString => [String.rev cur]
  | String c s' =>
      if c == sep then String.rev cur :: split_go sep "" s'
      else split_go sep (String c cur) s'
  end.
Definition split (sep : ascii) (s : string) : list string := split_go sep "" s.

(** [strings.Contains(s, c)] for a pattern of one byte. *)
Fixpoint contains_char (c : ascii) (s : string) : bool :=
  match s with
  | EmptyString => false
  | String c' s' => (c' == c) || contains_char c s'
  end.

(** [strings.Cut(s, sep)] for a separator of one byte. *)
Fixpoint cut (sep : ascii) (s : string) : option (string * string) :=
  match s with
  | EmptyString => None
  | String c s' =>
      if c == sep then Some (""%string, s')
      else match cut sep s' with
           | Some (a, b) => Some (String c a, b)
           | None => None
           end
  end.

(** [strings.Replace(s, old, new, n)] for patterns of one byte. *)
Fixpoint replace_char (old new : ascii) (n : nat) (s : string) : string :=
  match s with
  | EmptyString => EmptyString
  | String c s' =>
      match n with
      | O => s
      | S n' =>
          if c == old then String new (replace_char old new n' s')
          else String c (replace_char old new n s')
      end
  end.

Section strings.
Local Open Scope string_scope.

Lemma string_app_nil_r (s : string) : s +:+ "" = s.
Proof. induction s; [done|]. change (String a s +:+ "") with (String a (s +:+ "")). by rewrite IHs. Qed.

Lemma string_app_assoc (a b c : string) : (a +:+ b) +:+ c = a +:+ (b +:+ c).
Proof.
  induction a as [|x a IH]; [done|].
  change (String x ((a +:+ b) +:+ c) = String x (a +:+ (b +:+ c))). by rewrite IH.
Qed.

Lemma string_app_cons c (a b : string) : String c a +:+ b = String c (a +:+ b).
Proof. done. Qed.

Lemma rev_app_spec (a b : string) : String.rev_app a b = String.rev a +:+ b.
Proof.
  unfold String.rev. revert b.
  assert (∀ b c : string, String.rev_app a (b +:+ c) = String.rev_app a b +:+ c) as Hgen.
  { induction a as [|x a IH]; intros b c; [done|]. simpl.
    by rewrite <- string_app_cons, IH. }
  intros b. apply (Hgen "" b).
Qed.

Lemma string_rev_cons c (s : string) : String.rev (String c s) = String.rev s +:+ String c "".
Proof. unfold String.rev at 1. simpl. apply rev_app_spec. Qed.

Lemma string_rev_app (a b : string) : String.rev (a +:+ b) = String.rev b +:+ String.rev a.
Proof.
  induction a as [|x a IH]; [by rewrite string_app_nil_r|].
  rewrite string_app_cons, !string_rev_cons, IH. apply string_app_assoc.
Qed.

Lemma string_rev_involutive (s : string) : String.rev (String.rev s) = s.
Proof.
  induction s as [|c s IH]; [done|].
  by rewrite string_rev_cons, string_rev_app, IH.
Qed.

Lemma contains_char_app c (a b : string) :
  contains_char c (a +:+ b) = contains_char c a || contains_char c b.
Proof.
  induction a as [|x a IH]; [done|].
  rewrite string_app_cons. simpl. by rewrite IH, orb_assoc.
Qed.

Lemma split_go_none sep cur (s : string) :
  contains_char sep s = false → split_go sep cur s = [String.rev cur +:+ s].
Proof.
  revert cur. induction s as [|c s IH]; intros cur; simpl.
  - by rewrite string_app_nil_r.
  - intros [Hc Hs]%orb_false_elim. rewrite Hc, IH by done.
    by rewrite string_rev_cons, string_app_assoc.
Qed.

Lemma split_none sep (s : string) : contains_char sep s = false → split sep s = [s].
Proof. apply split_go_none. Qed.

Lemma split_go_app sep cur (a b : string) :
  contains_char sep a = false →
  split_go sep cur (a +:+ String sep b) = (String.rev cur +:+ a) :: split sep b.
Proof.
  revert cur. induction a as [|c a IH]; intros cur; cbn [contains_char].
  - intros _. change ("" +:+ String sep b) with (String sep b). simpl.
    by rewrite bool_decide_true, string_app_nil_r by done.
  - intros [Hc Hs]%orb_false_elim. rewrite string_app_cons. simpl. rewrite Hc, IH by done.
    by rewrite string_rev_cons, string_app_assoc.
Qed.

Lemma split_app sep (a b : string) :
  contains_char sep a = false → split sep (a +:+ String sep b) = a :: split sep b.
Proof. apply split_go_app. Qed.

Lemma cut_app sep (a b : string) :
  contains_char sep a = false → cut sep (a +:+ String sep b) = Some (a, b).
Proof.
  induction a as [|c a IH]; cbn [contains_char].
  - intros _. change ("" +:+ String sep b) with (String sep b). simpl.
    by rewrite bool_decide_true by done.
  - intros [Hc Hs]%orb_false_elim. rewrite string_app_cons. simpl. by rewrite Hc, IH.
Qed.

Lemma cut_none sep (s : string) : contains_char sep s = false → cut sep s = None.
Proof.
  induction s as [|c s IH]; simpl; [done|].
  intros [Hc Hs]%orb_false_elim. by rewrite Hc, IH.
Qed.
End strings.
