(* ===== verification/NetIP.v ===== *)
(** * The parts of Go's [net], [net/netip], [bytes] and [math/big] the code uses

    An address ([net.IP]) is its slice of bytes, a byte being an integer in
    [0, 256); [nil] is the empty slice.  An [IPNet] is an address and a mask.
    The definitions follow the Go 1.25 standard library: the textual forms accepted by
    [netip.ParseAddr] and [net.ParseCIDR], the forms printed by [IP.String] and
    [IPNet.String], and the conversions between 4-byte and 16-byte forms. *)

From S2P Require Import Prelude.
Local Open Scope Z_scope.
Local Open Scope go_scope.

(** ** Bytes and big-endian integers *)

Definition is_byte (b : Z) : Prop := 0 ≤ b < 256.
Definition wf_bytes (l : list Z) : Prop := Forall is_byte l.

(** [big.Int.SetBytes] *)
Definition be (l : list Z) : Z := foldl (λ acc b, acc * 256 + b) 0 l.

(** The [k] low bytes of [n], most significant first. *)
Fixpoint be_split (k : nat) (n : Z) : list Z :=
  match k with
  | O => []
  | S k => be_split k (n / 256) ++ [n mod 256]
  end.

(** [big.Int.Bytes]: the shortest big-endian form of the absolute value. *)
Definition int_bytes (n : Z) : list Z :=
  let a := Z.abs n in
  if a =? 0 then [] else be_split (Z.to_nat (Z.log2 a / 8 + 1)) a.

(** [bytes.Compare] *)
Fixpoint bytes_compare (a b : list Z) : comparison :=
  match a, b with
  | [], [] => Eq
  | [], _ => Lt
  | _, [] => Gt
  | x :: a, y :: b =>
      match x ?= y with Eq => bytes_compare a b | c => c end
  end.

(** ** Addresses *)

Abbreviation IP := (list Z).
Definition nilIP : IP := [].

Definition v4InV6Prefix : list Z := [0; 0; 0; 0; 0; 0; 0; 0; 0; 0; 255; 255].

(** [IP.To4] *)
Definition To4 (ip : IP) : IP :=
  if (length ip =? 4)%nat then ip
  else if (length ip =? 16)%nat && (take 12 ip == v4InV6Prefix) then drop 12 ip
  else nilIP.

(** [IP.To16] *)
Definition To16 (ip : IP) : IP :=
  if (length ip =? 4)%nat then v4InV6Prefix ++ ip
  else if (length ip =? 16)%nat then ip
  else nilIP.

(** [IP.Equal] *)
Definition ip_equal (a b : IP) : bool :=
  if (length a =? length b)%nat then (a == b)
  else if (length a =? 4)%nat && (length b =? 16)%nat then
    (take 12 b == v4InV6Prefix) && (a == drop 12 b)
  else if (length a =? 16)%nat && (length b =? 4)%nat then
    (take 12 a == v4InV6Prefix) && (drop 12 a == b)
  else false.

Definition is_nil (ip : IP) : bool := (ip == nilIP).

(** ** Printing *)

Definition digit_char (d : Z) : ascii :=
  ascii_of_nat (Z.to_nat (if d <? 10 then 48 + d else 87 + d)).

(** [appendDecimal] for one byte, as [netip.Addr.String] prints IPv4. *)
Definition dec_byte (x : Z) : string :=
  let s := String (digit_char (x mod 10)) "" in
  let s := if 10 <=? x then String (digit_char (x / 10 mod 10)) s else s in
  if 100 <=? x then String (digit_char (x / 100)) s else s.

(** [appendHex] for one 16-bit group. *)
Definition hex_group (x : Z) : string :=
  let s := String (digit_char (x mod 16)) "" in
  let s := if 16 <=? x then String (digit_char (x / 16 mod 16)) s else s in
  let s := if 256 <=? x then String (digit_char (x / 256 mod 16)) s else s in
  if 4096 <=? x then String (digit_char (x / 4096)) s else s.

Fixpoint join (sep : string) (l : list string) : string :=
  match l with
  | [] => ""
  | [s] => s
  | s :: l => s +:+ sep +:+ join sep l
  end.

Definition string4 (l : list Z) : string := join "." (dec_byte <$> l).

(** The 16-bit groups of an IPv6 address, and back. *)
Fixpoint groups (l : list Z) : list Z :=
  match l with
  | a :: b :: l => a * 256 + b :: groups l
  | _ => []
  end.
Definition ungroup (g : Z) : list Z := [g / 256; g mod 256].

(** Number of leading zero groups. *)
Fixpoint zero_run (gs : list Z) : nat :=
  match gs with
  | 0 :: gs => S (zero_run gs)
  | _ => O
  end.

(** The loop of [appendTo6] that looks for the first longest run of at least
    two zero groups: (start, end), (255, 255) for none. *)
Fixpoint find_zeros (i : nat) (gs : list Z) (best : nat * nat) : nat * nat :=
  match gs with
  | [] => best
  | g :: gs' =>
      let l := zero_run gs in
      let best' := if (2 <=? l)%nat && (snd best - fst best <? l)%nat
                   then (i, i + l)%nat else best in
      find_zeros (S i) gs' best'
  end.

Definition string6 (ip : list Z) : string :=
  let gs := groups ip in
  let '(zs, ze) := find_zeros 0 gs (255, 255)%nat in
  if (zs <? 8)%nat then
    join ":" (hex_group <$> take zs gs) +:+ "::" +:+ join ":" (hex_group <$> drop ze gs)
  else join ":" (hex_group <$> gs).

(** [hexString], used only for slices that are not addresses. *)
Definition hex_string (l : list Z) : string :=
  foldr (λ b s, String (digit_char (b / 16)) (String (digit_char (b mod 16)) s)) ""%string l.

(** [IP.String] *)
Definition ip_string (ip : IP) : string :=
  if (length ip =? 0)%nat then "<nil>"
  else if negb ((length ip =? 4)%nat || (length ip =? 16)%nat) then "?" +:+ hex_string ip
  else if (length (To4 ip) =? 4)%nat then string4 (To4 ip)
  else string6 ip.

(** ** Parsing *)

Definition digit_val (c : ascii) : option Z :=
  let n := Z.of_nat (nat_of_ascii c) in
  if (48 <=? n) && (n <=? 57) then Some (n - 48) else None.

Definition hex_val (c : ascii) : option Z :=
  let n := Z.of_nat (nat_of_ascii c) in
  if (48 <=? n) && (n <=? 57) then Some (n - 48)
  else if (97 <=? n) && (n <=? 102) then Some (n - 97 + 10)
  else if (65 <=? n) && (n <=? 70) then Some (n - 65 + 10)
  else None.

(** [parseIPv4Fields]: [afterDot] says that the index is 0 or that the previous
    byte is a dot. *)
Fixpoint parseIPv4Fields (s : string) (afterDot : bool) (digLen : nat) (val : Z)
    (fields : list Z) : option (list Z) :=
  match s with
  | EmptyString => if (length fields <? 3)%nat then None else Some (fields ++ [val])
  | String c s' =>
      match digit_val c with
      | Some d =>
          if (digLen =? 1)%nat && (val =? 0) then None
          else
            let val := val * 10 + d in
            if 255 <? val then None else parseIPv4Fields s' false (S digLen) val fields
      | None =>
          if c == "."%char then
            if afterDot || (s' == EmptyString) then None
            else if (length fields =? 3)%nat then None
            else parseIPv4Fields s' true 0 0 (fields ++ [val])
          else None
      end
  end.

Definition parseIPv4 (s : string) : option (list Z) := parseIPv4Fields s true 0 0 [].

(** The scan of one hexadecimal group: digits read, value, rest. *)
Fixpoint scan_hex (s : string) (off : nat) (acc : Z) : option (nat * Z * string) :=
  match s with
  | EmptyString => Some (off, acc, s)
  | String c s' =>
      match hex_val c with
      | Some d =>
          let acc := acc * 16 + d in
          if (3 <? off)%nat then None
          else if 65535 <? acc then None
          else scan_hex s' (S off) acc
      | None => Some (off, acc, s)
      end
  end.

(** The group loop of [parseIPv6]; [n] is the number of groups still to be read
    ([(16 - i) / 2]), [ip] the bytes read so far.  The result is the bytes, the
    position of the ellipsis and the unread text. *)
Fixpoint parse6_loop (n : nat) (s : string) (ip : list Z) (ellipsis : option nat)
    : option (list Z * option nat * string) :=
  match n with
  | O => Some (ip, ellipsis, s)
  | S n =>
      '(off, acc, rest) ← scan_hex s 0 0;
      if (off =? 0)%nat then None
      else match rest with
      | EmptyString => Some (ip ++ ungroup acc, ellipsis, ""%string)
      | String c rest' =>
          if c == "."%char then
            if (ellipsis == None) && negb (length ip =? 12)%nat then None
            else if (16 <? length ip + 4)%nat then None
            else v4 ← parseIPv4 s; Some (ip ++ v4, ellipsis, ""%string)
          else if c != ":"%char then None
          else match rest' with
          | EmptyString => None
          | String c2 rest'' =>
              let ip := ip ++ ungroup acc in
              if c2 == ":"%char then
                match ellipsis with
                | Some _ => None
                | None =>
                    match rest'' with
                    | EmptyString => Some (ip, Some (length ip), ""%string)
                    | _ => parse6_loop n rest'' ip (Some (length ip))
                    end
                end
              else parse6_loop n rest' ip ellipsis
          end
      end
  end.

(** The end of [parseIPv6]: expand the ellipsis. *)
Definition expand6 (r : list Z * option nat * string) : option (list Z) :=
  let '(ip, ellipsis, s) := r in
  if s != EmptyString then None
  else if (length ip <? 16)%nat then
    e ← ellipsis;
    Some (take e ip ++ replicate (16 - length ip) 0 ++ drop e ip)
  else match ellipsis with Some _ => None | None => Some ip end.

(** A [netip.Addr]: 4 or 16 bytes and a zone. *)
Record Addr := MkAddr { addr_bytes : list Z; addr_zone : string }.

Definition parse6_body (s : string) : option (list Z) :=
  match s with
  | String c1 (String c2 s') =>
      if (c1 == ":"%char) && (c2 == ":"%char) then
        if s' == EmptyString then Some (replicate 16 0)
        else parse6_loop 8 s' [] (Some 0%nat) ≫= expand6
      else parse6_loop 8 s [] None ≫= expand6
  | _ => parse6_loop 8 s [] None ≫= expand6
  end.

Definition parseIPv6 (s : string) : option Addr :=
  match cut "%" s with
  | Some (body, zone) =>
      if zone == EmptyString then None
      else b ← parse6_body body; Some (MkAddr b zone)
  | None => b ← parse6_body s; Some (MkAddr b "")
  end.

(** [netip.ParseAddr]: the first of '.', ':', '%' decides the family. *)
Fixpoint addr_family (s : string) : option bool :=
  match s with
  | EmptyString => None
  | String c s' =>
      if c == "."%char then Some true
      else if c == ":"%char then Some false
      else if c == "%"%char then None
      else addr_family s'
  end.

Definition ParseAddr (s : string) : option Addr :=
  match addr_family s with
  | Some true => b ← parseIPv4 s; Some (MkAddr b "")
  | Some false => parseIPv6 s
  | None => None
  end.

(** [net.ParseIP] *)
Definition net_ParseIP (s : string) : IP :=
  match ParseAddr s with
  | Some a => if addr_zone a == EmptyString then To16 (addr_bytes a) else nilIP
  | None => nilIP
  end.

(** ** Prefixes *)

Record IPNet := MkIPNet { net_ip : IP; net_mask : list Z }.

(** One byte of [net.CIDRMask]. *)
Definition mask_byte (ones : Z) : Z := 256 - 2 ^ (8 - Z.max 0 (Z.min 8 ones)).

(** [net.CIDRMask(ones, 8 * l)] for [0 <= ones <= 8 * l]. *)
Definition CIDRMask (ones : Z) (l : nat) : list Z :=
  (λ i, mask_byte (ones - 8 * Z.of_nat i)) <$> seq 0 l.

Definition and_bytes (a m : list Z) : list Z := zip_with Z.land a m.

(** [IP.Mask] *)
Definition ip_mask (ip : IP) (mask : list Z) : IP :=
  let mask := if (length mask =? 16)%nat && (length ip =? 4)%nat
                 && (take 12 mask == replicate 12 255)
              then drop 12 mask else mask in
  let ip := if (length mask =? 4)%nat && (length ip =? 16)%nat
               && (take 12 ip == v4InV6Prefix)
            then drop 12 ip else ip in
  if (length ip =? length mask)%nat then and_bytes ip mask else nilIP.

(** [dtoi]: the leading decimal digits; [None] for none or for an overflow,
    otherwise the value and the unread rest. *)
Fixpoint dtoi_go (s : string) (n : Z) (i : nat) : option (Z * nat * string) :=
  match s with
  | EmptyString => Some (n, i, s)
  | String c s' =>
      match digit_val c with
      | Some d =>
          let n := n * 10 + d in
          if 16777215 <=? n then None else dtoi_go s' n (S i)
      | None => Some (n, i, s)
      end
  end.
Definition dtoi (s : string) : option (Z * string) :=
  '(n, i, rest) ← dtoi_go s 0 0%nat;
  if (i =? 0)%nat then None else Some (n, rest).

(** [net.ParseCIDR] *)
Definition net_ParseCIDR (s : string) : option (IP * IPNet) :=
  '(addr, mask) ← cut "/" s;
  a ← ParseAddr addr;
  if addr_zone a != EmptyString then None
  else
    '(n, rest) ← dtoi mask;
    let bitlen := 8 * Z.of_nat (length (addr_bytes a)) in
    if (rest != EmptyString) || (bitlen <? n) then None
    else
      let m := CIDRMask n (length (addr_bytes a)) in
      let ip := To16 (addr_bytes a) in
      Some (ip, MkIPNet (ip_mask ip m) m).

(** [networkNumberAndMask]; [None] stands for (nil, nil). *)
Definition networkNumberAndMask (n : IPNet) : option (IP * list Z) :=
  let v4 := To4 (net_ip n) in
  let ip := if is_nil v4 then net_ip n else v4 in
  if is_nil v4 && negb (length ip =? 16)%nat then None
  else if (length (net_mask n) =? 4)%nat then
    if (length ip =? 4)%nat then Some (ip, net_mask n) else None
  else if (length (net_mask n) =? 16)%nat then
    if (length ip =? 4)%nat then Some (ip, drop 12 (net_mask n)) else Some (ip, net_mask n)
  else None.

(** [IPNet.Contains] *)
Definition net_contains (n : IPNet) (ip : IP) : bool :=
  let '(nn, m) := default (nilIP, []) (networkNumberAndMask n) in
  let x := To4 ip in
  let ip := if is_nil x then ip else x in
  if negb (length ip =? length nn)%nat then false
  else (and_bytes nn m == and_bytes ip m).

(** [simpleMaskLength]: number of leading ones, [None] when a one follows a zero. *)
Definition byte_ones (b : Z) : option Z :=
  if bool_decide (b ∈ [0; 128; 192; 224; 240; 248; 252; 254]) then
    Some (8 - Z.log2 (256 - b))
  else None.
Fixpoint simpleMaskLength (m : list Z) : option Z :=
  match m with
  | [] => Some 0
  | b :: m' =>
      if b =? 255 then n ← simpleMaskLength m'; Some (8 + n)
      else n ← byte_ones b;
           if bool_decide (Forall (λ x, x = 0) m') then Some n else None
  end.

(** [IPMask.Size], first result: (0, 0) for a mask not in canonical form. *)
Definition mask_ones (m : list Z) : Z := default 0 (simpleMaskLength m).

(** Decimal of a non-negative number ([itoa.Uitoa], [strconv.Itoa]). *)
Fixpoint itoa_go (fuel : nat) (n : Z) (s : string) : string :=
  match fuel with
  | O => s
  | S fuel =>
      let s := String (digit_char (n mod 10)) s in
      if n <? 10 then s else itoa_go fuel (n / 10) s
  end.
Definition itoa (n : Z) : string := itoa_go (S (Z.to_nat (Z.log2 n))) n "".

(** [IPNet.String] *)
Definition net_string (n : IPNet) : string :=
  match networkNumberAndMask n with
  | None => "<nil>"
  | Some (nn, m) =>
      match simpleMaskLength m with
      | None => ip_string nn +:+ "/" +:+ hex_string m
      | Some l => ip_string nn +:+ "/" +:+ itoa l
      end
  end.
