(* ===== verification/NetIPFacts.v ===== *)
(** * Facts about addresses: integers, order, parse/print round trip

    [be]/[be_split] are inverse on byte lists, [bytes.Compare] is the order of the
    integers, and [net.ParseIP] inverts [IP.String] for every IPv4 and IPv6 address. *)

From S2P Require Import Prelude NetIP.
Local Open Scope Z_scope.
Local Open Scope go_scope.

(** ** Big-endian integers *)

Lemma pow256_pos k : 0 < 256 ^ Z.of_nat k.
Proof. apply Z.pow_pos_nonneg; lia. Qed.

Lemma pow256_S k : 256 ^ Z.of_nat (S k) = 256 * 256 ^ Z.of_nat k.
Proof. rewrite Nat2Z.inj_succ, Z.pow_succ_r by lia. done. Qed.

Lemma be_snoc l b : be (l ++ [b]) = be l * 256 + b.
Proof. unfold be. by rewrite foldl_app. Qed.

Lemma be_app a b : be (a ++ b) = be a * 256 ^ Z.of_nat (length b) + be b.
Proof.
  induction b as [|x b IH] using rev_ind.
  - rewrite app_nil_r. cbn. lia.
  - rewrite app_assoc, !be_snoc, IH, length_app. cbn [length].
    rewrite Nat.add_1_r, pow256_S. lia.
Qed.

Lemma be_cons x l : be (x :: l) = x * 256 ^ Z.of_nat (length l) + be l.
Proof. apply (be_app [x] l). Qed.

Lemma be_bound l : wf_bytes l → 0 ≤ be l < 256 ^ Z.of_nat (length l).
Proof.
  induction l as [|x l IH] using rev_ind; [cbn; lia|].
  intros [Hl [Hx _]%Forall_cons]%Forall_app. rewrite be_snoc, length_app. cbn [length].
  rewrite Nat.add_1_r, pow256_S. specialize (IH Hl). unfold is_byte in Hx.
  set (p := 256 ^ Z.of_nat (length l)) in *. lia.
Qed.

Lemma length_be_split k n : length (be_split k n) = k.
Proof.
  revert n. induction k as [|k IH]; intros n; cbn; [done|].
  rewrite length_app, IH. cbn. lia.
Qed.

Lemma wf_be_split k n : wf_bytes (be_split k n).
Proof.
  revert n. induction k as [|k IH]; intros n; cbn; [constructor|].
  apply Forall_app. split; [apply IH|]. constructor; [|constructor].
  apply Z.mod_pos_bound. lia.
Qed.

Lemma be_be_split k n : be (be_split k n) = n mod 256 ^ Z.of_nat k.
Proof.
  revert n. induction k as [|k IH]; intros n; cbn [be_split].
  - cbn. by rewrite Z.mod_1_r.
  - rewrite be_snoc, IH, pow256_S. pose proof (pow256_pos k).
    rewrite (Z.rem_mul_r n 256) by lia. lia.
Qed.

Lemma be_be_split_small k n : 0 ≤ n < 256 ^ Z.of_nat k → be (be_split k n) = n.
Proof. intros. rewrite be_be_split. by apply Z.mod_small. Qed.

Lemma be_split_be l : wf_bytes l → be_split (length l) (be l) = l.
Proof.
  induction l as [|x l IH] using rev_ind; [done|].
  intros [Hl [Hx _]%Forall_cons]%Forall_app. unfold is_byte in Hx.
  rewrite length_app, be_snoc. cbn [length]. rewrite Nat.add_1_r. cbn [be_split].
  rewrite Z.add_comm, Z.div_add, Z.mod_add by lia.
  rewrite Z.div_small, Z.mod_small, Z.add_0_l by lia. by rewrite IH.
Qed.

Lemma be_split_be' k l : wf_bytes l → length l = k → be_split k (be l) = l.
Proof. intros ? <-. by apply be_split_be. Qed.

Lemma be_inj a b :
  wf_bytes a → wf_bytes b → length a = length b → be a = be b → a = b.
Proof.
  intros Ha Hb Hl He. rewrite <- (be_split_be a), <- (be_split_be b) by done.
  by rewrite Hl, He.
Qed.

(** [bytes.Compare] on slices of one length is the order of the integers. *)
Lemma bytes_compare_be a b :
  wf_bytes a → wf_bytes b → length a = length b → bytes_compare a b = (be a ?= be b).
Proof.
  revert b. induction a as [|x a IH]; intros [|y b] Ha Hb Hl; try done.
  apply Forall_cons in Ha as [Hx Ha], Hb as [Hy Hb]. injection Hl as Hl.
  cbn [bytes_compare]. rewrite !be_cons, Hl, IH by done.
  pose proof (be_bound a Ha). pose proof (be_bound b Hb). rewrite Hl in *.
  set (p := 256 ^ Z.of_nat (length b)) in *.
  destruct (Z.compare_spec x y) as [->|Hlt|Hgt].
  - symmetry. destruct (Z.compare_spec (be a) (be b)) as [He|?|?].
    + rewrite He. apply Z.compare_refl.
    + apply Z.compare_lt_iff. lia.
    + apply Z.compare_gt_iff. lia.
  - symmetry. apply Z.compare_lt_iff. nia.
  - symmetry. apply Z.compare_gt_iff. nia.
Qed.

Lemma int_bytes_spec k n :
  256 ^ Z.of_nat k ≤ n < 256 ^ Z.of_nat (S k) → int_bytes n = be_split (S k) n.
Proof.
  intros Hn. pose proof (pow256_pos k). unfold int_bytes.
  rewrite Z.abs_eq by lia. destruct (Z.eqb_spec n 0); [lia|].
  assert (8 * Z.of_nat k ≤ Z.log2 n < 8 * Z.of_nat (S k)) as Hlog.
  { change 256 with (2 ^ 8) in Hn. rewrite <- !Z.pow_mul_r in Hn by lia.
    split; [apply Z.log2_le_pow2|apply Z.log2_lt_pow2]; lia. }
  replace (Z.log2 n / 8) with (Z.of_nat k); [f_equal; lia|].
  apply Z.div_unique with (r := Z.log2 n - 8 * Z.of_nat k); lia.
Qed.

Lemma length_int_bytes k n :
  0 < n < 256 ^ Z.of_nat k → (length (int_bytes n) ≤ k)%nat.
Proof.
  intros Hn. unfold int_bytes. rewrite Z.abs_eq by lia.
  destruct (Z.eqb_spec n 0); [cbn; lia|]. rewrite length_be_split.
  assert (Z.log2 n < 8 * Z.of_nat k) as Hlog.
  { change 256 with (2 ^ 8) in Hn. rewrite <- Z.pow_mul_r in Hn by lia.
    apply Z.log2_lt_pow2; lia. }
  pose proof (Z.log2_nonneg n). assert (Z.log2 n / 8 < Z.of_nat k) by (apply Z.div_lt_upper_bound; lia).
  pose proof (Z.div_pos (Z.log2 n) 8). lia.
Qed.

Lemma length_int_bytes_ge k n :
  256 ^ Z.of_nat k ≤ n → (k < length (int_bytes n))%nat.
Proof.
  intros Hn. pose proof (pow256_pos k). unfold int_bytes. rewrite Z.abs_eq by lia.
  destruct (Z.eqb_spec n 0); [lia|]. rewrite length_be_split.
  assert (8 * Z.of_nat k ≤ Z.log2 n) as Hlog.
  { change 256 with (2 ^ 8) in Hn. rewrite <- Z.pow_mul_r in Hn by lia.
    apply Z.log2_le_pow2; lia. }
  assert (Z.of_nat k ≤ Z.log2 n / 8) by (apply Z.div_le_lower_bound; lia). lia.
Qed.

(** ** Digits *)

Lemma digit_cases d : 0 ≤ d < 16 →
  d ∈ [0; 1; 2; 3; 4; 5; 6; 7; 8; 9; 10; 11; 12; 13; 14; 15].
Proof. intros. rewrite !elem_of_cons. lia. Qed.

Lemma digit_forall (P : Z → Prop) :
  Forall P [0; 1; 2; 3; 4; 5; 6; 7; 8; 9; 10; 11; 12; 13; 14; 15] →
  ∀ d, 0 ≤ d < 16 → P d.
Proof. intros HP d Hd. rewrite Forall_forall in HP. by apply HP, digit_cases. Qed.

Lemma hex_val_digit_char d : 0 ≤ d < 16 → hex_val (digit_char d) = Some d.
Proof. revert d. apply (digit_forall (λ d, hex_val (digit_char d) = Some d)). repeat constructor. Qed.

Lemma digit_val_digit_char d : 0 ≤ d < 10 → digit_val (digit_char d) = Some d.
Proof.
  intros Hd. assert (0 ≤ d < 16) as Hd' by lia. revert d Hd' Hd.
  apply (digit_forall (λ d, 0 ≤ d < 10 → digit_val (digit_char d) = Some d)).
  repeat (apply Forall_cons; split; [done || (intros; lia)|]). constructor.
Qed.

(** The characters of a printed address: digits, dots and colons. *)
Definition addr_char (c : ascii) : bool :=
  bool_decide (is_Some (hex_val c)) || (c == "."%char) || (c == ":"%char).

Fixpoint string_forall (P : ascii → bool) (s : string) : bool :=
  match s with
  | EmptyString => true
  | String c s => P c && string_forall P s
  end.

Lemma string_forall_app P (a b : string) :
  string_forall P (a +:+ b) = string_forall P a && string_forall P b.
Proof.
  induction a as [|c a IH]; [done|]. rewrite string_app_cons. cbn. by rewrite IH, andb_assoc.
Qed.

Lemma string_forall_contains P c (s : string) :
  string_forall P s = true → P c = false → contains_char c s = false.
Proof.
  intros Hs Hc. induction s as [|c' s IH]; [done|]. cbn in *.
  apply andb_true_iff in Hs as [Hc' Hs]. rewrite IH by done.
  rewrite bool_decide_false; [done|]. congruence.
Qed.

Definition is_hex (c : ascii) : bool := bool_decide (is_Some (hex_val c)).

Lemma is_hex_digit_char d : 0 ≤ d < 16 → is_hex (digit_char d) = true.
Proof. intros. unfold is_hex. rewrite hex_val_digit_char by done. by apply bool_decide_true. Qed.

(** ** IPv4 round trip *)

Lemma dec_byte_chars x : is_byte x → string_forall is_hex (dec_byte x) = true.
Proof.
  intros Hx. unfold is_byte in Hx.
  assert (0 ≤ x / 100 < 3) by (split; [apply Z.div_pos|apply Z.div_lt_upper_bound]; lia).
  pose proof (Z.mod_pos_bound x 10). pose proof (Z.mod_pos_bound (x / 10) 10).
  unfold dec_byte. destruct (10 <=? x), (100 <=? x); cbn [string_forall];
    rewrite !is_hex_digit_char by lia; done.
Qed.

Lemma parse_digit s d b n v fields :
  0 ≤ d < 10 → ¬ (n = 1%nat ∧ v = 0) → v * 10 + d ≤ 255 →
  parseIPv4Fields (String (digit_char d) s) b n v fields
  = parseIPv4Fields s false (S n) (v * 10 + d) fields.
Proof.
  intros Hd Hnv Hle. cbn [parseIPv4Fields]. rewrite digit_val_digit_char by done.
  replace ((n =? 1)%nat && (v =? 0)) with false; cycle 1.
  { symmetry. apply andb_false_iff. rewrite Nat.eqb_neq, Z.eqb_neq. lia. }
  replace (255 <? v * 10 + d) with false by (symmetry; apply Z.ltb_ge; lia). done.
Qed.

Lemma parse_dec_byte x b s fields :
  is_byte x →
  ∃ n, parseIPv4Fields (dec_byte x +:+ s) b 0 0 fields
       = parseIPv4Fields s false n x fields.
Proof.
  intros Hx. unfold is_byte in Hx. unfold dec_byte.
  pose proof (Z.div_mod x 10). pose proof (Z.mod_pos_bound x 10).
  pose proof (Z.div_mod (x / 10) 10). pose proof (Z.mod_pos_bound (x / 10) 10).
  assert (x / 100 = x / 10 / 10) as E by (rewrite Z.div_div by lia; done).
  assert (0 ≤ x / 10) by (apply Z.div_pos; lia).
  destruct (Z.leb_spec 10 x), (Z.leb_spec 100 x); try lia; rewrite ?string_app_cons.
  - exists 3%nat. rewrite !parse_digit by lia. f_equal. lia.
  - exists 2%nat. rewrite !parse_digit by lia. f_equal. lia.
  - exists 1%nat. rewrite !parse_digit by lia. f_equal. lia.
Qed.

Lemma parse_dot s n v fields :
  s ≠ ""%string → (length fields < 3)%nat →
  parseIPv4Fields (String "." s) false n v fields
  = parseIPv4Fields s true 0 0 (fields ++ [v]).
Proof.
  intros Hs Hl. cbn [parseIPv4Fields].
  rewrite (bool_decide_true ("."%char = "."%char)) by done. rewrite (bool_decide_false (s = _)) by done.
  cbn. replace (length fields =? 3)%nat with false; [done|]. symmetry. apply Nat.eqb_neq. lia.
Qed.

Lemma dec_byte_cons x : ∃ c s, dec_byte x = String c s.
Proof. unfold dec_byte. destruct (100 <=? x), (10 <=? x); eauto. Qed.

Lemma parse_field x s fields :
  is_byte x → s ≠ ""%string → (length fields < 3)%nat →
  parseIPv4Fields (dec_byte x +:+ String "." s) true 0 0 fields
  = parseIPv4Fields s true 0 0 (fields ++ [x]).
Proof.
  intros Hx Hs Hl. destruct (parse_dec_byte x true (String "." s) fields Hx) as [n ->].
  by apply parse_dot.
Qed.

Lemma dec_byte_app_ne x s : dec_byte x +:+ s ≠ ""%string.
Proof. destruct (dec_byte_cons x) as (? & ? & ->). done. Qed.

Lemma string4_eq x1 x2 x3 x4 :
  string4 [x1; x2; x3; x4] =
  dec_byte x1 +:+ String "." (dec_byte x2 +:+ String "." (dec_byte x3 +:+ String "." (dec_byte x4 +:+ ""))).
Proof. rewrite string_app_nil_r. reflexivity. Qed.

Lemma parseIPv4_string4 l :
  wf_bytes l → length l = 4%nat → parseIPv4 (string4 l) = Some l.
Proof.
  intros Hwf Hlen. destruct l as [|x1 [|x2 [|x3 [|x4 [|]]]]]; try discriminate.
  apply Forall_cons in Hwf as [H1 [H2 [H3 [H4 _]%Forall_cons]%Forall_cons]%Forall_cons].
  unfold parseIPv4. rewrite string4_eq.
  rewrite !parse_field; try (done || apply dec_byte_app_ne || (cbn; lia)).
  edestruct parse_dec_byte as [n4 ->]; done.
Qed.

(** ** IPv6 round trip *)

Definition is_group (g : Z) : Prop := 0 ≤ g < 65536.

Lemma groups_ungroup l k :
  wf_bytes l → length l = (2 * k)%nat →
  concat (ungroup <$> groups l) = l ∧ Forall is_group (groups l) ∧ length (groups l) = k.
Proof.
  revert l. induction k as [|k IH]; intros l Hwf Hlen.
  - by apply nil_length_inv in Hlen as ->.
  - destruct l as [|x [|y l]]; cbn in Hlen; try lia.
    apply Forall_cons in Hwf as [Hx [Hy Hwf]%Forall_cons].
    destruct (IH l) as (He & Hg & Hl); [done|cbn in *; lia|].
    unfold is_byte in *. cbn [groups fmap list_fmap concat length].
    rewrite He, Hl. split_and!; [|constructor; [|done]|done].
    + unfold ungroup. rewrite Z.add_comm, Z.div_add, Z.mod_add by lia.
      rewrite Z.div_small, Z.mod_small by lia. done.
    + unfold is_group. lia.
Qed.

Definition ends_group (s : string) : Prop :=
  match s with EmptyString => True | String c _ => hex_val c = None end.

Lemma scan_hex_digit s d off acc :
  0 ≤ d < 16 → (off ≤ 3)%nat → acc * 16 + d < 65536 →
  scan_hex (String (digit_char d) s) off acc = scan_hex s (S off) (acc * 16 + d).
Proof.
  intros Hd Ho Ha. cbn [scan_hex]. rewrite hex_val_digit_char by done.
  replace (3 <? off)%nat with false by (symmetry; apply Nat.ltb_ge; lia).
  replace (65535 <? acc * 16 + d) with false by (symmetry; apply Z.ltb_ge; lia). done.
Qed.

Lemma scan_hex_end s off acc : ends_group s → scan_hex s off acc = Some (off, acc, s).
Proof. destruct s as [|c s]; cbn; [done|]. by intros ->. Qed.

Lemma scan_hex_group g s :
  is_group g → ends_group s →
  ∃ n, scan_hex (hex_group g +:+ s) 0 0 = Some (S n, g, s).
Proof.
  intros Hg Hs. unfold is_group in Hg. unfold hex_group.
  pose proof (Z.div_mod g 16). pose proof (Z.mod_pos_bound g 16).
  pose proof (Z.div_mod (g / 16) 16). pose proof (Z.mod_pos_bound (g / 16) 16).
  pose proof (Z.div_mod (g / 256) 16). pose proof (Z.mod_pos_bound (g / 256) 16).
  assert (g / 256 = g / 16 / 16) as E by (rewrite Z.div_div by lia; done).
  assert (g / 4096 = g / 256 / 16) as E' by (rewrite Z.div_div by lia; done).
  assert (0 ≤ g / 256) by (apply Z.div_pos; lia).
  destruct (Z.leb_spec 16 g), (Z.leb_spec 256 g), (Z.leb_spec 4096 g); try lia;
    rewrite ?string_app_cons.
  - exists 3%nat. rewrite !scan_hex_digit, scan_hex_end by (lia || done). repeat f_equal. lia.
  - exists 2%nat. rewrite !scan_hex_digit, scan_hex_end by (lia || done). repeat f_equal. lia.
  - exists 1%nat. rewrite !scan_hex_digit, scan_hex_end by (lia || done). repeat f_equal. lia.
  - exists 0%nat. rewrite !scan_hex_digit, scan_hex_end by (lia || done). repeat f_equal. lia.
Qed.

Lemma hex_group_chars g : is_group g → string_forall is_hex (hex_group g) = true.
Proof.
  intros Hg. unfold is_group in Hg.
  assert (0 ≤ g / 4096 < 16) by (split; [apply Z.div_pos|apply Z.div_lt_upper_bound]; lia).
  pose proof (Z.mod_pos_bound g 16). pose proof (Z.mod_pos_bound (g / 16) 16).
  pose proof (Z.mod_pos_bound (g / 256) 16).
  unfold hex_group. destruct (16 <=? g), (256 <=? g), (4096 <=? g); cbn [string_forall];
    rewrite !is_hex_digit_char by lia; done.
Qed.

Lemma hex_group_cons g : is_group g → ∃ c s, hex_group g = String c s ∧ is_hex c = true.
Proof.
  intros Hg. pose proof (hex_group_chars g Hg) as Hc.
  destruct (hex_group g) as [|c s] eqn:E.
  - exfalso. revert E. unfold hex_group. by destruct (16 <=? g), (256 <=? g), (4096 <=? g).
  - cbn in Hc. apply andb_true_iff in Hc as [? _]. eauto.
Qed.

Lemma is_hex_not c c' : is_hex c = true → hex_val c' = None → c ≠ c'.
Proof. intros H H' ->. unfold is_hex in H. rewrite H' in H. done. Qed.

Definition J (gs : list Z) : string := join ":" (hex_group <$> gs).

Lemma J_cons g g' gs : J (g :: g' :: gs) = hex_group g +:+ String ":" (J (g' :: gs)).
Proof. done. Qed.

Lemma J_start g gs : is_group g → ∃ c s, J (g :: gs) = String c s ∧ is_hex c = true.
Proof.
  intros Hg. destruct (hex_group_cons g Hg) as (c & s & E & Hc).
  destruct gs as [|g' gs].
  - exists c, s. done.
  - rewrite J_cons, E, string_app_cons. eauto.
Qed.

(** One iteration of the group loop on a group followed by a colon. *)
Lemma parse6_loop_group n g s ip e :
  is_group g →
  parse6_loop (S n) (hex_group g +:+ String ":" s) ip e =
  match s with
  | EmptyString => None
  | String c2 s' =>
      if c2 == ":"%char then
        match e with
        | Some _ => None
        | None =>
            match s' with
            | EmptyString => Some (ip ++ ungroup g, Some (length (ip ++ ungroup g)), ""%string)
            | _ => parse6_loop n s' (ip ++ ungroup g) (Some (length (ip ++ ungroup g)))
            end
        end
      else parse6_loop n s (ip ++ ungroup g) e
  end.
Proof.
  intros Hg. cbn [parse6_loop].
  destruct (scan_hex_group g (String ":" s) Hg eq_refl) as [k ->]. done.
Qed.

Lemma parse6_loop_last n g ip e :
  is_group g → parse6_loop (S n) (hex_group g) ip e = Some (ip ++ ungroup g, e, ""%string).
Proof.
  intros Hg. cbn [parse6_loop].
  destruct (scan_hex_group g "" Hg I) as [k Hk]. rewrite string_app_nil_r in Hk. by rewrite Hk.
Qed.

Lemma parse6_loop_J gs n ip e :
  Forall is_group gs → gs ≠ [] → (length gs ≤ n)%nat →
  parse6_loop n (J gs) ip e = Some (ip ++ concat (ungroup <$> gs), e, ""%string).
Proof.
  revert n ip. induction gs as [|g gs IH]; intros n ip Hg Hne Hn; [done|].
  apply Forall_cons in Hg as [Hg Hgs]. destruct n as [|n]; [cbn in Hn; lia|].
  destruct gs as [|g' gs].
  - change (J [g]) with (hex_group g). by rewrite parse6_loop_last.
  - rewrite J_cons, parse6_loop_group by done.
    assert (is_group g') as Hg' by (by apply Forall_cons in Hgs as [? _]).
    specialize (IH n (ip ++ ungroup g) Hgs ltac:(done) ltac:(cbn in *; lia)).
    destruct (J_start g' gs Hg') as (c & s & E & Hc). rewrite E in *.
    rewrite bool_decide_false by (by apply (is_hex_not c)).
    rewrite IH, <- app_assoc. done.
Qed.

Lemma parse6_loop_ellipsis gs1 gs2 n ip :
  Forall is_group gs1 → Forall is_group gs2 → gs1 ≠ [] → (length gs1 + length gs2 ≤ n)%nat →
  parse6_loop n (J gs1 +:+ "::" +:+ J gs2) ip None =
  Some (ip ++ concat (ungroup <$> gs1) ++ concat (ungroup <$> gs2),
        Some (length (ip ++ concat (ungroup <$> gs1))), ""%string).
Proof.
  revert n ip. induction gs1 as [|g gs IH]; intros n ip Hg1 Hg2 Hne Hn; [done|].
  apply Forall_cons in Hg1 as [Hg Hgs]. destruct n as [|n]; [cbn in Hn; lia|].
  destruct gs as [|g' gs].
  - change (J [g]) with (hex_group g). change ("::" +:+ J gs2) with (String ":" (String ":" (J gs2))).
    rewrite parse6_loop_group by done. rewrite bool_decide_true by done.
    cbn [fmap list_fmap concat]. rewrite app_nil_r.
    destruct gs2 as [|g2 gs2]; [by rewrite !app_nil_r|].
    assert (is_group g2) as Hg2' by (by apply Forall_cons in Hg2 as [? _]).
    pose proof (parse6_loop_J (g2 :: gs2) n (ip ++ ungroup g) (Some (length (ip ++ ungroup g)))
      Hg2 ltac:(done) ltac:(cbn in *; lia)) as HJ.
    destruct (J_start g2 gs2 Hg2') as (c & s & E & Hc). rewrite E in *.
    rewrite HJ, <- app_assoc. done.
  - rewrite J_cons, string_app_assoc, string_app_cons, parse6_loop_group by done.
    assert (is_group g') as Hg' by (by apply Forall_cons in Hgs as [? _]).
    specialize (IH n (ip ++ ungroup g) Hgs Hg2 ltac:(done) ltac:(cbn in *; lia)).
    destruct (J_start g' gs Hg') as (c & s & E & Hc).
    rewrite E, string_app_cons in *.
    rewrite bool_decide_false by (by apply (is_hex_not c)).
    rewrite IH, <- !app_assoc. done.
Qed.

Lemma zero_run_spec gs :
  (zero_run gs ≤ length gs)%nat ∧ take (zero_run gs) gs = replicate (zero_run gs) 0.
Proof.
  induction gs as [|[|p|p] gs [IH1 IH2]]; cbn; split; try done; try lia. by f_equal.
Qed.

(** What [find_zeros] returns: no run, or a run of at least two zero groups. *)
Definition zeros_ok (gs : list Z) (r : nat * nat) : Prop :=
  r = (255, 255)%nat ∨
  (fst r + 2 ≤ snd r ≤ length gs)%nat ∧
  take (snd r - fst r) (drop (fst r) gs) = replicate (snd r - fst r) 0.

Lemma find_zeros_ok full i best :
  (i ≤ length full)%nat → zeros_ok full best → zeros_ok full (find_zeros i (drop i full) best).
Proof.
  remember (drop i full) as gs eqn:Egs. revert i best Egs.
  induction gs as [|g gs IH]; intros i best Egs Hi Hbest; [done|].
  pose proof (f_equal length Egs) as Hlen. rewrite length_drop in Hlen. cbn in Hlen.
  assert (gs = drop (S i) full) as Egs'.
  { replace (S i) with (i + 1)%nat by lia. rewrite <- drop_drop, <- Egs. done. }
  change (find_zeros i (g :: gs) best) with
    (find_zeros (S i) gs (if (2 <=? zero_run (g :: gs))%nat
       && (snd best - fst best <? zero_run (g :: gs))%nat
       then (i, i + zero_run (g :: gs))%nat else best)).
  apply IH; [done|lia|].
  destruct (Nat.leb_spec 2 (zero_run (g :: gs))); [|done]. cbn [andb].
  case_match; [|done]. right. cbn [fst snd].
  destruct (zero_run_spec (g :: gs)) as [Hz1 Hz2]. rewrite <- Egs.
  replace (i + zero_run (g :: gs) - i)%nat with (zero_run (g :: gs)) by lia.
  split; [cbn [length] in *; lia|done].
Qed.

Lemma zeros_split gs zs ze :
  (zs ≤ ze ≤ length gs)%nat → take (ze - zs) (drop zs gs) = replicate (ze - zs) 0 →
  gs = take zs gs ++ replicate (ze - zs) 0 ++ drop ze gs.
Proof.
  intros Hle Hz. rewrite <- Hz. replace ze with (zs + (ze - zs))%nat at 2 by lia.
  rewrite <- drop_drop. by rewrite take_drop, take_drop.
Qed.

Lemma concat_ungroup_zeros k : concat (ungroup <$> replicate k 0) = replicate (2 * k) 0.
Proof.
  induction k as [|k IH]; [done|]. replace (2 * S k)%nat with (S (S (2 * k))) by lia.
  cbn [replicate fmap list_fmap concat]. rewrite IH. done.
Qed.

Lemma length_concat_ungroup gs : length (concat (ungroup <$> gs)) = (2 * length gs)%nat.
Proof. induction gs as [|g gs IH]; [done|]. cbn in *. lia. Qed.

Lemma expand6_parts a b :
  (length a + length b < 16)%nat →
  expand6 (a ++ b, Some (length a), ""%string) = Some (a ++ replicate (16 - length (a ++ b)) 0 ++ b).
Proof.
  intros Hl. unfold expand6. rewrite bool_decide_true by done. cbn [negb].
  rewrite (proj2 (Nat.ltb_lt (length (a ++ b)) 16)) by (rewrite length_app; lia).
  cbn. by rewrite take_app_length, drop_app_length.
Qed.

Lemma parse6_body_nocolon c s :
  c ≠ ":"%char → parse6_body (String c s) = parse6_loop 8 (String c s) [] None ≫= expand6.
Proof. intros Hc. unfold parse6_body. destruct s; [done|]. by rewrite bool_decide_false. Qed.

Lemma parse6_body_colons s :
  parse6_body (String ":" (String ":" s)) =
  if s == EmptyString then Some (replicate 16 0)
  else parse6_loop 8 s [] (Some 0%nat) ≫= expand6.
Proof. done. Qed.

Lemma parse6_body_string6 l :
  wf_bytes l → length l = 16%nat → parse6_body (string6 l) = Some l.
Proof.
  intros Hwf Hlen. destruct (groups_ungroup l 8 Hwf Hlen) as (He & Hg & Hl).
  unfold string6. set (gs := groups l) in *.
  pose proof (find_zeros_ok gs 0 (255, 255)%nat ltac:(lia) (or_introl eq_refl)) as Hz.
  rewrite drop_0 in Hz. destruct (find_zeros 0 gs (255, 255)%nat) as [zs ze].
  change (join ":" (hex_group <$> ?x)) with (J x).
  destruct Hz as [[= -> ->]|[Hb Hr]]; cbn [fst snd] in *.
  - (* no ellipsis *)
    cbn. assert (gs ≠ []) as Hne by (intros ->; done).
    pose proof (parse6_loop_J gs 8 [] None Hg Hne ltac:(lia)) as HJ.
    destruct gs as [|g gs']; [done|]. apply Forall_cons in Hg as [Hg _].
    destruct (J_start g gs' Hg) as (c & s & E & Hc). rewrite E in *.
    rewrite parse6_body_nocolon by (by apply (is_hex_not c)).
    rewrite HJ. cbn [mbind option_bind app]. rewrite He. unfold expand6.
    rewrite bool_decide_true, Hlen by done. done.
  - rewrite (proj2 (Nat.ltb_lt zs 8)) by lia.
    pose proof (zeros_split gs zs ze ltac:(lia) Hr) as Hsplit.
    assert (Forall is_group (take zs gs)) as Hg1 by (by apply Forall_take).
    assert (Forall is_group (drop ze gs)) as Hg2 by (by apply Forall_drop).
    assert (length (take zs gs) = zs) as Hl1 by (rewrite length_take; lia).
    assert (length (drop ze gs) = 8 - ze)%nat as Hl2 by (rewrite length_drop; lia).
    assert (concat (ungroup <$> take zs gs) ++ replicate (2 * (ze - zs)) 0
            ++ concat (ungroup <$> drop ze gs) = l) as Hres.
    { rewrite <- concat_ungroup_zeros, <- !concat_app, <- !fmap_app, <- Hsplit. done. }
    pose proof (length_concat_ungroup (take zs gs)). pose proof (length_concat_ungroup (drop ze gs)).
    assert (expand6 (concat (ungroup <$> take zs gs) ++ concat (ungroup <$> drop ze gs),
             Some (length (concat (ungroup <$> take zs gs))), ""%string) = Some l) as Hex.
    { rewrite expand6_parts by lia. rewrite <- Hres, length_app. repeat f_equal. lia. }
    destruct (take zs gs) as [|g1 gs1] eqn:E1.
    + change (J [] +:+ "::" +:+ J (drop ze gs)) with
        (String ":" (String ":" (J (drop ze gs)))).
      rewrite parse6_body_colons.
      destruct (drop ze gs) as [|g2 gs2] eqn:E2.
      * rewrite bool_decide_true by done. rewrite <- Hres. cbn in Hl1, Hl2. cbn [fmap list_fmap concat app].
        rewrite app_nil_r. repeat f_equal. lia.
      * assert (is_group g2) as Hg2' by (by apply Forall_cons in Hg2 as [? _]).
        pose proof (parse6_loop_J (g2 :: gs2) 8 [] (Some 0%nat) Hg2 ltac:(done) ltac:(lia)) as HJ.
        destruct (J_start g2 gs2 Hg2') as (c & s & E & _). rewrite E in *.
        rewrite bool_decide_false by done. rewrite HJ. exact Hex.
    + pose proof (parse6_loop_ellipsis (g1 :: gs1) (drop ze gs) 8 [] Hg1 Hg2 ltac:(done) ltac:(lia)) as HJ.
      apply Forall_cons in Hg1 as [Hg1 _].
      destruct (J_start g1 gs1 Hg1) as (c & s & E & Hc). rewrite E, string_app_cons in *.
      rewrite parse6_body_nocolon by (by apply (is_hex_not c)). rewrite HJ. exact Hex.
Qed.

(** ** [net.ParseIP] inverts [IP.String] *)

Definition wf_ip (ip : IP) : Prop := wf_bytes ip ∧ (length ip = 4 ∨ length ip = 16)%nat.
Definition ip16 (ip : IP) : Prop := wf_bytes ip ∧ length ip = 16%nat.
Definition is_v4 (ip : IP) : bool := negb (is_nil (To4 ip)).

Lemma wf_prefix : wf_bytes v4InV6Prefix.
Proof. repeat constructor; done. Qed.

Lemma ip16_To16 ip : wf_ip ip → ip16 (To16 ip).
Proof.
  intros [Hwf [Hl|Hl]]; unfold To16, ip16; rewrite Hl; cbn.
  - split; [|by rewrite Hl]. by repeat (constructor; [done|]).
  - done.
Qed.

Lemma ip16_wf ip : ip16 ip → wf_ip ip.
Proof. intros [? ?]. split; auto. Qed.

Lemma To16_ip16 ip : ip16 ip → To16 ip = ip.
Proof. intros [_ Hl]. unfold To16. by rewrite Hl. Qed.

(** The two forms of a 16-byte address. *)
Lemma ip16_cases ip : ip16 ip →
  (∃ l, wf_bytes l ∧ length l = 4%nat ∧ ip = v4InV6Prefix ++ l ∧ To4 ip = l) ∨
  (To4 ip = nilIP).
Proof.
  intros [Hwf Hl]. unfold To4. rewrite Hl. cbn [Nat.eqb andb].
  case_bool_decide as Ht; [|auto]. left. exists (drop 12 ip).
  split_and!; [by apply Forall_drop|by rewrite length_drop, Hl|by rewrite <- Ht, take_drop|done].
Qed.

Lemma To4_prefix l : length l = 4%nat → To4 (v4InV6Prefix ++ l) = l.
Proof. intros Hl. unfold To4. by rewrite length_app, Hl. Qed.

Lemma To4_To16 ip : wf_ip ip → To4 (To16 ip) = To4 ip.
Proof.
  intros [Hwf [Hl|Hl]]; unfold To16; rewrite Hl; cbn [Nat.eqb]; [|done].
  rewrite To4_prefix by done. unfold To4. by rewrite Hl.
Qed.

Lemma is_v4_To4 ip : is_v4 ip = true → length (To4 ip) = 4%nat.
Proof.
  unfold is_v4, is_nil. intros Hv%negb_true_iff%bool_decide_eq_false. revert Hv. unfold To4.
  destruct (Nat.eqb_spec (length ip) 4) as [|]; [done|].
  destruct (Nat.eqb_spec (length ip) 16) as [E|]; cbn [andb]; [|done].
  case_bool_decide; [|done]. intros _. by rewrite length_drop, E.
Qed.

Lemma is_v4_false ip : is_v4 ip = false → To4 ip = nilIP.
Proof. unfold is_v4, is_nil. case_bool_decide; done. Qed.

Lemma ip_string_v4 ip : wf_ip ip → is_v4 ip = true → ip_string ip = string4 (To4 ip).
Proof.
  intros [_ Hl] Hv. unfold ip_string. rewrite (is_v4_To4 ip Hv). by destruct Hl as [-> | ->].
Qed.

Lemma ip_string_v6 ip : wf_ip ip → is_v4 ip = false → ip_string ip = string6 ip ∧ length ip = 16%nat.
Proof.
  intros [_ Hl] Hv%is_v4_false. unfold ip_string. rewrite Hv. destruct Hl as [Hl|Hl].
  - exfalso. unfold To4 in Hv. rewrite Hl in Hv. cbn in Hv. by subst ip.
  - by rewrite Hl.
Qed.

Lemma string_forall_weaken (P Q : ascii → bool) s :
  (∀ c, P c = true → Q c = true) → string_forall P s = true → string_forall Q s = true.
Proof.
  intros HPQ. induction s as [|c s IH]; [done|]. cbn.
  intros [? ?]%andb_true_iff. apply andb_true_iff. auto.
Qed.

Lemma string_forall_join P sep l :
  string_forall P sep = true → Forall (λ s, string_forall P s = true) l →
  string_forall P (join sep l) = true.
Proof.
  intros Hsep. induction 1 as [|s l Hs _ IH]; [done|].
  destruct l; [done|]. cbn [join] in *. rewrite !string_forall_app, Hs, Hsep. done.
Qed.

Definition hex_or (d c : ascii) : bool := is_hex c || (c == d).

Lemma is_hex_or d c : is_hex c = true → hex_or d c = true.
Proof. unfold hex_or. by intros ->. Qed.

Lemma wf_To4 ip : wf_ip ip → wf_bytes (To4 ip).
Proof.
  intros [Hwf _]. unfold To4. repeat case_match; [done|by apply Forall_drop|constructor].
Qed.

Lemma string4_chars l : wf_bytes l → string_forall (hex_or ".") (string4 l) = true.
Proof.
  intros Hwf. unfold string4. apply string_forall_join; [done|].
  apply Forall_fmap. eapply Forall_impl; [exact Hwf|]. intros x Hx. cbn.
  eapply string_forall_weaken, dec_byte_chars, Hx. apply is_hex_or.
Qed.

Lemma J_chars gs : Forall is_group gs → string_forall (hex_or ":") (J gs) = true.
Proof.
  intros Hwf. apply string_forall_join; [done|].
  apply Forall_fmap. eapply Forall_impl; [exact Hwf|]. intros x Hx. cbn.
  eapply string_forall_weaken, hex_group_chars, Hx. apply is_hex_or.
Qed.

Lemma string6_chars ip : ip16 ip → string_forall (hex_or ":") (string6 ip) = true.
Proof.
  intros [Hwf Hl]. destruct (groups_ungroup ip 8 Hwf Hl) as (_ & Hg & _).
  unfold string6. destruct (find_zeros _ _ _) as [zs ze]. case_match.
  - change (join ":" (hex_group <$> ?x)) with (J x).
    rewrite !string_forall_app, !J_chars; [done|by apply Forall_drop|by apply Forall_take].
  - by apply J_chars.
Qed.

(** The family test finds the first separator. *)
Lemma addr_family_sep d s b :
  (d = "."%char ∧ b = true) ∨ (d = ":"%char ∧ b = false) →
  string_forall (hex_or d) s = true → contains_char d s = true → addr_family s = Some b.
Proof.
  intros Hd. induction s as [|c s IH]; [done|]. cbn.
  intros [Hc Hs]%andb_true_iff Hcon. unfold hex_or in Hc.
  case_bool_decide as Hcd; subst.
  - destruct Hd as [[-> ->]|[-> ->]]; done.
  - rewrite orb_false_r in Hc. rewrite !bool_decide_false by (by apply (is_hex_not c)). auto.
Qed.

Lemma string4_dot l : length l = 4%nat → contains_char "." (string4 l) = true.
Proof.
  destruct l as [|x1 [|x2 l]]; try done. intros _. unfold string4.
  change (join "." (dec_byte <$> x1 :: x2 :: l)) with
    (dec_byte x1 +:+ "." +:+ join "." (dec_byte <$> x2 :: l)).
  rewrite !contains_char_app. by rewrite orb_true_r.
Qed.

Lemma string6_colon ip : ip16 ip → contains_char ":" (string6 ip) = true.
Proof.
  intros [Hwf Hl]. destruct (groups_ungroup ip 8 Hwf Hl) as (_ & Hg & Hlen).
  unfold string6. destruct (find_zeros _ _ _) as [zs ze]. case_match.
  - rewrite !contains_char_app. by rewrite orb_true_r.
  - destruct (groups ip) as [|g [|g' gs]]; try done.
    change (join ":" (hex_group <$> g :: g' :: gs)) with (J (g :: g' :: gs)).
    rewrite J_cons, contains_char_app. apply orb_true_r.
Qed.

(** What is printed contains a dot exactly for IPv4 and a colon exactly for IPv6. *)
Lemma ip_string_chars ip : wf_ip ip →
  string_forall (hex_or (if is_v4 ip then "." else ":")) (ip_string ip) = true ∧
  contains_char (if is_v4 ip then "." else ":") (ip_string ip) = true.
Proof.
  intros Hwf. destruct (is_v4 ip) eqn:Hv.
  - rewrite ip_string_v4 by done. pose proof (is_v4_To4 ip Hv).
    split; [apply string4_chars, wf_To4, Hwf|by apply string4_dot].
  - destruct (ip_string_v6 ip Hwf Hv) as [-> Hl].
    assert (ip16 ip) by (split; [apply Hwf|done]).
    split; [by apply string6_chars|by apply string6_colon].
Qed.

Lemma ip_string_no_char ip c :
  wf_ip ip → hex_or "." c = false → hex_or ":" c = false → contains_char c (ip_string ip) = false.
Proof.
  intros Hwf H1 H2. destruct (ip_string_chars ip Hwf) as [Hc _].
  destruct (is_v4 ip); eauto using string_forall_contains.
Qed.

Lemma To16_To4 ip : ip16 ip → is_v4 ip = true → To16 (To4 ip) = ip.
Proof.
  intros Hip Hv. destruct (ip16_cases ip Hip) as [(l & _ & Hl & -> & ->)|Hn].
  - unfold To16. by rewrite Hl.
  - unfold is_v4 in Hv. by rewrite Hn in Hv.
Qed.

Lemma net_ParseIP_ip_string ip : wf_ip ip → net_ParseIP (ip_string ip) = To16 ip.
Proof.
  intros Hwf. destruct (ip_string_chars ip Hwf) as [Hc Hs]. unfold net_ParseIP, ParseAddr.
  destruct (is_v4 ip) eqn:Hv.
  - rewrite (addr_family_sep "." _ true) by auto. rewrite ip_string_v4 by done.
    rewrite parseIPv4_string4 by (apply wf_To4, Hwf || by apply is_v4_To4).
    cbn. rewrite <- (To4_To16 ip Hwf), To16_To4; [done|by apply ip16_To16|].
    unfold is_v4. by rewrite To4_To16.
  - rewrite (addr_family_sep ":" _ false) by auto.
    destruct (ip_string_v6 ip Hwf Hv) as [E Hl]. rewrite E in *. unfold parseIPv6.
    rewrite cut_none by (by apply (string_forall_contains (hex_or ":"))).
    rewrite parse6_body_string6; [done|apply Hwf|done].
Qed.

(** Hence printing is injective up to the 4-byte/16-byte form. *)
Lemma ip_string_inj a b : wf_ip a → wf_ip b → ip_string a = ip_string b → To16 a = To16 b.
Proof. intros Ha Hb E. by rewrite <- !net_ParseIP_ip_string, E. Qed.

(** ** What [net.ParseIP] returns is nil or a 16-byte address *)

Lemma digit_val_bound c d : digit_val c = Some d → 0 ≤ d < 10.
Proof.
  unfold digit_val. destruct ((48 <=? _) && _) eqn:E; [|done]. intros [= <-].
  apply andb_true_iff in E as [?%Z.leb_le ?%Z.leb_le]. lia.
Qed.

Lemma hex_val_bound c d : hex_val c = Some d → 0 ≤ d < 16.
Proof.
  unfold hex_val. repeat case_match; intros [= <-];
  match goal with H : _ && _ = true |- _ => apply andb_true_iff in H as [?%Z.leb_le ?%Z.leb_le] end;
  lia.
Qed.

Lemma parseIPv4Fields_wf s b n v fields r :
  is_byte v → wf_bytes fields → (length fields ≤ 3)%nat →
  parseIPv4Fields s b n v fields = Some r → wf_bytes r ∧ length r = 4%nat.
Proof.
  revert b n v fields. induction s as [|c s IH]; intros b n v fields Hv Hf Hl; cbn [parseIPv4Fields].
  - destruct (Nat.ltb_spec (length fields) 3); [done|]. intros [= <-].
    rewrite length_app. cbn. split; [|lia]. apply Forall_app. auto.
  - destruct (digit_val c) as [d|] eqn:Ed.
    + apply digit_val_bound in Ed. case_match; [done|].
      destruct (Z.ltb_spec 255 (v * 10 + d)); [done|]. apply IH; try done.
      unfold is_byte in *. lia.
    + case_bool_decide; [|done]. case_match; [done|].
      destruct (Nat.eqb_spec (length fields) 3); [done|].
      apply IH; [done|apply Forall_app; auto|]. rewrite length_app. cbn. lia.
Qed.

Lemma parseIPv4_wf s r : parseIPv4 s = Some r → wf_bytes r ∧ length r = 4%nat.
Proof. apply parseIPv4Fields_wf; [done|constructor|cbn; lia]. Qed.

Lemma scan_hex_bound s off acc r :
  is_group acc → scan_hex s off acc = Some r → is_group r.1.2.
Proof.
  revert off acc. induction s as [|c s IH]; intros off acc Ha; cbn [scan_hex].
  - by intros [= <-].
  - destruct (hex_val c) as [d|] eqn:Ed; [|by intros [= <-]].
    apply hex_val_bound in Ed. case_match; [done|].
    destruct (Z.ltb_spec 65535 (acc * 16 + d)); [done|]. apply IH. unfold is_group in *. lia.
Qed.

Lemma wf_ungroup g : is_group g → wf_bytes (ungroup g).
Proof.
  unfold is_group, ungroup, wf_bytes. intros Hg. constructor; [|constructor; [|constructor]].
  - split; [apply Z.div_pos|apply Z.div_lt_upper_bound]; lia.
  - apply Z.mod_pos_bound. lia.
Qed.

Lemma parse6_loop_wf n s ip e r :
  wf_bytes ip → (length ip + 2 * n = 16)%nat → parse6_loop n s ip e = Some r →
  wf_bytes r.1.1 ∧ (length r.1.1 ≤ 16)%nat.
Proof.
  revert s ip e. induction n as [|n IH]; intros s ip e Hwf Hl; cbn [parse6_loop].
  - intros [= <-]. split; [done|cbn; lia].
  - intros (((off & acc) & rest) & Hscan & Hr)%bind_Some.
    apply scan_hex_bound in Hscan; [|done]. cbn in Hscan. apply wf_ungroup in Hscan.
    assert (wf_bytes (ip ++ ungroup acc)) as Hwf' by (apply Forall_app; auto).
    assert (length (ip ++ ungroup acc) = length ip + 2)%nat as Hl' by (by rewrite length_app).
    case_match; [done|]. destruct rest as [|c rest].
    { injection Hr as <-. cbn [fst]. split; [done|lia]. }
    case_bool_decide.
    { case_match; [done|]. destruct (Nat.ltb_spec 16 (length ip + 4)); [done|].
      apply bind_Some in Hr as (v4 & [Hv4 Hv4l]%parseIPv4_wf & [= <-]). cbn.
      split; [by apply Forall_app|]. rewrite length_app. lia. }
    case_match; [done|]. destruct rest as [|c2 rest]; [done|]. case_bool_decide.
    + destruct e; [done|]. destruct rest; [injection Hr as <-; cbn [fst]; split; [done|lia]|].
      eapply IH; [exact Hwf'|lia|exact Hr].
    + eapply IH; [exact Hwf'|lia|exact Hr].
Qed.

Lemma expand6_wf r l :
  wf_bytes r.1.1 → (length r.1.1 ≤ 16)%nat → expand6 r = Some l → ip16 l.
Proof.
  destruct r as [[ip e] s]. cbn [fst]. intros Hwf Hl. unfold expand6. case_bool_decide; [|done]. cbn [negb].
  destruct (Nat.ltb_spec (length ip) 16).
  - intros (e' & -> & [= <-])%bind_Some. split.
    + apply Forall_app. split; [by apply Forall_take|]. apply Forall_app.
      split; [|by apply Forall_drop]. by apply Forall_replicate.
    + rewrite !length_app, length_replicate, length_take, length_drop. lia.
  - destruct e; [done|]. intros [= <-]. split; [done|lia].
Qed.

Lemma parse6_body_wf s l : parse6_body s = Some l → ip16 l.
Proof.
  assert (∀ s' e, parse6_loop 8 s' [] e ≫= expand6 = Some l → ip16 l) as Hgen.
  { intros s' e (r & Hr & Hl)%bind_Some. apply parse6_loop_wf in Hr as [? ?]; [|constructor|done].
    by eapply expand6_wf. }
  unfold parse6_body. repeat case_match; eauto.
  intros [= <-]. split; [|done]. by repeat constructor.
Qed.

Lemma ParseAddr_wf s a : ParseAddr s = Some a → wf_ip (addr_bytes a).
Proof.
  unfold ParseAddr, parseIPv6. destruct (addr_family s) as [[]|]; [| |done].
  - intros (b & [? ?]%parseIPv4_wf & [= <-])%bind_Some. split; auto.
  - repeat case_match; try done; intros (b & ?%parse6_body_wf & [= <-])%bind_Some;
      by apply ip16_wf.
Qed.

Lemma net_ParseIP_nil_or s : net_ParseIP s = nilIP ∨ ip16 (net_ParseIP s).
Proof.
  unfold net_ParseIP. destruct (ParseAddr s) as [a|] eqn:E; [|auto].
  case_bool_decide; [|auto]. right. by eapply ip16_To16, ParseAddr_wf.
Qed.

Lemma net_ParseIP_ip16 s : net_ParseIP s ≠ nilIP → ip16 (net_ParseIP s).
Proof. destruct (net_ParseIP_nil_or s); done. Qed.

Lemma ip16_not_nil ip : ip16 ip → is_nil ip = false.
Proof. intros [_ Hl]. unfold is_nil. apply bool_decide_false. intros ->. done. Qed.
