(* ===== verification/IPAddr.v ===== *)
(** * pkg/ip/ip.go: addresses as integers, set operations, free addresses

    Models [IsIPVersion], [ipToInt]/[intToIP], [NextIP], [PrevIP], [Cmp], the
    carry-based [nextIP], the difference, union and intersection of address slices and
    [FindAvailableIPs], the search for the first free addresses of a list of ranges. *)

From S2P Require Import Prelude NetIP NetIPFacts.
Local Open Scope Z_scope.
Local Open Scope go_scope.

(** ** Data and operations *)

(** [types.IPVersion] is an [int64]; [constant.IPv4] and [constant.IPv6]. *)
Abbreviation IPVersion := Z.
Definition IPv4 : IPVersion := 4.
Definition IPv6 : IPVersion := 6.

Definition IsIPVersion (version : IPVersion) : outcome unit :=
  if negb (version =? IPv4) && negb (version =? IPv6) then Fail ErrInvalidIPVersion else Ret ().

(** [govalidator.IsIPv4], [govalidator.IsIPv6] *)
Definition IsIPv4 (str : string) : bool :=
  let ip := net_ParseIP str in negb (is_nil ip) && contains_char "." str.
Definition IsIPv6 (str : string) : bool :=
  let ip := net_ParseIP str in negb (is_nil ip) && contains_char ":" str.

Definition IsIP (version : IPVersion) (s : string) : outcome unit :=
  _ ← IsIPVersion version;
  if ((version =? IPv4) && negb (IsIPv4 s)) || ((version =? IPv6) && negb (IsIPv6 s))
  then Fail ErrInvalidIPFormat else Ret ().

Definition ipToInt (ip : IP) : Z :=
  let v := To4 ip in
  if negb (is_nil v) then be (To4 v) else be (To16 ip).

Definition intToIP (i : Z) : IP := To16 (int_bytes i).

Definition NextIP (ip : IP) : IP := intToIP (ipToInt ip + 1).
Definition PrevIP (ip : IP) : IP := intToIP (ipToInt ip - 1).
Definition Cmp (ip1 ip2 : IP) : comparison := ipToInt ip1 ?= ipToInt ip2.

(** [nextIP]: increment of the last byte with carry, on the reversed slice. *)
Fixpoint carry (l : list Z) : list Z :=
  match l with
  | [] => []
  | b :: l' =>
      let b' := (b + 1) mod 256 in
      if negb (b' =? 0) then b' :: l' else b' :: carry l'
  end.
Definition nextIP (ip : IP) : IP := reverse (carry (reverse ip)).

(** The conversion [[16]byte(ip.To16())], which panics on a slice shorter than 16. *)
Definition key16 (ip : IP) : outcome (list Z) :=
  let k := To16 ip in if (16 <=? length k)%nat then Ret (take 16 k) else Panic.

(** [for _, ip := range l { if ip != nil { m[[16]byte(ip.To16())] = struct{}{} } }] *)
Fixpoint mark_ips (l : list IP) (m : gset (list Z)) : outcome (gset (list Z)) :=
  match l with
  | [] => Ret m
  | ip :: l =>
      if is_nil ip then mark_ips l m
      else k ← key16 ip; mark_ips l ({[k]} ∪ m)
  end.

(** The order of the comparison functions given to [sort.Slice]. *)
Definition ip_le (a b : IP) : Prop := bytes_compare (To16 a) (To16 b) ≠ Gt.
#[export] Instance ip_le_dec : RelDecision ip_le.
Proof. intros a b. unfold ip_le. apply _. Defined.
Definition sort_ips (l : list IP) : list IP := merge_sort ip_le l.

Fixpoint diff_loop (src : list IP) (ips2Map : gset (list Z)) (expectCount : Z)
    (result : list IP) : outcome (list IP) :=
  match src with
  | [] => Ret result
  | ip :: src =>
      if is_nil ip then diff_loop src ips2Map expectCount result
      else
        k ← key16 ip;
        if bool_decide (k ∈ ips2Map) then diff_loop src ips2Map expectCount result
        else
          let result := result ++ [ip] in
          if (0 <? expectCount) && (expectCount <=? Z.of_nat (length result)) then Ret result
          else diff_loop src ips2Map expectCount result
  end.

Definition getIPDiffSet (ipSourceList ipExcludeList : list IP) (sorted : bool)
    (expectCount : Z) : outcome (list IP) :=
  ips2Map ← mark_ips ipExcludeList ∅;
  result ← diff_loop ipSourceList ips2Map expectCount [];
  if sorted && (1 <? length result)%nat then Ret (sort_ips result) else Ret result.

Definition IPsDiffSet (ipSourceList ipExcludeList : list IP) (sorted : bool) : outcome (list IP) :=
  getIPDiffSet ipSourceList ipExcludeList sorted (-1).

Definition IsDiffIPSet (ipSourceList ipExcludeList : list IP) : outcome bool :=
  diff ← getIPDiffSet ipSourceList ipExcludeList false 1;
  Ret (0 <? length diff)%nat.

(** The inner loop of [FindAvailableIPs]. *)
Fixpoint avail_loop (fuel : nat) (ip stop : IP) (ipMap : gset (list Z)) (count : Z)
    (availableIPs : list IP) : outcome (list IP * Z) :=
  if ip_equal ip stop || (count <=? 0) then Ret (availableIPs, count)
  else match fuel with
  | O => OutOfFuel
  | S fuel =>
      k ← key16 ip;
      if bool_decide (k ∈ ipMap) then avail_loop fuel (nextIP ip) stop ipMap count availableIPs
      else avail_loop fuel (nextIP ip) stop ipMap (count - 1) (availableIPs ++ [ip])
  end.

(** The bounds of one range: [None] when the range is skipped. *)
Definition range_bounds (ipRange : string) : outcome (option (IP * IP)) :=
  let ips := split "-" ipRange in
  ips0 ← index ips 0;
  let startIP := net_ParseIP ips0 in
  endIP ← (if (length ips =? 2)%nat then ips1 ← index ips 1; Ret (net_ParseIP ips1)
           else Ret startIP);
  if is_nil startIP || is_nil endIP then Ret None
  else match bytes_compare startIP endIP with
       | Gt => Ret None
       | _ => Ret (Some (startIP, endIP))
       end.

(** The number of addresses from [start] to [end]: enough fuel for [avail_loop]. *)
Definition range_fuel (startIP endIP : IP) : nat := Z.to_nat (be endIP - be startIP + 1).

Fixpoint avail_ranges (ipRanges : list string) (ipMap : gset (list Z)) (count : Z)
    (availableIPs : list IP) : outcome (list IP) :=
  match ipRanges with
  | [] => Ret availableIPs
  | ipRange :: ipRanges =>
      if count =? 0 then Ret availableIPs
      else
        b ← range_bounds ipRange;
        match b with
        | None => avail_ranges ipRanges ipMap count availableIPs
        | Some (startIP, endIP) =>
            '(availableIPs, count) ←
              avail_loop (range_fuel startIP endIP) startIP (nextIP endIP) ipMap count availableIPs;
            avail_ranges ipRanges ipMap count availableIPs
        end
  end.

Definition FindAvailableIPs (ipRanges : list string) (ipList : list IP) (count : Z)
    : outcome (list IP) :=
  ipMap ← mark_ips ipList ∅;
  avail_ranges ipRanges ipMap count [].

(** The keys [ip.String()] of the non-nil addresses. *)
Definition mark_strings (l : list IP) (m : gmap string bool) : gmap string bool :=
  foldl (λ m ip, if is_nil ip then m else <[ip_string ip := true]> m) m l.

Section sets.
Context `{MR : MapRange}.

Definition IPsUnionSet (ips1 ips2 : list IP) (sorted : bool) : list IP :=
  let marks := mark_strings (ips1 ++ ips2) ∅ in
  let ips := net_ParseIP <$> range_keys marks in
  if sorted then sort_ips ips else ips.

Definition IPsIntersectionSet (ips1 ips2 : list IP) (sorted : bool) : list IP :=
  let set := mark_strings ips1 ∅ in
  let marks := foldl (λ (m : gmap string bool) ip,
                 if negb (is_nil ip) && default false (set !! ip_string ip)
                 then <[ip_string ip := true]> m else m) ∅ ips2 in
  let ips := net_ParseIP <$> range_keys marks in
  if sorted then sort_ips ips else ips.
End sets.

(** ** Order and integers *)

Lemma bytes_compare_refl a : bytes_compare a a = Eq.
Proof. induction a; cbn; [done|]. by rewrite Z.compare_refl. Qed.

Lemma bytes_compare_eq a b : bytes_compare a b = Eq → a = b.
Proof.
  revert b. induction a as [|x a IH]; intros [|y b]; try done. cbn.
  destruct (Z.compare_spec x y) as [->| |]; [|done..]. intros ?%IH. by subst.
Qed.

Lemma bytes_compare_antisym a b : bytes_compare b a = CompOpp (bytes_compare a b).
Proof.
  revert b. induction a as [|x a IH]; intros [|y b]; try done. cbn.
  rewrite (Z.compare_antisym x y), IH. by destruct (x ?= y).
Qed.

Lemma bytes_compare_trans a b c :
  bytes_compare a b ≠ Gt → bytes_compare b c ≠ Gt → bytes_compare a c ≠ Gt.
Proof.
  revert b c. induction a as [|x a IH]; intros [|y b] [|z c]; try done. cbn.
  destruct (Z.compare_spec x y) as [->|?|?]; [|..|done].
  - destruct (y ?= z); [apply IH|done..].
  - intros _. destruct (Z.compare_spec y z) as [->|?|?]; [|..|done];
      rewrite (proj2 (Z.compare_lt_iff x z)) by lia; done.
Qed.

#[export] Instance ip_le_total : Total ip_le.
Proof.
  intros a b. unfold ip_le. rewrite (bytes_compare_antisym (To16 a)).
  destruct (bytes_compare (To16 a) (To16 b)); auto.
Qed.

#[export] Instance ip_le_trans : Transitive ip_le.
Proof. intros a b c. apply bytes_compare_trans. Qed.

Lemma sort_ips_perm l : sort_ips l ≡ₚ l.
Proof. apply merge_sort_Permutation. Qed.

Lemma sort_ips_sorted l : StronglySorted ip_le (sort_ips l).
Proof. apply StronglySorted_merge_sort; apply _. Qed.

Lemma ip_le_be a b : ip16 a → ip16 b → ip_le a b ↔ be a ≤ be b.
Proof.
  intros Ha Hb. unfold ip_le. rewrite !To16_ip16 by done.
  rewrite bytes_compare_be by (apply Ha || apply Hb || by rewrite (proj2 Ha), (proj2 Hb)). done.
Qed.

Lemma carry_spec l :
  wf_bytes l → wf_bytes (carry l) ∧ length (carry l) = length l ∧
  be (reverse (carry l)) = (be (reverse l) + 1) mod 256 ^ Z.of_nat (length l).
Proof.
  induction 1 as [|b l Hb Hl IH]; cbn [carry]; [split_and!; [constructor|done|done]|].
  destruct IH as (IH1 & IH2 & IH3). unfold is_byte in Hb.
  assert (0 ≤ be (reverse l) < 256 ^ Z.of_nat (length l)) as Hbd.
  { rewrite <- length_reverse. apply be_bound. by apply Forall_reverse. }
  rewrite reverse_cons, be_snoc. cbn [length]. rewrite pow256_S.
  pose proof (pow256_pos (length l)). set (p := 256 ^ Z.of_nat (length l)) in *.
  destruct (decide (b = 255)) as [->|Hne].
  - change ((255 + 1) mod 256) with 0. cbn [negb Z.eqb]. rewrite reverse_cons, be_snoc, IH3.
    split_and!; [by constructor|cbn; lia|].
    replace (be (reverse l) * 256 + 255 + 1) with (256 * (be (reverse l) + 1)) by lia.
    rewrite Z.mul_mod_distr_l by lia. lia.
  - rewrite Z.mod_small by lia. destruct (Z.eqb_spec (b + 1) 0); [lia|]. cbn [negb].
    rewrite reverse_cons, be_snoc.
    split_and!; [constructor; [|done]; unfold is_byte; lia|done|].
    rewrite Z.mod_small by lia. lia.
Qed.

Lemma nextIP_spec ip :
  wf_bytes ip → wf_bytes (nextIP ip) ∧ length (nextIP ip) = length ip ∧
  be (nextIP ip) = (be ip + 1) mod 256 ^ Z.of_nat (length ip).
Proof.
  intros Hwf. unfold nextIP. destruct (carry_spec (reverse ip)) as (H1 & H2 & H3).
  { by apply Forall_reverse. }
  rewrite reverse_involutive, length_reverse in *. split_and!; [by apply Forall_reverse|done|done].
Qed.

(** ** Addresses by number *)

Definition ip_of (n : Z) : IP := be_split 16 n.

(** The [k] addresses from [lo] on. *)
Definition ips_from (lo k : Z) : list IP := ip_of <$> seqZ lo k.

Lemma ip16_ip_of n : ip16 (ip_of n).
Proof. split; [apply wf_be_split|apply length_be_split]. Qed.

Lemma pow128 : 256 ^ Z.of_nat 16 = 2 ^ 128.
Proof. done. Qed.

Lemma be_ip16 ip : ip16 ip → 0 ≤ be ip < 2 ^ 128.
Proof. intros [Hwf Hl]. rewrite <- pow128, <- Hl. by apply be_bound. Qed.

Lemma be_ip_of n : be (ip_of n) = n mod 2 ^ 128.
Proof. unfold ip_of. by rewrite be_be_split, pow128. Qed.

Lemma be_ip_of_small n : 0 ≤ n < 2 ^ 128 → be (ip_of n) = n.
Proof. intros. rewrite be_ip_of. by apply Z.mod_small. Qed.

Lemma ip_of_be ip : ip16 ip → ip_of (be ip) = ip.
Proof. intros [Hwf Hl]. by apply be_split_be'. Qed.

Lemma ip16_eq a b : ip16 a → ip16 b → be a = be b → a = b.
Proof. intros Ha Hb E. by rewrite <- (ip_of_be a), <- (ip_of_be b), E. Qed.

Lemma ip_of_mod n : ip_of (n mod 2 ^ 128) = ip_of n.
Proof. apply ip16_eq; [apply ip16_ip_of..|]. rewrite !be_ip_of. by rewrite Z.mod_mod. Qed.

Lemma nextIP_ip16 ip : ip16 ip → nextIP ip = ip_of (be ip + 1).
Proof.
  intros [Hwf Hl]. destruct (nextIP_spec ip Hwf) as (H1 & H2 & H3).
  apply ip16_eq; [by split; [|rewrite H2]|apply ip16_ip_of|].
  by rewrite H3, be_ip_of, Hl, pow128.
Qed.

Lemma nextIP_ip_of n : nextIP (ip_of n) = ip_of (n + 1).
Proof.
  rewrite nextIP_ip16 by apply ip16_ip_of. rewrite be_ip_of.
  rewrite <- ip_of_mod, <- (ip_of_mod (n + 1)). f_equal. by rewrite Z.add_mod_idemp_l.
Qed.

Lemma ip_equal_ip16 a b : ip16 a → ip16 b → ip_equal a b = (a == b).
Proof. intros [_ Ha] [_ Hb]. unfold ip_equal. by rewrite Ha, Hb. Qed.

Lemma key16_wf ip : wf_ip ip → key16 ip = Ret (To16 ip).
Proof.
  intros Hwf. unfold key16. destruct (ip16_To16 ip Hwf) as [_ Hl]. rewrite Hl.
  cbn. f_equal. by rewrite <- Hl, firstn_all.
Qed.

Lemma key16_ip16 ip : ip16 ip → key16 ip = Ret ip.
Proof. intros Hip. rewrite key16_wf by (by apply ip16_wf). by rewrite To16_ip16. Qed.

Lemma elem_of_ips_from ip lo k :
  0 ≤ lo → lo + k ≤ 2 ^ 128 →
  ip ∈ ips_from lo k ↔ ip16 ip ∧ lo ≤ be ip < lo + k.
Proof.
  intros Hlo Hk. unfold ips_from. rewrite list_elem_of_fmap. split.
  - intros (n & -> & Hn%elem_of_seqZ). rewrite be_ip_of_small by lia. split; [apply ip16_ip_of|lia].
  - intros [Hip Hb]. exists (be ip). rewrite ip_of_be by done. split; [done|]. by apply elem_of_seqZ.
Qed.

Lemma ips_from_cons lo k : 0 < k → ips_from lo k = ip_of lo :: ips_from (lo + 1) (k - 1).
Proof.
  intros Hk. unfold ips_from. rewrite seqZ_cons by done. cbn.
  by replace (Z.succ lo) with (lo + 1) by lia.
Qed.

Lemma ips_from_snoc lo k : 0 ≤ k → ips_from lo (k + 1) = ips_from lo k ++ [ip_of (lo + k)].
Proof. intros Hk. unfold ips_from. by rewrite seqZ_app, fmap_app by lia. Qed.

Lemma ips_from_nil lo k : k ≤ 0 → ips_from lo k = [].
Proof. intros Hk. unfold ips_from. by rewrite seqZ_nil. Qed.

Lemma length_ips_from lo k : length (ips_from lo k) = Z.to_nat k.
Proof. unfold ips_from. by rewrite length_fmap, length_seqZ. Qed.

Lemma Forall_ips_from lo k : Forall ip16 (ips_from lo k).
Proof. apply Forall_fmap, Forall_forall. intros. apply ip16_ip_of. Qed.

Lemma NoDup_ips_from lo k : 0 ≤ lo → lo + k ≤ 2 ^ 128 → NoDup (ips_from lo k).
Proof.
  intros Hlo Hk. unfold ips_from. apply NoDup_fmap_2_strong; [|apply NoDup_seqZ].
  intros x y Hx%elem_of_seqZ Hy%elem_of_seqZ E.
  rewrite <- (be_ip_of_small x), <- (be_ip_of_small y), E by lia. done.
Qed.

Lemma map_To16_ip16 l : Forall ip16 l → To16 <$> l = l.
Proof. induction 1 as [|x l Hx _ IH]; [done|]. cbn. by rewrite IH, To16_ip16. Qed.

(** ** Marked addresses and the difference of two slices *)

Definition ip_or_nil (ip : IP) : Prop := ip = nilIP ∨ wf_ip ip.
#[export] Instance is_byte_dec b : Decision (is_byte b).
Proof. unfold is_byte. apply _. Defined.
#[export] Instance wf_ip_dec ip : Decision (wf_ip ip).
Proof. unfold wf_ip, wf_bytes. apply _. Defined.
#[export] Instance ip_or_nil_dec ip : Decision (ip_or_nil ip).
Proof. unfold ip_or_nil. apply _. Defined.

Lemma wf_ip_not_nil ip : wf_ip ip → is_nil ip = false.
Proof. intros [_ Hl]. apply bool_decide_false. intros ->. cbn in Hl. lia. Qed.

Lemma mark_ips_spec l m :
  Forall ip_or_nil l →
  ∃ m', mark_ips l m = Ret m' ∧ ∀ k, ip16 k → k ∈ m' ↔ k ∈ m ∨ k ∈ To16 <$> l.
Proof.
  intros Hl. revert m. induction Hl as [|ip l [->|Hip] Hl IH]; intros m; cbn [mark_ips].
  - exists m. set_solver.
  - destruct (IH m) as (m' & Hm' & Hk). exists m'. split; [done|]. intros k Hk16. rewrite Hk by done.
    cbn [fmap list_fmap]. rewrite elem_of_cons. split; [tauto|].
    intros [?|[->|?]]; [tauto| |tauto]. destruct Hk16 as [_ Hk16]. done.
  - rewrite wf_ip_not_nil by done. rewrite key16_wf by done. cbn [mbind outcome_bind].
    destruct (IH ({[To16 ip]} ∪ m)) as (m' & -> & Hk). exists m'. split; [done|].
    intros k Hk16. rewrite Hk by done. cbn [fmap list_fmap]. set_solver.
Qed.

(** The addresses of [src] that are not in [ex], in their order. *)
Definition ips_minus (src ex : list IP) : list IP :=
  filter (λ ip, is_nil ip = false ∧ To16 ip ∉ To16 <$> ex) src.

Definition limit {A} (n : Z) (l : list A) : list A := if 0 <? n then take (Z.to_nat n) l else l.

Lemma diff_loop_spec src m n acc :
  Forall ip_or_nil src → (0 < n → Z.of_nat (length acc) < n) →
  diff_loop src m n acc =
  Ret (limit n (acc ++ filter (λ ip, is_nil ip = false ∧ To16 ip ∉ m) src)).
Proof.
  intros Hs. revert acc. induction Hs as [|ip src Hip Hs IH]; intros acc Hn; cbn [diff_loop].
  { unfold limit. destruct (Z.ltb_spec 0 n); cbn; rewrite app_nil_r; [|done].
    by rewrite take_ge by lia. }
  destruct Hip as [->|Hip].
  { cbn [is_nil]. rewrite filter_cons_False by (intros [? _]; done). by apply IH. }
  rewrite wf_ip_not_nil, key16_wf by done. cbn [mbind outcome_bind].
  case_bool_decide as Hin.
  { rewrite filter_cons_False by (intros [_ ?]; done). by apply IH. }
  rewrite filter_cons_True by (rewrite wf_ip_not_nil; done).
  set (F := filter _ src). replace (acc ++ ip :: F) with ((acc ++ [ip]) ++ F) by (by rewrite <- app_assoc).
  destruct (Z.ltb_spec 0 n) as [Hpos|Hneg]; cbn [andb]; [|apply IH; lia].
  rewrite length_app. cbn [length]. specialize (Hn Hpos).
  destruct (Z.leb_spec n (Z.of_nat (length acc + 1))) as [Hle|Hgt].
  - unfold limit. rewrite (proj2 (Z.ltb_lt 0 n)) by done.
    rewrite take_app_le by (rewrite length_app; cbn; lia).
    rewrite take_ge by (rewrite length_app; cbn; lia). done.
  - apply IH. rewrite length_app. cbn. lia.
Qed.

Lemma getIPDiffSet_spec src ex sorted n :
  Forall ip_or_nil src → Forall ip_or_nil ex →
  getIPDiffSet src ex sorted n =
  Ret (let r := limit n (ips_minus src ex) in
       if sorted && (1 <? length r)%nat then sort_ips r else r).
Proof.
  intros Hs He. unfold getIPDiffSet.
  destruct (mark_ips_spec ex ∅ He) as (m & -> & Hm). cbn [mbind outcome_bind].
  rewrite diff_loop_spec by (done || cbn; lia). cbn [mbind outcome_bind app].
  assert (filter (λ ip, is_nil ip = false ∧ To16 ip ∉ m) src = ips_minus src ex) as ->.
  { unfold ips_minus. apply filter_agree. rewrite Forall_forall in Hs |- *. intros ip Hip.
    destruct (Hs ip Hip) as [->|Hwf]; [by split; intros [? _]|].
    rewrite Hm by (by apply ip16_To16). set_solver. }
  by case_match.
Qed.

(** ** Free addresses *)

(** The loop from the address numbered [lo] to the one [k] places further, [k] below
    [2 ^ 128] so that the stop address differs from every address before it. *)
Lemma avail_loop_spec k m fuel lo count acc :
  0 ≤ lo → lo + Z.of_nat k ≤ 2 ^ 128 → Z.of_nat k < 2 ^ 128 → (k ≤ fuel)%nat → 0 ≤ count →
  avail_loop fuel (ip_of lo) (ip_of (lo + Z.of_nat k)) m count acc =
  Ret (let r := take (Z.to_nat count) (filter (.∉ m) (ips_from lo (Z.of_nat k))) in
       (acc ++ r, count - Z.of_nat (length r))).
Proof.
  revert fuel lo count acc. induction k as [|k IH]; intros fuel lo count acc Hlo Hhi Hk Hf Hc.
  - rewrite ips_from_nil, Z.add_0_r, filter_nil, take_nil by lia. cbn [length]. rewrite app_nil_r.
    assert (ip_equal (ip_of lo) (ip_of lo) = true) as E.
    { rewrite ip_equal_ip16 by apply ip16_ip_of. by apply bool_decide_true. }
    destruct fuel; cbn [avail_loop]; rewrite E; cbn; do 2 f_equal; lia.
  - assert (ip_equal (ip_of lo) (ip_of (lo + Z.of_nat (S k))) = false) as E.
    { rewrite ip_equal_ip16 by apply ip16_ip_of. apply bool_decide_false. intros E%(f_equal be).
      rewrite be_ip_of_small, be_ip_of in E by lia.
      destruct (decide (lo + Z.of_nat (S k) = 2 ^ 128)) as [E'|?].
      - rewrite E', Z.mod_same in E by lia. lia.
      - rewrite Z.mod_small in E by lia. lia. }
    destruct fuel as [|fuel]; [lia|]. cbn [avail_loop]. rewrite E. cbn [orb].
    destruct (Z.leb_spec count 0).
    { replace count with 0 by lia. cbn. by rewrite app_nil_r. }
    rewrite key16_ip16 by apply ip16_ip_of. cbn [mbind outcome_bind].
    rewrite nextIP_ip_of. rewrite ips_from_cons by lia.
    replace (Z.of_nat (S k) - 1) with (Z.of_nat k) by lia.
    replace (lo + Z.of_nat (S k)) with (lo + 1 + Z.of_nat k) by lia.
    case_bool_decide as Hin.
    + rewrite filter_cons_False by tauto. apply IH; lia.
    + rewrite filter_cons_True by done. rewrite IH by lia.
      replace (Z.to_nat count) with (S (Z.to_nat (count - 1))) by lia. cbn [take length].
      rewrite <- app_assoc. cbn [app]. do 2 f_equal. lia.
Qed.

(** The addresses a range string stands for: none when it is malformed or reversed. *)
Definition range_ips (r : string) : list IP :=
  match range_bounds r with
  | Ret (Some (s, e)) => ips_from (be s) (be e - be s + 1)
  | _ => []
  end.

(** A range that is not the whole IPv6 space, for which the stop address wraps around
    to the start address. *)
Definition proper_range (r : string) : Prop :=
  match range_bounds r with
  | Ret (Some (s, e)) => be e - be s + 1 < 2 ^ 128
  | _ => True
  end.
#[export] Instance proper_range_dec r : Decision (proper_range r).
Proof. unfold proper_range. repeat case_match; apply _. Defined.

Lemma split_nonempty sep s : split sep s ≠ [].
Proof.
  unfold split. generalize ""%string. induction s; intros cur; cbn; [done|].
  case_bool_decide; [done|]. apply IHs.
Qed.

Lemma range_bounds_Ret r :
  range_bounds r = Ret None ∨
  ∃ s e, range_bounds r = Ret (Some (s, e)) ∧ ip16 s ∧ ip16 e ∧ be s ≤ be e.
Proof.
  unfold range_bounds. destruct (split "-" r) as [|x l] eqn:Hs; [by apply split_nonempty in Hs|].
  cbn [index lookup list_lookup mbind outcome_bind].
  assert (∃ e, (if (length (x :: l) =? 2)%nat then ips1 ← index (x :: l) 1; Ret (net_ParseIP ips1)
           else Ret (net_ParseIP x)) = Ret (net_ParseIP e)) as [e ->].
  { destruct l as [|y [|z l]]; cbn; eauto. }
  cbn [mbind outcome_bind].
  destruct (net_ParseIP_nil_or x) as [->|H1]; [by left|].
  destruct (net_ParseIP_nil_or e) as [->|H2]; [rewrite orb_true_r; by left|].
  rewrite !ip16_not_nil by done. cbn [orb].
  rewrite bytes_compare_be by (apply H1 || apply H2 || by rewrite (proj2 H1), (proj2 H2)).
  destruct (Z.compare_spec (be (net_ParseIP x)) (be (net_ParseIP e))); [right|right|by left];
    exists (net_ParseIP x), (net_ParseIP e); (split_and!; [done..|lia]).
Qed.

Lemma avail_ranges_spec rs m count acc :
  0 ≤ count → Forall proper_range rs →
  avail_ranges rs m count acc =
  Ret (acc ++ take (Z.to_nat count) (filter (.∉ m) (concat (range_ips <$> rs)))).
Proof.
  intros Hc Hrs. revert count acc Hc.
  induction Hrs as [|r rs Hr Hrs IH]; intros count acc Hc; cbn [avail_ranges].
  { cbn. by rewrite take_nil, app_nil_r. }
  destruct (Z.eqb_spec count 0) as [->|Hne]; [cbn; by rewrite app_nil_r|].
  cbn [fmap list_fmap concat]. rewrite filter_app.
  unfold proper_range in Hr. unfold range_ips at 1.
  destruct (range_bounds_Ret r) as [E|(s & e & E & Hs & He & Hle)]; rewrite E in *;
    cbn [mbind outcome_bind]; [by apply IH|].
  pose proof (be_ip16 _ Hs). pose proof (be_ip16 _ He).
  set (k := Z.to_nat (be e - be s + 1)).
  rewrite <- (ip_of_be s) at 2 by done. rewrite nextIP_ip16 by done.
  replace (be e + 1) with (be s + Z.of_nat k) by (unfold k; lia).
  unfold range_fuel. fold k. rewrite avail_loop_spec by (unfold k; lia).
  replace (be e - be s + 1) with (Z.of_nat k) by (unfold k; lia).
  set (F := filter _ (ips_from _ _)). cbn zeta. cbn [mbind outcome_bind].
  rewrite length_take. rewrite IH by lia. rewrite <- app_assoc. do 2 f_equal.
  rewrite take_app. f_equal. f_equal. lia.
Qed.

Lemma range_ips_ip16 r : Forall ip16 (range_ips r).
Proof. unfold range_ips. repeat case_match; auto using Forall_ips_from. Qed.

(** [FindAvailableIPs] returns the first [count] addresses of the ranges, in their order,
    that are not in the list, whatever the number of addresses they span. *)
Lemma FindAvailableIPs_spec rs l count :
  0 ≤ count → Forall proper_range rs → Forall ip_or_nil l →
  FindAvailableIPs rs l count =
  Ret (take (Z.to_nat count) (filter (.∉ To16 <$> l) (concat (range_ips <$> rs)))).
Proof.
  intros Hc Hrs Hl. unfold FindAvailableIPs.
  destruct (mark_ips_spec l ∅ Hl) as (m & -> & Hm). cbn [mbind outcome_bind].
  rewrite avail_ranges_spec by done. cbn [app]. do 2 f_equal. apply filter_agree.
  apply Forall_forall. intros ip (r & Hr & Hip)%elem_of_concat.
  apply list_elem_of_fmap in Hr as (s & -> & _).
  rewrite Hm by (eapply Forall_forall in Hip; [exact Hip|apply range_ips_ip16]). set_solver.
Qed.

(** ** What is found is not in the list, whatever the ranges are *)

Definition fresh_ip (m : gset (list Z)) (x : IP) : Prop := ip16 x ∧ x ∉ m.

Lemma mark_ips_all l m m' : mark_ips l m = Ret m' → m ⊆ m' ∧ ∀ y, y ∈ l → ip16 y → y ∈ m'.
Proof.
  revert m. induction l as [|ip l IH]; intros m; cbn [mark_ips].
  { intros [= <-]. split; [done|]. by intros y ?%elem_of_nil. }
  destruct (is_nil ip) eqn:En.
  - intros [? H]%IH. split; [done|]. intros y [->|Hy]%elem_of_cons Hy16; [|by apply H].
    destruct Hy16 as [_ Hl]. by destruct ip.
  - intros (k & Hk & [Hs H]%IH)%bind_Ret. split; [set_solver|]. intros y [->|Hy]%elem_of_cons Hy16; [|by apply H].
    rewrite key16_ip16 in Hk by done. injection Hk as <-. set_solver.
Qed.

Lemma avail_loop_fresh fuel ip stop m count acc r c :
  ip16 ip → Forall (fresh_ip m) acc → avail_loop fuel ip stop m count acc = Ret (r, c) → Forall (fresh_ip m) r.
Proof.
  revert ip count acc. induction fuel as [|fuel IH]; intros ip count acc Hip Hacc; cbn [avail_loop].
  { case_match; [|done]. by intros [= <- _]. }
  case_match; [by intros [= <- _]|]. rewrite key16_ip16 by done. cbn [mbind outcome_bind].
  assert (ip16 (nextIP ip)) by (rewrite nextIP_ip16 by done; apply ip16_ip_of).
  case_bool_decide as Hm; apply IH; try done. apply Forall_app. split; [done|]. by apply Forall_singleton.
Qed.

Lemma avail_ranges_fresh rs m count acc r :
  Forall (fresh_ip m) acc → avail_ranges rs m count acc = Ret r → Forall (fresh_ip m) r.
Proof.
  revert count acc. induction rs as [|ipRange rs IH]; intros count acc Hacc; cbn [avail_ranges]; [by intros [= <-]|].
  destruct (count =? 0); [by intros [= <-]|]. intros (b & Hb & H)%bind_Ret. destruct b as [[s e]|]; [|by eapply IH].
  apply bind_Ret in H as ([acc' count'] & Hl & H). eapply IH; [|exact H]. eapply avail_loop_fresh; [|exact Hacc|exact Hl].
  unfold range_bounds in Hb. apply bind_Ret in Hb as (a & _ & Hb). apply bind_Ret in Hb as (e' & _ & Hb).
  destruct (is_nil (net_ParseIP a)) eqn:En; [done|]. assert (s = net_ParseIP a) as ->.
  { cbn in Hb. destruct (is_nil e'); [done|]. destruct (bytes_compare _ _); by injection Hb. }
  apply net_ParseIP_ip16. intros E. by rewrite E in En.
Qed.

Lemma FindAvailableIPs_fresh rs l n r x :
  FindAvailableIPs rs l n = Ret r → x ∈ r → ip16 x ∧ ∀ y, y ∈ l → ip16 y → x ≠ y.
Proof.
  intros (m & [_ Hm]%mark_ips_all & Hr)%bind_Ret Hx. apply avail_ranges_fresh in Hr; [|constructor].
  rewrite Forall_forall in Hr. destruct (Hr x Hx) as [H16 Hn]. split; [done|]. intros y Hy Hy16 ->. by apply Hn, Hm.
Qed.

(** The whole IPv6 space as one range is skipped: the address after the last one is the first. *)
Lemma range_whole_empty s e m count acc :
  ip16 s → ip16 e → be e - be s + 1 = 2 ^ 128 →
  avail_loop (range_fuel s e) s (nextIP e) m count acc = Ret (acc, count).
Proof.
  intros Hs He Hw. pose proof (be_ip16 _ Hs). pose proof (be_ip16 _ He).
  assert (ip_equal s (nextIP e) = true) as E.
  { rewrite nextIP_ip16 by done. replace (be e + 1) with (0 + 1 * 2 ^ 128) by lia.
    rewrite <- ip_of_mod, Z.mod_add by lia. replace (0 mod 2 ^ 128) with (be s) by (rewrite Z.mod_0_l; lia).
    rewrite ip_of_be, ip_equal_ip16 by done. by apply bool_decide_true. }
  destruct (range_fuel s e); cbn [avail_loop]; by rewrite E.
Qed.

(** ** Union and intersection *)

Lemma not_wf_nil : ¬ wf_ip nilIP.
Proof. intros [_ [?|?]]; done. Qed.

Lemma ip_string_To16 ip : wf_ip ip → ip_string (To16 ip) = ip_string ip.
Proof.
  intros Hwf. pose proof (ip16_To16 ip Hwf) as H16. destruct (is_v4 ip) eqn:Hv.
  - rewrite !ip_string_v4; [by rewrite To4_To16|done..|by apply ip16_wf|].
    unfold is_v4. by rewrite To4_To16.
  - destruct (ip_string_v6 ip Hwf Hv) as [_ Hl]. unfold To16. by rewrite Hl.
Qed.

Lemma mark_strings_cons ip l m :
  mark_strings (ip :: l) m =
  mark_strings l (if is_nil ip then m else <[ip_string ip := true]> m).
Proof. done. Qed.

Lemma mark_strings_lookup l m k :
  Forall ip_or_nil l →
  is_Some (mark_strings l m !! k) ↔ is_Some (m !! k) ∨ ∃ ip, ip ∈ l ∧ wf_ip ip ∧ k = ip_string ip.
Proof.
  intros Hl. revert m. induction Hl as [|ip l Hip Hl IH]; intros m; [set_solver|].
  rewrite mark_strings_cons.
  destruct Hip as [->|Hip].
  - change (is_nil nilIP) with true. rewrite IH. split; [set_solver|]. intros [?|(x & Hx & ? & ?)]; [auto|].
    apply elem_of_cons in Hx as [->|?]; [|eauto 6].
    by destruct not_wf_nil.
  - rewrite (wf_ip_not_nil ip Hip). rewrite (IH (<[ip_string ip := true]> m)).
    rewrite lookup_insert_is_Some'. set_solver.
Qed.

Lemma mark_strings_true l m k b :
  (∀ k b, m !! k = Some b → b = true) → mark_strings l m !! k = Some b → b = true.
Proof.
  revert m. induction l as [|ip l IH]; intros m Hm; [apply Hm|].
  rewrite mark_strings_cons. apply IH. case_match; [done|].
  intros k' b' [[_ <-]|[_ ?]]%lookup_insert_Some; eauto.
Qed.

Section set_facts.
Context `{MR : MapRange}.

(** Reading the keys of a map of printed addresses back. *)
Lemma parsed_keys (m : gmap string bool) :
  (∀ k, is_Some (m !! k) → ∃ ip, wf_ip ip ∧ k = ip_string ip) →
  NoDup (net_ParseIP <$> range_keys m) ∧
  ∀ x, x ∈ net_ParseIP <$> range_keys m ↔ ip16 x ∧ is_Some (m !! ip_string x).
Proof.
  intros Hm. split.
  - apply NoDup_fmap_2_strong; [|apply NoDup_range_keys].
    intros k1 k2 (a & Ha & ->)%elem_of_range_keys%Hm (b & Hb & ->)%elem_of_range_keys%Hm.
    rewrite !net_ParseIP_ip_string by done. intros E.
    by rewrite <- (ip_string_To16 a), <- (ip_string_To16 b), E.
  - intros x. rewrite list_elem_of_fmap. split.
    + intros (k & -> & Hk%elem_of_range_keys). destruct (Hm k Hk) as (ip & Hip & ->).
      rewrite net_ParseIP_ip_string, ip_string_To16 by done. split; [by apply ip16_To16|done].
    + intros [Hx Hs]. exists (ip_string x). rewrite net_ParseIP_ip_string by (by apply ip16_wf).
      rewrite To16_ip16 by done. split; [done|]. by apply elem_of_range_keys.
Qed.

Definition sort_if (sorted : bool) (l : list IP) : list IP := if sorted then sort_ips l else l.

Lemma sort_if_spec sorted l :
  sort_if sorted l ≡ₚ l ∧ (sorted = true → StronglySorted ip_le (sort_if sorted l)).
Proof. destruct sorted; cbn; split; try done; [apply sort_ips_perm|intros; apply sort_ips_sorted]. Qed.

Lemma IPsUnionSet_spec ips1 ips2 sorted :
  Forall ip_or_nil ips1 → Forall ip_or_nil ips2 →
  let r := IPsUnionSet ips1 ips2 sorted in
  NoDup r ∧ (sorted = true → StronglySorted ip_le r) ∧
  ∀ x, x ∈ r ↔ ∃ ip, (ip ∈ ips1 ∨ ip ∈ ips2) ∧ wf_ip ip ∧ x = To16 ip.
Proof.
  intros H1 H2 r. unfold IPsUnionSet in r. set (m := mark_strings (ips1 ++ ips2) ∅) in r.
  assert (∀ k, is_Some (m !! k) ↔ ∃ ip, (ip ∈ ips1 ∨ ip ∈ ips2) ∧ wf_ip ip ∧ k = ip_string ip) as Hm.
  { intros k. unfold m. rewrite mark_strings_lookup by (by apply Forall_app).
    rewrite lookup_empty, is_Some_alt. setoid_rewrite elem_of_app. naive_solver. }
  destruct (parsed_keys m) as [Hnd Hin]; [naive_solver|].
  destruct (sort_if_spec sorted (net_ParseIP <$> range_keys m)) as [Hp Hs].
  split_and!; [unfold r; by rewrite Hp|done|]. intros x. unfold r. rewrite Hp, Hin, Hm. split.
  - intros (Hx & ip & Hip & Hwf & E). exists ip. split_and!; [done..|].
    rewrite <- (To16_ip16 x) by done. apply ip_string_inj; [by apply ip16_wf|done..].
  - intros (ip & Hip & Hwf & ->). split; [by apply ip16_To16|].
    exists ip. by rewrite ip_string_To16.
Qed.

Lemma intersect_fold_lookup (s m : gmap string bool) l k :
  Forall ip_or_nil l → (∀ k b, s !! k = Some b → b = true) →
  is_Some (foldl (λ m ip, if negb (is_nil ip) && default false (s !! ip_string ip)
      then <[ip_string ip := true]> m else m) m l !! k) ↔
  is_Some (m !! k) ∨ is_Some (s !! k) ∧ ∃ ip, ip ∈ l ∧ wf_ip ip ∧ k = ip_string ip.
Proof.
  intros Hl Htrue. revert m. induction Hl as [|ip l Hip Hl IH]; intros m; cbn [foldl]; [set_solver|].
  rewrite IH. setoid_rewrite elem_of_cons. destruct Hip as [->|Hip].
  - change (is_nil nilIP) with true. cbn [negb andb]. split; [naive_solver|].
    intros [?|(? & x & [->|?] & Hx & ->)]; [auto|by destruct not_wf_nil|eauto 8].
  - rewrite wf_ip_not_nil by done. cbn [negb andb].
    destruct (s !! ip_string ip) as [b|] eqn:E; cbn [default].
    + rewrite (Htrue _ _ E). cbn. rewrite lookup_insert_is_Some'. split; [|naive_solver].
      intros [[<-|?]|?]; [|naive_solver..]. right. rewrite E. naive_solver.
    + split; [naive_solver|]. intros [?|(Hk & x & [->|?] & Hx & ->)]; [auto| |eauto 8].
      rewrite E in Hk. by destruct Hk.
Qed.

Lemma IPsIntersectionSet_spec ips1 ips2 sorted :
  Forall ip_or_nil ips1 → Forall ip_or_nil ips2 →
  let r := IPsIntersectionSet ips1 ips2 sorted in
  NoDup r ∧ (sorted = true → StronglySorted ip_le r) ∧
  ∀ x, x ∈ r ↔ (∃ a, a ∈ ips1 ∧ wf_ip a ∧ x = To16 a) ∧ (∃ b, b ∈ ips2 ∧ wf_ip b ∧ x = To16 b).
Proof.
  intros H1 H2 r. unfold IPsIntersectionSet in r.
  set (s := mark_strings ips1 ∅) in r. set (m := foldl _ _ _) in r.
  assert (∀ k, is_Some (s !! k) ↔ ∃ ip, ip ∈ ips1 ∧ wf_ip ip ∧ k = ip_string ip) as Hs.
  { intros k. unfold s. rewrite mark_strings_lookup by done.
    rewrite lookup_empty, is_Some_alt. naive_solver. }
  assert (∀ k b, s !! k = Some b → b = true) as Htrue.
  { intros k b. unfold s. apply mark_strings_true. intros ??. by rewrite lookup_empty. }
  assert (∀ k, is_Some (m !! k) ↔
    is_Some (s !! k) ∧ ∃ ip, ip ∈ ips2 ∧ wf_ip ip ∧ k = ip_string ip) as Hm.
  { intros k. unfold m. rewrite intersect_fold_lookup, lookup_empty, is_Some_alt by done. naive_solver. }
  destruct (parsed_keys m) as [Hnd Hin]; [naive_solver|].
  destruct (sort_if_spec sorted (net_ParseIP <$> range_keys m)) as [Hp Hsrt].
  split_and!; [unfold r; by rewrite Hp|done|]. intros x. unfold r. rewrite Hp, Hin, Hm, Hs.
  assert (∀ ip, ip16 x → wf_ip ip → ip_string x = ip_string ip ↔ x = To16 ip) as Hx.
  { intros ip Hx Hwf. split; [|by intros ->; rewrite ip_string_To16].
    intros E. rewrite <- (To16_ip16 x) by done. by apply ip_string_inj; [apply ip16_wf|..]. }
  split.
  - intros (H16 & (a & ? & ? & Ea) & (b & ? & ? & Eb)). apply Hx in Ea, Eb; naive_solver.
  - intros ((a & ? & ? & Ea) & (b & ? & ? & Eb)).
    assert (ip16 x) by (rewrite Ea; by apply ip16_To16).
    split_and!; [done|exists a|exists b]; (split_and!; [done..|]); by apply Hx.
Qed.
End set_facts.

(** ** The two successors *)

Definition ip_width (ip : IP) : nat := if is_v4 ip then 4 else 16.

(** The integer successor keeps the family of the address: its big-endian form without
    leading zero bytes has the length of an address of that family. *)
Definition next_ok (ip : IP) : Prop :=
  256 ^ Z.of_nat (ip_width ip - 1) ≤ ipToInt ip + 1 < 256 ^ Z.of_nat (ip_width ip).
#[export] Instance next_ok_dec ip : Decision (next_ok ip).
Proof. unfold next_ok. apply _. Defined.

Lemma ipToInt_v4 ip : is_v4 ip = true → ipToInt ip = be (To4 ip).
Proof.
  intros Hv. unfold ipToInt. change (negb (is_nil (To4 ip))) with (is_v4 ip). rewrite Hv.
  unfold To4 at 1. by rewrite is_v4_To4.
Qed.

Lemma ipToInt_v6 ip : is_v4 ip = false → ipToInt ip = be (To16 ip).
Proof. intros Hv. unfold ipToInt. change (negb (is_nil (To4 ip))) with (is_v4 ip). by rewrite Hv. Qed.

Lemma is_v4_To16 ip : wf_ip ip → is_v4 (To16 ip) = is_v4 ip.
Proof. intros Hwf. unfold is_v4. by rewrite To4_To16. Qed.

Lemma ipToInt_To16 ip : wf_ip ip → ipToInt (To16 ip) = ipToInt ip.
Proof.
  intros Hwf. destruct (is_v4 ip) eqn:Hv.
  - rewrite !ipToInt_v4 by (by rewrite ?is_v4_To16). by rewrite To4_To16.
  - rewrite !ipToInt_v6 by (by rewrite ?is_v4_To16). by rewrite (To16_ip16 (To16 ip)) by (by apply ip16_To16).
Qed.

(** The number of the first IPv4 address in the 16-byte form. *)
Definition v4_base : Z := 65535 * 2 ^ 32.

Lemma be_v4 l : length l = 4%nat → be (v4InV6Prefix ++ l) = v4_base + be l.
Proof. intros Hl. rewrite be_app, Hl. done. Qed.

Lemma ip16_mapped n : ip16 (v4InV6Prefix ++ be_split 4 n).
Proof.
  split; [apply Forall_app; split; [apply wf_prefix|apply wf_be_split]|].
  by rewrite length_app, length_be_split.
Qed.

Lemma is_v4_mapped n : is_v4 (v4InV6Prefix ++ be_split 4 n) = true.
Proof. unfold is_v4. by rewrite To4_prefix by apply length_be_split. Qed.

Lemma ip16_v4_be ip : ip16 ip → is_v4 ip = true → be ip = v4_base + ipToInt ip ∧ 0 ≤ ipToInt ip < 2 ^ 32.
Proof.
  intros Hip Hv. rewrite ipToInt_v4 by done. pose proof (is_v4_To4 ip Hv) as Hl.
  destruct (ip16_cases ip Hip) as [(l & Hwf & Hl' & -> & ->)|Hn]; [|by rewrite Hn in Hl].
  rewrite be_v4 by done. pose proof (be_bound l Hwf) as Hb. rewrite Hl' in Hb.
  change (256 ^ Z.of_nat 4) with (2 ^ 32) in Hb. lia.
Qed.

Lemma ip16_v6_be ip : ip16 ip → is_v4 ip = false → be ip = ipToInt ip.
Proof. intros Hip Hv. rewrite ipToInt_v6 by done. by rewrite To16_ip16. Qed.

Lemma ip16_is_v4 ip : ip16 ip → is_v4 ip = true ↔ v4_base ≤ be ip < v4_base + 2 ^ 32.
Proof.
  intros Hip. split; [intros Hv; pose proof (ip16_v4_be ip Hip Hv); lia|].
  intros Hb. assert (ip = v4InV6Prefix ++ be_split 4 (be ip - v4_base)) as ->.
  { apply ip16_eq; [done|apply ip16_mapped|].
    rewrite be_v4 by apply length_be_split. rewrite be_be_split_small; [lia|].
    change (256 ^ Z.of_nat 4) with (2 ^ 32). lia. }
  apply is_v4_mapped.
Qed.

Lemma intToIP_bytes n :
  intToIP n =
  (if decide (2 ^ 24 ≤ n < 2 ^ 32) then v4InV6Prefix ++ be_split 4 n
   else if decide (2 ^ 120 ≤ n < 2 ^ 128) then be_split 16 n
   else intToIP n).
Proof.
  unfold intToIP. repeat case_decide; [| |done].
  - rewrite (int_bytes_spec 3) by done. unfold To16. by rewrite length_be_split.
  - rewrite (int_bytes_spec 15) by done. unfold To16. by rewrite length_be_split.
Qed.

Lemma To16_length_nil l : length l ≠ 4%nat → length l ≠ 16%nat → To16 l = nilIP.
Proof.
  intros H1 H2. unfold To16. destruct (Nat.eqb_spec (length l) 4); [done|].
  by destruct (Nat.eqb_spec (length l) 16).
Qed.

Lemma intToIP_nil n :
  0 ≤ n → ¬ (2 ^ 24 ≤ n < 2 ^ 32) → ¬ (2 ^ 120 ≤ n < 2 ^ 128) → intToIP n = nilIP.
Proof.
  intros Hn H1 H2. unfold intToIP.
  destruct (decide (n = 0)) as [->|Hne]; [done|].
  assert (∀ k : nat, 256 ^ Z.of_nat k ≤ n → (k < length (int_bytes n))%nat) as Hge.
  { intros k ?. by apply length_int_bytes_ge. }
  assert (∀ k : nat, n < 256 ^ Z.of_nat k → (length (int_bytes n) ≤ k)%nat) as Hle.
  { intros k ?. apply length_int_bytes. lia. }
  pose proof (Hge 4%nat) as G4. pose proof (Hge 16%nat) as G16.
  pose proof (Hle 3%nat) as L3. pose proof (Hle 15%nat) as L15.
  change (256 ^ Z.of_nat 4) with (2 ^ 32) in G4. change (256 ^ Z.of_nat 16) with (2 ^ 128) in G16.
  change (256 ^ Z.of_nat 3) with (2 ^ 24) in L3. change (256 ^ Z.of_nat 15) with (2 ^ 120) in L15.
  apply To16_length_nil; lia.
Qed.

(** [NextIP] is the byte-wise successor on the addresses whose successor has no leading
    zero byte in its family. *)
Lemma NextIP_ok ip : ip16 ip → next_ok ip → NextIP ip = nextIP ip ∧ is_v4 (NextIP ip) = is_v4 ip.
Proof.
  intros Hip Hok. unfold next_ok, ip_width in Hok. unfold NextIP. rewrite intToIP_bytes.
  rewrite nextIP_ip16 by done. destruct (is_v4 ip) eqn:Hv.
  - change (256 ^ Z.of_nat (4 - 1)) with (2 ^ 24) in Hok.
    change (256 ^ Z.of_nat 4) with (2 ^ 32) in Hok. rewrite decide_True by done.
    destruct (ip16_v4_be ip Hip Hv) as [Hb _]. split.
    + apply ip16_eq; [apply ip16_mapped|apply ip16_ip_of|].
      change (256 ^ Z.of_nat 4) with (2 ^ 32) in *. unfold v4_base in Hb.
      rewrite be_v4 by apply length_be_split. rewrite be_be_split_small by (cbn; lia).
      rewrite be_ip_of_small by lia. unfold v4_base. lia.
    + apply is_v4_mapped.
  - change (256 ^ Z.of_nat (16 - 1)) with (2 ^ 120) in Hok.
    change (256 ^ Z.of_nat 16) with (2 ^ 128) in Hok.
    rewrite decide_False by lia. rewrite decide_True by done.
    rewrite (ip16_v6_be ip) by done. split; [done|].
    destruct (is_v4 (be_split 16 (ipToInt ip + 1))) eqn:E; [|done].
    apply ip16_is_v4 in E; [|apply ip16_ip_of]. change (be_split 16) with ip_of in E.
    rewrite be_ip_of_small in E by lia. unfold v4_base in E. lia.
Qed.

(** Everywhere else there is no successor, except that an IPv6 address below [2 ^ 32] gets an
    IPv4 one. *)
Lemma NextIP_not_ok ip : ip16 ip → ¬ next_ok ip →
  NextIP ip = nilIP ∨
  is_v4 ip = false ∧ be ip + 1 < 2 ^ 32 ∧ NextIP ip = v4InV6Prefix ++ be_split 4 (be ip + 1).
Proof.
  intros Hip Hok. unfold next_ok, ip_width in Hok. destruct (is_v4 ip) eqn:Hv.
  - left. pose proof (ip16_v4_be ip Hip Hv).
    change (256 ^ Z.of_nat (4 - 1)) with (2 ^ 24) in Hok.
    change (256 ^ Z.of_nat 4) with (2 ^ 32) in Hok. apply intToIP_nil; [lia..|].
    assert (2 ^ 120 > 2 ^ 32 + 1) by done. lia.
  - change (256 ^ Z.of_nat (16 - 1)) with (2 ^ 120) in Hok.
    change (256 ^ Z.of_nat 16) with (2 ^ 128) in Hok.
    pose proof (ip16_v6_be ip Hip Hv) as Hb. pose proof (be_ip16 ip Hip).
    unfold NextIP. destruct (decide (2 ^ 24 ≤ ipToInt ip + 1 < 2 ^ 32)) as [Hs|Hs].
    + right. rewrite intToIP_bytes, decide_True by done. rewrite Hb. split_and!; [done|lia|done].
    + left. apply intToIP_nil; lia.
Qed.

(** ** Properties *)

(** [FindAvailableIPs] returns, for a non-negative count, the first [count] free addresses of
    the ranges in their order: the result is a prefix of the list of the free addresses, it is
    that whole list when there are at most [count] of them, and has [count] elements otherwise. *)
Theorem FindAvailableIPs_first_free rs l count :
  0 ≤ count → Forall proper_range rs → Forall ip_or_nil l →
  ∃ r rest, FindAvailableIPs rs l count = Ret r ∧
    filter (.∉ To16 <$> l) (concat (range_ips <$> rs)) = r ++ rest ∧
    (rest = [] ∨ Z.of_nat (length r) = count) ∧ Z.of_nat (length r) ≤ count.
Proof.
  intros Hc Hrs Hl. rewrite FindAvailableIPs_spec by done. set (free := filter _ _).
  exists (take (Z.to_nat count) free), (drop (Z.to_nat count) free).
  split; [done|]. split; [by rewrite take_drop|]. rewrite length_take. split; [|lia].
  destruct (decide (length free ≤ Z.to_nat count)%nat); [left; by apply drop_ge|right; lia].
Qed.

Lemma FindAvailableIPs_first_free_witness :
  ∃ r rest, FindAvailableIPs ["10.0.0.1-10.0.0.2"; "10.0.1.0"] [[10; 0; 0; 1]] 1 = Ret r ∧
    filter (.∉ To16 <$> [[10; 0; 0; 1]]) (concat (range_ips <$> ["10.0.0.1-10.0.0.2"%string; "10.0.1.0"%string])) = r ++ rest ∧
    (rest = [] ∨ Z.of_nat (length r) = 1) ∧ Z.of_nat (length r) ≤ 1.
Proof.
  apply (FindAvailableIPs_first_free ["10.0.0.1-10.0.0.2"%string; "10.0.1.0"%string] [[10; 0; 0; 1]] 1);
    [lia|..]; apply (bool_decide_unpack _); vm_compute; exact I.
Defined.

(** [IPsDiffSet] keeps exactly the addresses of the source whose 16-byte form is not that of an
    excluded one, [IsDiffIPSet] tells whether there is one, and a sorted result is the unsorted
    one in increasing order. *)
Theorem IPsDiffSet_difference src ex sorted :
  Forall ip_or_nil src → Forall ip_or_nil ex →
  ∃ r, IPsDiffSet src ex sorted = Ret r ∧ r ≡ₚ ips_minus src ex ∧
    (sorted = true → StronglySorted ip_le r) ∧
    IsDiffIPSet src ex = Ret (bool_decide (ips_minus src ex ≠ [])).
Proof.
  intros Hs He. unfold IPsDiffSet, IsDiffIPSet. rewrite !getIPDiffSet_spec by done. cbn [mbind outcome_bind].
  set (d := ips_minus src ex). eexists. split; [done|]. cbn zeta. change (limit (-1) d) with d. split_and!.
  - case_match; [apply sort_ips_perm|done].
  - intros ->. cbn [andb]. destruct (Nat.ltb_spec 1 (length d)); [apply sort_ips_sorted|].
    destruct d as [|x [|y d']]; [constructor|repeat constructor|cbn in *; lia].
  - cbn [andb]. unfold limit. cbn. destruct d; done.
Qed.

Lemma IPsDiffSet_difference_witness :
  ∃ r, IPsDiffSet [[10; 0; 0; 2]; nilIP; [10; 0; 0; 1]] [To16 [10; 0; 0; 3]] true = Ret r ∧
    r ≡ₚ ips_minus [[10; 0; 0; 2]; nilIP; [10; 0; 0; 1]] [To16 [10; 0; 0; 3]] ∧
    (true = true → StronglySorted ip_le r) ∧
    IsDiffIPSet [[10; 0; 0; 2]; nilIP; [10; 0; 0; 1]] [To16 [10; 0; 0; 3]] =
      Ret (bool_decide (ips_minus [[10; 0; 0; 2]; nilIP; [10; 0; 0; 1]] [To16 [10; 0; 0; 3]] ≠ [])).
Proof.
  apply (IPsDiffSet_difference [[10; 0; 0; 2]; nilIP; [10; 0; 0; 1]] [To16 [10; 0; 0; 3]] true);
    apply (bool_decide_unpack _); vm_compute; exact I.
Defined.

(** The integer successor [NextIP] and the byte-wise successor [nextIP] agree, in the same
    family, exactly on the addresses whose successor has no leading zero byte; on all others
    [NextIP] has no result of that family: it is nil or, for an IPv6 address below [2 ^ 32], IPv4. *)
Theorem NextIP_agrees ip :
  ip16 ip → (NextIP ip = nextIP ip ∧ is_v4 (NextIP ip) = is_v4 ip ∧ NextIP ip ≠ nilIP) ↔ next_ok ip.
Proof.
  intros Hip. split.
  - intros (En & Ev & Hnn). destruct (decide (next_ok ip)) as [?|Hno]; [done|].
    destruct (NextIP_not_ok ip Hip Hno) as [E|(Hv & _ & E)]; [done|].
    rewrite E, is_v4_mapped, Hv in Ev. done.
  - intros Hok. destruct (NextIP_ok ip Hip Hok) as [En Ev]. split_and!; [done..|].
    rewrite En, nextIP_ip16 by done. intros Hn. destruct (ip16_ip_of (be ip + 1)) as [_ Hl]. by rewrite Hn in Hl.
Qed.

Lemma NextIP_agrees_witness :
  (NextIP (ip_of 281470849515775) = nextIP (ip_of 281470849515775) ∧
   is_v4 (NextIP (ip_of 281470849515775)) = is_v4 (ip_of 281470849515775) ∧
   NextIP (ip_of 281470849515775) ≠ nilIP) ↔ next_ok (ip_of 281470849515775).
Proof. apply (NextIP_agrees (ip_of 281470849515775)), ip16_ip_of. Defined.
