(* ===== verification/Cidr.v ===== *)
(** * pkg/ip/cidr.go, pkg/ip/route.go, and the parsing functions of pkg/ip/ip.go

    Subnets in CIDR notation: [ParseCIDR], [IsCIDR], [ContainsCIDR], [IsCIDROverlap],
    [IsFormatCIDR], [ParseIP], [ContainsIP] and the route checks, with what membership,
    containment and overlap mean in terms of address numbers. *)

From S2P Require Import Prelude NetIP NetIPFacts IPAddr.
Local Open Scope Z_scope.
Local Open Scope go_scope.

(** ** Operations *)

Definition IsIPv4CIDR (subnet : string) : bool :=
  match net_ParseCIDR subnet with
  | None => false
  | Some (ip, _) => negb (is_nil (To4 ip))
  end.

Definition IsIPv6CIDR (subnet : string) : bool :=
  match net_ParseCIDR subnet with
  | None => false
  | Some (ip, _) => is_nil (To4 ip)
  end.

Definition IsCIDR (version : IPVersion) (subnet : string) : outcome unit :=
  _ ← IsIPVersion version;
  if ((version =? IPv4) && negb (IsIPv4CIDR subnet)) || ((version =? IPv6) && negb (IsIPv6CIDR subnet))
  then Fail ErrInvalidCIDRFormat else Ret ().

Definition ParseCIDR (version : IPVersion) (subnet : string) : outcome IPNet :=
  _ ← IsCIDR version subnet;
  match net_ParseCIDR subnet with
  | None => Fail (ErrOther "net.ParseCIDR")
  | Some (_, ipNet) => Ret ipNet
  end.

(** The errors of [net.ParseCIDR] are ignored, so a malformed subnet is a nil dereference. *)
Definition containsCIDR (subnet1 subnet2 : string) : outcome bool :=
  ipNet1 ← deref (snd <$> net_ParseCIDR subnet1);
  ipNet2 ← deref (snd <$> net_ParseCIDR subnet2);
  let ones1 := mask_ones (net_mask ipNet1) in
  let ones2 := mask_ones (net_mask ipNet2) in
  Ret ((ones1 <=? ones2) && net_contains ipNet1 (net_ip ipNet2)).

Definition ContainsCIDR (version : IPVersion) (subnet1 subnet2 : string) : outcome bool :=
  _ ← IsIPVersion version;
  _ ← IsCIDR version subnet1;
  _ ← IsCIDR version subnet2;
  containsCIDR subnet1 subnet2.

Definition IsCIDROverlap (version : IPVersion) (subnet1 subnet2 : string) : outcome bool :=
  _ ← IsIPVersion version;
  _ ← IsCIDR version subnet1;
  _ ← IsCIDR version subnet2;
  c12 ← containsCIDR subnet1 subnet2;
  if (c12 : bool) then Ret true else containsCIDR subnet2 subnet1.

Definition IsFormatCIDR (subnet : string) : outcome unit :=
  match net_ParseCIDR subnet with
  | None => Fail (ErrOther "net.ParseCIDR")
  | Some (_, ipNet) =>
      let formatCIDR := net_string ipNet in
      if formatCIDR != subnet then Fail (ErrOther "unformatted subnet") else Ret ()
  end.

Definition ParseIP (version : IPVersion) (s : string) (isCIDR : bool) : outcome IPNet :=
  if isCIDR then
    _ ← IsCIDR version s;
    '(ip, ipNet) ← deref (net_ParseCIDR s);
    Ret (MkIPNet ip (net_mask ipNet))
  else
    _ ← IsIP version s;
    if version =? IPv4 then Ret (MkIPNet (net_ParseIP s) (CIDRMask 32 4))
    else Ret (MkIPNet (net_ParseIP s) (CIDRMask 128 16)).

Definition ContainsIP (version : IPVersion) (subnet ip : string) : outcome bool :=
  ipNet ← ParseCIDR version subnet;
  address ← ParseIP version ip false;
  Ret (net_contains ipNet (net_ip address)).

Definition IsIPv4Route (dst gw : string) : bool := IsIPv4CIDR dst && IsIPv4 gw.
Definition IsIPv6Route (dst gw : string) : bool := IsIPv6CIDR dst && IsIPv6 gw.

Definition IsRoute (version : IPVersion) (dst gw : string) : outcome unit :=
  _ ← IsIPVersion version;
  if ((version =? IPv4) && negb (IsIPv4Route dst gw)) || ((version =? IPv6) && negb (IsIPv6Route dst gw))
  then Fail ErrInvalidRouteFormat else Ret ().

Definition IsRouteWithoutIPVersion (dst gw : string) : outcome unit :=
  if negb (IsIPv4Route dst gw) && negb (IsIPv6Route dst gw) then Fail ErrInvalidRouteFormat else Ret ().

(** ** Masks *)

Lemma CIDRMask_S ones l : CIDRMask ones (S l) = mask_byte ones :: CIDRMask (ones - 8) l.
Proof.
  unfold CIDRMask. cbn [seq fmap list_fmap]. f_equal; [f_equal; lia|].
  rewrite <- fmap_S_seq, <- list_fmap_compose. apply list_fmap_ext. intros i x _. cbn. f_equal. lia.
Qed.

Lemma length_CIDRMask ones l : length (CIDRMask ones l) = l.
Proof. unfold CIDRMask. by rewrite length_fmap, length_seq. Qed.

Lemma mask_byte_full ones : 8 ≤ ones → mask_byte ones = 255.
Proof. intros. unfold mask_byte. replace (Z.max 0 (Z.min 8 ones)) with 8 by lia. done. Qed.

Lemma mask_byte_zero ones : ones ≤ 0 → mask_byte ones = 0.
Proof. intros. unfold mask_byte. replace (Z.max 0 (Z.min 8 ones)) with 0 by lia. done. Qed.

Lemma CIDRMask_zero ones l : ones ≤ 0 → CIDRMask ones l = replicate l 0.
Proof.
  revert ones. induction l as [|l IH]; intros ones H; [done|].
  rewrite CIDRMask_S, mask_byte_zero, IH by lia. done.
Qed.

Lemma and_bytes_zero a : be (and_bytes a (replicate (length a) 0)) = 0.
Proof.
  induction a as [|b a IH]; [done|]. cbn [length replicate and_bytes zip_with].
  rewrite be_cons, Z.land_0_r. unfold and_bytes in IH. rewrite IH. lia.
Qed.

Lemma land_mask_byte b n :
  is_byte b → 0 ≤ n ≤ 8 → Z.land b (mask_byte n) = b / 2 ^ (8 - n) * 2 ^ (8 - n).
Proof.
  intros Hb Hn.
  assert (forallb (λ b, forallb (λ n, Z.land b (mask_byte n) =? b / 2 ^ (8 - n) * 2 ^ (8 - n))
    (seqZ 0 9)) (seqZ 0 256) = true) as H by (vm_compute; reflexivity).
  rewrite forallb_forall in H. specialize (H b).
  rewrite forallb_forall in H. apply Z.eqb_eq, H; apply list_elem_of_In, elem_of_seqZ;
    unfold is_byte in Hb; lia.
Qed.

Lemma length_and_bytes a m : length (and_bytes a m) = (length a `min` length m)%nat.
Proof. apply length_zip_with. Qed.

Lemma is_byte_masked b n : is_byte b → is_byte (Z.land b (mask_byte n)).
Proof.
  intros Hb. replace (mask_byte n) with (mask_byte (Z.max 0 (Z.min 8 n))) by (unfold mask_byte; do 3 f_equal; lia).
  rewrite land_mask_byte by (done || lia). unfold is_byte in *. set (j := 8 - _).
  pose proof (Z.pow_pos_nonneg 2 j) as Hp. pose proof (Z.div_pos b (2 ^ j)) as H1.
  pose proof (Z.mul_div_le b (2 ^ j)) as H2.
  assert (0 < 2 ^ j) by (apply Hp; unfold j; lia). split; [|nia]. apply Z.mul_nonneg_nonneg; lia.
Qed.

Lemma wf_masked a n l : wf_bytes a → wf_bytes (and_bytes a (CIDRMask n l)).
Proof.
  intros Ha. revert n l. induction Ha as [|b a Hb Ha IH]; intros n [|l]; [constructor..|].
  rewrite CIDRMask_S. cbn [and_bytes zip_with]. constructor; [by apply is_byte_masked|apply IH].
Qed.

Lemma pow256_2 k : 256 ^ Z.of_nat k = 2 ^ (8 * Z.of_nat k).
Proof. rewrite Z.pow_mul_r by lia. done. Qed.

(** Masking clears the low [8 * length a - n] bits. *)
Lemma be_masked a n :
  wf_bytes a → 0 ≤ n ≤ 8 * Z.of_nat (length a) →
  be (and_bytes a (CIDRMask n (length a))) =
  be a / 2 ^ (8 * Z.of_nat (length a) - n) * 2 ^ (8 * Z.of_nat (length a) - n).
Proof.
  intros Ha. revert n. induction Ha as [|b a Hb Ha IH]; intros n Hn.
  { cbn in Hn. by replace n with 0 by lia. }
  cbn [length]. rewrite CIDRMask_S. cbn [and_bytes zip_with]. fold (and_bytes a (CIDRMask (n - 8) (length a))).
  rewrite !be_cons, length_and_bytes, length_CIDRMask, Nat.min_id.
  pose proof (be_bound a Ha) as Hba. rewrite pow256_2 in *. cbn [length] in Hn.
  set (L := 8 * Z.of_nat (length a)) in *. replace (8 * Z.of_nat (S (length a))) with (L + 8) in * by lia.
  destruct (Z.le_gt_cases 8 n) as [Hge|Hlt].
  - rewrite mask_byte_full by done. rewrite IH by lia.
    change 255 with (Z.ones 8). rewrite Z.land_ones, (Z.mod_small b) by (done || lia).
    replace (L + 8 - n) with (L - (n - 8)) by lia. set (E := L - (n - 8)).
    assert (2 ^ L = 2 ^ (n - 8) * 2 ^ E) as HL by (rewrite <- Z.pow_add_r by (unfold E; lia); f_equal; lia).
    rewrite HL. assert (0 < 2 ^ E) by (apply Z.pow_pos_nonneg; unfold E; lia).
    replace (b * (2 ^ (n - 8) * 2 ^ E) + be a) with (be a + b * 2 ^ (n - 8) * 2 ^ E) by ring.
    rewrite Z.div_add by lia. ring.
  - rewrite (CIDRMask_zero (n - 8)), and_bytes_zero by lia.
    rewrite land_mask_byte by (done || lia).
    replace (L + 8 - n) with (8 - n + L) by lia. rewrite Z.pow_add_r by lia.
    assert (0 < 2 ^ L) by (apply Z.pow_pos_nonneg; lia).
    assert (0 < 2 ^ (8 - n)) by (apply Z.pow_pos_nonneg; lia).
    rewrite (Z.mul_comm (2 ^ (8 - n)) (2 ^ L)), <- Z.div_div by lia.
    rewrite (Z.div_add_l b), (Z.div_small (be a)) by lia. rewrite !Z.add_0_r. ring.
Qed.

Lemma masked_eq a b n :
  wf_bytes a → wf_bytes b → length a = length b → 0 ≤ n ≤ 8 * Z.of_nat (length a) →
  and_bytes a (CIDRMask n (length a)) = and_bytes b (CIDRMask n (length a)) ↔
  be a / 2 ^ (8 * Z.of_nat (length a) - n) = be b / 2 ^ (8 * Z.of_nat (length a) - n).
Proof.
  intros Ha Hb Hl Hn. assert (0 < 2 ^ (8 * Z.of_nat (length a) - n)) by (apply Z.pow_pos_nonneg; lia).
  pose proof (be_masked a n Ha Hn) as Ea. pose proof (be_masked b n Hb) as Eb.
  rewrite <- Hl in Eb. specialize (Eb Hn). split.
  - intros E. rewrite E, Eb in Ea. apply Z.mul_cancel_r in Ea; lia.
  - intros E. apply be_inj; [by apply wf_masked..| |].
    + rewrite !length_and_bytes. lia.
    + by rewrite Ea, Eb, E.
Qed.

Lemma simpleMaskLength_CIDRMask n l :
  0 ≤ n ≤ 8 * Z.of_nat l → simpleMaskLength (CIDRMask n l) = Some n.
Proof.
  revert n. induction l as [|l IH]; intros n Hn; [cbn; f_equal; lia|].
  rewrite CIDRMask_S. cbn [simpleMaskLength]. destruct (Z.le_gt_cases 8 n) as [Hge|Hlt].
  - rewrite mask_byte_full by done. cbn [Z.eqb Pos.eqb]. rewrite IH by lia. cbn. f_equal. lia.
  - rewrite (CIDRMask_zero (n - 8)) by lia.
    assert (mask_byte n =? 255 = false ∧ byte_ones (mask_byte n) = Some n) as [-> ->].
    { assert (n ∈ seqZ 0 8) as Hin by (apply elem_of_seqZ; lia).
      change (seqZ 0 8) with [0; 1; 2; 3; 4; 5; 6; 7] in Hin.
      set_unfold in Hin. destruct_or?; subst; done. }
    cbn. by rewrite bool_decide_true by (by apply Forall_replicate).
Qed.

(** ** Parsed subnets *)

Lemma dtoi_go_nonneg s n i r : 0 ≤ n → dtoi_go s n i = Some r → 0 ≤ r.1.1.
Proof.
  revert n i. induction s as [|c s IH]; cbn; intros n i Hn; [by intros [= <-]|].
  destruct (digit_val c) as [d|] eqn:Hd; [|by intros [= <-]].
  apply digit_val_bound in Hd. case_match; [done|]. apply IH. lia.
Qed.

Lemma net_ParseCIDR_inv s ip net :
  net_ParseCIDR s = Some (ip, net) →
  ∃ a n, wf_ip a ∧ 0 ≤ n ≤ 8 * Z.of_nat (length a) ∧ ip = To16 a ∧
    net = MkIPNet (ip_mask (To16 a) (CIDRMask n (length a))) (CIDRMask n (length a)).
Proof.
  unfold net_ParseCIDR. intros H.
  destruct (cut "/" s) as [[addr mask]|]; cbn in H; [|done].
  destruct (ParseAddr addr) as [a|] eqn:Ea; cbn in H; [|done].
  case_match; [done|]. unfold dtoi in H.
  destruct (dtoi_go mask 0 0) as [[[n i] rest]|] eqn:Ed; cbn in H; [|done].
  apply dtoi_go_nonneg in Ed; [|done]. destruct (i =? 0)%nat; cbn in H; [done|].
  destruct (negb _ || _) eqn:E; [done|]. apply orb_false_iff in E as [_ E%Z.ltb_ge].
  injection H as <- <-. exists (addr_bytes a), n. cbn in Ed.
  split_and!; [by eapply ParseAddr_wf|lia..|done|done].
Qed.

Definition host_bits (net : IPNet) : Z := 8 * Z.of_nat (length (net_mask net)) - mask_ones (net_mask net).

(** What [networkNumberAndMask] finds in a parsed subnet. *)
Record net_view (net : IPNet) (nn : IP) (n : Z) : Prop := {
  nv_num : networkNumberAndMask net = Some (nn, CIDRMask n (length nn));
  nv_wf : wf_ip nn;
  nv_ip : wf_ip (net_ip net);
  nv_len : length nn = ip_width (net_ip net);
  nv_be : be nn = ipToInt (net_ip net);
  nv_n : 0 ≤ n ≤ 8 * Z.of_nat (length nn);
  nv_host : host_bits net = 8 * Z.of_nat (length nn) - n;
  nv_masked : and_bytes nn (CIDRMask n (length nn)) = nn;
}.

Lemma and_bytes_idem a n : wf_bytes a → 0 ≤ n ≤ 8 * Z.of_nat (length a) →
  let m := CIDRMask n (length a) in and_bytes (and_bytes a m) m = and_bytes a m.
Proof.
  intros Ha Hn m. assert (length (and_bytes a m) = length a) as Hl.
  { unfold m. rewrite length_and_bytes, length_CIDRMask. lia. }
  pose proof (wf_masked a n (length a) Ha) as Hw. fold m in Hw.
  assert (0 < 2 ^ (8 * Z.of_nat (length a) - n)) by (apply Z.pow_pos_nonneg; lia).
  pose proof (masked_eq (and_bytes a m) a n Hw Ha Hl) as E. rewrite Hl in E. apply E; [done|].
  unfold m. rewrite be_masked by done. by rewrite Z.div_mul by lia.
Qed.

Lemma is_v4_len4 ip : length ip = 4%nat → is_v4 ip = true ∧ To4 ip = ip.
Proof. intros Hl. unfold is_v4, To4. rewrite Hl. destruct ip; done. Qed.

Lemma drop_CIDRMask k n l : drop k (CIDRMask n (k + l)) = CIDRMask (n - 8 * Z.of_nat k) l.
Proof.
  revert n. induction k as [|k IH]; intros n; [by rewrite Z.mul_0_r, Z.sub_0_r|].
  cbn [Nat.add]. rewrite CIDRMask_S. cbn [drop]. rewrite IH. f_equal. lia.
Qed.

Lemma drop12_CIDRMask n : drop 12 (CIDRMask n 16) = CIDRMask (n - 96) 4.
Proof. apply (drop_CIDRMask 12 n 4). Qed.

Lemma mask_ones_CIDRMask n l : 0 ≤ n ≤ 8 * Z.of_nat l → mask_ones (CIDRMask n l) = n.
Proof. intros. unfold mask_ones. by rewrite simpleMaskLength_CIDRMask. Qed.

Lemma mask_byte_255 b n : is_byte b → Z.land b (mask_byte n) = 255 → 8 ≤ n.
Proof.
  intros Hb. destruct (Z.le_gt_cases 8 n) as [?|Hlt]; [done|].
  destruct (Z.le_gt_cases n 0); [by rewrite mask_byte_zero, Z.land_0_r|].
  rewrite land_mask_byte by (done || lia).
  replace (8 - n) with (7 - n + 1) by lia. rewrite Z.pow_add_r by lia.
  intros E%(f_equal Z.even). by rewrite !Z.even_mul, !orb_true_r in E.
Qed.

(** A network number that is IPv4-mapped keeps the 96 bits of the mapping. *)
Lemma masked_mapped a n :
  wf_bytes a → length a = 16%nat →
  take 12 (and_bytes a (CIDRMask n 16)) = v4InV6Prefix → 96 ≤ n.
Proof.
  intros Ha Hl Ht. assert (and_bytes a (CIDRMask n 16) !! 11%nat = Some 255) as H11.
  { transitivity (take 12 (and_bytes a (CIDRMask n 16)) !! 11%nat); [|by rewrite Ht].
    by rewrite lookup_take by lia. }
  destruct (a !! 11%nat) as [b|] eqn:Eb; [|apply lookup_ge_None in Eb; lia].
  unfold and_bytes in H11. rewrite lookup_zip_with, Eb in H11. cbn in H11.
  assert (is_byte b) by (eapply Forall_lookup_1; done). injection H11 as H11.
  apply mask_byte_255 in H11; [lia|done].
Qed.

Lemma ip_mask_parsed a n :
  wf_ip a → ip_mask (To16 a) (CIDRMask n (length a)) = and_bytes a (CIDRMask n (length a)).
Proof.
  intros [Ha Hl]. pose proof (length_CIDRMask n (length a)) as Hm. set (m := CIDRMask _ _) in *.
  unfold ip_mask, To16. destruct Hl as [Hl|Hl]; rewrite Hm, Hl; cbn [Nat.eqb andb].
  - rewrite length_app, Hl. cbn [length Nat.add Nat.eqb andb v4InV6Prefix].
    rewrite take_app_length', drop_app_length' by done. rewrite bool_decide_true by done.
    rewrite Hm, Hl. cbn [Nat.eqb andb]. by rewrite Hl.
  - rewrite Hl. cbn [Nat.eqb andb]. rewrite Hm, Hl. cbn [Nat.eqb andb]. by rewrite Hl.
Qed.

(** The three forms a parsed subnet takes: dotted, IPv6, and IPv4-mapped in IPv6 notation. *)
Section views.
Context (r : IP) (n : Z).
Context (Hwf : wf_bytes r).

Lemma view_v4 :
  length r = 4%nat → 0 ≤ n ≤ 32 → and_bytes r (CIDRMask n 4) = r →
  net_view (MkIPNet r (CIDRMask n 4)) r n.
Proof.
  intros Hl Hn Hid. destruct (is_v4_len4 r Hl) as [Hv Ht].
  split; cbn [net_ip net_mask]; rewrite ?Hl; try done; try (split; [done|auto]).
  - unfold networkNumberAndMask. cbn [net_ip net_mask]. rewrite Ht.
    unfold is_v4 in Hv. rewrite Ht in Hv. destruct (is_nil r); [done|].
    cbn [andb]. by rewrite length_CIDRMask, Hl.
  - unfold ip_width. by rewrite Hv.
  - rewrite ipToInt_v4 by done. by rewrite Ht.
  - unfold host_bits. cbn [net_mask]. rewrite length_CIDRMask, mask_ones_CIDRMask by lia. lia.
Qed.

Lemma view_v6 :
  length r = 16%nat → is_v4 r = false → 0 ≤ n ≤ 128 → and_bytes r (CIDRMask n 16) = r →
  net_view (MkIPNet r (CIDRMask n 16)) r n.
Proof.
  intros Hl Hv Hn Hid.
  split; cbn [net_ip net_mask]; rewrite ?Hl; try done; try (split; [done|auto]).
  - unfold networkNumberAndMask. cbn [net_ip net_mask]. rewrite is_v4_false by done.
    change (is_nil nilIP) with true. cbn [andb]. by rewrite length_CIDRMask, Hl.
  - unfold ip_width. by rewrite Hv.
  - rewrite ipToInt_v6 by done. by rewrite To16_ip16.
  - unfold host_bits. cbn [net_mask]. rewrite length_CIDRMask, mask_ones_CIDRMask by lia. lia.
Qed.

Lemma view_mapped :
  length r = 4%nat → 96 ≤ n ≤ 128 →
  and_bytes (v4InV6Prefix ++ r) (CIDRMask n 16) = v4InV6Prefix ++ r →
  net_view (MkIPNet (v4InV6Prefix ++ r) (CIDRMask n 16)) r (n - 96).
Proof.
  intros Hl Hn Hid. pose proof (To4_prefix r Hl) as Ht.
  assert (is_nil r = false) as Hnil by (by destruct r).
  assert (is_v4 (v4InV6Prefix ++ r) = true) as Hv by (unfold is_v4; by rewrite Ht, Hnil).
  split; cbn [net_ip net_mask]; rewrite ?Hl; try done.
  - unfold networkNumberAndMask. cbn [net_ip net_mask]. rewrite Ht, Hnil. cbn [andb].
    rewrite length_CIDRMask, Hl. cbn [Nat.eqb]. by rewrite drop12_CIDRMask.
  - split; [done|auto].
  - split; [apply Forall_app; split; [apply wf_prefix|done]|]. rewrite length_app, Hl. by right.
  - unfold ip_width. by rewrite Hv.
  - rewrite ipToInt_v4 by done. by rewrite Ht.
  - lia.
  - unfold host_bits. cbn [net_mask]. rewrite length_CIDRMask, mask_ones_CIDRMask by lia. lia.
  - apply (f_equal (drop 12)) in Hid. unfold and_bytes in Hid |- *. rewrite zip_with_drop in Hid.
    rewrite drop_app_length' in Hid by done. by rewrite drop12_CIDRMask in Hid.
Qed.
End views.

Lemma parsed_view s ip net : net_ParseCIDR s = Some (ip, net) → ∃ nn n, net_view net nn n.
Proof.
  intros (a & n & Hwf & Hn & _ & ->)%net_ParseCIDR_inv. rewrite ip_mask_parsed by done.
  destruct Hwf as [Ha Hl]. pose proof (and_bytes_idem a n Ha Hn) as Hid. cbn zeta in Hid.
  pose proof (wf_masked a n (length a) Ha) as Hw. set (r := and_bytes a _) in *.
  assert (length r = length a) as Hr.
  { unfold r. rewrite length_and_bytes, length_CIDRMask. lia. }
  destruct Hl as [Hl|Hl]; rewrite Hl in *; [exists r, n; by apply view_v4|].
  destruct (is_v4 r) eqn:Hv; [|exists r, n; by apply view_v6].
  destruct (ip16_cases r) as [(l & Hwl & Hl4 & Er & E4)|E]; [done|..].
  - exists l, (n - 96). rewrite Er in Hid |- *. apply view_mapped; [done..| |done].
    split; [|lia]. apply (masked_mapped a); [done..|].
    replace (and_bytes a _) with r by (unfold r; by rewrite ?Hl). rewrite Er. by rewrite take_app_length'.
  - unfold is_v4 in Hv. by rewrite E in Hv.
Qed.

(** ** Membership, containment, overlap *)

(** The prefix of an address under a subnet. *)
Definition prefix_of (net : IPNet) (ip : IP) : Z := ipToInt ip / 2 ^ host_bits net.

Lemma be_view ip : wf_ip ip →
  let v := if is_nil (To4 ip) then ip else To4 ip in
  be v = ipToInt ip ∧ wf_bytes v ∧ length v = ip_width ip.
Proof.
  intros Hwf v. unfold ip_width. pose proof (wf_To4 ip Hwf). unfold v.
  assert (is_nil (To4 ip) = negb (is_v4 ip)) as -> by (unfold is_v4; by rewrite negb_involutive).
  destruct (is_v4 ip) eqn:Hv; cbn [negb].
  - rewrite ipToInt_v4 by done. split_and!; [done..|]. by apply is_v4_To4.
  - destruct (ip_string_v6 ip Hwf Hv) as [_ Hl]. rewrite ipToInt_v6 by done. unfold To16.
    rewrite Hl. split_and!; [done|apply Hwf|done].
Qed.

Lemma ip_width_eq a b : ip_width a = ip_width b ↔ is_v4 a = is_v4 b.
Proof. unfold ip_width. destruct (is_v4 a), (is_v4 b); done. Qed.

Lemma net_contains_spec s ip net x :
  net_ParseCIDR s = Some (ip, net) → wf_ip x →
  net_contains net x = true ↔
  is_v4 x = is_v4 (net_ip net) ∧ prefix_of net x = prefix_of net (net_ip net).
Proof.
  intros (nn & n & V)%parsed_view Hx. unfold net_contains. rewrite (nv_num _ _ _ V). cbn [default from_option id].
  destruct (be_view x Hx) as (Hb & Hw & Hl). cbn zeta in *. set (v := if is_nil _ then _ else _) in *.
  rewrite Hl, (nv_len _ _ _ V). destruct (Nat.eqb_spec (ip_width x) (ip_width (net_ip net))) as [E|E].
  - cbn [negb]. rewrite bool_decide_eq_true, <- (nv_len _ _ _ V).
    rewrite (masked_eq nn v n); [|apply (nv_wf _ _ _ V)|done|by rewrite Hl, (nv_len _ _ _ V)|apply (nv_n _ _ _ V)].
    unfold prefix_of. rewrite (nv_host _ _ _ V), (nv_be _ _ _ V), Hb. rewrite ip_width_eq in E. naive_solver.
  - cbn [negb]. rewrite ip_width_eq in E. naive_solver.
Qed.

Lemma host_bits_range s ip net : net_ParseCIDR s = Some (ip, net) →
  wf_ip (net_ip net) ∧ 0 ≤ host_bits net ≤ 8 * Z.of_nat (ip_width (net_ip net)) ∧
  ipToInt (net_ip net) = prefix_of net (net_ip net) * 2 ^ host_bits net.
Proof.
  intros (nn & n & V)%parsed_view. pose proof (nv_n _ _ _ V) as Hn. rewrite (nv_len _ _ _ V) in Hn.
  split; [apply (nv_ip _ _ _ V)|]. unfold prefix_of. rewrite (nv_host _ _ _ V), <- (nv_be _ _ _ V).
  split; [rewrite (nv_len _ _ _ V); lia|]. rewrite <- (nv_masked _ _ _ V) at 1.
  rewrite be_masked; [done|apply (nv_wf _ _ _ V)|apply (nv_n _ _ _ V)].
Qed.

Lemma mask_len s ip net : net_ParseCIDR s = Some (ip, net) →
  mask_ones (net_mask net) = 8 * Z.of_nat (length (net_mask net)) - host_bits net.
Proof. intros _. unfold host_bits. lia. Qed.

(** A shorter prefix of the same address is a coarser one. *)
Lemma prefix_coarser net1 net2 a b :
  0 ≤ host_bits net2 ≤ host_bits net1 → prefix_of net2 a = prefix_of net2 b →
  prefix_of net1 a = prefix_of net1 b.
Proof.
  intros Hh. unfold prefix_of. intros E.
  replace (host_bits net1) with (host_bits net2 + (host_bits net1 - host_bits net2)) by lia.
  rewrite Z.pow_add_r by lia. rewrite <- !Z.div_div; [by rewrite E|..];
    try apply Z.pow_nonzero; try apply Z.pow_pos_nonneg; lia.
Qed.

Definition in_cidr (s : string) (x : IP) : Prop :=
  ∃ ip net, net_ParseCIDR s = Some (ip, net) ∧ net_contains net x = true.

(** Both subnets are written with masks of the same width: always so, except for an IPv4 subnet
    written as IPv4-mapped IPv6. *)
Definition same_notation (s1 s2 : string) : Prop :=
  ∀ ip1 net1 ip2 net2, net_ParseCIDR s1 = Some (ip1, net1) → net_ParseCIDR s2 = Some (ip2, net2) →
    length (net_mask net1) = length (net_mask net2).

Lemma containsCIDR_spec s1 s2 ip1 net1 ip2 net2 :
  net_ParseCIDR s1 = Some (ip1, net1) → net_ParseCIDR s2 = Some (ip2, net2) → same_notation s1 s2 →
  ∃ b, containsCIDR s1 s2 = Ret b ∧
    (b = true ↔ host_bits net2 ≤ host_bits net1 ∧ net_contains net1 (net_ip net2) = true).
Proof.
  intros H1 H2 Hs. specialize (Hs _ _ _ _ H1 H2). unfold containsCIDR. rewrite H1, H2. cbn.
  eexists. split; [done|]. rewrite andb_true_iff, Z.leb_le.
  rewrite (mask_len _ _ _ H1), (mask_len _ _ _ H2). rewrite Hs. intuition lia.
Qed.

Lemma contains_self s ip net : net_ParseCIDR s = Some (ip, net) → net_contains net (net_ip net) = true.
Proof. intros H. apply (net_contains_spec _ _ _ _ H); [apply (host_bits_range _ _ _ H)|done]. Qed.

Lemma contains_coarser s1 s2 ip1 net1 ip2 net2 x :
  net_ParseCIDR s1 = Some (ip1, net1) → net_ParseCIDR s2 = Some (ip2, net2) →
  host_bits net2 ≤ host_bits net1 → wf_ip x → net_contains net2 x = true →
  net_contains net1 x = net_contains net1 (net_ip net2).
Proof.
  intros H1 H2 Hh Hx Hc. destruct (host_bits_range _ _ _ H2) as (Hw2 & Hb2 & _).
  apply (net_contains_spec _ _ _ _ H2) in Hc as [Hv Hp]; [|done].
  apply eq_bool_prop_intro. rewrite !Is_true_true, !(net_contains_spec _ _ _ _ H1) by done.
  rewrite Hv, (prefix_coarser net1 net2 x (net_ip net2)) by (done || lia). done.
Qed.

Lemma IsCIDR_parsed v s : IsCIDR v s = Ret () → ∃ ip net, net_ParseCIDR s = Some (ip, net).
Proof.
  unfold IsCIDR, IsIPVersion, IsIPv4CIDR, IsIPv6CIDR. intros H.
  destruct (net_ParseCIDR s) as [[ip net]|]; [eauto|].
  destruct (v =? IPv4), (v =? IPv6); done.
Qed.

Lemma IsCIDR_version v s : IsCIDR v s = Ret () → IsIPVersion v = Ret ().
Proof. unfold IsCIDR. by destruct (IsIPVersion v) as [[]| | |]. Qed.

Lemma containsCIDR_subset s1 s2 x :
  same_notation s1 s2 → containsCIDR s1 s2 = Ret true → wf_ip x → in_cidr s2 x → in_cidr s1 x.
Proof.
  intros Hs Hc Hx (ip2 & net2 & H2 & Hin). unfold in_cidr.
  destruct (net_ParseCIDR s1) as [[ip1 net1]|] eqn:H1; [|by unfold containsCIDR in Hc; rewrite H1 in Hc].
  destruct (containsCIDR_spec _ _ _ _ _ _ H1 H2 Hs) as (b & Eb & Hb). rewrite Hc in Eb.
  injection Eb as <-. destruct Hb as [Hb _]. destruct (Hb eq_refl) as [Hh Hcon].
  exists ip1, net1. split; [done|]. by rewrite (contains_coarser _ _ _ _ _ _ x H1 H2).
Qed.

Lemma common_address_nested s1 s2 ip1 net1 ip2 net2 :
  net_ParseCIDR s1 = Some (ip1, net1) → net_ParseCIDR s2 = Some (ip2, net2) →
  host_bits net2 ≤ host_bits net1 →
  (∃ x, wf_ip x ∧ in_cidr s1 x ∧ in_cidr s2 x) ↔ net_contains net1 (net_ip net2) = true.
Proof.
  intros H1 H2 Hh. split.
  - intros (x & Hx & (? & ? & E1 & Hc1) & (? & ? & E2 & Hc2)). simplify_eq.
    by rewrite <- (contains_coarser _ _ _ _ _ _ x H1 H2).
  - intros Hc. exists (net_ip net2). split; [apply (host_bits_range _ _ _ H2)|].
    split; [by exists ip1, net1|]. exists ip2, net2. split; [done|]. by apply contains_self in H2.
Qed.

Lemma same_notation_sym s1 s2 : same_notation s1 s2 → same_notation s2 s1.
Proof. intros H ???? H1 H2. symmetry. eauto. Qed.

Lemma IsCIDROverlap_spec v s1 s2 :
  IsCIDR v s1 = Ret () → IsCIDR v s2 = Ret () → same_notation s1 s2 →
  ∃ b, IsCIDROverlap v s1 s2 = Ret b ∧ (b = true ↔ ∃ x, wf_ip x ∧ in_cidr s1 x ∧ in_cidr s2 x).
Proof.
  intros Hv1 Hv2 Hs. unfold IsCIDROverlap. rewrite (IsCIDR_version _ _ Hv1), Hv1, Hv2.
  cbn [mbind outcome_bind].
  destruct (IsCIDR_parsed _ _ Hv1) as (ip1 & net1 & H1). destruct (IsCIDR_parsed _ _ Hv2) as (ip2 & net2 & H2).
  destruct (containsCIDR_spec _ _ _ _ _ _ H1 H2 Hs) as (b & -> & Hb).
  destruct (containsCIDR_spec _ _ _ _ _ _ H2 H1 (same_notation_sym _ _ Hs)) as (b' & -> & Hb').
  pose proof (common_address_nested _ _ _ _ _ _ H1 H2) as C12.
  pose proof (common_address_nested _ _ _ _ _ _ H2 H1) as C21.
  assert ((∃ x, wf_ip x ∧ in_cidr s2 x ∧ in_cidr s1 x) ↔ (∃ x, wf_ip x ∧ in_cidr s1 x ∧ in_cidr s2 x)) as Hsw
    by naive_solver.
  rewrite Hsw in C21. cbn [mbind outcome_bind].
  exists (b || b'). split; [by destruct b|]. rewrite orb_true_iff, Hb, Hb'.
  destruct (Z.le_ge_cases (host_bits net2) (host_bits net1)) as [Hle|Hge].
  - rewrite C12 by done. split; [|tauto]. intros [?|[? Hc]]; [tauto|]. by apply C12, C21.
  - rewrite C21 by done. split; [|tauto]. intros [[? Hc]|?]; [|tauto]. by apply C21, C12.
Qed.

(** ** Canonical notation *)

Lemma ParseAddr_ip_string ip : wf_ip ip → length ip = ip_width ip → ParseAddr (ip_string ip) = Some (MkAddr ip "").
Proof.
  intros Hwf Hl. destruct (ip_string_chars ip Hwf) as [Hc Hs]. unfold ParseAddr. unfold ip_width in Hl.
  destruct (is_v4 ip) eqn:Hv.
  - rewrite (addr_family_sep "." _ true) by auto. rewrite ip_string_v4 by done.
    destruct (is_v4_len4 ip Hl) as [_ ->]. rewrite parseIPv4_string4; [done|apply Hwf|done].
  - rewrite (addr_family_sep ":" _ false) by auto.
    destruct (ip_string_v6 ip Hwf Hv) as [E _]. rewrite E in *. unfold parseIPv6.
    rewrite cut_none by (by apply (string_forall_contains (hex_or ":"))).
    rewrite parse6_body_string6; [done|apply Hwf|done].
Qed.

Lemma view_width net nn n : net_view net nn n → length nn = ip_width nn ∧ is_v4 nn = is_v4 (net_ip net).
Proof.
  intros V. pose proof (nv_len _ _ _ V) as Hl. destruct (is_v4 (net_ip net)) eqn:Hv.
  - unfold ip_width in Hl. rewrite Hv in Hl. destruct (is_v4_len4 nn Hl) as [E _]. unfold ip_width. by rewrite E.
  - pose proof (nv_num _ _ _ V) as Hn. unfold networkNumberAndMask in Hn. rewrite (is_v4_false _ Hv) in Hn. cbn in Hn.
    assert (nn = net_ip net) as ->; [|by rewrite Hv]. by repeat case_match; simplify_eq.
Qed.

(** A subnet that [IsFormatCIDR] accepts has the mask width and the family of its version. *)
Lemma format_notation v s ip net :
  IsCIDR v s = Ret () → IsFormatCIDR s = Ret () → net_ParseCIDR s = Some (ip, net) →
  length (net_mask net) = ip_width (net_ip net) ∧ is_v4 (net_ip net) = (v =? IPv4).
Proof.
  intros Hcidr Hf Hp. unfold IsFormatCIDR in Hf. rewrite Hp in Hf.
  destruct (net_string net == s) eqn:Es; [|done]. apply bool_decide_eq_true in Es. clear Hf.
  destruct (parsed_view s ip net Hp) as (nn & n & V). destruct (view_width _ _ _ V) as [Hl Hv].
  assert (∃ rest, s = ip_string nn +:+ String "/" rest) as (rest & Hs).
  { subst s. unfold net_string. rewrite (nv_num _ _ _ V). case_match; eexists; reflexivity. }
  assert (ip = To16 nn ∧ length (net_mask net) = length nn) as [Eip Em].
  { unfold net_ParseCIDR in Hp. rewrite Hs, cut_app in Hp by (by apply ip_string_no_char; [apply (nv_wf _ _ _ V)|..]).
    cbn in Hp. rewrite ParseAddr_ip_string in Hp by (done || apply (nv_wf _ _ _ V)). cbn in Hp.
    destruct (dtoi rest) as [[k r]|]; cbn in Hp; [|done]. repeat (case_match; [done|]). injection Hp as <- <-.
    split; [done|]. apply (length_CIDRMask k). }
  split; [by rewrite Em, (nv_len _ _ _ V)|]. rewrite <- Hv.
  assert (To4 ip = To4 nn) as E4 by (rewrite Eip; apply To4_To16, (nv_wf _ _ _ V)).
  unfold IsCIDR, IsIPv4CIDR, IsIPv6CIDR in Hcidr. rewrite Hp, E4 in Hcidr. unfold is_v4.
  destruct (IsIPVersion v) as [[]| | |] eqn:Ev; try done. cbn in Hcidr. unfold IsIPVersion in Ev.
  destruct (v =? IPv4), (v =? IPv6), (is_nil (To4 nn)); cbn in *; done.
Qed.

Lemma format_same_notation v s1 s2 :
  IsCIDR v s1 = Ret () → IsFormatCIDR s1 = Ret () → IsCIDR v s2 = Ret () → IsFormatCIDR s2 = Ret () → same_notation s1 s2.
Proof.
  intros C1 F1 C2 F2 ip1 net1 ip2 net2 P1 P2.
  destruct (format_notation _ _ _ _ C1 F1 P1) as [-> E1]. destruct (format_notation _ _ _ _ C2 F2 P2) as [-> E2].
  unfold ip_width. by rewrite E1, E2.
Qed.

(** ** Properties *)

(** [ContainsCIDR] on two valid subnets of a family returns a result, and when it reports
    containment every address of the second subnet is an address of the first. *)
Theorem ContainsCIDR_sound v s1 s2 :
  IsCIDR v s1 = Ret () → IsCIDR v s2 = Ret () → same_notation s1 s2 →
  ∃ b, ContainsCIDR v s1 s2 = Ret b ∧
    (b = true → ∀ x, wf_ip x → in_cidr s2 x → in_cidr s1 x).
Proof.
  intros Hv1 Hv2 Hs. unfold ContainsCIDR. rewrite (IsCIDR_version _ _ Hv1), Hv1, Hv2.
  cbn [mbind outcome_bind].
  destruct (IsCIDR_parsed _ _ Hv1) as (ip1 & net1 & H1). destruct (IsCIDR_parsed _ _ Hv2) as (ip2 & net2 & H2).
  destruct (containsCIDR_spec _ _ _ _ _ _ H1 H2 Hs) as (b & E & _). rewrite E.
  exists b. split; [done|]. intros -> x Hx. by apply containsCIDR_subset.
Qed.

(** [IsCIDROverlap] on two valid subnets of a family returns [true] exactly when some address
    lies in both, for every version, prefix length and textual form of the same notation. *)
Theorem IsCIDROverlap_iff v s1 s2 :
  IsCIDR v s1 = Ret () → IsCIDR v s2 = Ret () → same_notation s1 s2 →
  (IsCIDROverlap v s1 s2 = Ret true ↔ ∃ x, wf_ip x ∧ in_cidr s1 x ∧ in_cidr s2 x) ∧
  IsCIDROverlap v s1 s2 = IsCIDROverlap v s2 s1.
Proof.
  intros H1 H2 Hs. destruct (IsCIDROverlap_spec v s1 s2 H1 H2 Hs) as (b & E & Hb).
  destruct (IsCIDROverlap_spec v s2 s1 H2 H1 (same_notation_sym _ _ Hs)) as (b' & E' & Hb').
  rewrite E, E'. split; [rewrite <- Hb; naive_solver|]. f_equal. apply eq_bool_prop_intro.
  rewrite !Is_true_true, Hb, Hb'. naive_solver.
Qed.

Lemma IsCIDROverlap_iff_witness :
  (IsCIDROverlap IPv4 "172.18.0.0/16" "172.18.40.0/24" = Ret true ↔
   ∃ x, wf_ip x ∧ in_cidr "172.18.0.0/16" x ∧ in_cidr "172.18.40.0/24" x) ∧
  IsCIDROverlap IPv4 "172.18.0.0/16" "172.18.40.0/24" = IsCIDROverlap IPv4 "172.18.40.0/24" "172.18.0.0/16".
Proof.
  apply (IsCIDROverlap_iff IPv4 "172.18.0.0/16" "172.18.40.0/24"); [vm_compute; reflexivity..|].
  intros ip1 net1 ip2 net2 E1 E2. vm_compute in E1, E2. by injection E1 as <- <-; injection E2 as <- <-.
Defined.

Lemma ContainsCIDR_sound_witness :
  ∃ b, ContainsCIDR IPv6 "fd00::/16" "fd00:db8::/32" = Ret b ∧
    (b = true → ∀ x, wf_ip x → in_cidr "fd00:db8::/32" x → in_cidr "fd00::/16" x).
Proof.
  apply (ContainsCIDR_sound IPv6 "fd00::/16" "fd00:db8::/32"); [vm_compute; reflexivity..|].
  intros ip1 net1 ip2 net2 E1 E2. vm_compute in E1, E2. by injection E1 as <- <-; injection E2 as <- <-.
Defined.
