(* ===== verification/IPRange.v ===== *)
(** * pkg/ip/iprange.go and pkg/ip/utils.go: IP ranges

    An IP range is the text ["a"] or ["a-b"].  [ParseIPRange] enumerates one by repeated
    [NextIP]; [ConvertIPsToIPRanges] goes back from addresses to the shortest sorted list of
    ranges.  The theorems give the exact list a range stands for, when the enumeration does
    not end, the canonical form of the conversion, and what the membership and overlap tests
    decide. *)

From S2P Require Import Prelude NetIP NetIPFacts IPAddr Cidr.
Local Open Scope Z_scope.
Local Open Scope go_scope.

(** ** Operations *)

Definition is_gt (c : comparison) : bool := match c with Gt => true | _ => false end.
Definition is_lt (c : comparison) : bool := match c with Lt => true | _ => false end.

(** The shared body of [IsIPv4IPRange] and [IsIPv6IPRange]. *)
Definition check_range (isIP : string → bool) (ipRange : string) : bool :=
  match split "-" ipRange with
  | [a] => isIP a
  | [a; b] =>
      if negb (isIP a) || negb (isIP b) then false
      else if is_gt (Cmp (net_ParseIP a) (net_ParseIP b)) then false
      else true
  | _ :: _ => false
  | [] => true
  end.
Definition IsIPv4IPRange (ipRange : string) : bool := check_range IsIPv4 ipRange.
Definition IsIPv6IPRange (ipRange : string) : bool := check_range IsIPv6 ipRange.

Definition IsIPRange (version : IPVersion) (ipRange : string) : outcome unit :=
  _ ← IsIPVersion version;
  if ((version =? IPv4) && negb (IsIPv4IPRange ipRange)) || ((version =? IPv6) && negb (IsIPv6IPRange ipRange))
  then Fail ErrInvalidIPRangeFormat else Ret ().

(** [for Cmp(cur, end) <= 0 { ips = append(ips, cur); cur = NextIP(cur) }] *)
Fixpoint range_loop (fuel : nat) (cur stop : IP) : outcome (list IP) :=
  if is_gt (Cmp cur stop) then Ret []
  else match fuel with
  | O => OutOfFuel
  | S fuel => ips ← range_loop fuel (NextIP cur) stop; Ret (cur :: ips)
  end.

(** The number of addresses of the range, plus one step to leave the loop.  When that is not
    enough no fuel is: see [range_loop_diverges]. *)
Definition loop_fuel (cur stop : IP) : nat := Z.to_nat (ipToInt stop - ipToInt cur + 2).

Definition ParseIPRange (version : IPVersion) (ipRange : string) : outcome (list IP) :=
  _ ← IsIPRange version ipRange;
  let arr := split "-" ipRange in
  let n := length arr in
  if (n =? 1)%nat then
    arr0 ← index arr 0; Ret [net_ParseIP arr0]
  else
    arr0 ← index arr 0;
    arr1 ← index arr 1;
    let cur := net_ParseIP arr0 in
    let stop := net_ParseIP arr1 in
    _ ← make_cap 24 (int64 (ipToInt stop - ipToInt cur));
    range_loop (loop_fuel cur stop) cur stop.

Definition ParseIPRanges (version : IPVersion) (ipRanges : list string) : outcome (list IP) :=
  concat_map_m (ParseIPRange version) ipRanges.

(** The loop that checks the family of each address and fills the set. *)
Fixpoint convert_set (version : IPVersion) (ips : list IP) (set : gmap string bool)
    : outcome (gmap string bool) :=
  match ips with
  | [] => Ret set
  | ip :: ips =>
      if ((version =? IPv4) && is_nil (To4 ip)) || ((version =? IPv6) && negb (is_nil (To4 ip)))
      then Fail ErrInvalidIP
      else convert_set version ips (<[ip_string ip := true]> set)
  end.

Definition print_range (start stop : IP) (single : bool) : string :=
  if single then ip_string start else ip_string start +:+ "-" +:+ ip_string stop.

(** The merging loop: [start] and [stop] are [ips[start]] and [ips[end]], [k] is [end - start]
    and [rest] is [ips[end+1:]]. *)
Fixpoint merge_loop (start stop : IP) (k : nat) (rest : list IP) : list string :=
  match rest with
  | [] => [print_range start stop (k =? 0)%nat]
  | x :: rest =>
      if ip_equal x (NextIP stop) then merge_loop start x (S k) rest
      else print_range start stop (k =? 0)%nat :: merge_loop x x 0 rest
  end.

Definition merge_ranges (ips : list IP) : list string :=
  match ips with [] => [] | x :: rest => merge_loop x x 0 rest end.

Section convert.
Context `{MR : MapRange}.

Definition ConvertIPsToIPRanges (version : IPVersion) (ips : list IP) : outcome (list string) :=
  _ ← IsIPVersion version;
  set ← convert_set version ips ∅;
  let ips := sort_ips (net_ParseIP <$> range_keys set) in
  Ret (merge_ranges ips).

Definition MergeIPRanges (version : IPVersion) (ipRanges : list string) : outcome (list string) :=
  ips ← ParseIPRanges version ipRanges;
  ConvertIPsToIPRanges version ips.
End convert.

Definition ContainsIPRange (version : IPVersion) (subnet ipRange : string) : outcome bool :=
  ipNet ← ParseCIDR version subnet;
  ips ← ParseIPRange version ipRange;
  let n := length ips in
  first ← index ips 0;
  if (n =? 1)%nat then Ret (net_contains ipNet first)
  else if net_contains ipNet first then last ← index ips (n - 1); Ret (net_contains ipNet last)
  else Ret false.

Definition IPRangeContainsIP (version : IPVersion) (ipRange ip : string) : outcome bool :=
  _ ← IsIPRange version ipRange;
  _ ← IsIP version ip;
  match split "-" ipRange with
  | [_] => Ret (ipRange == ip)
  | [a; b] =>
      if is_gt (Cmp (net_ParseIP a) (net_ParseIP ip)) || is_lt (Cmp (net_ParseIP b) (net_ParseIP ip))
      then Ret false else Ret true
  | _ => Ret true
  end.

Definition IsIPRangeOverlap (version : IPVersion) (ipRange1 ipRange2 : string) : outcome bool :=
  _ ← IsIPVersion version;
  _ ← IsIPRange version ipRange1;
  _ ← IsIPRange version ipRange2;
  ips1 ← ignore_err [] (ParseIPRange version ipRange1);
  ips2 ← ignore_err [] (ParseIPRange version ipRange2);
  diff ← IPsDiffSet ips1 ips2 false;
  Ret (length diff <? length ips1)%nat.

Definition AssembleTotalIPs (ipVersion : IPVersion) (ipRanges excludedIPRanges : list string)
    : outcome (list IP) :=
  ips ← ParseIPRanges ipVersion ipRanges;
  excludeIPs ← ParseIPRanges ipVersion excludedIPRanges;
  IPsDiffSet ips excludeIPs false.

Definition CIDRToLabelValue (ipVersion : IPVersion) (subnet : string) : outcome string :=
  _ ← IsCIDR ipVersion subnet;
  let value := replace_char "." "-" 3 subnet in
  let value := replace_char ":" "-" 7 value in
  let value := replace_char "/" "-" 1 value in
  Ret value.

(** ** What a valid range is *)

(** The endpoints, and that both belong to the family of the version: a dotted IPv6 address
    such as ["::1.2.3.4"] also passes for IPv4, an IPv4-mapped one also for IPv6. *)
Definition range_ends (r : string) : list IP := net_ParseIP <$> split "-" r.
Definition of_family (v : IPVersion) (ip : IP) : Prop := is_v4 ip = (v =? IPv4).
Definition plain_range (v : IPVersion) (r : string) : Prop := Forall (of_family v) (range_ends r).
#[export] Instance of_family_dec v ip : Decision (of_family v ip).
Proof. unfold of_family. apply _. Defined.
#[export] Instance plain_range_dec v r : Decision (plain_range v r).
Proof. unfold plain_range. apply _. Defined.

Lemma IsIPVersion_cases v : IsIPVersion v = Ret () → v = IPv4 ∨ v = IPv6.
Proof. unfold IsIPVersion. destruct (Z.eqb_spec v IPv4), (Z.eqb_spec v IPv6); auto; done. Qed.

Lemma is_gt_Cmp a b : is_gt (Cmp a b) = (ipToInt b <? ipToInt a).
Proof. unfold Cmp. destruct (Z.compare_spec (ipToInt a) (ipToInt b)); cbn; lia. Qed.

Lemma is_lt_Cmp a b : is_lt (Cmp a b) = (ipToInt a <? ipToInt b).
Proof. unfold Cmp. destruct (Z.compare_spec (ipToInt a) (ipToInt b)); cbn; lia. Qed.

Lemma IsIPv4_ip16 s : IsIPv4 s = true → ip16 (net_ParseIP s).
Proof. unfold IsIPv4. destruct (net_ParseIP_nil_or s) as [->|?]; done. Qed.

Lemma IsIPv6_ip16 s : IsIPv6 s = true → ip16 (net_ParseIP s).
Proof. unfold IsIPv6. destruct (net_ParseIP_nil_or s) as [->|?]; done. Qed.

Lemma check_range_inv isIP r :
  (∀ s, isIP s = true → ip16 (net_ParseIP s)) → check_range isIP r = true →
  (∃ a, split "-" r = [a] ∧ isIP a = true ∧ ip16 (net_ParseIP a)) ∨
  (∃ a b, split "-" r = [a; b] ∧ isIP a = true ∧ isIP b = true ∧
     ip16 (net_ParseIP a) ∧ ip16 (net_ParseIP b) ∧
     ipToInt (net_ParseIP a) ≤ ipToInt (net_ParseIP b)).
Proof.
  intros Hip. unfold check_range.
  destruct (split "-" r) as [|a [|b [|]]] eqn:Hs; [by apply split_nonempty in Hs| | |done].
  - intros Ha. left. exists a. split_and!; auto.
  - destruct (isIP a) eqn:Ha, (isIP b) eqn:Hb; try done. cbn [negb orb].
    rewrite is_gt_Cmp. case_match eqn:E; [done|]. intros _. right. exists a, b.
    split_and!; auto; lia.
Qed.

Lemma IsIPRange_inv v r :
  IsIPRange v r = Ret () →
  IsIPVersion v = Ret () ∧
  ((∃ a, split "-" r = [a] ∧ ip16 (net_ParseIP a)) ∨
   (∃ a b, split "-" r = [a; b] ∧ ip16 (net_ParseIP a) ∧ ip16 (net_ParseIP b) ∧
     ipToInt (net_ParseIP a) ≤ ipToInt (net_ParseIP b))).
Proof.
  unfold IsIPRange. intros ([] & Hv & H)%bind_Ret. split; [done|].
  destruct (IsIPVersion_cases v Hv) as [-> | ->]; cbn in H.
  - destruct (IsIPv4IPRange r) eqn:E; [|done].
    destruct (check_range_inv _ _ IsIPv4_ip16 E) as [?|?]; [left|right]; naive_solver.
  - destruct (IsIPv6IPRange r) eqn:E; [|done].
    destruct (check_range_inv _ _ IsIPv6_ip16 E) as [?|?]; [left|right]; naive_solver.
Qed.

(** On one family, the order of [Cmp] is the order of the 16-byte forms. *)
Lemma family_be v a b :
  of_family v a → of_family v b → ip16 a → ip16 b → be b - be a = ipToInt b - ipToInt a.
Proof.
  unfold of_family. intros Fa Fb Ha Hb. destruct (v =? IPv4).
  - destruct (ip16_v4_be a Ha Fa), (ip16_v4_be b Hb Fb). lia.
  - rewrite (ip16_v6_be a), (ip16_v6_be b) by done. lia.
Qed.

Lemma range_bounds_one r a :
  split "-" r = [a] → ip16 (net_ParseIP a) → range_bounds r = Ret (Some (net_ParseIP a, net_ParseIP a)).
Proof.
  intros Hs Ha. unfold range_bounds. rewrite Hs. cbn. rewrite ip16_not_nil by done. cbn.
  by rewrite bytes_compare_refl.
Qed.

Lemma range_bounds_two r a b :
  split "-" r = [a; b] → ip16 (net_ParseIP a) → ip16 (net_ParseIP b) →
  be (net_ParseIP a) ≤ be (net_ParseIP b) →
  range_bounds r = Ret (Some (net_ParseIP a, net_ParseIP b)).
Proof.
  intros Hs Ha Hb Hle. unfold range_bounds. rewrite Hs. cbn. rewrite !ip16_not_nil by done. cbn.
  rewrite bytes_compare_be by (apply Ha || apply Hb || by rewrite (proj2 Ha), (proj2 Hb)).
  destruct (Z.compare_spec (be (net_ParseIP a)) (be (net_ParseIP b))); done || lia.
Qed.

(** ** The enumeration *)

(** Every step of the loop has a successor of the right length, in the family of [cur]. *)
Definition loop_ok (cur stop : IP) : Prop :=
  256 ^ Z.of_nat (ip_width cur - 1) ≤ ipToInt cur + 1 ∧ ipToInt stop + 1 < 256 ^ Z.of_nat (ip_width cur).

(** The length of the slice can be allocated; the bound is [2 ^ 48 / 24]. *)
Definition cap_ok (cur stop : IP) : Prop := (ipToInt stop - ipToInt cur) * 24 ≤ 2 ^ 48.

(** A range that [ParseIPRange] can enumerate. *)
Definition safe_range (r : string) : Prop :=
  match range_ends r with
  | [a; b] => loop_ok a b ∧ cap_ok a b
  | _ => True
  end.
#[export] Instance safe_range_dec r : Decision (safe_range r).
Proof. unfold safe_range, loop_ok, cap_ok. repeat case_match; apply _. Defined.

Lemma range_loop_spec k fuel cur stop :
  ip16 cur → (k = O ∨ loop_ok cur stop) → ipToInt cur + Z.of_nat k = ipToInt stop + 1 → (k ≤ fuel)%nat →
  range_loop fuel cur stop = Ret (ips_from (be cur) (Z.of_nat k)).
Proof.
  revert fuel cur. induction k as [|k IH]; intros fuel cur Hc Hok Hk Hf.
  - rewrite ips_from_nil by lia. destruct fuel; cbn [range_loop]; rewrite is_gt_Cmp;
      (destruct (Z.ltb_spec (ipToInt stop) (ipToInt cur)); [done|lia]).
  - destruct Hok as [|Hok]; [done|]. destruct fuel as [|fuel]; [lia|]. cbn [range_loop].
    rewrite is_gt_Cmp. destruct (Z.ltb_spec (ipToInt stop) (ipToInt cur)); [lia|].
    assert (next_ok cur) as Hn by (unfold next_ok, loop_ok in *; lia).
    destruct (NextIP_ok cur Hc Hn) as [En Ev]. rewrite En in Ev |- *.
    rewrite nextIP_ip16 in Ev |- * by done. pose proof (be_ip16 cur Hc) as Hb.
    assert (ipToInt (ip_of (be cur + 1)) = ipToInt cur + 1 ∧ be cur + 1 < 2 ^ 128) as [Ei Hsm].
    { unfold next_ok, ip_width in Hn. destruct (is_v4 cur) eqn:Hv.
      - destruct (ip16_v4_be cur Hc Hv) as [E0 E1].
        destruct (ip16_v4_be (ip_of (be cur + 1)) (ip16_ip_of _) Ev) as [E2 _].
        unfold v4_base in *. rewrite be_ip_of_small in E2 by lia. lia.
      - change (256 ^ Z.of_nat 16) with (2 ^ 128) in Hn. rewrite (ip16_v6_be cur) in * by done.
        rewrite <- (ip16_v6_be (ip_of _)) by (done || apply ip16_ip_of).
        rewrite be_ip_of_small by lia. lia. }
    rewrite IH; [|apply ip16_ip_of|right; unfold loop_ok, ip_width in *; rewrite Ev, Ei; lia|lia|lia].
    cbn [mbind outcome_bind]. rewrite (ips_from_cons (be cur)) by lia.
    rewrite ip_of_be, be_ip_of_small by (done || lia). do 3 f_equal. lia.
Qed.

Lemma NextIP_nil : NextIP nilIP = nilIP.
Proof. done. Qed.

Lemma range_loop_nil fuel stop : 0 ≤ ipToInt stop → range_loop fuel nilIP stop = OutOfFuel.
Proof.
  intros Hs. induction fuel as [|fuel IH]; cbn [range_loop]; rewrite is_gt_Cmp;
    (destruct (Z.ltb_spec (ipToInt stop) (ipToInt nilIP)) as [Hl|]; [cbn in Hl; lia|]); [done|].
  by rewrite NextIP_nil, IH.
Qed.

Lemma ipToInt_nonneg ip : wf_ip ip → 0 ≤ ipToInt ip.
Proof. intros Hwf. destruct (be_view ip Hwf) as (<- & Hw & _). by apply be_bound. Qed.

(** An integer whose big-endian form is as long as an address. *)
Definition address_int (n : Z) : Prop := 2 ^ 24 ≤ n < 2 ^ 32 ∨ 2 ^ 120 ≤ n < 2 ^ 128.

Lemma ipToInt_intToIP n : address_int n → ip16 (intToIP n) ∧ ipToInt (intToIP n) = n.
Proof.
  intros Hn. rewrite intToIP_bytes. destruct (decide (2 ^ 24 ≤ n < 2 ^ 32)) as [H4|H4].
  - split; [apply ip16_mapped|]. rewrite ipToInt_v4 by apply is_v4_mapped.
    rewrite To4_prefix by apply length_be_split. apply be_be_split_small. cbn. lia.
  - rewrite decide_True by (destruct Hn; [done|done]). change (be_split 16) with ip_of.
    split; [apply ip16_ip_of|]. destruct (is_v4 (ip_of n)) eqn:Hv.
    + apply ip16_is_v4 in Hv; [|apply ip16_ip_of]. destruct Hn as [?|?]; [done|].
      rewrite be_ip_of_small in Hv by lia. unfold v4_base in Hv. lia.
    + rewrite <- ip16_v6_be by (done || apply ip16_ip_of). apply be_ip_of_small.
      destruct Hn; [done|lia].
Qed.

(** Some step of the enumeration leaves the integers that are addresses: the loop then stays on
    the nil address, which counts as 0, and never ends. *)
Lemma range_loop_diverges fuel cur stop :
  wf_ip stop → 0 ≤ ipToInt cur ≤ ipToInt stop →
  ¬ (∀ n, ipToInt cur < n ≤ ipToInt stop + 1 → address_int n) →
  range_loop fuel cur stop = OutOfFuel.
Proof.
  intros Hstop. pose proof (ipToInt_nonneg stop Hstop) as H0. revert cur.
  induction fuel as [|fuel IH]; intros cur Hle Hex; cbn [range_loop]; rewrite is_gt_Cmp;
    (destruct (Z.ltb_spec (ipToInt stop) (ipToInt cur)); [lia|]); [done|].
  destruct (decide (2 ^ 24 ≤ ipToInt cur + 1 < 2 ^ 32 ∨ 2 ^ 120 ≤ ipToInt cur + 1 < 2 ^ 128)) as [Hin|Hout].
  - destruct (ipToInt_intToIP _ Hin) as [_ E]. fold (NextIP cur) in E.
    destruct (decide (ipToInt cur + 1 ≤ ipToInt stop)) as [Hlt|Hge].
    + rewrite IH; [done|lia|]. rewrite E. intros Hall. apply Hex. intros n Hn.
      destruct (decide (n = ipToInt cur + 1)) as [->|]; [done|]. apply Hall. lia.
    + destruct Hex. intros n Hn. by replace n with (ipToInt cur + 1) by lia.
  - assert (NextIP cur = nilIP) as -> by (apply intToIP_nil; tauto || lia).
    by rewrite range_loop_nil.
Qed.

Lemma ParseIPRange_spec v r :
  IsIPRange v r = Ret () → plain_range v r → safe_range r → ParseIPRange v r = Ret (range_ips r).
Proof.
  intros Hr Hp Hs. unfold ParseIPRange. rewrite Hr. cbn [mbind outcome_bind].
  unfold plain_range, safe_range, range_ends, range_ips in *.
  destruct (IsIPRange_inv v r Hr) as (_ & [(a & Ha & H16)|(a & b & Hab & Ha & Hb & Hle)]).
  - rewrite (range_bounds_one r a) by done. rewrite Ha. cbn.
    replace (be (net_ParseIP a) - be (net_ParseIP a) + 1) with 1 by lia.
    rewrite ips_from_cons, ips_from_nil, ip_of_be by (done || lia). done.
  - rewrite Hab in *. cbn [fmap list_fmap] in *. destruct Hs as [Hok Hcap].
    rewrite !Forall_cons in Hp. destruct Hp as (Fa & Fb & _).
    pose proof (family_be v _ _ Fa Fb Ha Hb) as E.
    rewrite (range_bounds_two r a b) by (done || lia). cbn [length Nat.eqb index lookup list_lookup mbind outcome_bind].
    unfold cap_ok in Hcap.
    rewrite int64_small by lia. unfold make_cap. rewrite bool_decide_true by (split; lia).
    cbn [mbind outcome_bind]. rewrite E.
    set (k := Z.to_nat (ipToInt (net_ParseIP b) - ipToInt (net_ParseIP a) + 1)).
    rewrite (range_loop_spec k); [do 2 f_equal; unfold k; lia|done|by right|unfold k; lia|].
    unfold loop_fuel, k. lia.
Qed.

Lemma ParseIPRange_checks v r ips : ParseIPRange v r = Ret ips → IsIPRange v r = Ret ().
Proof. unfold ParseIPRange. by intros ([] & ? & _)%bind_Ret. Qed.

Definition good_range (v : IPVersion) (r : string) : Prop :=
  IsIPRange v r = Ret () ∧ plain_range v r ∧ safe_range r.
#[export] Instance outcome_unit_eq_dec : EqDecision (outcome unit).
Proof. solve_decision. Defined.
#[export] Instance good_range_dec v r : Decision (good_range v r).
Proof. unfold good_range. apply _. Defined.

(** The addresses of a list of ranges, in order and with repetitions. *)
Definition ranges_ips (rs : list string) : list IP := concat (range_ips <$> rs).

Lemma ranges_ips_cons r rs : ranges_ips (r :: rs) = range_ips r ++ ranges_ips rs.
Proof. done. Qed.

Lemma ParseIPRanges_spec v rs :
  Forall (good_range v) rs → ParseIPRanges v rs = Ret (ranges_ips rs).
Proof.
  unfold ParseIPRanges. induction 1 as [|r rs (Hr & Hp & Hs) _ IH]; [done|].
  cbn [concat_map_m]. rewrite (ParseIPRange_spec v r) by done. rewrite IH. done.
Qed.

(** The bounds of a range of one family, and where they lie when [safe_range] holds. *)
Lemma plain_range_bounds v r :
  IsIPRange v r = Ret () → plain_range v r →
  ∃ s e, range_bounds r = Ret (Some (s, e)) ∧ ip16 s ∧ ip16 e ∧ be s ≤ be e ∧
    of_family v s ∧ of_family v e ∧ (safe_range r → s = e ∨ loop_ok s e).
Proof.
  intros Hr Hp. unfold plain_range, safe_range, range_ends in *.
  destruct (IsIPRange_inv v r Hr) as (_ & [(a & Ha & H16)|(a & b & Hab & Ha & Hb & Hle)]).
  - exists (net_ParseIP a), (net_ParseIP a). rewrite (range_bounds_one r a) by done.
    rewrite Ha in Hp. cbn in Hp. rewrite Forall_singleton in Hp. split_and!; try done. intros _. by left.
  - rewrite Hab in *. cbn [fmap list_fmap] in *. rewrite !Forall_cons in Hp. destruct Hp as (Fa & Fb & _).
    pose proof (family_be v _ _ Fa Fb Ha Hb) as E.
    exists (net_ParseIP a), (net_ParseIP b). rewrite (range_bounds_two r a b) by (done || lia).
    split_and!; first [done|lia|tauto].
Qed.

(** All addresses of an enumerable range belong to its family. *)
Lemma range_ips_family v r : good_range v r → Forall (of_family v) (range_ips r).
Proof.
  intros (Hr & Hp & Hs). destruct (plain_range_bounds v r Hr Hp) as (s & e & Eb & Hs16 & He16 & Hle & Fs & Fe & Hok).
  unfold range_ips. rewrite Eb. specialize (Hok Hs). apply Forall_forall. intros x Hx.
  pose proof (be_ip16 s Hs16). pose proof (be_ip16 e He16).
  apply elem_of_ips_from in Hx as [Hx16 Hx]; [|lia..].
  destruct Hok as [->|Hok].
  { assert (x = e) as ->; [|done]. apply ip16_eq; [done..|lia]. }
  unfold of_family, loop_ok, ip_width in *. destruct (v =? IPv4).
  - apply ip16_is_v4 in Fs, Fe; [|done..]. apply ip16_is_v4; [done|lia].
  - rewrite Fs in Hok. change (256 ^ Z.of_nat (16 - 1)) with (2 ^ 120) in Hok.
    rewrite <- (ip16_v6_be s) in Hok by done. destruct (is_v4 x) eqn:Hv; [|done].
    apply ip16_is_v4 in Hv; [|done]. unfold v4_base in Hv. lia.
Qed.

Lemma ranges_ips_family v rs : Forall (good_range v) rs → Forall (of_family v) (ranges_ips rs).
Proof.
  induction 1 as [|r rs Hr Hrs IH]; [constructor|]. rewrite ranges_ips_cons.
  apply Forall_app. split; [by apply range_ips_family|done].
Qed.

Lemma ranges_ips_ip16 rs : Forall ip16 (ranges_ips rs).
Proof.
  induction rs as [|r rs IH]; [constructor|]. rewrite ranges_ips_cons.
  apply Forall_app. split; [apply range_ips_ip16|done].
Qed.

#[export] Hint Resolve ip16_wf range_ips_ip16 ranges_ips_ip16 ranges_ips_family : addr.

Lemma ranges_ips_app rs1 rs2 : ranges_ips (rs1 ++ rs2) = ranges_ips rs1 ++ ranges_ips rs2.
Proof. unfold ranges_ips. by rewrite fmap_app, concat_app. Qed.

Lemma elem_of_ranges_ips x rs : x ∈ ranges_ips rs ↔ ∃ r, r ∈ rs ∧ x ∈ range_ips r.
Proof.
  unfold ranges_ips. rewrite elem_of_concat. split.
  - intros (l & (r & -> & ?)%list_elem_of_fmap & ?). eauto.
  - intros (r & ? & ?). exists (range_ips r). split; [by apply list_elem_of_fmap_2|done].
Qed.

(** ** Conversion of addresses to ranges *)

Lemma split_range a b : wf_ip a → wf_ip b →
  split "-" (ip_string a +:+ "-" +:+ ip_string b) = [ip_string a; ip_string b].
Proof.
  intros Ha Hb. pose proof (ip_string_no_char a "-" Ha eq_refl eq_refl) as Na.
  pose proof (ip_string_no_char b "-" Hb eq_refl eq_refl) as Nb.
  change (ip_string a +:+ "-" +:+ ip_string b) with (ip_string a +:+ String "-" (ip_string b)).
  by rewrite split_app, split_none.
Qed.

Lemma split_single a : wf_ip a → split "-" (ip_string a) = [ip_string a].
Proof. intros Ha. apply split_none. by apply ip_string_no_char. Qed.

Lemma net_ParseIP_print ip : ip16 ip → net_ParseIP (ip_string ip) = ip.
Proof. intros H. rewrite net_ParseIP_ip_string by auto with addr. by apply To16_ip16. Qed.

Lemma IsIP_print v ip : ip16 ip → of_family v ip → IsIPVersion v = Ret () →
  (if v =? IPv4 then IsIPv4 else IsIPv6) (ip_string ip) = true.
Proof.
  intros Hip Hf Hv. destruct (ip_string_chars ip (ip16_wf ip Hip)) as [_ Hc].
  unfold of_family in Hf. rewrite Hf in Hc.
  destruct (v =? IPv4); unfold IsIPv4, IsIPv6; rewrite net_ParseIP_print, ip16_not_nil, Hc by done; done.
Qed.

(** The ranges the conversion prints. *)
Definition printed (v : IPVersion) (s e : IP) (single : bool) : Prop :=
  ip16 s ∧ ip16 e ∧ of_family v s ∧ of_family v e ∧ be s ≤ be e ∧ (single = true → s = e).

Lemma print_range_ends s e single : ip16 s → ip16 e →
  range_ends (print_range s e single) = if single then [s] else [s; e].
Proof.
  intros Hs He. unfold range_ends, print_range. destruct single.
  - rewrite split_single by auto with addr. cbn. by rewrite net_ParseIP_print.
  - rewrite split_range by auto with addr. cbn. by rewrite !net_ParseIP_print.
Qed.

Lemma print_range_valid v s e single :
  IsIPVersion v = Ret () → printed v s e single →
  IsIPRange v (print_range s e single) = Ret () ∧ plain_range v (print_range s e single) ∧
  range_ips (print_range s e single) = ips_from (be s) (be e - be s + 1).
Proof.
  intros Hv (Hs & He & Fs & Fe & Hle & H1).
  pose proof (IsIP_print v s Hs Fs Hv) as Ps. pose proof (IsIP_print v e He Fe Hv) as Pe.
  assert (check_range (if v =? IPv4 then IsIPv4 else IsIPv6) (print_range s e single) = true) as Hc.
  { unfold check_range, print_range. destruct single.
    - by rewrite split_single by auto with addr.
    - rewrite split_range by auto with addr. rewrite Ps, Pe. cbn [negb orb].
      rewrite !net_ParseIP_print, is_gt_Cmp by done. pose proof (family_be v s e Fs Fe Hs He).
      destruct (Z.ltb_spec (ipToInt e) (ipToInt s)); [lia|done]. }
  split_and!.
  - unfold IsIPRange. rewrite Hv. destruct (IsIPVersion_cases v Hv) as [-> | ->]; cbn in Hc |- *;
      unfold IsIPv4IPRange, IsIPv6IPRange; by rewrite Hc.
  - unfold plain_range. rewrite print_range_ends by done. destruct single; by repeat constructor.
  - unfold range_ips, print_range. destruct single.
    + rewrite (range_bounds_one _ (ip_string s)).
      * rewrite (H1 eq_refl), net_ParseIP_print by done. done.
      * by apply split_single, ip16_wf.
      * by rewrite net_ParseIP_print.
    + rewrite (range_bounds_two _ (ip_string s) (ip_string e)); rewrite ?net_ParseIP_print; try done.
      apply split_range; by apply ip16_wf.
Qed.

Lemma convert_set_spec v ips m :
  IsIPVersion v = Ret () → Forall (λ ip, wf_ip ip ∧ of_family v ip) ips →
  convert_set v ips m = Ret (mark_strings ips m).
Proof.
  intros Hv Hips. revert m. induction Hips as [|ip ips [Hwf Hf] _ IH]; intros m; [done|].
  cbn [convert_set]. rewrite mark_strings_cons, IH, (wf_ip_not_nil ip) by done.
  unfold of_family, is_v4 in Hf. destruct (IsIPVersion_cases v Hv) as [-> | ->]; cbn in Hf |- *;
    by destruct (is_nil (To4 ip)).
Qed.

Lemma convert_set_wrong_family v ips m :
  IsIPVersion v = Ret () → Exists (λ ip, ¬ of_family v ip) ips → convert_set v ips m = Fail ErrInvalidIP.
Proof.
  intros Hv Hex. revert m. induction ips as [|ip ips IH]; intros m; [by inversion Hex|].
  cbn [convert_set]. case_match eqn:E; [done|]. apply IH. apply Exists_cons in Hex as [Hf|?]; [|done].
  destruct Hf. unfold of_family, is_v4.
  destruct (IsIPVersion_cases v Hv) as [-> | ->]; cbn in E |- *; by destruct (is_nil (To4 ip)).
Qed.

(** Two addresses of one family are merged only when the second is the next one. *)
Lemma merge_adjacent v stop x :
  ip16 stop → ip16 x → of_family v stop → of_family v x → ip_equal x (NextIP stop) = true →
  be x = be stop + 1.
Proof.
  intros Hs Hx Fs Fx Eq. destruct (decide (next_ok stop)) as [Hok|Hno].
  - destruct (NextIP_ok stop Hs Hok) as [En _]. rewrite En, nextIP_ip16 in Eq by done.
    rewrite ip_equal_ip16, bool_decide_eq_true in Eq by (done || apply ip16_ip_of). subst x.
    apply be_ip_of_small. pose proof (be_ip16 stop Hs). unfold next_ok, ip_width in Hok.
    destruct (is_v4 stop) eqn:Hv4.
    + destruct (ip16_v4_be stop Hs Hv4) as [E1 _]. unfold v4_base in E1. cbn in Hok. lia.
    + rewrite <- (ip16_v6_be stop) in Hok by done. change (256 ^ Z.of_nat 16) with (2 ^ 128) in Hok. lia.
  - destruct (NextIP_not_ok stop Hs Hno) as [En|(Hv6 & _ & En)]; rewrite En in Eq.
    + unfold ip_equal in Eq. by rewrite (proj2 Hx) in Eq.
    + rewrite ip_equal_ip16, bool_decide_eq_true in Eq by (done || apply ip16_mapped). subst x.
      unfold of_family in *. by rewrite is_v4_mapped, <- Fs, Hv6 in Fx.
Qed.

Definition fits (v : IPVersion) (x : IP) : Prop := ip16 x ∧ of_family v x.

(** The merging loop covers the addresses it is given, in order, with valid ranges. *)
Lemma merge_loop_spec v start stop k rest :
  IsIPVersion v = Ret () → fits v start → fits v stop → be stop = be start + Z.of_nat k →
  Forall (fits v) rest →
  let rs := merge_loop start stop k rest in
  ranges_ips rs = ips_from (be start) (Z.of_nat k + 1) ++ rest ∧
  Forall (λ r, IsIPRange v r = Ret () ∧ plain_range v r) rs.
Proof.
  intros Hv Hs Ht Hk Hrest. revert start stop k Hs Ht Hk.
  induction Hrest as [|x rest Hx Hrest IH]; intros start stop k Hs Ht Hk; cbn zeta in *; cbn [merge_loop];
    (destruct (print_range_valid v start stop (k =? 0)%nat Hv) as (V1 & V2 & V3);
      [destruct Hs, Ht; split_and!; try done; [lia|]; intros ->%Nat.eqb_eq; apply ip16_eq; [done..|lia]|]).
  - rewrite ranges_ips_cons, V3, Hk. split; [|by repeat constructor].
    by replace (be start + Z.of_nat k - be start + 1) with (Z.of_nat k + 1) by lia.
  - destruct (ip_equal x (NextIP stop)) eqn:Eq.
    + apply (merge_adjacent v) in Eq; [|apply Ht|apply Hx|apply Ht|apply Hx].
      destruct (IH start x (S k)) as [E1 E2]; [done..|lia|]. split; [|done]. rewrite E1.
      replace (Z.of_nat (S k) + 1) with (Z.of_nat k + 1 + 1) by lia.
      rewrite ips_from_snoc, <- app_assoc by lia. cbn [app].
      replace (be start + (Z.of_nat k + 1)) with (be x) by lia. by rewrite ip_of_be by apply Hx.
    + destruct (IH x x 0%nat) as [E1 E2]; [done..|lia|]. rewrite ranges_ips_cons, V3, E1.
      split; [|by constructor]. f_equal; [f_equal; lia|]. cbn [Z.of_nat Z.add].
      rewrite ips_from_cons, ips_from_nil, ip_of_be by (apply Hx || lia). done.
Qed.

Lemma merge_ranges_spec v ips :
  IsIPVersion v = Ret () → Forall (fits v) ips →
  ranges_ips (merge_ranges ips) = ips ∧
  Forall (λ r, IsIPRange v r = Ret () ∧ plain_range v r) (merge_ranges ips).
Proof.
  intros Hv [|x rest Hx Hrest]; [by split|]. cbn [merge_ranges].
  destruct (merge_loop_spec v x x 0 rest) as [E1 E2]; [done..|lia|done|]. rewrite E1.
  cbn [Z.of_nat Z.add]. rewrite ips_from_cons, ips_from_nil, ip_of_be by (apply Hx || lia). done.
Qed.

(** Sorted lists of addresses without repetition are determined by their elements. *)
Lemma sorted_ips_unique l1 l2 :
  Forall ip16 l1 → StronglySorted ip_le l1 → StronglySorted ip_le l2 → l1 ≡ₚ l2 → l1 = l2.
Proof.
  intros H16 S1 S2 Hp. apply (StronglySorted_unique_strong ip_le); [|done..].
  intros x y Hx Hy. rewrite Forall_forall in H16.
  assert (ip16 x) as Hx16 by auto. assert (ip16 y) as Hy16 by (apply H16; by rewrite Hp).
  rewrite !ip_le_be by done. intros. apply ip16_eq; [done..|lia].
Qed.

Section convert_facts.
Context `{MR : MapRange}.

Lemma ConvertIPsToIPRanges_spec v ips :
  IsIPVersion v = Ret () → Forall (λ ip, wf_ip ip ∧ of_family v ip) ips →
  ConvertIPsToIPRanges v ips = Ret (merge_ranges (IPsUnionSet ips [] true)) ∧
  Forall (fits v) (IPsUnionSet ips [] true).
Proof.
  intros Hv Hips. unfold ConvertIPsToIPRanges. rewrite Hv. cbn [mbind outcome_bind].
  rewrite convert_set_spec by done. cbn [mbind outcome_bind]. unfold IPsUnionSet at 1. rewrite app_nil_r.
  split; [done|]. destruct (IPsUnionSet_spec ips [] true) as (_ & _ & Hin); [|constructor|].
  { eapply Forall_impl; [exact Hips|]. intros ip [? _]. by right. }
  apply Forall_forall. intros x (ip & [Hip|Hip] & Hwf & ->)%Hin; [|by apply elem_of_nil in Hip].
  rewrite Forall_forall in Hips. destruct (Hips ip Hip) as [_ Hf]. split; [by apply ip16_To16|].
  unfold of_family. by rewrite is_v4_To16.
Qed.

(** The sorted set of addresses the conversion works on. *)
Lemma converted_set v ips :
  Forall (λ ip, wf_ip ip ∧ of_family v ip) ips →
  let l := IPsUnionSet ips [] true in
  NoDup l ∧ StronglySorted ip_le l ∧ ∀ x, x ∈ l ↔ x ∈ To16 <$> ips.
Proof.
  intros H l. destruct (IPsUnionSet_spec ips [] true) as (N & S & I); [|constructor|].
  { eapply Forall_impl; [exact H|]. intros ip [? _]. by right. }
  split_and!; [done|by apply S|]. intros x. fold l in I. rewrite I, list_elem_of_fmap.
  rewrite Forall_forall in H. split.
  - intros (ip & [?|Hn] & _ & ->); [eauto|by apply elem_of_nil in Hn].
  - intros (ip & -> & Hip). exists ip. split_and!; [by left|by apply H|done].
Qed.
End convert_facts.

Lemma merge_loop_ends v start stop k rest :
  fits v start → fits v stop → Forall (fits v) rest →
  Forall (λ r, ∃ s e b, r = print_range s e b ∧ s ∈ start :: rest ∧ e ∈ stop :: rest ∧ ip16 s ∧ ip16 e)
    (merge_loop start stop k rest).
Proof.
  intros Hs Ht Hrest. revert start stop k Hs Ht.
  induction Hrest as [|x rest Hx Hrest IH]; intros start stop k Hs Ht; cbn [merge_loop].
  - repeat constructor. exists start, stop, (k =? 0)%nat. split_and!; try done;
      [apply list_elem_of_here..|apply Hs|apply Ht].
  - case_match.
    + eapply Forall_impl; [apply (IH start x (S k) Hs Hx)|]. intros r (s & e & b & -> & Hin & Hin' & ? & ?).
      exists s, e, b. set_solver.
    + constructor.
      { exists start, stop, (k =? 0)%nat. split_and!; try done; [apply list_elem_of_here..|apply Hs|apply Ht]. }
      eapply Forall_impl; [apply (IH x x 0%nat Hx Hx)|]. intros r (s & e & b & -> & Hin & Hin' & ? & ?).
      exists s, e, b. set_solver.
Qed.

Lemma length_range_ips_le r rs : r ∈ rs → (length (range_ips r) ≤ length (ranges_ips rs))%nat.
Proof.
  induction rs as [|r' rs IH]; intros Hr; [by apply elem_of_nil in Hr|].
  rewrite ranges_ips_cons, length_app. apply elem_of_cons in Hr as [->|Hr]; [lia|]. specialize (IH Hr). lia.
Qed.

(** The ranges of a merged list can be enumerated again when every address has a successor of
    its family. *)
Lemma merge_ranges_good v ips :
  IsIPVersion v = Ret () → Forall (fits v) ips → Forall next_ok ips → Z.of_nat (length ips) * 24 ≤ 2 ^ 48 →
  Forall (good_range v) (merge_ranges ips).
Proof.
  intros Hv Hf Hn Hlen. destruct (merge_ranges_spec v ips Hv Hf) as [Eips Hval].
  assert (Forall (λ r, ∃ s e b, r = print_range s e b ∧ s ∈ ips ∧ e ∈ ips ∧ ip16 s ∧ ip16 e) (merge_ranges ips)) as Hends.
  { destruct Hf as [|x rest Hx Hrest]; [constructor|]. by apply (merge_loop_ends v). }
  rewrite Forall_forall in Hval. rewrite Forall_forall in Hends. rewrite Forall_forall in Hn.
  rewrite Forall_forall in Hf. apply Forall_forall. intros r Hr.
  destruct (Hval r Hr) as [V1 V2]. destruct (Hends r Hr) as (s & e & b & -> & Hs & He & Hs16 & He16).
  split_and!; [done..|]. unfold safe_range. rewrite print_range_ends by done. destruct b; [done|].
  destruct (Hf s Hs) as [_ Fs]. destruct (Hf e He) as [_ Fe].
  pose proof (Hn s Hs) as Ns. pose proof (Hn e He) as Ne.
  assert (ip_width s = ip_width e) as Ew by (apply ip_width_eq; unfold of_family in *; congruence).
  split; [unfold loop_ok, next_ok in *; rewrite Ew in *; lia|].
  destruct (plain_range_bounds v _ V1 V2) as (s' & e' & Eb & _).
  apply length_range_ips_le in Hr. rewrite Eips in Hr.
  pose proof (family_be v s e Fs Fe Hs16 He16) as Efb.
  assert (length (range_ips (print_range s e false)) = Z.to_nat (be e - be s + 1)) as El.
  { unfold range_ips. unfold range_bounds, print_range in Eb |- *.
    rewrite split_range in * by auto with addr. cbn in Eb |- *.
    rewrite !net_ParseIP_print in * by done. rewrite !ip16_not_nil in * by done. cbn in Eb |- *.
    destruct (bytes_compare s e); [by rewrite length_ips_from..|done]. }
  unfold cap_ok. lia.
Qed.

(** ** Properties *)

(** On a valid range of one family whose enumeration stays inside the address space,
    [ParseIPRange] ends and returns exactly the addresses from the first to the last one, in
    increasing order, each once. *)
Theorem ParseIPRange_exact v r :
  IsIPRange v r = Ret () → plain_range v r → safe_range r →
  ∃ s e ips, range_bounds r = Ret (Some (s, e)) ∧ ParseIPRange v r = Ret ips ∧
    NoDup ips ∧ ips = ip_of <$> seqZ (be s) (be e - be s + 1) ∧
    ∀ x, x ∈ ips ↔ ip16 x ∧ of_family v x ∧ be s ≤ be x ≤ be e.
Proof.
  intros Hr Hp Hs. destruct (plain_range_bounds v r Hr Hp) as (s & e & Eb & H1 & H2 & Hle & _ & _ & _).
  pose proof (be_ip16 s H1). pose proof (be_ip16 e H2).
  pose proof (range_ips_family v r (conj Hr (conj Hp Hs))) as Hfam.
  exists s, e, (range_ips r). split_and!; [done|by apply ParseIPRange_spec|..];
    unfold range_ips in *; rewrite Eb in *; [by apply NoDup_ips_from; lia|done|].
  intros x. split.
  - intros Hx. rewrite Forall_forall in Hfam. specialize (Hfam x Hx).
    apply elem_of_ips_from in Hx; [|lia..]. split_and!; [apply Hx|done|lia..].
  - intros (? & _ & ?). apply elem_of_ips_from; [lia..|]. split; [done|lia].
Qed.

Lemma ParseIPRange_exact_witness :
  ∃ s e ips, range_bounds "172.18.40.254-172.18.41.1" = Ret (Some (s, e)) ∧
    ParseIPRange IPv4 "172.18.40.254-172.18.41.1" = Ret ips ∧
    NoDup ips ∧ ips = ip_of <$> seqZ (be s) (be e - be s + 1) ∧
    ∀ x, x ∈ ips ↔ ip16 x ∧ of_family IPv4 x ∧ be s ≤ be x ≤ be e.
Proof.
  apply (ParseIPRange_exact IPv4); [vm_compute; reflexivity| |];
    apply (bool_decide_unpack _); vm_compute; exact I.
Defined.

(** When some number between the ends has no address of that length ([0.x.y.z], the address
    after [255.255.255.255], the IPv6 addresses below [100::]), [ParseIPRange] does not end: its
    loop is still running after any number of steps. *)
Theorem ParseIPRange_diverges v r a b :
  IsIPRange v r = Ret () → range_ends r = [a; b] → cap_ok a b →
  ¬ (∀ n, ipToInt a < n ≤ ipToInt b + 1 → address_int n) →
  ParseIPRange v r = OutOfFuel ∧ ∀ fuel, range_loop fuel a b = OutOfFuel.
Proof.
  intros Hr He Hcap Hn. unfold range_ends in He.
  destruct (IsIPRange_inv v r Hr) as (_ & [(x & Hx & _)|(x & y & Hxy & Hx & Hy & Hle)]).
  { rewrite Hx in He. done. }
  rewrite Hxy in He. cbn in He. injection He as <- <-.
  pose proof (ipToInt_nonneg _ (ip16_wf _ Hx)) as H0.
  assert (∀ fuel, range_loop fuel (net_ParseIP x) (net_ParseIP y) = OutOfFuel) as Hdiv.
  { intros fuel. apply range_loop_diverges; [by apply ip16_wf|lia|done]. }
  split; [|done]. unfold ParseIPRange. rewrite Hr, Hxy. cbn [mbind outcome_bind length Nat.eqb index lookup list_lookup].
  unfold cap_ok in Hcap. rewrite int64_small by lia. unfold make_cap.
  rewrite bool_decide_true by (split; lia). cbn [mbind outcome_bind]. apply Hdiv.
Qed.

Lemma ParseIPRange_diverges_witness :
  ParseIPRange IPv4 "255.255.255.250-255.255.255.255" = OutOfFuel ∧
  ∀ fuel, range_loop fuel (v4InV6Prefix ++ [255; 255; 255; 250]) (v4InV6Prefix ++ [255; 255; 255; 255]) = OutOfFuel.
Proof.
  apply (ParseIPRange_diverges IPv4 "255.255.255.250-255.255.255.255"); [vm_compute; reflexivity..| |].
  - by vm_compute.
  - intros H. specialize (H (2 ^ 32)). unfold address_int in H. vm_compute in H. intuition congruence.
Defined.

(** C36: [ConvertIPsToIPRanges] returns a canonical form: the ranges are valid, they cover the
    addresses it was given in increasing order without repetition, and the result depends on the
    set of addresses only, neither on their order or repetitions nor on the iteration order of
    the map it uses. *)
Theorem ConvertIPsToIPRanges_canonical (MR1 MR2 : MapRange) v ips1 ips2 :
  IsIPVersion v = Ret () →
  Forall (λ ip, wf_ip ip ∧ of_family v ip) ips1 → Forall (λ ip, wf_ip ip ∧ of_family v ip) ips2 →
  (∀ x, x ∈ To16 <$> ips1 ↔ x ∈ To16 <$> ips2) →
  ∃ rs, ConvertIPsToIPRanges (MR := MR1) v ips1 = Ret rs ∧ ConvertIPsToIPRanges (MR := MR2) v ips2 = Ret rs ∧
    Forall (λ r, IsIPRange v r = Ret ()) rs ∧
    StronglySorted ip_le (ranges_ips rs) ∧ NoDup (ranges_ips rs) ∧
    ∀ x, x ∈ ranges_ips rs ↔ x ∈ To16 <$> ips1.
Proof.
  intros Hv H1 H2 Hset.
  destruct (ConvertIPsToIPRanges_spec (MR := MR1) v ips1 Hv H1) as [E1 F1].
  destruct (ConvertIPsToIPRanges_spec (MR := MR2) v ips2 Hv H2) as [E2 F2].
  destruct (converted_set (MR := MR1) v ips1 H1) as (N1 & S1 & I1).
  destruct (converted_set (MR := MR2) v ips2 H2) as (N2 & S2 & I2).
  set (l1 := IPsUnionSet (MR := MR1) ips1 [] true) in *. set (l2 := IPsUnionSet (MR := MR2) ips2 [] true) in *.
  assert (l1 = l2) as El.
  { apply sorted_ips_unique; auto; [by eapply Forall_impl; [exact F1|]; intros ? []|].
    apply NoDup_Permutation; [done..|]. intros x. rewrite I1, I2. apply Hset. }
  exists (merge_ranges l1). destruct (merge_ranges_spec v l1 Hv F1) as [Er Hr]. rewrite Er.
  split_and!; [done|by rewrite El|by eapply Forall_impl; [exact Hr|]; intros ? []|done..].
Qed.

Lemma ConvertIPsToIPRanges_canonical_witness :
  ∃ rs, ConvertIPsToIPRanges (MR := ordered_range) IPv4 [[10; 0; 0; 2]; [10; 0; 0; 1]] = Ret rs ∧
    ConvertIPsToIPRanges (MR := ordered_range) IPv4 [[10; 0; 0; 1]; [10; 0; 0; 2]; [10; 0; 0; 1]] = Ret rs ∧
    Forall (λ r, IsIPRange IPv4 r = Ret ()) rs ∧
    StronglySorted ip_le (ranges_ips rs) ∧ NoDup (ranges_ips rs) ∧
    ∀ x, x ∈ ranges_ips rs ↔ x ∈ To16 <$> [[10; 0; 0; 2]; [10; 0; 0; 1]].
Proof.
  apply (ConvertIPsToIPRanges_canonical ordered_range ordered_range IPv4);
    [done|repeat constructor; by try left..|]. intros x. cbn [fmap list_fmap].
  rewrite !elem_of_cons, elem_of_nil. tauto.
Defined.

Lemma length_converted `{MR : MapRange} v ips :
  Forall (λ ip, wf_ip ip ∧ of_family v ip) ips → (length (IPsUnionSet ips [] true) ≤ length ips)%nat.
Proof.
  intros H. destruct (converted_set v ips H) as (N & _ & I).
  rewrite <- (length_fmap To16 ips). apply submseteq_length, NoDup_submseteq; [done|]. intros x. by rewrite I.
Qed.

Lemma next_ok_To16 ip : wf_ip ip → next_ok ip → next_ok (To16 ip).
Proof. intros Hwf. unfold next_ok, ip_width. by rewrite is_v4_To16, ipToInt_To16. Qed.

(** Addresses that [ConvertIPsToIPRanges] turns into ranges [ParseIPRanges] can read back. *)
Definition convertible (v : IPVersion) (ips : list IP) : Prop :=
  IsIPVersion v = Ret () ∧ Forall (λ ip, (wf_ip ip ∧ of_family v ip) ∧ next_ok ip) ips ∧
  Z.of_nat (length ips) * 24 ≤ 2 ^ 48.

Lemma convert_roundtrip `{MR : MapRange} v ips :
  convertible v ips →
  ∃ rs, ConvertIPsToIPRanges v ips = Ret rs ∧ Forall (good_range v) rs ∧
    ParseIPRanges v rs = Ret (ranges_ips rs) ∧
    NoDup (ranges_ips rs) ∧ StronglySorted ip_le (ranges_ips rs) ∧
    ∀ x, x ∈ ranges_ips rs ↔ x ∈ To16 <$> ips.
Proof.
  intros (Hv & Hips & Hlen). apply Forall_and in Hips as [Hips Hn].
  destruct (ConvertIPsToIPRanges_spec v ips Hv Hips) as [E F].
  destruct (converted_set v ips Hips) as (N & S & I). pose proof (length_converted v ips Hips) as Hl.
  set (l := IPsUnionSet ips [] true) in *. destruct (merge_ranges_spec v l Hv F) as [Er _].
  assert (Forall (good_range v) (merge_ranges l)) as Hg.
  { apply merge_ranges_good; [done..| |lia]. apply Forall_forall.
    intros x (ip & -> & Hip)%I%list_elem_of_fmap. rewrite Forall_forall in Hips. rewrite Forall_forall in Hn.
    apply next_ok_To16; [by apply Hips|by apply Hn]. }
  exists (merge_ranges l). rewrite ParseIPRanges_spec, Er by done. done.
Qed.

(** Reading back the ranges [ConvertIPsToIPRanges] prints gives the addresses it was given,
    sorted and without repetition. *)
Theorem ConvertIPsToIPRanges_roundtrip `{MR : MapRange} v ips :
  convertible v ips →
  ∃ rs l, ConvertIPsToIPRanges v ips = Ret rs ∧ ParseIPRanges v rs = Ret l ∧
    NoDup l ∧ StronglySorted ip_le l ∧ ∀ x, x ∈ l ↔ x ∈ To16 <$> ips.
Proof. intros H. destruct (convert_roundtrip v ips H) as (rs & E1 & _ & E2 & ?). eauto 8. Qed.

Lemma ConvertIPsToIPRanges_roundtrip_witness :
  ∃ rs l, ConvertIPsToIPRanges (MR := ordered_range) IPv6 [ip_of (2 ^ 127 + 1); ip_of (2 ^ 127)] = Ret rs ∧
    ParseIPRanges IPv6 rs = Ret l ∧
    NoDup l ∧ StronglySorted ip_le l ∧ ∀ x, x ∈ l ↔ x ∈ To16 <$> [ip_of (2 ^ 127 + 1); ip_of (2 ^ 127)].
Proof.
  apply (ConvertIPsToIPRanges_roundtrip (MR := ordered_range) IPv6). split_and!; [done| |done].
  repeat constructor; first [apply ip16_wf, ip16_ip_of|vm_compute; congruence|vm_compute; reflexivity].
Defined.

Lemma good_ranges_convertible v rs :
  IsIPVersion v = Ret () → Forall (good_range v) rs → Z.of_nat (length (ranges_ips rs)) * 24 ≤ 2 ^ 48 →
  Forall next_ok (ranges_ips rs) → convertible v (ranges_ips rs).
Proof.
  intros Hv Hg Hl Hn. split_and!; [done| |done]. apply Forall_and. split; [|done].
  apply Forall_and. split; [|by apply ranges_ips_family].
  eapply Forall_impl; [apply ranges_ips_ip16|]. intros. by apply ip16_wf.
Qed.

#[export] Hint Resolve good_ranges_convertible : addr.

(** C39: [MergeIPRanges] keeps the set of addresses and removes every overlap, on ranges that are valid
    in the version, in plain text and such that their enumeration ends ([good_range], with
    [safe_range]; for a range up to the last address of the family it does not, see
    [ParseIPRange_diverges]), which stand for no more than 2^48 / 24 addresses, each with a successor
    of the length of its family ([next_ok]).  It returns ranges that stand for the same addresses,
    each exactly once, in increasing order. *)
Theorem MergeIPRanges_same_addresses `{MR : MapRange} v rs :
  IsIPVersion v = Ret () → Forall (good_range v) rs →
  Z.of_nat (length (ranges_ips rs)) * 24 ≤ 2 ^ 48 → Forall next_ok (ranges_ips rs) →
  ∃ rs', MergeIPRanges v rs = Ret rs' ∧ Forall (good_range v) rs' ∧
    NoDup (ranges_ips rs') ∧ StronglySorted ip_le (ranges_ips rs') ∧
    ∀ x, x ∈ ranges_ips rs' ↔ x ∈ ranges_ips rs.
Proof.
  intros Hv Hg Hl Hn. unfold MergeIPRanges. rewrite ParseIPRanges_spec by done. cbn [mbind outcome_bind].
  destruct (convert_roundtrip v _ (good_ranges_convertible v rs Hv Hg Hl Hn)) as (rs' & E & G & _ & N & S & I).
  exists rs'. split_and!; [done..|]. intros x. rewrite I. by rewrite map_To16_ip16 by apply ranges_ips_ip16.
Qed.

Lemma MergeIPRanges_same_addresses_witness :
  ∃ rs', MergeIPRanges (MR := ordered_range) IPv4 ["172.18.40.1-172.18.40.3"; "172.18.40.2-172.18.40.5"] = Ret rs' ∧
    Forall (good_range IPv4) rs' ∧ NoDup (ranges_ips rs') ∧ StronglySorted ip_le (ranges_ips rs') ∧
    ∀ x, x ∈ ranges_ips rs' ↔ x ∈ ranges_ips ["172.18.40.1-172.18.40.3"; "172.18.40.2-172.18.40.5"].
Proof.
  apply (MergeIPRanges_same_addresses (MR := ordered_range) IPv4); [done| |by vm_compute|];
    apply (bool_decide_unpack _); vm_compute; exact I.
Defined.

Lemma ip16_or_nil l : Forall ip16 l → Forall ip_or_nil l.
Proof. intros H. eapply Forall_impl; [exact H|]. intros. right. by apply ip16_wf. Qed.

Lemma ips_minus_ip16 l1 l2 : Forall ip16 l1 → Forall ip16 l2 → ips_minus l1 l2 = filter (.∉ l2) l1.
Proof.
  intros H1 H2. unfold ips_minus. rewrite map_To16_ip16 by done.
  apply filter_agree. eapply Forall_impl; [exact H1|]. intros x Hx. cbn.
  rewrite ip16_not_nil, To16_ip16 by done. tauto.
Qed.

Lemma IPsDiffSet_ip16 l1 l2 :
  Forall ip16 l1 → Forall ip16 l2 → IPsDiffSet l1 l2 false = Ret (filter (.∉ l2) l1).
Proof.
  intros H1 H2. unfold IPsDiffSet. rewrite getIPDiffSet_spec by auto using ip16_or_nil. cbn. by rewrite ips_minus_ip16.
Qed.

(** The sorted difference, and whether there is one. *)
Lemma IPsDiffSet_sorted l1 l2 :
  Forall ip16 l1 → Forall ip16 l2 → ∃ l, IPsDiffSet l1 l2 true = Ret l ∧ l ≡ₚ filter (.∉ l2) l1.
Proof.
  intros H1 H2. destruct (IPsDiffSet_difference l1 l2 true) as (l & E & P & _); [by apply ip16_or_nil..|].
  exists l. by rewrite <- ips_minus_ip16.
Qed.
Lemma IsDiffIPSet_ip16 l1 l2 :
  Forall ip16 l1 → Forall ip16 l2 → IsDiffIPSet l1 l2 = Ret (bool_decide (filter (.∉ l2) l1 ≠ [])).
Proof.
  intros H1 H2. destruct (IPsDiffSet_difference l1 l2 true) as (l & _ & _ & _ & E); [by apply ip16_or_nil..|].
  by rewrite <- ips_minus_ip16.
Qed.

Lemma filter_length_lt (l1 l2 : list IP) :
  (length (filter (.∉ l2) l1) < length l1)%nat ↔ ∃ x, x ∈ l1 ∧ x ∈ l2.
Proof.
  induction l1 as [|a l1 IH]; cbn [length]; [split; [cbn; lia|set_solver]|].
  rewrite filter_cons. case_decide as Ha; cbn [length].
  - rewrite <- Nat.succ_lt_mono, IH. set_solver.
  - pose proof (length_filter (.∉ l2) l1). split; [|lia]. intros _. exists a. split; [set_solver|].
    destruct (decide (a ∈ l2)); [done|]. done.
Qed.

(** [IsIPRangeOverlap] on two enumerable ranges of a family reports an overlap exactly when
    the ranges have an address in common. *)
Theorem IsIPRangeOverlap_iff v r1 r2 :
  good_range v r1 → good_range v r2 →
  ∃ b, IsIPRangeOverlap v r1 r2 = Ret b ∧ (b = true ↔ ∃ x, x ∈ range_ips r1 ∧ x ∈ range_ips r2).
Proof.
  intros (V1 & P1 & S1) (V2 & P2 & S2). unfold IsIPRangeOverlap.
  destruct (IsIPRange_inv v r1 V1) as [Hv _]. rewrite Hv, V1, V2. cbn [mbind outcome_bind].
  rewrite !ParseIPRange_spec by done. cbn [ignore_err mbind outcome_bind].
  rewrite IPsDiffSet_ip16 by apply range_ips_ip16. cbn [mbind outcome_bind].
  eexists. split; [done|]. rewrite Nat.ltb_lt. apply filter_length_lt.
Qed.

Lemma IsIPRangeOverlap_iff_witness :
  ∃ b, IsIPRangeOverlap IPv4 "172.18.40.1-172.18.40.2" "172.18.40.2-172.18.40.3" = Ret b ∧
    (b = true ↔ ∃ x, x ∈ range_ips "172.18.40.1-172.18.40.2" ∧ x ∈ range_ips "172.18.40.2-172.18.40.3").
Proof.
  apply (IsIPRangeOverlap_iff IPv4); apply (bool_decide_unpack _); vm_compute; exact I.
Defined.

Lemma AssembleTotalIPs_spec v rs ex :
  Forall (good_range v) rs → Forall (good_range v) ex →
  AssembleTotalIPs v rs ex = Ret (filter (.∉ ranges_ips ex) (ranges_ips rs)).
Proof.
  intros Hr He. unfold AssembleTotalIPs. rewrite !ParseIPRanges_spec by done. cbn [mbind outcome_bind].
  apply IPsDiffSet_ip16; apply ranges_ips_ip16.
Qed.

(** [IPRangeContainsIP] decides membership for the two-address form; for a single address it
    compares the texts. *)
Lemma IPRangeContainsIP_spec v r ip :
  IsIPRange v r = Ret () → plain_range v r → IsIP v ip = Ret () → of_family v (net_ParseIP ip) →
  length (split "-" r) = 2%nat →
  IPRangeContainsIP v r ip = Ret (bool_decide (net_ParseIP ip ∈ range_ips r)).
Proof.
  intros Hr Hp Hi Fi Hl. unfold IPRangeContainsIP. rewrite Hr, Hi. cbn [mbind outcome_bind].
  unfold plain_range, range_ends in Hp.
  destruct (IsIPRange_inv v r Hr) as (Hv & [(a & Ha & _)|(a & b & Hab & Ha & Hb & Hle)]).
  { by rewrite Ha in Hl. }
  rewrite Hab in Hp |- *. cbn [fmap list_fmap] in Hp. rewrite !Forall_cons in Hp. destruct Hp as (Fa & Fb & _).
  assert (ip16 (net_ParseIP ip)) as Hip.
  { unfold IsIP in Hi. rewrite Hv in Hi. destruct (IsIPVersion_cases v Hv) as [-> | ->]; cbn in Hi.
    - destruct (IsIPv4 ip) eqn:E; [by apply IsIPv4_ip16|done].
    - destruct (IsIPv6 ip) eqn:E; [by apply IsIPv6_ip16|done]. }
  pose proof (family_be v _ _ Fa Fb Ha Hb). pose proof (family_be v _ _ Fa Fi Ha Hip).
  pose proof (be_ip16 _ Ha). pose proof (be_ip16 _ Hb). rewrite is_gt_Cmp, is_lt_Cmp.
  unfold range_ips. rewrite (range_bounds_two r a b) by (done || lia).
  assert (net_ParseIP ip ∈ ips_from (be (net_ParseIP a)) (be (net_ParseIP b) - be (net_ParseIP a) + 1) ↔
    ipToInt (net_ParseIP a) ≤ ipToInt (net_ParseIP ip) ≤ ipToInt (net_ParseIP b)) as Hin.
  { rewrite elem_of_ips_from by lia. split; [intros [_ ?]; lia|intros ?; split; [done|lia]]. }
  rewrite (bool_decide_ext _ _ Hin). case_bool_decide;
    destruct (Z.ltb_spec (ipToInt (net_ParseIP ip)) (ipToInt (net_ParseIP a)));
    destruct (Z.ltb_spec (ipToInt (net_ParseIP b)) (ipToInt (net_ParseIP ip))); done || lia.
Qed.
