(* ===== verification/SubnetCIDR.v ===== *)
(** * pkg/ip/subnet.go: a subnet with its available ranges

    [NewCIDR] parses a base subnet, its included and its excluded ranges into a list of integer
    intervals; [TotalIP] counts them and [IsOverlapIPRanges] intersects them with others. *)

From S2P Require Import Prelude NetIP NetIPFacts IPAddr Cidr IPRange.
Local Open Scope Z_scope.

(** ** Data and operations *)

Record Range := MkRange { Raw : string; Start : Z; End : Z }.
#[export] Instance Range_eq_dec : EqDecision Range.
Proof. solve_decision. Defined.

(** [usedMap] is [None] while the map is nil. *)
Record CIDR := MkCIDR {
  base : IPNet;
  isIPv4 : bool;
  ranges : list Range;
  usedMap : option (gset string)
}.

Definition convertIPtoBigInt (c : CIDR) (value : string) : outcome Z :=
  let ip := net_ParseIP value in
  if is_nil ip then Fail (ErrOther "invalid IP address")
  else if negb (net_contains (base c) ip) then Fail (ErrOther "not match base subnet")
  else if isIPv4 c then
    let ipv4 := To4 ip in
    if is_nil ipv4 then Fail (ErrOther "not match base subnet IPv4 version") else Ret (be ipv4)
  else
    let ipv6 := To16 ip in
    if is_nil ipv6 then Fail (ErrOther "not match base subnet IPv6 version") else Ret (be ipv6).

Definition parse (c : CIDR) (value : string) : outcome (Z * Z) :=
  let parts := split "-" value in
  if (2 <? length parts)%nat then Fail (ErrOther "invalid range")
  else if (length parts =? 1)%nat then
    if contains_char "/" value then Fail (ErrOther "invalid range")
    else res ← convertIPtoBigInt c value; Ret (res, res)
  else
    p0 ← index parts 0;
    start ← convertIPtoBigInt c p0;
    p1 ← index parts 1;
    stop ← convertIPtoBigInt c p1;
    Ret (start, stop).

(** The checks of the loop of [addIncludeRange] against one existing range. *)
Definition include_conflict (a b : Range) : outcome unit :=
  if (Start b <=? Start a) && (End a <=? End b) then Fail (ErrOther "range is already covered")
  else if (Start a <=? Start b) && (End b <=? End a) then Fail (ErrOther "range covers")
  else if (Start b <=? Start a) && (Start a <=? End b) then Fail (ErrOther "range overlaps")
  else if (Start b <=? End a) && (End a <=? End b) then Fail (ErrOther "range overlaps")
  else Ret ().

(** [start] and [stop] are pointers, [None] being nil. *)
Definition addIncludeRange (c : CIDR) (raw : string) (start stop : option Z) : outcome CIDR :=
  match start, stop with
  | Some start, Some stop =>
      let '(start, stop) := if stop <? start then (stop, start) else (start, stop) in
      let a := MkRange raw start stop in
      _ ← for_each (include_conflict a) (ranges c);
      Ret (MkCIDR (base c) (isIPv4 c) (ranges c ++ [a]) (usedMap c))
  | _, _ => Fail (ErrOther "nil range")
  end.

(** The function literal [f] of [removeExcludeIPRange]. *)
Fixpoint remove_range (base : list Range) (toBeRemoved : Range) : list Range :=
  let x := Start toBeRemoved in
  let y := End toBeRemoved in
  match base with
  | [] => []
  | e :: base =>
      let a := Start e in
      let b := End e in
      (if (y <? a) || (b <? x) then [e]
       else (if a <? x then [MkRange (Raw e) a (x - 1)] else []) ++
            (if y <? b then [MkRange (Raw e) (y + 1) b] else [])) ++
      remove_range base toBeRemoved
  end.

Definition removeExcludeIPRange (base exclude : list Range) : list Range :=
  foldl remove_range base exclude.

Fixpoint add_includes (c : CIDR) (rs : list string) : outcome CIDR :=
  match rs with
  | [] => Ret c
  | item :: rs =>
      '(s, e) ← parse c item;
      c ← addIncludeRange c item (Some s) (Some e);
      add_includes c rs
  end.

Fixpoint parse_excludes (c : CIDR) (ex : list string) : outcome (list Range) :=
  match ex with
  | [] => Ret []
  | item :: ex =>
      '(s, e) ← parse c item;
      rs ← parse_excludes c ex;
      Ret (MkRange item s e :: rs)
  end.

Definition NewCIDR (base : string) (rs exclude : list string) : outcome CIDR :=
  match net_ParseCIDR base with
  | None => Fail (ErrOther "net.ParseCIDR")
  | Some (_, ipNet) =>
      let subnet := MkCIDR ipNet (negb (is_nil (To4 (net_ip ipNet)))) [] None in
      subnet ← add_includes subnet rs;
      excludeRanges ← parse_excludes subnet exclude;
      Ret (MkCIDR ipNet (isIPv4 subnet) (removeExcludeIPRange (ranges subnet) excludeRanges) (usedMap subnet))
  end.

(** [c.usedMap[value] = struct{}{}] panics while the map is nil. *)
Fixpoint AddUsedIP (c : CIDR) (l : list string) : outcome CIDR :=
  match l with
  | [] => Ret c
  | value :: l =>
      m ← deref (usedMap c);
      AddUsedIP (MkCIDR (base c) (isIPv4 c) (ranges c) (Some ({[value]} ∪ m))) l
  end.

Definition TotalUsedIPInt (c : CIDR) : Z :=
  match usedMap c with Some m => Z.of_nat (size m) | None => 0 end.

Definition TotalIP (c : CIDR) : Z :=
  foldl (λ total r, total + 1 + (End r - Start r)) 0 (ranges c).

Definition MaxInt64 : Z := 2 ^ 63 - 1.

Definition TotalIPInt (c : CIDR) : Z :=
  let totalInt64 := int64 (TotalIP c) in
  if MaxInt64 <? TotalIP c then MaxInt64 else totalInt64.

Definition IPRange (c : CIDR) : list Range := ranges c.

Definition ranges_cross (x y : Range) : bool :=
  ((Start y <=? Start x) && (Start x <=? End y)) ||
  ((Start y <=? End x) && (End x <=? End y)) ||
  ((Start x <=? Start y) && (Start y <=? End x)) ||
  ((Start x <=? End y) && (End y <=? End x)).

Definition IsOverlapIPRanges (c : CIDR) (r : list Range) : list string * bool :=
  let overlaps := concat ((λ x, Raw <$> filter (λ y, ranges_cross x y = true) r) <$> ranges c) in
  (overlaps, (0 <? length overlaps)%nat).

(** ** Intervals *)

Definition in_range (r : Range) (n : Z) : Prop := Start r ≤ n ≤ End r.
Definition in_ranges (rs : list Range) (n : Z) : Prop := ∃ r, r ∈ rs ∧ in_range r n.
Definition ordered (r : Range) : Prop := Start r ≤ End r.
Definition disjoint_ranges (a b : Range) : Prop := End a < Start b ∨ End b < Start a.

(** The invariant of [ranges]: ordered, pairwise disjoint intervals. *)
Record wf_ranges (rs : list Range) : Prop := {
  wf_ordered : Forall ordered rs;
  wf_disjoint : ForallOrdPairs disjoint_ranges rs
}.

Lemma in_ranges_nil n : ¬ in_ranges [] n.
Proof. intros (r & Hr & _). by apply elem_of_nil in Hr. Qed.

Lemma in_ranges_cons r rs n : in_ranges (r :: rs) n ↔ in_range r n ∨ in_ranges rs n.
Proof. unfold in_ranges. set_solver. Qed.

Lemma in_ranges_app rs1 rs2 n : in_ranges (rs1 ++ rs2) n ↔ in_ranges rs1 n ∨ in_ranges rs2 n.
Proof. unfold in_ranges. set_solver. Qed.

Lemma in_ranges_single r n : in_ranges [r] n ↔ in_range r n.
Proof. unfold in_ranges. set_solver. Qed.

Lemma disjoint_ranges_spec a b :
  ordered a → ordered b → disjoint_ranges a b ↔ ∀ n, in_range a n → in_range b n → False.
Proof.
  unfold ordered, disjoint_ranges, in_range. intros Ha Hb. split; [lia|]. intros H.
  destruct (decide (Start a ≤ Start b)); [specialize (H (Start b))|specialize (H (Start a))]; lia.
Qed.

Lemma ForallOrdPairs_app {A} (R : A → A → Prop) l1 l2 :
  ForallOrdPairs R l1 → ForallOrdPairs R l2 → (∀ x y, x ∈ l1 → y ∈ l2 → R x y) →
  ForallOrdPairs R (l1 ++ l2).
Proof.
  induction 1 as [|x l1 Hx Hl IH]; intros H2 Hxy; [done|]. cbn. constructor.
  - apply Forall_app. split; [done|]. apply Forall_forall. set_solver.
  - apply IH; [done|]. set_solver.
Qed.

(** Removing an interval. *)
Definition pieces (t e : Range) : list Range :=
  if (End t <? Start e) || (End e <? Start t) then [e]
  else (if Start e <? Start t then [MkRange (Raw e) (Start e) (Start t - 1)] else []) ++
       (if End t <? End e then [MkRange (Raw e) (End t + 1) (End e)] else []).

Lemma remove_range_cons t e l : remove_range (e :: l) t = pieces t e ++ remove_range l t.
Proof. done. Qed.

Lemma pieces_spec t e : ordered t → ordered e →
  wf_ranges (pieces t e) ∧ ∀ n, in_ranges (pieces t e) n ↔ in_range e n ∧ ¬ in_range t n.
Proof.
  unfold ordered. intros Ht He. unfold pieces.
  destruct (Z.ltb_spec (End t) (Start e)), (Z.ltb_spec (End e) (Start t)),
    (Z.ltb_spec (Start e) (Start t)), (Z.ltb_spec (End t) (End e)); cbn; try lia;
    (split; [split; repeat constructor; unfold ordered, disjoint_ranges; cbn; lia|]);
    intros n; rewrite ?in_ranges_cons; unfold in_range; cbn; pose proof (in_ranges_nil n); lia || intuition lia.
Qed.

Lemma remove_range_spec t rs : ordered t → wf_ranges rs →
  wf_ranges (remove_range rs t) ∧ ∀ n, in_ranges (remove_range rs t) n ↔ in_ranges rs n ∧ ¬ in_range t n.
Proof.
  intros Ht [Ho Hd]. induction rs as [|e rs IH].
  { split; [split; constructor|]. intros n. pose proof (in_ranges_nil n). tauto. }
  apply Forall_cons in Ho as [He Ho]. inversion Hd as [|? ? Hed Hd']; subst.
  destruct IH as [[IH1 IH2] IH3]; [done..|]. destruct (pieces_spec t e Ht He) as [[P1 P2] P3].
  rewrite remove_range_cons. split.
  - split; [by apply Forall_app|]. apply ForallOrdPairs_app; [done..|]. intros x y Hx Hy.
    rewrite Forall_forall in P1. rewrite Forall_forall in IH1. apply disjoint_ranges_spec; [auto..|].
    intros n Hnx Hny. assert (in_range e n) as Hne by (apply (P3 n); exists x; done).
    assert (in_ranges rs n) as (z & Hz & Hnz) by (apply (IH3 n); exists y; done).
    rewrite Forall_forall in Hed. rewrite Forall_forall in Ho. specialize (Hed z Hz). specialize (Ho z Hz).
    unfold disjoint_ranges, in_range in *. lia.
  - intros n. rewrite in_ranges_app, in_ranges_cons, P3, IH3. tauto.
Qed.

Lemma removeExcludeIPRange_spec rs ex : Forall ordered ex → wf_ranges rs →
  wf_ranges (removeExcludeIPRange rs ex) ∧
  ∀ n, in_ranges (removeExcludeIPRange rs ex) n ↔ in_ranges rs n ∧ ¬ in_ranges ex n.
Proof.
  unfold removeExcludeIPRange. intros Hex. revert rs.
  induction Hex as [|t ex Ht Hex IH]; intros rs Hrs; cbn [foldl].
  - split; [done|]. intros n. pose proof (in_ranges_nil n). tauto.
  - destruct (remove_range_spec t rs Ht Hrs) as [H1 H2]. destruct (IH _ H1) as [H3 H4].
    split; [done|]. intros n. rewrite H4, H2, in_ranges_cons. tauto.
Qed.

(** The members do not need the excluded ranges in order: a reversed one excludes nothing. *)
Lemma pieces_members t e : ordered e →
  Forall ordered (pieces t e) ∧ ∀ n, in_ranges (pieces t e) n ↔ in_range e n ∧ ¬ in_range t n.
Proof.
  unfold ordered. intros He. unfold pieces.
  destruct (Z.ltb_spec (End t) (Start e)), (Z.ltb_spec (End e) (Start t)),
    (Z.ltb_spec (Start e) (Start t)), (Z.ltb_spec (End t) (End e)); cbn; try lia;
    (split; [repeat constructor; unfold ordered; cbn; lia|]);
    intros n; rewrite ?in_ranges_cons; unfold in_range; cbn; pose proof (in_ranges_nil n); lia || intuition lia.
Qed.

Lemma removeExcludeIPRange_members rs ex : Forall ordered rs →
  Forall ordered (removeExcludeIPRange rs ex) ∧
  ∀ n, in_ranges (removeExcludeIPRange rs ex) n ↔ in_ranges rs n ∧ ¬ in_ranges ex n.
Proof.
  unfold removeExcludeIPRange. revert rs. induction ex as [|t ex IH]; intros rs Hrs; cbn [foldl].
  { split; [done|]. intros n. pose proof (in_ranges_nil n). tauto. }
  assert (Forall ordered (remove_range rs t) ∧
    ∀ n, in_ranges (remove_range rs t) n ↔ in_ranges rs n ∧ ¬ in_range t n) as [H1 H2].
  { clear IH. induction Hrs as [|e rs He Hrs [I1 I2]].
    - split; [constructor|]. intros n. pose proof (in_ranges_nil n). tauto.
    - destruct (pieces_members t e He) as [P1 P2]. rewrite remove_range_cons. split; [by apply Forall_app|].
      intros n. rewrite in_ranges_app, in_ranges_cons, P2, I2. tauto. }
  destruct (IH _ H1) as [H3 H4]. split; [done|]. intros n. rewrite H4, H2, in_ranges_cons. tauto.
Qed.

(** ** Construction *)

Lemma include_conflict_Ret a b :
  ordered a → ordered b → include_conflict a b = Ret () ↔ disjoint_ranges a b.
Proof.
  unfold include_conflict, ordered, disjoint_ranges. intros Ha Hb.
  destruct (Z.leb_spec (Start b) (Start a)), (Z.leb_spec (End a) (End b)),
    (Z.leb_spec (Start a) (Start b)), (Z.leb_spec (End b) (End a)),
    (Z.leb_spec (Start a) (End b)), (Z.leb_spec (Start b) (End a)); cbn;
    split; try done; lia.
Qed.

(** One included range: accepted exactly when it is disjoint from the others, and then added
    with its ends in order. *)
Lemma addIncludeRange_spec c raw s e :
  wf_ranges (ranges c) →
  let a := MkRange raw (Z.min s e) (Z.max s e) in
  (Forall (disjoint_ranges a) (ranges c) ∧ wf_ranges (ranges c ++ [a]) ∧
   addIncludeRange c raw (Some s) (Some e) = Ret (MkCIDR (base c) (isIPv4 c) (ranges c ++ [a]) (usedMap c))) ∨
  (¬ Forall (disjoint_ranges a) (ranges c) ∧ ∃ err, addIncludeRange c raw (Some s) (Some e) = Fail err).
Proof.
  intros [Ho Hd] a. unfold addIncludeRange.
  replace (if e <? s then (e, s) else (s, e)) with (Z.min s e, Z.max s e)
    by (destruct (Z.ltb_spec e s); f_equal; lia).
  fold a. assert (ordered a) as Ha by (unfold ordered, a; cbn; lia).
  assert (for_each (include_conflict a) (ranges c) = Ret () ↔ Forall (disjoint_ranges a) (ranges c)) as Hc.
  { rewrite for_each_Ret, !Forall_forall. rewrite Forall_forall in Ho.
    split; intros H x Hx; apply include_conflict_Ret; auto. }
  destruct (decide (for_each (include_conflict a) (ranges c) = Ret ())) as [E|E].
  - left. rewrite E. apply Hc in E. split_and!; [done| |done]. split.
    + apply Forall_app. by repeat constructor.
    + apply ForallOrdPairs_app; [done|repeat constructor|]. intros x y Hx ->%list_elem_of_singleton.
      rewrite Forall_forall in E. specialize (E x Hx). unfold disjoint_ranges in *. lia.
  - right. split; [by rewrite <- Hc|]. clear Hc.
    destruct (for_each_total (include_conflict a) (ranges c)) as [?|[err ->]]; [|done|by exists err].
    intros x. unfold include_conflict. repeat case_match; eauto.
Qed.

Lemma add_includes_wf c rs c' :
  wf_ranges (ranges c) → add_includes c rs = Ret c' →
  wf_ranges (ranges c') ∧ base c' = base c ∧ isIPv4 c' = isIPv4 c ∧ usedMap c' = usedMap c.
Proof.
  revert c. induction rs as [|item rs IH]; intros c Hwf; cbn [add_includes]; [by intros [= <-]|].
  intros ([s e] & _ & (c1 & H1 & H2)%bind_Ret)%bind_Ret.
  destruct (addIncludeRange_spec c item s e Hwf) as [(_ & Hwf1 & E)|(_ & err & E)]; rewrite E in H1; [|done].
  injection H1 as <-. apply IH in H2; [|done]. cbn in H2. done.
Qed.

(** A number parsed under [c] is that of an address of the base subnet. *)
Definition base_number (c : CIDR) (n : Z) : Prop :=
  ∃ ip, ip16 ip ∧ net_contains (base c) ip = true ∧
    n = (if isIPv4 c then be (To4 ip) else be (To16 ip)).

Lemma convertIPtoBigInt_base c value n : convertIPtoBigInt c value = Ret n → base_number c n.
Proof.
  unfold convertIPtoBigInt. destruct (net_ParseIP_nil_or value) as [->|Hip]; [done|].
  rewrite ip16_not_nil by done. destruct (net_contains (base c) (net_ParseIP value)) eqn:Hc; [|done].
  intros H. exists (net_ParseIP value). split_and!; [done..|].
  cbn [negb] in H. destruct (isIPv4 c); case_match; congruence.
Qed.

Lemma parse_base c value s e : parse c value = Ret (s, e) → base_number c s ∧ base_number c e.
Proof.
  unfold parse. case_match; [done|]. case_match; [case_match; [done|]|]; intros Hp; inv_ret;
    eauto using convertIPtoBigInt_base.
Qed.

Lemma parse_ext c c' value : base c = base c' → isIPv4 c = isIPv4 c' → parse c value = parse c' value.
Proof. intros E1 E2. unfold parse, convertIPtoBigInt. by rewrite E1, E2. Qed.

(** The numbers the items of a list stand for, with the ends in either order or as written. *)
Definition included (c : CIDR) (rs : list string) (n : Z) : Prop :=
  ∃ item s e, item ∈ rs ∧ parse c item = Ret (s, e) ∧ Z.min s e ≤ n ≤ Z.max s e.
Definition excluded (c : CIDR) (ex : list string) (n : Z) : Prop :=
  ∃ item s e, item ∈ ex ∧ parse c item = Ret (s, e) ∧ s ≤ n ≤ e.

Lemma add_includes_members c rs c' :
  wf_ranges (ranges c) → add_includes c rs = Ret c' →
  ∀ n, in_ranges (ranges c') n ↔ in_ranges (ranges c) n ∨ included c rs n.
Proof.
  revert c. induction rs as [|item rs IH]; intros c Hwf; cbn [add_includes].
  { intros [= <-] n. unfold included. set_solver. }
  intros ([s e] & Hp & (c1 & H1 & H2)%bind_Ret)%bind_Ret n.
  destruct (addIncludeRange_spec c item s e Hwf) as [(_ & Hwf1 & E)|(_ & err & E)]; rewrite E in H1; [|done].
  injection H1 as <-. rewrite (λ H, IH _ H H2 n) by exact Hwf1. cbn [ranges]. rewrite in_ranges_app, in_ranges_single.
  assert (∀ v, parse (MkCIDR (base c) (isIPv4 c) (ranges c ++ [MkRange item (Z.min s e) (Z.max s e)]) (usedMap c)) v
    = parse c v) as Hext by (intros v; by apply parse_ext).
  unfold included, in_range. setoid_rewrite Hext. setoid_rewrite elem_of_cons. cbn [Start End]. split.
  - intros [[?|?]|(i & s' & e' & ? & ? & ?)]; [by left|right; exists item, s, e; auto|right; exists i, s', e'; auto].
  - intros [?|(i & s' & e' & [->|?] & Hi & ?)]; [by left; left| |right; exists i, s', e'; auto].
    left. right. rewrite Hi in Hp. by injection Hp as -> ->.
Qed.

Lemma parse_excludes_members c ex l :
  parse_excludes c ex = Ret l →
  (∀ n, in_ranges l n ↔ excluded c ex n) ∧
  (Forall (λ item, ∀ s e, parse c item = Ret (s, e) → s ≤ e) ex → Forall ordered l).
Proof.
  revert l. induction ex as [|item ex IH]; intros l; cbn [parse_excludes].
  { intros [= <-]. split; [|by constructor]. intros n. unfold excluded, in_ranges. set_solver. }
  intros ([s e] & Hp & (l' & H1 & [= <-])%bind_Ret)%bind_Ret. destruct (IH l' H1) as [IH1 IH2]. split.
  - intros n. rewrite in_ranges_cons, IH1. unfold in_range, excluded. cbn [Start End]. split.
    + intros [?|(i & s' & e' & ? & ? & ?)]; [exists item, s, e|exists i, s', e']; set_solver.
    + intros (i & s' & e' & Hi & Hpi & ?). apply elem_of_cons in Hi as [->|Hi]; [|by right; exists i, s', e'].
      left. rewrite Hpi in Hp. by injection Hp as -> ->.
  - intros [Hi Hex]%Forall_cons. constructor; [|by apply IH2]. by apply Hi.
Qed.

Lemma foldl_add_shift rs z :
  foldl (λ total r, total + 1 + (End r - Start r)) z rs =
  z + foldl (λ total r, total + 1 + (End r - Start r)) 0 rs.
Proof.
  revert z. induction rs as [|r rs IH]; intros z; cbn [foldl]; [lia|].
  rewrite IH, (IH (0 + 1 + _)). lia.
Qed.

(** [TotalIP] is the number of integers in the ranges. *)
Lemma TotalIP_count c : wf_ranges (ranges c) →
  ∃ l, NoDup l ∧ (∀ n, n ∈ l ↔ in_ranges (ranges c) n) ∧ TotalIP c = Z.of_nat (length l).
Proof.
  unfold TotalIP. generalize (ranges c). intros rs [Ho Hd].
  exists (concat ((λ r, seqZ (Start r) (End r - Start r + 1)) <$> rs)).
  induction rs as [|r rs IH]; cbn [fmap list_fmap concat foldl].
  { split_and!; [constructor| |done]. intros n. unfold in_ranges. set_solver. }
  apply Forall_cons in Ho as [Hr Ho]. inversion Hd as [|? ? Hrd Hd']; subst.
  destruct (IH Ho Hd') as (IH1 & IH2 & IH3). split_and!.
  - apply NoDup_app. split_and!; [apply NoDup_seqZ| |done]. intros n Hn%elem_of_seqZ (x & Hx & Hnx)%IH2.
    rewrite Forall_forall in Hrd. specialize (Hrd x Hx). unfold disjoint_ranges, in_range in *. lia.
  - intros n. rewrite elem_of_app, elem_of_seqZ, IH2, in_ranges_cons. unfold in_range. intuition lia.
  - rewrite foldl_add_shift, IH3, length_app, length_seqZ. unfold ordered in Hr. lia.
Qed.

Lemma NewCIDR_inv b rs ex c :
  NewCIDR b rs ex = Ret c →
  ∃ ip net c1 l, net_ParseCIDR b = Some (ip, net) ∧
    (let c0 := MkCIDR net (is_v4 (net_ip net)) [] None in
     add_includes c0 rs = Ret c1 ∧ parse_excludes c1 ex = Ret l ∧
     base c1 = net ∧ isIPv4 c1 = is_v4 (net_ip net)) ∧
    c = MkCIDR net (is_v4 (net_ip net)) (removeExcludeIPRange (ranges c1) l) None.
Proof.
  unfold NewCIDR. destruct (net_ParseCIDR b) as [[ip net]|]; [|done]. intros (c1 & H1 & (l & H2 & [= <-])%bind_Ret)%bind_Ret.
  pose proof H1 as Hwf. apply add_includes_wf in Hwf as (_ & E1 & E2 & E3); [|split; constructor].
  cbn in E1, E2, E3. exists ip, net, c1, l. split; [done|]. cbn zeta. unfold is_v4.
  split_and!; try done. by rewrite E2, E3.
Qed.

(** Every number of an interval between two numbers of the base subnet is in its prefix. *)
Lemma base_number_prefix b ip net c n :
  net_ParseCIDR b = Some (ip, net) → base c = net → isIPv4 c = is_v4 (net_ip net) → base_number c n →
  n / 2 ^ host_bits net = prefix_of net (net_ip net).
Proof.
  intros Hb E1 E2 (x & Hx & Hc & ->). rewrite E1 in Hc.
  apply (net_contains_spec _ _ _ _ Hb) in Hc as [Hv <-]; [|by apply ip16_wf].
  rewrite E2, <- Hv. unfold prefix_of. f_equal. destruct (is_v4 x) eqn:E.
  - by rewrite ipToInt_v4.
  - by rewrite ipToInt_v6.
Qed.

Lemma included_prefix b ip net c rs n :
  net_ParseCIDR b = Some (ip, net) → base c = net → isIPv4 c = is_v4 (net_ip net) → included c rs n →
  n / 2 ^ host_bits net = prefix_of net (net_ip net).
Proof.
  intros Hb E1 E2 (item & s & e & _ & [Hs He]%parse_base & Hn).
  apply (base_number_prefix b ip net c) in Hs; [|done..]. apply (base_number_prefix b ip net c) in He; [|done..].
  destruct (host_bits_range _ _ _ Hb) as (_ & Hh & _).
  assert (0 < 2 ^ host_bits net) by (apply Z.pow_pos_nonneg; lia).
  pose proof (Z.div_le_mono (Z.min s e) n (2 ^ host_bits net)).
  pose proof (Z.div_le_mono n (Z.max s e) (2 ^ host_bits net)).
  destruct (Z.min_spec s e) as [[? E3]|[? E3]], (Z.max_spec s e) as [[? E4]|[? E4]]; rewrite E3, E4 in *; lia.
Qed.

(** The invariant of every [CIDR] value that [NewCIDR] returns, and what its ranges contain, when
    the excluded ranges are written with their ends in order. *)
Lemma NewCIDR_spec b rs ex c :
  NewCIDR b rs ex = Ret c →
  Forall (λ item, ∀ s e, parse c item = Ret (s, e) → s ≤ e) ex →
  wf_ranges (ranges c) ∧ (∀ n, in_ranges (ranges c) n ↔ included c rs n ∧ ¬ excluded c ex n) ∧
  ∀ n, in_ranges (ranges c) n → n / 2 ^ host_bits (base c) = prefix_of (base c) (net_ip (base c)).
Proof.
  intros (ip & net & c1 & l & Hb & (H1 & H2 & E1 & E2) & ->)%NewCIDR_inv Hex.
  set (c0 := MkCIDR net _ [] None) in *. set (c := MkCIDR net _ (removeExcludeIPRange _ _) None) in *.
  assert (∀ v, parse c1 v = parse c v) as X1 by (intros v; by apply parse_ext; rewrite ?E1, ?E2).
  assert (∀ v, parse c0 v = parse c v) as X0 by (intros v; by apply parse_ext).
  assert (wf_ranges (ranges c0)) as W0 by (split; constructor).
  pose proof (add_includes_members c0 rs c1 W0 H1) as Hin.
  apply add_includes_wf in H1 as (W1 & _); [|done].
  destruct (parse_excludes_members c1 ex l H2) as [Hexl Hord].
  destruct (removeExcludeIPRange_spec (ranges c1) l) as [W2 Hm]; [|done|].
  { apply Hord. eapply Forall_impl; [exact Hex|]. intros item Hi s e. rewrite X1. apply Hi. }
  assert (∀ n, in_ranges (ranges c) n ↔ included c rs n ∧ ¬ excluded c ex n) as Hiff.
  { intros n. unfold c. cbn [ranges]. rewrite Hm, Hin, Hexl. unfold included, excluded.
    setoid_rewrite X0. setoid_rewrite X1. pose proof (in_ranges_nil n). cbn [ranges c0]. tauto. }
  split_and!; [done|done|]. intros n [Hi _]%Hiff. by apply (included_prefix b ip net c rs n Hb).
Qed.

(** What the ranges contain, whatever the order of the ends of the excluded ranges. *)
Lemma NewCIDR_members b rs ex c :
  NewCIDR b rs ex = Ret c →
  Forall ordered (ranges c) ∧ (∀ n, in_ranges (ranges c) n ↔ included c rs n ∧ ¬ excluded c ex n) ∧
  ∃ ip, net_ParseCIDR b = Some (ip, base c) ∧ isIPv4 c = is_v4 (net_ip (base c)).
Proof.
  intros (ip & net & c1 & l & Hb & (H1 & H2 & E1 & E2) & ->)%NewCIDR_inv.
  set (c0 := MkCIDR net _ [] None) in *. set (c := MkCIDR net _ (removeExcludeIPRange _ _) None) in *.
  assert (∀ v, parse c1 v = parse c v) as X1 by (intros v; by apply parse_ext; rewrite ?E1, ?E2).
  assert (∀ v, parse c0 v = parse c v) as X0 by (intros v; by apply parse_ext).
  assert (wf_ranges (ranges c0)) as W0 by (split; constructor).
  pose proof (add_includes_members c0 rs c1 W0 H1) as Hin.
  apply add_includes_wf in H1 as ([W1 _] & _); [|done].
  destruct (parse_excludes_members c1 ex l H2) as [Hexl _].
  destruct (removeExcludeIPRange_members (ranges c1) l W1) as [W2 Hm].
  split_and!; [done| |by exists ip].
  intros n. unfold c. cbn [ranges]. rewrite Hm, Hin, Hexl. unfold included, excluded.
  setoid_rewrite X0. setoid_rewrite X1. pose proof (in_ranges_nil n). cbn [ranges c0]. tauto.
Qed.

Lemma IsOverlapIPRanges_spec c rs :
  Forall ordered (ranges c) → Forall ordered rs →
  (IsOverlapIPRanges c rs).2 = true ↔ ∃ n, in_ranges (ranges c) n ∧ in_ranges rs n.
Proof.
  intros H1 H2. unfold IsOverlapIPRanges. cbn [snd]. rewrite Nat.ltb_lt.
  rewrite Forall_forall in H1. rewrite Forall_forall in H2.
  assert (∀ x y, ordered x → ordered y → ranges_cross x y = true ↔ ∃ n, in_range x n ∧ in_range y n) as Hcross.
  { intros x y Hx Hy. unfold ranges_cross, in_range, ordered in *.
    rewrite !orb_true_iff, !andb_true_iff, !Z.leb_le. split; [|intros (n & ?); lia].
    intros H. exists (Z.max (Start x) (Start y)). lia. }
  split.
  - intros Hl. destruct (concat _) as [|s l] eqn:E; [cbn in Hl; lia|].
    assert (s ∈ concat ((λ x, Raw <$> filter (λ y, ranges_cross x y = true) rs) <$> ranges c)) as Hs
      by (rewrite E; apply list_elem_of_here).
    apply elem_of_concat in Hs as (l' & (x & -> & Hx)%list_elem_of_fmap & (y & -> & [Hy Hyr]%list_elem_of_filter)%list_elem_of_fmap).
    apply Hcross in Hy as (n & ? & ?); [|auto..]. exists n. split; [exists x|exists y]; done.
  - intros (n & (x & Hx & Hnx) & (y & Hy & Hny)).
    assert (Raw y ∈ concat ((λ x, Raw <$> filter (λ y, ranges_cross x y = true) rs) <$> ranges c)) as Hin.
    { apply elem_of_concat. eexists. split; [by apply list_elem_of_fmap; exists x|].
      apply list_elem_of_fmap. exists y. split; [done|]. apply list_elem_of_filter. split; [|done].
      apply Hcross; eauto. }
    destruct (concat _); [by apply elem_of_nil in Hin|cbn; lia].
Qed.

(** The numbers of the addresses: those of an IPv4 subnet lie in the mapped block. *)
Definition offset (c : CIDR) : Z := if isIPv4 c then v4_base else 0.

(** A [CIDR] over a parsed base subnet. *)
Definition based (c : CIDR) : Prop :=
  (∃ b ip, net_ParseCIDR b = Some (ip, base c)) ∧ isIPv4 c = is_v4 (net_ip (base c)).

Lemma split_singleton sep s a : split sep s = [a] → a = s.
Proof.
  intros Hs. destruct (contains_char sep s) eqn:Hc; [|rewrite split_none in Hs by done; by injection Hs].
  exfalso. assert (∃ x y, s = x +:+ String sep y ∧ contains_char sep x = false) as (x & y & -> & Hx).
  { clear Hs. induction s as [|c s IH]; cbn in Hc; [done|]. destruct (decide (c = sep)) as [->|Hne].
    - by exists ""%string, s.
    - rewrite bool_decide_false in Hc by done. destruct (IH Hc) as (x & y & -> & Hx). exists (String c x), y.
      split; [done|]. cbn. by rewrite bool_decide_false. }
  rewrite split_app in Hs by done. injection Hs as _ Hs. by apply split_nonempty in Hs.
Qed.

Lemma convertIPtoBigInt_offset c value n :
  based c → convertIPtoBigInt c value = Ret n →
  ip16 (net_ParseIP value) ∧ n = be (net_ParseIP value) - offset c.
Proof.
  intros [(b & ip & Hb) Hv]. unfold convertIPtoBigInt.
  destruct (net_ParseIP_nil_or value) as [->|Hip]; [done|].
  rewrite ip16_not_nil by done. destruct (net_contains (base c) (net_ParseIP value)) eqn:Hc; [|done]. cbn [negb].
  apply (net_contains_spec _ _ _ _ Hb) in Hc as [Hf _]; [|by apply ip16_wf]. rewrite <- Hv in Hf.
  unfold offset. destruct (isIPv4 c).
  - rewrite <- (negb_involutive (is_nil (To4 _))). change (negb (is_nil (To4 ?x))) with (is_v4 x).
    rewrite Hf. intros [= <-]. split; [done|]. destruct (ip16_v4_be _ Hip Hf) as [-> _]. rewrite ipToInt_v4 by done. lia.
  - rewrite To16_ip16, ip16_not_nil by done. intros [= <-]. split; [done|lia].
Qed.

(** The addresses of a range string are those whose number lies between its ends. *)
Lemma range_ips_parse c r s e x :
  based c → parse c r = Ret (s, e) → x ∈ range_ips r ↔ ip16 x ∧ s ≤ be x - offset c ≤ e.
Proof.
  intros Hc. unfold parse.
  destruct (split "-" r) as [|p0 [|p1 [|]]] eqn:Hs; [by apply split_nonempty in Hs| | |done]; cbn [length Nat.ltb Nat.leb Nat.eqb].
  - case_match; [done|]. intros (n & Hn & [= <- <-])%bind_Ret. apply convertIPtoBigInt_offset in Hn as [Hip ->]; [|done].
    pose proof (split_singleton _ _ _ Hs) as ->. unfold range_ips. rewrite (range_bounds_one r r) by done.
    pose proof (be_ip16 _ Hip). rewrite elem_of_ips_from by lia. split; (intros [? ?]; split; [done|lia]).
  - intros Hp. cbn in Hp. inv_ret.
    repeat match goal with H : convertIPtoBigInt _ _ = Ret _ |- _ => apply convertIPtoBigInt_offset in H as [? ->]; [|done] end.
    unfold range_ips. assert (0 ≤ be (net_ParseIP p0) < 2 ^ 128) by (by apply be_ip16).
    assert (0 ≤ be (net_ParseIP p1) < 2 ^ 128) by (by apply be_ip16).
    destruct (Z.le_gt_cases (be (net_ParseIP p0)) (be (net_ParseIP p1))) as [Hle|Hgt].
    + rewrite (range_bounds_two r p0 p1) by done. rewrite elem_of_ips_from by lia. split; (intros [? ?]; split; [done|lia]).
    + unfold range_bounds. rewrite Hs. cbn. rewrite !ip16_not_nil by done. cbn.
      rewrite bytes_compare_be by (unfold ip16 in *; destruct_and!; done || congruence).
      rewrite (proj2 (Z.compare_gt_iff _ _)) by lia. split; [by intros ?%elem_of_nil|]. intros [_ ?]. lia.
Qed.

Lemma add_includes_parsed c rs c' : add_includes c rs = Ret c' → Forall (λ r, is_ret (parse c r) = true) rs.
Proof.
  revert c. induction rs as [|item rs IH]; intros c; cbn [add_includes]; [by constructor|].
  intros ([s e] & Hp & (c1 & H1 & H2)%bind_Ret)%bind_Ret. constructor; [by rewrite Hp|].
  apply IH in H2. eapply Forall_impl; [exact H2|]. intros r. cbn beta.
  unfold addIncludeRange in H1. case_match. apply bind_Ret in H1 as ([] & _ & [= <-]).
  by rewrite (parse_ext _ c).
Qed.

(** An address of the included ranges that is in no excluded one has its number in the ranges. *)
Lemma NewCIDR_address b rs ex c x :
  NewCIDR b rs ex = Ret c → x ∈ ranges_ips rs → x ∉ ranges_ips ex →
  based c ∧ in_ranges (ranges c) (be x - offset c) ∧
  (be x - offset c) / 2 ^ host_bits (base c) = prefix_of (base c) (net_ip (base c)).
Proof.
  intros Hc Hx Hex. destruct (NewCIDR_members _ _ _ _ Hc) as (Ho & Hm & ip & Hb & Hv).
  assert (based c) as Hbs by (split; eauto).
  assert (included c rs (be x - offset c)) as Hin.
  { apply elem_of_ranges_ips in Hx as (r & Hr & Hx). apply NewCIDR_inv in Hc as (ip' & net & c1 & l & Hb' & (H1 & _) & ->).
    apply add_includes_parsed in H1. rewrite Forall_forall in H1. specialize (H1 r Hr).
    rewrite (parse_ext _ (MkCIDR net (is_v4 (net_ip net)) (removeExcludeIPRange (ranges c1) l) None)) in H1 by done.
    destruct (parse _ r) as [[s e]| | |] eqn:Hp; try done.
    exists r, s, e. split; [done|]. split; [done|]. apply (range_ips_parse _ _ _ _ _ Hbs Hp) in Hx. lia. }
  split; [done|]. split; [|by apply (included_prefix b ip (base c) c rs)].
  apply Hm. split; [done|]. intros (item & s & e & Hi & Hp & Hn). apply Hex, elem_of_ranges_ips.
  exists item. split; [done|]. apply (range_ips_parse _ _ _ _ _ Hbs Hp). split; [|done].
  pose proof (ranges_ips_ip16 rs) as H16. rewrite Forall_forall in H16. auto.
Qed.

Lemma TotalIPInt_count c : wf_ranges (ranges c) →
  ∃ l, NoDup l ∧ (∀ n, n ∈ l ↔ in_ranges (ranges c) n) ∧ TotalIP c = Z.of_nat (length l) ∧
    TotalIPInt c = Z.min (Z.of_nat (length l)) MaxInt64.
Proof.
  intros Hwf. destruct (TotalIP_count c Hwf) as (l & Hl1 & Hl2 & Hl3).
  exists l. split_and!; try done. unfold TotalIPInt, MaxInt64. rewrite Hl3.
  destruct (Z.ltb_spec (2 ^ 63 - 1) (Z.of_nat (length l))); [lia|]. rewrite int64_small by lia. lia.
Qed.

(** ** Properties *)

(** The subnet [NewCIDR] builds has pairwise disjoint ranges that contain exactly the
    included numbers which are not excluded, all of them in the base subnet, and [TotalIP]
    is how many there are, for excluded ranges written in order. *)
Theorem NewCIDR_ranges b rs ex c :
  NewCIDR b rs ex = Ret c →
  Forall (λ item, ∀ s e, parse c item = Ret (s, e) → s ≤ e) ex →
  ForallOrdPairs disjoint_ranges (ranges c) ∧
  (∀ n, in_ranges (ranges c) n ↔ included c rs n ∧ ¬ excluded c ex n) ∧
  (∀ n, in_ranges (ranges c) n → n / 2 ^ host_bits (base c) = prefix_of (base c) (net_ip (base c))) ∧
  ∃ l, NoDup l ∧ (∀ n, n ∈ l ↔ in_ranges (ranges c) n) ∧ TotalIP c = Z.of_nat (length l) ∧
    TotalIPInt c = Z.min (Z.of_nat (length l)) MaxInt64.
Proof.
  intros H Hex. destruct (NewCIDR_spec b rs ex c H Hex) as (Hwf & Hm & Hp).
  split_and!; [apply Hwf|done|done|]. by apply TotalIPInt_count.
Qed.

Definition example_cidr : CIDR :=
  MkCIDR (MkIPNet [10; 6; 0; 0] [255; 255; 255; 0]) true
    [MkRange "10.6.0.10-10.6.0.20" 168165386 168165388;
     MkRange "10.6.0.10-10.6.0.20" 168165390 168165396] None.

Lemma NewCIDR_ranges_witness :
  let c := example_cidr in
  NewCIDR "10.6.0.0/24" ["10.6.0.20-10.6.0.10"%string] ["10.6.0.13"%string] =
    Ret (MkCIDR (base c) true [MkRange "10.6.0.20-10.6.0.10" 168165386 168165388;
      MkRange "10.6.0.20-10.6.0.10" 168165390 168165396] None) ∧
  ForallOrdPairs disjoint_ranges (ranges c) ∧
  (∀ n, in_ranges (ranges c) n ↔
    included c ["10.6.0.10-10.6.0.20"%string] n ∧ ¬ excluded c ["10.6.0.13"%string] n) ∧
  (∀ n, in_ranges (ranges c) n → n / 2 ^ host_bits (base c) = prefix_of (base c) (net_ip (base c))) ∧
  ∃ l, NoDup l ∧ (∀ n, n ∈ l ↔ in_ranges (ranges c) n) ∧ TotalIP c = Z.of_nat (length l) ∧
    TotalIPInt c = Z.min (Z.of_nat (length l)) MaxInt64.
Proof.
  intros c. split; [vm_compute; reflexivity|].
  apply (NewCIDR_ranges "10.6.0.0/24" ["10.6.0.10-10.6.0.20"%string] ["10.6.0.13"%string]); [vm_compute; reflexivity|].
  constructor; [|constructor]. intros s e H. vm_compute in H. injection H as <- <-. lia.
Defined.

(** An excluded range written with its ends reversed is not put in order, and cutting it out
    leaves overlapping ranges: [TotalIP] counts 13 addresses in a range of 10. *)
Theorem NewCIDR_reversed_exclude :
  ∃ c, NewCIDR "10.6.0.0/24" ["10.6.0.1-10.6.0.10"%string] ["10.6.0.7-10.6.0.3"%string] = Ret c ∧
    TotalIP c = 13 ∧ ¬ ForallOrdPairs disjoint_ranges (ranges c).
Proof.
  eexists. split; [vm_compute; reflexivity|]. split; [vm_compute; reflexivity|].
  intros H. inversion H as [|? ? Hd _]; subst. apply Forall_cons in Hd as [[Hd|Hd] _]; vm_compute in Hd; done.
Qed.

(** [IsOverlapIPRanges] reports an overlap exactly when some number lies in a range of the
    subnet and in one of the given ranges. *)
Theorem IsOverlapIPRanges_iff c rs :
  Forall ordered (ranges c) → Forall ordered rs →
  (IsOverlapIPRanges c rs).2 = true ↔ ∃ n, in_ranges (ranges c) n ∧ in_ranges rs n.
Proof. apply IsOverlapIPRanges_spec. Qed.

Lemma IsOverlapIPRanges_iff_witness :
  (IsOverlapIPRanges example_cidr [MkRange "10.6.0.12-10.6.0.13" 168165388 168165389]).2 = true ↔
  ∃ n, in_ranges (ranges example_cidr) n ∧ in_ranges [MkRange "10.6.0.12-10.6.0.13" 168165388 168165389] n.
Proof. apply (IsOverlapIPRanges_iff example_cidr); repeat constructor; unfold ordered; cbn; lia. Defined.

(** [AddUsedIP] on a subnet built by [NewCIDR] writes to a map that was never made. *)
Lemma AddUsedIP_panics b rs ex c value l : NewCIDR b rs ex = Ret c → AddUsedIP c (value :: l) = Panic.
Proof. by intros (ip & net & c1 & l' & _ & _ & ->)%NewCIDR_inv. Qed.
