(* ===== verification/Limiter.v ===== *)
(** * pkg/limiter/queue.go: the ticket queue that serialises IPAM requests

    Callers queue up with the tickets they need (pool names), a conductor goroutine grants the
    tickets of queued callers whose tickets are all free, and callers give them back.  Each
    function body between [Lock] and [Unlock] (or [cond.Wait]) is a function on [queue]; the
    goroutines are a step relation over those functions, with the condition variable's waiters
    explicit.  Proved: mutual exclusion per ticket, the bound of the queue, that no wake-up is
    lost, and that the conductor only exits with nobody left in the queue. *)

From S2P Require Import Prelude.
Local Open Scope Z_scope.
Local Open Scope go_scope.

(** ** State and critical sections *)

Definition DefaultTicket : string := "not to use this ticket".
Definition DefaultMaxQueueSize : Z := 1000.

(** [e]; the channel [notifyCheckin] is identified by [e_id]. *)
Record elem := MkElem { e_id : nat; wantedTickets : list string }.

Record queue := MkQueue {
  shuttingDown : bool;
  maxQueueSize : Z;
  elements : list elem;
  grantedTickets : gmap string Z
}.

Definition setDefaultsForLimiterConfig (MaxQueueSize : option Z) : Z := default DefaultMaxQueueSize MaxQueueSize.

(** The slice of pointers is allocated at once. *)
Definition NewLimiter (MaxQueueSize : option Z) : outcome queue :=
  let c := setDefaultsForLimiterConfig MaxQueueSize in
  _ ← make_cap 8 c;
  Ret (MkQueue true c [] ∅).

(** [if len(tickets) == 0 { tickets = append(tickets, DefaultTicket) }] *)
Definition or_default (tickets : list string) : list string :=
  match tickets with [] => [DefaultTicket] | _ => tickets end.

Definition queueUp (q : queue) (id : nat) (tickets : list string) : outcome queue :=
  if shuttingDown q then Fail ErrShutdownQueue
  else if maxQueueSize q <=? Z.of_nat (length (elements q)) then Fail ErrFullQueue
  else Ret (MkQueue (shuttingDown q) (maxQueueSize q)
              (elements q ++ [MkElem id (or_default tickets)]) (grantedTickets q)).

(** [grantedTickets[t]--], with the entry removed at zero. *)
Definition release1 (g : gmap string Z) (t : string) : gmap string Z :=
  let n := default 0 (g !! t) - 1 in
  if n =? 0 then delete t g else <[t := n]> g.

Definition ReleaseTicket (q : queue) (tickets : list string) : queue :=
  MkQueue (shuttingDown q) (maxQueueSize q) (elements q)
    (foldl release1 (grantedTickets q) (or_default tickets)).

Definition start (q : queue) : outcome queue :=
  if negb (shuttingDown q) then Fail ErrStartLimiteRrepeatedly
  else Ret (MkQueue false (maxQueueSize q) (elements q) (grantedTickets q)).

Definition checkAvailableTicket (g : gmap string Z) (tickets : list string) : bool :=
  forallb (λ t, (g !! t == None)) tickets.

Definition grantTicket (g : gmap string Z) (e : elem) : gmap string Z :=
  foldl (λ g t, <[t := default 0 (g !! t) + 1]> g) g (wantedTickets e).

(** The loop of [checkin] over [q.elements]: what stays queued, what was granted, the tickets. *)
Fixpoint checkin_loop (els : list elem) (g : gmap string Z) : list elem * list elem * gmap string Z :=
  match els with
  | [] => ([], [], g)
  | e :: els =>
      if checkAvailableTicket g (wantedTickets e) then
        let '(rest, granted, g') := checkin_loop els (grantTicket g e) in (rest, e :: granted, g')
      else
        let '(rest, granted, g') := checkin_loop els g in (e :: rest, granted, g')
  end.

Definition checkin_scan (q : queue) : queue * list elem :=
  let '(rest, granted, g) := checkin_loop (elements q) (grantedTickets q) in
  (MkQueue (shuttingDown q) (maxQueueSize q) rest g, granted).

Definition shutdown (q : queue) : queue :=
  MkQueue true (maxQueueSize q) (elements q) (grantedTickets q).

Definition isAllTicketsRetrieved (q : queue) : bool := (grantedTickets q == ∅).

Definition Started (q : queue) : bool := negb (shuttingDown q).

(** ** The goroutines *)

(** The conductor: not started, about to run [checkin], in the first or the second [cond.Wait]
    (and whether it has been woken), or gone. *)
Inductive conductor :=
  | CNone
  | CReady
  | CWaitEmpty (woken : bool)
  | CWaitScan (woken : bool)
  | CExited.

(** The caller of [Start]: not yet, waiting for the context, testing and then waiting in the loop
    of [gracefulShutdown], or returned. *)
Inductive starter :=
  | SNone
  | SRunning
  | STest
  | SEnter
  | SWait (woken : bool)
  | SDone.

(** A caller of [AcquireTicket]: blocked on its channel, or past it and not yet releasing. *)
Inductive client :=
  | Queued (tickets : list string)
  | Holding (tickets : list string).

Record sys := MkSys {
  sq : queue;
  cond : conductor;
  starting : starter;
  clients : gmap nat client
}.

Definition init (q : queue) : sys := MkSys q CNone SNone ∅.

Definition wake_conductor (c : conductor) : conductor :=
  match c with CWaitEmpty _ => CWaitEmpty true | CWaitScan _ => CWaitScan true | _ => c end.
Definition wake_starter (s : starter) : starter :=
  match s with SWait _ => SWait true | _ => s end.

Definition c_asleep (c : conductor) : Prop := c = CWaitEmpty false ∨ c = CWaitScan false.
Definition s_asleep (s : starter) : Prop := s = SWait false.

(** [cond.Signal] wakes one sleeper, whichever, if there is one. *)
Inductive signal : conductor → starter → conductor → starter → Prop :=
  | signal_conductor c s : c_asleep c → signal c s (wake_conductor c) s
  | signal_starter c s : s_asleep s → signal c s c (wake_starter s)
  | signal_nobody c s : ¬ c_asleep c → ¬ s_asleep s → signal c s c s.

(** The callers whose channel [grantTicket] closes. *)
Definition notify (granted : list elem) (cl : gmap nat client) : gmap nat client :=
  foldl (λ cl e, <[e_id e := Holding (wantedTickets e)]> cl) cl granted.

(** The rest of [checkin] once past the first wait. *)
Definition after_wait (s : sys) : sys :=
  match elements (sq s) with
  | [] => MkSys (sq s) (if shuttingDown (sq s) then CExited else CReady) (starting s) (clients s)
  | _ =>
      let '(q, granted) := checkin_scan (sq s) in
      MkSys q (CWaitScan false) (starting s) (notify granted (clients s))
  end.

(** [checkin] from its beginning to the next [cond.Wait] or to its return. *)
Definition checkin (s : sys) : sys :=
  if (length (elements (sq s)) == 0%nat) && negb (shuttingDown (sq s))
  then MkSys (sq s) (CWaitEmpty false) (starting s) (clients s)
  else after_wait s.

(** Steps of the conductor. *)
Inductive conductor_step : sys → sys → Prop :=
  | step_checkin s : cond s = CReady → conductor_step s (checkin s)
  | step_after_wait s : cond s = CWaitEmpty true → conductor_step s (after_wait s)
  | step_loop s : cond s = CWaitScan true →
      conductor_step s (MkSys (sq s) CReady (starting s) (clients s)).

Inductive step : sys → sys → Prop :=
  | step_start q s :
      cond s = CNone → start (sq s) = Ret q →
      step s (MkSys q CReady SRunning (clients s))
  | step_queueUp id tickets q c st s :
      clients s !! id = None → queueUp (sq s) id tickets = Ret q →
      signal (cond s) (starting s) c st →
      step s (MkSys q c st (<[id := Queued (or_default tickets)]> (clients s)))
  | step_release id tickets s :
      clients s !! id = Some (Holding tickets) →
      step s (MkSys (ReleaseTicket (sq s) tickets) (wake_conductor (cond s)) (wake_starter (starting s))
                (delete id (clients s)))
  | step_conductor s s' : conductor_step s s' → step s s'
  | step_shutdown c st s :
      starting s = SRunning → signal (cond s) STest c st →
      step s (MkSys (shutdown (sq s)) c st (clients s))
  | step_test s :
      starting s = STest →
      step s (MkSys (sq s) (cond s) (if isAllTicketsRetrieved (sq s) then SDone else SEnter) (clients s))
  | step_enter s :
      starting s = SEnter →
      step s (MkSys (sq s) (cond s) (if isAllTicketsRetrieved (sq s) then STest else SWait false) (clients s))
  | step_woken s :
      starting s = SWait true → step s (MkSys (sq s) (cond s) STest (clients s)).

Definition reachable (s : sys) : Prop :=
  ∃ MaxQueueSize q, NewLimiter MaxQueueSize = Ret q ∧ rtc step (init q) s.

(** ** Tickets and holders *)

Definition occ (t : string) (l : list string) : Z := Z.of_nat (length (filter (λ x, x = t) l)).

Lemma occ_cons t x l : occ t (x :: l) = (if decide (x = t) then 1 else 0) + occ t l.
Proof. unfold occ. rewrite filter_cons. case_decide; cbn [length]; lia. Qed.

Lemma occ_pos t l : t ∈ l → 0 < occ t l.
Proof. induction 1; rewrite occ_cons; unfold occ in *; case_decide; lia || done. Qed.

Lemma occ_zero t l : t ∉ l → occ t l = 0.
Proof.
  induction l as [|x l IH]; [done|]. intros [Hx Hl]%not_elem_of_cons. rewrite occ_cons, IH by done.
  by rewrite decide_False.
Qed.

Lemma grant_lookup g tk t :
  foldl (λ (g : gmap string Z) t, <[t := default 0 (g !! t) + 1]> g) g tk !! t =
  if decide (t ∈ tk) then Some (default 0 (g !! t) + occ t tk) else g !! t.
Proof.
  revert g. induction tk as [|x tk IH]; intros g; cbn [foldl].
  { rewrite decide_False; [done|]. apply not_elem_of_nil. }
  rewrite IH, occ_cons. destruct (decide (x = t)) as [->|Hne].
  - rewrite lookup_insert_eq. rewrite (decide_True (P := t ∈ t :: tk)) by apply list_elem_of_here.
    cbn [default]. case_decide as Ht; f_equal; cbn; [lia|]. rewrite occ_zero by done. lia.
  - rewrite lookup_insert_ne by done. rewrite Z.add_0_l.
    rewrite (decide_ext (t ∈ x :: tk) (t ∈ tk)) by set_solver. done.
Qed.

Lemma release_lookup g tk t :
  foldl release1 g tk !! t =
  if decide (t ∈ tk) then
    (let n := default 0 (g !! t) - occ t tk in if n =? 0 then None else Some n)
  else g !! t.
Proof.
  revert g. induction tk as [|x tk IH]; intros g; cbn [foldl].
  { rewrite decide_False; [done|]. apply not_elem_of_nil. }
  rewrite IH, occ_cons. destruct (decide (x = t)) as [->|Hne].
  - rewrite (decide_True (P := t ∈ t :: tk)) by apply list_elem_of_here.
    assert (default 0 (release1 g t !! t) = default 0 (g !! t) - 1) as E.
    { unfold release1. destruct (Z.eqb_spec (default 0 (g !! t) - 1) 0) as [E|E].
      - rewrite lookup_delete_eq. cbn. lia.
      - by rewrite lookup_insert_eq. }
    case_decide as Ht.
    + rewrite E. cbn zeta. by replace (default 0 (g !! t) - 1 - occ t tk) with (default 0 (g !! t) - (1 + occ t tk)) by lia.
    + rewrite occ_zero, Z.add_0_r by done. unfold release1.
      destruct (Z.eqb_spec (default 0 (g !! t) - 1) 0) as [E0|E0]; cbn zeta.
      * by rewrite lookup_delete_eq.
      * by rewrite lookup_insert_eq.
  - assert (release1 g x !! t = g !! t) as E.
    { unfold release1. destruct (_ =? 0); [by rewrite lookup_delete_ne|by rewrite lookup_insert_ne]. }
    rewrite E, Z.add_0_l. rewrite (decide_ext (t ∈ x :: tk) (t ∈ tk)) by set_solver. done.
Qed.

Definition holds (cl : gmap nat client) (id : nat) (tk : list string) : Prop := cl !! id = Some (Holding tk).

(** The map of granted tickets counts the tickets of the holders, and no ticket has two holders. *)
Record tickets_ok (g : gmap string Z) (cl : gmap nat client) : Prop := {
  ok_count : ∀ t n, g !! t = Some n ↔ ∃ id tk, holds cl id tk ∧ t ∈ tk ∧ n = occ t tk;
  ok_mutex : ∀ id1 tk1 id2 tk2 t, holds cl id1 tk1 → holds cl id2 tk2 → t ∈ tk1 → t ∈ tk2 → id1 = id2
}.

Lemma checkAvailable_spec g tk : checkAvailableTicket g tk = true ↔ ∀ t, t ∈ tk → g !! t = None.
Proof.
  unfold checkAvailableTicket. rewrite forallb_forall. split.
  - intros H t Ht. specialize (H t). rewrite bool_decide_eq_true in H. by apply H, list_elem_of_In.
  - intros H t Ht. apply bool_decide_eq_true, H. by apply list_elem_of_In.
Qed.

Lemma grant_ok g cl e :
  tickets_ok g cl → (∀ tk, ¬ holds cl (e_id e) tk) → checkAvailableTicket g (wantedTickets e) = true →
  tickets_ok (grantTicket g e) (<[e_id e := Holding (wantedTickets e)]> cl).
Proof.
  intros [Hc Hm] Hid Hav. rewrite checkAvailable_spec in Hav. unfold holds in *.
  assert (∀ id tk t, cl !! id = Some (Holding tk) → t ∈ tk → t ∉ wantedTickets e) as Hdis.
  { intros id tk t Hh Ht Hw. specialize (Hav t Hw).
    assert (g !! t = Some (occ t tk)) as E by (apply Hc; eauto). congruence. }
  assert (∀ id tk, cl !! id = Some (Holding tk) → id ≠ e_id e) as Hne by (intros id tk Hh ->; by eapply Hid).
  split.
  - intros t n. unfold grantTicket. rewrite grant_lookup. unfold holds. case_decide as Ht.
    + rewrite (Hav t Ht). cbn [default from_option]. split.
      * intros [= <-]. exists (e_id e), (wantedTickets e). rewrite lookup_insert_eq. done.
      * intros (id & tk & [[<- [= <-]]|[Hn Hh]]%lookup_insert_Some & Ht' & ->); [done|]. by destruct (Hdis id tk t Hh).
    + rewrite Hc. unfold holds. split.
      * intros (id & tk & Hh & Htk & ->). exists id, tk. rewrite lookup_insert_ne; [done|].
        intros E. by apply (Hne id tk Hh).
      * intros (id & tk & [[<- [= <-]]|[Hn Hh]]%lookup_insert_Some & Ht' & ->); [done|]. eauto.
  - intros id1 tk1 id2 tk2 t. unfold holds.
    intros [[<- [= <-]]|[Hn1 Hh1]]%lookup_insert_Some [[<- [= <-]]|[Hn2 Hh2]]%lookup_insert_Some Ht1 Ht2; [done|..].
    + by destruct (Hdis id2 tk2 t Hh2).
    + by destruct (Hdis id1 tk1 t Hh1).
    + eauto.
Qed.

Lemma release_ok g cl id tk :
  tickets_ok g cl → holds cl id tk → tickets_ok (foldl release1 g tk) (delete id cl).
Proof.
  intros [Hc Hm] Hh. split.
  - intros t n. rewrite release_lookup. case_decide as Ht.
    + assert (g !! t = Some (occ t tk)) as -> by (apply Hc; eauto). cbn. rewrite Z.sub_diag. cbn.
      split; [done|]. unfold holds. intros (id' & tk' & [Hn Hh']%lookup_delete_Some & Ht' & _).
      by destruct Hn, (Hm id tk id' tk' t).
    + rewrite Hc. unfold holds. split.
      * intros (id' & tk' & Hh' & Ht' & ->). exists id', tk'. rewrite lookup_delete_ne; [done|].
        intros <-. unfold holds in *. rewrite Hh in Hh'. by injection Hh' as <-.
      * intros (id' & tk' & [Hn Hh']%lookup_delete_Some & Ht' & ->). eauto.
  - unfold holds. intros id1 tk1 id2 tk2 t [_ ?]%lookup_delete_Some [_ ?]%lookup_delete_Some. by apply Hm.
Qed.

(** ** One scan of the queue *)

Lemma grant_keys g e t : is_Some (g !! t) → is_Some (grantTicket g e !! t).
Proof. intros [n Hn]. unfold grantTicket. rewrite grant_lookup. case_decide; [done|]. by exists n. Qed.

Lemma checkin_loop_keys els g t :
  is_Some (g !! t) → is_Some ((checkin_loop els g).2 !! t).
Proof.
  revert g. induction els as [|e els IH]; intros g Ht; cbn [checkin_loop]; [done|]. case_match.
  - specialize (IH (grantTicket g e) (grant_keys g e t Ht)). by destruct (checkin_loop els _) as [[??]?].
  - specialize (IH g Ht). by destruct (checkin_loop els _) as [[??]?].
Qed.

(** What stays and what is granted are complementary parts of the queue in its order, and nothing
    that stays could have been granted. *)
Lemma checkin_loop_spec els g rest granted g' :
  checkin_loop els g = (rest, granted, g') →
  rest `sublist_of` els ∧ granted `sublist_of` els ∧ els ≡ₚ granted ++ rest ∧
  Forall (λ e, checkAvailableTicket g' (wantedTickets e) = false) rest.
Proof.
  revert g rest granted g'. induction els as [|e els IH]; intros g rest granted g'; cbn [checkin_loop].
  { by intros [= <- <- <-]. }
  destruct (checkAvailableTicket g (wantedTickets e)) eqn:Hav.
  - destruct (checkin_loop els (grantTicket g e)) as [[r gr] g1] eqn:E. intros [= <- <- <-].
    destruct (IH _ _ _ _ E) as (H1 & H2 & H3 & H4). split_and!; [by constructor|by constructor| |done].
    cbn. by rewrite <- H3.
  - destruct (checkin_loop els g) as [[r gr] g1] eqn:E. intros [= <- <- <-].
    destruct (IH _ _ _ _ E) as (H1 & H2 & H3 & H4). split_and!; [by constructor|by constructor| |].
    + rewrite H3. apply Permutation_middle.
    + constructor; [|done]. apply not_true_iff_false. rewrite checkAvailable_spec.
      apply not_true_iff_false in Hav. rewrite checkAvailable_spec in Hav. intros Hall. apply Hav.
      intros t Ht. apply eq_None_not_Some. intros Hs%(checkin_loop_keys els). rewrite E in Hs. cbn in Hs.
      rewrite (Hall t Ht) in Hs. by destruct Hs.
Qed.

Lemma notify_cons e l cl :
  notify (e :: l) cl = notify l (<[e_id e := Holding (wantedTickets e)]> cl).
Proof. done. Qed.

Lemma notify_lookup granted cl id : id ∉ e_id <$> granted → notify granted cl !! id = cl !! id.
Proof.
  revert cl. induction granted as [|e l IH]; intros cl Hid; [done|]. rewrite notify_cons.
  cbn in Hid. apply not_elem_of_cons in Hid as [Hne Hid]. rewrite IH by done. by rewrite lookup_insert_ne.
Qed.

Lemma notify_granted granted cl e :
  NoDup (e_id <$> granted) → e ∈ granted → holds (notify granted cl) (e_id e) (wantedTickets e).
Proof.
  revert cl. induction granted as [|x l IH]; intros cl Hnd He; [by apply elem_of_nil in He|].
  rewrite notify_cons. cbn in Hnd. apply NoDup_cons in Hnd as [Hx Hnd].
  apply elem_of_cons in He as [->|He]; [|by apply IH].
  unfold holds. rewrite notify_lookup by done. by rewrite lookup_insert_eq.
Qed.

Lemma checkin_loop_ok els g cl rest granted g' :
  tickets_ok g cl → NoDup (e_id <$> els) → (∀ e tk, e ∈ els → ¬ holds cl (e_id e) tk) →
  checkin_loop els g = (rest, granted, g') → tickets_ok g' (notify granted cl).
Proof.
  revert g cl rest granted g'. induction els as [|e els IH]; intros g cl rest granted g' Hok Hnd Hq; cbn [checkin_loop].
  { by intros [= <- <- <-]. }
  cbn in Hnd. apply NoDup_cons in Hnd as [Hx Hnd]. destruct (checkAvailableTicket g (wantedTickets e)) eqn:Hav.
  - destruct (checkin_loop els (grantTicket g e)) as [[r gr] g1] eqn:E. intros [= <- <- <-].
    rewrite notify_cons. eapply IH; [|done| |exact E].
    + apply grant_ok; [done| |done]. intros tk. apply Hq. apply list_elem_of_here.
    + intros e' tk He'. unfold holds. rewrite lookup_insert_ne; [apply Hq; by apply list_elem_of_further|].
      intros Eq. apply Hx. rewrite Eq. by apply list_elem_of_fmap_2.
  - destruct (checkin_loop els g) as [[r gr] g1] eqn:E. intros [= <- <- <-].
    eapply IH; [done|done| |exact E]. intros e' tk He'. apply Hq. by apply list_elem_of_further.
Qed.

(** ** The invariant *)

Definition client_tickets (c : client) : list string :=
  match c with Queued tk => tk | Holding tk => tk end.

Definition waiting_first (s : sys) : Prop := cond s = CWaitEmpty false.
Definition waiting_second (s : sys) : Prop := cond s = CWaitScan false.

Record Inv (s : sys) : Prop := {
  inv_bound : Z.of_nat (length (elements (sq s))) ≤ maxQueueSize (sq s);
  inv_queued : ∀ id tk, clients s !! id = Some (Queued tk) ↔ MkElem id tk ∈ elements (sq s);
  inv_ids : NoDup (e_id <$> elements (sq s));
  inv_nonempty : ∀ id c, clients s !! id = Some c → client_tickets c ≠ [];
  inv_tickets : tickets_ok (grantedTickets (sq s)) (clients s);
  inv_none : cond s = CNone ↔ starting s = SNone;
  inv_before : starting s = SNone → elements (sq s) = [];
  inv_running : starting s = SRunning ↔ shuttingDown (sq s) = false;
  inv_first : waiting_first s → elements (sq s) = [] ∧ shuttingDown (sq s) = false;
  inv_second : waiting_second s →
    Forall (λ e, checkAvailableTicket (grantedTickets (sq s)) (wantedTickets e) = false) (elements (sq s));
  inv_exited : cond s = CExited → elements (sq s) = [] ∧ shuttingDown (sq s) = true
}.

Lemma init_Inv M q : NewLimiter M = Ret q → Inv (init q).
Proof.
  unfold NewLimiter, make_cap. case_bool_decide as Hc; [|done]. intros [= <-].
  split; cbn; try done; try (split; done); try lia.
  - intros id tk. split; [done|]. intros H. by apply elem_of_nil in H.
  - constructor.
  - split; [|done]. intros t n. split; [done|]. by intros (? & ? & ? & _).
Qed.

(** Who a signal can wake: while the queue runs only the conductor can be asleep. *)
Lemma signal_running c st c' st' :
  signal c st c' st' → ¬ s_asleep st → st' = st ∧ c' = wake_conductor c ∨ st' = st ∧ c' = c ∧ ¬ c_asleep c.
Proof. destruct 1; intros Hs; [by left|done|by right]. Qed.

Lemma wake_not_asleep c : ¬ c_asleep (wake_conductor c).
Proof. intros [E|E]; destruct c; done. Qed.

Lemma signal_wakes c st c' st' :
  signal c st c' st' → ¬ s_asleep st →
  st' = st ∧ ¬ c_asleep c' ∧ (c' = CNone ↔ c = CNone) ∧ (c' = CExited ↔ c = CExited).
Proof.
  intros Hs Hn. destruct (signal_running _ _ _ _ Hs Hn) as [[-> ->]|(-> & -> & ?)]; [|by split_and!].
  split_and!; [done|apply wake_not_asleep|by destruct c|by destruct c].
Qed.

Lemma queueUp_Inv id tickets q c st s :
  Inv s → clients s !! id = None → queueUp (sq s) id tickets = Ret q →
  signal (cond s) (starting s) c st →
  Inv (MkSys q c st (<[id := Queued (or_default tickets)]> (clients s))).
Proof.
  intros I Hid Hq Hsig. unfold queueUp in Hq.
  destruct (shuttingDown (sq s)) eqn:Hsd; [done|].
  destruct (Z.leb_spec (maxQueueSize (sq s)) (Z.of_nat (length (elements (sq s))))); [done|]. injection Hq as <-.
  pose proof (proj2 (inv_running s I) Hsd) as Hrun.
  apply signal_wakes in Hsig as (-> & Hna & HcN & HcE); [|rewrite Hrun; done].
  split; cbn [sq cond starting clients elements shuttingDown maxQueueSize grantedTickets] in *.
  - rewrite length_app. cbn. lia.
  - intros id' tk. rewrite elem_of_app, list_elem_of_singleton, <- (inv_queued s I). rewrite lookup_insert_Some.
    split; [intros [[<- [= <-]]|[? ?]]; auto|]. intros [?|[= -> ->]]; [|by left].
    right. split; [|done]. intros <-. congruence.
  - rewrite fmap_app. apply NoDup_app. split_and!; [apply I| |repeat constructor; by apply not_elem_of_nil].
    intros x (e & -> & He)%list_elem_of_fmap Hx. cbn in Hx. apply list_elem_of_singleton in Hx.
    destruct e as [eid etk]. cbn in Hx. subst. apply (inv_queued s I) in He. congruence.
  - intros id' c'. rewrite lookup_insert_Some. intros [[_ <-]|[_ ?]]; [|by eapply (inv_nonempty s I)].
    by destruct tickets.
  - destruct (inv_tickets s I) as [Hc Hm]. split.
    + intros t n. rewrite Hc. unfold holds. split.
      * intros (i & tk & Hh & ?). exists i, tk. rewrite lookup_insert_ne; [done|]. intros <-. congruence.
      * intros (i & tk & [[? ?]|[? ?]]%lookup_insert_Some & ?); [done|eauto].
    + unfold holds. intros ????? [[? ?]|[? ?]]%lookup_insert_Some [[? ?]|[? ?]]%lookup_insert_Some; try done. by apply Hm.
  - rewrite HcN. apply I.
  - by rewrite Hrun.
  - by rewrite Hrun.
  - intros H'. destruct Hna. by left.
  - intros H'. destruct Hna. by right.
  - intros [? ?]%HcE%(inv_exited s I). congruence.
Qed.

Lemma release_Inv id tickets s :
  Inv s → clients s !! id = Some (Holding tickets) →
  Inv (MkSys (ReleaseTicket (sq s) tickets) (wake_conductor (cond s)) (wake_starter (starting s))
         (delete id (clients s))).
Proof.
  intros I Hh. assert (or_default tickets = tickets) as Edef.
  { pose proof (inv_nonempty s I id _ Hh). by destruct tickets. }
  assert (∀ x, x ≠ SWait true → x ≠ SWait false → wake_starter (starting s) = x ↔ starting s = x) as Hws.
  { intros x H1 H2. destruct (starting s); cbn; try done. split; intros <-; by destruct woken. }
  split; cbn [sq cond starting clients elements shuttingDown maxQueueSize grantedTickets ReleaseTicket].
  - apply I.
  - intros id' tk. rewrite lookup_delete_Some, (inv_queued s I). split; [tauto|]. intros He. split; [|done].
    intros <-. apply (inv_queued s I) in He. congruence.
  - apply I.
  - intros id' c [_ ?]%lookup_delete_Some. by eapply (inv_nonempty s I).
  - rewrite Edef. apply release_ok; [apply I|done].
  - rewrite Hws, <- (inv_none s I) by done. by destruct (cond s).
  - rewrite Hws by done. apply I.
  - rewrite Hws by done. apply I.
  - intros H. destruct (wake_not_asleep (cond s)). by left.
  - intros H. destruct (wake_not_asleep (cond s)). by right.
  - intros H. apply (inv_exited s I). by destruct (cond s).
Qed.

Lemma scan_Inv s : Inv s → starting s ≠ SNone →
  let '(q, granted) := checkin_scan (sq s) in
  Inv (MkSys q (CWaitScan false) (starting s) (notify granted (clients s))).
Proof.
  intros I Hst. unfold checkin_scan. destruct (checkin_loop _ _) as [[rest granted] g'] eqn:E.
  destruct (checkin_loop_spec _ _ _ _ _ E) as (Hsub & Hsub' & Hperm & Hun).
  assert (NoDup (e_id <$> granted ++ rest)) as Hnd by (rewrite <- Hperm; apply I).
  rewrite fmap_app in Hnd. apply NoDup_app in Hnd as (Hng & Hdis & Hnr).
  assert (∀ e, e ∈ elements (sq s) → clients s !! e_id e = Some (Queued (wantedTickets e))) as Hqd.
  { intros [i tk] He. by apply (inv_queued s I). }
  split; cbn [sq cond starting clients elements shuttingDown maxQueueSize grantedTickets]; try done.
  - pose proof (sublist_length _ _ Hsub). pose proof (inv_bound s I). lia.
  - intros id tk. destruct (decide (id ∈ e_id <$> granted)) as [Hg|Hg].
    + pose proof Hg as Hg'. apply list_elem_of_fmap in Hg' as (e & -> & He).
      rewrite (notify_granted granted (clients s) e Hng He). split; [done|]. intros Hin.
      destruct (Hdis (e_id e) Hg). by apply (list_elem_of_fmap_2 e_id) in Hin.
    + rewrite notify_lookup by done. rewrite (inv_queued s I), Hperm, elem_of_app. split; [|by right].
      intros [Hin|?]; [|done]. destruct Hg. by apply (list_elem_of_fmap_2 e_id) in Hin.
  - intros id c Hc. destruct (decide (id ∈ e_id <$> granted)) as [Hg|Hg].
    + apply list_elem_of_fmap in Hg as (e & -> & He).
      rewrite (notify_granted granted (clients s) e Hng He) in Hc. injection Hc as <-. cbn.
      assert (e ∈ elements (sq s)) as He' by (rewrite Hperm; apply elem_of_app; by left).
      by apply (inv_nonempty s I _ _ (Hqd e He')).
    + rewrite notify_lookup in Hc by done. by eapply (inv_nonempty s I).
  - eapply checkin_loop_ok; [apply I|apply I| |exact E]. intros e tk He Hh. unfold holds in Hh.
    rewrite (Hqd e He) in Hh. done.
  - apply I.
Qed.

Lemma after_wait_Inv s : Inv s → starting s ≠ SNone → Inv (after_wait s).
Proof.
  intros I Hst. unfold after_wait. destruct (elements (sq s)) as [|e l] eqn:E.
  - destruct I as [I1 I2 I3 I4 I5 I6 I7 I8 I9 I10 I11]. destruct (shuttingDown (sq s)) eqn:Hsd;
      split; cbn; rewrite ?E in *; try done; unfold waiting_first, waiting_second; cbn; try done; by rewrite Hsd.
  - pose proof (scan_Inv s I Hst) as H. by destruct (checkin_scan (sq s)).
Qed.

Lemma conductor_Inv s s' : Inv s → conductor_step s s' → Inv s'.
Proof.
  intros I Hs. assert (starting s ≠ SNone) as Hst.
  { intros H%(inv_none s I). destruct Hs; congruence. }
  destruct Hs as [s Hc|s Hc|s Hc].
  - unfold checkin. case_bool_decide as Hl; cbn [andb]; [|by apply after_wait_Inv].
    apply nil_length_inv in Hl. destruct (shuttingDown (sq s)) eqn:Hsd; cbn [negb]; [by apply after_wait_Inv|].
    destruct I as [I1 I2 I3 I4 I5 I6 I7 I8 I9 I10 I11]. split; cbn; try done.
  - by apply after_wait_Inv.
  - destruct I as [I1 I2 I3 I4 I5 I6 I7 I8 I9 I10 I11]. split; cbn; try done.
Qed.

Lemma step_Inv s s' : Inv s → step s s' → Inv s'.
Proof.
  intros I. destruct 1 as [q s Hc Hq|id tk q c st s Hid Hq Hsig|id tk s Hh|s s' Hs|c st s Hst Hsig|s Hst|s Hst|s Hst].
  - pose proof (proj1 (inv_none s I) Hc) as Hn. pose proof (inv_before s I Hn) as He. unfold start in Hq.
    destruct (shuttingDown (sq s)); [|done]. injection Hq as <-.
    destruct I as [I1 I2 I3 I4 I5 I6 I7 I8 I9 I10 I11]. split; cbn; done.
  - by eapply queueUp_Inv.
  - by apply release_Inv.
  - by eapply conductor_Inv.
  - apply signal_wakes in Hsig as (-> & Hna & HcN & HcE); [|done].
    destruct I as [I1 I2 I3 I4 I5 I6 I7 I8 I9 I10 I11]. split; cbn; try done.
    + rewrite HcN, I6, Hst. done.
    + intros H. destruct Hna. by left.
    + intros H. destruct Hna. by right.
    + intros H%HcE%I11. naive_solver.
  - destruct I as [I1 I2 I3 I4 I5 I6 I7 I8 I9 I10 I11]. rewrite Hst in *.
    split; cbn; try done; try (by case_match). rewrite I6. by case_match. rewrite <- I8. by case_match.
  - destruct I as [I1 I2 I3 I4 I5 I6 I7 I8 I9 I10 I11]. rewrite Hst in *.
    split; cbn; try done; try (by case_match). rewrite I6. by case_match. rewrite <- I8. by case_match.
  - destruct I as [I1 I2 I3 I4 I5 I6 I7 I8 I9 I10 I11]. rewrite Hst in *. split; cbn; try done.
    + by rewrite I6.
    + by rewrite <- I8.
Qed.

Lemma reachable_Inv s : reachable s → Inv s.
Proof.
  intros (M & q & Hq & Hr). apply init_Inv in Hq. revert Hq.
  induction Hr; eauto using step_Inv.
Qed.

(** ** Properties *)

Lemma conductor_rest s : Inv s → ∃ s', rtc conductor_step s s' ∧ Inv s' ∧
  Forall (λ e, checkAvailableTicket (grantedTickets (sq s')) (wantedTickets e) = false) (elements (sq s')).
Proof.
  intros I.
  assert (∀ s, Inv s → starting s ≠ SNone →
    Forall (λ e, checkAvailableTicket (grantedTickets (sq (after_wait s))) (wantedTickets e) = false)
      (elements (sq (after_wait s)))) as Hafter.
  { clear. intros s I Hst. unfold after_wait. destruct (elements (sq s)) as [|e l] eqn:E; [cbn; by rewrite E|].
    pose proof (scan_Inv s I Hst) as Hs. destruct (checkin_scan (sq s)) as [q gr]. by apply (inv_second _ Hs). }
  assert (∀ s, Inv s → cond s = CReady → ∃ s', rtc conductor_step s s' ∧ Inv s' ∧
    Forall (λ e, checkAvailableTicket (grantedTickets (sq s')) (wantedTickets e) = false) (elements (sq s'))) as Hready.
  { clear - Hafter. intros s I Hc. exists (checkin s).
    split; [by apply rtc_once, step_checkin|]. split; [by eapply conductor_Inv, step_checkin|]. unfold checkin.
    case_bool_decide as Hl; cbn [andb]; [destruct (negb _)|]; [cbn; by apply nil_length_inv in Hl as ->|..];
      (apply Hafter; [done|]; intros H%(inv_none s I); congruence). }
  destruct (cond s) as [| |[]|[]|] eqn:Hc.
  - exists s. split_and!; [done..|]. by rewrite (inv_before s I) by (by apply (inv_none s I)).
  - by apply Hready.
  - exists (after_wait s). assert (starting s ≠ SNone) by (intros H%(inv_none s I); congruence).
    split; [by apply rtc_once, step_after_wait|]. split; [by apply after_wait_Inv|by apply Hafter].
  - exists s. split_and!; [done..|]. by destruct (inv_first s I Hc) as [-> _].
  - destruct (Hready (MkSys (sq s) CReady (starting s) (clients s))) as (s' & Hr & ?); [|done|].
    { by eapply conductor_Inv, step_loop. }
    exists s'. split; [|done]. eapply rtc_l; [by apply step_loop|exact Hr].
  - exists s. split_and!; [done..|]. by apply (inv_second s I).
  - exists s. split_and!; [done..|]. by destruct (inv_exited s I Hc) as [-> _].
Qed.

(** C35: mutual exclusion.  In every reachable state of the limiter, whatever the interleaving of
    acquisitions, releases, conductor runs, start and shutdown, a ticket has at most one holder,
    and the map of granted tickets lists exactly the tickets that are held. *)
Theorem limiter_mutual_exclusion s :
  reachable s →
  (∀ id1 tk1 id2 tk2 t, holds (clients s) id1 tk1 → holds (clients s) id2 tk2 → t ∈ tk1 → t ∈ tk2 → id1 = id2) ∧
  (∀ t, is_Some (grantedTickets (sq s) !! t) ↔ ∃ id tk, holds (clients s) id tk ∧ t ∈ tk).
Proof.
  intros I%reachable_Inv. destruct (inv_tickets s I) as [Hc Hm]. split; [done|]. intros t. split.
  - intros [n (id & tk & ? & ? & _)%Hc]. eauto.
  - intros (id & tk & ? & ?). exists (occ t tk). apply Hc. eauto.
Qed.

(** A run: the limiter starts, a caller queues up for a pool and the conductor serves it. *)
Definition example_sys : sys :=
  MkSys (MkQueue false 2 [] {["pool" := 1]}) (CWaitScan false) SRunning {[7%nat := Holding ["pool"%string]]}.

Lemma example_reachable : reachable example_sys.
Proof.
  exists (Some 2), (MkQueue true 2 [] ∅). split; [vm_compute; reflexivity|].
  eapply rtc_l; [apply (step_start (MkQueue false 2 [] ∅)); reflexivity|].
  eapply rtc_l.
  { eapply (step_queueUp 7%nat ["pool"%string]); [reflexivity|reflexivity|].
    apply signal_nobody; [intros [?|?]; done|done]. }
  eapply rtc_l; [|apply rtc_refl]. apply step_conductor.
  match goal with |- conductor_step ?s _ => replace example_sys with (checkin s) by (vm_compute; reflexivity) end.
  by apply step_checkin.
Qed.

Lemma limiter_mutual_exclusion_witness :
  (∀ id1 tk1 id2 tk2 t, holds (clients example_sys) id1 tk1 → holds (clients example_sys) id2 tk2 →
    t ∈ tk1 → t ∈ tk2 → id1 = id2) ∧
  (∀ t, is_Some (grantedTickets (sq example_sys) !! t) ↔ ∃ id tk, holds (clients example_sys) id tk ∧ t ∈ tk).
Proof. apply (limiter_mutual_exclusion example_sys), example_reachable. Defined.

(** C38: the queue never exceeds its configured size, and [queueUp] appends the caller when there
    is room, fails with [ErrShutdownQueue] when the limiter is not running and with [ErrFullQueue]
    when it is full. *)
Theorem limiter_bounded_queue s id tickets :
  reachable s →
  Z.of_nat (length (elements (sq s))) ≤ maxQueueSize (sq s) ∧
  queueUp (sq s) id tickets =
    (if shuttingDown (sq s) then Fail ErrShutdownQueue
     else if decide (Z.of_nat (length (elements (sq s))) = maxQueueSize (sq s)) then Fail ErrFullQueue
     else Ret (MkQueue false (maxQueueSize (sq s)) (elements (sq s) ++ [MkElem id (or_default tickets)])
                 (grantedTickets (sq s)))).
Proof.
  intros I%reachable_Inv. pose proof (inv_bound s I). split; [done|]. unfold queueUp.
  destruct (shuttingDown (sq s)); [done|]. case_decide; case_match; done || lia.
Qed.

Lemma limiter_bounded_queue_witness :
  Z.of_nat (length (elements (sq example_sys))) ≤ maxQueueSize (sq example_sys) ∧
  queueUp (sq example_sys) 8 [] =
    (if shuttingDown (sq example_sys) then Fail ErrShutdownQueue
     else if decide (Z.of_nat (length (elements (sq example_sys))) = maxQueueSize (sq example_sys)) then Fail ErrFullQueue
     else Ret (MkQueue false (maxQueueSize (sq example_sys)) (elements (sq example_sys) ++ [MkElem 8 (or_default [])])
                 (grantedTickets (sq example_sys)))).
Proof. apply (limiter_bounded_queue example_sys 8 []), example_reachable. Defined.

(** C37: no wake-up is lost.  From every reachable state the conductor alone can run to a state in
    which no queued caller's tickets are all free; so a caller whose tickets are free is served or
    another caller takes one of them.  While the conductor sleeps no queued caller could be
    served, and it only exits with an empty queue. *)
Theorem limiter_no_lost_wakeup s :
  reachable s →
  (∃ s', rtc conductor_step s s' ∧
    ∀ e, e ∈ elements (sq s') → checkAvailableTicket (grantedTickets (sq s')) (wantedTickets e) = false) ∧
  (c_asleep (cond s) →
    ∀ e, e ∈ elements (sq s) → checkAvailableTicket (grantedTickets (sq s)) (wantedTickets e) = false) ∧
  (cond s = CExited → ∀ id tk, clients s !! id ≠ Some (Queued tk)).
Proof.
  intros I%reachable_Inv. split_and!.
  - destruct (conductor_rest s I) as (s' & Hr & _ & Hf). exists s'. split; [done|]. by apply Forall_forall.
  - intros [Hc|Hc]; [destruct (inv_first s I Hc) as [-> _]|apply Forall_forall; by apply (inv_second s I)].
    intros e He. by apply elem_of_nil in He.
  - intros Hc id tk Hq%(inv_queued s I). destruct (inv_exited s I Hc) as [E _]. rewrite E in Hq.
    by apply elem_of_nil in Hq.
Qed.

Lemma limiter_no_lost_wakeup_witness :
  (∃ s', rtc conductor_step example_sys s' ∧
    ∀ e, e ∈ elements (sq s') → checkAvailableTicket (grantedTickets (sq s')) (wantedTickets e) = false) ∧
  (c_asleep (cond example_sys) →
    ∀ e, e ∈ elements (sq example_sys) →
      checkAvailableTicket (grantedTickets (sq example_sys)) (wantedTickets e) = false) ∧
  (cond example_sys = CExited → ∀ id tk, clients example_sys !! id ≠ Some (Queued tk)).
Proof. apply (limiter_no_lost_wakeup example_sys), example_reachable. Defined.
