(* ===== verification/K8s.v ===== *)
(** * The API objects and the API server

    The records of pkg/k8s/apis/spiderpool.spidernet.io/v2beta1, and what the managers rely on in
    the Kubernetes API server they talk to: reads, writes guarded by the resource version, and
    other clients writing in between.  The server is not part of the repository; it is a
    parameter, the class [KubeStore], with its documented optimistic concurrency as the laws of
    [KubeStoreLaws].  [MemStore] is a concrete server that satisfies them. *)

From S2P Require Import Prelude.
Local Open Scope Z_scope.
Local Open Scope go_scope.

(** ** Metadata *)

Record OwnerReference := MkOwnerReference {
  or_APIVersion : string; or_Kind : string; or_Name : string; or_UID : string; or_Controller : option bool
}.

(** [ResourceVersion] is an opaque token that is only compared for equality. *)
Record ObjectMeta := MkMeta {
  Name : string;
  Namespace : string;
  UID : string;
  ResourceVersion : Z;
  Labels : gmap string string;
  Annotations : gmap string string;
  Finalizers : list string;
  OwnerReferences : list OwnerReference;
  DeletionTimestamp : option Z
}.

Definition plain_meta (ns name uid : string) : ObjectMeta := MkMeta name ns uid 0 ∅ ∅ [] [] None.

Definition set_ResourceVersion (v : Z) (m : ObjectMeta) : ObjectMeta :=
  MkMeta (Name m) (Namespace m) (UID m) v (Labels m) (Annotations m) (Finalizers m) (OwnerReferences m) (DeletionTimestamp m).
Definition set_Name (n : string) (m : ObjectMeta) : ObjectMeta :=
  MkMeta n (Namespace m) (UID m) (ResourceVersion m) (Labels m) (Annotations m) (Finalizers m) (OwnerReferences m) (DeletionTimestamp m).

(** [cache.MetaNamespaceKeyFunc] *)
Definition MetaNamespaceKey (m : ObjectMeta) : string :=
  if Namespace m == EmptyString then Name m else Namespace m +:+ "/" +:+ Name m.

Inductive LabelSelectorOperator := OpIn | OpNotIn | OpExists | OpDoesNotExist.
Record LabelSelectorRequirement := MkRequirement {
  lsr_key : string; lsr_op : LabelSelectorOperator; lsr_values : list string }.
Record LabelSelector := MkSelector {
  MatchLabels : gmap string string; MatchExpressions : list LabelSelectorRequirement }.

#[export] Instance OwnerReference_eq_dec : EqDecision OwnerReference.
Proof. solve_decision. Defined.
#[export] Instance ObjectMeta_eq_dec : EqDecision ObjectMeta.
Proof. solve_decision. Defined.
#[export] Instance LabelSelectorOperator_eq_dec : EqDecision LabelSelectorOperator.
Proof. solve_decision. Defined.
#[export] Instance LabelSelectorRequirement_eq_dec : EqDecision LabelSelectorRequirement.
Proof. solve_decision. Defined.
#[export] Instance LabelSelector_eq_dec : EqDecision LabelSelector.
Proof. solve_decision. Defined.

(** ** Owners and finalizers *)

Definition SpiderFinalizer : string := "spiderpool.spidernet.io".

Definition GetControllerOf (m : ObjectMeta) : option OwnerReference :=
  (λ p, p.2) <$> list_find (λ r, or_Controller r = Some true) (OwnerReferences m).

Definition IsControlledBy (m owner : ObjectMeta) : bool :=
  match GetControllerOf m with Some ref => (or_UID ref == UID owner) | None => false end.

(** The group of [schema.ParseGroupVersion]. *)
Definition api_group (apiVersion : string) : option string :=
  match split "/" apiVersion with
  | [_] => Some ""%string
  | [g; _] => Some g
  | _ => None
  end.

Definition referSameObject (a b : OwnerReference) : bool :=
  match api_group (or_APIVersion a), api_group (or_APIVersion b) with
  | Some ga, Some gb => bool_decide (ga = gb ∧ or_Kind a = or_Kind b ∧ or_Name a = or_Name b)
  | _, _ => false
  end.

Definition set_OwnerReferences (refs : list OwnerReference) (m : ObjectMeta) : ObjectMeta :=
  MkMeta (Name m) (Namespace m) (UID m) (ResourceVersion m) (Labels m) (Annotations m) (Finalizers m) refs (DeletionTimestamp m).

Definition upsertOwnerRef (ref : OwnerReference) (m : ObjectMeta) : ObjectMeta :=
  let owners := OwnerReferences m in
  set_OwnerReferences
    match list_find (λ r, referSameObject r ref = true) owners with
    | None => owners ++ [ref]
    | Some (idx, _) => <[idx := ref]> owners
    end m.

Definition set_Labels (l : gmap string string) (m : ObjectMeta) : ObjectMeta :=
  MkMeta (Name m) (Namespace m) (UID m) (ResourceVersion m) l (Annotations m) (Finalizers m) (OwnerReferences m) (DeletionTimestamp m).
Definition set_Annotations (a : gmap string string) (m : ObjectMeta) : ObjectMeta :=
  MkMeta (Name m) (Namespace m) (UID m) (ResourceVersion m) (Labels m) a (Finalizers m) (OwnerReferences m) (DeletionTimestamp m).
Definition set_Finalizers (f : list string) (m : ObjectMeta) : ObjectMeta :=
  MkMeta (Name m) (Namespace m) (UID m) (ResourceVersion m) (Labels m) (Annotations m) f (OwnerReferences m) (DeletionTimestamp m).

Definition ContainsFinalizer (m : ObjectMeta) (f : string) : bool := bool_decide (f ∈ Finalizers m).
Definition AddFinalizer (m : ObjectMeta) (f : string) : ObjectMeta :=
  if ContainsFinalizer m f then m else set_Finalizers (Finalizers m ++ [f]) m.

(** ** SpiderIPPool (spiderippool_types.go) *)

Record Route := MkRoute { Dst : string; Gw : string }.
#[export] Instance Route_eq_dec : EqDecision Route.
Proof. solve_decision. Defined.

(** A slice that is tested against [nil] is an option. *)
Record IPPoolSpec := MkIPPoolSpec {
  ps_IPVersion : option Z;
  ps_Subnet : string;
  ps_IPs : list string;
  ps_ExcludeIPs : list string;
  ps_Gateway : option string;
  ps_Routes : option (list Route);
  ps_PodAffinity : option LabelSelector;
  ps_NamespaceAffinity : option LabelSelector;
  ps_NamespaceName : list string;
  ps_NodeAffinity : option LabelSelector;
  ps_NodeName : list string;
  ps_MultusName : list string;
  ps_Default : option bool;
  ps_Disable : option bool
}.

Record IPPoolStatus := MkIPPoolStatus {
  AllocatedIPs : option string;
  TotalIPCount : option Z;
  AllocatedIPCount : option Z
}.

Record PoolIPAllocation := MkPoolIPAllocation { NamespacedName : string; PodUID : string }.
Abbreviation PoolIPAllocations := (gmap string PoolIPAllocation).

Record SpiderIPPool := MkIPPool {
  pool_meta : ObjectMeta;
  pool_spec : IPPoolSpec;
  pool_status : IPPoolStatus
}.

#[export] Instance IPPoolSpec_eq_dec : EqDecision IPPoolSpec.
Proof. solve_decision. Defined.
#[export] Instance IPPoolStatus_eq_dec : EqDecision IPPoolStatus.
Proof. solve_decision. Defined.
#[export] Instance PoolIPAllocation_eq_dec : EqDecision PoolIPAllocation.
Proof. solve_decision. Defined.
#[export] Instance SpiderIPPool_eq_dec : EqDecision SpiderIPPool.
Proof. solve_decision. Defined.

(** ** SpiderReservedIP (spiderreservedip_types.go) *)

Record SpiderReservedIP := MkReservedIP {
  rip_meta : ObjectMeta;
  rip_IPVersion : option Z;
  rip_IPs : list string
}.

(** ** SpiderSubnet (spidersubnet_types.go) *)

Record SubnetSpec := MkSubnetSpec {
  ss_IPVersion : option Z;
  ss_Subnet : string;
  ss_IPs : list string;
  ss_ExcludeIPs : list string;
  ss_Gateway : option string;
  ss_Routes : list Route
}.
Record SubnetStatus := MkSubnetStatus {
  ControlledIPPools : option string;
  ss_TotalIPCount : option Z;
  ss_AllocatedIPCount : option Z
}.
Record PoolIPPreAllocation := MkPoolIPPreAllocation { pre_IPs : list string; Application : option string }.
Abbreviation PoolIPPreAllocations := (gmap string PoolIPPreAllocation).
Record SpiderSubnet := MkSubnet {
  subnet_meta : ObjectMeta; subnet_spec : SubnetSpec; subnet_status : SubnetStatus }.
#[export] Instance SubnetSpec_eq_dec : EqDecision SubnetSpec.
Proof. solve_decision. Defined.
#[export] Instance PoolIPPreAllocation_eq_dec : EqDecision PoolIPPreAllocation.
Proof. solve_decision. Defined.

(** ** SpiderEndpoint (spiderendpoint_types.go) *)

Record IPAllocationDetail := MkDetail {
  NIC : string;
  d_IPv4 : option string;
  d_IPv6 : option string;
  IPv4Pool : option string;
  IPv6Pool : option string;
  Vlan : option Z;
  IPv4Gateway : option string;
  IPv6Gateway : option string;
  CleanGateway : option bool;
  d_Routes : list Route;
  MAC : option string
}.
Record PodIPAllocation := MkPodIPAllocation { ep_UID : string; ep_Node : string; ep_IPs : list IPAllocationDetail }.
Record WorkloadEndpointStatus := MkEndpointStatus {
  Current : PodIPAllocation; OwnerControllerType : string; OwnerControllerName : string }.
Record SpiderEndpoint := MkEndpoint { ep_meta : ObjectMeta; ep_status : WorkloadEndpointStatus }.
#[export] Instance IPAllocationDetail_eq_dec : EqDecision IPAllocationDetail.
Proof. solve_decision. Defined.
#[export] Instance PodIPAllocation_eq_dec : EqDecision PodIPAllocation.
Proof. solve_decision. Defined.
#[export] Instance WorkloadEndpointStatus_eq_dec : EqDecision WorkloadEndpointStatus.
Proof. solve_decision. Defined.
#[export] Instance SpiderEndpoint_eq_dec : EqDecision SpiderEndpoint.
Proof. solve_decision. Defined.

(** ** The API server *)

(** A kind of objects with a status subresource: [merge_status old new v] is what the server
    stores when the status of [new] replaces that of [old] at version [v]. *)
Class ApiObject (Obj : Type) := {
  obj_meta : Obj → ObjectMeta;
  merge_status : Obj → Obj → Z → Obj
}.

Definition obj_key {Obj} `{ApiObject Obj} (o : Obj) : string := MetaNamespaceKey (obj_meta o).
Definition obj_version {Obj} `{ApiObject Obj} (o : Obj) : Z := ResourceVersion (obj_meta o).

(** The calls of the client on one kind. *)
Class KubeStore (S Obj : Type) := {
  api_get : S → string → outcome Obj;
  api_update_status : S → Obj → outcome unit * S
}.

(** What is relied on: [view] is the content of a server in a [valid] state, [later] what calls
    and other clients may turn it into.  A read returns the stored object.  A status update is
    applied only to the version it was computed from; a conflict leaves the server as it is;
    after another error the update may or may not have been applied.  A version is never reused
    for a different content of the same object. *)
Class KubeStoreLaws (S Obj : Type) `{ApiObject Obj, KubeStore S Obj} := {
  valid : S → Prop;
  view : S → gmap string Obj;
  later : S → S → Prop;
  later_preorder :: PreOrder later;
  later_valid : ∀ s s', valid s → later s s' → valid s';
  later_version : ∀ s s' k o o', valid s →
    later s s' → view s !! k = Some o → view s' !! k = Some o' → obj_version o' = obj_version o → o' = o;
  get_found : ∀ s k o, valid s → api_get s k = Ret o → view s !! k = Some o ∧ obj_key o = k;
  get_total : ∀ s k, (∃ o, api_get s k = Ret o) ∨ (∃ e, api_get s k = Fail e ∧ e ≠ APIConflict);
  update_later : ∀ s o r s', valid s → api_update_status s o = (r, s') → later s s';
  update_total : ∀ s o r s', api_update_status s o = (r, s') → r = Ret () ∨ ∃ e, r = Fail e;
  update_applied : ∀ s o s', valid s → api_update_status s o = (Ret (), s') →
    ∃ old v, view s !! obj_key o = Some old ∧ obj_version old = obj_version o ∧
      view s' = <[obj_key o := merge_status old o v]> (view s);
  update_failed : ∀ s o e s', valid s → api_update_status s o = (Fail e, s') →
    view s' = view s ∨ (e ≠ APIConflict ∧ ∃ old v, view s !! obj_key o = Some old ∧ obj_version old = obj_version o ∧
      view s' = <[obj_key o := merge_status old o v]> (view s))
}.

(** A status update computed from an object of an earlier moment takes effect on exactly that
    object, or not at all. *)
Lemma update_of_view {S Obj} `{KubeStoreLaws S Obj} s1 s2 s3 k o o' r :
  valid s1 → view s1 !! k = Some o → obj_key o = k → later s1 s2 → obj_meta o' = obj_meta o → api_update_status s2 o' = (r, s3) →
  later s2 s3 ∧
  ((view s3 = view s2 ∧ r ≠ Ret ()) ∨
   ∃ v, view s2 !! k = Some o ∧ view s3 = <[k := merge_status o o' v]> (view s2)).
Proof.
  intros Hv Ho Hk Hl Hm Hu.
  pose proof (later_valid s1 s2 Hv Hl) as Hv2. split; [by eapply update_later|].
  assert (obj_key o' = k) as Hk' by (rewrite <- Hk; unfold obj_key; by rewrite Hm).
  assert (∀ old v, view s2 !! obj_key o' = Some old → obj_version old = obj_version o' →
    view s3 = <[obj_key o' := merge_status old o' v]> (view s2) →
    ∃ v, view s2 !! k = Some o ∧ view s3 = <[k := merge_status o o' v]> (view s2)) as Happ.
  { intros old v Hold Hver Hview. rewrite Hk' in *. assert (old = o) as ->; [|eauto].
    apply (later_version s1 s2 k o old); [done..|]. rewrite Hver. unfold obj_version. by rewrite Hm. }
  destruct (update_total _ _ _ _ Hu) as [->|[e ->]].
  - destruct (update_applied s2 o' s3 Hv2 Hu) as (old & v & ? & ? & ?). right. by eapply Happ.
  - destruct (update_failed s2 o' e s3 Hv2 Hu) as [?|(_ & old & v & ? & ? & ?)]; [by left|right; by eapply Happ].
Qed.

Lemma update_of_read {S Obj} `{KubeStoreLaws S Obj} s1 s2 s3 k o o' r :
  valid s1 → api_get s1 k = Ret o → later s1 s2 → obj_meta o' = obj_meta o → api_update_status s2 o' = (r, s3) →
  later s2 s3 ∧
  ((view s3 = view s2 ∧ r ≠ Ret ()) ∨
   ∃ v, view s2 !! k = Some o ∧ view s3 = <[k := merge_status o o' v]> (view s2)).
Proof. intros Hv Hg. destruct (get_found s1 k o Hv Hg) as [Ho Hk]. by apply update_of_view. Qed.

#[export] Instance IPPool_object : ApiObject SpiderIPPool := {|
  obj_meta := pool_meta;
  merge_status old new v := MkIPPool (set_ResourceVersion v (pool_meta old)) (pool_spec old) (pool_status new)
|}.

#[export] Instance Subnet_object : ApiObject SpiderSubnet := {|
  obj_meta := subnet_meta;
  merge_status old new v := MkSubnet (set_ResourceVersion v (subnet_meta old)) (subnet_spec old) (subnet_status new)
|}.

(** A server in memory: every successful write stores the object at a fresh version. *)
Record mem_store (Obj : Type) := MkStore { objs : gmap string Obj; clock : Z }.
Arguments MkStore {Obj} _ _.
Arguments objs {Obj} _.
Arguments clock {Obj} _.

#[export] Instance mem_api {Obj} `{ApiObject Obj} : KubeStore (mem_store Obj) Obj := {|
  api_get s k := match objs s !! k with Some o => Ret o | None => Fail APINotFound end;
  api_update_status s o :=
    match objs s !! obj_key o with
    | None => (Fail APINotFound, s)
    | Some old =>
        if obj_version old == obj_version o
        then (Ret (), MkStore (<[obj_key o := merge_status old o (clock s)]> (objs s)) (clock s + 1))
        else (Fail APIConflict, s)
    end
|}.

Section mem_store.
Context {Obj : Type} `{ApiObject Obj}.

Definition mem_valid (s : mem_store Obj) : Prop :=
  ∀ k o, objs s !! k = Some o → obj_key o = k ∧ obj_version o < clock s.

Definition mem_later (s s' : mem_store Obj) : Prop :=
  clock s ≤ clock s' ∧ (mem_valid s → mem_valid s') ∧
  ∀ k o, objs s' !! k = Some o → objs s !! k = Some o ∨ clock s ≤ obj_version o.

#[export] Instance mem_later_preorder : PreOrder mem_later.
Proof.
  split.
  - intros s. split_and!; [lia|done|auto].
  - intros s1 s2 s3 (H1 & V1 & K1) (H2 & V2 & K2). split_and!; [lia|auto|].
    intros k o [?|?]%K2; [auto|]. right. lia.
Qed.

Context (merge_meta : ∀ old new v, obj_meta (merge_status old new v) = set_ResourceVersion v (obj_meta old)).

Lemma mem_merge old new v :
  obj_key (merge_status old new v) = obj_key old ∧ obj_version (merge_status old new v) = v.
Proof. unfold obj_key, obj_version. rewrite merge_meta. done. Qed.

Lemma mem_update_later s o r s' :
  mem_valid s → api_update_status s o = (r, s') → mem_later s s'.
Proof.
  intros Hv. cbn. destruct (objs s !! obj_key o) as [old|] eqn:E; [case_bool_decide|];
    intros [= <- <-]; [|done..]. destruct (Hv _ _ E) as [Hk Hc]. destruct (mem_merge old o (clock s)) as [M1 M2].
  split_and!; cbn; [lia| |].
  - intros _ k o'. cbn [objs clock]. intros [[<- <-]|[? Ho]]%lookup_insert_Some; [rewrite M1, M2; split; [done|lia]|].
    destruct (Hv _ _ Ho). split; [done|lia].
  - intros k o' [[<- <-]|[? Ho]]%lookup_insert_Some; [right; rewrite M2; lia|by left].
Qed.

Definition mem_laws : KubeStoreLaws (mem_store Obj) Obj.
Proof.
  refine {| valid := mem_valid; view := objs; later := mem_later |}.
  - intros s s' Hv (_ & H1 & _). auto.
  - intros s s' k o o' Hv (_ & _ & Hl) Ho Ho' Ev. destruct (Hl k o' Ho') as [?|?]; [congruence|].
    destruct (Hv k o Ho). lia.
  - intros s k o Hv. cbn. destruct (objs s !! k) as [o'|] eqn:E; [|done]. intros [= ->].
    split; [done|]. by apply Hv.
  - intros s k. cbn. destruct (objs s !! k); [left; eauto|right; eauto].
  - apply mem_update_later.
  - intros s o r s'. cbn. repeat case_match; intros [= <- <-]; eauto.
  - intros s o s' Hv. cbn. destruct (objs s !! obj_key o) as [old|] eqn:E; [|done].
    case_bool_decide; intros [= <-]. exists old, (clock s). done.
  - intros s o e s' Hv. cbn. repeat case_match; intros [= <- <-]; by left.
Defined.
End mem_store.

#[export] Instance mem_pools : KubeStoreLaws (mem_store SpiderIPPool) SpiderIPPool :=
  mem_laws (Obj := SpiderIPPool) (λ _ _ _, eq_refl).
#[export] Instance mem_subnets : KubeStoreLaws (mem_store SpiderSubnet) SpiderSubnet :=
  mem_laws (Obj := SpiderSubnet) (λ _ _ _, eq_refl).

(** ** JSON

    [encoding/json] on the maps kept in status fields. *)
Class JSON (A : Type) := {
  json_marshal : A → string;
  json_unmarshal : string → option A
}.
Class JSONLaws (A : Type) `{JSON A} := {
  json_roundtrip : ∀ a, json_unmarshal (json_marshal a) = Some a
}.

(** A codec that satisfies the law for any countable type: the binary digits of its code. *)
Fixpoint pos_digits (p : positive) : string :=
  match p with xH => "" | xO p => String "0" (pos_digits p) | xI p => String "1" (pos_digits p) end.
Fixpoint digits_pos (s : string) : positive :=
  match s with
  | EmptyString => xH
  | String c s => if c == "0"%char then xO (digits_pos s) else xI (digits_pos s)
  end.

Lemma digits_pos_digits p : digits_pos (pos_digits p) = p.
Proof. induction p as [p IH|p IH|]; cbn; by rewrite ?IH. Qed.

Definition countable_json `{Countable A} : JSON A := {|
  json_marshal a := pos_digits (encode a);
  json_unmarshal s := decode (digits_pos s)
|}.
Lemma countable_json_laws `{Countable A} : @JSONLaws A countable_json.
Proof. split. intros a. cbn. by rewrite digits_pos_digits, decode_encode. Qed.

#[export] Instance PoolIPAllocation_countable : Countable PoolIPAllocation.
Proof.
  by refine (inj_countable' (λ a, (NamespacedName a, PodUID a)) (λ p, MkPoolIPAllocation p.1 p.2) _); intros [].
Defined.
#[export] Instance PoolIPPreAllocation_countable : Countable PoolIPPreAllocation.
Proof.
  by refine (inj_countable' (λ a, (pre_IPs a, Application a)) (λ p, MkPoolIPPreAllocation p.1 p.2) _); intros [].
Defined.
