(* ===== verification/Retry.v ===== *)
(** * pkg/utils/retry/retry.go: retries on write conflicts

    [RetryOnConflictWithContext] repeats a read-compute-write attempt while it ends in a conflict,
    at most [Steps] times.  An attempt is a function of its number and of the server's state; the
    number stands for the moment at which it runs, so that what other clients do before and
    during the attempt can depend on it. *)

From S2P Require Import Prelude.
Local Open Scope go_scope.

(** Commands that only change the state along a preorder. *)
Create HintDb evolves.

(** ** Calls that use the server

    A command runs against the state of the server and may change it, whatever it returns. *)
Definition cmd (S A : Type) : Type := S → outcome A * S.

#[export] Instance cmd_ret S : MRet (cmd S) := λ A a s, (Ret a, s).
#[export] Instance cmd_bind S : MBind (cmd S) := λ A B f m s,
  match m s with
  | (Ret a, s') => f a s'
  | (Fail e, s') => (Fail e, s')
  | (Panic, s') => (Panic, s')
  | (OutOfFuel, s') => (OutOfFuel, s')
  end.

(** A computation that does not use the server, a read, and what other clients do meanwhile. *)
Definition lift {S A} (o : outcome A) : cmd S A := λ s, (o, s).
Definition read {S A} (f : S → outcome A) : cmd S A := λ s, (f s, s).
Definition meanwhile {S} (env : S → S) : cmd S unit := λ s, (Ret (), env s).

Definition modify {S} (f : S → S) : cmd S unit := λ s, (Ret (), f s).

(** The error rewritten at the end of an operation. *)
Definition map_error {S A} (f : error → error) (m : cmd S A) : cmd S A := λ s,
  match m s with (Fail e, s') => (Fail (f e), s') | r => r end.

Lemma cmd_bind_Ret {S A B} (m : cmd S A) (f : A → cmd S B) s b s' :
  (m ≫= f) s = (Ret b, s') ↔ ∃ a s1, m s = (Ret a, s1) ∧ f a s1 = (Ret b, s').
Proof.
  unfold mbind, cmd_bind. destruct (m s) as [[a|e| |] s1]; naive_solver.
Qed.

Lemma lift_Ret {S A} (o : outcome A) (s s' : S) a : lift o s = (Ret a, s') ↔ o = Ret a ∧ s' = s.
Proof. unfold lift. naive_solver. Qed.

Lemma read_Ret {S A} (f : S → outcome A) (s s' : S) a : read f s = (Ret a, s') ↔ f s = Ret a ∧ s' = s.
Proof. unfold read. split; [by intros [= -> ->]|by intros [-> ->]]. Qed.

Lemma cmd_bind_Fail {S A B} (m : cmd S A) (f : A → cmd S B) s e s' :
  (m ≫= f) s = (Fail e, s') ↔
  m s = (Fail e, s') ∨ ∃ a s1, m s = (Ret a, s1) ∧ f a s1 = (Fail e, s').
Proof.
  unfold mbind, cmd_bind. destruct (m s) as [[a|e'| |] s1]; naive_solver.
Qed.

(** A command that only changes the state along a preorder. *)
Definition evolves {S A} (R : S → S → Prop) (m : cmd S A) : Prop := ∀ s, R s (m s).2.

Section evolves.
Context {S : Type} (R : S → S → Prop) `{!PreOrder R}.

Lemma evolves_ret {A} (a : A) : evolves R (mret a : cmd S A).
Proof. intros s. cbn. reflexivity. Qed.
Lemma evolves_lift {A} (o : outcome A) : evolves R (lift o).
Proof. intros s. cbn. reflexivity. Qed.
Lemma evolves_read {A} (f : S → outcome A) : evolves R (read f).
Proof. intros s. cbn. reflexivity. Qed.
Lemma evolves_modify f : (∀ s, R s (f s)) → evolves R (modify f).
Proof. intros H s. apply H. Qed.
Lemma evolves_map_error {A} f (m : cmd S A) : evolves R m → evolves R (map_error f m).
Proof. intros H s. specialize (H s). unfold map_error. by destruct (m s) as [[]]. Qed.
Lemma evolves_bind {A B} (m : cmd S A) (f : A → cmd S B) :
  evolves R m → (∀ a, evolves R (f a)) → evolves R (m ≫= f).
Proof.
  intros Hm Hf s. specialize (Hm s). unfold mbind, cmd_bind. destruct (m s) as [[a|e| |] s']; [|done..].
  cbn in *. etrans; [exact Hm|]. apply Hf.
Qed.
Lemma evolves_lift_bind {A B} (o : outcome A) (f : A → cmd S B) :
  (∀ a, o = Ret a → evolves R (f a)) → evolves R (lift o ≫= f).
Proof. intros Hf s. unfold lift, mbind, cmd_bind. destruct o as [a| | |]; [by apply Hf|reflexivity..]. Qed.
Lemma evolves_if {A} (b : bool) (m n : cmd S A) : evolves R m → evolves R n → evolves R (if b then m else n).
Proof. by destruct b. Qed.
End evolves.
#[export] Hint Resolve evolves_ret evolves_lift evolves_read evolves_map_error evolves_bind evolves_if : evolves.

(** The order in which goroutines that are started together get to their turn. *)
Class Schedule := {
  reorder : ∀ {A}, list A → list A;
  reorder_perm : ∀ {A} (l : list A), reorder l ≡ₚ l
}.
Definition in_order : Schedule := {| reorder A l := l; reorder_perm A l := Permutation_refl l |}.

(** [DefaultRetry.Steps] *)
Definition DefaultRetrySteps : nat := 5.

Section retry.
Context {S A : Type}.
(** Whether the context is done when attempt [i] is about to start. *)
Context (cancelled : nat → bool).
Context (retriable : error → bool).
Context (f : nat → S → outcome A * S).

(** [wait.ExponentialBackoffWithContext] around [f], for [steps] remaining steps. *)
Fixpoint OnErrorWithContext (steps i : nat) (s : S) : outcome A * S :=
  match steps with
  | O => (Fail WaitInterrupted, s)
  | Datatypes.S n =>
      if cancelled i then (Fail WaitInterrupted, s)
      else
        match f i s with
        | (Fail e, s') => if retriable e then OnErrorWithContext n (Datatypes.S i) s' else (Fail e, s')
        | r => r
        end
  end.

(** The attempts before the last one all ended in a retriable error. *)
Inductive attempts : nat → S → nat → S → Prop :=
  | attempts_refl i s : attempts i s i s
  | attempts_step i s e s' j s'' :
      f i s = (Fail e, s') → retriable e = true → attempts (Datatypes.S i) s' j s'' → attempts i s j s''.

Lemma OnError_inv steps i s r s' :
  OnErrorWithContext steps i s = (r, s') →
  ∃ j sj, (i ≤ j ≤ i + steps)%nat ∧ attempts i s j sj ∧
    ((r = Fail WaitInterrupted ∧ s' = sj ∧ (j = (i + steps)%nat ∨ cancelled j = true)) ∨
     (f j sj = (r, s') ∧ (j < i + steps)%nat ∧ ∀ e, r = Fail e → retriable e = false)).
Proof.
  revert i s. induction steps as [|n IH]; intros i s; cbn [OnErrorWithContext].
  { intros [= <- <-]. exists i, s. split_and!; [lia..|constructor|]. left. split_and!; auto. }
  destruct (cancelled i) eqn:Hc.
  { intros [= <- <-]. exists i, s. split_and!; [lia..|constructor|]. left. auto. }
  destruct (f i s) as [o s1] eqn:Hf. destruct o as [a|e| |]; [| |intros [= <- <-]..].
  - intros [= <- <-]. exists i, s. split_and!; [lia..|constructor|]. right. split_and!; [done|lia|done].
  - destruct (retriable e) eqn:He.
    + intros (j & sj & Hj & Hat & Hr)%IH. exists j, sj. split_and!; [lia..|by econstructor|].
      destruct Hr as [(? & ? & [->|?])|(? & ? & ?)].
      * left. split_and!; try done. left. lia.
      * left. split_and!; try done. by right.
      * right. split_and!; try done. lia.
    + intros [= <- <-]. exists i, s. split_and!; [lia..|constructor|]. right. split_and!; [done|lia|].
      by intros ? [= <-].
  - exists i, s. split_and!; [lia..|constructor|]. right. split_and!; [done|lia|done].
  - exists i, s. split_and!; [lia..|constructor|]. right. split_and!; [done|lia|done].
Qed.

(** Success at the first attempt that does not end in a retriable error, within the steps. *)
Lemma OnError_success steps i s j sj a s' :
  attempts i s j sj → (j < i + steps)%nat → (∀ k, i ≤ k ≤ j → cancelled k = false)%nat →
  f j sj = (Ret a, s') → OnErrorWithContext steps i s = (Ret a, s').
Proof.
  intros Hat. revert steps. induction Hat as [i s|i s e s1 j s2 Hf He Hat IH]; intros steps Hj Hc Hr.
  - destruct steps as [|n]; [lia|]. cbn [OnErrorWithContext]. rewrite Hc, Hr by lia. done.
  - destruct steps as [|n].
    { exfalso. clear - Hat Hj. assert (Datatypes.S i ≤ j)%nat; [|lia].
      revert Hat. generalize (Datatypes.S i). intros i'. induction 1; lia. }
    assert (Datatypes.S i ≤ j)%nat as Hle by (clear - Hat; induction Hat; lia).
    cbn [OnErrorWithContext]. rewrite Hc, Hf, He by lia. apply IH; [lia| |done]. intros k Hk. apply Hc. lia.
Qed.
End retry.

Definition IsConflict (e : error) : bool := (e == APIConflict).

Definition RetryOnConflictWithContext {S A} (cancelled : nat → bool) (steps : nat)
    (f : nat → S → outcome A * S) (s : S) : outcome A * S :=
  OnErrorWithContext cancelled IsConflict f steps 0 s.

Lemma evolves_retry {S A} (R : S → S → Prop) `{!PreOrder R} cancelled steps (f : nat → cmd S A) :
  (∀ i, evolves R (f i)) → evolves R (RetryOnConflictWithContext cancelled steps f).
Proof.
  intros Hf s. unfold RetryOnConflictWithContext. generalize 0%nat. revert s.
  induction steps as [|n IH]; intros s i; cbn [OnErrorWithContext]; [reflexivity|].
  destruct (cancelled i); [reflexivity|]. pose proof (Hf i s) as H. destruct (f i s) as [[a|e| |] s']; [exact H| |exact H..].
  destruct (IsConflict e); [|exact H]. etransitivity; [exact H|apply IH].
Qed.
