(* ===== verification/WorkQueue.v ===== *)
(** * client-go's workqueue, and how the controllers settle an item

    The controllers of spiderpool share one pattern: informer events add keys to a rate limited
    queue, workers take keys, run a handler, and settle the key by what the handler returned.  The
    queue is that of [vendor/k8s.io/client-go/util/workqueue]; times are in nanoseconds. *)

From S2P Require Import Prelude Retry.
Local Open Scope Z_scope.
Local Open Scope go_scope.

(** ** Errors that were put together *)

(** [errors.Is] *)
Fixpoint Is (e target : error) : bool :=
  (e == target) || match e with ErrAppend e1 e2 => Is e1 target || Is e2 target | _ => false end.

(** The first error of the API server in it. *)
Fixpoint api_status (e : error) : option error :=
  match e with
  | APINotFound | APIConflict | APIAlreadyExists | APIOther | APIInvalid | APIForbidden => Some e
  | ErrAppend e1 e2 => match api_status e1 with Some s => Some s | None => api_status e2 end
  | _ => None
  end.
Definition conflict (e : error) : bool := api_status e == Some APIConflict.
Definition already_exists (e : error) : bool := api_status e == Some APIAlreadyExists.
Definition not_found (e : error) : bool := api_status e == Some APINotFound.

(** ** The queue *)

(** [queue] is the order in which items are handed out, [dirty] the items that need processing,
    [processing] those that are being processed; [waiting] has the items that are added later, by
    the time at which they are, and [failures] how often an item was rate limited. *)
Record workqueue (K : Type) `{Countable K} := MkQueue {
  queue : list K;
  dirty : gset K;
  processing : gset K;
  waiting : gmap K Z;
  failures : gmap K nat;
  shuttingDown : bool
}.
Arguments MkQueue {K _ _} _ _ _ _ _ _.
Arguments queue {K _ _} _.
Arguments dirty {K _ _} _.
Arguments processing {K _ _} _.
Arguments waiting {K _ _} _.
Arguments failures {K _ _} _.
Arguments shuttingDown {K _ _} _.

Definition baseDelay : Z := 5 * 10 ^ 6.
Definition maxDelay : Z := 1000 * 10 ^ 9.

Section queue.
Context {K : Type} `{Countable K}.
Implicit Types (q : workqueue K) (item : K).

Definition new_queue : workqueue K := MkQueue [] ∅ ∅ ∅ ∅ false.

Definition Add item q : workqueue K :=
  if shuttingDown q then q
  else if bool_decide (item ∈ dirty q) then q
  else
    MkQueue (if bool_decide (item ∈ processing q) then queue q else queue q ++ [item])
      ({[item]} ∪ dirty q) (processing q) (waiting q) (failures q) (shuttingDown q).

Definition Len q : Z := Z.of_nat (length (queue q)).

(** [None]: the caller waits; [Some (None, _)]: the queue is shut down. *)
Definition Get q : option (option K * workqueue K) :=
  match queue q with
  | [] => if shuttingDown q then Some (None, q) else None
  | item :: l => Some (Some item,
      MkQueue l (dirty q ∖ {[item]}) ({[item]} ∪ processing q) (waiting q) (failures q) (shuttingDown q))
  end.

Definition Done item q : workqueue K :=
  MkQueue (if bool_decide (item ∈ dirty q) then queue q ++ [item] else queue q)
    (dirty q) (processing q ∖ {[item]}) (waiting q) (failures q) (shuttingDown q).

Definition ShutDown q : workqueue K :=
  MkQueue (queue q) (dirty q) (processing q) (waiting q) (failures q) true.

(** An item that waits already keeps the earlier time. *)
Definition insert_waiting (readyAt : Z) item q : workqueue K :=
  MkQueue (queue q) (dirty q) (processing q)
    (<[item := match waiting q !! item with Some t => Z.min t readyAt | None => readyAt end]> (waiting q))
    (failures q) (shuttingDown q).

Definition AddAfter (now : Z) item (duration : Z) q : workqueue K :=
  if shuttingDown q then q
  else if duration <=? 0 then Add item q
  else insert_waiting (now + duration) item q.

(** [waitingLoop] adds the items whose time has come. *)
Definition fire (now : Z) item q : workqueue K :=
  match waiting q !! item with
  | Some readyAt =>
      if (readyAt <=? now) && negb (shuttingDown q) then
        let q := Add item q in
        MkQueue (queue q) (dirty q) (processing q) (delete item (waiting q)) (failures q) (shuttingDown q)
      else q
  | None => q
  end.

(** ** The rate limiter *)

Definition NumRequeues item q : nat := default 0%nat (failures q !! item).

Definition Forget item q : workqueue K :=
  MkQueue (queue q) (dirty q) (processing q) (waiting q) (delete item (failures q)) (shuttingDown q).

(** [2 ^ failures] times the base delay, at most [maxDelay]. *)
Definition backoff (exp : nat) : Z := Z.min (baseDelay * 2 ^ Z.of_nat exp) maxDelay.

(** [bucket]: what the token bucket asks for. *)
Definition AddRateLimited (now bucket : Z) item q : workqueue K :=
  let exp := NumRequeues item q in
  AddAfter now item (Z.max (backoff exp) (Z.max bucket 0))
    (MkQueue (queue q) (dirty q) (processing q) (waiting q) (<[item := S exp]> (failures q)) (shuttingDown q)).

(** ** Settling an item *)

Section settle.
Context (WorkQueueRequeueDelayDuration WorkQueueMaxRetries : Z).

(** The errors after which an item is rate limited are those of [limited]. *)
Definition settle (limited : error → bool) (now bucket : Z) (item : K) (r : outcome unit) : cmd (workqueue K) unit :=
  match r with
  | Ret _ => modify (Forget item)
  | Fail e =>
      if Is e ErrWrongInput then modify (Forget item)
      else if limited e then modify (AddRateLimited now bucket item)
      else if (0 <=? WorkQueueRequeueDelayDuration) then
        many ← read (λ q, Ret (Z.of_nat (NumRequeues item q) <? WorkQueueMaxRetries));
        if many : bool then modify (AddAfter now item WorkQueueRequeueDelayDuration) else modify (Forget item)
      else modify (Forget item)
  | Panic => lift Panic
  | OutOfFuel => lift OutOfFuel
  end.
End settle.

(** Every failed item is rate limited. *)
Definition settle_always (now bucket : Z) (item : K) (r : outcome unit) : cmd (workqueue K) unit :=
  match r with
  | Ret _ => modify (Forget item)
  | Fail _ => modify (AddRateLimited now bucket item)
  | Panic => lift Panic
  | OutOfFuel => lift OutOfFuel
  end.

Section capacity.
Context (MaxWorkqueueLength : Z).

(** A queue that is full discards the item. *)
Definition enqueue item q : workqueue K := if MaxWorkqueueLength <=? Len q then q else Add item q.
End capacity.

(** ** A worker *)

(** The item at the front is processed, which comes to what is done with it in the queue; [env] is
    what the other goroutines do with the queue meanwhile.  [Done] is deferred.  [None]: the worker
    waits; [Ret false]: the queue is shut down. *)
Definition work {S} (env : workqueue K → workqueue K) (process : K → S → cmd (workqueue K) unit * S) (w : S * workqueue K)
    : option (outcome bool * (S * workqueue K)) :=
  match Get w.2 with
  | None => None
  | Some (None, q) => Some (Ret false, (w.1, q))
  | Some (Some item, q) =>
      let '(settled, s) := process item w.1 in
      let '(r, q) := settled (env q) in
      Some (fmap (λ _, true) r, (s, Done item q))
  end.

(** ** What the goroutines do with a queue *)

(** [taken]: the item that is handed out. *)
Inductive queue_step : option K → workqueue K → workqueue K → Prop :=
  | step_add item q : queue_step None q (Add item q)
  | step_take item q q' : Get q = Some (Some item, q') → queue_step (Some item) q q'
  | step_done item q : item ∈ processing q → queue_step None q (Done item q)
  | step_after now item d q : queue_step None q (AddAfter now item d q)
  | step_limited now bucket item q : queue_step None q (AddRateLimited now bucket item q)
  | step_fire now item q : queue_step None q (fire now item q)
  | step_forget item q : queue_step None q (Forget item q)
  | step_shut q : queue_step None q (ShutDown q).

(** The items handed out, in order. *)
Inductive queue_run : list K → workqueue K → workqueue K → Prop :=
  | run_nil q : queue_run [] q q
  | run_cons o l q1 q2 q3 : queue_step o q1 q2 → queue_run l q2 q3 → queue_run (option_list o ++ l) q1 q3.

(** The queue has, each once, the items that need processing and are not processed. *)
Definition queue_wf q : Prop :=
  NoDup (queue q) ∧ ∀ x, x ∈ queue q ↔ x ∈ dirty q ∧ x ∉ processing q.

(** Only [Get] takes from the front of the queue; what needs processing is kept until it is taken. *)
Definition appends (q q' : workqueue K) : Prop :=
  (∃ added, queue q' = queue q ++ added) ∧ dirty q ⊆ dirty q'.
#[export] Instance appends_preorder : PreOrder appends.
Proof.
  split; [intros q; split; [by exists []; rewrite app_nil_r|done]|].
  intros q1 q2 q3 [[l1 E1] S1] [[l2 E2] S2]. split; [|by etrans].
  exists (l1 ++ l2). by rewrite E2, E1, <- app_assoc.
Qed.

(** What [Add] does to the sets. *)
Lemma Add_cases item q :
  Add item q = q ∨
  (item ∉ dirty q ∧ shuttingDown q = false ∧ dirty (Add item q) = {[item]} ∪ dirty q ∧ processing (Add item q) = processing q ∧
   queue (Add item q) = if bool_decide (item ∈ processing q) then queue q else queue q ++ [item]).
Proof. unfold Add. destruct (shuttingDown q); [by left|]. case_bool_decide; [by left|]. right. done. Qed.

Lemma Add_wf item q : queue_wf q → queue_wf (Add item q).
Proof.
  intros [N W]. destruct (Add_cases item q) as [->|(Hd & _ & Ed & Ep & Eq)]; [done|]. unfold queue_wf. rewrite Ed, Ep, Eq.
  case_bool_decide as Hp; split; [done|set_solver| |set_solver].
  apply NoDup_app. split_and!; [done|set_solver|by apply NoDup_singleton].
Qed.
Lemma Add_appends item q : appends q (Add item q).
Proof.
  destruct (Add_cases item q) as [->|(_ & _ & Ed & _ & Eq)]; [done|]. split; [|rewrite Ed; set_solver].
  rewrite Eq. case_bool_decide; [by exists []; rewrite app_nil_r|by exists [item]].
Qed.

(** An operation that leaves the queue and the sets alone. *)
Definition same_sets (q q' : workqueue K) : Prop :=
  queue q' = queue q ∧ dirty q' = dirty q ∧ processing q' = processing q.
Lemma same_sets_wf q q' : same_sets q q' → queue_wf q → queue_wf q'.
Proof. intros (E1 & E2 & E3) ?. unfold queue_wf. by rewrite E1, E2, E3. Qed.
Lemma same_sets_appends q q' : same_sets q q' → appends q q'.
Proof. intros (E1 & E2 & E3). split; [exists []; by rewrite E1, app_nil_r|by rewrite E2]. Qed.

Lemma AddAfter_cases now item d q : same_sets q (AddAfter now item d q) ∨ AddAfter now item d q = Add item q.
Proof. unfold AddAfter. destruct (shuttingDown q); [by left|]. destruct (d <=? 0); [by right|by left]. Qed.
Lemma fire_cases now item q : same_sets q (fire now item q) ∨ same_sets (Add item q) (fire now item q).
Proof. unfold fire. case_match; [|by left]. case_match; [by right|by left]. Qed.

Lemma AddAfter_both now item d q : (queue_wf q → queue_wf (AddAfter now item d q)) ∧ appends q (AddAfter now item d q).
Proof.
  destruct (AddAfter_cases now item d q) as [Hs| ->]; split;
    eauto using same_sets_wf, same_sets_appends, Add_wf, Add_appends.
Qed.
Lemma AddRateLimited_both now bucket item q :
  (queue_wf q → queue_wf (AddRateLimited now bucket item q)) ∧ appends q (AddRateLimited now bucket item q).
Proof. unfold AddRateLimited. destruct (AddAfter_both now item (Z.max (backoff (NumRequeues item q)) (Z.max bucket 0))
  (MkQueue (queue q) (dirty q) (processing q) (waiting q) (<[item:=S (NumRequeues item q)]> (failures q)) (shuttingDown q))) as [H1 H2].
  split; [intros W; apply H1, W|apply H2].
Qed.

Lemma Done_wf item q : item ∈ processing q → queue_wf q → queue_wf (Done item q).
Proof.
  intros Hp [N W]. unfold queue_wf, Done. cbn. case_bool_decide as Hd.
  - split; [apply NoDup_app; split_and!; [done|set_solver|by apply NoDup_singleton]|].
    intros x. specialize (W x). destruct (decide (x = item)) as [->|]; set_solver.
  - split; [done|]. intros x. specialize (W x). destruct (decide (x = item)) as [->|]; set_solver.
Qed.

Lemma Get_wf item q q' : Get q = Some (Some item, q') → queue_wf q →
  queue_wf q' ∧ item ∈ dirty q ∧ item ∉ processing q ∧ processing q' = {[item]} ∪ processing q ∧
  queue q = item :: queue q' ∧ dirty q' = dirty q ∖ {[item]}.
Proof.
  unfold Get. intros E [N W]. destruct (queue q) as [|x l] eqn:El; [by destruct (shuttingDown q)|].
  injection E as <- <-. apply NoDup_cons in N as [Nx N]. assert (x ∈ dirty q ∧ x ∉ processing q) as [Hd Hp] by (apply W; set_solver).
  split_and!; try done. split; cbn; [done|]. intros y. specialize (W y). destruct (decide (y = x)) as [->|]; set_solver.
Qed.

Lemma queue_step_wf o q q' : queue_step o q q' → queue_wf q → queue_wf q'.
Proof.
  destruct 1 as [item q|item q q' E|item q Hp|now item d q|now bucket item q|now item q|item q|q]; intros W.
  - by apply Add_wf.
  - by destruct (Get_wf _ _ _ E W).
  - by apply Done_wf.
  - by apply AddAfter_both.
  - by apply AddRateLimited_both.
  - destruct (fire_cases now item q); eauto using same_sets_wf, Add_wf.
  - exact W.
  - exact W.
Qed.

Lemma queue_run_wf l q q' : queue_run l q q' → queue_wf q → queue_wf q'.
Proof. induction 1; eauto using queue_step_wf. Qed.

Lemma new_queue_wf : queue_wf new_queue.
Proof. split; [constructor|]. set_solver. Qed.

(** A step that hands nothing out appends. *)
Lemma queue_step_appends q q' : queue_step None q q' → appends q q'.
Proof.
  inversion 1; subst; [apply Add_appends| |apply AddAfter_both|apply AddRateLimited_both| |by apply same_sets_appends..].
  - split; [|done]. cbn. case_bool_decide; [by exists [item]|by exists []; rewrite app_nil_r].
  - destruct (fire_cases now item q) as [Hs|Hs]; [by apply same_sets_appends|].
    etrans; [apply Add_appends|by apply same_sets_appends].
Qed.

(** What is handed out is what was in the queue, and then what was appended. *)
Lemma queue_run_order taken q q' : queue_run taken q q' → queue_wf q → ∃ added, taken ++ queue q' = queue q ++ added.
Proof.
  induction 1 as [q|o l q1 q2 q3 Hs R IH]; intros W; [exists []; by rewrite app_nil_r|].
  destruct (IH (queue_step_wf _ _ _ Hs W)) as [added Ea]. destruct o as [x|]; cbn.
  - inversion Hs as [|? ? ? E| | | | | |]; subst. destruct (Get_wf _ _ _ E W) as (_ & _ & _ & _ & Eq & _).
    exists added. rewrite Eq. by rewrite Ea.
  - destruct (queue_step_appends _ _ Hs) as [[l2 E2] _]. exists (l2 ++ added). by rewrite Ea, E2, <- app_assoc.
Qed.

Lemma queue_run_dirty taken q q' item : queue_wf q → queue_run taken q q' → item ∈ dirty q → item ∈ taken ∨ item ∈ dirty q'.
Proof.
  intros W R. revert W. induction R as [q|o l q1 q2 q3 Hs R IH]; intros W Hd; [by right|].
  destruct (decide (o = Some item)) as [->|Ho]; [left; set_solver|].
  destruct (IH (queue_step_wf _ _ _ Hs W)) as [?|?]; [|set_solver|by right]. destruct o as [x|].
  - inversion Hs as [|? ? ? E| | | | | |]; subst. destruct (Get_wf _ _ _ E W) as (_ & _ & _ & _ & _ & ->). set_solver.
  - destruct (queue_step_appends _ _ Hs) as [_ Sd]. set_solver.
Qed.

(** ** Properties *)

(** C23: Of a queue that was new, whatever the informers, the delays and the workers do with it, no
    item is handed out to a worker while another one is processing it, and no item twice for one
    mark: the queue has exactly the items that need processing and are not processed, each once. *)
Theorem queue_exclusive taken q : queue_run taken new_queue q →
  queue_wf q ∧ ∀ item q', Get q = Some (Some item, q') → item ∈ dirty q ∧ item ∉ processing q ∧ item ∈ processing q' ∧ item ∉ queue q'.
Proof.
  intros R. assert (queue_wf q) as W by eauto using queue_run_wf, new_queue_wf. split; [done|]. intros item q' E.
  destruct (Get_wf _ _ _ E W) as ((_ & W') & ? & ? & Ep & _ & _). split_and!; [done|done|set_solver|].
  rewrite W', Ep. set_solver.
Qed.

(** C24: An event is not lost: the queue hands items out in the order in which they were put in, and
    an item that needs processing either was handed out since, or still needs processing; so when
    as many items were handed out as were before it in the queue, it was handed out too. *)
Theorem queue_no_loss taken q q' item : queue_wf q → queue_run taken q q' → item ∈ dirty q →
  (∃ added, taken ++ queue q' = queue q ++ added) ∧
  (item ∈ taken ∨ item ∈ dirty q') ∧
  (∀ before after, queue q = before ++ item :: after → (length before < length taken)%nat → item ∈ taken).
Proof.
  intros W R Hd. destruct (queue_run_order _ _ _ R W) as [added E].
  split_and!; [by exists added|by eapply queue_run_dirty|].
  intros before after Eq Hl. rewrite Eq in E. assert (taken !! length before = Some item) as Hi.
  { rewrite <- (lookup_app_l _ (queue q')) by done. rewrite E, <- app_assoc. cbn. by rewrite list_lookup_middle. }
  by eapply list_elem_of_lookup_2.
Qed.

(** ** Retries *)

(** The item fails with [e], and is due again. *)
Definition failed_round (delay max : Z) (limited : error → bool) (now bucket : Z) item (e : error) q : workqueue K :=
  match Get q with
  | Some (Some x, q) => fire (now + delay) item (Done x (settle delay max limited now bucket x (Fail e) q).2)
  | _ => q
  end.

Lemma Add_new item : Add item new_queue = MkQueue [item] {[item]} ∅ ∅ ∅ false.
Proof. unfold Add. cbn. rewrite !bool_decide_false by set_solver. by rewrite (right_id_L ∅ (∪)). Qed.

(** Only rate limiting counts: [AddAfter] does not, so that an item that fails again and again with
    an error that is neither wrong input nor a conflict is never given up, whatever the number of
    retries that is configured, if it is positive. *)
Theorem retries_never_exhausted delay max limited now bucket item e (n : nat) :
  0 ≤ delay → 0 < max → Is e ErrWrongInput = false → limited e = false →
  Nat.iter n (failed_round delay max limited now bucket item e) (Add item new_queue) = Add item new_queue.
Proof.
  intros Hd Hm Hw Hl. assert (failed_round delay max limited now bucket item e (Add item new_queue) = Add item new_queue) as Hr.
  { rewrite Add_new. unfold failed_round, settle, NumRequeues. cbn. rewrite Hw, Hl. destruct (Z.leb_spec 0 delay); [|lia].
    unfold read, modify, mbind, cmd_bind. cbn.
    rewrite lookup_empty. cbn. change (Z.of_nat 0) with 0. destruct (Z.ltb_spec 0 max); [|lia]. cbn.
    unfold AddAfter. cbn. assert ({[item]} ∖ {[item]} =@{gset K} ∅) as E1 by set_solver.
    rewrite E1, (right_id_L ∅ (∪)). destruct (Z.leb_spec delay 0).
    - unfold Add. cbn. rewrite bool_decide_false, bool_decide_true by set_solver.
      unfold Done. cbn. rewrite bool_decide_true by set_solver. rewrite ?E1, ?(right_id_L ∅ (∪)). cbn.
      unfold fire. cbn. by rewrite lookup_empty.
    - unfold insert_waiting, Done. cbn. rewrite lookup_empty, bool_decide_false, E1 by set_solver.
      unfold fire. cbn. rewrite lookup_insert_eq, Z.leb_refl. cbn.
      rewrite !bool_decide_false by set_solver. cbn. rewrite (right_id_L ∅ (∪)), delete_insert_id by apply lookup_empty. done. }
  induction n as [|n IH]; [done|]. rewrite Nat.iter_succ. by rewrite IH.
Qed.
End queue.

(** ** Witnesses *)

Definition ex_run : queue_run ["a"%string] new_queue (Add "a"%string (MkQueue [] ∅ {["a"%string]} ∅ ∅ false)).
Proof.
  change ["a"%string] with (option_list None ++ option_list (Some "a"%string) ++ option_list (None (A := string)) ++ []).
  eapply run_cons; [apply (step_add "a"%string)|]. eapply run_cons; [by apply step_take|].
  eapply run_cons; [apply (step_add "a"%string)|]. apply run_nil.
Qed.

Lemma queue_exclusive_witness :
  let q := Add "a"%string (MkQueue [] ∅ {["a"%string]} ∅ ∅ false) in
  queue_wf q ∧ ∀ item q', Get q = Some (Some item, q') → item ∈ dirty q ∧ item ∉ processing q ∧ item ∈ processing q' ∧ item ∉ queue q'.
Proof. exact (queue_exclusive ["a"%string] _ ex_run). Defined.

Lemma queue_no_loss_witness :
  let q := Add "b"%string (Add "a"%string new_queue) in
  let q' := MkQueue ["b"%string] {["b"%string]} {["a"%string]} ∅ ∅ false in
  (∃ added, ["a"%string] ++ queue q' = queue q ++ added) ∧
  ("b"%string ∈ ["a"%string] ∨ "b"%string ∈ dirty q') ∧
  (∀ before after, queue q = before ++ "b"%string :: after → (length before < 1)%nat → "b"%string ∈ ["a"%string]).
Proof.
  cbv zeta. refine (queue_no_loss ["a"%string] _ _ "b"%string _ _ _).
  - apply Add_wf, Add_wf, new_queue_wf.
  - change ["a"%string] with (option_list (Some "a"%string) ++ []). eapply run_cons; [|apply run_nil]. apply step_take. vm_compute. reflexivity.
  - apply (bool_decide_unpack _). vm_compute. exact I.
Defined.

Lemma retries_never_exhausted_witness :
  Nat.iter 1000 (failed_round (10 ^ 9) 10 conflict 0 0 "pool"%string APIOther) (Add "pool"%string new_queue) = Add "pool"%string new_queue.
Proof. apply (retries_never_exhausted (10 ^ 9) 10 conflict 0 0 "pool"%string APIOther 1000); [done|done|reflexivity|reflexivity]. Defined.
