(* ===== verification/ReservedIP.v ===== *)
(** * pkg/reservedipmanager: reserved addresses

    The mutating and validating webhook of SpiderReservedIP and [AssembleReservedIPs], which
    gives the IP allocation the addresses it must leave out. *)

From S2P Require Import Prelude NetIP NetIPFacts IPAddr Cidr IPRange K8s.
Local Open Scope Z_scope.

(** ** Webhook (reservedip_mutate.go, reservedip_validate.go, reservedip_webhook.go) *)

Record ReservedIPWebhook := MkReservedIPWebhook { rw_EnableIPv4 : bool; rw_EnableIPv6 : bool }.

Section webhook.
Context `{MR : MapRange} (rw : ReservedIPWebhook).

Definition set_rip_IPVersion (v : Z) (r : SpiderReservedIP) : SpiderReservedIP :=
  MkReservedIP (rip_meta r) (Some v) (rip_IPs r).
Definition set_rip_IPs (ips : list string) (r : SpiderReservedIP) : SpiderReservedIP :=
  MkReservedIP (rip_meta r) (rip_IPVersion r) ips.

(** The version guessed from the first range. *)
Definition detect_version (ip0 : string) : outcome Z :=
  if IsIPv4IPRange ip0 then Ret IPv4
  else if IsIPv6IPRange ip0 then Ret IPv6
  else Fail (ErrOther "failed to generate 'spec.ipVersion'").

(** The object as the function leaves it, and what it returns. *)
Definition mutateReservedIP (rIP : SpiderReservedIP) : SpiderReservedIP * outcome unit :=
  match DeletionTimestamp (rip_meta rIP), rip_IPs rIP with
  | Some _, _ => (rIP, Ret ())
  | None, [] => (rIP, Fail (ErrOther "empty 'spec.ips'"))
  | None, ip0 :: more =>
      let v := match rip_IPVersion rIP with Some v => Ret v | None => detect_version ip0 end in
      match v with
      | Ret v =>
          let rIP := set_rip_IPVersion v rIP in
          if (1 <? length (rip_IPs rIP))%nat then
            match MergeIPRanges v (rip_IPs rIP) with
            | Ret mergedIPs => (set_rip_IPs mergedIPs rIP, Ret ())
            | Fail e => (rIP, Fail e)
            | Panic => (rIP, Panic)
            | OutOfFuel => (rIP, OutOfFuel)
            end
          else (rIP, Ret ())
      | Fail e => (rIP, Fail e)
      | Panic => (rIP, Panic)
      | OutOfFuel => (rIP, OutOfFuel)
      end
  end.

(** [Default] logs the error of the mutation and admits the object as it is. *)
Definition Default (rIP : SpiderReservedIP) : outcome SpiderReservedIP :=
  match mutateReservedIP rIP with
  | (rIP, Ret _) | (rIP, Fail _) => Ret rIP
  | (_, Panic) => Panic
  | (_, OutOfFuel) => OutOfFuel
  end.

Definition validateReservedIPIPVersion (version : option Z) : outcome unit :=
  match version with
  | None => Fail (FieldInvalid "spec.ipVersion")
  | Some version =>
      if negb (version =? IPv4) && negb (version =? IPv6) then Fail (FieldNotSupported "spec.ipVersion")
      else if (version =? IPv4) && negb (rw_EnableIPv4 rw) then Fail (FieldForbidden "spec.ipVersion")
      else if (version =? IPv6) && negb (rw_EnableIPv6 rw) then Fail (FieldForbidden "spec.ipVersion")
      else Ret ()
  end.

Definition validateReservedIPs (version : Z) (ips : list string) : outcome unit :=
  for_each (λ r, match IsIPRange version r with Fail _ => Fail (FieldInvalid "spec.ips") | o => o end) ips.

Definition validateReservedIPSpec (rIP : SpiderReservedIP) : outcome unit :=
  version ← deref (rip_IPVersion rIP);
  validateReservedIPs version (rip_IPs rIP).

Definition validateReservedIPShouldNotBeChanged (oldRIP newRIP : SpiderReservedIP) : outcome unit :=
  match rip_IPVersion newRIP, rip_IPVersion oldRIP with
  | Some n, Some o => if negb (n =? o) then Fail (FieldForbidden "spec.ipVersion") else Ret ()
  | _, _ => Ret ()
  end.

(** The lists of field errors have at most one element. *)
Definition validateCreateReservedIP (rIP : SpiderReservedIP) : outcome unit :=
  _ ← validateReservedIPIPVersion (rip_IPVersion rIP);
  validateReservedIPSpec rIP.

Definition validateUpdateReservedIP (oldRIP newRIP : SpiderReservedIP) : outcome unit :=
  _ ← validateReservedIPShouldNotBeChanged oldRIP newRIP;
  _ ← validateReservedIPIPVersion (rip_IPVersion newRIP);
  validateReservedIPSpec newRIP.

Definition ValidateCreate (rIP : SpiderReservedIP) : outcome unit := validateCreateReservedIP rIP.

Definition ValidateUpdate (oldRIP newRIP : SpiderReservedIP) : outcome unit :=
  match DeletionTimestamp (rip_meta newRIP), DeletionTimestamp (rip_meta oldRIP) with
  | Some _, None => Ret ()
  | Some _, Some _ => Fail (ErrOther "cannot update a terminating ReservedIP")
  | None, _ => validateUpdateReservedIP oldRIP newRIP
  end.
End webhook.

(** ** Manager (reservedip_manager.go) *)

(** [ListReservedIPs] from the cache with the selector on [spec.ipVersion]: the cache's index has
    the decimal text of the version, and nothing for an object without one. *)
Definition ListReservedIPs (cache : list SpiderReservedIP) (version : Z) : list SpiderReservedIP :=
  filter (λ r, rip_IPVersion r = Some version) cache.

Definition AssembleReservedIPs (cache : list SpiderReservedIP) (version : Z) : outcome (list IP) :=
  _ ← IsIPVersion version;
  let rIPList := ListReservedIPs cache version in
  let ranges := concat ((λ r, match DeletionTimestamp (rip_meta r) with None => rip_IPs r | Some _ => [] end) <$> rIPList) in
  ParseIPRanges version ranges.

(** ** Facts *)

(** An address is reserved for a version. *)
Definition reserved (cache : list SpiderReservedIP) (version : Z) (ip : IP) : Prop :=
  ∃ r, r ∈ cache ∧ rip_IPVersion r = Some version ∧ DeletionTimestamp (rip_meta r) = None ∧ ip ∈ ranges_ips (rip_IPs r).

(** The reserved objects of the version can be enumerated. *)
Definition good_reserved (cache : list SpiderReservedIP) (version : Z) : Prop :=
  Forall (λ r, rip_IPVersion r = Some version → DeletionTimestamp (rip_meta r) = None →
    Forall (good_range version) (rip_IPs r)) cache.

Lemma AssembleReservedIPs_spec cache version :
  IsIPVersion version = Ret () → good_reserved cache version →
  ∃ ips, AssembleReservedIPs cache version = Ret ips ∧ Forall ip16 ips ∧ ∀ x, x ∈ ips ↔ reserved cache version x.
Proof.
  intros Hv Hg. unfold AssembleReservedIPs. rewrite Hv. cbn [mbind outcome_bind].
  set (ranges := concat _).
  assert (∀ s, s ∈ ranges ↔ ∃ r, r ∈ cache ∧ rip_IPVersion r = Some version ∧
    DeletionTimestamp (rip_meta r) = None ∧ s ∈ rip_IPs r) as Hr.
  { intros s. unfold ranges. rewrite elem_of_concat. split.
    - intros (l & (r & -> & [Hver Hin]%list_elem_of_filter)%list_elem_of_fmap & Hs).
      exists r. destruct (DeletionTimestamp (rip_meta r)) eqn:E; [by apply elem_of_nil in Hs|]. done.
    - intros (r & Hin & Hver & Hd & Hs). exists (rip_IPs r). split; [|done].
      apply list_elem_of_fmap. exists r. rewrite Hd. split; [done|]. by apply list_elem_of_filter. }
  rewrite ParseIPRanges_spec.
  - exists (ranges_ips ranges). split_and!; [done|apply ranges_ips_ip16|]. intros x.
    rewrite elem_of_ranges_ips. unfold reserved. setoid_rewrite Hr. setoid_rewrite elem_of_ranges_ips. naive_solver.
  - apply Forall_forall. intros s (r & Hin & Hver & Hd & Hs)%Hr. unfold good_reserved in Hg. rewrite Forall_forall in Hg.
    specialize (Hg r Hin Hver Hd). by eapply Forall_forall in Hg.
Qed.

(** ** Properties *)

Lemma validate_admitted rw rIP :
  validateCreateReservedIP rw rIP = Ret () →
  ∃ v, rip_IPVersion rIP = Some v ∧ IsIPVersion v = Ret () ∧ Forall (λ r, IsIPRange v r = Ret ()) (rip_IPs rIP).
Proof.
  unfold validateCreateReservedIP, validateReservedIPSpec. intros ([] & Hv & H)%bind_Ret.
  destruct (rip_IPVersion rIP) as [v|]; [|done]. cbn in H. exists v. split; [done|]. split.
  - unfold validateReservedIPIPVersion in Hv. unfold IsIPVersion. by case_match.
  - apply for_each_Ret in H. eapply Forall_impl; [exact H|]. intros r Hr. cbn in Hr. by case_match.
Qed.

(** Admission of a reserved IP.  The mutation of an object with several enumerable ranges
    keeps the set of addresses it reserves, and what it produces passes the validation whenever
    its IP version is enabled. *)
Theorem mutateReservedIP_validates `{MR : MapRange} rw rIP v :
  DeletionTimestamp (rip_meta rIP) = None →
  rip_IPs rIP ≠ [] → rip_IPVersion rIP = Some v → validateReservedIPIPVersion rw (Some v) = Ret () →
  Forall (good_range v) (rip_IPs rIP) →
  Z.of_nat (length (ranges_ips (rip_IPs rIP))) * 24 ≤ 2 ^ 48 → Forall next_ok (ranges_ips (rip_IPs rIP)) →
  ∃ rIP', mutateReservedIP rIP = (rIP', Ret ()) ∧ ValidateCreate rw rIP' = Ret () ∧
    ∀ x, x ∈ ranges_ips (rip_IPs rIP') ↔ x ∈ ranges_ips (rip_IPs rIP).
Proof.
  intros Hd Hne Hv Hver Hg Hcap Hn. unfold mutateReservedIP. rewrite Hd, Hv.
  assert (IsIPVersion v = Ret ()) as Hvv by (unfold validateReservedIPIPVersion, IsIPVersion in *; by case_match).
  assert (∀ ips, Forall (good_range v) ips → ValidateCreate rw (MkReservedIP (rip_meta rIP) (Some v) ips) = Ret ()) as Hval.
  { intros ips Hips. unfold ValidateCreate, validateCreateReservedIP. cbn [rip_IPVersion]. rewrite Hver. cbn.
    apply for_each_Ret. eapply Forall_impl; [exact Hips|]. intros r (Hr & _). cbn. by rewrite Hr. }
  destruct (rip_IPs rIP) as [|ip0 more] eqn:Eips; [done|]. cbn [set_rip_IPVersion rip_IPs]. rewrite Eips.
  destruct more as [|ip1 more]; cbn [length Nat.ltb Nat.leb].
  - eexists. split; [done|]. unfold set_rip_IPVersion. cbn [rip_IPs]. rewrite Eips. split; [by apply Hval|done].
  - unfold MergeIPRanges. rewrite ParseIPRanges_spec by done. cbn [mbind outcome_bind].
    destruct (convert_roundtrip v _ (good_ranges_convertible v _ Hvv Hg Hcap Hn)) as (rs & -> & G & _ & _ & _ & I).
    eexists. split; [done|]. split; [by apply Hval|]. cbn [set_rip_IPs rip_IPs]. intros x. rewrite I.
    by rewrite map_To16_ip16 by apply ranges_ips_ip16.
Qed.

Lemma mutateReservedIP_validates_witness :
  ∃ rIP', mutateReservedIP (MR := ordered_range)
      (MkReservedIP (plain_meta "" "r" "") (Some IPv4) ["10.0.0.1-10.0.0.2"; "10.0.0.3"]) = (rIP', Ret ()) ∧
    ValidateCreate (MkReservedIPWebhook true false) rIP' = Ret () ∧
    ∀ x, x ∈ ranges_ips (rip_IPs rIP') ↔ x ∈ ranges_ips ["10.0.0.1-10.0.0.2"%string; "10.0.0.3"%string].
Proof.
  apply (mutateReservedIP_validates (MR := ordered_range) (MkReservedIPWebhook true false)
    (MkReservedIP (plain_meta "" "r" "") (Some IPv4) ["10.0.0.1-10.0.0.2"; "10.0.0.3"]) IPv4);
    [reflexivity|discriminate|reflexivity|reflexivity| |by vm_compute|];
    apply (bool_decide_unpack _); vm_compute; exact I.
Defined.
