(* ===== verification/Convert.v ===== *)
(** * pkg/utils/convert/convert.go and pkg/types/ip.go: allocation results and their records

    The conversions between allocation results, the details kept in a SpiderEndpoint and the IPs
    and routes returned to the CNI plugin, the JSON status fields, and the grouping of details
    by pool that drives the release of addresses. *)

From S2P Require Import Prelude NetIP NetIPFacts IPAddr Cidr IPRange K8s.
Local Open Scope Z_scope.
Local Open Scope go_scope.

(** ** Data *)

(** [models.IPConfig]; the pointers to required fields are never nil in the values built here. *)
Record IPConfig := MkIPConfig {
  Address : string;
  EnableGatewayDetection : bool;
  EnableIPConflictDetection : bool;
  Gateway : string;
  cfg_IPPool : string;
  Mac : string;
  Nic : string;
  Version : Z;
  cfg_Vlan : Z
}.

(** [models.Route]; a [*models.Route] is an option, nil being [None]. *)
Record OAIRoute := MkOAIRoute { IfName : string; oai_Dst : string; oai_Gw : string }.

Record AllocationResult := MkResult { res_IP : IPConfig; res_Routes : list (option OAIRoute); res_CleanGateway : bool }.

Record IPAndUID := MkIPAndUID { iu_IP : string; iu_UID : string }.
Abbreviation PoolNameToIPAndUIDs := (gmap string (list IPAndUID)).

#[export] Instance IPConfig_eq_dec : EqDecision IPConfig.
Proof. solve_decision. Defined.
#[export] Instance OAIRoute_eq_dec : EqDecision OAIRoute.
Proof. solve_decision. Defined.
#[export] Instance IPAndUID_eq_dec : EqDecision IPAndUID.
Proof. solve_decision. Defined.

Definition Pools `{MapRange} (pius : PoolNameToIPAndUIDs) : list string := range_keys pius.

(** ** Routes *)

Definition genDefaultRoute (nic gateway : string) : option OAIRoute :=
  let route := if IsIPv4 gateway then Some (MkOAIRoute nic "0.0.0.0/0" gateway) else None in
  if IsIPv6 gateway then Some (MkOAIRoute nic "::/0" gateway) else route.

Definition ConvertAnnoPodRoutesToOAIRoutes (annoPodRoutes : list (string * string)) : list (option OAIRoute) :=
  (λ '(dst, gw), Some (MkOAIRoute "" dst gw)) <$> annoPodRoutes.

Definition ConvertSpecRoutesToOAIRoutes (nic : string) (specRoutes : list Route) : list (option OAIRoute) :=
  (λ r, Some (MkOAIRoute nic (Dst r) (Gw r))) <$> specRoutes.

Fixpoint ConvertOAIRoutesToSpecRoutes (oaiRoutes : list (option OAIRoute)) : outcome (list Route) :=
  match oaiRoutes with
  | [] => Ret []
  | r :: rs =>
      r ← deref r;
      routes ← ConvertOAIRoutesToSpecRoutes rs;
      Ret (MkRoute (oai_Dst r) (oai_Gw r) :: routes)
  end.

(** ** Results and endpoint details *)

(** One family of a detail: its config and its default route. *)
Definition detail_family (version : Z) (nic : string) (addr pool gw : option string)
    (clean : option bool) (vlan : option Z) (conflict gwdetect : bool)
    : outcome (list IPConfig * list (option OAIRoute)) :=
  match addr with
  | None => Ret ([], [])
  | Some address =>
      let '(gateway, routes) :=
        match gw with
        | None => (""%string, [])
        | Some g =>
            (g, if (clean == None) || negb (default false clean) then [genDefaultRoute nic g] else [])
        end in
      pool ← deref pool;
      vlan ← deref vlan;
      Ret ([MkIPConfig address gwdetect conflict gateway pool "" nic version vlan], routes)
  end.

Fixpoint ConvertIPDetailsToIPConfigsAndAllRoutes (details : list IPAllocationDetail)
    (enableIPConflictDetection enableGatewayDetection : bool) : outcome (list IPConfig * list (option OAIRoute)) :=
  match details with
  | [] => Ret ([], [])
  | d :: details =>
      '(ips4, routes4) ← detail_family IPv4 (NIC d) (d_IPv4 d) (IPv4Pool d) (IPv4Gateway d) (CleanGateway d) (Vlan d)
                           enableIPConflictDetection enableGatewayDetection;
      '(ips6, routes6) ← detail_family IPv6 (NIC d) (d_IPv6 d) (IPv6Pool d) (IPv6Gateway d) (CleanGateway d) (Vlan d)
                           enableIPConflictDetection enableGatewayDetection;
      '(ips, routes) ← ConvertIPDetailsToIPConfigsAndAllRoutes details enableIPConflictDetection enableGatewayDetection;
      Ret (ips4 ++ ips6 ++ ips,
           routes4 ++ routes6 ++ ConvertSpecRoutesToOAIRoutes (NIC d) (d_Routes d) ++ routes)
  end.

Fixpoint ConvertResultsToIPConfigsAndAllRoutes (results : list AllocationResult)
    : list IPConfig * list (option OAIRoute) :=
  match results with
  | [] => ([], [])
  | r :: results =>
      let '(ips, routes) := ConvertResultsToIPConfigsAndAllRoutes results in
      let dflt := if res_CleanGateway r then []
                  else if Gateway (res_IP r) == EmptyString then []
                  else [genDefaultRoute (Nic (res_IP r)) (Gateway (res_IP r))] in
      (res_IP r :: ips, res_Routes r ++ dflt ++ routes)
  end.

(** A non-empty string as a pointer to it, the empty one as nil. *)
Definition ptr_nonempty (s : string) : option string :=
  if s == EmptyString then None else Some s.

(** The body of the loop of [ConvertResultsToIPDetails]. *)
Definition add_result (m : gmap string IPAllocationDetail) (r : AllocationResult) : outcome (gmap string IPAllocationDetail) :=
  let ip := res_IP r in
  let gateway := ptr_nonempty (Gateway ip) in
  let cleanGateway := if Gateway ip == EmptyString then None else Some (res_CleanGateway r) in
  routes ← ConvertOAIRoutesToSpecRoutes (res_Routes r);
  match m !! Nic ip with
  | Some d =>
      let mac := match MAC d with None => ptr_nonempty (Mac ip) | Some _ => MAC d end in
      let d :=
        if Version ip =? IPv4
        then MkDetail (NIC d) (Some (Address ip)) (d_IPv6 d) (Some (cfg_IPPool ip)) (IPv6Pool d) (Vlan d)
               gateway (IPv6Gateway d) (CleanGateway d) (d_Routes d ++ routes) mac
        else MkDetail (NIC d) (d_IPv4 d) (Some (Address ip)) (IPv4Pool d) (Some (cfg_IPPool ip)) (Vlan d)
               (IPv4Gateway d) gateway (CleanGateway d) (d_Routes d ++ routes) mac in
      Ret (<[Nic ip := d]> m)
  | None =>
      let mac := ptr_nonempty (Mac ip) in
      let d :=
        if Version ip =? IPv4
        then MkDetail (Nic ip) (Some (Address ip)) None (Some (cfg_IPPool ip)) None (Some (cfg_Vlan ip))
               gateway None cleanGateway routes mac
        else MkDetail (Nic ip) None (Some (Address ip)) None (Some (cfg_IPPool ip)) (Some (cfg_Vlan ip))
               None gateway cleanGateway routes mac in
      Ret (<[Nic ip := d]> m)
  end.

Fixpoint add_results (m : gmap string IPAllocationDetail) (results : list AllocationResult)
    : outcome (gmap string IPAllocationDetail) :=
  match results with
  | [] => Ret m
  | r :: results => m ← add_result m r; add_results m results
  end.

(** [strconv.Atoi] *)
Fixpoint atoi_digits (s : string) (n : Z) : option Z :=
  match s with
  | EmptyString => Some n
  | String c s => d ← digit_val c; atoi_digits s (n * 10 + d)
  end.
Definition atoi (s : string) : option Z :=
  let '(neg, body) :=
    match s with
    | String c s' => if c == "-"%char then (true, s') else if c == "+"%char then (false, s') else (false, s)
    | EmptyString => (false, s)
    end in
  if body == EmptyString then None
  else n ← atoi_digits body 0;
       let z := if neg : bool then - n else n in
       if bool_decide (- 2 ^ 63 ≤ z < 2 ^ 63) then Some z else None.

(** The comparison given to [sort.Slice].  The NICs are the keys of a map and, in the mode without
    names, distinct numbers: the comparison has no ties, and [merge_sort], which is stable where
    [sort.Slice] is not, gives the order that every sort gives. *)
Definition nic_less (a b : IPAllocationDetail) : bool :=
  match atoi (NIC a), atoi (NIC b) with Some x, Some y => x <? y | _, _ => false end.
Definition nic_le (a b : IPAllocationDetail) : Prop := nic_less b a = false.
#[export] Instance nic_le_dec : RelDecision nic_le.
Proof. intros a b. unfold nic_le. apply _. Defined.

Definition ClusterDefaultInterfaceName : string := "eth0".

Definition set_NIC (nic : string) (d : IPAllocationDetail) : IPAllocationDetail :=
  MkDetail nic (d_IPv4 d) (d_IPv6 d) (IPv4Pool d) (IPv6Pool d) (Vlan d) (IPv4Gateway d) (IPv6Gateway d)
    (CleanGateway d) (d_Routes d) (MAC d).

(** The names in multi-NIC mode without names: "eth0" for the first, empty for the others. *)
Definition rename_nics (l : list IPAllocationDetail) : list IPAllocationDetail :=
  match l with
  | [] => []
  | d :: l => set_NIC ClusterDefaultInterfaceName d :: (set_NIC "" <$> l)
  end.

Section maps.
Context `{MR : MapRange}.

Definition ConvertResultsToIPDetails (results : list AllocationResult) (isMultipleNicWithNoName : bool)
    : outcome (list IPAllocationDetail) :=
  nicToDetail ← add_results ∅ results;
  let details := snd <$> range_kv nicToDetail in
  Ret (if isMultipleNicWithNoName then rename_nics (merge_sort nic_le details) else details).
End maps.

(** ** Details by pool *)

Definition push_pool (pius : PoolNameToIPAndUIDs) (uid : string) (addr pool : option string) : outcome PoolNameToIPAndUIDs :=
  match addr with
  | None => Ret pius
  | Some a =>
      pool ← deref pool;
      ip ← index (split "/" a) 0;
      Ret (<[pool := default [] (pius !! pool) ++ [MkIPAndUID ip uid]]> pius)
  end.

Fixpoint group_loop (uid : string) (details : list IPAllocationDetail) (pius : PoolNameToIPAndUIDs) : outcome PoolNameToIPAndUIDs :=
  match details with
  | [] => Ret pius
  | d :: details =>
      pius ← push_pool pius uid (d_IPv4 d) (IPv4Pool d);
      pius ← push_pool pius uid (d_IPv6 d) (IPv6Pool d);
      group_loop uid details pius
  end.

Definition GroupIPAllocationDetails (uid : string) (details : list IPAllocationDetail) : outcome PoolNameToIPAndUIDs :=
  group_loop uid details ∅.

(** ** Results of an allocation *)

(** [Spec.IPVersion] and [Spec.Subnet] have been validated; the error of [ParseIP] is ignored and
    its nil result dereferenced. *)
Definition GenIPConfigResult (allocateIP : IP) (nic : string) (ipPool : SpiderIPPool) : outcome IPConfig :=
  version ← deref (ps_IPVersion (pool_spec ipPool));
  ipNet ← match ParseIP version (ps_Subnet (pool_spec ipPool)) true with
          | Fail _ => Panic
          | o => o
          end;
  let address := net_string (MkIPNet allocateIP (net_mask ipNet)) in
  Ret (MkIPConfig address false false (default ""%string (ps_Gateway (pool_spec ipPool)))
         (Name (pool_meta ipPool)) "" nic version 0).

(** ** Status fields *)

Section status.
Context `{J : JSON PoolIPAllocations} `{J' : JSON PoolIPPreAllocations}.

Definition UnmarshalIPPoolAllocatedIPs (data : option string) : outcome PoolIPAllocations :=
  match data with
  | None => Ret ∅
  | Some d => match json_unmarshal d with Some records => Ret records | None => Fail (ErrOther "json.Unmarshal") end
  end.

Definition MarshalIPPoolAllocatedIPs (records : PoolIPAllocations) : option string :=
  if (size records =? 0)%nat then None else Some (json_marshal records).

Definition UnmarshalSubnetAllocatedIPPools (data : option string) : outcome PoolIPPreAllocations :=
  match data with
  | None => Ret ∅
  | Some d => match json_unmarshal d with Some records => Ret records | None => Fail (ErrOther "json.Unmarshal") end
  end.

Definition MarshalSubnetAllocatedIPPools (preAllocations : PoolIPPreAllocations) : option string :=
  if (size preAllocations =? 0)%nat then None else Some (json_marshal preAllocations).

Lemma Unmarshal_Marshal `{!JSONLaws PoolIPAllocations} records :
  UnmarshalIPPoolAllocatedIPs (MarshalIPPoolAllocatedIPs records) = Ret records.
Proof.
  unfold MarshalIPPoolAllocatedIPs. destruct (Nat.eqb_spec (size records) 0) as [E|E]; cbn.
  - by rewrite (map_size_empty_inv _ E).
  - by rewrite json_roundtrip.
Qed.

Lemma UnmarshalSubnet_Marshal `{!JSONLaws PoolIPPreAllocations} records :
  UnmarshalSubnetAllocatedIPPools (MarshalSubnetAllocatedIPPools records) = Ret records.
Proof.
  unfold MarshalSubnetAllocatedIPPools. destruct (Nat.eqb_spec (size records) 0) as [E|E]; cbn.
  - by rewrite (map_size_empty_inv _ E).
  - by rewrite json_roundtrip.
Qed.
End status.

(** ** From results to what is released *)

(** One family of a detail: its address and its pool. *)
Definition family (v4 : bool) (d : IPAllocationDetail) : option string * option string :=
  if v4 then (d_IPv4 d, IPv4Pool d) else (d_IPv6 d, IPv6Pool d).

Definition result_v4 (r : AllocationResult) : bool := Version (res_IP r) =? IPv4.
Definition result_key (r : AllocationResult) : string * bool := (Nic (res_IP r), result_v4 r).
Definition result_family (r : AllocationResult) : option string * option string :=
  (Some (Address (res_IP r)), Some (cfg_IPPool (res_IP r))).

(** The address without its prefix length. *)
Definition bare_address (a : string) : string := default ""%string (head (split "/" a)).

Definition routes_ok (r : AllocationResult) : Prop := Forall is_Some (res_Routes r).

Lemma ConvertOAIRoutes_total l : Forall is_Some l → ∃ routes, ConvertOAIRoutesToSpecRoutes l = Ret routes.
Proof.
  induction 1 as [|r l [x ->] _ [routes IH]]; cbn [ConvertOAIRoutesToSpecRoutes]; [by eexists|]. rewrite IH. cbn. by eexists.
Qed.

(** The details built from a list of results. *)
Definition describes (m : gmap string IPAllocationDetail) (rs : list AllocationResult) : Prop :=
  ∀ nic v4, let f := from_option (family v4) (None, None) (m !! nic) in
    (f = (None, None) ∧ ∀ r, r ∈ rs → result_key r ≠ (nic, v4)) ∨
    (∃ r, r ∈ rs ∧ result_key r = (nic, v4) ∧ f = result_family r).

Lemma add_result_describes m rs r :
  describes m rs → routes_ok r → result_key r ∉ result_key <$> rs →
  ∃ m', add_result m r = Ret m' ∧ describes m' (rs ++ [r]).
Proof.
  intros Hm [routes Hr]%ConvertOAIRoutes_total Hnew. unfold add_result. rewrite Hr. cbn [mbind outcome_bind].
  assert (∀ d', family (result_v4 r) d' = result_family r →
    family (negb (result_v4 r)) d' = from_option (family (negb (result_v4 r))) (None, None) (m !! Nic (res_IP r)) →
    describes (<[Nic (res_IP r) := d']> m) (rs ++ [r])) as Hins.
  { intros d' H1 H2 nic v4. cbn zeta. destruct (decide (nic = Nic (res_IP r))) as [->|Hne].
    - rewrite lookup_insert_eq. cbn [from_option]. destruct (decide (v4 = result_v4 r)) as [->|Hv].
      + right. exists r. set_solver.
      + assert (v4 = negb (result_v4 r)) as -> by (by destruct v4, (result_v4 r)). rewrite H2.
        destruct (Hm (Nic (res_IP r)) (negb (result_v4 r))) as [[-> Hn]|(r' & ? & ? & ?)]; [left|right; exists r'; set_solver].
        split; [done|]. intros r' [?| ->%list_elem_of_singleton]%elem_of_app; [by apply Hn|].
        unfold result_key. intros [= E]. by destruct (result_v4 r).
    - rewrite lookup_insert_ne by done.
      destruct (Hm nic v4) as [[Hf Hn]|(r' & ? & ? & ?)]; [left|right; exists r'; set_solver].
      split; [done|]. intros r' [?| ->%list_elem_of_singleton]%elem_of_app; [by apply Hn|]. unfold result_key. congruence. }
  unfold result_v4, result_family in Hins.
  destruct (m !! Nic (res_IP r)) as [d|], (Version (res_IP r) =? IPv4); eexists; (split; [reflexivity|]); by apply Hins.
Qed.

Lemma add_results_describes m rs0 rs :
  describes m rs0 → Forall routes_ok rs → NoDup (result_key <$> rs0 ++ rs) →
  ∃ m', add_results m rs = Ret m' ∧ describes m' (rs0 ++ rs).
Proof.
  revert m rs0. induction rs as [|r rs IH]; intros m rs0 Hm Hok Hnd; cbn [add_results].
  { exists m. by rewrite app_nil_r. }
  apply Forall_cons in Hok as [Hr Hok]. destruct (add_result_describes m rs0 r) as (m1 & -> & Hm1); [done..| |].
  { rewrite fmap_app, fmap_cons in Hnd. apply NoDup_app in Hnd as (_ & Hd & _). intros Hin. apply (Hd _ Hin), list_elem_of_here. }
  cbn. replace (rs0 ++ r :: rs) with ((rs0 ++ [r]) ++ rs) in * by (by rewrite <- app_assoc). by apply IH.
Qed.

(** Details whose addresses come with their pool. *)
Definition paired (d : IPAllocationDetail) : Prop :=
  ∀ v4, family v4 d = (None, None) ∨ ∃ a p, family v4 d = (Some a, Some p).

Lemma push_pool_spec pius uid a p :
  ∃ pius', push_pool pius uid (Some a) (Some p) = Ret pius' ∧
    ∀ pool iu, iu ∈ default [] (pius' !! pool) ↔
      iu ∈ default [] (pius !! pool) ∨ (pool = p ∧ iu = MkIPAndUID (bare_address a) uid).
Proof.
  unfold push_pool, bare_address. cbn. destruct (split "/" a) as [|x l] eqn:E; [by apply split_nonempty in E|]. cbn.
  eexists. split; [reflexivity|]. intros pool iu. destruct (decide (pool = p)) as [->|Hne].
  - rewrite lookup_insert_eq. cbn. rewrite elem_of_app, list_elem_of_singleton. naive_solver.
  - rewrite lookup_insert_ne by done. naive_solver.
Qed.

Lemma push_family_spec pius uid v4 d : paired d →
  ∃ pius', push_pool pius uid (family v4 d).1 (family v4 d).2 = Ret pius' ∧
    ∀ pool iu, iu ∈ default [] (pius' !! pool) ↔
      iu ∈ default [] (pius !! pool) ∨ ∃ a, family v4 d = (Some a, Some pool) ∧ iu = MkIPAndUID (bare_address a) uid.
Proof.
  intros Hd. destruct (Hd v4) as [->|(a & p & ->)].
  - exists pius. split; [done|]. naive_solver.
  - destruct (push_pool_spec pius uid a p) as (pius' & E & H). exists pius'. split; [done|]. intros pool iu. rewrite H.
    split; [intros [?|[-> ->]]; eauto|intros [?|(a' & [= -> ->] & ->)]; auto].
Qed.

Lemma group_loop_spec uid details pius : Forall paired details →
  ∃ pius', group_loop uid details pius = Ret pius' ∧
    ∀ pool iu, iu ∈ default [] (pius' !! pool) ↔
      iu ∈ default [] (pius !! pool) ∨
      ∃ d v4 a, d ∈ details ∧ family v4 d = (Some a, Some pool) ∧ iu = MkIPAndUID (bare_address a) uid.
Proof.
  intros Hd. revert pius. induction Hd as [|d details Hd _ IH]; intros pius; cbn [group_loop].
  { exists pius. split; [done|]. set_solver. }
  destruct (push_family_spec pius uid true d Hd) as (p1 & E1 & H1). cbn [family fst snd] in E1. rewrite E1. cbn [mbind outcome_bind].
  destruct (push_family_spec p1 uid false d Hd) as (p2 & E2 & H2). cbn [family fst snd] in E2. rewrite E2. cbn [mbind outcome_bind].
  destruct (IH p2) as (p3 & E3 & H3). exists p3. split; [done|]. intros pool iu. rewrite H3, H2, H1. setoid_rewrite elem_of_cons.
  split.
  - intros [[[?|(a & ? & ?)]|(a & ? & ?)]|(d' & v4 & a & ? & ? & ?)]; [by left|right; exists d, true, a; auto|
      right; exists d, false, a; auto|right; exists d', v4, a; auto].
  - intros [?|(d' & v4 & a & [->|?] & ? & ?)]; [by left; left; left| |right; exists d', v4, a; auto].
    left. destruct v4; [left; right|right]; eauto.
Qed.

(** Every grouped address carries the UID it is released for. *)
Lemma group_loop_uid uid details pius pius' :
  group_loop uid details pius = Ret pius' →
  (∀ pool ius, pius !! pool = Some ius → Forall (λ iu, iu_UID iu = uid) ius) →
  ∀ pool ius, pius' !! pool = Some ius → Forall (λ iu, iu_UID iu = uid) ius.
Proof.
  assert (∀ pius a p pius', push_pool pius uid a p = Ret pius' →
    (∀ pool ius, pius !! pool = Some ius → Forall (λ iu, iu_UID iu = uid) ius) →
    ∀ pool ius, pius' !! pool = Some ius → Forall (λ iu, iu_UID iu = uid) ius) as Hpush.
  { intros m [a|] p m'; cbn; [|by intros [= <-]]. intros E Hm. apply bind_Ret in E as (q & _ & E).
    apply bind_Ret in E as (ip & _ & [= <-]). intros pool ius [[<- <-]|[_ ?]]%lookup_insert_Some; [|by eapply Hm].
    apply Forall_app. split; [|by repeat constructor]. destruct (m !! q) eqn:Eq; [by eapply Hm|constructor]. }
  revert pius. induction details as [|d details IH]; intros pius; cbn [group_loop]; [by intros [= <-]|].
  intros E Hp. apply bind_Ret in E as (p1 & E1 & E). apply bind_Ret in E as (p2 & E2 & E).
  eapply IH; [exact E|]. eapply Hpush; [exact E2|]. by eapply Hpush.
Qed.

Lemma GroupIPAllocationDetails_uid uid details pius pool ius iu :
  GroupIPAllocationDetails uid details = Ret pius → pius !! pool = Some ius → iu ∈ ius → iu_UID iu = uid.
Proof.
  intros E Hp. apply (group_loop_uid _ _ _ _ E) in Hp; [rewrite Forall_forall in Hp; apply Hp|].
  intros ? ?. by rewrite lookup_empty.
Qed.

Lemma rename_nics_family v4 l : family v4 <$> rename_nics l = family v4 <$> l.
Proof.
  assert (∀ nic d, family v4 (set_NIC nic d) = family v4 d) as H by (by destruct v4).
  destruct l as [|d l]; [done|]. unfold rename_nics. rewrite !fmap_cons, H. f_equal. rewrite <- list_fmap_compose.
  apply list_fmap_ext. intros i d' _. apply H.
Qed.

Section results.
Context `{MR : MapRange}.

Lemma ConvertResults_families results b m :
  add_results ∅ results = Ret m →
  ∃ details, ConvertResultsToIPDetails results b = Ret details ∧
    ∀ v4 f, (∃ d, d ∈ details ∧ family v4 d = f) ↔ ∃ nic d, m !! nic = Some d ∧ family v4 d = f.
Proof.
  intros Em. eexists. split; [unfold ConvertResultsToIPDetails; rewrite Em; reflexivity|]. cbn zeta.
  set (vals := snd <$> range_kv m). intros v4 f.
  assert ((∃ nic d, m !! nic = Some d ∧ family v4 d = f) ↔ f ∈ family v4 <$> vals) as ->.
  { rewrite list_elem_of_fmap. split.
    - intros (nic & d & Hd & <-). exists d. split; [done|]. apply list_elem_of_fmap. exists (nic, d). by rewrite elem_of_range_kv.
    - intros (d & -> & ([nic d'] & -> & ?%elem_of_range_kv)%list_elem_of_fmap). eauto. }
  assert (∀ l, (∃ d, d ∈ l ∧ family v4 d = f) ↔ f ∈ family v4 <$> l) as -> by (intros l; rewrite list_elem_of_fmap; naive_solver).
  destruct b; [|done]. by rewrite rename_nics_family, (merge_sort_Permutation nic_le vals).
Qed.

Lemma describes_family m results v4 a p : describes m results → NoDup (result_key <$> results) →
  (∃ nic d, m !! nic = Some d ∧ family v4 d = (Some a, Some p)) ↔
  ∃ r, r ∈ results ∧ result_v4 r = v4 ∧ result_family r = (Some a, Some p).
Proof.
  intros Hm Hnd. split.
  - intros (nic & d & Hd & E). specialize (Hm nic v4). rewrite Hd in Hm. cbn in Hm.
    destruct Hm as [[E' _]|(r & ? & [= _ ?] & E')]; rewrite E' in E; [done|eauto].
  - intros (r & Hr & <- & E).
    destruct (Hm (Nic (res_IP r)) (result_v4 r)) as [[_ Hn]|(r' & Hr' & Ek & E')]; [by destruct (Hn r Hr)|].
    assert (r' = r) as ->.
    { apply list_elem_of_lookup in Hr as [i Hi], Hr' as [j Hj]. assert (i = j) as ->; [|congruence].
      eapply (NoDup_lookup _ i j); [exact Hnd|..]; rewrite list_lookup_fmap, ?Hi, ?Hj; [done|]. cbn. by rewrite Ek. }
    destruct (m !! Nic (res_IP r)) as [d|] eqn:Hd; [|done]. cbn in E'. exists (Nic (res_IP r)), d. by rewrite E'.
Qed.

(** The details recorded for a set of allocation results, one per NIC and family, grouped by
    pool, are exactly the addresses of the results: releasing by the recorded details misses
    none of the allocated addresses and touches no other. *)
Theorem release_covers_results uid results b :
  Forall routes_ok results → NoDup (result_key <$> results) →
  ∃ details pius, ConvertResultsToIPDetails results b = Ret details ∧ GroupIPAllocationDetails uid details = Ret pius ∧
    ∀ pool iu, iu ∈ default [] (pius !! pool) ↔
      ∃ r, r ∈ results ∧ cfg_IPPool (res_IP r) = pool ∧ iu = MkIPAndUID (bare_address (Address (res_IP r))) uid.
Proof.
  intros Hok Hnd. destruct (add_results_describes ∅ [] results) as (m & Em & Hm); [|done|done|].
  { intros nic v4. left. split; [by rewrite lookup_empty|]. intros r Hr. by apply elem_of_nil in Hr. }
  cbn [app] in Hm. destruct (ConvertResults_families results b m Em) as (details & Ed & Hf).
  assert (Forall paired details) as Hp.
  { apply Forall_forall. intros d Hd v4. destruct (proj1 (Hf v4 (family v4 d))) as (nic & d' & Hd' & <-); [by exists d|].
    specialize (Hm nic v4). rewrite Hd' in Hm. cbn in Hm. destruct Hm as [[-> _]|(r & _ & _ & ->)]; [by left|right; by eexists _, _]. }
  destruct (group_loop_spec uid details ∅ Hp) as (pius & Eg & Hg). exists details, pius. split_and!; [done..|].
  intros pool iu. rewrite Hg, lookup_empty. cbn [default]. split.
  - intros [[]%elem_of_nil|(d & v4 & a & Hd & E & ->)]. destruct (proj1 (Hf v4 _) (ex_intro _ d (conj Hd E))) as (nic & d' & H).
    destruct (proj1 (describes_family m results v4 a pool Hm Hnd)) as (r & Hr & _ & [= Ea Ep]); [eauto|].
    exists r. by rewrite Ea, Ep.
  - intros (r & Hr & <- & ->). right.
    destruct (proj2 (describes_family m results (result_v4 r) (Address (res_IP r)) (cfg_IPPool (res_IP r)) Hm Hnd)) as (nic & d & H1 & H2);
      [by exists r|].
    destruct (proj2 (Hf _ _) (ex_intro _ nic (ex_intro _ d (conj H1 H2)))) as (d' & ? & ?). by exists d', (result_v4 r), (Address (res_IP r)).
Qed.
End results.

Definition ex_result (address gw pool nic : string) (version : Z) (clean : bool) : AllocationResult :=
  MkResult (MkIPConfig address false false gw pool "" nic version 0) [] clean.

Lemma release_covers_results_witness :
  let results := [ex_result "10.0.0.2/24" "" "v4-pool" "eth0" IPv4 false; ex_result "fd00::2/64" "" "v6-pool" "eth0" IPv6 false;
                  ex_result "10.1.0.2/24" "" "v4-pool" "net1" IPv4 false] in
  ∃ details pius, @ConvertResultsToIPDetails ordered_range results false = Ret details ∧
    GroupIPAllocationDetails "uid" details = Ret pius ∧
    ∀ pool iu, iu ∈ default [] (pius !! pool) ↔
      ∃ r, r ∈ results ∧ cfg_IPPool (res_IP r) = pool ∧ iu = MkIPAndUID (bare_address (Address (res_IP r))) "uid".
Proof.
  intros results. apply (@release_covers_results ordered_range "uid" results false).
  - repeat constructor.
  - apply (bool_decide_unpack _). vm_compute. exact I.
Defined.

(** When the first family of a NIC has no gateway, the details forget that the default route
    was to be left out: the results give no default route, the details recorded from them do. *)
Theorem clean_gateway_forgotten :
  let results := [ex_result "10.0.0.2/24" "" "v4-pool" "eth0" IPv4 true; ex_result "fd00::2/64" "fd00::1" "v6-pool" "eth0" IPv6 true] in
  (ConvertResultsToIPConfigsAndAllRoutes results).2 = [] ∧
  ∃ details ips, @ConvertResultsToIPDetails ordered_range results false = Ret details ∧
    ConvertIPDetailsToIPConfigsAndAllRoutes details false false = Ret (ips, [Some (MkOAIRoute "eth0" "::/0" "fd00::1")]).
Proof. split; [vm_compute; reflexivity|]. eexists _, _. split; [vm_compute; reflexivity|]. vm_compute. reflexivity. Qed.
