(* ===== verification/IPPoolManager.v ===== *)
(** * pkg/ippoolmanager: allocation and release of addresses

    [AllocateIP], [ReleaseIP] and [UpdateAllocatedIPs] change the allocation records in the
    status of a SpiderIPPool, each as a loop of read-compute-write attempts against the API
    server.  [genRandomIP], the core of the allocation, is a function on the pool that was read. *)

From S2P Require Import Prelude NetIP NetIPFacts IPAddr Cidr IPRange K8s Retry ReservedIP Convert.
Local Open Scope Z_scope.
Local Open Scope go_scope.

(** ** Configuration and pods *)

Record IPPoolManagerConfig := MkPoolConfig {
  MaxAllocatedIPs : option Z;
  EnableKubevirtStaticIP : bool;
  cfg_EnableGatewayDetection : bool;
  cfg_EnableIPConflictDetection : bool
}.

Definition defaultMaxAllocatedIPs : Z := 5000.

Definition setDefaultsForIPPoolManagerConfig (config : IPPoolManagerConfig) : IPPoolManagerConfig :=
  match MaxAllocatedIPs config with
  | None => MkPoolConfig (Some defaultMaxAllocatedIPs) (EnableKubevirtStaticIP config)
              (cfg_EnableGatewayDetection config) (cfg_EnableIPConflictDetection config)
  | Some _ => config
  end.

Record AppNamespacedName := MkApp { app_APIVersion : string; app_Kind : string; app_Namespace : string; app_Name : string }.

(** [types.PodTopController]; the typed object [APP] is not used here. *)
Record PodTopController := MkTopController { top_app : AppNamespacedName; top_UID : string }.

Definition KubevirtGroupVersion : string := "kubevirt.io/v1".
Definition KindKubevirtVMI : string := "VirtualMachineInstance".

(** ** genRandomIP *)

(** The loop over the allocation records: the address already recorded for the Pod, or the
    addresses in use. *)
Fixpoint scan_records (records : list (string * PoolIPAllocation)) (podUID : string) (used : list string)
    : string + list string :=
  match records with
  | [] => inr used
  | (ip, record) :: records =>
      if PodUID record == podUID then inl ip
      else scan_records records podUID (used ++ [ip])
  end.

Definition findAllocatedIPFromRecords (records : list (string * PoolIPAllocation)) (namespacedName podUID : string)
    : option string :=
  (λ p, p.2.1) <$> list_find (λ p, NamespacedName p.2 = namespacedName ∧ PodUID p.2 = podUID) records.

Definition set_pool_status (st : IPPoolStatus) (p : SpiderIPPool) : SpiderIPPool :=
  MkIPPool (pool_meta p) (pool_spec p) st.

(** The key of the Pod under which its allocation is recorded. *)
Definition allocation_key (config : IPPoolManagerConfig) (pod : ObjectMeta) (podController : PodTopController) : string :=
  let tmpPod :=
    if EnableKubevirtStaticIP config
       && (app_APIVersion (top_app podController) == KubevirtGroupVersion)
       && (app_Kind (top_app podController) == KindKubevirtVMI)
    then set_Name (app_Name (top_app podController)) pod
    else pod in
  MetaNamespaceKey tmpPod.

Section genRandomIP.
Context `{MR : MapRange} `{J : JSON PoolIPAllocations}.
Context (config : IPPoolManagerConfig) (rIPs : list SpiderReservedIP).

(** The free address, or the one recorded for the Pod when there is none. *)
Definition pick_address (version : Z) (ipPool : SpiderIPPool) (reservedIPs usedIPs unAvailableIPs : list IP)
    (records : PoolIPAllocations) (key podUID : string) : outcome IP :=
  availableIPs ← FindAvailableIPs (ps_IPs (pool_spec ipPool)) (unAvailableIPs ++ (reservedIPs ++ usedIPs)) 1;
  availableIPs ←
    (if (length availableIPs =? 0)%nat then
       match findAllocatedIPFromRecords (range_kv records) key podUID with
       | None => Fail ErrIPUsedOut
       | Some previous => ParseIPRange version previous
       end
     else Ret availableIPs);
  index availableIPs 0.

(** The address, and the pool with its new status. *)
Definition genRandomIP (ipPool : SpiderIPPool) (pod : ObjectMeta) (podController : PodTopController)
    : outcome (IP * SpiderIPPool) :=
  let key := allocation_key config pod podController in
  version ← deref (ps_IPVersion (pool_spec ipPool));
  reservedIPs ← AssembleReservedIPs rIPs version;
  allocatedRecords ← UnmarshalIPPoolAllocatedIPs (AllocatedIPs (pool_status ipPool));
  match scan_records (range_kv allocatedRecords) (UID pod) [] with
  | inl ip => Ret (net_ParseIP ip, ipPool)
  | inr used =>
      usedIPs ← ParseIPRanges version used;
      unAvailableIPs ← ParseIPRanges version (ps_ExcludeIPs (pool_spec ipPool));
      resIP ← pick_address version ipPool reservedIPs usedIPs unAvailableIPs allocatedRecords key (UID pod);
      let allocatedRecords := <[ip_string resIP := MkPoolIPAllocation key (UID pod)]> allocatedRecords in
      let count := Z.of_nat (length usedIPs) + 1 in
      max ← deref (MaxAllocatedIPs config);
      if max <? count then Fail ErrIPUsedOut
      else Ret (resIP, set_pool_status
             (MkIPPoolStatus (MarshalIPPoolAllocatedIPs allocatedRecords)
                (TotalIPCount (pool_status ipPool)) (Some count)) ipPool)
  end.
End genRandomIP.

(** ** The operations *)

Definition release_record (records : PoolIPAllocations) (iu : IPAndUID) : PoolIPAllocations :=
  match records !! iu_IP iu with
  | Some record => if PodUID record == iu_UID iu then delete (iu_IP iu) records else records
  | None => records
  end.

(** Whether the loop of [ReleaseIP] removes something. *)
Fixpoint releases (records : PoolIPAllocations) (ius : list IPAndUID) : bool :=
  match ius with
  | [] => false
  | iu :: ius =>
      match records !! iu_IP iu with
      | Some record => if PodUID record == iu_UID iu then true else releases records ius
      | None => releases records ius
      end
  end.

(** The loop of [UpdateAllocatedIPs]: the new records and whether one changed. *)
Fixpoint update_records (namespacedName : string) (records : PoolIPAllocations) (ius : list IPAndUID) (recreate : bool)
    : outcome (PoolIPAllocations * bool) :=
  match ius with
  | [] => Ret (records, recreate)
  | iu :: ius =>
      match records !! iu_IP iu with
      | None => update_records namespacedName records ius recreate
      | Some record =>
          if NamespacedName record != namespacedName then Fail (ErrOther "data broken")
          else if PodUID record != iu_UID iu then
            update_records namespacedName
              (<[iu_IP iu := MkPoolIPAllocation (NamespacedName record) (iu_UID iu)]> records) ius true
          else update_records namespacedName records ius recreate
      end
  end.

Definition exhausted (e : error) : error := if e == WaitInterrupted then ErrRetriesExhausted else e.

Section manager.
Context `{MR : MapRange} `{J : JSON PoolIPAllocations} {S : Type} `{KS : KubeStore S SpiderIPPool}.
Context (config : IPPoolManagerConfig).
(** What the cache of reserved IPs holds at attempt [i], what other clients do before the read
    ([2 * i]) and before the write ([2 * i + 1]) of attempt [i], and when the context ends. *)
Context (rIPs : nat → list SpiderReservedIP) (env : nat → S → S) (cancelled : nat → bool).

Definition GetIPPoolByName (poolName : string) : cmd S SpiderIPPool := read (λ s, api_get s poolName).

Definition UpdateStatus (ipPool : SpiderIPPool) : cmd S unit := λ s, api_update_status s ipPool.

Definition allocate_attempt (poolName nic : string) (pod : ObjectMeta) (podController : PodTopController)
    (i : nat) : cmd S IPConfig :=
  _ ← meanwhile (env (2 * i));
  ipPool ← GetIPPoolByName poolName;
  '(allocatedIP, ipPool) ← lift (genRandomIP config (rIPs i) ipPool pod podController);
  _ ← meanwhile (env (2 * i + 1));
  _ ← UpdateStatus ipPool;
  lift (GenIPConfigResult allocatedIP nic ipPool).

Definition AllocateIP (poolName nic : string) (pod : ObjectMeta) (podController : PodTopController) : cmd S IPConfig :=
  ipConfig ← map_error exhausted
    (RetryOnConflictWithContext cancelled DefaultRetrySteps (allocate_attempt poolName nic pod podController));
  mret (MkIPConfig (Address ipConfig) (cfg_EnableGatewayDetection config) (cfg_EnableIPConflictDetection config)
          (Gateway ipConfig) (cfg_IPPool ipConfig) (Mac ipConfig) (Nic ipConfig) (Version ipConfig) (cfg_Vlan ipConfig)).

Definition release_attempt (poolName : string) (ipAndUIDs : list IPAndUID) (i : nat) : cmd S unit :=
  _ ← meanwhile (env (2 * i));
  ipPool ← GetIPPoolByName poolName;
  allocatedRecords ← lift (UnmarshalIPPoolAllocatedIPs (AllocatedIPs (pool_status ipPool)));
  if negb (releases allocatedRecords ipAndUIDs) then mret ()
  else
    let allocatedRecords := foldl release_record allocatedRecords ipAndUIDs in
    let st := MkIPPoolStatus (MarshalIPPoolAllocatedIPs allocatedRecords)
                (TotalIPCount (pool_status ipPool)) (Some (Z.of_nat (size allocatedRecords))) in
    _ ← meanwhile (env (2 * i + 1));
    UpdateStatus (set_pool_status st ipPool).

Definition ReleaseIP (poolName : string) (ipAndUIDs : list IPAndUID) : cmd S unit :=
  map_error exhausted (RetryOnConflictWithContext cancelled DefaultRetrySteps (release_attempt poolName ipAndUIDs)).

Definition update_attempt (poolName namespacedName : string) (ipAndUIDs : list IPAndUID) (i : nat) : cmd S unit :=
  _ ← meanwhile (env (2 * i));
  ipPool ← GetIPPoolByName poolName;
  allocatedRecords ← lift (UnmarshalIPPoolAllocatedIPs (AllocatedIPs (pool_status ipPool)));
  '(allocatedRecords, recreate) ← lift (update_records namespacedName allocatedRecords ipAndUIDs false);
  if negb recreate then mret ()
  else
    let st := MkIPPoolStatus (MarshalIPPoolAllocatedIPs allocatedRecords)
                (TotalIPCount (pool_status ipPool)) (AllocatedIPCount (pool_status ipPool)) in
    _ ← meanwhile (env (2 * i + 1));
    UpdateStatus (set_pool_status st ipPool).

Definition UpdateAllocatedIPs (poolName namespacedName : string) (ipAndUIDs : list IPAndUID) : cmd S unit :=
  map_error exhausted
    (RetryOnConflictWithContext cancelled DefaultRetrySteps (update_attempt poolName namespacedName ipAndUIDs)).
End manager.

(** ** What genRandomIP computes *)

Lemma scan_records_spec l uid used :
  match scan_records l uid used with
  | inl ip => ∃ r, (ip, r) ∈ l ∧ PodUID r = uid
  | inr used' => used' = used ++ l.*1 ∧ Forall (λ p, PodUID p.2 ≠ uid) l
  end.
Proof.
  revert used. induction l as [|[ip r] l IH]; intros used; cbn [scan_records].
  { by rewrite app_nil_r. }
  case_bool_decide as Hu.
  - exists r. split; [apply list_elem_of_here|done].
  - specialize (IH (used ++ [ip])). case_match.
    + destruct IH as (r' & ? & ?). exists r'. split; [by apply list_elem_of_further|done].
    + destruct IH as [-> ?]. cbn. rewrite <- app_assoc. split; [done|by constructor].
Qed.

(** The keys of the records are printed addresses of the family. *)
Definition record_keys_ok (v : Z) (records : PoolIPAllocations) : Prop :=
  ∀ k, is_Some (records !! k) → ∃ ip, fits v ip ∧ k = ip_string ip.

Lemma good_range_print v ip : IsIPVersion v = Ret () → fits v ip →
  good_range v (ip_string ip) ∧ range_ips (ip_string ip) = [ip].
Proof.
  intros Hv [Hip Hf].
  destruct (print_range_valid v ip ip true Hv) as (V1 & V2 & V3); [by split_and!|].
  cbn [print_range] in *. split.
  - split_and!; [done..|]. unfold safe_range.
    change (ip_string ip) with (print_range ip ip true). by rewrite print_range_ends.
  - rewrite V3. replace (be ip - be ip + 1) with 1 by lia.
    by rewrite ips_from_cons, ips_from_nil, ip_of_be by (done || lia).
Qed.

Lemma parse_keys v ks :
  IsIPVersion v = Ret () → Forall (λ k, ∃ ip, fits v ip ∧ k = ip_string ip) ks →
  ParseIPRanges v ks = Ret (net_ParseIP <$> ks).
Proof.
  intros Hv Hks. assert (Forall (good_range v) ks ∧ ranges_ips ks = net_ParseIP <$> ks) as [Hg He].
  { induction Hks as [|k ks (ip & Hip & ->) _ [IH1 IH2]]; [by split|].
    destruct (good_range_print v ip Hv Hip) as [G E]. split; [by constructor|].
    rewrite ranges_ips_cons, E, IH2. cbn. by rewrite net_ParseIP_print by apply Hip. }
  by rewrite ParseIPRanges_spec, He.
Qed.

(** A pool whose specification the webhook admits and whose addresses can be enumerated. *)
Record pool_ok `{JSON PoolIPAllocations} (rIPs : list SpiderReservedIP) (p : SpiderIPPool) (v : Z)
    (records : PoolIPAllocations) : Prop := {
  po_version : ps_IPVersion (pool_spec p) = Some v;
  po_valid : IsIPVersion v = Ret ();
  po_records : UnmarshalIPPoolAllocatedIPs (AllocatedIPs (pool_status p)) = Ret records;
  po_keys : record_keys_ok v records;
  po_ips : Forall proper_range (ps_IPs (pool_spec p));
  po_family : Forall (of_family v) (ranges_ips (ps_IPs (pool_spec p)));
  po_exclude : Forall (good_range v) (ps_ExcludeIPs (pool_spec p));
  po_reserved : good_reserved rIPs v
}.

(** An address of the pool that may be handed out. *)
Definition free_address (rIPs : list SpiderReservedIP) (p : SpiderIPPool) (v : Z) (records : PoolIPAllocations) (ip : IP) : Prop :=
  ip ∈ ranges_ips (ps_IPs (pool_spec p)) ∧ ip ∉ ranges_ips (ps_ExcludeIPs (pool_spec p)) ∧
  ¬ reserved rIPs v ip ∧ records !! ip_string ip = None.

Section gen_facts.
Context `{MR : MapRange} `{J : JSON PoolIPAllocations} `{JL : !JSONLaws PoolIPAllocations}.
Context (config : IPPoolManagerConfig) (rIPs : list SpiderReservedIP).

Lemma used_keys v (records : PoolIPAllocations) ip :
  record_keys_ok v records → ip16 ip →
  ip ∈ net_ParseIP <$> (range_kv records).*1 ↔ is_Some (records !! ip_string ip).
Proof.
  intros Hk Hip. rewrite list_elem_of_fmap. split.
  - intros (k & -> & Hin). apply list_elem_of_fmap in Hin as ([k' r] & -> & Hin%elem_of_range_kv).
    cbn. destruct (Hk k') as (x & [Hx _] & ->); [by rewrite Hin|]. rewrite net_ParseIP_print by done. by rewrite Hin.
  - intros [r Hr]. exists (ip_string ip). rewrite net_ParseIP_print by done. split; [done|].
    apply list_elem_of_fmap. exists (ip_string ip, r). split; [done|]. by apply elem_of_range_kv.
Qed.

Lemma length_range_kv {A} (m : gmap string A) : length (range_kv m) = size m.
Proof.
  rewrite <- length_range_keys. unfold range_kv.
  assert (∀ l, Forall (λ k, is_Some (m !! k)) l → length (omap (λ k, (λ v, (k, v)) <$> m !! k) l) = length l) as Hl.
  { induction 1 as [|k l [v Hv] _ IH]; [done|]. cbn. rewrite Hv. cbn. by rewrite IH. }
  apply Hl, Forall_forall. intros k. apply elem_of_range_keys.
Qed.

(** The two branches on the records: the Pod is recorded, or nothing of it is. *)
Lemma genRandomIP_recorded p v records pod top :
  pool_ok rIPs p v records → (∃ k r, records !! k = Some r ∧ PodUID r = UID pod) →
  ∃ ip r, fits v ip ∧ records !! ip_string ip = Some r ∧ PodUID r = UID pod ∧
    genRandomIP config rIPs p pod top = Ret (ip, p).
Proof.
  intros P (k & r & Hr & Hu). unfold genRandomIP. rewrite (po_version _ _ _ _ P). cbn [deref mbind outcome_bind].
  destruct (AssembleReservedIPs_spec rIPs v (po_valid _ _ _ _ P) (po_reserved _ _ _ _ P)) as (ips & -> & _).
  cbn [mbind outcome_bind]. rewrite (po_records _ _ _ _ P). cbn [mbind outcome_bind].
  pose proof (scan_records_spec (range_kv records) (UID pod) []) as Hs.
  destruct (scan_records _ _ _) as [ip|used].
  - destruct Hs as (r' & Hin%elem_of_range_kv & Hu').
    destruct (po_keys _ _ _ _ P ip) as (x & Hx & ->); [by rewrite Hin|].
    exists x, r'. rewrite net_ParseIP_print by apply Hx. done.
  - destruct Hs as [_ Hall]. rewrite Forall_forall in Hall. by destruct (Hall (k, r)); [apply elem_of_range_kv|].
Qed.

Lemma take1_filter (P : IP → Prop) `{!∀ x, Decision (P x)} l :
  (Forall (λ x, ¬ P x) l ∧ take 1 (filter P l) = []) ∨
  (∃ pre x post, l = pre ++ x :: post ∧ Forall (λ x, ¬ P x) pre ∧ P x ∧ take 1 (filter P l) = [x]).
Proof.
  induction l as [|a l IH]; [by left|]. rewrite filter_cons. case_decide as Ha.
  - right. exists [], a, l. by split_and!.
  - destruct IH as [[H1 H2]|(pre & x & post & -> & H1 & H2 & H3)]; [left|right].
    + split; [by constructor|done].
    + exists (a :: pre), x, post. split_and!; [done|by constructor|done..].
Qed.

(** No record of the Pod: the first free address of the pool in the order of its ranges, within
    the limit on the number of records; [ErrIPUsedOut] otherwise. *)
Lemma genRandomIP_new p v records pod top max :
  pool_ok rIPs p v records → MaxAllocatedIPs config = Some max →
  (∀ k r, records !! k = Some r → PodUID r ≠ UID pod) →
  (Forall (λ ip, ¬ free_address rIPs p v records ip) (ranges_ips (ps_IPs (pool_spec p))) ∧
   genRandomIP config rIPs p pod top = Fail ErrIPUsedOut) ∨
  (∃ pre ip post, ranges_ips (ps_IPs (pool_spec p)) = pre ++ ip :: post ∧
     Forall (λ ip, ¬ free_address rIPs p v records ip) pre ∧ free_address rIPs p v records ip ∧
     genRandomIP config rIPs p pod top =
       if max <? Z.of_nat (size records) + 1 then Fail ErrIPUsedOut
       else Ret (ip, set_pool_status
         (MkIPPoolStatus (MarshalIPPoolAllocatedIPs
             (<[ip_string ip := MkPoolIPAllocation (allocation_key config pod top) (UID pod)]> records))
           (TotalIPCount (pool_status p)) (Some (Z.of_nat (size records) + 1))) p)).
Proof.
  intros P Hmax Hnone. unfold genRandomIP. rewrite (po_version _ _ _ _ P). cbn [deref mbind outcome_bind].
  destruct (AssembleReservedIPs_spec rIPs v (po_valid _ _ _ _ P) (po_reserved _ _ _ _ P)) as (res & -> & Hres16 & Hres).
  cbn [mbind outcome_bind]. rewrite (po_records _ _ _ _ P). cbn [mbind outcome_bind].
  pose proof (scan_records_spec (range_kv records) (UID pod) []) as Hs.
  destruct (scan_records _ _ _) as [k|used].
  { destruct Hs as (r & Hin%elem_of_range_kv & Hu). by destruct (Hnone k r Hin). }
  destruct Hs as [-> Hall]. cbn [app].
  rewrite (parse_keys v (range_kv records).*1); [|apply P|].
  2:{ apply Forall_forall. intros k ([k' r] & -> & Hin%elem_of_range_kv)%list_elem_of_fmap.
      apply (po_keys _ _ _ _ P). cbn. by rewrite Hin. }
  cbn [mbind outcome_bind]. rewrite ParseIPRanges_spec by apply P. cbn [mbind outcome_bind].
  rewrite Hmax, length_fmap, length_fmap, length_range_kv. unfold pick_address.
  set (excl := ranges_ips (ps_ExcludeIPs (pool_spec p))). set (used := net_ParseIP <$> _).
  assert (Forall ip16 used) as Hused16.
  { apply Forall_forall.
    intros ip (k0 & -> & ([k r] & -> & Hin%elem_of_range_kv)%list_elem_of_fmap)%list_elem_of_fmap. cbn.
    destruct (po_keys _ _ _ _ P k) as (x & [Hx _] & ->); [by rewrite Hin|]. by rewrite net_ParseIP_print. }
  assert (Forall ip16 (excl ++ (res ++ used))) as H16.
  { rewrite !Forall_app. split_and!; [apply ranges_ips_ip16|done|done]. }
  rewrite FindAvailableIPs_spec; [|lia|apply P|].
  2:{ eapply Forall_impl; [exact H16|]. intros. right. by apply ip16_wf. }
  cbn [mbind outcome_bind]. rewrite map_To16_ip16 by done. fold (ranges_ips (ps_IPs (pool_spec p))).
  change (Z.to_nat 1) with 1%nat.
  assert (∀ x, ip16 x → x ∈ ranges_ips (ps_IPs (pool_spec p)) → x ∉ excl ++ (res ++ used) ↔ free_address rIPs p v records x) as Hfree.
  { intros x Hx Hin. rewrite !elem_of_app. unfold free_address. rewrite Hres. fold excl.
    unfold used. rewrite (used_keys v) by (done || apply P). pose proof (eq_None_not_Some (records !! ip_string x)). tauto. }
  assert (Forall (λ x, x ∉ excl ++ (res ++ used) ↔ free_address rIPs p v records x) (ranges_ips (ps_IPs (pool_spec p)))) as Hf.
  { apply Forall_forall. intros x Hin. apply Hfree; [|done]. eapply Forall_forall in Hin; [exact Hin|]. apply ranges_ips_ip16. }
  destruct (take1_filter (.∉ excl ++ (res ++ used)) (ranges_ips (ps_IPs (pool_spec p)))) as [[Hn ->]|(pre & x & post & El & Hpre & Hx & ->)];
    cbn [length Nat.eqb mbind outcome_bind].
  - left. split.
    + rewrite Forall_forall in Hn. rewrite Forall_forall in Hf. apply Forall_forall. intros x Hin.
      rewrite <- Hf by done. auto.
    + unfold findAllocatedIPFromRecords. destruct (list_find _ _) as [[i p']|] eqn:E; [|done].
      apply list_find_Some in E as (Hi & [_ Hu] & _). apply list_elem_of_lookup_2 in Hi. destruct p' as [k r].
      apply elem_of_range_kv in Hi. by destruct (Hnone k r Hi).
  - right. exists pre, x, post. rewrite El in Hf. apply Forall_app in Hf as [Hf1 [Hf2 _]%Forall_cons].
    split_and!; [done| |by apply Hf2|].
    + eapply Forall_impl; [apply Forall_and; split; [exact Hpre|exact Hf1]|]. intros y [? <-]. done.
    + cbn [index lookup list_lookup mbind outcome_bind deref]. done.
Qed.
End gen_facts.

(** ** Commits *)

Lemma genRandomIP_same `{MapRange} `{JSON PoolIPAllocations} config rIPs p pod top ip p' :
  genRandomIP config rIPs p pod top = Ret (ip, p') → pool_meta p' = pool_meta p ∧ pool_spec p' = pool_spec p.
Proof.
  unfold genRandomIP. intros Hg. inv_ret. destruct (scan_records _ _ _); [by simplify_eq|].
  inv_ret. by case_match; simplify_eq.
Qed.

Section commits.
Context `{MR : MapRange} `{J : JSON PoolIPAllocations} {S : Type} `{KS : KubeStore S SpiderIPPool}.
Context `{KL : !KubeStoreLaws S SpiderIPPool}.
Context (env : nat → S → S) (Henv : ∀ i s, valid s → later s (env i s)).

(** A write computed from [p] took effect when the server held exactly [p]: the operation is
    atomic, whatever other clients did. *)
Definition committed (poolName : string) (s s' : S) (p p' : SpiderIPPool) : Prop :=
  ∃ sc v, later s sc ∧ later sc s' ∧ view sc !! poolName = Some p ∧
    view s' = <[poolName := merge_status p p' v]> (view sc).

(** The operation changed nothing itself. *)
Definition untouched (s s' : S) : Prop := ∃ sc, later s sc ∧ view s' = view sc ∧ later sc s'.

Lemma committed_before poolName s0 s s' p p' : later s0 s → committed poolName s s' p p' → committed poolName s0 s' p p'.
Proof. intros Hl (sc & v & H1 & H2). exists sc, v. split; [by etransitivity|done]. Qed.

Lemma read_write_commit s1 s2 s3 k p p' :
  valid s1 → api_get s1 k = Ret p → later s1 s2 → pool_meta p' = pool_meta p →
  api_update_status s2 p' = (Ret (), s3) → committed k s1 s3 p p'.
Proof.
  intros Hv Hg Hl Hm Hu.
  destruct (update_of_read s1 s2 s3 k p p' (Ret ()) Hv Hg Hl Hm Hu) as [Hl' [[_ ?]|(v & Hp & Hview)]]; [done|].
  exists s2, v. by split_and!.
Qed.

(** Attempts that end in a conflict only let time pass. *)
Lemma attempts_later {A} (f : nat → cmd S A) i s j sj :
  (∀ i s r s', valid s → f i s = (r, s') → later s s') →
  valid s → attempts IsConflict f i s j sj → later s sj ∧ valid sj.
Proof.
  intros Hf Hv Hat. induction Hat as [i s|i s e s1 j s2 E He Hat IH]; [done|].
  pose proof (Hf _ _ _ _ Hv E) as Hl. destruct (IH (later_valid _ _ Hv Hl)) as [? ?].
  split; [by etransitivity|done].
Qed.

(** A loop of attempts that returns: the last attempt returned, later. *)
Lemma retry_Ret {A} (f : nat → cmd S A) cancelled steps s a s' :
  (∀ i s r s', valid s → f i s = (r, s') → later s s') → valid s →
  map_error exhausted (RetryOnConflictWithContext cancelled steps f) s = (Ret a, s') →
  ∃ i si, later s si ∧ valid si ∧ f i si = (Ret a, s').
Proof.
  intros Hf Hv. unfold map_error. destruct (RetryOnConflictWithContext _ _ _ s) as [r s''] eqn:E.
  intros Hr. assert (r = Ret a ∧ s'' = s') as [-> ->] by (destruct r; naive_solver).
  unfold RetryOnConflictWithContext in E. apply OnError_inv in E as (j & sj & _ & Hat & [(? & _)|(Hfj & _)]); [done|].
  destruct (attempts_later f 0 s j sj Hf Hv Hat). eauto.
Qed.

Context (config : IPPoolManagerConfig) (rIPs : nat → list SpiderReservedIP) (cancelled : nat → bool).

Lemma meanwhile_later i s u s' : valid s → meanwhile (env i) s = (Ret u, s') → later s s' ∧ valid s'.
Proof. intros Hv [= <- <-]. pose proof (Henv i s Hv) as Hl. split; [done|]. by eapply later_valid. Qed.

Lemma allocate_attempt_later poolName nic pod top i s r s' :
  valid s → allocate_attempt config rIPs env poolName nic pod top i s = (r, s') → later s s'.
Proof.
  intros Hv. unfold allocate_attempt, meanwhile, GetIPPoolByName, read, lift, UpdateStatus, mbind, cmd_bind.
  pose proof (Henv (2 * i) s Hv) as H1. pose proof (later_valid _ _ Hv H1) as Hv1.
  destruct (api_get (env (2 * i) s) poolName) as [p|?| |]; [|by intros [= <- <-]..].
  destruct (genRandomIP _ _ _ _ _) as [[ip p']|?| |]; [|by intros [= <- <-]..].
  pose proof (Henv (2 * i + 1) _ Hv1) as H2. pose proof (later_valid _ _ Hv1 H2) as Hv2.
  destruct (api_update_status _ p') as [ru s3] eqn:Eu. apply update_later in Eu; [|done].
  destruct ru; intros [= <- <-]; by repeat (etransitivity; [eassumption|]).
Qed.

(** The state only moves on. *)
Definition moves (s s' : S) : Prop := valid s → later s s'.

#[export] Instance moves_preorder : PreOrder moves.
Proof. split; [by intros s _|]. intros s1 s2 s3 H1 H2 V. pose proof (H1 V) as L. etrans; [exact L|]. apply H2. by eapply later_valid. Qed.

Lemma AllocateIP_moves poolName nic pod top : evolves moves (AllocateIP config rIPs env cancelled poolName nic pod top).
Proof.
  unfold AllocateIP. apply evolves_bind; [apply _| |intros cfg; by apply evolves_ret, _].
  apply evolves_map_error, evolves_retry; [apply _|]. intros i s V. eapply allocate_attempt_later; [done|apply surjective_pairing].
Qed.

Lemma AllocateIP_Ret poolName nic pod top s cfg s' :
  valid s → AllocateIP config rIPs env cancelled poolName nic pod top s = (Ret cfg, s') →
  ∃ i p ip p' cfg0, committed poolName s s' p p' ∧
    genRandomIP config (rIPs i) p pod top = Ret (ip, p') ∧ GenIPConfigResult ip nic p' = Ret cfg0 ∧
    Address cfg = Address cfg0 ∧ cfg_IPPool cfg = cfg_IPPool cfg0 ∧ Nic cfg = nic ∧ Version cfg = Version cfg0.
Proof.
  intros Hv. unfold AllocateIP. intros (cfg0 & s1 & Hr & Hc)%cmd_bind_Ret. injection Hc as <- <-.
  apply retry_Ret in Hr as (i & si & Hl & Hvi & Ha); [|intros; by eapply allocate_attempt_later|done].
  unfold allocate_attempt in Ha.
  apply cmd_bind_Ret in Ha as ([] & s2 & [Hl2 Hv2]%meanwhile_later & Ha); [|done].
  apply cmd_bind_Ret in Ha as (p & s3 & [= Hg <-] & Ha).
  apply cmd_bind_Ret in Ha as ([ip p'] & s4 & [= Hgen <-] & Ha).
  apply cmd_bind_Ret in Ha as ([] & s5 & [Hl5 Hv5]%meanwhile_later & Ha); [|done].
  apply cmd_bind_Ret in Ha as ([] & s6 & Hu & Ha). injection Ha as Hcfg <-.
  exists i, p, ip, p', cfg0. split_and!; [|done|done|done|done| |done].
  - apply (committed_before poolName s s2); [by etransitivity|].
    eapply read_write_commit; [done|exact Hg|done|by apply (genRandomIP_same _ _ _ _ _ _ _ Hgen)|exact Hu].
  - unfold GenIPConfigResult in Hcfg. inv_ret. done.
Qed.
Definition released_status (p : SpiderIPPool) (records : PoolIPAllocations) : IPPoolStatus :=
  MkIPPoolStatus (MarshalIPPoolAllocatedIPs records) (TotalIPCount (pool_status p)) (Some (Z.of_nat (size records))).

Definition updated_status (p : SpiderIPPool) (records : PoolIPAllocations) : IPPoolStatus :=
  MkIPPoolStatus (MarshalIPPoolAllocatedIPs records) (TotalIPCount (pool_status p)) (AllocatedIPCount (pool_status p)).

(** An attempt that reads the pool and either leaves it or writes a new status. *)
Lemma attempt_later (f : SpiderIPPool → outcome (option IPPoolStatus)) poolName i s r s' :
  valid s →
  (_ ← meanwhile (env (2 * i));
   ipPool ← GetIPPoolByName poolName;
   o ← lift (f ipPool);
   match o with
   | None => mret ()
   | Some st => _ ← meanwhile (env (2 * i + 1)); UpdateStatus (set_pool_status st ipPool)
   end : cmd S unit) s = (r, s') → later s s'.
Proof.
  intros Hv. unfold meanwhile, GetIPPoolByName, read, lift, UpdateStatus, mbind, cmd_bind.
  pose proof (Henv (2 * i) s Hv) as H1. pose proof (later_valid _ _ Hv H1) as Hv1.
  destruct (api_get (env (2 * i) s) poolName) as [p|?| |]; [|by intros [= <- <-]..].
  destruct (f p) as [[st|]|?| |]; [|by intros [= <- <-]..].
  pose proof (Henv (2 * i + 1) _ Hv1) as H2. pose proof (later_valid _ _ Hv1 H2) as Hv2.
  intros Eu. apply update_later in Eu; [|done]. by repeat (etransitivity; [eassumption|]).
Qed.

Lemma attempt_Ret (f : SpiderIPPool → outcome (option IPPoolStatus)) poolName i s s' :
  valid s →
  (_ ← meanwhile (env (2 * i));
   ipPool ← GetIPPoolByName poolName;
   o ← lift (f ipPool);
   match o with
   | None => mret ()
   | Some st => _ ← meanwhile (env (2 * i + 1)); UpdateStatus (set_pool_status st ipPool)
   end : cmd S unit) s = (Ret (), s') →
  ∃ p, (f p = Ret None ∧ later s s' ∧ view s' !! poolName = Some p) ∨
       (∃ st, f p = Ret (Some st) ∧ committed poolName s s' p (set_pool_status st p)).
Proof.
  intros Hv Ha.
  apply cmd_bind_Ret in Ha as ([] & s2 & [Hl2 Hv2]%meanwhile_later & Ha); [|done].
  apply cmd_bind_Ret in Ha as (p & s3 & [= Hg <-] & Ha).
  apply cmd_bind_Ret in Ha as (o & s4 & [= Hf <-] & Ha). exists p. destruct o as [st|].
  - right. exists st. split; [done|].
    apply cmd_bind_Ret in Ha as ([] & s5 & [Hl5 Hv5]%meanwhile_later & Hu); [|done].
    apply (committed_before poolName s s2); [done|]. by eapply read_write_commit.
  - left. injection Ha as <-. split_and!; [done..|]. by apply (get_found _ _ _ Hv2).
Qed.

Definition release_compute (ius : list IPAndUID) (p : SpiderIPPool) : outcome (option IPPoolStatus) :=
  records ← UnmarshalIPPoolAllocatedIPs (AllocatedIPs (pool_status p));
  Ret (if releases records ius then Some (released_status p (foldl release_record records ius)) else None).

Definition update_compute (nn : string) (ius : list IPAndUID) (p : SpiderIPPool) : outcome (option IPPoolStatus) :=
  records ← UnmarshalIPPoolAllocatedIPs (AllocatedIPs (pool_status p));
  '(records, recreate) ← update_records nn records ius false;
  Ret (if recreate : bool then Some (updated_status p records) else None).

Lemma release_attempt_eq poolName ius i s :
  release_attempt env poolName ius i s =
  (_ ← meanwhile (env (2 * i));
   ipPool ← GetIPPoolByName poolName;
   o ← lift (release_compute ius ipPool);
   match o with
   | None => mret ()
   | Some st => _ ← meanwhile (env (2 * i + 1)); UpdateStatus (set_pool_status st ipPool)
   end : cmd S unit) s.
Proof.
  unfold release_attempt, release_compute, meanwhile, GetIPPoolByName, read, lift, mbind, cmd_bind.
  destruct (api_get _ _) as [p| | |]; [|done..].
  destruct (UnmarshalIPPoolAllocatedIPs _) as [records| | |]; [|done..]. cbn. by destruct (releases records ius).
Qed.

Lemma update_attempt_eq poolName nn ius i s :
  update_attempt env poolName nn ius i s =
  (_ ← meanwhile (env (2 * i));
   ipPool ← GetIPPoolByName poolName;
   o ← lift (update_compute nn ius ipPool);
   match o with
   | None => mret ()
   | Some st => _ ← meanwhile (env (2 * i + 1)); UpdateStatus (set_pool_status st ipPool)
   end : cmd S unit) s.
Proof.
  unfold update_attempt, update_compute, meanwhile, GetIPPoolByName, read, lift, mbind, cmd_bind.
  destruct (api_get _ _) as [p| | |]; [|done..].
  destruct (UnmarshalIPPoolAllocatedIPs _) as [records| | |]; [|done..]. cbn.
  destruct (update_records _ _ _ _) as [[records' []]| | |]; done.
Qed.

Lemma ReleaseIP_Ret poolName ius s s' :
  valid s → ReleaseIP env cancelled poolName ius s = (Ret (), s') →
  ∃ p, (release_compute ius p = Ret None ∧ later s s' ∧ view s' !! poolName = Some p) ∨
       (∃ st, release_compute ius p = Ret (Some st) ∧ committed poolName s s' p (set_pool_status st p)).
Proof.
  intros Hv Hr. unfold ReleaseIP in Hr. apply retry_Ret in Hr as (i & si & Hl & Hvi & Ha); [| |done].
  - rewrite release_attempt_eq in Ha. apply attempt_Ret in Ha as (p & [(? & ? & ?)|(st & ? & ?)]); [| |done];
      exists p; [left|right].
    + split_and!; [done|by etransitivity|done].
    + exists st. split; [done|]. by eapply committed_before.
  - intros i' s1 r s2 Hv1. rewrite release_attempt_eq. by apply attempt_later.
Qed.

Lemma UpdateAllocatedIPs_Ret poolName nn ius s s' :
  valid s → UpdateAllocatedIPs env cancelled poolName nn ius s = (Ret (), s') →
  ∃ p, (update_compute nn ius p = Ret None ∧ later s s' ∧ view s' !! poolName = Some p) ∨
       (∃ st, update_compute nn ius p = Ret (Some st) ∧ committed poolName s s' p (set_pool_status st p)).
Proof.
  intros Hv Hr. unfold UpdateAllocatedIPs in Hr. apply retry_Ret in Hr as (i & si & Hl & Hvi & Ha); [| |done].
  - rewrite update_attempt_eq in Ha. apply attempt_Ret in Ha as (p & [(? & ? & ?)|(st & ? & ?)]); [| |done];
      exists p; [left|right].
    + split_and!; [done|by etransitivity|done].
    + exists st. split; [done|]. by eapply committed_before.
  - intros i' s1 r s2 Hv1. rewrite update_attempt_eq. by apply attempt_later.
Qed.
End commits.

(** ** Records under release and update *)

Definition names (ius : list IPAndUID) (k : string) (r : PoolIPAllocation) : Prop := MkIPAndUID k (PodUID r) ∈ ius.
#[export] Instance names_dec ius k r : Decision (names ius k r).
Proof. unfold names. apply _. Defined.

Lemma release_fold_lookup records ius k :
  foldl release_record records ius !! k =
  match records !! k with
  | Some r => if decide (names ius k r) then None else Some r
  | None => None
  end.
Proof.
  revert records. induction ius as [|iu ius IH]; intros records; cbn [foldl].
  { destruct (records !! k) as [r|]; [|done]. rewrite decide_False; [done|]. apply not_elem_of_nil. }
  rewrite IH. unfold release_record. destruct iu as [ip uid]. cbn [iu_IP iu_UID].
  destruct (decide (ip = k)) as [->|Hne].
  - destruct (records !! k) as [r|] eqn:E; [|by rewrite E]. case_bool_decide as Hu.
    + rewrite lookup_delete_eq. unfold names. rewrite decide_True; [done|]. rewrite Hu. apply list_elem_of_here.
    + rewrite E. rewrite (decide_ext (names ius k r) (names (MkIPAndUID k uid :: ius) k r)); [done|].
      unfold names. rewrite elem_of_cons. split; [by right|]. intros [[= ?]|?]; [done|done].
  - assert ((match records !! ip with Some record => if PodUID record == uid then delete ip records else records
             | None => records end) !! k = records !! k) as ->.
    { case_match; [case_bool_decide; [by rewrite lookup_delete_ne|done]|done]. }
    destruct (records !! k) as [r|]; [|done].
    rewrite (decide_ext (names ius k r) (names (MkIPAndUID ip uid :: ius) k r)); [done|].
    unfold names. rewrite elem_of_cons. split; [by right|]. intros [[= ?]|?]; [congruence|done].
Qed.

Lemma releases_false records ius : releases records ius = false → foldl release_record records ius = records.
Proof.
  induction ius as [|iu ius IH]; cbn [releases foldl]; [done|]. unfold release_record at 2.
  destruct (records !! iu_IP iu); [case_bool_decide; [done|]|]; auto.
Qed.

Lemma update_records_spec nn records ius b records' b' :
  update_records nn records ius b = Ret (records', b') →
  (∀ k, match records !! k with
        | Some r => ∃ r', records' !! k = Some r' ∧ NamespacedName r' = NamespacedName r ∧
                      (PodUID r' = PodUID r ∨ MkIPAndUID k (PodUID r') ∈ ius)
        | None => records' !! k = None
        end) ∧
  (∀ k r, records !! k = Some r → k ∈ iu_IP <$> ius → NamespacedName r = nn) ∧
  (b' = false → records' = records ∧ b = false).
Proof.
  revert records b. induction ius as [|[ip uid] ius IH]; intros records b; cbn [update_records iu_IP iu_UID].
  { intros [= <- <-]. split_and!; [|intros k r _ Hk; by apply elem_of_nil in Hk|done].
    intros k. destruct (records !! k); eauto. }
  destruct (records !! ip) as [r0|] eqn:E0.
  2:{ intros (H1 & H2 & H3)%IH. split_and!; [|intros k r Hk Hin|done].
      - intros k. specialize (H1 k). case_match; [|done]. destruct H1 as (r' & ? & ? & ?). exists r'. set_solver.
      - cbn in Hin. apply elem_of_cons in Hin as [->|?]; [congruence|eauto]. }
  case_bool_decide as Hn; cbn [negb]; [|done]. case_bool_decide as Hu; cbn [negb].
  - intros (H1 & H2 & H3)%IH. split_and!; [|intros k r Hk Hin|done].
    + intros k. specialize (H1 k). case_match; [|done]. destruct H1 as (r' & ? & ? & ?). exists r'. set_solver.
    + cbn in Hin. apply elem_of_cons in Hin as [->|?]; [congruence|eauto].
  - intros (H1 & H2 & H3)%IH. split_and!; [|intros k r Hk Hin|].
    + intros k. specialize (H1 k). destruct (decide (ip = k)) as [->|Hne].
      * rewrite lookup_insert_eq in H1. rewrite E0. destruct H1 as (r' & H1 & H1' & [H1''|H1'']); exists r'; cbn in *.
        -- split_and!; [done..|]. right. rewrite H1''. apply list_elem_of_here.
        -- split_and!; [done..|]. right. by apply list_elem_of_further.
      * rewrite lookup_insert_ne in H1 by done. case_match; [|done]. destruct H1 as (r' & ? & ? & ?). exists r'. set_solver.
    + cbn in Hin. destruct (decide (ip = k)) as [->|Hne]; [congruence|].
      apply elem_of_cons in Hin as [?|?]; [congruence|]. apply (H2 k r); [by rewrite lookup_insert_ne|done].
    + intros ->. by destruct (H3 eq_refl) as [_ ?].
Qed.

(** ** What is recorded, and what a release frees *)

(** [k] is recorded as [r] in the pool. *)
Definition recorded `{JSON PoolIPAllocations} {S} `{KS : KubeStore S SpiderIPPool} `{KL : !KubeStoreLaws S SpiderIPPool}
    (poolName k : string) (r : PoolIPAllocation) (s : S) : Prop :=
  ∃ p records, view s !! poolName = Some p ∧
    UnmarshalIPPoolAllocatedIPs (AllocatedIPs (pool_status p)) = Ret records ∧ records !! k = Some r.

Section freed.
Context `{MR : MapRange} `{J : JSON PoolIPAllocations} `{JL : !JSONLaws PoolIPAllocations}.
Context {S : Type} `{KS : KubeStore S SpiderIPPool} `{KL : !KubeStoreLaws S SpiderIPPool}.

(** After a successful release no record of the pool is one of those named. *)
Definition freed (name : string) (ius : list IPAndUID) (s : S) : Prop :=
  ∃ q records, view s !! name = Some q ∧ UnmarshalIPPoolAllocatedIPs (AllocatedIPs (pool_status q)) = Ret records ∧
    ∀ k r, records !! k = Some r → ¬ names ius k r.

Lemma ReleaseIP_frees env cancelled name ius s s' :
  (∀ i s, valid s → later s (env i s)) → valid s →
  ReleaseIP env cancelled name ius s = (Ret (), s') → later s s' ∧ freed name ius s'.
Proof.
  intros Henv Hv Hr.
  assert (∀ records k' r', foldl release_record records ius !! k' = Some r' → ¬ names ius k' r') as Hf.
  { intros records k' r'. rewrite release_fold_lookup. destruct (records !! k'); [|done]. case_decide; [done|]. by intros [= <-]. }
  destruct (ReleaseIP_Ret env Henv cancelled name ius s s' Hv Hr)
    as (p & [(Hc & Hl & Hp)|(st & Hc & (sc & ver & Hl & Hl' & Hp & Hview))]);
    unfold release_compute in Hc; apply bind_Ret in Hc as (records & Hrec & [= Hc]);
    destruct (releases records ius) eqn:E; [done| |injection Hc as <-|done].
  - split; [done|]. exists p, records. split_and!; [done..|]. intros k' r'. rewrite <- (releases_false _ _ E). apply Hf.
  - split; [by etransitivity|]. eexists _, (foldl release_record records ius).
    split_and!; [by rewrite Hview, lookup_insert_eq|apply Unmarshal_Marshal|apply Hf].
Qed.
End freed.

(** ** The address handed to the caller *)

Lemma split_slash_ip a s : wf_ip a → ∃ t, split "/" (ip_string a +:+ "/" +:+ s) = ip_string a :: t.
Proof.
  intros Ha. pose proof (ip_string_no_char a "/" Ha eq_refl eq_refl) as Na.
  change (ip_string a +:+ "/" +:+ s) with (ip_string a +:+ String "/" s). rewrite split_app by done. eauto.
Qed.

Lemma ip_string_To4 ip : ip16 ip → is_v4 ip = true → ip_string (To4 ip) = ip_string ip.
Proof.
  intros Hip Hv. rewrite <- (ip_string_To16 (To4 ip)).
  - by rewrite To16_To4.
  - split; [by apply wf_To4, ip16_wf|]. left. by apply is_v4_To4.
Qed.

(** The mask of a subnet accepted for a version fits the addresses of that version. *)
Lemma IsCIDR_mask v s ip net ip0 :
  IsCIDR v s = Ret () → net_ParseCIDR s = Some (ip, net) → fits v ip0 →
  ∃ nn m, networkNumberAndMask (MkIPNet ip0 (net_mask net)) = Some (nn, m) ∧ wf_ip nn ∧ ip_string nn = ip_string ip0.
Proof.
  intros Hc Hp [H16 Hf]. destruct (net_ParseCIDR_inv s ip net Hp) as (a & n & [Ha Hl] & Hn & -> & ->). cbn [net_mask].
  unfold networkNumberAndMask. cbn [net_ip net_mask]. rewrite length_CIDRMask. unfold of_family in Hf.
  unfold IsCIDR in Hc. apply bind_Ret in Hc as ([] & Hv & Hc). destruct (is_v4 ip0) eqn:E4.
  - assert (is_nil (To4 ip0) = false) as -> by (unfold is_v4 in E4; by apply negb_true_iff).
    cbn [andb]. rewrite (is_v4_To4 ip0 E4). cbn [Nat.eqb].
    assert (wf_ip (To4 ip0)) by (split; [by apply wf_To4, ip16_wf|left; by apply is_v4_To4]).
    destruct Hl as [-> | ->]; cbn [Nat.eqb]; eexists _, _; (split; [done|]); (split; [done|by apply ip_string_To4]).
  - rewrite is_v4_false by done. change (is_nil nilIP) with true. cbn [andb]. rewrite (proj2 H16). cbn [Nat.eqb negb].
    destruct Hl as [Hl|Hl]; rewrite Hl; cbn [Nat.eqb]; [|eexists _, _; split; [done|]; split; [by apply ip16_wf|done]].
    exfalso. destruct (IsIPVersion_cases v Hv) as [-> | ->]; [done|]. cbn in Hc.
    unfold IsIPv6CIDR in Hc. rewrite Hp in Hc. rewrite To4_To16 in Hc by (split; [done|by left]).
    unfold To4 in Hc. rewrite Hl in Hc. cbn in Hc. destruct a; done.
Qed.

(** The address in the result is the allocated one, in the form under which it is recorded. *)
Lemma GenIPConfigResult_address ip nic p v cfg :
  ps_IPVersion (pool_spec p) = Some v → fits v ip → GenIPConfigResult ip nic p = Ret cfg →
  index (split "/" (Address cfg)) 0 = Ret (ip_string ip) ∧ cfg_IPPool cfg = Name (pool_meta p) ∧ Version cfg = v.
Proof.
  intros Hv Hf. unfold GenIPConfigResult. rewrite Hv. cbn [deref mbind outcome_bind]. intros (net & Hn & [= <-])%bind_Ret.
  split; [|done]. destruct (ParseIP v (ps_Subnet (pool_spec p)) true) as [n'|e| |] eqn:Hp; [|done..]. injection Hn as ->.
  unfold ParseIP in Hp. apply bind_Ret in Hp as ([] & Hc & Hp). apply bind_Ret in Hp as ([ip' net'] & Hd & [= <-]).
  apply deref_Ret in Hd. cbn [net_mask Address].
  destruct (IsCIDR_mask v _ _ _ ip Hc Hd Hf) as (nn & m & E & Hwf & Es). unfold net_string. rewrite E, <- Es.
  destruct (simpleMaskLength m) as [l|].
  - destruct (split_slash_ip nn (itoa l) Hwf) as [t ->]. done.
  - destruct (split_slash_ip nn (hex_string m) Hwf) as [t ->]. done.
Qed.

(** ** Properties *)

Section properties.
Context `{MR : MapRange} `{J : JSON PoolIPAllocations} `{JL : !JSONLaws PoolIPAllocations}.

Definition pool_records (p : SpiderIPPool) : outcome PoolIPAllocations :=
  UnmarshalIPPoolAllocatedIPs (AllocatedIPs (pool_status p)).

(** The outcome of [genRandomIP] on an admitted pool, in one statement. *)
Lemma genRandomIP_Ret config rIPs p v records pod top ip p' max :
  pool_ok rIPs p v records → MaxAllocatedIPs config = Some max →
  genRandomIP config rIPs p pod top = Ret (ip, p') →
  fits v ip ∧
  ((∃ r, records !! ip_string ip = Some r ∧ PodUID r = UID pod ∧ p' = p) ∨
   (free_address rIPs p v records ip ∧ Z.of_nat (size records) < max ∧
    (∀ k r, records !! k = Some r → PodUID r ≠ UID pod) ∧
    pool_records p' = Ret (<[ip_string ip := MkPoolIPAllocation (allocation_key config pod top) (UID pod)]> records) ∧
    AllocatedIPCount (pool_status p') = Some (Z.of_nat (size records) + 1))).
Proof.
  intros P Hmax Hg.
  destruct (decide (Exists (λ x, PodUID x.2 = UID pod) (map_to_list records))) as [Hex|Hno].
  - apply Exists_exists in Hex as ([k r] & Hin%elem_of_map_to_list & Hu).
    destruct (genRandomIP_recorded config rIPs p v records pod top P) as (ip' & r' & Hf & Hr' & Hu' & E); [by exists k, r|].
    rewrite E in Hg. injection Hg as <- <-. split; [done|]. left. eauto.
  - assert (∀ k r, records !! k = Some r → PodUID r ≠ UID pod) as Hnone.
    { intros k r Hk Hu. apply Hno, Exists_exists. exists (k, r). split; [by apply elem_of_map_to_list|done]. }
    destruct (genRandomIP_new config rIPs p v records pod top max P Hmax Hnone)
      as [[_ E]|(pre & x & post & El & _ & Hfree & E)]; rewrite E in Hg; [done|].
    destruct (Z.ltb_spec max (Z.of_nat (size records) + 1)); [done|]. injection Hg as <- <-.
    assert (fits v x) as Hfit.
    { split; [eapply Forall_forall; [apply ranges_ips_ip16|apply Hfree]|].
      eapply Forall_forall; [apply (po_family _ _ _ _ P)|apply Hfree]. }
    split; [done|]. right. split_and!; [done|lia|done| |done].
    unfold pool_records. cbn [set_pool_status pool_status AllocatedIPs]. apply Unmarshal_Marshal.
Qed.

(** [genRandomIP] is complete.  For a Pod without a record in the pool it fails with
    [ErrIPUsedOut] exactly when no address of the pool is free (in its ranges, neither excluded
    nor reserved nor recorded) or the limit on the number of records is reached, and otherwise
    returns the first free address in the order of the ranges. *)
Theorem genRandomIP_exhaustion config rIPs p v records pod top max :
  pool_ok rIPs p v records → MaxAllocatedIPs config = Some max →
  (∀ k r, records !! k = Some r → PodUID r ≠ UID pod) →
  (genRandomIP config rIPs p pod top = Fail ErrIPUsedOut ↔
    (∀ ip, ¬ free_address rIPs p v records ip) ∨ max ≤ Z.of_nat (size records)) ∧
  (Z.of_nat (size records) < max → (∃ ip, free_address rIPs p v records ip) →
    ∃ pre ip post p', ranges_ips (ps_IPs (pool_spec p)) = pre ++ ip :: post ∧
      Forall (λ x, ¬ free_address rIPs p v records x) pre ∧ free_address rIPs p v records ip ∧
      genRandomIP config rIPs p pod top = Ret (ip, p')).
Proof.
  intros P Hmax Hnone.
  destruct (genRandomIP_new config rIPs p v records pod top max P Hmax Hnone)
    as [[Hf E]|(pre & x & post & El & Hpre & Hfree & E)].
  - assert (∀ ip, ¬ free_address rIPs p v records ip) as Hn.
    { intros ip Hip. rewrite Forall_forall in Hf. apply (Hf ip); [apply Hip|done]. }
    split; [by split; [left|]|]. intros _ [ip Hip]. by destruct (Hn ip).
  - destruct (Z.ltb_spec max (Z.of_nat (size records) + 1)); (split; [rewrite E; split|]).
    + intros _. right. lia.
    + done.
    + lia.
    + done.
    + intros [Hn|?]; [by destruct (Hn x)|lia].
    + intros _ _. eauto 10.
Qed.

(** [genRandomIP] is idempotent per Pod UID.  After an allocation for a Pod, another one for
    the same Pod on the resulting pool returns the same address and leaves the pool as it is,
    so a caller that lost the first answer does not consume a second address. *)
Theorem genRandomIP_idempotent config rIPs p v records pod top ip p' max ver :
  pool_ok rIPs p v records → MaxAllocatedIPs config = Some max →
  (∀ k1 r1 k2 r2, records !! k1 = Some r1 → records !! k2 = Some r2 →
    PodUID r1 = UID pod → PodUID r2 = UID pod → k1 = k2) →
  genRandomIP config rIPs p pod top = Ret (ip, p') →
  let q := merge_status p p' ver in
  genRandomIP config rIPs q pod top = Ret (ip, q).
Proof.
  intros P Hmax Huniq Hg q. destruct (genRandomIP_Ret _ _ _ _ _ _ _ _ _ _ P Hmax Hg) as [Hfit Hc].
  assert (∃ records', pool_ok rIPs q v records' ∧ (∃ r, records' !! ip_string ip = Some r ∧ PodUID r = UID pod) ∧
    ∀ k r, records' !! k = Some r → PodUID r = UID pod → k = ip_string ip) as (records' & P' & Hr & Hu).
  { destruct Hc as [(r & Hr & Hru & ->)|(_ & _ & Hnone & Hrec & _)].
    - exists records. split_and!; [by destruct P|by exists r|]. intros k r' Hk Hu'. eauto.
    - eexists. split_and!.
      + destruct P; split; try done. intros k [<-|[_ Hk]]%lookup_insert_is_Some; [by exists ip|]. by apply po_keys0.
      + rewrite lookup_insert_eq. eauto.
      + intros k r [[<- _]|[_ Hk]]%lookup_insert_Some Hu'; [done|]. by destruct (Hnone k r Hk). }
  destruct Hr as (r & Hr & Hru).
  destruct (genRandomIP_recorded config rIPs q v records' pod top P') as (ip' & r' & Hf' & Hr' & Hu' & E); [by exists (ip_string ip), r|].
  rewrite E. assert (ip_string ip' = ip_string ip) as Es by eauto.
  apply ip_string_inj in Es; [|by apply ip16_wf, Hf'|by apply ip16_wf, Hfit].
  rewrite !To16_ip16 in Es by (apply Hf' || apply Hfit). by subst.
Qed.

Context {S : Type} `{KS : KubeStore S SpiderIPPool} `{KL : !KubeStoreLaws S SpiderIPPool}.

(** [cfg] carries an address of the pool [p] that is recorded for the Pod in [q]: one that was
    recorded for the Pod before, or a free one. *)
Definition takes (config : IPPoolManagerConfig) (rIPs : list SpiderReservedIP) (pod : ObjectMeta) (top : PodTopController)
    (cfg : IPConfig) (p q : SpiderIPPool) : Prop :=
  pool_spec q = pool_spec p ∧
  ∀ v records, pool_ok rIPs p v records →
    cfg_IPPool cfg = Name (pool_meta p) ∧ Version cfg = v ∧
    ∃ ip, index (split "/" (Address cfg)) 0 = Ret (ip_string ip) ∧
    ((∃ r, records !! ip_string ip = Some r ∧ PodUID r = UID pod ∧ pool_records q = Ret records) ∨
     (free_address rIPs p v records ip ∧
      pool_records q = Ret (<[ip_string ip := MkPoolIPAllocation (allocation_key config pod top) (UID pod)]> records))).

Lemma AllocateIP_takes config rIPs env cancelled poolName nic pod top max s cfg s' :
  (∀ i s, valid s → later s (env i s)) → MaxAllocatedIPs config = Some max →
  valid s → AllocateIP config rIPs env cancelled poolName nic pod top s = (Ret cfg, s') →
  ∃ i sc p q, later s sc ∧ later sc s' ∧ view sc !! poolName = Some p ∧ view s' = <[poolName := q]> (view sc) ∧
    Nic cfg = nic ∧ takes config (rIPs i) pod top cfg p q.
Proof.
  intros Henv Hmax Hv Hal.
  destruct (AllocateIP_Ret env Henv config rIPs cancelled poolName nic pod top s cfg s' Hv Hal)
    as (i & p & ip & p' & cfg0 & (sc & ver & Hl & Hl' & Hp & Hview) & Hg & Hcfg & Ha & Hpool & Hnic & Hver).
  exists i, sc, p, (merge_status p p' ver). split_and!; [done..|]. split; [done|]. intros v records P.
  destruct (genRandomIP_Ret _ _ _ _ _ _ _ _ _ _ P Hmax Hg) as [Hfit Hc].
  destruct (genRandomIP_same _ _ _ _ _ _ _ Hg) as [Hmeta Hspec].
  destruct (GenIPConfigResult_address ip nic p' v cfg0) as (E1 & E2 & E3); [rewrite Hspec; apply P|done..|].
  rewrite Ha, Hpool, Hver, E2, E3, Hmeta. split_and!; [done..|]. exists ip. split; [done|].
  destruct Hc as [(r & ? & ? & ->)|(? & _ & _ & ? & _)]; [left|by right]. exists r. split_and!; [done..|]. apply P.
Qed.

(** C1: an allocation never hands out an address that is in use.  When [AllocateIP] returns an
    address, whatever other clients write meanwhile, there is a moment at which the pool was [p]
    and the operation took effect atomically on it; if [p] is a pool the webhook admits, with
    records [records], then either the Pod already had that address, or the address belongs to
    the pool, is neither excluded nor reserved, was recorded for nobody, and is now recorded for
    the Pod with every other record unchanged. *)
Theorem AllocateIP_exclusive config rIPs env cancelled poolName nic pod top max s cfg s' :
  (∀ i s, valid s → later s (env i s)) → MaxAllocatedIPs config = Some max →
  valid s → AllocateIP config rIPs env cancelled poolName nic pod top s = (Ret cfg, s') →
  ∃ i sc p q, later s sc ∧ later sc s' ∧ view sc !! poolName = Some p ∧
    view s' = <[poolName := q]> (view sc) ∧ pool_spec q = pool_spec p ∧
    ∀ v records, pool_ok (rIPs i) p v records →
      ∃ ip, index (split "/" (Address cfg)) 0 = Ret (ip_string ip) ∧
      ((∃ r, records !! ip_string ip = Some r ∧ PodUID r = UID pod ∧ pool_records q = Ret records) ∨
       (free_address (rIPs i) p v records ip ∧
        pool_records q = Ret (<[ip_string ip := MkPoolIPAllocation (allocation_key config pod top) (UID pod)]> records))).
Proof.
  intros Henv Hmax Hv Hal.
  destruct (AllocateIP_takes config rIPs env cancelled poolName nic pod top max s cfg s' Henv Hmax Hv Hal)
    as (i & sc & p & q & H1 & H2 & H3 & H4 & _ & Hs & H). exists i, sc, p, q. split_and!; [done..|]. apply H.
Qed.

(** A release frees exactly what it names.  When [ReleaseIP] succeeds there is a moment at
    which it took effect atomically: the records that match an address and the UID of the same
    entry are gone, every other record, in particular one of the same address with another UID,
    is unchanged, and when something was released the count is the number of records left. *)
Theorem ReleaseIP_exact env cancelled poolName ius s s' :
  (∀ i s, valid s → later s (env i s)) → valid s →
  ReleaseIP env cancelled poolName ius s = (Ret (), s') →
  ∃ p q records records', later s s' ∧ pool_records p = Ret records ∧
    view s' !! poolName = Some q ∧ pool_spec q = pool_spec p ∧ pool_records q = Ret records' ∧
    (∀ k, records' !! k = match records !! k with
                          | Some r => if decide (names ius k r) then None else Some r
                          | None => None
                          end) ∧
    (records' ≠ records → AllocatedIPCount (pool_status q) = Some (Z.of_nat (size records'))).
Proof.
  intros Henv Hv Hr.
  destruct (ReleaseIP_Ret env Henv cancelled poolName ius s s' Hv Hr)
    as (p & [(Hc & Hl & Hp)|(st & Hc & (sc & ver & Hl & Hl' & Hp & Hview))]);
    unfold release_compute in Hc; apply bind_Ret in Hc as (records & Hrec & [= Hc]).
  - destruct (releases records ius) eqn:E; [done|]. exists p, p, records, records. split_and!; try done.
    intros k. rewrite <- release_fold_lookup. by rewrite releases_false.
  - destruct (releases records ius) eqn:E; [|done]. injection Hc as <-.
    exists p, (merge_status p (set_pool_status (released_status p (foldl release_record records ius)) p) ver), records.
    exists (foldl release_record records ius). split_and!; try done.
    + by etransitivity.
    + rewrite Hview. by rewrite lookup_insert_eq.
    + apply Unmarshal_Marshal.
    + apply release_fold_lookup.
Qed.
(** Re-allocation never changes who owns an address.  When [UpdateAllocatedIPs] succeeds
    the pool has records for the same addresses and the same Pod names as at the moment it took
    effect; the only changes are UIDs of addresses it was given, and all of those that are
    recorded belong to the named Pod. *)
Theorem UpdateAllocatedIPs_keeps_owner env cancelled poolName nn ius s s' :
  (∀ i s, valid s → later s (env i s)) → valid s →
  UpdateAllocatedIPs env cancelled poolName nn ius s = (Ret (), s') →
  ∃ p q records records', later s s' ∧ pool_records p = Ret records ∧
    view s' !! poolName = Some q ∧ pool_spec q = pool_spec p ∧ pool_records q = Ret records' ∧
    (∀ k, match records !! k with
          | Some r => ∃ r', records' !! k = Some r' ∧ NamespacedName r' = NamespacedName r ∧
                        (PodUID r' = PodUID r ∨ MkIPAndUID k (PodUID r') ∈ ius)
          | None => records' !! k = None
          end) ∧
    (∀ k r, records !! k = Some r → k ∈ iu_IP <$> ius → NamespacedName r = nn).
Proof.
  intros Henv Hv Hr.
  destruct (UpdateAllocatedIPs_Ret env Henv cancelled poolName nn ius s s' Hv Hr)
    as (p & [(Hc & Hl & Hp)|(st & Hc & (sc & ver & Hl & Hl' & Hp & Hview))]);
    unfold update_compute in Hc; apply bind_Ret in Hc as (records & Hrec & Hc);
    apply bind_Ret in Hc as ([records' b] & Hu & [= Hc]);
    destruct (update_records_spec _ _ _ _ _ _ Hu) as (H1 & H2 & H3).
  - destruct b; [done|]. destruct (H3 eq_refl) as [-> _]. exists p, p, records, records. by split_and!.
  - destruct b; [|done]. injection Hc as <-.
    exists p, (merge_status p (set_pool_status (updated_status p records') p) ver), records, records'.
    split_and!; try done; [by etransitivity| |apply Unmarshal_Marshal]. rewrite Hview. by rewrite lookup_insert_eq.
Qed.

(** The pool after a first allocation: its records are those before plus the new one. *)
Definition allocation_count_ok (p : SpiderIPPool) (records : PoolIPAllocations) : Prop :=
  default 0 (AllocatedIPCount (pool_status p)) = Z.of_nat (size records).

(** An allocation followed by the release of the same address and UID restores the records
    and the count of the pool, also when the release is asked for twice. *)
Theorem allocate_release_roundtrip config rIPs p v records pod top ip p' max ver :
  pool_ok rIPs p v records → MaxAllocatedIPs config = Some max →
  (∀ k r, records !! k = Some r → PodUID r ≠ UID pod) →
  genRandomIP config rIPs p pod top = Ret (ip, p') →
  let q := merge_status p p' ver in
  let ius := [MkIPAndUID (ip_string ip) (UID pod); MkIPAndUID (ip_string ip) (UID pod)] in
  ∃ st, release_compute ius q = Ret (Some st) ∧
    UnmarshalIPPoolAllocatedIPs (AllocatedIPs st) = Ret records ∧
    AllocatedIPCount st = Some (Z.of_nat (size records)).
Proof.
  intros P Hmax Hnone Hg q ius. destruct (genRandomIP_Ret _ _ _ _ _ _ _ _ _ _ P Hmax Hg) as [Hfit [(r & Hr & Hu & _)|Hc]].
  { by destruct (Hnone _ _ Hr). }
  destruct Hc as ((_ & _ & _ & Hfree) & _ & _ & Hrec & _). unfold release_compute.
  change (AllocatedIPs (pool_status q)) with (AllocatedIPs (pool_status p')).
  unfold pool_records in Hrec. rewrite Hrec. cbn [mbind outcome_bind].
  set (r := MkPoolIPAllocation _ _). cbn [releases ius iu_IP iu_UID]. rewrite lookup_insert_eq. cbn [PodUID r].
  rewrite bool_decide_true by done. eexists. split; [done|].
  assert (foldl release_record (<[ip_string ip := r]> records) ius = records) as ->.
  { apply map_eq. intros k. rewrite release_fold_lookup. destruct (decide (ip_string ip = k)) as [<-|Hne].
    - rewrite lookup_insert_eq, Hfree, decide_True; [done|]. apply list_elem_of_here.
    - rewrite lookup_insert_ne by done. destruct (records !! k) as [r'|] eqn:E; [|done].
      rewrite decide_False; [done|]. unfold names, ius. set_solver. }
  split; [apply Unmarshal_Marshal|done].
Qed.

(** The invariant of the stored pools: every record is of an address of the pool that is not
    excluded, under its printed form, and the count is the number of records. *)
Definition records_inv (p : SpiderIPPool) : Prop :=
  ∃ records, pool_records p = Ret records ∧ allocation_count_ok p records ∧
    ∀ k, is_Some (records !! k) → ∃ ip, k = ip_string ip ∧ ip16 ip ∧
      ip ∈ ranges_ips (ps_IPs (pool_spec p)) ∧ ip ∉ ranges_ips (ps_ExcludeIPs (pool_spec p)).

(** One committed operation on a stored pool. *)
Inductive pool_step (config : IPPoolManagerConfig) (p : SpiderIPPool) : SpiderIPPool → Prop :=
  | step_allocate rIPs v records pod top ip p' ver :
      pool_ok rIPs p v records → genRandomIP config rIPs p pod top = Ret (ip, p') →
      pool_step config p (merge_status p p' ver)
  | step_release_ips ius st ver :
      release_compute ius p = Ret (Some st) → pool_step config p (merge_status p (set_pool_status st p) ver)
  | step_update_ips nn ius st ver :
      update_compute nn ius p = Ret (Some st) → pool_step config p (merge_status p (set_pool_status st p) ver).

Lemma pool_step_inv config max p q :
  MaxAllocatedIPs config = Some max → pool_step config p q → records_inv p → records_inv q.
Proof.
  intros Hmax [rIPs v records pod top ip p' ver P Hg|ius st ver Hc|nn ius st ver Hc] (records0 & Hrec & Hcnt & Hin).
  - destruct (genRandomIP_Ret _ _ _ _ _ _ _ _ _ _ P Hmax Hg) as [Hfit [(r & _ & _ & ->)|(Hfree & _ & _ & Hrec' & Hcnt')]].
    { exists records0. by split_and!. }
    assert (records0 = records) as -> by (pose proof (po_records _ _ _ _ P); unfold pool_records in *; congruence).
    eexists. split_and!; [exact Hrec'| |].
    + unfold allocation_count_ok. cbn. rewrite Hcnt'. cbn. rewrite map_size_insert_None by apply Hfree. lia.
    + intros k [<-|[_ Hk]]%lookup_insert_is_Some; [|by apply Hin]. exists ip. split_and!; [done|apply Hfit|apply Hfree..].
  - unfold release_compute in Hc. apply bind_Ret in Hc as (records & Hrec' & [= Hc]).
    assert (records = records0) as -> by (unfold pool_records in *; congruence).
    destruct (releases records0 ius); [|done]. injection Hc as <-.
    exists (foldl release_record records0 ius). split_and!; [apply Unmarshal_Marshal|done|].
    intros k. rewrite release_fold_lookup. intros [r' Hr']. apply Hin. destruct (records0 !! k); [done|done].
  - unfold update_compute in Hc. apply bind_Ret in Hc as (records & Hrec' & Hc).
    apply bind_Ret in Hc as ([records' b] & Hu & [= Hc]).
    assert (records = records0) as -> by (unfold pool_records in *; congruence).
    destruct b; [|done]. injection Hc as <-. destruct (update_records_spec _ _ _ _ _ _ Hu) as (H1 & _ & _).
    assert (∀ k, is_Some (records' !! k) ↔ is_Some (records0 !! k)) as Hdom.
    { intros k. specialize (H1 k). destruct (records0 !! k); [destruct H1 as (? & -> & _)|rewrite H1]; done. }
    exists records'. split_and!; [apply Unmarshal_Marshal| |].
    + unfold allocation_count_ok in *. cbn. rewrite Hcnt. f_equal.
      rewrite <- !size_dom. f_equal. apply set_eq. intros k. by rewrite !elem_of_dom.
    + intros k Hk%Hdom. by apply Hin.
Qed.

(** C2: the records of a pool stay consistent under any interleaving of allocations, releases
    and re-allocations: only non-excluded addresses of the pool are recorded, and the published
    count equals the number of records. *)
Theorem pool_records_invariant config max p q :
  MaxAllocatedIPs config = Some max → rtc (pool_step config) p q → records_inv p → records_inv q.
Proof. intros Hmax. induction 1; eauto using pool_step_inv. Qed.
End properties.

(** ** Concrete runs *)

Definition ex_config : IPPoolManagerConfig := setDefaultsForIPPoolManagerConfig (MkPoolConfig None false true false).
Definition ex_spec : IPPoolSpec :=
  MkIPPoolSpec (Some IPv4) "10.0.0.0/24" ["10.0.0.1-10.0.0.3"] ["10.0.0.1"] None None None None [] None [] [] None None.
Definition ex_pool : SpiderIPPool := MkIPPool (plain_meta "" "pool" "") ex_spec (MkIPPoolStatus None None None).
Definition ex_pod : ObjectMeta := plain_meta "default" "web-0" "uid-0".
Definition ex_top : PodTopController := MkTopController (MkApp "v1" "Pod" "default" "web-0") "uid-0".
Definition ex_store : mem_store SpiderIPPool := MkStore {["pool" := ex_pool]} 1.
Definition ex_ip : IP := v4InV6Prefix ++ [10; 0; 0; 2].

Definition ex_json : JSON PoolIPAllocations := countable_json.
Definition ex_json_laws : @JSONLaws PoolIPAllocations ex_json := countable_json_laws.

Lemma ex_pool_ok : @pool_ok ex_json [] ex_pool IPv4 ∅.
Proof.
  split; [reflexivity..| | | | |constructor].
  - intros k [r Hr]. by rewrite lookup_empty in Hr.
  - apply (bool_decide_unpack _). vm_compute. exact I.
  - apply (bool_decide_unpack _). vm_compute. exact I.
  - apply (bool_decide_unpack _). vm_compute. exact I.
Qed.

Lemma ex_store_valid : mem_valid ex_store.
Proof. intros k o. cbn [objs ex_store]. intros [<- <-]%lookup_singleton_Some. by split. Qed.

Lemma genRandomIP_exhaustion_witness :
  (genRandomIP (MR := ordered_range) (J := ex_json) ex_config [] ex_pool ex_pod ex_top = Fail ErrIPUsedOut ↔
    (∀ ip, ¬ free_address [] ex_pool IPv4 ∅ ip) ∨ 5000 ≤ Z.of_nat (size (∅ : PoolIPAllocations))) ∧
  (Z.of_nat (size (∅ : PoolIPAllocations)) < 5000 → (∃ ip, free_address [] ex_pool IPv4 ∅ ip) →
    ∃ pre ip post p', ranges_ips (ps_IPs (pool_spec ex_pool)) = pre ++ ip :: post ∧
      Forall (λ x, ¬ free_address [] ex_pool IPv4 ∅ x) pre ∧ free_address [] ex_pool IPv4 ∅ ip ∧
      genRandomIP (MR := ordered_range) (J := ex_json) ex_config [] ex_pool ex_pod ex_top = Ret (ip, p')).
Proof.
  apply (genRandomIP_exhaustion (MR := ordered_range) (J := ex_json) ex_config [] ex_pool IPv4 ∅ ex_pod ex_top 5000);
    [apply ex_pool_ok|reflexivity|]. intros k r Hr. by rewrite lookup_empty in Hr.
Defined.

Lemma genRandomIP_idempotent_witness :
  ∃ p', genRandomIP (MR := ordered_range) (J := ex_json) ex_config [] ex_pool ex_pod ex_top = Ret (ex_ip, p') ∧
    let q := merge_status ex_pool p' 1 in
    genRandomIP (MR := ordered_range) (J := ex_json) ex_config [] q ex_pod ex_top = Ret (ex_ip, q).
Proof.
  eexists. split; [vm_compute; reflexivity|].
  apply (genRandomIP_idempotent (MR := ordered_range) (JL := ex_json_laws) ex_config [] ex_pool IPv4 ∅ ex_pod ex_top ex_ip _ 5000 1);
    [apply ex_pool_ok|reflexivity| |vm_compute; reflexivity].
  intros k1 r1 k2 r2 Hr. by rewrite lookup_empty in Hr.
Defined.

Lemma allocate_release_roundtrip_witness :
  ∃ p', genRandomIP (MR := ordered_range) (J := ex_json) ex_config [] ex_pool ex_pod ex_top = Ret (ex_ip, p') ∧
    let q := merge_status ex_pool p' 1 in
    let ius := [MkIPAndUID (ip_string ex_ip) (UID ex_pod); MkIPAndUID (ip_string ex_ip) (UID ex_pod)] in
    ∃ st, release_compute (J := ex_json) ius q = Ret (Some st) ∧
      UnmarshalIPPoolAllocatedIPs (J := ex_json) (AllocatedIPs st) = Ret ∅ ∧
      AllocatedIPCount st = Some (Z.of_nat (size (∅ : PoolIPAllocations))).
Proof.
  eexists. split; [vm_compute; reflexivity|].
  apply (allocate_release_roundtrip (MR := ordered_range) (JL := ex_json_laws) ex_config [] ex_pool IPv4 ∅ ex_pod ex_top ex_ip _ 5000 1);
    [apply ex_pool_ok|reflexivity| |vm_compute; reflexivity].
  intros k r Hr. by rewrite lookup_empty in Hr.
Defined.

(** Another client writes the pool before the first attempt's write, so that it conflicts. *)
Definition ex_env (i : nat) (s : mem_store SpiderIPPool) : mem_store SpiderIPPool :=
  if (i =? 1)%nat then
    match objs s !! "pool" with
    | Some p => (api_update_status s p).2
    | None => s
    end
  else s.

Lemma ex_env_later i s : mem_valid s → mem_later s (ex_env i s).
Proof.
  intros Hv. unfold ex_env. case_match; [|done]. case_match; [|done].
  destruct (api_update_status s _) as [r s'] eqn:E. by eapply mem_update_later in E.
Qed.

Definition ex_rIPs (i : nat) : list SpiderReservedIP := [].

Definition ex_allocate : cmd (mem_store SpiderIPPool) IPConfig :=
  AllocateIP (MR := ordered_range) (J := ex_json) ex_config ex_rIPs ex_env (λ _, false) "pool" "eth0" ex_pod ex_top.

Lemma AllocateIP_exclusive_witness :
  ∃ cfg s', ex_allocate ex_store = (Ret cfg, s') ∧ Address cfg = "10.0.0.2/24"%string ∧
  ∃ i sc p q, later ex_store sc ∧ later sc s' ∧ view sc !! "pool"%string = Some p ∧
    view s' = <["pool"%string := q]> (view sc) ∧ pool_spec q = pool_spec p ∧
    ∀ v records, pool_ok (H := ex_json) (ex_rIPs i) p v records →
      ∃ ip, index (split "/" (Address cfg)) 0 = Ret (ip_string ip) ∧
      ((∃ r, records !! ip_string ip = Some r ∧ PodUID r = UID ex_pod ∧ pool_records (J := ex_json) q = Ret records) ∨
       (free_address (ex_rIPs i) p v records ip ∧
        pool_records (J := ex_json) q =
          Ret (<[ip_string ip := MkPoolIPAllocation (allocation_key ex_config ex_pod ex_top) (UID ex_pod)]> records))).
Proof.
  destruct (ex_allocate ex_store) as [[cfg|e| |] s'] eqn:E; [|exfalso; vm_compute in E; discriminate E..].
  exists cfg, s'. split; [done|]. split; [vm_compute in E; by injection E as <- _|].
  apply (AllocateIP_exclusive (MR := ordered_range) (JL := ex_json_laws) (S := mem_store SpiderIPPool)
    ex_config ex_rIPs ex_env (λ _, false) "pool" "eth0" ex_pod ex_top 5000 ex_store cfg s');
    [apply ex_env_later|reflexivity|apply ex_store_valid|exact E].
Defined.

(** The store after the allocation, and the operations on it. *)
Definition ex_store2 : mem_store SpiderIPPool := (ex_allocate ex_store).2.

Lemma ex_store2_valid : mem_valid ex_store2.
Proof.
  intros k o. unfold ex_store2.
  assert (objs (ex_allocate ex_store).2 = {["pool"%string := default ex_pool (objs (ex_allocate ex_store).2 !! "pool"%string)]}) as ->
    by (vm_compute; reflexivity).
  intros [<- <-]%lookup_singleton_Some. split; vm_compute; reflexivity.
Qed.

Lemma ReleaseIP_exact_witness :
  let ius := [MkIPAndUID "10.0.0.2" "uid-0"; MkIPAndUID "10.0.0.3" "uid-0"] in
  ∃ s', ReleaseIP (J := ex_json) ex_env (λ _, false) "pool" ius ex_store2 = (Ret (), s') ∧
  ∃ p q records records', later ex_store2 s' ∧ pool_records (J := ex_json) p = Ret records ∧
    view s' !! "pool"%string = Some q ∧ pool_spec q = pool_spec p ∧ pool_records (J := ex_json) q = Ret records' ∧
    (∀ k, records' !! k = match records !! k with
                          | Some r => if decide (names ius k r) then None else Some r
                          | None => None
                          end) ∧
    (records' ≠ records → AllocatedIPCount (pool_status q) = Some (Z.of_nat (size records'))).
Proof.
  intros ius. destruct (ReleaseIP (J := ex_json) ex_env (λ _, false) "pool" ius ex_store2) as [[[]|e| |] s'] eqn:E;
    [|exfalso; vm_compute in E; discriminate E..].
  exists s'. split; [done|].
  apply (ReleaseIP_exact (JL := ex_json_laws) (S := mem_store SpiderIPPool) ex_env (λ _, false) "pool" ius ex_store2 s');
    [apply ex_env_later|apply ex_store2_valid|exact E].
Defined.

Lemma UpdateAllocatedIPs_keeps_owner_witness :
  let ius := [MkIPAndUID "10.0.0.2" "uid-1"] in
  ∃ s', UpdateAllocatedIPs (J := ex_json) ex_env (λ _, false) "pool" "default/web-0" ius ex_store2 = (Ret (), s') ∧
  ∃ p q records records', later ex_store2 s' ∧ pool_records (J := ex_json) p = Ret records ∧
    view s' !! "pool"%string = Some q ∧ pool_spec q = pool_spec p ∧ pool_records (J := ex_json) q = Ret records' ∧
    (∀ k, match records !! k with
          | Some r => ∃ r', records' !! k = Some r' ∧ NamespacedName r' = NamespacedName r ∧
                        (PodUID r' = PodUID r ∨ MkIPAndUID k (PodUID r') ∈ ius)
          | None => records' !! k = None
          end) ∧
    (∀ k r, records !! k = Some r → k ∈ iu_IP <$> ius → NamespacedName r = "default/web-0"%string).
Proof.
  intros ius.
  destruct (UpdateAllocatedIPs (J := ex_json) ex_env (λ _, false) "pool" "default/web-0" ius ex_store2) as [[[]|e| |] s'] eqn:E;
    [|exfalso; vm_compute in E; discriminate E..].
  exists s'. split; [done|].
  apply (UpdateAllocatedIPs_keeps_owner (JL := ex_json_laws) (S := mem_store SpiderIPPool)
    ex_env (λ _, false) "pool" "default/web-0" ius ex_store2 s');
    [apply ex_env_later|apply ex_store2_valid|exact E].
Defined.

Lemma pool_records_invariant_witness :
  ∃ p', genRandomIP (MR := ordered_range) (J := ex_json) ex_config [] ex_pool ex_pod ex_top = Ret (ex_ip, p') ∧
    records_inv (J := ex_json) (merge_status ex_pool p' 1).
Proof.
  eexists. split; [vm_compute; reflexivity|].
  eapply (pool_records_invariant (MR := ordered_range) (JL := ex_json_laws) ex_config 5000 ex_pool); [reflexivity| |].
  - apply rtc_once. eapply step_allocate; [apply ex_pool_ok|]. instantiate (1 := ex_ip). instantiate (1 := ex_top).
    instantiate (1 := ex_pod). vm_compute. reflexivity.
  - exists ∅. split_and!; [reflexivity|reflexivity|]. intros k [r Hr]. by rewrite lookup_empty in Hr.
Defined.
