(* ===== verification/PoolLease.v ===== *)
(** * The pools as tables of leases

    What the pool manager (pkg/ippoolmanager/ippool_manager.go) promises to the IPAM: a pool is a
    table of leases that is changed by granting a free address, revoking a lease or renewing it for
    the same owner.  The retry loops over optimistic writes, the JSON field and the search for an
    address implement it, whatever other clients do.  [Guarantee] is the interface through which
    the clients (pkg/ipam) are verified: anything that holds of the abstract steps holds of them. *)

From S2P Require Import Prelude NetIP NetIPFacts IPAddr IPRange K8s Retry ReservedIP Convert IPPoolManager.
Local Open Scope Z_scope.

(** ** The specification *)

(** One change of a table, by somebody who may revoke leases with a UID of [U], renew those of an
    owner of [N], and whose new leases are in [Gr]. *)
Inductive table_step (U N : string → Prop) (Gr : PoolIPAllocation → Prop) (T : PoolIPAllocations) : PoolIPAllocations → Prop :=
  | grant k r : T !! k = None → Gr r → table_step U N Gr T (<[k := r]> T)
  | revoke k r : T !! k = Some r → U (PodUID r) → table_step U N Gr T (delete k T)
  | renew k r uid : T !! k = Some r → N (NamespacedName r) → Gr (MkPoolIPAllocation (NamespacedName r) uid) →
      table_step U N Gr T (<[k := MkPoolIPAllocation (NamespacedName r) uid]> T).

Abbreviation lease_table := (gmap string PoolIPAllocations).

Inductive lease_step (U N : string → Prop) (Gr : PoolIPAllocation → Prop) (L : lease_table) : lease_table → Prop :=
  | change pool T T' : L !! pool = Some T → table_step U N Gr T T' → lease_step U N Gr L (<[pool := T']> L).

(** Steps of one client, between those of others. *)
Definition beside (others step : lease_table → lease_table → Prop) (L L' : lease_table) : Prop := step L L' ∨ others L L'.

(** The lease of an address. *)
Definition leased (L : lease_table) (pool k : string) (r : PoolIPAllocation) : Prop := ∃ T, L !! pool = Some T ∧ T !! k = Some r.

Lemma lease_steps_of_table U N Gr L pool T T' : L !! pool = Some T → rtc (table_step U N Gr) T T' → rtc (lease_step U N Gr) L (<[pool := T']> L).
Proof.
  intros HL H. revert L HL. induction H as [T|T T1 T' Hs _ IH]; intros L HL; [by rewrite insert_id|].
  eapply rtc_l; [by apply (change U N Gr L pool T T1)|]. specialize (IH (<[pool := T1]> L)). rewrite insert_insert_eq in IH.
  apply IH, lookup_insert_eq.
Qed.

(** A lease survives the steps of those who may neither revoke nor renew it. *)
Lemma lease_step_keeps U N Gr L L' pool k r :
  ¬ U (PodUID r) → ¬ N (NamespacedName r) → lease_step U N Gr L L' →
  (∃ T, L !! pool = Some T ∧ T !! k = Some r) → ∃ T, L' !! pool = Some T ∧ T !! k = Some r.
Proof.
  intros HU HN [pool' T1 T1' HL Hs] (T & HT & Hk). destruct (decide (pool' = pool)) as [->|Hne]; [|exists T; by rewrite lookup_insert_ne].
  exists T1'. split; [apply lookup_insert_eq|]. assert (T1 = T) as -> by congruence.
  destruct Hs as [k' r' Hn _|k' r' Hn HU'|k' r' uid Hn HN' _]; (destruct (decide (k' = k)) as [->|Hk']; [congruence|]);
    by rewrite ?lookup_insert_ne, ?lookup_delete_ne.
Qed.

(** What the steps of one client amount to: every lease is an old one or one of its own, and one it
    may neither revoke nor renew is kept. *)
Lemma lease_steps_own U N Gr L L' pool k r : rtc (lease_step U N Gr) L L' → leased L' pool k r → leased L pool k r ∨ Gr r.
Proof.
  induction 1 as [L|L L1 L' Hs _ IH]; [by left|]. intros [(T & HT & Hk)|?]%IH; [|by right]. destruct Hs as [pool' T1 T1' HL Hs].
  destruct (decide (pool' = pool)) as [->|Hne]; [|rewrite lookup_insert_ne in HT by done; left; by exists T].
  rewrite lookup_insert_eq in HT. injection HT as <-. unfold leased.
  destruct Hs as [k' r' _ HG|k' r' _ _|k' r' uid Hn HN' HG]; (destruct (decide (k' = k)) as [->|Hk']);
    rewrite ?lookup_insert_eq, ?lookup_delete_eq, ?lookup_insert_ne, ?lookup_delete_ne in Hk by done; simplify_eq; eauto.
Qed.

(** ** The operations on records implement the steps *)

Section tables.
Context (U N : string → Prop) (Gr : PoolIPAllocation → Prop).

Lemma release_fold_steps records ius :
  (∀ iu, iu ∈ ius → U (iu_UID iu)) → rtc (table_step U N Gr) records (foldl release_record records ius).
Proof.
  revert records. induction ius as [|iu ius IH]; intros records HU; cbn [foldl]; [done|].
  etrans; [|apply IH; intros; by apply HU, list_elem_of_further]. unfold release_record.
  destruct (records !! iu_IP iu) as [r|] eqn:E; [|done]. case_bool_decide as Hu; [|done]. apply rtc_once.
  apply (revoke U N Gr _ _ r E). rewrite Hu. apply HU, list_elem_of_here.
Qed.

Lemma update_records_steps nn records ius b records' b' :
  N nn → (∀ iu, iu ∈ ius → Gr (MkPoolIPAllocation nn (iu_UID iu))) → update_records nn records ius b = Ret (records', b') → rtc (table_step U N Gr) records records'.
Proof.
  intros HN. revert records b. induction ius as [|iu ius IH]; intros records b HG; cbn [update_records]; [by intros [= -> _]|].
  assert (∀ iu, iu ∈ ius → Gr (MkPoolIPAllocation nn (iu_UID iu))) as HG' by (intros; by apply HG, list_elem_of_further).
  destruct (records !! iu_IP iu) as [r|] eqn:E; [|by apply IH]. case_bool_decide as Hn; cbn [negb]; [|done].
  case_bool_decide as Hu; cbn [negb]; [by apply IH|]. intros Hr%IH; [|done]. eapply rtc_l; [|exact Hr].
  apply (renew U N Gr _ _ r); [done|by rewrite Hn|]. rewrite Hn. apply HG, list_elem_of_here.
Qed.

Context `{MR : MapRange} `{J : JSON PoolIPAllocations} `{JL : !JSONLaws PoolIPAllocations}.

(** What is computed from a pool turns its records into ones reached by steps. *)
Definition stepping (f : SpiderIPPool → outcome (option IPPoolStatus)) : Prop :=
  ∀ p st records, f p = Ret (Some st) → UnmarshalIPPoolAllocatedIPs (AllocatedIPs (pool_status p)) = Ret records →
    ∃ records', UnmarshalIPPoolAllocatedIPs (AllocatedIPs st) = Ret records' ∧ rtc (table_step U N Gr) records records'.

Lemma release_compute_stepping ius : (∀ iu, iu ∈ ius → U (iu_UID iu)) → stepping (release_compute ius).
Proof.
  intros HU p st records Hc Hrec. unfold release_compute in Hc. rewrite Hrec in Hc. cbn in Hc. injection Hc as Hc.
  destruct (releases records ius); [|done]. injection Hc as <-. eexists. split; [apply Unmarshal_Marshal|by apply release_fold_steps].
Qed.

Lemma update_compute_stepping nn ius : N nn → (∀ iu, iu ∈ ius → Gr (MkPoolIPAllocation nn (iu_UID iu))) → stepping (update_compute nn ius).
Proof.
  intros HN HG p st records Hc Hrec. unfold update_compute in Hc. rewrite Hrec in Hc. cbn [mbind outcome_bind] in Hc.
  apply bind_Ret in Hc as ([records' b] & Hu & [= Hc]). destruct b; [|done]. injection Hc as <-.
  exists records'. split; [apply Unmarshal_Marshal|by eapply update_records_steps].
Qed.

(** An address that is found free is not recorded. *)
Lemma pick_address_fresh v p reservedIPs unAvailableIPs records ks usedIPs key uid ip :
  scan_records (range_kv records) uid [] = inr ks → ParseIPRanges v ks = Ret usedIPs →
  pick_address v p reservedIPs usedIPs unAvailableIPs records key uid = Ret ip → records !! ip_string ip = None.
Proof.
  intros Hs Hu Hp. pose proof (scan_records_spec (range_kv records) uid []) as Hscan. rewrite Hs in Hscan.
  destruct Hscan as [-> Hno]. cbn [app] in *. unfold pick_address in Hp. apply bind_Ret in Hp as (avail & Hav & Hp).
  destruct (length avail =? 0)%nat.
  { unfold findAllocatedIPFromRecords in Hp. destruct (list_find _ (range_kv records)) as [[i [k' r']]|] eqn:Ef; [|done].
    apply list_find_Some in Ef as (Hl & [_ ?] & _). rewrite Forall_forall in Hno. by destruct (Hno _ (list_elem_of_lookup_2 _ _ _ Hl)). }
  cbn [mbind outcome_bind] in Hp. unfold index in Hp. destruct avail as [|a avail]; [done|]. injection Hp as <-.
  destruct (FindAvailableIPs_fresh _ _ _ _ a Hav (list_elem_of_here _ _)) as [Ha Hne].
  destruct (records !! ip_string a) as [r0|] eqn:Er; [|done]. exfalso. apply (Hne a); [|done|done].
  apply elem_of_app. right. apply elem_of_app. right.
  unfold ParseIPRanges in Hu. apply concat_map_m_Ret in Hu as (rs & Hall & ->). apply elem_of_concat.
  assert (ip_string a ∈ (range_kv records).*1) as Hin.
  { apply list_elem_of_fmap. exists (ip_string a, r0). split; [done|]. by apply elem_of_range_kv. }
  apply list_elem_of_lookup in Hin as [j Hj]. destruct (Forall2_lookup_l _ _ _ _ _ Hall Hj) as (ys & Hys & Hpr).
  exists ys. split; [by eapply list_elem_of_lookup_2|]. unfold ParseIPRange in Hpr. apply bind_Ret in Hpr as (_ & _ & Hpr).
  rewrite split_single in Hpr by auto with addr. cbn in Hpr. injection Hpr as <-.
  rewrite net_ParseIP_print by done. apply list_elem_of_here.
Qed.

(** An allocation grants at most one lease, of a free address. *)
Lemma genRandomIP_steps config rIPs p pod top ip p' records :
  (∀ key, Gr (MkPoolIPAllocation key (UID pod))) →
  genRandomIP config rIPs p pod top = Ret (ip, p') → UnmarshalIPPoolAllocatedIPs (AllocatedIPs (pool_status p)) = Ret records →
  ∃ records', UnmarshalIPPoolAllocatedIPs (AllocatedIPs (pool_status p')) = Ret records' ∧ rtc (table_step U N Gr) records records'.
Proof.
  intros HG Hg Hrec. unfold genRandomIP in Hg. apply bind_Ret in Hg as (v & _ & Hg). apply bind_Ret in Hg as (reservedIPs & _ & Hg).
  rewrite Hrec in Hg. cbn [mbind outcome_bind] in Hg. destruct (scan_records _ _ _) as [ip'|ks] eqn:Hs.
  { injection Hg as _ <-. by exists records. }
  apply bind_Ret in Hg as (usedIPs & Hu & Hg). apply bind_Ret in Hg as (un & _ & Hg). apply bind_Ret in Hg as (ip1 & Hp & Hg).
  apply bind_Ret in Hg as (max & _ & Hg). case_match; [done|]. injection Hg as _ <-.
  eexists. split; [apply Unmarshal_Marshal|]. apply rtc_once, grant; [by eapply pick_address_fresh|apply HG].
Qed.
End tables.

(** ** The interface to the clients *)

(** What follows from the steps of somebody who may revoke [U], renew [N] and grant [Gr]. *)
Class Guarantee (U N : string → Prop) (Gr : PoolIPAllocation → Prop) (Q : lease_table → lease_table → Prop) := {
  guarantee_preorder : PreOrder Q;
  guarantee_step : ∀ L L', lease_step U N Gr L L' → Q L L'
}.

(** The steps themselves, whatever others do between them: the strongest guarantee. *)
#[export] Instance steps_guarantee U N Gr others : Guarantee U N Gr (rtc (beside others (lease_step U N Gr))).
Proof. split; [apply _|]. intros L L' H. by apply rtc_once; left. Qed.

(** What others do is within it. *)
Lemma others_beside others step L L' : others L L' → rtc (beside others step) L L'.
Proof. intros H. by apply rtc_once; right. Qed.

(** A lease is kept by those who may not touch it. *)
Definition keeps_lease (pool k : string) (r : PoolIPAllocation) (L L' : lease_table) : Prop :=
  (∃ T, L !! pool = Some T ∧ T !! k = Some r) → ∃ T, L' !! pool = Some T ∧ T !! k = Some r.

#[export] Instance keeps_guarantee pool k r : Guarantee (λ u, u ≠ PodUID r) (λ n, n ≠ NamespacedName r) (λ _, True) (keeps_lease pool k r).
Proof.
  split; [split; [by intros L H|]|].
  - intros L1 L2 L3 H1 H2 H. by apply H2, H1.
  - intros L L' Hs Hl. eapply lease_step_keeps; [| |exact Hs|exact Hl]; intros Hn; by apply Hn.
Qed.

Section guarantee.
Context `{MR : MapRange} `{J : JSON PoolIPAllocations} `{JL : !JSONLaws PoolIPAllocations}.
Context {S : Type} `{KS : KubeStore S SpiderIPPool} `{KL : !KubeStoreLaws S SpiderIPPool}.

(** The tables of a state: the records of its pools. *)
Definition pool_leases (p : SpiderIPPool) : option PoolIPAllocations :=
  match UnmarshalIPPoolAllocatedIPs (AllocatedIPs (pool_status p)) with Ret records => Some records | _ => None end.
Definition leases (s : S) : lease_table := omap pool_leases (view s).

Lemma leases_recorded pool k r s : (∃ T, leases s !! pool = Some T ∧ T !! k = Some r) ↔ recorded pool k r s.
Proof.
  unfold leases, recorded. setoid_rewrite lookup_omap_Some. unfold pool_leases. split.
  - intros (T & (p & Hp & Hv) & Hk). exists p, T. destruct (UnmarshalIPPoolAllocatedIPs _); simplify_eq. done.
  - intros (p & T & Hv & Hp & Hk). exists T. split; [|done]. exists p. by rewrite Hp.
Qed.

(** A guarantee to keep the lease, in terms of what is recorded. *)
Lemma keeps_recorded pool k r s s' : keeps_lease pool k r (leases s) (leases s') ↔ (recorded pool k r s → recorded pool k r s').
Proof. unfold keeps_lease. by rewrite !leases_recorded. Qed.

Context {U N : string → Prop} {Gr : PoolIPAllocation → Prop} (Q : lease_table → lease_table → Prop) `{G : !Guarantee U N Gr Q}.

(** The state stays valid, moves on, and its tables change as guaranteed. *)
Definition guaranteed (s s' : S) : Prop := valid s → valid s' ∧ later s s' ∧ Q (leases s) (leases s').

#[local] Existing Instance guarantee_preorder.

#[export] Instance guaranteed_preorder : PreOrder guaranteed.
Proof.
  split; [by intros s V|]. intros s1 s2 s3 H1 H2 V1. destruct (H1 V1) as (V2 & L1 & K1), (H2 V2) as (V3 & L2 & K2).
  split_and!; [done|by etrans|by etrans].
Qed.

Lemma guarantee_steps L L' : rtc (lease_step U N Gr) L L' → Q L L'.
Proof. induction 1 as [|L L1 L' H _ IH]; [done|]. etrans; [by apply guarantee_step|done]. Qed.

(** A status computed from a pool that was read, and written to it, whatever the answer to the
    write. *)
Lemma write_guaranteed s1 s2 name p st o s3 :
  valid s1 → api_get s1 name = Ret p → guaranteed s1 s2 → api_update_status s2 (set_pool_status st p) = (o, s3) →
  (∃ records records', UnmarshalIPPoolAllocatedIPs (AllocatedIPs (pool_status p)) = Ret records ∧
     UnmarshalIPPoolAllocatedIPs (AllocatedIPs st) = Ret records' ∧ rtc (table_step U N Gr) records records') →
  guaranteed s2 s3.
Proof.
  intros V1 Hg K12 Hu (T & T' & HT & HT' & Hst) V2. destruct (K12 V1) as (_ & L12 & _). pose proof (update_later _ _ _ _ V2 Hu) as L23.
  split_and!; [by eapply later_valid|done|]. destruct (get_found s1 name p V1 Hg) as [Hp Hname].
  assert (view s3 = view s2 ∨ ∃ old v, view s2 !! name = Some old ∧ obj_version old = obj_version p ∧
    view s3 = <[name := merge_status old (set_pool_status st p) v]> (view s2)) as [Ev|(old & v & Ho & Hv & Ev)].
  { rewrite <- Hname. destruct (update_total _ _ _ _ Hu) as [->|[e ->]].
    - right. by apply (update_applied _ _ _ V2 Hu).
    - destruct (update_failed _ _ _ _ V2 Hu) as [?|[_ ?]]; auto. }
  { unfold leases. by rewrite Ev. }
  assert (old = p) as -> by by apply (later_version s1 s2 name).
  assert (leases s3 = <[name := T']> (leases s2)) as ->.
  { unfold leases. rewrite Ev. apply omap_insert_Some. unfold pool_leases. cbn. by rewrite HT'. }
  apply guarantee_steps, (lease_steps_of_table U N Gr _ name T T'); [|done]. unfold leases. rewrite lookup_omap, Ho. cbn.
  unfold pool_leases. by rewrite HT.
Qed.

Context (env : nat → S → S) (Henv : ∀ i s, guaranteed s (env i s)) (cancelled : nat → bool).

Lemma attempt_guaranteed (f : SpiderIPPool → outcome (option IPPoolStatus)) name i s :
  stepping U N Gr f → (∀ p st, f p = Ret (Some st) → ∃ records, UnmarshalIPPoolAllocatedIPs (AllocatedIPs (pool_status p)) = Ret records) →
  guaranteed s ((_ ← meanwhile (env (2 * i));
   ipPool ← GetIPPoolByName name;
   o ← lift (f ipPool);
   match o with
   | None => mret ()
   | Some st => _ ← meanwhile (env (2 * i + 1)); UpdateStatus (set_pool_status st ipPool)
   end : cmd S unit) s).2.
Proof.
  intros Hf Hok. unfold meanwhile, GetIPPoolByName, read, lift, UpdateStatus, mbind, cmd_bind.
  destruct (api_get (env (2 * i) s) name) as [p|?| |] eqn:Hg; [|apply Henv..].
  destruct (f p) as [[st|]|?| |] eqn:Hc; [|apply Henv..].
  destruct (api_update_status _ _) as [o s3] eqn:Hu. cbn. intros V. pose proof (Henv (2 * i) s V) as (V1 & L1 & K1).
  assert (guaranteed s s3) as K; [|by apply K]. etrans; [apply Henv|]. etrans; [apply (Henv (2 * i + 1))|].
  eapply write_guaranteed; [exact V1|exact Hg|apply Henv|exact Hu|]. destruct (Hok p st Hc) as [records Hr].
  destruct (Hf p st records Hc Hr) as (records' & ? & ?). by exists records, records'.
Qed.

(** A release of addresses under UIDs of [U], however it ends. *)
Lemma ReleaseIP_guaranteed name ius : (∀ iu, iu ∈ ius → U (iu_UID iu)) → evolves guaranteed (ReleaseIP env cancelled name ius).
Proof.
  intros Hius. apply evolves_map_error, evolves_retry; [apply _|]. intros i s. rewrite release_attempt_eq.
  apply attempt_guaranteed; [by apply release_compute_stepping|]. intros p st (records & Hr & _)%bind_Ret. eauto.
Qed.

(** A re-allocation for a name of [N], however it ends. *)
Lemma UpdateAllocatedIPs_guaranteed name nn ius :
  N nn → (∀ iu, iu ∈ ius → Gr (MkPoolIPAllocation nn (iu_UID iu))) → evolves guaranteed (UpdateAllocatedIPs env cancelled name nn ius).
Proof.
  intros Hnn HG. apply evolves_map_error, evolves_retry; [apply _|]. intros i s. rewrite update_attempt_eq.
  apply attempt_guaranteed; [by apply update_compute_stepping|]. intros p st (records & Hr & _)%bind_Ret. eauto.
Qed.

Lemma genRandomIP_records config rIPs p pod top ip p' :
  genRandomIP config rIPs p pod top = Ret (ip, p') → ∃ records, UnmarshalIPPoolAllocatedIPs (AllocatedIPs (pool_status p)) = Ret records.
Proof. intros (v & _ & (reservedIPs & _ & (records & Hr & _)%bind_Ret)%bind_Ret)%bind_Ret. eauto. Qed.

Lemma allocate_attempt_guaranteed config rIPs name nic pod top i :
  (∀ key, Gr (MkPoolIPAllocation key (UID pod))) → evolves guaranteed (allocate_attempt config rIPs env name nic pod top i).
Proof.
  intros HG s. unfold allocate_attempt, meanwhile, GetIPPoolByName, read, lift, UpdateStatus, mbind, cmd_bind.
  destruct (api_get (env (2 * i) s) name) as [p|?| |] eqn:Hg; [|apply Henv..].
  destruct (genRandomIP _ _ p _ _) as [[ip p']|?| |] eqn:Hc; [|apply Henv..].
  assert (p' = set_pool_status (pool_status p') p) as Ep.
  { destruct (genRandomIP_same _ _ _ _ _ _ _ Hc) as [H1 H2]. destruct p, p'. cbn in *. unfold set_pool_status. cbn. by subst. }
  destruct (api_update_status _ _) as [o s3] eqn:Hu. intros V. pose proof (Henv (2 * i) s V) as (V1 & L1 & K1).
  assert (guaranteed s s3) as K; [|destruct o; by apply K]. etrans; [apply Henv|]. etrans; [apply (Henv (2 * i + 1))|].
  rewrite Ep in Hu. eapply write_guaranteed; [exact V1|exact Hg|apply Henv|exact Hu|].
  destruct (genRandomIP_records _ _ _ _ _ _ _ Hc) as [records Hr].
  destruct (genRandomIP_steps U N Gr _ _ _ _ _ _ _ _ HG Hc Hr) as (records' & ? & ?). by exists records, records'.
Qed.

(** An allocation, however it ends. *)
Lemma AllocateIP_guaranteed config rIPs name nic pod top :
  (∀ key, Gr (MkPoolIPAllocation key (UID pod))) → evolves guaranteed (AllocateIP config rIPs env cancelled name nic pod top).
Proof.
  intros HG. unfold AllocateIP. apply evolves_bind; [apply _| |intros cfg; by apply evolves_ret, _].
  apply evolves_map_error, evolves_retry; [apply _|]. intros i. by apply allocate_attempt_guaranteed.
Qed.
End guarantee.

(** What others do is within the steps that are taken beside them. *)
Lemma guaranteed_beside `{J : JSON PoolIPAllocations} {S} `{KS : KubeStore S SpiderIPPool} `{KL : !KubeStoreLaws S SpiderIPPool} others step (s s' : S) :
  guaranteed others s s' → guaranteed (rtc (beside others step)) s s'.
Proof. intros H V. destruct (H V) as (V' & L & Q). split_and!; [done..|by apply others_beside]. Qed.
