(* ===== verification/PoolUtils.v ===== *)
(** * pkg/ippoolmanager/utils.go: candidate pools

    The affinity of auto-created pools to their application, the order in which candidate pools
    are tried, and the expansion of wildcards in pool names ([ParseWildcardPoolNameList] of
    ippool_manager.go) with [filepath.Match]. *)

From S2P Require Import Prelude IPAddr K8s IPPoolManager.
Local Open Scope Z_scope.
Local Open Scope go_scope.

(** ** Auto-created pools *)

Definition AnnotationPre : string := "ipam.spidernet.io".
Definition LabelIPPoolOwnerApplicationName : string := AnnotationPre +:+ "/owner-application-name".
Definition AutoPoolPodAffinityAppAPIGroup : string := AnnotationPre +:+ "/app-api-group".
Definition AutoPoolPodAffinityAppAPIVersion : string := AnnotationPre +:+ "/app-api-version".
Definition AutoPoolPodAffinityAppKind : string := AnnotationPre +:+ "/app-kind".
Definition AutoPoolPodAffinityAppNS : string := AnnotationPre +:+ "/app-namespace".
Definition AutoPoolPodAffinityAppName : string := AnnotationPre +:+ "/app-name".
Definition AutoPoolPodAffinities : list string :=
  [AutoPoolPodAffinityAppAPIGroup; AutoPoolPodAffinityAppAPIVersion; AutoPoolPodAffinityAppKind;
   AutoPoolPodAffinityAppNS; AutoPoolPodAffinityAppName].

Definition IsAutoCreatedIPPool (pool : SpiderIPPool) : bool :=
  bool_decide (is_Some (Labels (pool_meta pool) !! LabelIPPoolOwnerApplicationName)).

(** The labels that identify an application, given its group and version. *)
Definition app_labels (group version : string) (app : AppNamespacedName) : gmap string string :=
  list_to_map (zip AutoPoolPodAffinities [group; version; app_Kind app; app_Namespace app; app_Name app]).

(** [metav1.SetAsLabelSelector] makes the set the match labels. *)
Definition NewAutoPoolPodAffinity (podTopController : PodTopController) : LabelSelector :=
  let app := top_app podTopController in
  let '(group, version) :=
    match cut "/" (app_APIVersion app) with
    | Some (first, second) => (first, second)
    | None => (""%string, app_APIVersion app)
    end in
  MkSelector (app_labels group version app) [].

(** [strings.Cut] without the separator returns the whole string first; a missing label reads as
    the empty string. *)
Definition IsMatchAutoPoolAffinity (podAffinity : option LabelSelector) (podTopController : PodTopController) : bool :=
  match podAffinity with
  | None => false
  | Some podAffinity =>
      let app := top_app podTopController in
      let '(group, version) := default (app_APIVersion app, ""%string) (cut "/" (app_APIVersion app)) in
      forallb (λ '(k, v), (default ""%string (MatchLabels podAffinity !! k) == v))
        (map_to_list (app_labels group version app))
  end.

(** ** The order of the pools *)

Definition is_set {A} (o : option A) : bool := match o with Some _ => true | None => false end.
Definition nonempty {A} (l : list A) : bool := match l with [] => false | _ => true end.

Definition Less (a b : SpiderIPPool) : bool :=
  let a := pool_spec a in let b := pool_spec b in
  if is_set (ps_PodAffinity a) && negb (is_set (ps_PodAffinity b)) then true
  else if negb (is_set (ps_PodAffinity a)) && is_set (ps_PodAffinity b) then false
  else if nonempty (ps_NodeName a) && negb (nonempty (ps_NodeName b)) then true
  else if negb (nonempty (ps_NodeName a)) && nonempty (ps_NodeName b) then false
  else if is_set (ps_NodeAffinity a) && negb (is_set (ps_NodeAffinity b)) then true
  else if negb (is_set (ps_NodeAffinity a)) && is_set (ps_NodeAffinity b) then false
  else if nonempty (ps_NamespaceName a) && negb (nonempty (ps_NamespaceName b)) then true
  else if negb (nonempty (ps_NamespaceName a)) && nonempty (ps_NamespaceName b) then false
  else if is_set (ps_NamespaceAffinity a) && negb (is_set (ps_NamespaceAffinity b)) then true
  else if negb (is_set (ps_NamespaceAffinity a)) && is_set (ps_NamespaceAffinity b) then false
  else if nonempty (ps_MultusName a) && negb (nonempty (ps_MultusName b)) then true
  else if negb (nonempty (ps_MultusName a)) && nonempty (ps_MultusName b) then false
  else false.

(** ** Wildcards *)

Definition HasWildcardInStr (str : string) : bool :=
  if contains_char "?" str then true
  else if contains_char "*" str then true
  else if contains_char "[" str && contains_char "]" str then true
  else false.

Fixpoint HasWildcardInSlice (arr : list string) : bool :=
  match arr with
  | [] => false
  | str :: arr => if HasWildcardInStr str then true else HasWildcardInSlice arr
  end.

(** [filepath.Match] on Unix, for patterns of bytes below 128 and the names of Kubernetes objects,
    which have no others: a rune is a byte.  The error is [ErrBadPattern]. *)
Definition ErrBadPattern : error := ErrOther "syntax error in pattern".

(** The end of a chunk: the next star that is not in brackets. *)
Fixpoint scan_to_star (pattern : string) (inrange : bool) : string * string :=
  match pattern with
  | EmptyString => (""%string, ""%string)
  | String c p =>
      if c == "\"%char then
        match p with
        | EmptyString => (String c "", ""%string)
        | String d p' => let '(chunk, rest) := scan_to_star p' inrange in (String c (String d chunk), rest)
        end
      else if (c == "*"%char) && negb inrange then (""%string, pattern)
      else
        let inrange := if c == "["%char then true else if c == "]"%char then false else inrange in
        let '(chunk, rest) := scan_to_star p inrange in (String c chunk, rest)
  end.

Fixpoint skip_stars (pattern : string) : bool * string :=
  match pattern with
  | String c p => if c == "*"%char then (true, (skip_stars p).2) else (false, pattern)
  | EmptyString => (false, pattern)
  end.

Definition scanChunk (pattern : string) : bool * string * string :=
  let '(star, pattern) := skip_stars pattern in
  let '(chunk, rest) := scan_to_star pattern false in (star, chunk, rest).

(** A character of a class, possibly escaped; at least one more must follow. *)
Definition getEsc (chunk : string) : option (ascii * string) :=
  let next (c : ascii) (p : string) := match p with EmptyString => None | _ => Some (c, p) end in
  match chunk with
  | EmptyString => None
  | String c p =>
      if (c == "-"%char) || (c == "]"%char) then None
      else if c == "\"%char then
        match p with EmptyString => None | String d p' => next d p' end
      else next c p
  end.

Definition ascii_leb (a b : ascii) : bool := (Ascii.N_of_ascii a <=? Ascii.N_of_ascii b)%N.

(** The ranges of a class; the fuel is the length of the chunk, each round consumes at least one
    character of it. *)
Fixpoint match_class (fuel : nat) (chunk : string) (r : ascii) (nrange : nat) (matched : bool)
    : outcome (bool * string) :=
  match fuel with
  | O => OutOfFuel
  | S fuel =>
      match chunk, nrange with
      | String "]" chunk', S _ => Ret (matched, chunk')
      | _, _ =>
          match getEsc chunk with
          | None => Fail ErrBadPattern
          | Some (lo, chunk) =>
              match chunk with
              | String "-" chunk' =>
                  match getEsc chunk' with
                  | None => Fail ErrBadPattern
                  | Some (hi, chunk'') => match_class fuel chunk'' r (S nrange) (matched || (ascii_leb lo r && ascii_leb r hi))
                  end
              | _ => match_class fuel chunk r (S nrange) (matched || (ascii_leb lo r && ascii_leb r lo))
              end
          end
      end
  end.

(** [s] is [None] once the match has failed; the rest of the chunk is still checked. *)
Fixpoint matchChunk (fuel : nat) (chunk : string) (s : option string) : outcome (option string) :=
  let s := match s with Some EmptyString => (if chunk == EmptyString then s else None) | _ => s end in
  match fuel, chunk with
  | _, EmptyString => Ret s
  | O, _ => OutOfFuel
  | S fuel, String c chunk =>
      let literal (d : ascii) (chunk : string) :=
        matchChunk fuel chunk
          match s with Some (String x s') => if d == x then Some s' else None | _ => None end in
      if c == "["%char then
        let '(r, s) := match s with Some (String x s') => (x, Some s') | _ => (Ascii.zero, None) end in
        let '(negated, chunk) :=
          match chunk with String "^" chunk' => (true, chunk') | _ => (false, chunk) end in
        '(matched, chunk) ← match_class (S (String.length chunk)) chunk r 0 false;
        matchChunk fuel chunk (if matched == negated then None else s)
      else if c == "?"%char then
        matchChunk fuel chunk
          match s with Some (String x s') => if x == "/"%char then None else Some s' | _ => None end
      else if c == "\"%char then
        match chunk with EmptyString => Fail ErrBadPattern | String d chunk' => literal d chunk' end
      else literal c chunk
  end.

Definition match_chunk (chunk s : string) : outcome (option string) :=
  matchChunk (String.length chunk) chunk (Some s).

(** The rest of a pattern that has not matched is checked for its syntax. *)
Fixpoint check_pattern (fuel : nat) (pattern : string) : outcome bool :=
  match fuel, pattern with
  | _, EmptyString => Ret false
  | O, _ => OutOfFuel
  | S fuel, _ =>
      let '(_, chunk, rest) := scanChunk pattern in
      _ ← match_chunk chunk ""; check_pattern fuel rest
  end.

(** The positions after a star, from the one that skips one byte of [name]. *)
Fixpoint star_positions (chunk : string) (last : bool) (name : string) : outcome (option string) :=
  match name with
  | EmptyString => Ret None
  | String c name' =>
      if c == "/"%char then Ret None
      else
        t ← match_chunk chunk name';
        match t with
        | Some t => if last && (t != EmptyString) then star_positions chunk last name' else Ret (Some t)
        | None => star_positions chunk last name'
        end
  end.

Fixpoint match_loop (fuel : nat) (pattern name : string) : outcome bool :=
  match fuel, pattern with
  | _, EmptyString => Ret (name == EmptyString)
  | O, _ => OutOfFuel
  | S fuel, _ =>
      let '(star, chunk, rest) := scanChunk pattern in
      if star && (chunk == EmptyString) then Ret (negb (contains_char "/" name))
      else
        t ← match_chunk chunk name;
        match t with
        | Some t =>
            if (t == EmptyString) || (rest != EmptyString) then match_loop fuel rest t
            else if star : bool then
              t ← star_positions chunk true name;
              match t with Some t => match_loop fuel rest t | None => check_pattern fuel rest end
            else check_pattern fuel rest
        | None =>
            if star : bool then
              t ← star_positions chunk (rest == EmptyString) name;
              match t with Some t => match_loop fuel rest t | None => check_pattern fuel rest end
            else check_pattern fuel rest
        end
  end.

Definition filepath_Match (pattern name : string) : outcome bool := match_loop (S (String.length pattern)) pattern name.
Arguments filepath_Match : simpl never.

(** The pools of the cache with the given version match a name with a wildcard; other names stay. *)
Fixpoint match_pools (pattern : string) (pools : list SpiderIPPool) : outcome (list string) :=
  match pools with
  | [] => Ret []
  | p :: pools =>
      isMatch ← filepath_Match pattern (Name (pool_meta p));
      rest ← match_pools pattern pools;
      Ret (if isMatch : bool then Name (pool_meta p) :: rest else rest)
  end.

(** [listed] is what listing the cached pools of the version gives. *)
Definition ParseWildcardPoolNameList (listed : Z → outcome (list SpiderIPPool)) (poolNamesArr : list string) (ipVersion : Z)
    : outcome (list string * bool) :=
  if HasWildcardInSlice poolNamesArr then
    poolList ← listed (if ipVersion =? IPv4 then 4 else 6);
    newPoolNamesArr ← concat_map_m
      (λ tmpStr, if HasWildcardInStr tmpStr then match_pools tmpStr poolList else Ret [tmpStr]) poolNamesArr;
    Ret (newPoolNamesArr, true)
  else Ret (poolNamesArr, false).

(** ** Facts *)

(** A reference for [Less]: the criteria as the binary digits of a number, the first one most
    significant. *)
Fixpoint digits (l : list bool) : Z :=
  match l with [] => 0 | b :: l => Z.b2z b * 2 ^ Z.of_nat (length l) + digits l end.

Definition criteria (p : SpiderIPPool) : list bool :=
  let s := pool_spec p in
  [is_set (ps_PodAffinity s); nonempty (ps_NodeName s); is_set (ps_NodeAffinity s);
   nonempty (ps_NamespaceName s); is_set (ps_NamespaceAffinity s); nonempty (ps_MultusName s)].

Definition priority (p : SpiderIPPool) : Z := digits (criteria p).

Lemma digits_range l : 0 ≤ digits l < 2 ^ Z.of_nat (length l).
Proof.
  induction l as [|b l IH]; cbn [digits length]; [done|].
  rewrite Nat2Z.inj_succ, Z.pow_succ_r by lia. destruct b; cbn [Z.b2z]; lia.
Qed.

Fixpoint decide_by (l : list (bool * bool)) : bool :=
  match l with
  | [] => false
  | (x, y) :: l => if x && negb y then true else if negb x && y then false else decide_by l
  end.

Lemma decide_by_digits l : decide_by l = (digits l.*2 <? digits l.*1).
Proof.
  induction l as [|[x y] l IH]; [done|]. cbn [decide_by]. rewrite IH, !fmap_cons. cbn [digits fst snd].
  pose proof (digits_range l.*1) as H1. pose proof (digits_range l.*2) as H2. rewrite !length_fmap in *.
  apply Bool.eq_true_iff_eq. destruct x, y; cbn [andb negb Z.b2z]; rewrite ?Z.ltb_lt; split; (done || lia).
Qed.

Lemma Less_priority a b : Less a b = (priority b <? priority a).
Proof. exact (decide_by_digits (zip (criteria a) (criteria b))). Qed.

Lemma app_labels_lookup group version app k v :
  (k, v) ∈ map_to_list (app_labels group version app) ↔
  (k, v) ∈ zip AutoPoolPodAffinities [group; version; app_Kind app; app_Namespace app; app_Name app].
Proof.
  rewrite elem_of_map_to_list. unfold app_labels. rewrite <- elem_of_list_to_map; [done|].
  apply (bool_decide_unpack _). vm_compute. exact I.
Qed.

Lemma IsMatch_spec sel c :
  IsMatchAutoPoolAffinity (Some sel) c = true ↔
  let app := top_app c in
  let '(group, version) := default (app_APIVersion app, ""%string) (cut "/" (app_APIVersion app)) in
  Forall (λ '(k, v), default ""%string (MatchLabels sel !! k) = v)
    (zip AutoPoolPodAffinities [group; version; app_Kind app; app_Namespace app; app_Name app]).
Proof.
  unfold IsMatchAutoPoolAffinity. destruct (default _ (cut "/" _)) as [group version].
  rewrite forallb_forall, Forall_forall. split.
  - intros H [k v] Hkv. rewrite <- app_labels_lookup in Hkv. apply list_elem_of_In in Hkv.
    apply H in Hkv. by apply bool_decide_eq_true in Hkv.
  - intros H [k v] Hkv. apply bool_decide_eq_true. apply list_elem_of_In in Hkv.
    rewrite app_labels_lookup in Hkv. apply (H (k, v) Hkv).
Qed.

(** Two different labels of the affinity. *)
Lemma affinity_labels group version app :
  ∀ k v, (k, v) ∈ zip AutoPoolPodAffinities [group; version; app_Kind app; app_Namespace app; app_Name app] →
  app_labels group version app !! k = Some v.
Proof. intros k v H. rewrite <- app_labels_lookup in H. by apply elem_of_map_to_list in H. Qed.

Lemma zip_affinities_match group version app group' version' app' :
  Forall (λ '(k, v), default ""%string (app_labels group version app !! k) = v)
    (zip AutoPoolPodAffinities [group'; version'; app_Kind app'; app_Namespace app'; app_Name app']) ↔
  group' = group ∧ version' = version ∧ app_Kind app' = app_Kind app ∧
  app_Namespace app' = app_Namespace app ∧ app_Name app' = app_Name app.
Proof.
  assert (∀ i k v, zip AutoPoolPodAffinities [group; version; app_Kind app; app_Namespace app; app_Name app] !! i
    = Some (k, v) → app_labels group version app !! k = Some v) as Hl.
  { intros i k v Hi. apply affinity_labels. by eapply list_elem_of_lookup_2. }
  unfold AutoPoolPodAffinities. cbn [zip zip_with]. rewrite !Forall_cons, Forall_nil.
  rewrite (Hl 0%nat _ _ eq_refl), (Hl 1%nat _ _ eq_refl), (Hl 2%nat _ _ eq_refl), (Hl 3%nat _ _ eq_refl),
    (Hl 4%nat _ _ eq_refl). cbn. naive_solver.
Qed.

Lemma cut_inj sep s a b : cut sep s = Some (a, b) → s = a +:+ String sep b.
Proof.
  revert a. induction s as [|c s IH]; intros a; cbn [cut]; [done|].
  case_bool_decide as Hc; [by intros [= <- <-]; subst|].
  destruct (cut sep s) as [[a' b']|]; [|done]. intros [= <- <-]. by rewrite string_app_cons, (IH a').
Qed.

(** ** filepath.Match ends *)

Lemma getEsc_shorter chunk c rest : getEsc chunk = Some (c, rest) → (String.length rest < String.length chunk)%nat.
Proof.
  unfold getEsc. destruct chunk as [|x [|y p]]; cbn; repeat case_match; intros; simplify_eq/=; lia.
Qed.

Lemma match_class_total fuel chunk r n m :
  (String.length chunk < fuel)%nat →
  (∃ b rest, match_class fuel chunk r n m = Ret (b, rest) ∧ (String.length rest ≤ String.length chunk)%nat) ∨
  match_class fuel chunk r n m = Fail ErrBadPattern.
Proof.
  revert chunk n m. induction fuel as [|fuel IH]; intros chunk n m Hf; [lia|]. cbn [match_class].
  assert (∀ chunk' n' m', (String.length chunk' < String.length chunk)%nat →
    (∃ b rest, match_class fuel chunk' r n' m' = Ret (b, rest) ∧ (String.length rest ≤ String.length chunk)%nat) ∨
    match_class fuel chunk' r n' m' = Fail ErrBadPattern) as IH'.
  { intros chunk' n' m' Hl. destruct (IH chunk' n' m') as [(b & rest & ? & ?)|?]; [lia| |by right].
    left. exists b, rest. split; [done|lia]. }
  assert (∀ o, (o = match getEsc chunk with
          | None => Fail ErrBadPattern
          | Some (lo, chunk) =>
              match chunk with
              | String "-" chunk' =>
                  match getEsc chunk' with
                  | None => Fail ErrBadPattern
                  | Some (hi, chunk'') => match_class fuel chunk'' r (S n) (m || (ascii_leb lo r && ascii_leb r hi))
                  end
              | _ => match_class fuel chunk r (S n) (m || (ascii_leb lo r && ascii_leb r lo))
              end
          end) →
    (∃ b rest, o = Ret (b, rest) ∧ (String.length rest ≤ String.length chunk)%nat) ∨ o = Fail ErrBadPattern) as Hgo.
  { intros o ->. destruct (getEsc chunk) as [[lo chunk1]|] eqn:E1; [|by right]. apply getEsc_shorter in E1.
    repeat (case_match; try (by apply IH')); try (by right).
    apply IH'. match goal with H : getEsc _ = Some _ |- _ => apply getEsc_shorter in H end. subst. cbn in *. lia. }
  repeat (case_match; try (by apply Hgo)).
  left. eexists _, _. split; [done|]. cbn. lia.
Qed.

(** The pattern is matched, not matched, or malformed. *)
Definition match_result {A} (o : outcome A) : Prop := (∃ a, o = Ret a) ∨ o = Fail ErrBadPattern.

Lemma matchChunk_total fuel chunk s : (String.length chunk ≤ fuel)%nat → match_result (matchChunk fuel chunk s).
Proof.
  revert chunk s. induction fuel as [|fuel IH]; intros [|c chunk] s Hf; cbn [matchChunk String.length] in *;
    [left; eauto|lia|left; eauto|].
  case_bool_decide; [|case_bool_decide; [apply IH; lia|]].
  - set (ns := match chunk with String "^" chunk' => (true, chunk') | _ => (false, chunk) end).
    assert (String.length ns.2 ≤ String.length chunk)%nat as Hns by (unfold ns; repeat case_match; cbn; lia).
    destruct ns as [negated chunk1]; cbn [snd] in Hns.
    match goal with |- context [let '(_, _) := ?p in _] => destruct p as [r s1] end.
    destruct (match_class_total (S (String.length chunk1)) chunk1 r 0 false) as [(b & rest & -> & ?)| ->];
      [lia| |by right]. cbn. apply IH. lia.
  - case_bool_decide; [|apply IH; lia].
    destruct chunk as [|d chunk]; [by right|]. cbn [String.length] in *. apply IH. lia.
Qed.

Lemma match_chunk_total chunk s : match_result (match_chunk chunk s).
Proof. by apply matchChunk_total. Qed.

Lemma skip_stars_length p : (String.length (skip_stars p).2 ≤ String.length p)%nat.
Proof. induction p as [|c p IH]; cbn [skip_stars]; [done|]. case_bool_decide; cbn in *; lia. Qed.

Lemma skip_stars_head p : match (skip_stars p).2 with String c _ => c ≠ "*"%char | EmptyString => True end.
Proof. induction p as [|c p IH]; cbn [skip_stars]; [done|]. by case_bool_decide. Qed.

Lemma scan_to_star_length_le n p b : (String.length p ≤ n)%nat → (String.length (scan_to_star p b).2 ≤ String.length p)%nat.
Proof.
  revert p b. induction n as [|n IH]; intros [|c p] b Hn; cbn [scan_to_star String.length] in *; try (cbn; lia).
  destruct (c == "\"%char); [|destruct ((c == "*"%char) && negb b); [done|]].
  - destruct p as [|d p]; [cbn; lia|]. pose proof (IH p b) as Hi. destruct (scan_to_star p b). cbn in *. lia.
  - match goal with |- context [scan_to_star p ?b'] => pose proof (IH p b') as Hi; destruct (scan_to_star p b') end.
    cbn in *. lia.
Qed.

Lemma scan_to_star_length p b : (String.length (scan_to_star p b).2 ≤ String.length p)%nat.
Proof. by apply (scan_to_star_length_le (String.length p)). Qed.

Lemma scanChunk_shorter p star chunk rest :
  p ≠ EmptyString → scanChunk p = (star, chunk, rest) → (String.length rest < String.length p)%nat.
Proof.
  unfold scanChunk. intros Hp. pose proof (skip_stars_head p) as Hh. pose proof (skip_stars_length p) as Hl.
  destruct (skip_stars p) as [st q] eqn:Hs. cbn [snd] in *.
  destruct q as [|c q].
  { cbn. intros [= <- <- <-]. destruct p; [done|cbn; lia]. }
  cbn [scan_to_star]. rewrite (bool_decide_false (c = "*"%char)) by done. cbn [andb].
  cbn [String.length] in Hl. destruct (c == "\"%char).
  - destruct q as [|d q]; [intros [= <- <- <-]; cbn; lia|]. pose proof (scan_to_star_length q false) as Hi.
    destruct (scan_to_star q false). intros [= <- <- <-]. cbn in *. lia.
  - match goal with |- context [scan_to_star q ?b'] =>
      pose proof (scan_to_star_length q b') as Hi; destruct (scan_to_star q b') end.
    intros [= <- <- <-]. cbn in *. lia.
Qed.

Lemma check_pattern_total fuel p : (String.length p ≤ fuel)%nat → match_result (check_pattern fuel p).
Proof.
  revert p. induction fuel as [|fuel IH]; intros [|c p] Hf; cbn [check_pattern]; try (left; by eexists); [cbn in Hf; lia|].
  destruct (scanChunk (String c p)) as [[st chunk] rest] eqn:E. apply scanChunk_shorter in E; [|done].
  destruct (match_chunk_total chunk "") as [[t ->]| ->]; [|by right]. apply IH. lia.
Qed.

Lemma star_positions_total chunk last name : match_result (star_positions chunk last name).
Proof.
  induction name as [|c name IH]; cbn [star_positions]; [left; eauto|].
  case_bool_decide; [left; eauto|].
  destruct (match_chunk_total chunk name) as [[[t|] ->]| ->]; cbn; [|done|by right].
  case_match; [done|left; eauto].
Qed.

Lemma match_loop_total fuel p name : (String.length p < fuel)%nat → match_result (match_loop fuel p name).
Proof.
  revert p name. induction fuel as [|fuel IH]; intros p name Hf; [lia|]. cbn [match_loop].
  destruct p as [|c p]; [left; eauto|].
  destruct (scanChunk (String c p)) as [[st chunk] rest] eqn:E. apply scanChunk_shorter in E; [|done].
  assert (match_result (check_pattern fuel rest)) as Hc by (apply check_pattern_total; lia).
  assert (∀ t, match_result (match_loop fuel rest t)) as Hm by (intros t; apply IH; lia).
  assert (∀ l, match_result (t ← star_positions chunk l name;
    match t with Some t => match_loop fuel rest t | None => check_pattern fuel rest end)) as Hs.
  { intros l. destruct (star_positions_total chunk l name) as [[[t|] ->]| ->]; cbn; [done|done|by right]. }
  case_match; [left; eauto|].
  destruct (match_chunk_total chunk name) as [[[t|] ->]| ->]; cbn [mbind outcome_bind]; [| |by right].
  - case_match; [done|]. destruct st; [apply Hs|done].
  - destruct st; [apply Hs|done].
Qed.

Lemma filepath_Match_total p name : match_result (filepath_Match p name).
Proof. apply match_loop_total. lia. Qed.

(** ** Expansion of wildcards *)

Lemma match_pools_spec pattern pools :
  match match_pools pattern pools with
  | Ret names => ∀ x, x ∈ names ↔ ∃ p, p ∈ pools ∧ Name (pool_meta p) = x ∧ filepath_Match pattern x = Ret true
  | Fail e => e = ErrBadPattern
  | _ => False
  end.
Proof.
  induction pools as [|p pools IH]; cbn [match_pools]; [set_solver|].
  destruct (filepath_Match_total pattern (Name (pool_meta p))) as [[b Hb]|Hb]; rewrite Hb; cbn; [|done].
  destruct (match_pools pattern pools) as [names|e| |]; cbn; [|done..].
  intros x. assert (x ∈ (if b then Name (pool_meta p) :: names else names) ↔
    (b = true ∧ x = Name (pool_meta p)) ∨ x ∈ names) as -> by (destruct b; set_solver).
  rewrite IH. setoid_rewrite elem_of_cons. split.
  - intros [[-> ->]|(q & ? & ? & ?)]; [exists p; auto|exists q; auto].
  - intros (q & [Hp|?] & Hx & Hq); [left|right; eauto]. subst q x. split; [congruence|done].
Qed.

Lemma HasWildcardInSlice_existsb arr : HasWildcardInSlice arr = existsb HasWildcardInStr arr.
Proof. induction arr as [|s arr IH]; cbn; [done|]. rewrite IH. by destruct (HasWildcardInStr s). Qed.

Lemma existsb_none {A} (f : A → bool) l : existsb f l = false → Forall (λ x, f x = false) l.
Proof. induction l as [|x l IH]; cbn; [by constructor|]. intros []%orb_false_elim. constructor; auto. Qed.

Lemma expand_names_spec arr pools :
  match concat_map_m (λ s, if HasWildcardInStr s then match_pools s pools else Ret [s]) arr with
  | Ret names => ∀ x, x ∈ names ↔ ∃ s, s ∈ arr ∧
      if HasWildcardInStr s then ∃ p, p ∈ pools ∧ Name (pool_meta p) = x ∧ filepath_Match s x = Ret true else x = s
  | Fail e => e = ErrBadPattern
  | _ => False
  end.
Proof.
  induction arr as [|s arr IH]; cbn [concat_map_m]; [set_solver|].
  pose proof (match_pools_spec s pools) as Hs.
  assert (match (if HasWildcardInStr s then match_pools s pools else Ret [s]) with
    | Ret names => ∀ x, x ∈ names ↔ if HasWildcardInStr s
        then ∃ p, p ∈ pools ∧ Name (pool_meta p) = x ∧ filepath_Match s x = Ret true else x = s
    | Fail e => e = ErrBadPattern | _ => False end) as H1.
  { destruct (HasWildcardInStr s); [done|]. intros x. by rewrite list_elem_of_singleton. }
  destruct (if HasWildcardInStr s then match_pools s pools else Ret [s]) as [n1|e| |]; cbn [mbind outcome_bind]; [|done..].
  destruct (concat_map_m _ arr) as [n2|e| |]; cbn [mbind outcome_bind]; [|done..].
  intros x. rewrite elem_of_app, H1, IH. setoid_rewrite elem_of_cons. split.
  - intros [?|(s' & ? & ?)]; eauto.
  - intros (s' & [->|?] & ?); eauto.
Qed.

Lemma contains_cut sep s : contains_char sep s = true → ∃ p, cut sep s = Some p.
Proof.
  induction s as [|x s IH]; cbn; [done|]. case_bool_decide; [eauto|]. intros ([a b] & ->)%IH. eauto.
Qed.

Lemma digits_inj l l' : length l = length l' → digits l = digits l' → l = l'.
Proof.
  revert l'. induction l as [|b l IH]; intros [|b' l'] Hlen; cbn [digits length] in *; try done.
  injection Hlen as Hlen. pose proof (digits_range l). pose proof (digits_range l'). rewrite Hlen in *.
  intros E. assert (b = b') as ->; [|f_equal; apply IH; [done|lia]].
  destruct b, b'; cbn [Z.b2z] in *; done || lia.
Qed.

(** ** Properties *)

(** The affinity given to an auto-created pool matches exactly the application it was made
    for, among applications whose API version has a group. *)
Theorem auto_affinity_exact c c' :
  contains_char "/" (app_APIVersion (top_app c)) = true → contains_char "/" (app_APIVersion (top_app c')) = true →
  IsMatchAutoPoolAffinity (Some (NewAutoPoolPodAffinity c)) c' = true ↔ top_app c' = top_app c.
Proof.
  intros ([g v] & Hc)%contains_cut ([g' v'] & Hc')%contains_cut. rewrite IsMatch_spec. cbn zeta. rewrite Hc'.
  cbn [from_option id]. unfold NewAutoPoolPodAffinity. rewrite Hc. cbn [MatchLabels]. rewrite zip_affinities_match.
  destruct (top_app c) as [av k ns n], (top_app c') as [av' k' ns' n']. cbn in *. split.
  - apply cut_inj in Hc, Hc'. subst. by intros (-> & -> & -> & -> & ->).
  - intros [= -> -> -> ->]. rewrite Hc in Hc'. by injection Hc' as -> ->.
Qed.

Lemma auto_affinity_exact_witness :
  let c := MkTopController (MkApp "apps/v1" "Deployment" "default" "web") "u1" in
  let c' := MkTopController (MkApp "apps/v1" "Deployment" "default" "web") "u2" in
  IsMatchAutoPoolAffinity (Some (NewAutoPoolPodAffinity c)) c' = true ↔ top_app c' = top_app c.
Proof. intros c c'. apply auto_affinity_exact; reflexivity. Defined.

(** The affinity of an auto-created pool never matches the application it was made for when
    its API version has no group: [NewAutoPoolPodAffinity] takes the whole as the version,
    [IsMatchAutoPoolAffinity] takes it as the group. *)
Theorem auto_affinity_core_group c :
  contains_char "/" (app_APIVersion (top_app c)) = false → app_APIVersion (top_app c) ≠ ""%string →
  IsMatchAutoPoolAffinity (Some (NewAutoPoolPodAffinity c)) c = false.
Proof.
  intros Hc Hne. apply not_true_iff_false. rewrite IsMatch_spec. cbn zeta.
  unfold NewAutoPoolPodAffinity. rewrite !cut_none by done. cbn [from_option id MatchLabels].
  rewrite zip_affinities_match. by intros (? & _).
Qed.

Lemma auto_affinity_core_group_witness :
  let c := MkTopController (MkApp "v1" "ReplicationController" "default" "web") "u1" in
  IsMatchAutoPoolAffinity (Some (NewAutoPoolPodAffinity c)) c = false.
Proof. intros c. apply auto_affinity_core_group; [reflexivity|discriminate]. Defined.

(** [Less] compares the priorities of the pools, and two pools it does not order satisfy the
    same criteria: it is a strict weak order, lexicographic in the criteria. *)
Theorem Less_is_priority a b :
  Less a b = (priority b <? priority a) ∧ (criteria a = criteria b ↔ Less a b = false ∧ Less b a = false).
Proof.
  rewrite !Less_priority. split; [done|]. rewrite !Z.ltb_ge. split.
  - unfold priority. intros ->. lia.
  - intros []. apply digits_inj; [done|]. unfold priority in *. lia.
Qed.

(** [ParseWildcardPoolNameList] returns the names without wildcards and the names of the pools
    of the version that match the others, and fails only for a malformed pattern or when the
    pools cannot be listed. *)
Theorem ParseWildcardPoolNameList_exact listed arr v pools :
  listed (if v =? IPv4 then 4 else 6) = Ret pools →
  match ParseWildcardPoolNameList listed arr v with
  | Ret (names, hasWildcard) =>
      hasWildcard = existsb HasWildcardInStr arr ∧
      ∀ x, x ∈ names ↔ ∃ s, s ∈ arr ∧
        if HasWildcardInStr s then ∃ p, p ∈ pools ∧ Name (pool_meta p) = x ∧ filepath_Match s x = Ret true else x = s
  | Fail e => e = ErrBadPattern
  | _ => False
  end.
Proof.
  intros Hl. unfold ParseWildcardPoolNameList. rewrite HasWildcardInSlice_existsb.
  destruct (existsb HasWildcardInStr arr) eqn:Hw.
  - rewrite Hl. cbn [mbind outcome_bind]. pose proof (expand_names_spec arr pools) as He.
    by destruct (concat_map_m _ arr).
  - split; [done|]. intros x. apply existsb_none in Hw. rewrite Forall_forall in Hw. split.
    + intros Hx. exists x. split; [done|]. by rewrite (Hw x Hx).
    + intros (s & Hs & Hx). rewrite (Hw s Hs) in Hx. by subst.
Qed.

Definition example_pool (name : string) : SpiderIPPool :=
  MkIPPool (plain_meta "" name "")
    (MkIPPoolSpec (Some IPv4) "10.0.0.0/24" [] [] None None None None [] None [] [] None None) (MkIPPoolStatus None None None).

Lemma ParseWildcardPoolNameList_exact_witness :
  let pools := [example_pool "web-1"; example_pool "db-1"; example_pool "web-2"] in
  let listed := λ _ : Z, Ret pools in
  ParseWildcardPoolNameList listed ["db-1"; "web-[12]"] IPv4 = Ret (["db-1"; "web-1"; "web-2"], true) ∧
  ∀ x, x ∈ ["db-1"; "web-1"; "web-2"] ↔ ∃ s, s ∈ ["db-1"; "web-[12]"] ∧
    if HasWildcardInStr s then ∃ p, p ∈ pools ∧ Name (pool_meta p) = x ∧ filepath_Match s x = Ret true else x = s.
Proof.
  intros pools listed. assert (ParseWildcardPoolNameList listed ["db-1"; "web-[12]"] IPv4 =
    Ret (["db-1"; "web-1"; "web-2"], true)) as E by reflexivity. split; [exact E|].
  pose proof (ParseWildcardPoolNameList_exact listed ["db-1"; "web-[12]"] IPv4 pools eq_refl) as H.
  rewrite E in H. exact (proj2 H).
Defined.
