(* ===== verification/IPPoolWebhook.v ===== *)
(** * pkg/ippoolmanager: the admission webhook of SpiderIPPool

    ippool_mutate.go, ippool_validate.go, ippool_subnet_validate.go and ippool_webhook.go: the
    defaulting of a pool on every write and the checks that decide whether a write is admitted.
    What the webhook reads of other objects is an argument, so that the invariant on all pools
    of the cluster is a statement about sequences of admitted writes. *)

From S2P Require Import Prelude NetIP NetIPFacts IPAddr Cidr IPRange SubnetCIDR K8s Retry ReservedIP Convert IPPoolManager PoolUtils.
Local Open Scope Z_scope.
Local Open Scope go_scope.

Record IPPoolWebhook := MkIPPoolWebhook {
  EnableIPv4 : bool;
  EnableIPv6 : bool;
  EnableSpiderSubnet : bool;
  EnableValidatingResourcesDeletedWebhook : bool
}.

(** What the calls to the API server and the cache return: the pools at the first and at the
    second listing, a subnet by name, and the subnets of the cache. *)
Record Reads := MkReads {
  list_pools : outcome (list SpiderIPPool);
  list_pools_again : outcome (list SpiderIPPool);
  get_subnet : string → outcome SpiderSubnet;
  cached_subnets : outcome (list SpiderSubnet)
}.

Definition LabelIPPoolCIDR : string := AnnotationPre +:+ "/ippool-cidr".
Definition LabelSubnetCIDR : string := AnnotationPre +:+ "/subnet-cidr".
Definition LabelIPPoolOwnerSpiderSubnet : string := AnnotationPre +:+ "/owner-spider-subnet".

(** [client.MatchingLabels] with one label. *)
Definition matching {A} (meta : A → ObjectMeta) (k v : string) (l : list A) : list A :=
  filter (λ a, Labels (meta a) !! k = Some v) l.

(** ** Owners *)

(** [ctrl.SetControllerReference] for an owner of a kind of the v2beta1 API, and for a
    SpiderSubnet. *)
Definition set_controller_reference (kind : string) (owner controlled : ObjectMeta) : outcome ObjectMeta :=
  if (Namespace owner != EmptyString) && (Namespace owner != Namespace controlled)
  then Fail (ErrOther "owner's namespace")
  else
    let ref := MkOwnerReference (SpiderFinalizer +:+ "/v2beta1") kind (Name owner) (UID owner) (Some true) in
    match GetControllerOf controlled with
    | Some existing => if negb (referSameObject existing ref) then Fail (ErrOther "AlreadyOwnedError")
                       else Ret (upsertOwnerRef ref controlled)
    | None => Ret (upsertOwnerRef ref controlled)
    end.
Definition SetControllerReference : ObjectMeta → ObjectMeta → outcome ObjectMeta := set_controller_reference "SpiderSubnet".

(** ** Mutation *)

Definition on_meta (f : ObjectMeta → ObjectMeta) (p : SpiderIPPool) : SpiderIPPool :=
  MkIPPool (f (pool_meta p)) (pool_spec p) (pool_status p).
Definition on_spec (f : IPPoolSpec → IPPoolSpec) (p : SpiderIPPool) : SpiderIPPool :=
  MkIPPool (pool_meta p) (f (pool_spec p)) (pool_status p).

Definition set_ps (s : IPPoolSpec) (version : option Z) (ips exclude : list string) (gw : option string) (routes : option (list Route))
    : IPPoolSpec :=
  MkIPPoolSpec version (ps_Subnet s) ips exclude gw routes (ps_PodAffinity s) (ps_NamespaceAffinity s) (ps_NamespaceName s)
    (ps_NodeAffinity s) (ps_NodeName s) (ps_MultusName s) (ps_Default s) (ps_Disable s).
Definition set_ps_IPVersion (v : Z) (s : IPPoolSpec) := set_ps s (Some v) (ps_IPs s) (ps_ExcludeIPs s) (ps_Gateway s) (ps_Routes s).
Definition set_ps_IPs (ips : list string) (s : IPPoolSpec) := set_ps s (ps_IPVersion s) ips (ps_ExcludeIPs s) (ps_Gateway s) (ps_Routes s).
Definition set_ps_ExcludeIPs (ips : list string) (s : IPPoolSpec) := set_ps s (ps_IPVersion s) (ps_IPs s) ips (ps_Gateway s) (ps_Routes s).

Definition set_label (k v : string) (m : ObjectMeta) : ObjectMeta := set_Labels (<[k := v]> (Labels m)) m.

Definition InheritSubnetProperties (subnet : SpiderSubnet) (ipPool : SpiderIPPool) : SpiderIPPool :=
  on_spec (λ s,
    let gw := match ss_Gateway (subnet_spec subnet), ps_Gateway s with Some g, None => Some g | _, g => g end in
    let routes := match ss_Routes (subnet_spec subnet), ps_Routes s with
                  | (_ :: _) as l, None => Some l
                  | _, r => r
                  end in
    set_ps s (ps_IPVersion s) (ps_IPs s) (ps_ExcludeIPs s) gw routes) ipPool.

Section webhook.
Context `{MR : MapRange} `{J : JSON PoolIPAllocations} `{J' : JSON PoolIPPreAllocations}.
(** [validation.ValidateLabelSelector] of the API machinery. *)
Context (ValidateLabelSelector : LabelSelector → list error).
Context (iw : IPPoolWebhook) (reads : Reads).

(** The pool under mutation is the state. *)
Definition current : cmd SpiderIPPool SpiderIPPool := read Ret.

(** The label of the owner subnet agrees with the controller. *)
Definition label_names_owner (label : option string) (owner : option OwnerReference) : bool :=
  match label, owner with Some v, Some o => (v == or_Name o) | _, _ => false end.

(** The label map exists: the caller has just set the label of the CIDR. *)
Definition setControllerSubnet (version : Z) : cmd SpiderIPPool (option SpiderSubnet) :=
  ipPool ← current;
  let owner := GetControllerOf (pool_meta ipPool) in
  let label := Labels (pool_meta ipPool) !! LabelIPPoolOwnerSpiderSubnet in
  if label_names_owner label owner then mret None
  else
    cidr ← lift (CIDRToLabelValue version (ps_Subnet (pool_spec ipPool)));
    subnets ← lift (cached_subnets reads);
    match matching subnet_meta LabelSubnetCIDR cidr subnets with
    | [] => mret None
    | subnet :: _ =>
        _ ← (if negb (IsControlledBy (pool_meta ipPool) (subnet_meta subnet)) then
               m ← lift (SetControllerReference (subnet_meta subnet) (pool_meta ipPool));
               modify (on_meta (λ _, m))
             else mret ());
        _ ← (if label != Some (Name (subnet_meta subnet)) then
               modify (on_meta (set_label LabelIPPoolOwnerSpiderSubnet (Name (subnet_meta subnet))))
             else mret ());
        mret (Some subnet)
    end.

Definition mutate_version : cmd SpiderIPPool Z :=
  ipPool ← current;
  match ps_IPVersion (pool_spec ipPool) with
  | Some v => mret v
  | None =>
      v ← lift (if IsIPv4CIDR (ps_Subnet (pool_spec ipPool)) then Ret IPv4
                else if IsIPv6CIDR (ps_Subnet (pool_spec ipPool)) then Ret IPv6
                else Fail (ErrOther "failed to generate 'spec.ipVersion'"));
      _ ← modify (on_spec (set_ps_IPVersion v));
      mret v
  end.

Definition mutateIPPool : cmd SpiderIPPool unit :=
  ipPool ← current;
  match DeletionTimestamp (pool_meta ipPool) with
  | Some _ => mret ()
  | None =>
      _ ← (if negb (ContainsFinalizer (pool_meta ipPool) SpiderFinalizer)
           then modify (on_meta (λ m, AddFinalizer m SpiderFinalizer)) else mret ());
      version ← mutate_version;
      cidr ← lift (CIDRToLabelValue version (ps_Subnet (pool_spec ipPool)));
      _ ← (if Labels (pool_meta ipPool) !! LabelIPPoolCIDR != Some cidr
           then modify (on_meta (set_label LabelIPPoolCIDR cidr)) else mret ());
      _ ← (if EnableSpiderSubnet iw then
             subnet ← map_error (FieldInternal "") (setControllerSubnet version);
             match subnet with
             | Some subnet => modify (InheritSubnetProperties subnet)
             | None => mret ()
             end
           else mret ());
      _ ← (if (1 <? length (ps_IPs (pool_spec ipPool)))%nat then
             mergedIPs ← lift (MergeIPRanges version (ps_IPs (pool_spec ipPool)));
             modify (on_spec (set_ps_IPs mergedIPs))
           else mret ());
      (if (1 <? length (ps_ExcludeIPs (pool_spec ipPool)))%nat then
         mergedExcludeIPs ← lift (MergeIPRanges version (ps_ExcludeIPs (pool_spec ipPool)));
         modify (on_spec (set_ps_ExcludeIPs mergedExcludeIPs))
       else mret ())
  end.

(** [Default] logs the error of the mutation and lets the object pass as it is. *)
Definition Default (ipPool : SpiderIPPool) : outcome SpiderIPPool :=
  match mutateIPPool ipPool with
  | (Ret _, p) | (Fail _, p) => Ret p
  | (Panic, _) => Panic
  | (OutOfFuel, _) => OutOfFuel
  end.
(** ** Validation: one field

    A returned [*field.Error] is [Fail]; [in_field] gives an error the kind and path it is reported
    with. *)
Definition in_field {A} (f : error → error) (o : outcome A) : outcome A :=
  match o with Fail e => Fail (f e) | o => o end.

Definition validateIPPoolIPVersion (version : option Z) : outcome unit :=
  match version with
  | None => Fail (FieldInvalid "spec.ipVersion")
  | Some version =>
      if negb (version =? IPv4) && negb (version =? IPv6) then Fail (FieldNotSupported "spec.ipVersion")
      else if (version =? IPv4) && negb (EnableIPv4 iw) then Fail (FieldForbidden "spec.ipVersion")
      else if (version =? IPv6) && negb (EnableIPv6 iw) then Fail (FieldForbidden "spec.ipVersion")
      else Ret ()
  end.

(** The body of the loop of [validateIPPoolCIDR]. *)
Definition check_other_cidr (version : Z) (ipPool pool : SpiderIPPool) : outcome unit :=
  poolVersion ← deref (ps_IPVersion (pool_spec pool));
  if poolVersion =? version then
    if Name (pool_meta pool) == Name (pool_meta ipPool)
    then Fail (FieldInternal "spec.subnet" APIAlreadyExists)
    else if ps_Subnet (pool_spec pool) == ps_Subnet (pool_spec ipPool) then Ret ()
    else
      overlap ← in_field (FieldInternal "spec.subnet")
        (IsCIDROverlap version (ps_Subnet (pool_spec ipPool)) (ps_Subnet (pool_spec pool)));
      if overlap : bool then Fail (FieldInvalid "spec.subnet") else Ret ()
  else Ret ().

Definition validateIPPoolCIDR (ipPool : SpiderIPPool) : outcome unit :=
  version ← deref (ps_IPVersion (pool_spec ipPool));
  _ ← in_field (λ _, FieldInvalid "spec.subnet") (IsCIDR version (ps_Subnet (pool_spec ipPool)));
  _ ← in_field (λ _, FieldInvalid "spec.subnet") (IsFormatCIDR (ps_Subnet (pool_spec ipPool)));
  ipPoolList ← in_field (FieldInternal "spec.subnet") (list_pools reads);
  for_each (check_other_cidr version ipPool) ipPoolList.

Definition pool_CIDR (pool : SpiderIPPool) : outcome CIDR :=
  NewCIDR (ps_Subnet (pool_spec pool)) (ps_IPs (pool_spec pool)) (ps_ExcludeIPs (pool_spec pool)).

(** The body of the loop of [validateIPPoolAvailableIPs]. *)
Definition check_other_ips (newPool : CIDR) (ipPool pool : SpiderIPPool) : outcome unit :=
  if Name (pool_meta pool) == Name (pool_meta ipPool) then Ret ()
  else
    existPool ← in_field (λ _, FieldInvalid "spec.subnet") (pool_CIDR pool);
    if (IsOverlapIPRanges newPool (IPRange existPool)).2 then Fail (FieldForbidden "spec.ips") else Ret ().

Definition validateIPPoolAvailableIPs (ipPool : SpiderIPPool) : outcome unit :=
  newPool ← in_field (λ _, FieldInvalid "spec.subnet") (pool_CIDR ipPool);
  version ← deref (ps_IPVersion (pool_spec ipPool));
  cidr ← in_field (FieldInternal "spec.ips") (CIDRToLabelValue version (ps_Subnet (pool_spec ipPool)));
  ipPoolList ← in_field (FieldInternal "spec.ips") (list_pools_again reads);
  for_each (check_other_ips newPool ipPool) (matching pool_meta LabelIPPoolCIDR cidr ipPoolList).

Definition ValidateContainsIPRange (path : string) (version : Z) (subnet ipRange : string) : outcome unit :=
  contains ← in_field (λ _, FieldInvalid path) (ContainsIPRange version subnet ipRange);
  if negb contains then Fail (FieldInvalid path) else Ret ().

Definition ValidateContainsIP (path : string) (version : Z) (subnet ip : string) : outcome unit :=
  contains ← in_field (λ _, FieldInvalid path) (ContainsIP version subnet ip);
  if negb contains then Fail (FieldInvalid path) else Ret ().

Definition indexed (path : string) (i : Z) : string := path +:+ "[" +:+ itoa i +:+ "]".

(** Whether one of the excluded ranges contains the gateway; errors count as no. *)
Fixpoint excludes_gateway (version : Z) (gw : string) (rs : list string) : outcome bool :=
  match rs with
  | [] => Ret false
  | r :: rs =>
      contains ← ignore_err false (IPRangeContainsIP version r gw);
      if contains : bool then Ret true else excludes_gateway version gw rs
  end.

Fixpoint check_gateway (version : Z) (gw : string) (i : Z) (rs : list string) : outcome unit :=
  match rs with
  | [] => Ret ()
  | r :: rs =>
      contains ← ignore_err false (IPRangeContainsIP version r gw);
      if contains : bool then Fail (FieldInvalid (indexed "spec.ips" i)) else check_gateway version gw (i + 1) rs
  end.

Definition validateIPPoolGateway (ipPool : SpiderIPPool) : outcome unit :=
  match ps_Gateway (pool_spec ipPool) with
  | None => Ret ()
  | Some gw =>
      version ← deref (ps_IPVersion (pool_spec ipPool));
      _ ← ValidateContainsIP "spec.gateway" version (ps_Subnet (pool_spec ipPool)) gw;
      excluded ← excludes_gateway version gw (ps_ExcludeIPs (pool_spec ipPool));
      if excluded : bool then Ret ()
      else check_gateway version gw 0 (ps_IPs (pool_spec ipPool))
  end.

Fixpoint check_routes (version : Z) (subnet : string) (i : Z) (dstSet : gset string) (routes : list Route) : outcome unit :=
  match routes with
  | [] => Ret ()
  | r :: routes =>
      let dst := indexed "spec.routes" i +:+ ".dst" in
      if (version =? IPv4) && (Dst r == "0.0.0.0/0"%string) || (version =? IPv6) && (Dst r == "::/0"%string)
      then Fail (FieldInvalid dst)
      else if bool_decide (Dst r ∈ dstSet) then Fail (FieldInvalid dst)
      else
        _ ← in_field (λ _, FieldInvalid dst) (IsCIDR version (Dst r));
        _ ← ValidateContainsIP (indexed "spec.routes" i +:+ ".gw") version subnet (Gw r);
        check_routes version subnet (i + 1) ({[Dst r]} ∪ dstSet) routes
  end.

Definition validateIPPoolRoutes (version : Z) (subnet : string) (routes : option (list Route)) : outcome unit :=
  check_routes version subnet 0 ∅ (default [] routes).

Definition validateIPPoolSpec (ipPool : SpiderIPPool) : outcome unit :=
  _ ← validateIPPoolAvailableIPs ipPool;
  _ ← validateIPPoolGateway ipPool;
  version ← deref (ps_IPVersion (pool_spec ipPool));
  validateIPPoolRoutes version (ps_Subnet (pool_spec ipPool)) (ps_Routes (pool_spec ipPool)).

Definition validateIPPoolIPInUse (ipPool : SpiderIPPool) : outcome unit :=
  allocatedRecords ← in_field (FieldInternal "spec.ips") (UnmarshalIPPoolAllocatedIPs (AllocatedIPs (pool_status ipPool)));
  version ← deref (ps_IPVersion (pool_spec ipPool));
  totalIPs ← in_field (FieldInternal "spec.ips")
    (AssembleTotalIPs version (ps_IPs (pool_spec ipPool)) (ps_ExcludeIPs (pool_spec ipPool)));
  let totalIPsMap := (list_to_set (ip_string <$> totalIPs) : gset string) in
  for_each (λ ip, if bool_decide (ip ∈ totalIPsMap) then Ret () else Fail (FieldForbidden "spec.ips"))
    (range_keys allocatedRecords).

Definition validateIPPoolShouldNotBeChanged (oldIPPool newIPPool : SpiderIPPool) : outcome unit :=
  if match ps_IPVersion (pool_spec newIPPool), ps_IPVersion (pool_spec oldIPPool) with
     | Some n, Some o => negb (n =? o)
     | _, _ => false
     end
  then Fail (FieldForbidden "spec.ipVersion")
  else if ps_Subnet (pool_spec newIPPool) != ps_Subnet (pool_spec oldIPPool)
  then Fail (FieldForbidden "spec.subnet")
  else Ret ().

Definition validateIPPoolPodAffinity (ipPool : SpiderIPPool) : list error :=
  match ps_PodAffinity (pool_spec ipPool) with
  | None => []
  | Some affinity =>
      if IsAutoCreatedIPPool ipPool then
        ((λ _, FieldInvalid "spec.podAffinity") <$> filter (λ k, k ∉ AutoPoolPodAffinities) (range_keys (MatchLabels affinity))) ++
        (if nonempty (MatchExpressions affinity) then [FieldInvalid "spec.podAffinity"] else [])
      else
        ValidateLabelSelector affinity ++
        (if (size (MatchLabels affinity) + length (MatchExpressions affinity) =? 0)%nat
         then [FieldInvalid "spec.podAffinity"] else [])
  end.

(** ** Validation: the object

    A [field.ErrorList] is a list; an empty one admits the object. *)
Definition to_list (o : outcome unit) : outcome (list error) :=
  match o with Ret _ => Ret [] | Fail e => Ret [e] | Panic => Panic | OutOfFuel => OutOfFuel end.

(** [if errs := ...; len(errs) != 0 { return errs }] *)
Definition or_else (o : outcome (list error)) (k : outcome (list error)) : outcome (list error) :=
  errs ← o; match errs with [] => k | _ => Ret errs end.

Definition validateCreateIPPool (ipPool : SpiderIPPool) : outcome (list error) :=
  or_else (to_list (validateIPPoolIPVersion (ps_IPVersion (pool_spec ipPool))))
    (or_else (to_list (validateIPPoolCIDR ipPool))
       (errs ← to_list (validateIPPoolSpec ipPool);
        Ret (errs ++ validateIPPoolPodAffinity ipPool))).

Definition validateUpdateIPPool (oldIPPool newIPPool : SpiderIPPool) : outcome (list error) :=
  or_else (to_list (validateIPPoolShouldNotBeChanged oldIPPool newIPPool))
    (or_else (to_list (validateIPPoolIPVersion (ps_IPVersion (pool_spec newIPPool))))
       (or_else (to_list (validateIPPoolSpec newIPPool))
          (or_else (Ret (validateIPPoolPodAffinity newIPPool))
             (to_list (validateIPPoolIPInUse newIPPool))))).

(** [reflect.DeepEqual] of the sorted addresses. *)
Definition validateNewAutoPoolTotalIPsWithinSubnet (pool : SpiderIPPool) (subnet : SpiderSubnet) : outcome unit :=
  version ← deref (ps_IPVersion (pool_spec pool));
  poolTotalIPs ← in_field (FieldInternal "spec.ips")
    (AssembleTotalIPs version (ps_IPs (pool_spec pool)) (ps_ExcludeIPs (pool_spec pool)));
  subnetAllocatedIPPools ← in_field (FieldInternal "spec.subnet")
    (UnmarshalSubnetAllocatedIPPools (ControlledIPPools (subnet_status subnet)));
  subnetPreAllocateIPs ←
    match subnetAllocatedIPPools !! Name (pool_meta pool) with
    | None => Ret []
    | Some alloc =>
        subnetVersion ← deref (ss_IPVersion (subnet_spec subnet));
        subnetPoolIPs ← in_field (FieldInternal "spec.subnet") (ParseIPRanges subnetVersion (pre_IPs alloc));
        Ret (sort_ips subnetPoolIPs)
    end;
  if subnetPreAllocateIPs != sort_ips poolTotalIPs then Fail (FieldForbidden "spec.ips") else Ret ().

Definition validateSubnetTotalIPsContainsIPPoolTotalIPs (ipPool : SpiderIPPool) : outcome unit :=
  match GetControllerOf (pool_meta ipPool) with
  | None => Ret ()
  | Some owner =>
      version ← deref (ps_IPVersion (pool_spec ipPool));
      poolTotalIPs ← in_field (FieldInternal "spec.ips")
        (AssembleTotalIPs version (ps_IPs (pool_spec ipPool)) (ps_ExcludeIPs (pool_spec ipPool)));
      if (length poolTotalIPs =? 0)%nat then Ret ()
      else
        subnet ← in_field (FieldInternal "spec.subnet") (get_subnet reads (or_Name owner));
        subnetVersion ← deref (ss_IPVersion (subnet_spec subnet));
        subnetTotalIPs ← in_field (FieldInternal "spec.ips")
          (AssembleTotalIPs subnetVersion (ss_IPs (subnet_spec subnet)) (ss_ExcludeIPs (subnet_spec subnet)));
        outIPs ← IPsDiffSet poolTotalIPs subnetTotalIPs false;
        if (0 <? length outIPs)%nat then Fail (FieldForbidden "spec.ips")
        else if IsAutoCreatedIPPool ipPool then validateNewAutoPoolTotalIPsWithinSubnet ipPool subnet
        else Ret ()
  end.

Definition validateCreateIPPoolWhileEnableSpiderSubnet (ipPool : SpiderIPPool) : outcome (list error) :=
  or_else (validateCreateIPPool ipPool)
    (if EnableSpiderSubnet iw then to_list (validateSubnetTotalIPsContainsIPPoolTotalIPs ipPool) else Ret []).

Definition validateUpdateIPPoolWhileEnableSpiderSubnet (oldIPPool newIPPool : SpiderIPPool) : outcome (list error) :=
  or_else (validateUpdateIPPool oldIPPool newIPPool)
    (if EnableSpiderSubnet iw then to_list (validateSubnetTotalIPsContainsIPPoolTotalIPs newIPPool) else Ret []).

(** Whether the aggregated message contains "AlreadyExists". *)
Definition is_already_exists (e : error) : bool :=
  match e with FieldInternal _ APIAlreadyExists => true | _ => false end.

Definition ValidateCreate (ipPool : SpiderIPPool) : outcome unit :=
  errs ← validateCreateIPPoolWhileEnableSpiderSubnet ipPool;
  match errs with
  | [] => Ret ()
  | _ => if existsb is_already_exists errs then Fail APIAlreadyExists else Fail APIInvalid
  end.

Definition ValidateUpdate (oldIPPool newIPPool : SpiderIPPool) : outcome unit :=
  match DeletionTimestamp (pool_meta newIPPool) with
  | Some _ => if negb (ContainsFinalizer (pool_meta newIPPool) SpiderFinalizer) then Ret () else Fail APIForbidden
  | None =>
      errs ← validateUpdateIPPoolWhileEnableSpiderSubnet oldIPPool newIPPool;
      match errs with [] => Ret () | _ => Fail APIInvalid end
  end.

Definition ValidateDelete (ipPool : SpiderIPPool) : outcome unit :=
  if negb (EnableValidatingResourcesDeletedWebhook iw) then Ret ()
  else match AllocatedIPCount (pool_status ipPool) with
       | Some n => if 0 <? n then Fail APIForbidden else Ret ()
       | None => Ret ()
       end.
End webhook.

(** ** What the mutation keeps *)

(** Name, deletion time, subnet, and a version that is set. *)
Definition same_pool (p q : SpiderIPPool) : Prop :=
  Name (pool_meta q) = Name (pool_meta p) ∧ DeletionTimestamp (pool_meta q) = DeletionTimestamp (pool_meta p) ∧
  ps_Subnet (pool_spec q) = ps_Subnet (pool_spec p) ∧
  (∀ v, ps_IPVersion (pool_spec p) = Some v → ps_IPVersion (pool_spec q) = Some v) ∧
  pool_status q = pool_status p.

(** Moreover the label of the CIDR and the version. *)
Definition same_cidr (p q : SpiderIPPool) : Prop :=
  same_pool p q ∧ ps_IPVersion (pool_spec q) = ps_IPVersion (pool_spec p) ∧
  Labels (pool_meta q) !! LabelIPPoolCIDR = Labels (pool_meta p) !! LabelIPPoolCIDR.

#[export] Instance same_pool_preorder : PreOrder same_pool.
Proof. split; [done|]. unfold same_pool. intros p q r. intuition (congruence || eauto). Qed.
#[export] Instance same_cidr_preorder : PreOrder same_cidr.
Proof.
  split; [done|]. unfold same_cidr. intros p q r (H1 & H2 & H3) (H4 & H5 & H6).
  split_and!; [by etrans|congruence..].
Qed.

Lemma SetControllerReference_meta owner m m' :
  SetControllerReference owner m = Ret m' → ∃ refs, m' = set_OwnerReferences refs m.
Proof.
  unfold SetControllerReference, set_controller_reference, upsertOwnerRef. case_match; [done|]. repeat case_match; intros [= <-]; eauto.
Qed.

Lemma on_meta_cidr f p :
  (∀ m, Name (f m) = Name m ∧ DeletionTimestamp (f m) = DeletionTimestamp m ∧
    Labels (f m) !! LabelIPPoolCIDR = Labels m !! LabelIPPoolCIDR) → same_cidr p (on_meta f p).
Proof. intros Hf. destruct (Hf (pool_meta p)) as (? & ? & ?). by split_and!. Qed.

Section mutation.
Context `{MR : MapRange} (iw : IPPoolWebhook) (reads : Reads).

Lemma setControllerSubnet_evolves version : evolves same_cidr (setControllerSubnet reads version).
Proof.
  intros p. unfold setControllerSubnet, mbind, cmd_bind, current, read.
  case_match; [done|].
  destruct (CIDRToLabelValue _ _) as [cidr| | |]; cbn; [|done..].
  destruct (cached_subnets reads) as [subnets| | |]; cbn; [|done..].
  destruct (matching _ _ _ subnets) as [|subnet ?]; [done|].
  assert (∀ q, same_cidr q ((if negb (bool_decide (Labels (pool_meta p) !! LabelIPPoolOwnerSpiderSubnet =
      Some (Name (subnet_meta subnet)))) then
      modify (on_meta (set_label LabelIPPoolOwnerSpiderSubnet (Name (subnet_meta subnet))))
      else mret ()) q).2) as Hlab.
  { intros q. case_match; [|done]. apply on_meta_cidr. intros m. split_and!; [done..|]. cbn. by rewrite lookup_insert_ne. }
  destruct (negb (IsControlledBy _ _)); cbn.
  - destruct (SetControllerReference _ _) as [m| | |] eqn:E; cbn; [|done..].
    apply SetControllerReference_meta in E as (refs & ->).
    specialize (Hlab (on_meta (λ _, set_OwnerReferences refs (pool_meta p)) p)). unfold cmd_bind in *.
    assert (same_cidr p (on_meta (λ _, set_OwnerReferences refs (pool_meta p)) p)) by (by split_and!).
    case_match; cbn in *; by etrans.
  - specialize (Hlab p). unfold cmd_bind. by case_match.
Qed.

Lemma on_spec_cidr f p :
  ps_Subnet (f (pool_spec p)) = ps_Subnet (pool_spec p) → ps_IPVersion (f (pool_spec p)) = ps_IPVersion (pool_spec p) →
  same_cidr p (on_spec f p).
Proof. intros H1 H2. unfold same_cidr, same_pool. cbn. rewrite H2. by split_and!. Qed.

(** The steps after the label has been set. *)
Definition mutate_rest (version : Z) (ipPool : SpiderIPPool) : cmd SpiderIPPool unit :=
  _ ← (if EnableSpiderSubnet iw then
         subnet ← map_error (FieldInternal "") (setControllerSubnet reads version);
         match subnet with
         | Some subnet => modify (InheritSubnetProperties subnet)
         | None => mret ()
         end
       else mret ());
  _ ← (if (1 <? length (ps_IPs (pool_spec ipPool)))%nat then
         mergedIPs ← lift (MergeIPRanges version (ps_IPs (pool_spec ipPool)));
         modify (on_spec (set_ps_IPs mergedIPs))
       else mret ());
  (if (1 <? length (ps_ExcludeIPs (pool_spec ipPool)))%nat then
     mergedExcludeIPs ← lift (MergeIPRanges version (ps_ExcludeIPs (pool_spec ipPool)));
     modify (on_spec (set_ps_ExcludeIPs mergedExcludeIPs))
   else mret ()).

Lemma mutate_rest_evolves version ipPool : evolves same_cidr (mutate_rest version ipPool).
Proof.
  unfold mutate_rest. apply evolves_bind; [apply _| |intros _; apply evolves_bind; [apply _| |intros _]].
  - case_match; [|eauto with evolves typeclass_instances]. apply evolves_bind; [apply _| |].
    + apply evolves_map_error, setControllerSubnet_evolves.
    + intros [subnet|]; [|apply evolves_ret, _]. apply evolves_modify. intros p. by apply on_spec_cidr.
  - case_match; [|apply evolves_ret, _]. apply evolves_bind; [apply _|apply evolves_lift, _|].
    intros ips. apply evolves_modify. intros p. by apply on_spec_cidr.
  - case_match; [|apply evolves_ret, _]. apply evolves_bind; [apply _|apply evolves_lift, _|].
    intros ips. apply evolves_modify. intros p. by apply on_spec_cidr.
Qed.

Lemma modify_if (b : bool) (f : SpiderIPPool → SpiderIPPool) p :
  (if b then modify f else mret ()) p = (Ret (), if b then f p else p).
Proof. by destruct b. Qed.

Lemma mutate_version_spec p :
  (∃ v p', mutate_version p = (Ret v, p') ∧ same_pool p p' ∧ ps_IPVersion (pool_spec p') = Some v ∧
    Labels (pool_meta p') = Labels (pool_meta p)) ∨
  (∃ e, mutate_version p = (Fail e, p) ∧ ps_IPVersion (pool_spec p) = None).
Proof.
  unfold mutate_version, mbind, cmd_bind, current, read, lift.
  destruct (ps_IPVersion (pool_spec p)) as [v|] eqn:Ev; [left; by exists v, p|].
  destruct (IsIPv4CIDR _); [|destruct (IsIPv6CIDR _)]; [left; eexists _, _; split; [done|]..|right; eauto];
    (split; [|done]; split_and!; try done; intros v0; by rewrite Ev).
Qed.

(** What the mutation of a live pool comes to: the object is the same one and, where its subnet
    is valid for its version, the label of the CIDR is set, whether or not an error is returned. *)
Lemma mutate_spec p o p' :
  DeletionTimestamp (pool_meta p) = None → mutateIPPool iw reads p = (o, p') →
  same_pool p p' ∧ ∀ v l, ps_IPVersion (pool_spec p') = Some v →
    CIDRToLabelValue v (ps_Subnet (pool_spec p')) = Ret l → Labels (pool_meta p') !! LabelIPPoolCIDR = Some l.
Proof.
  intros Hd. unfold mutateIPPool. unfold mbind at 1, cmd_bind at 1. unfold current, read. rewrite Hd.
  unfold mbind at 1, cmd_bind at 1. rewrite modify_if. set (p1 := if negb _ then _ else p).
  assert (same_cidr p p1) as Hp1 by (unfold p1, AddFinalizer, on_meta; repeat case_match; by split_and!).
  unfold mbind at 1, cmd_bind at 1.
  destruct (mutate_version_spec p1) as [(v & p2 & -> & Hp2 & Hv & Hl)|(e & -> & Hn)].
  2:{ intros [= <- <-]. split; [apply Hp1|]. intros v l Hv. congruence. }
  assert (same_pool p p2) as Hpp2 by (etrans; [apply Hp1|done]).
  assert (ps_Subnet (pool_spec p) = ps_Subnet (pool_spec p2)) as Hsub by (symmetry; apply Hpp2).
  unfold mbind at 1, cmd_bind at 1. unfold lift at 1. rewrite Hsub.
  destruct (CIDRToLabelValue v (ps_Subnet (pool_spec p2))) as [cidr|e| |] eqn:Ec;
    [|intros [= <- <-]; split; [done|]; congruence..].
  unfold mbind at 1, cmd_bind at 1. rewrite modify_if. set (p3 := if negb _ then _ else p2).
  assert (same_pool p2 p3 ∧ ps_IPVersion (pool_spec p3) = Some v ∧ Labels (pool_meta p3) !! LabelIPPoolCIDR = Some cidr)
    as (Hp3 & Hv3 & Hl3).
  { unfold p3. case_bool_decide as Hcl; cbn [negb]; (split_and!; try done).
    - rewrite Hl. by destruct Hp1 as (_ & _ & ->).
    - cbn. by rewrite lookup_insert_eq. }
  change (mutate_rest v p p3 = (o, p') → same_pool p p' ∧ ∀ v0 l, ps_IPVersion (pool_spec p') = Some v0 →
    CIDRToLabelValue v0 (ps_Subnet (pool_spec p')) = Ret l → Labels (pool_meta p') !! LabelIPPoolCIDR = Some l).
  intros Hr. pose proof (mutate_rest_evolves v p p3) as (Hs & Hv4 & Hl4). rewrite Hr in Hs, Hv4, Hl4. cbn in Hs, Hv4, Hl4.
  split; [etrans; [|exact Hs]; by etrans|]. intros v0 l E0 E1. assert (v0 = v) as -> by congruence.
  assert (ps_Subnet (pool_spec p') = ps_Subnet (pool_spec p2)) as Es by (etrans; [apply Hs|apply Hp3]).
  rewrite Es, Ec in E1. rewrite Hl4. by injection E1 as <-.
Qed.

Lemma Default_spec p p' :
  DeletionTimestamp (pool_meta p) = None → Default iw reads p = Ret p' →
  same_pool p p' ∧ ∀ v l, ps_IPVersion (pool_spec p') = Some v →
    CIDRToLabelValue v (ps_Subnet (pool_spec p')) = Ret l → Labels (pool_meta p') !! LabelIPPoolCIDR = Some l.
Proof.
  intros Hd. unfold Default. destruct (mutateIPPool iw reads p) as [o q] eqn:E. pose proof (mutate_spec p o q Hd E).
  by destruct o; intros [= <-].
Qed.
End mutation.

(** ** Admitted pools *)

(** An address the pool may hand out. *)
Definition pool_address (p : SpiderIPPool) (x : IP) : Prop :=
  x ∈ ranges_ips (ps_IPs (pool_spec p)) ∧ x ∉ ranges_ips (ps_ExcludeIPs (pool_spec p)).

(** What the webhook makes sure of for one pool. *)
Definition admitted (v : Z) (c : CIDR) (p : SpiderIPPool) : Prop :=
  ps_IPVersion (pool_spec p) = Some v ∧ IsCIDR v (ps_Subnet (pool_spec p)) = Ret () ∧
  IsFormatCIDR (ps_Subnet (pool_spec p)) = Ret () ∧ pool_CIDR p = Ret c ∧
  ∀ l, CIDRToLabelValue v (ps_Subnet (pool_spec p)) = Ret l → Labels (pool_meta p) !! LabelIPPoolCIDR = Some l.

(** What it makes sure of for two pools of a version. *)
Definition compatible (v : Z) (p : SpiderIPPool) (c : CIDR) (q : SpiderIPPool) (d : CIDR) : Prop :=
  (ps_Subnet (pool_spec p) = ps_Subnet (pool_spec q) ∧ ¬ ∃ n, in_ranges (ranges c) n ∧ in_ranges (ranges d) n) ∨
  IsCIDROverlap v (ps_Subnet (pool_spec p)) (ps_Subnet (pool_spec q)) = Ret false.

Lemma admitted_based v c p : admitted v c p →
  ∃ ip, net_ParseCIDR (ps_Subnet (pool_spec p)) = Some (ip, base c) ∧ isIPv4 c = (v =? IPv4) ∧
    is_v4 (net_ip (base c)) = (v =? IPv4) ∧ Forall ordered (ranges c).
Proof.
  intros (_ & Hc & Hf & Hn & _). destruct (NewCIDR_members _ _ _ _ Hn) as (Ho & _ & ip & Hb & Hv).
  destruct (format_notation _ _ _ _ Hc Hf Hb) as [_ E]. exists ip. by rewrite Hv, E.
Qed.

(** A number in the prefixes of two subnets of a family lies in both, so they overlap. *)
Lemma prefixes_overlap s1 s2 ip1 net1 ip2 net2 n :
  net_ParseCIDR s1 = Some (ip1, net1) → net_ParseCIDR s2 = Some (ip2, net2) →
  is_v4 (net_ip net1) = is_v4 (net_ip net2) → host_bits net2 ≤ host_bits net1 →
  n / 2 ^ host_bits net1 = prefix_of net1 (net_ip net1) → n / 2 ^ host_bits net2 = prefix_of net2 (net_ip net2) →
  ∃ x, wf_ip x ∧ in_cidr s1 x ∧ in_cidr s2 x.
Proof.
  intros P1 P2 Hv Hh N1 N2. apply (common_address_nested _ _ _ _ _ _ P1 P2 Hh).
  destruct (host_bits_range _ _ _ P2) as (Hw & Hr & E). apply (net_contains_spec _ _ _ _ P1); [done|].
  split; [done|]. rewrite <- N1. unfold prefix_of at 1. rewrite E, <- N2.
  replace (host_bits net1) with (host_bits net2 + (host_bits net1 - host_bits net2)) by lia.
  assert (0 < 2 ^ host_bits net2) by (apply Z.pow_pos_nonneg; lia).
  assert (0 < 2 ^ (host_bits net1 - host_bits net2)) by (apply Z.pow_pos_nonneg; lia).
  rewrite Z.pow_add_r by lia. rewrite <- !Z.div_div by lia. by rewrite Z.div_mul by lia.
Qed.

Lemma compatible_disjoint v c d p q x :
  admitted v c p → admitted v d q → compatible v p c q d → ¬ (pool_address p x ∧ pool_address q x).
Proof.
  intros Hp Hq Hc [[Hx1 Hx2] [Hy1 Hy2]].
  destruct (admitted_based _ _ _ Hp) as (ip1 & P1 & V1 & F1 & _). destruct (admitted_based _ _ _ Hq) as (ip2 & P2 & V2 & F2 & _).
  destruct Hp as (_ & C1 & N1 & R1 & _). destruct Hq as (_ & C2 & N2 & R2 & _).
  destruct (NewCIDR_address _ _ _ _ x R1 Hx1 Hx2) as (_ & I1 & D1).
  destruct (NewCIDR_address _ _ _ _ x R2 Hy1 Hy2) as (_ & I2 & D2).
  assert (offset d = offset c) as Eo by (unfold offset; by rewrite V1, V2). rewrite Eo in I2, D2.
  destruct Hc as [[_ Hn]|Ho]; [by eauto|].
  destruct (IsCIDROverlap_spec v _ _ C1 C2 (format_same_notation _ _ _ C1 N1 C2 N2)) as (b & Eb & Hb).
  rewrite Ho in Eb. injection Eb as <-. assert (false = true); [|done]. apply Hb.
  destruct (Z.le_ge_cases (host_bits (base d)) (host_bits (base c))) as [Hle|Hge].
  - by eapply (prefixes_overlap _ _ _ _ _ _ _ P1 P2); [congruence|..].
  - destruct (prefixes_overlap _ _ _ _ _ _ (be x - offset c) P2 P1) as (y & ? & ? & ?); [congruence|done..|eauto].
Qed.

Lemma or_else_nil o k : or_else o k = Ret [] ↔ o = Ret [] ∧ k = Ret [].
Proof. unfold or_else. destruct o as [[|e l]| | |]; naive_solver. Qed.

Lemma to_list_nil o : to_list o = Ret [] ↔ o = Ret ().
Proof. destruct o as [[]| | |]; naive_solver. Qed.

Lemma in_field_Ret {A} f (o : outcome A) a : in_field f o = Ret a ↔ o = Ret a.
Proof. destruct o; naive_solver. Qed.

Section validation.
Context `{MR : MapRange} `{J : JSON PoolIPAllocations} `{J' : JSON PoolIPPreAllocations}.
Context (VLS : LabelSelector → list error) (iw : IPPoolWebhook) (reads : Reads).

Lemma validateIPPoolAvailableIPs_inv p : validateIPPoolAvailableIPs reads p = Ret () →
  ∃ c v l pools, pool_CIDR p = Ret c ∧ ps_IPVersion (pool_spec p) = Some v ∧
    CIDRToLabelValue v (ps_Subnet (pool_spec p)) = Ret l ∧ list_pools_again reads = Ret pools ∧
    Forall (λ q, check_other_ips c p q = Ret ()) (matching pool_meta LabelIPPoolCIDR l pools).
Proof.
  unfold validateIPPoolAvailableIPs. intros (c & Hc & (v & Hv & (l & Hl & (pools & Hp & Hf)%bind_Ret)%bind_Ret)%bind_Ret)%bind_Ret.
  rewrite in_field_Ret in Hc. rewrite in_field_Ret in Hl. rewrite in_field_Ret in Hp. apply deref_Ret in Hv.
  apply for_each_Ret in Hf. by exists c, v, l, pools.
Qed.

Lemma ValidateCreate_inv p : ValidateCreate VLS iw reads p = Ret () →
  (∃ v pools, ps_IPVersion (pool_spec p) = Some v ∧ IsCIDR v (ps_Subnet (pool_spec p)) = Ret () ∧
    IsFormatCIDR (ps_Subnet (pool_spec p)) = Ret () ∧ list_pools reads = Ret pools ∧
    Forall (λ q, check_other_cidr v p q = Ret ()) pools) ∧
  validateIPPoolAvailableIPs reads p = Ret ().
Proof.
  unfold ValidateCreate. intros (errs & Herrs & He)%bind_Ret. destruct errs as [|e errs]; [|by case_match]. clear He.
  apply or_else_nil in Herrs as [Hc _]. unfold validateCreateIPPool in Hc.
  apply or_else_nil in Hc as [_ [Hcidr Hs]%or_else_nil]. apply to_list_nil in Hcidr. split.
  - unfold validateIPPoolCIDR in Hcidr.
    apply bind_Ret in Hcidr as (v & Hv & ([] & H1 & ([] & H2 & (pools & H3 & H4)%bind_Ret)%bind_Ret)%bind_Ret).
    rewrite in_field_Ret in H1. rewrite in_field_Ret in H2. rewrite in_field_Ret in H3. apply deref_Ret in Hv.
    apply for_each_Ret in H4. by exists v, pools.
  - apply bind_Ret in Hs as (errs & Hs & [= E]). apply app_eq_nil in E as [-> _]. apply to_list_nil in Hs.
    unfold validateIPPoolSpec in Hs. by apply bind_Ret in Hs as ([] & ? & _).
Qed.

Lemma ValidateUpdate_inv p q : DeletionTimestamp (pool_meta q) = None → ValidateUpdate VLS iw reads p q = Ret () →
  validateIPPoolShouldNotBeChanged p q = Ret () ∧ validateIPPoolIPVersion iw (ps_IPVersion (pool_spec q)) = Ret () ∧
  validateIPPoolAvailableIPs reads q = Ret () ∧ validateIPPoolIPInUse q = Ret ().
Proof.
  unfold ValidateUpdate. intros ->. intros (errs & Herrs & He)%bind_Ret. destruct errs; [|done]. clear He.
  apply or_else_nil in Herrs as [Hc _]. unfold validateUpdateIPPool in Hc.
  apply or_else_nil in Hc as [H1 [H2 [H3 [_ H4]%or_else_nil]%or_else_nil]%or_else_nil].
  rewrite to_list_nil in H1. rewrite to_list_nil in H2. rewrite to_list_nil in H3. rewrite to_list_nil in H4.
  unfold validateIPPoolSpec in H3. apply bind_Ret in H3 as ([] & ? & _). done.
Qed.

Lemma check_other_ips_spec c p q d : check_other_ips c p q = Ret () → Name (pool_meta q) ≠ Name (pool_meta p) →
  pool_CIDR q = Ret d → Forall ordered (ranges c) → Forall ordered (ranges d) →
  ¬ ∃ n, in_ranges (ranges c) n ∧ in_ranges (ranges d) n.
Proof.
  unfold check_other_ips. intros H Hne Hd Oc Od. rewrite bool_decide_false in H by done. rewrite Hd in H. cbn [in_field mbind outcome_bind] in H.
  rewrite <- IsOverlapIPRanges_spec by done. unfold IPRange in H. destruct (IsOverlapIPRanges c (ranges d)).2; [done|]. by intros [=].
Qed.
End validation.

(** ** The pools of the cluster *)

Section cluster.
Context `{MR : MapRange} `{J : JSON PoolIPAllocations} `{J' : JSON PoolIPPreAllocations}.
Context (VLS : LabelSelector → list error) (iw : IPPoolWebhook).

(** The listings of a request return the stored pools. *)
Definition lists (reads : Reads) (pools : gmap string SpiderIPPool) : Prop :=
  ∃ l1 l2, list_pools reads = Ret l1 ∧ list_pools_again reads = Ret l2 ∧
    l1 ≡ₚ (map_to_list pools).*2 ∧ l2 ≡ₚ (map_to_list pools).*2.

Definition mark_deleted (now : Z) (m : ObjectMeta) : ObjectMeta :=
  MkMeta (Name m) (Namespace m) (UID m) (ResourceVersion m) (Labels m) (Annotations m) (Finalizers m) (OwnerReferences m) (Some now).

(** The writes of clients that the server accepts: every create and update passes through
    [Default] and the validation; a deletion marks the pool, and an update of a marked pool that
    the webhook lets through has removed the finalizer, after which the object is gone; writes to
    the status do not pass through the webhook. *)
Inductive write (pools : gmap string SpiderIPPool) : gmap string SpiderIPPool → Prop :=
  | write_create reads p p' :
      lists reads pools → pools !! Name (pool_meta p) = None → DeletionTimestamp (pool_meta p) = None →
      Default iw reads p = Ret p' → ValidateCreate VLS iw reads p' = Ret () →
      write pools (<[Name (pool_meta p') := p']> pools)
  | write_update reads old p p' :
      lists reads pools → pools !! Name (pool_meta p) = Some old → DeletionTimestamp (pool_meta p) = None →
      Default iw reads p = Ret p' → ValidateUpdate VLS iw reads old p' = Ret () →
      write pools (<[Name (pool_meta p') := p']> pools)
  | write_delete k p now :
      pools !! k = Some p → ValidateDelete iw p = Ret () → write pools (<[k := on_meta (mark_deleted now) p]> pools)
  | write_finalize reads k old p t :
      pools !! k = Some old → DeletionTimestamp (pool_meta p) = Some t →
      ValidateUpdate VLS iw reads old p = Ret () → write pools (delete k pools)
  | write_status k p st :
      pools !! k = Some p → write pools (<[k := set_pool_status st p]> pools).

Definition pools_inv (pools : gmap string SpiderIPPool) : Prop :=
  (∀ k p, pools !! k = Some p → Name (pool_meta p) = k ∧ ∃ v c, admitted v c p) ∧
  ∀ k1 k2 p q v c d, k1 ≠ k2 → pools !! k1 = Some p → pools !! k2 = Some q →
    admitted v c p → admitted v d q → compatible v p c q d.

Lemma elem_of_listing (pools : gmap string SpiderIPPool) l k p :
  l ≡ₚ (map_to_list pools).*2 → pools !! k = Some p → p ∈ l.
Proof. intros -> H. apply list_elem_of_fmap. exists (k, p). split; [done|]. by apply elem_of_map_to_list. Qed.

Lemma compatible_sym v p c q d : admitted v c p → admitted v d q → compatible v p c q d → compatible v q d p c.
Proof.
  intros (_ & C1 & N1 & _) (_ & C2 & N2 & _) [[E Hn]|Ho]; [left; split; [done|naive_solver]|right].
  destruct (IsCIDROverlap_spec v _ _ C1 C2 (format_same_notation _ _ _ C1 N1 C2 N2)) as (b & Eb & Hb).
  destruct (IsCIDROverlap_spec v _ _ C2 C1 (format_same_notation _ _ _ C2 N2 C1 N1)) as (b' & Eb' & Hb').
  rewrite Ho in Eb. injection Eb as <-. rewrite Eb'. f_equal. apply not_true_iff_false. rewrite Hb'.
  intros (x & ? & ? & ?). by apply diff_false_true, Hb; exists x.
Qed.

(** Replacing the pool of a name by one that is admitted and compatible with the others. *)
Lemma pools_inv_insert pools p v c :
  pools_inv pools → admitted v c p →
  (∀ k q d, k ≠ Name (pool_meta p) → pools !! k = Some q → admitted v d q → compatible v p c q d) →
  pools_inv (<[Name (pool_meta p) := p]> pools).
Proof.
  intros [I1 I2] Hp Hc. assert (∀ v' c', admitted v' c' p → v' = v ∧ c' = c) as Huniq.
  { intros v' c' (E1 & _ & _ & E2 & _). destruct Hp as (E3 & _ & _ & E4 & _). rewrite E3 in E1. rewrite E4 in E2.
    by simplify_eq. }
  split.
  - intros k q [[<- <-]|[? Hq]]%lookup_insert_Some; [by eauto|by apply I1].
  - intros k1 k2 q1 q2 v' c' d' Hne [[<- <-]|[? H1]]%lookup_insert_Some [[E <-]|[? H2]]%lookup_insert_Some A1 A2.
    + done.
    + destruct (Huniq _ _ A1) as [-> ->]. eauto.
    + destruct (Huniq _ _ A2) as [-> ->]. subst. apply compatible_sym; eauto.
    + eauto.
Qed.

(** A write that keeps the admitted parts of a stored pool. *)
Lemma pools_inv_same pools k p p' :
  pools_inv pools → pools !! k = Some p → pool_spec p' = pool_spec p → Name (pool_meta p') = Name (pool_meta p) →
  Labels (pool_meta p') = Labels (pool_meta p) → pools_inv (<[k := p']> pools).
Proof.
  intros Hinv Hp Hs Hn Hl. destruct (proj1 Hinv k p Hp) as [Hk (v & c & Ha)].
  assert (∀ v c, admitted v c p' ↔ admitted v c p) as Hiff by (intros; unfold admitted, pool_CIDR; by rewrite Hs, Hl).
  rewrite <- Hk, <- Hn. apply (pools_inv_insert pools p' v c Hinv); [by apply Hiff|].
  intros k' q d Hne Hq Hd. unfold compatible. rewrite Hs.
  apply (proj2 Hinv k k' p q v c d); [congruence|done..].
Qed.
(** The pools with the label of the CIDR have been compared with the new one. *)
Lemma available_compatible reads pools p v c q d :
  lists reads pools → validateIPPoolAvailableIPs reads p = Ret () → admitted v c p → admitted v d q →
  pools !! Name (pool_meta q) = Some q → Name (pool_meta q) ≠ Name (pool_meta p) →
  ps_Subnet (pool_spec p) = ps_Subnet (pool_spec q) → compatible v p c q d.
Proof.
  intros (l1 & l2 & _ & R2 & _ & L2) (c' & v' & l & pools' & Hc & Hv & Hl & Hr & Hall)%validateIPPoolAvailableIPs_inv Hp Hq Hk Hne Es.
  left. split; [done|]. rewrite R2 in Hr. injection Hr as <-.
  assert (v' = v) as -> by (destruct Hp as (E & _); congruence).
  assert (c' = c) as -> by (destruct Hp as (_ & _ & _ & E & _); congruence).
  destruct (admitted_based _ _ _ Hp) as (_ & _ & _ & _ & O1). destruct (admitted_based _ _ _ Hq) as (_ & _ & _ & _ & O2).
  rewrite Forall_forall in Hall. destruct Hq as (_ & _ & _ & Eq & Hlab). eapply check_other_ips_spec; [|done..].
  apply Hall. apply list_elem_of_filter. split; [apply Hlab; by rewrite <- Es|]. by eapply elem_of_listing.
Qed.

Lemma create_inv reads pools p p' :
  pools_inv pools → lists reads pools → DeletionTimestamp (pool_meta p) = None →
  Default iw reads p = Ret p' → ValidateCreate VLS iw reads p' = Ret () →
  pools_inv (<[Name (pool_meta p') := p']> pools).
Proof.
  intros Hinv Hl Hdel Hd [(v & l & Hv & Hc & Hf & R1 & Hall) Hav]%ValidateCreate_inv.
  destruct (Default_spec iw reads p p' Hdel Hd) as [_ Hlab].
  pose proof Hav as (c & v' & _ & _ & Ec & Ev & _)%validateIPPoolAvailableIPs_inv.
  assert (admitted v c p') as Ha by (split_and!; [done..|]; intros lab; by apply Hlab).
  apply (pools_inv_insert pools p' v c Hinv Ha). intros k q d Hne Hq Aq. destruct (proj1 Hinv k q Hq) as [Hk _].
  pose proof Hl as (l1 & l2 & R1' & _ & L1 & _). rewrite R1 in R1'. injection R1' as ->.
  rewrite Forall_forall in Hall. specialize (Hall q (elem_of_listing _ _ _ _ L1 Hq)).
  unfold check_other_cidr in Hall. destruct Aq as (Evq & Aq). rewrite Evq in Hall. cbn in Hall.
  rewrite Z.eqb_refl, Hk, bool_decide_false in Hall by done.
  case_bool_decide as Es; [|right].
  - apply (available_compatible reads pools p' v c q d); [done..|by split|by rewrite Hk|congruence|done].
  - destruct (IsCIDROverlap v _ _) as [[]| | |]; by cbn in Hall.
Qed.

Lemma update_inv reads pools old p p' :
  pools_inv pools → lists reads pools → DeletionTimestamp (pool_meta p) = None → pools !! Name (pool_meta p) = Some old →
  Default iw reads p = Ret p' → ValidateUpdate VLS iw reads old p' = Ret () →
  pools_inv (<[Name (pool_meta p') := p']> pools).
Proof.
  intros Hinv Hl Hdel Hold Hd Hu. destruct (Default_spec iw reads p p' Hdel Hd) as [(En & Ed & Es & _) Hlab].
  apply ValidateUpdate_inv in Hu as (Hch & Hver & Hav & _); [|congruence].
  destruct (proj1 Hinv _ _ Hold) as [Eno (v & co & Ao)].
  pose proof Hav as (c & v' & _ & _ & Ec & Ev & _)%validateIPPoolAvailableIPs_inv.
  assert (v' = v ∧ ps_Subnet (pool_spec p') = ps_Subnet (pool_spec old)) as [-> Esub].
  { unfold validateIPPoolShouldNotBeChanged in Hch. destruct Ao as (Eo & _). rewrite Ev, Eo in Hch.
    destruct (Z.eqb_spec v' v) as [->|]; [|done]. cbn in Hch. by case_bool_decide. }
  pose proof Ao as (_ & C1 & F1 & _).
  assert (admitted v c p') as Ha by (split_and!; [done|by rewrite Esub..|done|]; intros lab; by apply Hlab).
  apply (pools_inv_insert pools p' v c Hinv Ha). intros k q d Hne Hq Aq. destruct (proj1 Hinv k q Hq) as [Hk _].
  destruct (proj2 Hinv (Name (pool_meta p)) k old q v co d) as [[Eq _]|Ho]; [congruence|done..| |].
  - apply (available_compatible reads pools p' v c q d); try done; [by rewrite Hk|congruence|congruence].
  - right. by rewrite Esub.
Qed.

Lemma write_inv pools pools' : pools_inv pools → write pools pools' → pools_inv pools'.
Proof.
  intros Hinv [reads p p' Hl Hn Hdel Hd Hv|reads old p p' Hl Hn Hdel Hd Hv|k p now Hp _|reads k old p t Hp _ _|k p st Hp].
  - by eapply create_inv.
  - by eapply update_inv.
  - by apply (pools_inv_same pools k p).
  - destruct Hinv as [I1 I2]. split.
    + intros k' q [_ Hq]%lookup_delete_Some. by apply I1.
    + intros k1 k2 q1 q2 v c d Hne [_ H1]%lookup_delete_Some [_ H2]%lookup_delete_Some. by apply (I2 k1 k2).
  - by apply (pools_inv_same pools k p).
Qed.

Lemma reachable_inv pools : rtc write ∅ pools → pools_inv pools.
Proof.
  intros Hr. remember ∅ as pools0 eqn:E. assert (pools_inv pools0) as H0 by (subst; split; intros *; by rewrite ?lookup_empty).
  clear E. induction Hr; eauto using write_inv.
Qed.
End cluster.

(** ** Routes *)

Lemma ValidateContainsIP_Ret path v subnet ip u :
  ValidateContainsIP path v subnet ip = Ret u ↔ ContainsIP v subnet ip = Ret true.
Proof.
  unfold ValidateContainsIP. rewrite bind_Ret. setoid_rewrite in_field_Ret. split.
  - intros (b & Hb & H). by destruct b.
  - intros ->. destruct u. by exists true.
Qed.

(** The destination of a default route. *)
Definition default_dst (v : Z) : string := if v =? IPv4 then "0.0.0.0/0" else "::/0".

Lemma check_routes_Ret v subnet i seen routes :
  IsIPVersion v = Ret () →
  check_routes v subnet i seen routes = Ret () ↔
  NoDup (Dst <$> routes) ∧ Forall (λ r, Dst r ∉ seen) routes ∧
  Forall (λ r, Dst r ≠ default_dst v ∧ IsCIDR v (Dst r) = Ret () ∧ ContainsIP v subnet (Gw r) = Ret true) routes.
Proof.
  intros Hv. assert (∀ r, (v =? IPv4) && (Dst r == "0.0.0.0/0"%string) ||
      (v =? IPv6) && (Dst r == "::/0"%string) = (Dst r == default_dst v)) as Hdef.
  { intros r. unfold default_dst. destruct (IsIPVersion_cases v Hv) as [-> | ->]; cbn; by rewrite ?orb_false_r. }
  revert i seen. induction routes as [|r routes IH]; intros i seen; cbn [check_routes].
  { split; [|done]. intros _. split_and!; constructor. }
  rewrite Hdef, fmap_cons, NoDup_cons, !Forall_cons, list_elem_of_fmap.
  case_bool_decide as H1; [naive_solver|]. case_bool_decide as H2; [naive_solver|].
  split.
  - intros ([] & Hc%in_field_Ret & ([] & Hg%ValidateContainsIP_Ret & (Hn & Hs & Hf)%IH)%bind_Ret)%bind_Ret.
    rewrite Forall_forall in Hs. split_and!; try done.
    + intros (r' & E & Hr'). specialize (Hs r' Hr'). set_solver.
    + apply Forall_forall. intros r' Hr'. specialize (Hs r' Hr'). set_solver.
  - intros ((Hnin & Hn) & (_ & Hs) & (_ & Hc & Hg) & Hf). apply bind_Ret. exists (). split; [by apply in_field_Ret|].
    apply bind_Ret. exists (). split; [by apply ValidateContainsIP_Ret|]. apply IH. split_and!; try done.
    rewrite Forall_forall in Hs. apply Forall_forall. intros r' Hr'. specialize (Hs r' Hr').
    assert (Dst r ≠ Dst r') by eauto. set_solver.
Qed.

(** ** Properties *)

(** C3: whatever sequence of creations, updates, deletions and status writes the webhook admits,
    each with the pools listed as they are stored, no address can be handed out by two pools of
    a version. *)
Theorem webhook_pools_disjoint `{MR : MapRange} `{J : JSON PoolIPAllocations} `{J' : JSON PoolIPPreAllocations} VLS iw pools
    k1 k2 p1 p2 :
  rtc (write VLS iw) ∅ pools → pools !! k1 = Some p1 → pools !! k2 = Some p2 → k1 ≠ k2 →
  ps_IPVersion (pool_spec p1) = ps_IPVersion (pool_spec p2) → ∀ x, ¬ (pool_address p1 x ∧ pool_address p2 x).
Proof.
  intros Hr H1 H2 Hne Hv x. apply reachable_inv in Hr as [I1 I2].
  destruct (I1 _ _ H1) as [_ (v & c & A1)]. destruct (I1 _ _ H2) as [_ (v' & d & A2)].
  assert (v' = v) as -> by (destruct A1 as (? & _), A2 as (? & _); congruence).
  by apply (compatible_disjoint v c d); [| |apply (I2 k1 k2)].
Qed.

Definition ex_webhook : IPPoolWebhook := MkIPPoolWebhook true true false true.
Definition ex_new (name : string) (ips : list string) : SpiderIPPool :=
  MkIPPool (plain_meta "" name "")
    (MkIPPoolSpec None "10.6.0.0/16" ips [] None None None None [] None [] [] None None) (MkIPPoolStatus None None None).
Definition ex_reads (pools : list SpiderIPPool) : Reads :=
  MkReads (Ret pools) (Ret pools) (λ _, Fail APINotFound) (Ret []).
Definition ex_default (p : SpiderIPPool) : SpiderIPPool :=
  match @Default ordered_range ex_webhook (ex_reads []) p with Ret p' => p' | _ => p end.
Definition ex_a : SpiderIPPool := ex_default (ex_new "a" ["10.6.0.10-10.6.0.20"]).
Definition ex_b : SpiderIPPool := ex_default (ex_new "b" ["10.6.0.30-10.6.0.40"]).

Lemma webhook_pools_disjoint_witness :
  ps_IPs (pool_spec ex_a) = ["10.6.0.10-10.6.0.20"] ∧ ∀ x, ¬ (pool_address ex_a x ∧ pool_address ex_b x).
Proof.
  split; [vm_compute; reflexivity|]. apply (@webhook_pools_disjoint ordered_range ex_json countable_json (λ _, []) ex_webhook (<["b" := ex_b]> (<["a" := ex_a]> ∅)) "a" "b");
    [|reflexivity..|discriminate|reflexivity].
  eapply rtc_l; [|eapply rtc_l; [|apply rtc_refl]].
  - apply (@write_create ordered_range ex_json countable_json _ _ _ (ex_reads []) (ex_new "a" ["10.6.0.10-10.6.0.20"]) ex_a);
      [exists [], []; done|reflexivity|reflexivity|vm_compute; reflexivity|vm_compute; reflexivity].
  - apply (@write_create ordered_range ex_json countable_json _ _ _ (ex_reads [ex_a]) (ex_new "b" ["10.6.0.30-10.6.0.40"]) ex_b);
      [exists [ex_a], [ex_a]; done|reflexivity|reflexivity|vm_compute; reflexivity|vm_compute; reflexivity].
Defined.

(** An update that the webhook admits keeps every address that is in use an address of the
    pool, and keeps its subnet and version. *)
Theorem update_keeps_used_addresses `{MR : MapRange} `{J : JSON PoolIPAllocations} `{J' : JSON PoolIPPreAllocations}
    VLS iw reads old new v records :
  DeletionTimestamp (pool_meta new) = None → ValidateUpdate VLS iw reads old new = Ret () →
  ps_IPVersion (pool_spec new) = Some v → UnmarshalIPPoolAllocatedIPs (AllocatedIPs (pool_status new)) = Ret records →
  Forall (good_range v) (ps_IPs (pool_spec new)) → Forall (good_range v) (ps_ExcludeIPs (pool_spec new)) →
  ps_Subnet (pool_spec new) = ps_Subnet (pool_spec old) ∧
  ∀ k, is_Some (records !! k) → ∃ x, pool_address new x ∧ ip_string x = k.
Proof.
  intros Hd (Hch & _ & _ & Huse)%ValidateUpdate_inv Hv Hrec Hg He; [|done]. split.
  { unfold validateIPPoolShouldNotBeChanged in Hch. case_match; [done|]. by case_bool_decide. }
  unfold validateIPPoolIPInUse in Huse. rewrite Hrec, Hv in Huse.
  cbn [in_field mbind outcome_bind deref] in Huse. rewrite AssembleTotalIPs_spec in Huse by done.
  cbn [in_field mbind outcome_bind deref] in Huse. apply for_each_Ret in Huse. rewrite Forall_forall in Huse.
  intros k Hk. specialize (Huse k). cbn beta in Huse. rewrite elem_of_range_keys in Huse. specialize (Huse Hk).
  case_bool_decide as Hin; [|done]. apply elem_of_list_to_set, list_elem_of_fmap in Hin as (x & -> & [? ?]%list_elem_of_filter).
  by exists x.
Qed.

Definition ex_used : SpiderIPPool :=
  MkIPPool (pool_meta ex_a) (pool_spec ex_a)
    (MkIPPoolStatus (@MarshalIPPoolAllocatedIPs ex_json {["10.6.0.12" := MkPoolIPAllocation "default/web-0" "uid-0"]}) None (Some 1)).

Lemma update_keeps_used_addresses_witness :
  ps_Subnet (pool_spec ex_used) = ps_Subnet (pool_spec ex_a) ∧
  ∀ k, is_Some (({["10.6.0.12" := MkPoolIPAllocation "default/web-0" "uid-0"]} : PoolIPAllocations) !! k) →
    ∃ x, pool_address ex_used x ∧ ip_string x = k.
Proof.
  apply (@update_keeps_used_addresses ordered_range ex_json countable_json (λ _, []) ex_webhook (ex_reads [ex_a]) ex_a ex_used IPv4);
    [reflexivity|vm_compute; reflexivity|reflexivity|vm_compute; reflexivity|..];
    apply (bool_decide_unpack _); vm_compute; exact I.
Defined.

(** [validateIPPoolRoutes] accepts exactly the routes with different destinations, none of
    them a default route, each a subnet of the version with a gateway in the pool's subnet. *)
Theorem validateIPPoolRoutes_iff v subnet routes :
  IsIPVersion v = Ret () →
  validateIPPoolRoutes v subnet routes = Ret () ↔
  NoDup (Dst <$> default [] routes) ∧
  Forall (λ r, Dst r ≠ default_dst v ∧ IsCIDR v (Dst r) = Ret () ∧ ContainsIP v subnet (Gw r) = Ret true) (default [] routes).
Proof.
  intros Hv. unfold validateIPPoolRoutes. rewrite check_routes_Ret by done. split; [naive_solver|].
  intros []. split_and!; try done. apply Forall_forall. set_solver.
Qed.

Lemma validateIPPoolRoutes_iff_witness :
  let routes := Some [MkRoute "10.7.0.0/16" "10.6.0.1"; MkRoute "10.8.0.0/16" "10.6.0.1"] in
  validateIPPoolRoutes IPv4 "10.6.0.0/16" routes = Ret () ↔
  NoDup (Dst <$> default [] routes) ∧
  Forall (λ r, Dst r ≠ default_dst IPv4 ∧ IsCIDR IPv4 (Dst r) = Ret () ∧
    ContainsIP IPv4 "10.6.0.0/16" (Gw r) = Ret true) (default [] routes).
Proof. intros routes. apply (validateIPPoolRoutes_iff IPv4 "10.6.0.0/16" routes). reflexivity. Defined.

(** A gateway that is the only address of the pool in another notation passes the check that
    the gateway is not handed out, and is then an address of the pool. *)
Theorem gateway_conflict_missed :
  let p := MkIPPool (plain_meta "" "p" "")
    (MkIPPoolSpec (Some IPv6) "fd00::/120" ["fd00::0001"] [] (Some "fd00::1"%string) None None None [] None [] [] None None)
    (MkIPPoolStatus None None None) in
  @ValidateCreate ordered_range countable_json (λ _, []) ex_webhook (ex_reads []) p = Ret () ∧
  pool_address p (net_ParseIP "fd00::1").
Proof.
  intros p. split; [vm_compute; reflexivity|]. apply (bool_decide_unpack _). vm_compute. exact I.
Qed.
