(* ===== verification/Workload.v ===== *)
(** * Pods and their controllers

    pkg/podmanager ([IsPodAlive], [IsStaticIPPod], [GetPodTopController]), pkg/statefulsetmanager
    and pkg/kubevirtmanager (whether the Pod of a stateful workload still has a right to its
    addresses).  Reads of the API server are arguments. *)

From S2P Require Import Prelude NetIP NetIPFacts K8s Convert IPPoolManager.
Local Open Scope Z_scope.
Local Open Scope go_scope.

Inductive PodPhase := PodPending | PodRunning | PodSucceeded | PodFailed | PodUnknown.
Inductive RestartPolicy := RestartAlways | RestartOnFailure | RestartNever.
#[export] Instance PodPhase_eq_dec : EqDecision PodPhase.
Proof. solve_decision. Defined.
#[export] Instance RestartPolicy_eq_dec : EqDecision RestartPolicy.
Proof. solve_decision. Defined.

Record Pod := MkPod {
  pod_meta : ObjectMeta;
  NodeName : string;
  pod_RestartPolicy : RestartPolicy;
  Phase : PodPhase;
  Reason : string
}.

(** ** pkg/podmanager/utils.go *)

Definition IsPodAlive (pod : option Pod) : bool :=
  match pod with
  | None => false
  | Some pod =>
      if bool_decide (is_Some (DeletionTimestamp (pod_meta pod))) then false
      else if (Phase pod == PodSucceeded) && (pod_RestartPolicy pod != RestartAlways) then false
      else if (Phase pod == PodFailed) && (pod_RestartPolicy pod == RestartNever) then false
      else if (Phase pod == PodFailed) && (Reason pod == "Evicted"%string) then false
      else true
  end.

Definition CoreGroupVersion : string := "v1".
Definition AppsGroupVersion : string := "apps/v1".
Definition BatchGroupVersion : string := "batch/v1".
Definition K8sAPIVersions : list string := [CoreGroupVersion; AppsGroupVersion; BatchGroupVersion].
Definition KindPod : string := "Pod".
Definition KindDeployment : string := "Deployment".
Definition KindStatefulSet : string := "StatefulSet".
Definition KindDaemonSet : string := "DaemonSet".
Definition KindReplicaSet : string := "ReplicaSet".
Definition KindJob : string := "Job".
Definition KindCronJob : string := "CronJob".
Definition KindKubevirtVM : string := "VirtualMachine".

Definition IsStaticIPPod (enableStatefulSet enableKubevirtStaticIP : bool) (pod : Pod) : bool :=
  match GetControllerOf (pod_meta pod) with
  | None => false
  | Some ref =>
      if enableStatefulSet && (or_APIVersion ref == AppsGroupVersion) && (or_Kind ref == KindStatefulSet) then true
      else if enableKubevirtStaticIP && (or_APIVersion ref == KubevirtGroupVersion) && (or_Kind ref == KindKubevirtVMI)
      then true
      else false
  end.

(** ** GetPodTopController *)

Section top_controller.
(** [pm.client.Get] for an object of a kind, by namespace and name. *)
Context (get : string → string → string → outcome ObjectMeta).

(** The controller of a kind at an API version. *)
Definition top_of (apiVersion kind : string) (m : ObjectMeta) : PodTopController :=
  MkTopController (MkApp apiVersion kind (Namespace m) (Name m)) (UID m).

(** An object of the middle level: its own controller when that is of the given kind. *)
Definition climb (apiVersion kind upperKind ns name : string) : outcome PodTopController :=
  m ← get kind ns name;
  match GetControllerOf m with
  | Some owner =>
      if (or_APIVersion owner == apiVersion) && (or_Kind owner == upperKind) then
        upper ← get upperKind (Namespace m) (or_Name owner);
        Ret (top_of apiVersion upperKind upper)
      else Ret (top_of apiVersion kind m)
  | None => Ret (top_of apiVersion kind m)
  end.

Definition GetPodTopController (pod : Pod) : outcome PodTopController :=
  let m := pod_meta pod in
  match GetControllerOf m with
  | None => Ret (MkTopController (MkApp CoreGroupVersion KindPod (Namespace m) (Name m)) (UID m))
  | Some podOwner =>
      let self := MkTopController (MkApp (or_APIVersion podOwner) (or_Kind podOwner) (Namespace m) (or_Name podOwner)) (or_UID podOwner) in
      if negb (bool_decide (or_APIVersion podOwner ∈ K8sAPIVersions)) then Ret self
      else if or_Kind podOwner == KindReplicaSet
      then climb AppsGroupVersion KindReplicaSet KindDeployment (Namespace m) (or_Name podOwner)
      else if or_Kind podOwner == KindJob
      then climb BatchGroupVersion KindJob KindCronJob (Namespace m) (or_Name podOwner)
      else if or_Kind podOwner == KindDaemonSet
      then o ← get KindDaemonSet (Namespace m) (or_Name podOwner); Ret (top_of AppsGroupVersion KindDaemonSet o)
      else if or_Kind podOwner == KindStatefulSet
      then o ← get KindStatefulSet (Namespace m) (or_Name podOwner); Ret (top_of AppsGroupVersion KindStatefulSet o)
      else Ret self
  end.
End top_controller.

(** ** pkg/statefulsetmanager *)

(** The match of "(.*)-([0-9]+)$" in a name without line breaks: what stands before and after the
    last dash, the latter digits only. *)
Fixpoint cut_last (sep : ascii) (s : string) : option (string * string) :=
  match s with
  | EmptyString => None
  | String c s' =>
      match cut_last sep s' with
      | Some (a, b) => Some (String c a, b)
      | None => if c == sep then Some (""%string, s') else None
      end
  end.

(** [strconv.ParseInt(s, 10, 32)] on digits. *)
Definition getStatefulSetNameAndOrdinal (podName : string) : option (string * Z) :=
  '(parent, digits) ← cut_last "-" podName;
  if digits == EmptyString then None
  else n ← atoi_digits digits 0;
       if n <? 2 ^ 31 then Some (parent, n) else None.

(** The parts of a StatefulSet that are read; [None] ordinals start at zero, nil replicas are a
    nil dereference. *)
Record StatefulSet := MkStatefulSet { sts_Start : option Z; sts_Replicas : option Z }.

Definition IgnoreNotFound (e : error) : option error := if e == APINotFound then None else Some e.

Definition IsValidStatefulSetPod (get_sts : string → string → outcome StatefulSet) (namespace podName podControllerType : string)
    : outcome bool :=
  if podControllerType != KindStatefulSet then Fail (ErrOther "not a StatefulSet")
  else
    match getStatefulSetNameAndOrdinal podName with
    | None => Ret false
    | Some (stsName, ordinal) =>
        match get_sts namespace stsName with
        | Ret sts =>
            replicas ← deref (sts_Replicas sts);
            match sts_Start sts with
            | Some startIndex => Ret ((startIndex <=? ordinal) && (ordinal <=? startIndex + replicas - 1))
            | None => Ret (ordinal <=? replicas - 1)
            end
        | Fail e => match IgnoreNotFound e with None => Ret false | Some e => Fail e end
        | Panic => Panic
        | OutOfFuel => OutOfFuel
        end
    end.

(** ** pkg/kubevirtmanager *)

Definition isVMIControlledByVM (vmi : ObjectMeta) : bool :=
  match GetControllerOf vmi with
  | None => false
  | Some ref => (or_APIVersion ref == KubevirtGroupVersion) && (or_Kind ref == KindKubevirtVM)
  end.

Section kubevirt.
Context (get_vmi get_vm : string → string → outcome ObjectMeta).

Definition check_vm (namespace name : string) : outcome bool :=
  match get_vm namespace name with
  | Ret vm => Ret (DeletionTimestamp vm == None)
  | Fail e => if e == APINotFound then Ret false else Fail e
  | Panic => Panic
  | OutOfFuel => OutOfFuel
  end.

Definition IsValidVMPod (namespace podControllerType podControllerName : string) : outcome bool :=
  if podControllerType != KindKubevirtVMI then Fail (ErrOther "not a VirtualMachineInstance")
  else
    match get_vmi namespace podControllerName with
    | Ret vmi =>
        match DeletionTimestamp vmi with
        | None => Ret true
        | Some _ => if isVMIControlledByVM vmi then check_vm namespace podControllerName else Ret false
        end
    | Fail e => if e == APINotFound then check_vm namespace podControllerName else Fail e
    | Panic => Panic
    | OutOfFuel => OutOfFuel
    end.
End kubevirt.

(** ** Ordinals *)

Lemma atoi_digits_digit d s acc : 0 ≤ d < 10 → atoi_digits (String (digit_char d) s) acc = atoi_digits s (acc * 10 + d).
Proof. intros Hd. cbn [atoi_digits]. by rewrite digit_val_digit_char. Qed.

(** [atoi_digits] reads what [itoa_go] prints, in front of [s]. *)
Lemma atoi_itoa_go fuel n s :
  0 ≤ n < 2 ^ Z.of_nat fuel → ∃ (t : string) K, itoa_go fuel n s = t +:+ s ∧ (0 < fuel → t ≠ EmptyString)%nat ∧
    (∀ s' acc, atoi_digits (t +:+ s') acc = atoi_digits s' (acc * K + n)) ∧
    string_forall (λ c, bool_decide (is_Some (digit_val c))) t = true.
Proof.
  revert n s. induction fuel as [|fuel IH]; intros n s Hn.
  { exists ""%string, 1. split_and!; [done|lia| |done]. intros s' acc. assert (n = 0) as -> by (cbn in Hn; lia).
    cbn. f_equal. lia. }
  assert (0 ≤ n mod 10 < 10) as Hm by (apply Z.mod_pos_bound; lia). pose proof (digit_val_digit_char _ Hm) as Hd.
  cbn [itoa_go]. destruct (Z.ltb_spec n 10) as [Hlt|Hge].
  - exists (String (digit_char (n mod 10)) ""), 10. split_and!; [done..| |].
    + intros s' acc. etrans; [exact (atoi_digits_digit _ _ _ Hm)|]. f_equal. rewrite Z.mod_small by lia. lia.
    + cbn [string_forall]. by rewrite Hd.
  - destruct (IH (n / 10) (String (digit_char (n mod 10)) s)) as (t & K & -> & _ & Ht & Hf).
    { split; [apply Z.div_pos; lia|]. apply Z.div_lt_upper_bound; [lia|]. rewrite Nat2Z.inj_succ, Z.pow_succ_r in Hn by lia. nia. }
    exists (t +:+ String (digit_char (n mod 10)) ""), (K * 10). split_and!.
    + by rewrite string_app_assoc.
    + intros _. by destruct t.
    + intros s' acc. rewrite string_app_assoc, Ht. etrans; [exact (atoi_digits_digit _ _ _ Hm)|]. f_equal.
      pose proof (Z.div_mod n 10 ltac:(lia)). nia.
    + rewrite string_forall_app, Hf. cbn [string_forall]. by rewrite Hd.
Qed.

Lemma itoa_digits n : 0 ≤ n →
  itoa n ≠ EmptyString ∧ atoi_digits (itoa n) 0 = Some n ∧ string_forall (λ c, bool_decide (is_Some (digit_val c))) (itoa n) = true.
Proof.
  intros Hn. unfold itoa. destruct (atoi_itoa_go (S (Z.to_nat (Z.log2 n))) n "") as (t & K & -> & Hne & Ht & Hf).
  { rewrite Nat2Z.inj_succ, Z2Nat.id by apply Z.log2_nonneg. destruct (decide (n = 0)) as [->|]; [done|].
    pose proof (Z.log2_spec n ltac:(lia)). lia. }
  rewrite string_app_nil_r. split_and!; [apply Hne; lia| |done]. specialize (Ht ""%string 0). rewrite string_app_nil_r in Ht. by rewrite Ht.
Qed.

(** The dash that separates the ordinal is the last one. *)
Lemma cut_last_app sep (a b : string) : string_forall (λ c, (c != sep)) b = true →
  cut_last sep (a +:+ String sep b) = Some (a, b).
Proof.
  intros Hb. assert (cut_last sep b = None) as Hn.
  { induction b as [|c b IH]; [done|]. cbn in Hb. apply andb_true_iff in Hb as [Hc Hb]. cbn. rewrite IH by done. by case_bool_decide. }
  induction a as [|c a IH].
  - change (cut_last sep (String sep b) = Some (""%string, b)). cbn [cut_last]. by rewrite Hn, bool_decide_true.
  - rewrite string_app_cons. cbn [cut_last]. by rewrite IH.
Qed.

(** The name of a Pod gives back the name of its set, dashes included, and the ordinal. *)
Lemma statefulset_name_roundtrip sts n :
  0 ≤ n < 2 ^ 31 → getStatefulSetNameAndOrdinal (sts +:+ "-" +:+ itoa n) = Some (sts, n).
Proof.
  intros Hn. destruct (itoa_digits n) as (Hne & Ha & Hf); [lia|]. unfold getStatefulSetNameAndOrdinal.
  assert ("-" +:+ itoa n = String "-" (itoa n)) as -> by done. rewrite cut_last_app.
  - cbn [mbind option_bind]. rewrite bool_decide_false, Ha by done. cbn. by rewrite (proj2 (Z.ltb_lt n _)) by lia.
  - eapply string_forall_weaken; [|exact Hf]. intros c. cbn beta. intros Hc%bool_decide_eq_true. apply negb_true_iff, bool_decide_eq_false.
    intros ->. by destruct Hc.
Qed.

(** The Pod of a StatefulSet keeps its addresses exactly when its ordinal is one the set
    still runs: from the start ordinal, zero by default, for as many as there are replicas. *)
Theorem IsValidStatefulSetPod_iff get_sts namespace sts n start replicas :
  0 ≤ n < 2 ^ 31 → get_sts namespace sts = Ret (MkStatefulSet start (Some replicas)) →
  ∃ b, IsValidStatefulSetPod get_sts namespace (sts +:+ "-" +:+ itoa n) KindStatefulSet = Ret b ∧
    (b = true ↔ default 0 start ≤ n < default 0 start + replicas).
Proof.
  intros Hn Hg. unfold IsValidStatefulSetPod. rewrite bool_decide_true by done. cbn [negb].
  assert (getStatefulSetNameAndOrdinal (sts +:+ "-" +:+ itoa n) = Some (sts, n)) as -> by by apply statefulset_name_roundtrip.
  rewrite Hg. cbn. destruct start as [start|]; eexists; (split; [reflexivity|]); cbn; lia.
Qed.

Lemma IsValidStatefulSetPod_iff_witness :
  ∃ b, IsValidStatefulSetPod (λ _ _, Ret (MkStatefulSet (Some 2) (Some 3))) "default" ("my-web" +:+ "-" +:+ itoa 4) KindStatefulSet = Ret b ∧
    (b = true ↔ default 0 (Some 2) ≤ 4 < default 0 (Some 2) + 3).
Proof.
  apply (IsValidStatefulSetPod_iff (λ _ _, Ret (MkStatefulSet (Some 2) (Some 3))) "default" "my-web" 4 (Some 2) 3); [lia|reflexivity].
Defined.
