(* ===== verification/Endpoint.v ===== *)
(** * pkg/workloadendpointmanager: the record of a Pod's addresses

    A SpiderEndpoint records which addresses a Pod holds, by NIC.  The operations change the
    object in memory and write it; the writes go to a store of endpoints, the class
    [EndpointStore], for which [mem_endpoints] is a concrete instance. *)

From S2P Require Import Prelude NetIP NetIPFacts IPAddr K8s Retry Convert IPPoolManager Workload.
Local Open Scope Z_scope.
Local Open Scope go_scope.

(** ** The store

    [Update] returns the object as stored.  [Delete] of an object with finalizers only marks it;
    the patch of its finalizers removes it when it is marked and none is left. *)
Class EndpointStore (E : Type) := {
  ep_get : E → bool → string → outcome SpiderEndpoint;
  ep_create : SpiderEndpoint → E → outcome SpiderEndpoint * E;
  ep_update : SpiderEndpoint → E → outcome SpiderEndpoint * E;
  ep_delete : SpiderEndpoint → E → outcome unit * E;
  ep_patch_finalizers : SpiderEndpoint → E → outcome SpiderEndpoint * E
}.

Definition ep_key (ep : SpiderEndpoint) : string := MetaNamespaceKey (ep_meta ep).
Definition NamespacedKey (namespace name : string) : string := MetaNamespaceKey (plain_meta namespace name "").

Definition set_ep_meta (m : ObjectMeta) (ep : SpiderEndpoint) : SpiderEndpoint := MkEndpoint m (ep_status ep).
Definition set_current (a : PodIPAllocation) (ep : SpiderEndpoint) : SpiderEndpoint :=
  MkEndpoint (ep_meta ep) (MkEndpointStatus a (OwnerControllerType (ep_status ep)) (OwnerControllerName (ep_status ep))).
Definition current_of (ep : SpiderEndpoint) : PodIPAllocation := Current (ep_status ep).
Definition set_ips (ips : list IPAllocationDetail) (ep : SpiderEndpoint) : SpiderEndpoint :=
  set_current (MkPodIPAllocation (ep_UID (current_of ep)) (ep_Node (current_of ep)) ips) ep.

(** ** utils.go *)

Definition RetrieveIPAllocation (uid nic : string) (endpoint : option SpiderEndpoint) (isStatic : bool) : option PodIPAllocation :=
  match endpoint with
  | None => None
  | Some ep =>
      if (ep_UID (current_of ep) == uid) || isStatic then
        if existsb (λ d, (NIC d == nic) || (NIC d == EmptyString)) (ep_IPs (current_of ep))
        then Some (current_of ep) else None
      else None
  end.

(** ** The manager *)

Record EndpointConfig := MkEndpointConfig { enableStatefulSet : bool; enableKubevirtStaticIP : bool }.

Definition is_sts (c : PodTopController) : bool :=
  (app_APIVersion (top_app c) == AppsGroupVersion) && (app_Kind (top_app c) == KindStatefulSet).
Definition is_vmi (c : PodTopController) : bool :=
  (app_APIVersion (top_app c) == KubevirtGroupVersion) && (app_Kind (top_app c) == KindKubevirtVMI).

Section manager.
Context `{MR : MapRange} {E : Type} `{ES : EndpointStore E}.
Context (em : EndpointConfig).

Definition GetEndpointByName (namespace podName : string) (cached : bool) : cmd E SpiderEndpoint :=
  read (λ s, ep_get s cached (NamespacedKey namespace podName)).

Definition DeleteEndpoint (endpoint : SpiderEndpoint) : cmd E unit := λ s,
  match ep_delete endpoint s with
  | (Fail e, s') => (match IgnoreNotFound e with None => Ret () | Some e => Fail e end, s')
  | r => r
  end.

(** The endpoint without the finalizer, patched on the server when it had it. *)
Definition RemoveFinalizer (endpoint : SpiderEndpoint) : cmd E SpiderEndpoint :=
  if negb (ContainsFinalizer (ep_meta endpoint) SpiderFinalizer) then mret endpoint
  else ep_patch_finalizers
         (set_ep_meta (set_Finalizers (filter (.≠ SpiderFinalizer) (Finalizers (ep_meta endpoint))) (ep_meta endpoint)) endpoint).

(** The endpoint that records the results of a first allocation; the owner is the Pod, except for
    workloads whose addresses outlive their Pods. *)
Definition new_endpoint (details : list IPAllocationDetail) (pod : Pod) (podController : PodTopController) : SpiderEndpoint :=
  let m := plain_meta (Namespace (pod_meta pod)) (Name (pod_meta pod)) "" in
  let m :=
    if enableStatefulSet em && is_sts podController then m
    else if enableKubevirtStaticIP em && is_vmi podController then set_Name (app_Name (top_app podController)) m
    else upsertOwnerRef (MkOwnerReference CoreGroupVersion KindPod (Name (pod_meta pod)) (UID (pod_meta pod)) None) m in
  MkEndpoint (AddFinalizer m SpiderFinalizer)
    (MkEndpointStatus (MkPodIPAllocation (UID (pod_meta pod)) (NodeName pod) details)
       (app_Kind (top_app podController)) (app_Name (top_app podController))).

(** The details of NICs that are not recorded yet are appended. *)
Definition merge_details (recorded details : list IPAllocationDetail) : list IPAllocationDetail :=
  foldl (λ ips r, if existsb (λ x, (NIC x == NIC r)) ips then ips else ips ++ [r]) recorded details.

Definition PatchIPAllocationResults (results : list AllocationResult) (endpoint : option SpiderEndpoint) (pod : Pod)
    (podController : PodTopController) (isMultipleNicWithNoName : bool) : cmd E unit :=
  match endpoint with
  | None =>
      details ← lift (ConvertResultsToIPDetails results isMultipleNicWithNoName);
      _ ← ep_create (new_endpoint details pod podController);
      mret ()
  | Some ep =>
      if ep_UID (current_of ep) != UID (pod_meta pod) then mret ()
      else
        details ← lift (ConvertResultsToIPDetails results isMultipleNicWithNoName);
        _ ← ep_update (set_ips (merge_details (ep_IPs (current_of ep)) details) ep);
        mret ()
  end.

(** The first detail that has no name gets it, unless one with the name stands before. *)
Fixpoint name_nic (nic : string) (ips : list IPAllocationDetail) : list IPAllocationDetail :=
  match ips with
  | [] => []
  | d :: ips =>
      if NIC d == EmptyString then set_NIC nic d :: ips
      else if NIC d == nic then d :: ips
      else d :: name_nic nic ips
  end.

Definition ReallocateCurrentIPAllocation (uid nodeName nic : string) (endpoint : SpiderEndpoint) (isMultipleNicWithNoName : bool)
    : cmd E SpiderEndpoint :=
  let ips := ep_IPs (current_of endpoint) in
  let deepCopy := set_current (MkPodIPAllocation uid nodeName (if isMultipleNicWithNoName then name_nic nic ips else ips)) endpoint in
  if deepCopy == endpoint then mret endpoint else ep_update deepCopy.

(** A name that is there already is returned without a write. *)
Fixpoint named_before_empty (nic : string) (ips : list IPAllocationDetail) : bool :=
  match ips with
  | [] => false
  | d :: ips =>
      if NIC d == EmptyString then false
      else if NIC d == nic then true
      else named_before_empty nic ips
  end.

Definition UpdateAllocationNICName (endpoint : SpiderEndpoint) (nic : string) : cmd E SpiderEndpoint :=
  if named_before_empty nic (ep_IPs (current_of endpoint)) then mret endpoint
  else ep_update (set_ips (name_nic nic (ep_IPs (current_of endpoint))) endpoint).

Definition PatchEndpointAllocationIPs (endpoint : SpiderEndpoint) (newEndpointIPs : list IPAllocationDetail) : cmd E SpiderEndpoint :=
  ep_update (set_ips newEndpointIPs endpoint).

Definition ReleaseEndpointIPs (endpoint : SpiderEndpoint) (podUID : string) : cmd E (list IPAllocationDetail) :=
  if ep_UID (current_of endpoint) != podUID then lift (Fail (ErrOther "unmatched PodUID"))
  else
    let recorded := ep_IPs (current_of endpoint) in
    match recorded with
    | [] => mret []
    | _ => _ ← ep_update (set_ips [] endpoint); mret recorded
    end.

Definition ReleaseEndpointAndFinalizer (namespace podName : string) (cached : bool) : cmd E unit := λ s,
  match GetEndpointByName namespace podName cached s with
  | (Fail e, s') => if e == APINotFound then (Ret (), s') else (Fail e, s')
  | (Ret endpoint, s') =>
      (_ ← (if DeletionTimestamp (ep_meta endpoint) == None then DeleteEndpoint endpoint else mret ());
       _ ← RemoveFinalizer endpoint;
       mret ()) s'
  | (Panic, s') => (Panic, s')
  | (OutOfFuel, s') => (OutOfFuel, s')
  end.
End manager.

(** ** A store in memory *)

Record mem_eps := MkEps { eps : gmap string SpiderEndpoint; ep_clock : Z }.

Definition ep_version (v : Z) (ep : SpiderEndpoint) : SpiderEndpoint := set_ep_meta (set_ResourceVersion v (ep_meta ep)) ep.

(** An object that is marked and has no finalizer is removed. *)
Definition ep_put (ep : SpiderEndpoint) (s : mem_eps) : mem_eps :=
  let ep := ep_version (ep_clock s) ep in
  if bool_decide (is_Some (DeletionTimestamp (ep_meta ep)) ∧ Finalizers (ep_meta ep) = [])
  then MkEps (delete (ep_key ep) (eps s)) (ep_clock s + 1)
  else MkEps (<[ep_key ep := ep]> (eps s)) (ep_clock s + 1).

#[export] Instance mem_endpoints : EndpointStore mem_eps := {|
  ep_get s _ k := match eps s !! k with Some ep => Ret ep | None => Fail APINotFound end;
  ep_create ep s :=
    match eps s !! ep_key ep with
    | Some _ => (Fail APIAlreadyExists, s)
    | None => (Ret (ep_version (ep_clock s) ep), ep_put ep s)
    end;
  ep_update ep s :=
    match eps s !! ep_key ep with
    | None => (Fail APINotFound, s)
    | Some old =>
        if ResourceVersion (ep_meta old) == ResourceVersion (ep_meta ep)
        then (Ret (ep_version (ep_clock s) ep), ep_put ep s) else (Fail APIConflict, s)
    end;
  ep_delete ep s :=
    match eps s !! ep_key ep with
    | None => (Fail APINotFound, s)
    | Some old =>
        let m := ep_meta old in
        (Ret (), ep_put (set_ep_meta (MkMeta (Name m) (Namespace m) (UID m) (ResourceVersion m) (Labels m) (Annotations m)
                                        (Finalizers m) (OwnerReferences m) (Some (ep_clock s))) old) s)
    end;
  ep_patch_finalizers ep s :=
    match eps s !! ep_key ep with
    | None => (Fail APINotFound, s)
    | Some old =>
        let new := set_ep_meta (set_Finalizers (Finalizers (ep_meta ep)) (ep_meta old)) old in
        (Ret (ep_version (ep_clock s) new), ep_put new s)
    end
|}.

(** What is relied on: a write that is answered without error stores the object that it returns,
    at a new version; an object that is being deleted and has no finalizer is gone. *)
Class EndpointStoreLaws (E : Type) `{EndpointStore E} := {
  ep_view : E → gmap string SpiderEndpoint;
  ep_get_found : ∀ s k ep, ep_get s false k = Ret ep → ep_view s !! k = Some ep;
  ep_create_applied : ∀ ep s ep' s', ep_create ep s = (Ret ep', s') → DeletionTimestamp (ep_meta ep) = None →
    ep_view s !! ep_key ep = None ∧ ∃ v, ep' = ep_version v ep ∧ ep_view s' = <[ep_key ep := ep']> (ep_view s);
  ep_update_applied : ∀ ep s ep' s', ep_update ep s = (Ret ep', s') → DeletionTimestamp (ep_meta ep) = None →
    (∃ old, ep_view s !! ep_key ep = Some old ∧ ResourceVersion (ep_meta old) = ResourceVersion (ep_meta ep)) ∧
    ∃ v, ep' = ep_version v ep ∧ ep_view s' = <[ep_key ep := ep']> (ep_view s)
}.

Lemma ep_put_live ep s : DeletionTimestamp (ep_meta ep) = None →
  ep_put ep s = MkEps (<[ep_key ep := ep_version (ep_clock s) ep]> (eps s)) (ep_clock s + 1).
Proof.
  intros Hd. unfold ep_put. rewrite bool_decide_false; [done|]. cbn. rewrite Hd. by intros [[? ?] _].
Qed.

#[export] Instance mem_endpoints_laws : EndpointStoreLaws mem_eps.
Proof.
  refine {| ep_view := eps |}.
  - intros s k ep. cbn. by case_match; intros [= ->].
  - intros ep s ep' s'. cbn. case_match; [done|]. intros [= <- <-] Hd. split; [done|]. eexists. split; [done|]. by rewrite ep_put_live.
  - intros ep s ep' s'. cbn. case_match eqn:E; [|done]. case_bool_decide; [|done]. intros [= <- <-] Hd.
    split; [by eexists|]. eexists. split; [done|]. by rewrite ep_put_live.
Defined.

(** ** What is recorded *)

Definition nics (ips : list IPAllocationDetail) : list string := NIC <$> ips.

(** Merging keeps what was recorded, in place, and adds the first detail of each missing NIC. *)
Lemma merge_details_spec recorded details :
  ∃ added, merge_details recorded details = recorded ++ added ∧ sublist added details ∧ NoDup (nics added) ∧
    (∀ nic, nic ∈ nics added ↔ nic ∈ nics details ∧ nic ∉ nics recorded).
Proof.
  unfold merge_details, nics. induction details as [|r details IH] using rev_ind; cbn [foldl].
  { exists []. rewrite app_nil_r. split_and!; [done..|constructor|]. set_solver. }
  rewrite foldl_app. cbn [foldl]. destruct IH as (added & -> & Hs & Hnd & Hin).
  assert (existsb (λ x, (NIC x == NIC r)) (recorded ++ added) = true ↔ NIC r ∈ NIC <$> recorded ++ added) as Hex.
  { rewrite existsb_exists, list_elem_of_fmap. setoid_rewrite bool_decide_eq_true. setoid_rewrite list_elem_of_In.
    split; intros (x & ? & ?); exists x; auto. }
  rewrite fmap_app in Hex. destruct (existsb _ _) eqn:E.
  - apply proj1 in Hex. specialize (Hex eq_refl). apply elem_of_app in Hex as [Hr|Hr]; exists added; (split_and!; [done|by apply sublist_inserts_r|done|]);
      intros nic; rewrite Hin, fmap_app; set_solver.
  - assert (NIC r ∉ (NIC <$> recorded) ++ (NIC <$> added)) as Hr by (intros H; by apply Hex in H).
    exists (added ++ [r]). rewrite app_assoc. split_and!; [done|by apply sublist_app| |].
    + rewrite fmap_app. apply NoDup_app. split_and!; [done| |apply NoDup_singleton]. set_solver.
    + intros nic. rewrite !fmap_app. set_solver.
Qed.

Section records.
Context `{MR : MapRange} {E : Type} `{ES : EndpointStore E} `{EL : !EndpointStoreLaws E}.

(** Recording the results of an allocation loses nothing.  A successful
    [PatchIPAllocationResults] for an endpoint of the same Pod stores, under the endpoint's key,
    the details that were recorded before, in place, followed by one for each NIC of the results
    that had none; for an endpoint of another Pod of the same name it writes nothing. *)
Theorem PatchIPAllocationResults_keeps_details em results ep pod podController b s s' :
  DeletionTimestamp (ep_meta ep) = None →
  PatchIPAllocationResults em results (Some ep) pod podController b s = (Ret (), s') →
  if decide (ep_UID (current_of ep) = UID (pod_meta pod)) then
    ∃ details added v, ConvertResultsToIPDetails results b = Ret details ∧
      ep_view s' = <[ep_key ep := ep_version v (set_ips (ep_IPs (current_of ep) ++ added) ep)]> (ep_view s) ∧
      sublist added details ∧ NoDup (nics added) ∧
      ∀ nic, nic ∈ nics added ↔ nic ∈ nics details ∧ nic ∉ nics (ep_IPs (current_of ep))
  else s' = s.
Proof.
  intros Hd. unfold PatchIPAllocationResults. case_decide as Hu; [rewrite bool_decide_true by done|rewrite bool_decide_false by done];
    cbn [negb]; [|by intros [= <-]].
  intros (details & s1 & [= Hc <-] & H)%cmd_bind_Ret. apply cmd_bind_Ret in H as (ep' & s2 & Hw & [= <-]).
  destruct (merge_details_spec (ep_IPs (current_of ep)) details) as (added & Em & Hs & Hnd & Hin). rewrite Em in Hw.
  destruct (ep_update_applied _ _ _ _ Hw Hd) as (_ & v & -> & Hv). by exists details, added, v.
Qed.
End records.

Definition ex_ep_detail (nic addr : string) : IPAllocationDetail :=
  MkDetail nic (Some addr) None (Some "pool") None (Some 0) None None None [] None.
Definition ex_ep : SpiderEndpoint :=
  MkEndpoint (plain_meta "default" "web-0" "")
    (MkEndpointStatus (MkPodIPAllocation "uid-0" "node" [ex_ep_detail "eth0" "10.0.0.2/24"]) "Deployment" "web").
Definition ex_eps : mem_eps := MkEps {["default/web-0" := ex_ep]} 1.
Definition ex_ep_pod : Pod := MkPod (plain_meta "default" "web-0" "uid-0") "node" RestartAlways PodRunning "".
Definition ex_ep_results : list AllocationResult :=
  [ex_result "10.0.0.2/24" "" "pool" "eth0" IPv4 false; ex_result "10.1.0.2/24" "" "pool" "net1" IPv4 false].
Definition ex_ep_patch : cmd mem_eps unit :=
  PatchIPAllocationResults (MR := ordered_range) (MkEndpointConfig true false) ex_ep_results (Some ex_ep) ex_ep_pod ex_top false.

Lemma PatchIPAllocationResults_keeps_details_witness :
  ∃ s', ex_ep_patch ex_eps = (Ret (), s') ∧
    ∃ details added v, ConvertResultsToIPDetails (MR := ordered_range) ex_ep_results false = Ret details ∧
      ep_view s' = <[ep_key ex_ep := ep_version v (set_ips (ep_IPs (current_of ex_ep) ++ added) ex_ep)]> (ep_view ex_eps) ∧
      sublist added details ∧ NoDup (nics added) ∧
      ∀ nic, nic ∈ nics added ↔ nic ∈ nics details ∧ nic ∉ nics (ep_IPs (current_of ex_ep)).
Proof.
  destruct (ex_ep_patch ex_eps) as [[[]|e| |] s'] eqn:E; [|exfalso; vm_compute in E; discriminate E..]. exists s'. split; [done|].
  exact (PatchIPAllocationResults_keeps_details (MR := ordered_range) (EL := mem_endpoints_laws) (MkEndpointConfig true false)
    ex_ep_results ex_ep ex_ep_pod ex_top false ex_eps s' eq_refl E).
Defined.
