(* ===== verification/IPAMRelease.v ===== *)
(** * pkg/ipam/release.go: releasing the addresses of a Pod

    [Release] (the CNI DEL of a Pod), [ReleaseIPs] (the release of conflicting addresses) and
    [release], which they share.  The state is that of the pools, of the endpoints and of the
    cache of failed allocations.  The goroutines of [release] work on different pools; they are
    run one after the other, in the order of the iteration over the map. *)

From S2P Require Import Prelude NetIP NetIPFacts IPAddr Cidr IPRange K8s Retry ReservedIP Convert IPPoolManager PoolLease Workload Endpoint.
Local Open Scope Z_scope.
Local Open Scope go_scope.

(** ** The state of the IPAM service *)

Record world (S E : Type) := MkWorld {
  w_pools : S;
  w_eps : E;
  entries : gmap string (list AllocationResult)
}.
Arguments MkWorld {S E} _ _ _.
Arguments w_pools {S E} _.
Arguments w_eps {S E} _.
Arguments entries {S E} _.

Section world.
Context {S E : Type}.

Definition on_pools {A} (m : cmd S A) : cmd (world S E) A := λ w,
  let '(o, s) := m (w_pools w) in (o, MkWorld s (w_eps w) (entries w)).
Definition on_eps {A} (m : cmd E A) : cmd (world S E) A := λ w,
  let '(o, e) := m (w_eps w) in (o, MkWorld (w_pools w) e (entries w)).

(** ipam.go: the cache of the results of failed allocations *)
Definition addFailureIPs (uid : string) (results : list AllocationResult) : cmd (world S E) unit :=
  modify (λ w, MkWorld (w_pools w) (w_eps w) (<[uid := results]> (entries w))).
Definition rmFailureIPs (uid : string) : cmd (world S E) unit :=
  modify (λ w, MkWorld (w_pools w) (w_eps w) (delete uid (entries w))).
Definition getFailureIPs (w : world S E) (uid : string) : list AllocationResult := default [] (entries w !! uid).
End world.

Record IPAMConfig := MkIPAMConfig {
  cfg_EnableIPv4 : bool;
  cfg_EnableIPv6 : bool;
  cfg_EnableSpiderSubnet : bool;
  cfg_EnableAutoPoolForApplication : bool;
  cfg_EnableStatefulSet : bool;
  cfg_EnableKubevirtStaticIP : bool;
  EnableReleaseConflictIPsForStateless : bool;
  ipam_EnableIPConflictDetection : bool;
  ipam_EnableGatewayDetection : bool;
  OperationRetries : nat;
  MultusClusterNetwork : option string;
  AgentNamespace : string;
  (** [IaaSClient != nil] *)
  has_IaaSClient : bool
}.

(** [models.IpamDelArgs] and [models.IpamBatchDelArgs] *)
Record IpamDelArgs := MkDelArgs { da_PodNamespace : string; da_PodName : string; da_PodUID : string; da_IfName : string }.
Record IpamBatchDelArgs := MkBatchDelArgs {
  ba_PodNamespace : string; ba_PodName : string; ba_PodUID : string; IsReleaseConflictIPs : bool }.

Section release.
Context `{MR : MapRange} `{J : JSON PoolIPAllocations} {S E : Type} `{KS : KubeStore S SpiderIPPool} `{ES : EndpointStore E}.
Context (config : IPAMConfig).
(** What other clients do to the pools while one is released, the end of the context, and the
    limiter's answer. *)
Context (env : string → nat → S → S) (cancelled : nat → bool) (acquire : list string → outcome unit).
(** Reads of Pods and controllers, and the call of the IaaS provider. *)
Context (get_pod : string → string → outcome Pod).
Context (get_controller : string → string → string → outcome ObjectMeta).
Context (get_sts : string → string → outcome StatefulSet) (get_vmi get_vm : string → string → outcome ObjectMeta).
Context (callIaaSRelease : SpiderEndpoint → outcome unit).

(** The errors of the goroutines, one per pool. *)
Fixpoint release_pools (pius : list (string * list IPAndUID)) : cmd (world S E) (list error) :=
  match pius with
  | [] => mret []
  | (pool, ius) :: pius => λ w,
      match on_pools (ReleaseIP (env pool) cancelled pool ius) w with
      | (Ret _, w') => release_pools pius w'
      | (Fail e, w') => (errs ← release_pools pius; mret (e :: errs)) w'
      | (Panic, w') => (Panic, w')
      | (OutOfFuel, w') => (OutOfFuel, w')
      end
  end.

Definition release (uid : string) (details : list IPAllocationDetail) : cmd (world S E) unit :=
  pius ← lift (GroupIPAllocationDetails uid details);
  _ ← lift (acquire (Pools pius));
  errs ← release_pools (range_kv pius);
  match errs with [] => mret () | _ => lift (Fail (ErrOther "failed to release all allocated IP addresses")) end.

Definition releaseForAllNICs (uid nic : string) (endpoint : SpiderEndpoint) : cmd (world S E) unit :=
  let st := ep_status endpoint in
  let ns := Namespace (ep_meta endpoint) in
  keep ← (if cfg_EnableStatefulSet config && (OwnerControllerType st == KindStatefulSet) then
            isValid ← lift (IsValidStatefulSetPod get_sts ns (Name (ep_meta endpoint)) (OwnerControllerType st));
            if isValid : bool then mret true else _ ← on_eps (DeleteEndpoint endpoint); mret false
          else mret false);
  if keep : bool then mret ()
  else
    keep ← (if cfg_EnableKubevirtStaticIP config && (OwnerControllerType st == KindKubevirtVMI) then
              isValid ← lift (IsValidVMPod get_vmi get_vm ns (OwnerControllerType st) (OwnerControllerName st));
              if isValid : bool then mret true else _ ← on_eps (DeleteEndpoint endpoint); mret false
            else mret false);
    if keep : bool then mret ()
    else
      match RetrieveIPAllocation uid nic (Some endpoint) false with
      | None => mret ()
      | Some allocation =>
          _ ← lift (callIaaSRelease endpoint);
          _ ← release (ep_UID allocation) (ep_IPs allocation);
          _ ← on_eps (RemoveFinalizer endpoint);
          mret ()
      end.

(** The name of the endpoint of a Pod. *)
Definition endpoint_name (podName : string) (pod : option Pod) : string :=
  match pod with
  | Some pod =>
      match GetControllerOf (pod_meta pod) with
      | Some ref =>
          if cfg_EnableKubevirtStaticIP config && (or_APIVersion ref == KubevirtGroupVersion)
             && (or_Kind ref == KindKubevirtVMI)
          then or_Name ref else podName
      | None => podName
      end
  | None => podName
  end.

(** The last part of [Release], before the deferred [rmFailureIPs]. *)
Definition release_endpoint (delArgs : IpamDelArgs) (podUID : string) (pod : option Pod) : cmd (world S E) unit := λ w,
  match on_eps (GetEndpointByName (da_PodNamespace delArgs) (endpoint_name (da_PodName delArgs) pod) false) w with
  | (Ret endpoint, w') => releaseForAllNICs podUID (da_IfName delArgs) endpoint w'
  | (Fail e, w') => if e == APINotFound then (Ret (), w') else (Fail e, w')
  | (Panic, w') => (Panic, w')
  | (OutOfFuel, w') => (OutOfFuel, w')
  end.

(** [defer f]: [f] runs however the body ends. *)
Definition deferred {A} (m : cmd (world S E) A) (f : cmd (world S E) unit) : cmd (world S E) A := λ w,
  let '(o, w') := m w in (o, (f w').2).

(** The Pod as the release sees it: absent when it is not found. *)
Definition find_pod (ns name : string) : outcome (option Pod) :=
  match get_pod ns name with
  | Ret pod => Ret (Some pod)
  | Fail e => if e == APINotFound then Ret None else Fail e
  | Panic => Panic
  | OutOfFuel => OutOfFuel
  end.

(** The UID of the Pod that was found, or the one given in the arguments. *)
Definition pod_uid (given : string) (pod : option Pod) : string :=
  match pod with Some pod => UID (pod_meta pod) | None => given end.

(** The timeouts of the contexts are covered by [cancelled]. *)
Definition Release (delArgs : IpamDelArgs) : cmd (world S E) unit :=
  pod ← lift (find_pod (da_PodNamespace delArgs) (da_PodName delArgs));
  if IsPodAlive pod then mret ()
  else
    let podUID := pod_uid (da_PodUID delArgs) pod in
    if podUID == EmptyString then mret ()
    else deferred (release_endpoint delArgs podUID pod) (rmFailureIPs podUID).

(** Conflicting addresses are released for stateless Pods only, when that is enabled. *)
Definition check_release_conflict (delArgs : IpamBatchDelArgs) (pod : option Pod) : outcome unit :=
  if IsReleaseConflictIPs delArgs then
    if EnableReleaseConflictIPsForStateless config then
      pod ← match pod with Some pod => Ret pod | None => get_pod (ba_PodNamespace delArgs) (ba_PodName delArgs) end;
      top ← GetPodTopController get_controller pod;
      if (cfg_EnableStatefulSet config && is_sts top) || (cfg_EnableKubevirtStaticIP config && is_vmi top)
      then Fail ErrForbidReleasingStatefulWorkload else Ret ()
    else Fail ErrForbidReleasingStatelessWorkload
  else Ret ().

Definition ReleaseIPs (delArgs : IpamBatchDelArgs) : cmd (world S E) unit :=
  pod ← lift (if ba_PodUID delArgs == EmptyString
              then find_pod (ba_PodNamespace delArgs) (ba_PodName delArgs) else Ret None);
  if (ba_PodUID delArgs == EmptyString) && (pod == None) then mret ()
  else
    let podUID := pod_uid (ba_PodUID delArgs) pod in
    _ ← lift (check_release_conflict delArgs pod);
    endpoint ← on_eps (GetEndpointByName (ba_PodNamespace delArgs) (ba_PodName delArgs) false);
    recorded ← on_eps (ReleaseEndpointIPs endpoint podUID);
    match recorded with [] => mret () | _ => release podUID recorded end.
End release.

(** ** What a release keeps and what it frees *)

Section release_facts.
Context `{MR : MapRange} `{J : JSON PoolIPAllocations} `{JL : !JSONLaws PoolIPAllocations}.
Context {S E : Type} `{KS : KubeStore S SpiderIPPool} `{KL : !KubeStoreLaws S SpiderIPPool} `{ES : EndpointStore E}.
Context (config : IPAMConfig) (env : string → nat → S → S) (cancelled : nat → bool) (acquire : list string → outcome unit).
Context (get_pod : string → string → outcome Pod) (get_controller : string → string → string → outcome ObjectMeta).
Context (get_sts : string → string → outcome StatefulSet) (get_vmi get_vm : string → string → outcome ObjectMeta).
Context (callIaaSRelease : SpiderEndpoint → outcome unit).

Section guarantee.
Context {U N : string → Prop} {Gr : PoolIPAllocation → Prop} (Q : lease_table → lease_table → Prop) `{G : !Guarantee U N Gr Q}.
Context (Henv : ∀ pool i s, guaranteed Q s (env pool i s)).

Definition guaranteed_world (w w' : world S E) : Prop := guaranteed Q (w_pools w) (w_pools w').

#[export] Instance guaranteed_world_preorder : PreOrder guaranteed_world.
Proof. unfold guaranteed_world. split; [intros w; apply (guaranteed_preorder Q)|]. intros w1 w2 w3. apply (guaranteed_preorder Q). Qed.

Lemma evolves_on_pools {A} (m : cmd S A) : evolves (guaranteed Q) m → evolves guaranteed_world (on_pools (E := E) m).
Proof. intros H w. specialize (H (w_pools w)). unfold on_pools. by destruct (m (w_pools w)). Qed.
Lemma evolves_on_eps {A} (m : cmd E A) : evolves guaranteed_world (on_eps (S := S) m).
Proof. intros w. unfold on_eps. destruct (m (w_eps w)). cbn. apply (guaranteed_preorder Q). Qed.
Lemma evolves_deferred {A} (m : cmd (world S E) A) f :
  evolves guaranteed_world m → evolves guaranteed_world f → evolves guaranteed_world (deferred m f).
Proof.
  intros Hm Hf w. unfold deferred. specialize (Hm w). destruct (m w) as [o w']. cbn in *. etrans; [exact Hm|apply Hf].
Qed.
#[local] Hint Resolve evolves_on_pools evolves_on_eps evolves_deferred : evolves.
#[local] Hint Extern 0 (PreOrder _) => apply guaranteed_world_preorder : evolves.

Lemma release_pools_guaranteed pius :
  (∀ pool ius iu, (pool, ius) ∈ pius → iu ∈ ius → U (iu_UID iu)) →
  evolves guaranteed_world (release_pools (E := E) env cancelled pius).
Proof.
  induction pius as [|[pool ius] pius IH]; intros Hu; cbn [release_pools]; [by apply evolves_ret, _|]. intros w.
  assert (evolves guaranteed_world (release_pools (E := E) env cancelled pius)) as Hrest.
  { apply IH. intros pool' ius' iu Hin. apply (Hu pool' ius'). by apply list_elem_of_further. }
  assert (evolves guaranteed_world (on_pools (E := E) (ReleaseIP (env pool) cancelled pool ius))) as H1.
  { apply evolves_on_pools, (ReleaseIP_guaranteed Q); [apply Henv|]. intros iu. apply (Hu pool ius), list_elem_of_here. }
  specialize (H1 w). destruct (on_pools _ w) as [[[]|e| |] w']; cbn in H1; [| |done..]; etrans; try exact H1; [apply Hrest|].
  apply (evolves_bind guaranteed_world); [done|]. intros errs. by apply evolves_ret, _.
Qed.

Lemma release_guaranteed uid details :
  U uid → evolves guaranteed_world (release (E := E) env cancelled acquire uid details).
Proof.
  intros Hu. unfold release. apply evolves_lift_bind; [apply _|]. intros pius Hp.
  apply evolves_bind; [apply _|eauto with evolves|]. intros _. apply evolves_bind; [apply _| |].
  - apply release_pools_guaranteed. intros pool ius iu Hin Hiu. apply elem_of_range_kv in Hin.
    by rewrite (GroupIPAllocationDetails_uid _ _ _ _ _ _ Hp Hin Hiu).
  - intros errs. case_match; eauto with evolves.
Qed.

Lemma releaseForAllNICs_guaranteed uid nic ep :
  U uid →
  evolves guaranteed_world (releaseForAllNICs (E := E) config env cancelled acquire get_sts get_vmi get_vm callIaaSRelease uid nic ep).
Proof.
  intros Hu. unfold releaseForAllNICs. apply evolves_bind; [apply _|eauto 10 with evolves|]. intros [|]; [eauto with evolves|].
  apply evolves_bind; [apply _|eauto 10 with evolves|]. intros [|]; [eauto with evolves|].
  unfold RetrieveIPAllocation. case_bool_decide as Hep; cbn [orb]; [|eauto with evolves].
  destruct (existsb _ _); [|eauto with evolves].
  repeat (apply evolves_bind; [apply _| |intros _]); try (eauto with evolves; fail). rewrite Hep. by apply release_guaranteed.
Qed.

Lemma Release_guaranteed delArgs :
  (∀ pod, find_pod get_pod (da_PodNamespace delArgs) (da_PodName delArgs) = Ret pod → U (pod_uid (da_PodUID delArgs) pod)) →
  evolves guaranteed_world (Release config env cancelled acquire get_pod get_sts get_vmi get_vm callIaaSRelease delArgs).
Proof.
  intros Hu. unfold Release. apply evolves_lift_bind; [apply _|]. intros pod Hp. specialize (Hu pod Hp).
  repeat (apply evolves_if; [eauto with evolves|]). apply evolves_deferred; [|apply evolves_modify; intros w; apply (guaranteed_preorder Q)].
  intros w. unfold release_endpoint. pose proof (evolves_on_eps (GetEndpointByName (da_PodNamespace delArgs)
    (endpoint_name config (da_PodName delArgs) pod) false) w) as H.
  destruct (on_eps _ w) as [[ep|e| |] w']; cbn in H; [| |done..].
  - etrans; [exact H|]. by apply releaseForAllNICs_guaranteed.
  - by case_bool_decide.
Qed.

Lemma ReleaseIPs_guaranteed delArgs :
  (∀ pod, (if ba_PodUID delArgs == EmptyString then find_pod get_pod (ba_PodNamespace delArgs) (ba_PodName delArgs) else Ret None)
    = Ret pod → U (pod_uid (ba_PodUID delArgs) pod)) →
  evolves guaranteed_world (ReleaseIPs config env cancelled acquire get_pod get_controller delArgs).
Proof.
  intros Hu. unfold ReleaseIPs. apply evolves_lift_bind; [apply _|]. intros pod Hp. specialize (Hu pod Hp).
  apply evolves_if; [eauto with evolves|]. repeat (apply evolves_bind; [apply _|eauto with evolves|intros ?]).
  match goal with |- context [match ?l with [] => _ | _ => _ end] => destruct l end; [eauto with evolves|by apply release_guaranteed].
Qed.
End guarantee.

(** ** What a successful release frees *)

Context (Henv : ∀ pool i s, valid s → later s (env pool i s)).

(** At some moment between two states. *)
Definition at_some_moment (P : S → Prop) (s s' : S) : Prop := ∃ sm, later s sm ∧ P sm ∧ later sm s'.

Lemma at_some_moment_mono P s1 s2 s3 s4 :
  later s1 s2 → later s3 s4 → at_some_moment P s2 s3 → at_some_moment P s1 s4.
Proof. intros H1 H2 (sm & H3 & HP & H4). exists sm. split_and!; [by etransitivity|done|by etransitivity]. Qed.

Lemma release_pools_frees pius w w' :
  valid (w_pools w) → release_pools (E := E) env cancelled pius w = (Ret [], w') →
  later (w_pools w) (w_pools w') ∧
  ∀ pool ius, (pool, ius) ∈ pius → at_some_moment (freed pool ius) (w_pools w) (w_pools w').
Proof.
  revert w. induction pius as [|[pool ius] pius IH]; intros w Hv; cbn [release_pools].
  { intros [= <-]. split; [done|]. by intros pool ius ?%elem_of_nil. }
  unfold on_pools at 1. destruct (ReleaseIP _ _ _ _ (w_pools w)) as [[[]|e| |] s1] eqn:Er; [| |done..].
  - destruct (ReleaseIP_frees (env pool) cancelled pool ius _ _ (Henv pool) Hv Er) as [Hl Hf]. intros Hr.
    destruct (IH (MkWorld s1 (w_eps w) (entries w)) (later_valid _ _ Hv Hl) Hr) as [Hl' Hrest]. cbn [w_pools] in *. split; [by etransitivity|].
    intros pool' ius' [[= -> ->]|Hin]%elem_of_cons; [by exists s1|]. by eapply at_some_moment_mono; [| |apply Hrest].
  - by intros (errs & w1 & _ & [= ?])%cmd_bind_Ret.
Qed.

(** Each address of the details was seen free of the Pod. *)
Definition details_freed (uid : string) (details : list IPAllocationDetail) (s s' : S) : Prop :=
  ∀ d v4 a pool, d ∈ details → family v4 d = (Some a, Some pool) →
    at_some_moment (freed pool [MkIPAndUID (bare_address a) uid]) s s'.

Lemma release_frees uid details w w' :
  valid (w_pools w) → Forall paired details →
  release (E := E) env cancelled acquire uid details w = (Ret (), w') →
  later (w_pools w) (w_pools w') ∧ details_freed uid details (w_pools w) (w_pools w').
Proof.
  intros Hv Hd. destruct (group_loop_spec uid details ∅ Hd) as (pius & Eg & Hg).
  unfold release, GroupIPAllocationDetails. rewrite Eg.
  intros (pius' & w1 & [= <- <-] & H)%cmd_bind_Ret. apply cmd_bind_Ret in H as (u & w2 & Ha & H).
  unfold lift in Ha. injection Ha as _ <-. apply cmd_bind_Ret in H as (errs & w3 & Hr & H).
  destruct errs as [|e errs]; [|done]. injection H as <-.
  destruct (release_pools_frees _ _ _ Hv Hr) as [Hl Hf]. split; [done|]. intros d v4 a pool Hin Ea.
  assert (MkIPAndUID (bare_address a) uid ∈ default [] (pius !! pool)) as Hiu.
  { apply Hg. right. exists d, v4, a. done. }
  destruct (pius !! pool) as [ius|] eqn:Ep; [|by apply elem_of_nil in Hiu].
  apply elem_of_range_kv, Hf in Ep as (sm & H1 & (q & records & Hq & Hrec & Hn) & H2).
  exists sm. split_and!; [done| |done]. exists q, records. split_and!; [done..|].
  intros k r Hk Hs. apply (Hn k r Hk). unfold names in *. apply list_elem_of_singleton in Hs. by rewrite Hs.
Qed.

(** C4: the release of one Pod never takes an address from another.  A record of any pool whose
    UID is not the one the release is for survives [Release] and [ReleaseIPs], whatever the
    answers of the server and however they end, as long as the other clients keep it. *)
Theorem Release_spares_others poolName k r delArgs batchArgs pod pod' w :
  (∀ pool i s, valid s → recorded poolName k r s → recorded poolName k r (env pool i s)) →
  valid (w_pools w) → recorded poolName k r (w_pools w) →
  find_pod get_pod (da_PodNamespace delArgs) (da_PodName delArgs) = Ret pod → pod_uid (da_PodUID delArgs) pod ≠ PodUID r →
  (if ba_PodUID batchArgs == EmptyString then find_pod get_pod (ba_PodNamespace batchArgs) (ba_PodName batchArgs) else Ret None)
    = Ret pod' → pod_uid (ba_PodUID batchArgs) pod' ≠ PodUID r →
  recorded poolName k r
    (w_pools (E := E) (Release config env cancelled acquire get_pod get_sts get_vmi get_vm callIaaSRelease delArgs w).2) ∧
  recorded poolName k r (w_pools (E := E) (ReleaseIPs config env cancelled acquire get_pod get_controller batchArgs w).2).
Proof.
  intros Hk Hv Hr Hp Hu Hp' Hu'.
  assert (∀ pool i s, guaranteed (keeps_lease poolName k r) s (env pool i s)) as Hkeep.
  { intros pool i s Hs. split_and!; [by eapply later_valid, Henv|by apply Henv|]. by apply keeps_recorded, Hk. }
  split; (eapply keeps_recorded; [|exact Hr]).
  - apply (Release_guaranteed (keeps_lease poolName k r) Hkeep delArgs); [|done]. intros ? Hp1. rewrite Hp in Hp1. by injection Hp1 as <-.
  - apply (ReleaseIPs_guaranteed (keeps_lease poolName k r) Hkeep batchArgs); [|done]. intros ? Hp1. rewrite Hp' in Hp1. by injection Hp1 as <-.
Qed.

(** C16: a CNI DEL that succeeds has freed the Pod's addresses.  For a Pod that is not alive, whose
    UID is known and whose endpoint records an allocation for that UID and NIC, of a workload
    without fixed addresses: when [Release] returns without error, each recorded address was at
    some moment no longer recorded for the Pod in its pool, the failure cache has no entry for the
    Pod, and the IaaS provider has accepted the release. *)
Theorem Release_frees_addresses delArgs pod ep w w' :
  let uid := pod_uid (da_PodUID delArgs) pod in
  valid (w_pools w) → find_pod get_pod (da_PodNamespace delArgs) (da_PodName delArgs) = Ret pod →
  IsPodAlive pod = false → uid ≠ EmptyString →
  ep_get (w_eps w) false (NamespacedKey (da_PodNamespace delArgs) (endpoint_name config (da_PodName delArgs) pod)) = Ret ep →
  OwnerControllerType (ep_status ep) ∉ [KindStatefulSet; KindKubevirtVMI] →
  RetrieveIPAllocation uid (da_IfName delArgs) (Some ep) false = Some (current_of ep) →
  Forall paired (ep_IPs (current_of ep)) →
  Release config env cancelled acquire get_pod get_sts get_vmi get_vm callIaaSRelease delArgs w = (Ret (), w') →
  details_freed uid (ep_IPs (current_of ep)) (w_pools w) (w_pools w') ∧ entries w' !! uid = None ∧ callIaaSRelease ep = Ret ().
Proof.
  intros uid Hv Hp Ha Hu Hep Hkind Hret Hpair. unfold Release. rewrite Hp.
  intros (pod' & w1 & [= <- <-] & H)%cmd_bind_Ret. rewrite Ha in H. fold uid in H. rewrite bool_decide_false in H by done.
  unfold deferred in H. destruct (release_endpoint _ _ _ _ _ _ _ _ _ _ _ w) as [o w2] eqn:Ee. injection H as -> <-.
  unfold release_endpoint, on_eps in Ee. unfold GetEndpointByName, read in Ee. rewrite Hep in Ee.
  replace (MkWorld (w_pools w) (w_eps w) (entries w)) with w in Ee by (by destruct w).
  unfold releaseForAllNICs in Ee.
  rewrite !(bool_decide_false (OwnerControllerType _ = _)), !andb_false_r in Ee by set_solver.
  apply cmd_bind_Ret in Ee as (b1 & w3 & [= <- <-] & Ee). apply cmd_bind_Ret in Ee as (b2 & w4 & [= <- <-] & Ee).
  rewrite Hret in Ee. apply cmd_bind_Ret in Ee as ([] & w5 & Hia & Ee). injection Hia as Hia <-.
  apply cmd_bind_Ret in Ee as ([] & w6 & Hr & Ee). apply cmd_bind_Ret in Ee as (ep' & w7 & Hf & [= <-]).
  assert (ep_UID (current_of ep) = uid) as Euid.
  { unfold RetrieveIPAllocation in Hret. case_bool_decide; [done|]. cbn in Hret. done. }
  rewrite Euid in Hr. destruct (release_frees uid _ w w6 Hv Hpair Hr) as [_ Hd].
  assert (w_pools w7 = w_pools w6) as Ew.
  { unfold on_eps in Hf. destruct (RemoveFinalizer ep (w_eps w6)) as [o' e']. by injection Hf as _ <-. }
  split_and!; [cbn; by rewrite Ew|apply lookup_delete_eq|done].
Qed.
End release_facts.

(** ** Concrete releases *)

Definition ex_ipam : IPAMConfig := MkIPAMConfig true true false false true false true false false 5 None "kube-system" false.
Definition ex_detail : IPAllocationDetail :=
  MkDetail "eth0" (Some "10.0.0.2/24") None (Some "pool") None (Some 0) None None None [] None.
Definition ex_endpoint (uid : string) : SpiderEndpoint :=
  MkEndpoint (set_Finalizers [SpiderFinalizer] (plain_meta "default" "web-0" ""))
    (MkEndpointStatus (MkPodIPAllocation uid "node" [ex_detail]) "Deployment" "web").
Definition ex_world (uid : string) : world (mem_store SpiderIPPool) mem_eps :=
  MkWorld ex_store2 (MkEps {["default/web-0" := ex_endpoint uid]} 1) {[uid := []]}.
Definition ex_pods (ns name : string) : outcome Pod := Fail APINotFound.
Definition ex_gone (ns name : string) : outcome ObjectMeta := Fail APINotFound.

(** The address, recorded for the Pod with UID "uid-0" in the store after its allocation. *)
Definition ex_record : PoolIPAllocation := MkPoolIPAllocation "default/web-0" "uid-0".

Lemma ex_recorded : recorded (H := ex_json) "pool" "10.0.0.2" ex_record ex_store2.
Proof.
  eexists _, _. split; [vm_compute; reflexivity|]. split; [vm_compute; reflexivity|]. vm_compute. reflexivity.
Qed.

(** Writes of the same status keep the records. *)
Lemma ex_env_recorded i s : mem_valid s →
  recorded (H := ex_json) "pool" "10.0.0.2" ex_record s → recorded (H := ex_json) "pool" "10.0.0.2" ex_record (ex_env i s).
Proof.
  intros Hv (p & records & Hp & Hr & Hk). unfold ex_env. case_match; [|by exists p, records]. change (view s) with (objs s) in Hp.
  rewrite Hp. destruct (Hv _ _ Hp) as [Hkey _]. cbn [api_update_status mem_api]. rewrite Hkey, Hp, bool_decide_true by done.
  exists (merge_status p p (clock s)), records. split_and!; [|done..]. apply lookup_insert_eq.
Qed.

Lemma Release_spares_others_witness :
  let args := MkDelArgs "default" "web-0" "uid-9" "eth0" in
  let batch := MkBatchDelArgs "default" "web-0" "uid-9" false in
  recorded (H := ex_json) "pool" "10.0.0.2" ex_record
    (w_pools (Release (MR := ordered_range) (J := ex_json) ex_ipam (λ _, ex_env) (λ _, false) (λ _, Ret ())
      ex_pods (λ _ _, Fail APINotFound) ex_gone ex_gone (λ _, Ret ()) args (ex_world "uid-9")).2) ∧
  recorded (H := ex_json) "pool" "10.0.0.2" ex_record
    (w_pools (ReleaseIPs (MR := ordered_range) (J := ex_json) ex_ipam (λ _, ex_env) (λ _, false) (λ _, Ret ())
      ex_pods (λ _ _ _, Fail APINotFound) batch (ex_world "uid-9")).2).
Proof.
  intros args batch.
  apply (Release_spares_others (MR := ordered_range) (JL := ex_json_laws) (KL := mem_pools) (E := mem_eps)
    ex_ipam (λ _, ex_env) (λ _, false) (λ _, Ret ()) ex_pods (λ _ _ _, Fail APINotFound) (λ _ _, Fail APINotFound) ex_gone ex_gone (λ _, Ret ())
    (λ _, ex_env_later) "pool" "10.0.0.2" ex_record args batch None None (ex_world "uid-9")).
  - intros _ i s. apply ex_env_recorded.
  - apply ex_store2_valid.
  - apply ex_recorded.
  - reflexivity.
  - discriminate.
  - reflexivity.
  - discriminate.
Defined.

Lemma Release_frees_addresses_witness :
  let args := MkDelArgs "default" "web-0" "uid-0" "eth0" in
  ∃ w', Release (MR := ordered_range) (J := ex_json) ex_ipam (λ _, ex_env) (λ _, false) (λ _, Ret ())
      ex_pods (λ _ _, Fail APINotFound) ex_gone ex_gone (λ _, Ret ()) args (ex_world "uid-0") = (Ret (), w') ∧
    details_freed (J := ex_json) "uid-0" [ex_detail] ex_store2 (w_pools w') ∧ entries w' !! "uid-0"%string = None ∧ Ret () = Ret ().
Proof.
  intros args. destruct (Release ex_ipam (λ _, ex_env) (λ _, false) (λ _, Ret ()) ex_pods (λ _ _, Fail APINotFound) ex_gone ex_gone
    (λ _, Ret ()) args (ex_world "uid-0")) as [[[]|e| |] w'] eqn:E; [|exfalso; vm_compute in E; discriminate E..].
  exists w'. split; [done|].
  apply (Release_frees_addresses (MR := ordered_range) (JL := ex_json_laws) (KL := mem_pools) (E := mem_eps)
    ex_ipam (λ _, ex_env) (λ _, false) (λ _, Ret ()) ex_pods (λ _ _ _, Fail APINotFound) (λ _ _, Fail APINotFound) ex_gone ex_gone (λ _, Ret ())
    (λ _, ex_env_later) args None (ex_endpoint "uid-0") (ex_world "uid-0") w').
  - apply ex_store2_valid.
  - reflexivity.
  - reflexivity.
  - discriminate.
  - reflexivity.
  - apply (bool_decide_unpack _). vm_compute. exact I.
  - reflexivity.
  - apply Forall_singleton. intros [|]; [right; by eexists _, _|by left].
  - exact E.
Defined.
