(* ===== verification/Selector.v ===== *)
(** * Label selectors and network annotations

    [metav1.LabelSelectorAsSelector] and the matching of labels (vendored API machinery), and
    [ParsePodNetworkAnnotation] of pkg/multuscniconfig/utils.go: what the selection of pools reads
    from Pods, Nodes and Namespaces.  Strings are of ASCII characters. *)

From S2P Require Import Prelude NetIP NetIPFacts K8s.
Local Open Scope Z_scope.
Local Open Scope go_scope.

(** ** Characters and names *)

Definition char_between (lo hi : Z) (c : ascii) : bool :=
  let n := Z.of_nat (nat_of_ascii c) in (lo <=? n) && (n <=? hi).
Definition is_digit : ascii → bool := char_between 48 57.
Definition is_lower : ascii → bool := char_between 97 122.
Definition is_upper : ascii → bool := char_between 65 90.
Definition is_dash (c : ascii) : bool := (c == "-"%char).
(** Tab, line feed, vertical tab, form feed, carriage return and space. *)
Definition is_space (c : ascii) : bool := char_between 9 13 c || (c == " "%char).

Fixpoint last_char (s : string) : option ascii :=
  match s with EmptyString => None | String c EmptyString => Some c | String _ s => last_char s end.

(** The regular expression ^E(I*E)?$ for classes E within I. *)
Definition edged (edge inner : ascii → bool) (s : string) : bool :=
  match s, last_char s with
  | String c _, Some d => edge c && edge d && string_forall inner s
  | _, _ => false
  end.

Definition dns1123_label (s : string) : bool :=
  let an c := is_lower c || is_digit c in edged an (λ c, an c || is_dash c) s.
Definition qualified_name (s : string) : bool :=
  let an c := is_lower c || is_upper c || is_digit c in
  edged an (λ c, an c || is_dash c || (c == "_"%char) || (c == "."%char)) s.

Definition slen (s : string) : Z := Z.of_nat (String.length s).

Definition IsDNS1123Subdomain (s : string) : bool := (slen s <=? 253) && forallb dns1123_label (split "." s).

Definition IsQualifiedName (value : string) : bool :=
  let name_ok name := (slen name <=? 63) && qualified_name name in
  match split "/" value with
  | [name] => name_ok name
  | [prefix; name] => (prefix != EmptyString) && IsDNS1123Subdomain prefix && name_ok name
  | _ => false
  end.

Definition IsValidLabelValue (value : string) : bool :=
  (slen value <=? 63) && ((value == EmptyString) || qualified_name value).

(** ** Selectors *)

Inductive Operator := Equals | In | NotIn | Exists | DoesNotExist.
Record Requirement := MkReq { req_key : string; req_op : Operator; req_values : list string }.

Definition NewRequirement (key : string) (op : Operator) (vals : list string) : outcome Requirement :=
  let n := length vals in
  let arity := match op with
               | In | NotIn => negb (n =? 0)%nat
               | Equals => (n =? 1)%nat
               | Exists | DoesNotExist => (n =? 0)%nat
               end in
  if IsQualifiedName key && arity && forallb IsValidLabelValue vals then Ret (MkReq key op vals)
  else Fail (ErrOther "invalid requirement").

Definition Matches1 (r : Requirement) (ls : gmap string string) : bool :=
  match req_op r, ls !! req_key r with
  | (In | Equals), Some v => bool_decide (v ∈ req_values r)
  | (In | Equals), None => false
  | NotIn, Some v => negb (bool_decide (v ∈ req_values r))
  | NotIn, None => true
  | Exists, o => bool_decide (is_Some o)
  | DoesNotExist, o => (o == None)
  end.

Definition Matches (selector : list Requirement) (ls : gmap string string) : bool := forallb (λ r, Matches1 r ls) selector.

Definition selection_op (op : LabelSelectorOperator) : Operator :=
  match op with OpIn => In | OpNotIn => NotIn | OpExists => Exists | OpDoesNotExist => DoesNotExist end.

(** A selector without requirements is everything; the pointer is never nil here. *)
Definition LabelSelectorAsSelector `{MapRange} (ps : LabelSelector) : outcome (list Requirement) :=
  concat_map_m (λ '(key, op, vals), r ← NewRequirement key op vals; Ret [r])
    (((λ '(k, v), (k, Equals, [v])) <$> range_kv (MatchLabels ps)) ++
     ((λ e, (lsr_key e, selection_op (lsr_op e), lsr_values e)) <$> MatchExpressions ps)).

(** ** Network annotations *)

Fixpoint trim_left (s : string) : string :=
  match s with String c s' => if is_space c then trim_left s' else s | EmptyString => s end.
Definition TrimSpace (s : string) : string := String.rev (trim_left (String.rev (trim_left s))).

Lemma trim_left_same s : string_forall (negb ∘ is_space) s = true → trim_left s = s.
Proof. destruct s as [|c s]; [done|]. cbn. intros [H _]%andb_true_iff. by destruct (is_space c). Qed.
Lemma string_forall_rev P s : string_forall P (String.rev s) = string_forall P s.
Proof.
  induction s as [|c s IH]; [done|]. rewrite string_rev_cons, string_forall_app, IH. cbn. rewrite andb_true_r. apply andb_comm.
Qed.
Lemma TrimSpace_same s : string_forall (negb ∘ is_space) s = true → TrimSpace s = s.
Proof. intros H. unfold TrimSpace. rewrite (trim_left_same s) by done. rewrite trim_left_same by (by rewrite string_forall_rev). apply string_rev_involutive. Qed.

(** The parts of [netv1.NetworkSelectionElement] that are read. *)
Record NetworkSelectionElement := MkNSE {
  nse_Name : string;
  nse_Namespace : string;
  IPRequest : list string;
  MacRequest : string;
  InfinibandGUIDRequest : string;
  InterfaceRequest : string
}.
#[export] Instance NetworkSelectionElement_eq_dec : EqDecision NetworkSelectionElement.
Proof. solve_decision. Defined.

Definition hex_string_of_length (n : nat) (s : string) : bool := (String.length s =? n)%nat && string_forall is_hex s.

(** Whether [net.ParseMAC] accepts: 6, 8 or 20 bytes, by two digits with ":" or "-" or by four with
    ".". *)
Definition is_mac (s : string) : bool :=
  let groups sep width counts :=
    let l := split sep s in bool_decide (length l ∈ counts) && forallb (hex_string_of_length width) l in
  groups ":"%char 2%nat [6; 8; 20]%nat || groups "-"%char 2%nat [6; 8; 20]%nat || groups "."%char 4%nat [3; 4; 10]%nat.

Definition IFNAMSIZ : Z := 16.

Definition parse_error : error := ErrOther "parsePodNetworkObjectName".

Definition ParsePodNetworkObjectName (podnetwork : string) : outcome (string * string * string) :=
  '(netNsName, networkName) ← match split "/" podnetwork with
                              | [ns; name] => Ret (TrimSpace ns, name)
                              | [name] => Ret (""%string, name)
                              | _ => Fail parse_error
                              end;
  '(networkName, netIfName) ← match split "@" networkName with
                              | [name] => Ret (TrimSpace name, ""%string)
                              | [name; ifname] => Ret (TrimSpace name, TrimSpace ifname)
                              | _ => Fail parse_error
                              end;
  _ ← for_each (λ item, check (dns1123_label item || (item == EmptyString)) parse_error) [netNsName; networkName];
  _ ← check ((netIfName == EmptyString) ||
             ((slen netIfName <=? IFNAMSIZ - 1) && string_forall (λ c, negb (is_space c || (c == "/"%char))) netIfName))
        parse_error;
  Ret (netNsName, networkName, netIfName).

Section annotation.
Context `{J : JSON (list (option NetworkSelectionElement))}.

Fixpoint parse_items (items : list string) : outcome (list (option NetworkSelectionElement)) :=
  match items with
  | [] => Ret []
  | item :: items =>
      '(ns, name, ifname) ← ParsePodNetworkObjectName (TrimSpace item);
      rest ← parse_items items;
      Ret (Some (MkNSE name ns [] "" "" ifname) :: rest)
  end.

Definition ip_request_ok (ip : string) : bool :=
  if contains_char "/" ip then bool_decide (is_Some (net_ParseCIDR ip)) else (net_ParseIP ip != []).

(** The last loop: the default namespace is filled in and the requests are validated. *)
Fixpoint complete_elements (defaultNamespace : string) (networks : list (option NetworkSelectionElement))
    : outcome (list NetworkSelectionElement) :=
  match networks with
  | [] => Ret []
  | n :: networks =>
      n ← deref n;
      _ ← check ((MacRequest n == EmptyString) || is_mac (MacRequest n)) (ErrOther "mac");
      _ ← check ((InfinibandGUIDRequest n == EmptyString) || is_mac (InfinibandGUIDRequest n)) (ErrOther "infiniband GUID");
      _ ← for_each (λ ip, check (ip_request_ok ip) (ErrOther "IP request")) (IPRequest n);
      rest ← complete_elements defaultNamespace networks;
      Ret (MkNSE (nse_Name n) (if nse_Namespace n == EmptyString then defaultNamespace else nse_Namespace n)
             (IPRequest n) (MacRequest n) (InfinibandGUIDRequest n) (InterfaceRequest n) :: rest)
  end.

Definition ParsePodNetworkAnnotation (podNetworks defaultNamespace : string) : outcome (list NetworkSelectionElement) :=
  if podNetworks == EmptyString then Fail (ErrOther "parsePodNetworkAnnotation")
  else
    networks ←
      (if existsb (λ c, contains_char c (TrimSpace podNetworks)) ["["; "{"; "034"]%char
       then match json_unmarshal podNetworks with
            | Some networks => Ret networks
            | None => Fail (ErrOther "json.Unmarshal")
            end
       else parse_items (split "," podNetworks));
    complete_elements defaultNamespace networks.
End annotation.
