(* ===== verification/PoolSelection.v ===== *)
(** * pkg/ipam: the selection of candidate pools

    [getPoolCandidates] (pool_selections.go) reads which pools a Pod may use from its annotations,
    its namespace, the CNI configuration and the cluster defaults; [genToBeAllocatedSet]
    (allocate.go) drops the pools the Pod does not match ([selectByPod]) and sorts the others. *)

From S2P Require Import Prelude NetIP NetIPFacts IPAddr Cidr K8s Retry Convert IPPoolManager PoolUtils Workload Endpoint IPAMRelease Selector.
Local Open Scope Z_scope.
Local Open Scope go_scope.

(** ** Data (types.go) *)

(** A nil map of pools is the empty one: it is only read, or replaced before it is written. *)
Record PoolCandidate := MkCandidate {
  pc_IPVersion : Z;
  pc_Pools : list string;
  PToIPPool : gmap string SpiderIPPool
}.
Record ToBeAllocated := MkToBeAllocated {
  t_NIC : string;
  t_CleanGateway : bool;
  PoolCandidates : list PoolCandidate
}.
Abbreviation ToBeAllocateds := (list ToBeAllocated).

Definition t_Pools (t : ToBeAllocated) : list string := PoolCandidates t ≫= pc_Pools.
Definition tt_Pools (tt : ToBeAllocateds) : list string := tt ≫= t_Pools.
Definition Candidates (tt : ToBeAllocateds) : list PoolCandidate := tt ≫= PoolCandidates.

(** [models.IpamAddArgs] *)
Record IpamAddArgs := MkAddArgs {
  aa_PodNamespace : string;
  aa_PodName : string;
  aa_IfName : string;
  aa_CleanGateway : bool;
  DefaultIPV4IPPool : list string;
  DefaultIPV6IPPool : list string;
  NetNamespace : option string;
  MatchMasterSubnet : bool
}.

(** pkg/types/k8s.go: the values of the annotations *)
Record AnnoPodIPPoolValue := MkAnnoPool { ap_IPv4Pools : list string; ap_IPv6Pools : list string }.
Record AnnoIPPoolItem := MkAnnoItem {
  ai_NIC : string; ai_IPv4Pools : list string; ai_IPv6Pools : list string; ai_CleanGateway : bool }.

Definition AnnoPodIPPool : string := AnnotationPre +:+ "/ippool".
Definition AnnoPodIPPools : string := AnnotationPre +:+ "/ippools".
Definition AnnoPodRoutes : string := AnnotationPre +:+ "/routes".
Definition AnnoNSDefautlV4Pool : string := AnnotationPre +:+ "/default-ipv4-ippool".
Definition AnnoNSDefautlV6Pool : string := AnnotationPre +:+ "/default-ipv6-ippool".
Definition AnnoSpiderSubnet : string := AnnotationPre +:+ "/subnet".
Definition AnnoSpiderSubnets : string := AnnotationPre +:+ "/subnets".
Definition MultusDefaultNetAnnot : string := "v1.multus-cni.io/default-network".
Definition MultusNetworkAttachmentAnnot : string := "k8s.v1.cni.cncf.io/networks".

Definition set_item (nic : string) (v4 v6 : list string) (i : AnnoIPPoolItem) : AnnoIPPoolItem :=
  MkAnnoItem nic v4 v6 (ai_CleanGateway i).

(** ** utils.go *)

Section annotations.
Context `{JI : JSON (list AnnoIPPoolItem)} `{JP : JSON AnnoPodIPPoolValue} `{JL : JSON (list string)}.

Definition unmarshal {A} `{JSON A} (e : error) (s : string) : outcome A :=
  match json_unmarshal s with Some a => Ret a | None => Fail e end.

Definition IsMultipleNicWithNoName (anno : gmap string string) : bool :=
  match anno !! AnnoPodIPPools with
  | None => false
  | Some annoVal =>
      match json_unmarshal annoVal with
      | None => false
      | Some annoPodIPPools => existsb (λ v, (ai_NIC v == EmptyString)) annoPodIPPools
      end
  end.

(** The loop over the items from [index]: their names, given an index where they have none, must
    differ and be all given or all missing. *)
Fixpoint mutate_nics (hasNIC : bool) (index : Z) (nicSet : gset string) (items : list AnnoIPPoolItem)
    : outcome (list AnnoIPPoolItem * gset string) :=
  match items with
  | [] => Ret ([], nicSet)
  | i :: items =>
      if negb (Bool.eqb (ai_NIC i != EmptyString) hasNIC) then Fail ErrWrongInput
      else
        let nic := if ai_NIC i == EmptyString then itoa index else ai_NIC i in
        if bool_decide (nic ∈ nicSet) then Fail ErrWrongInput
        else
          '(rest, nicSet) ← mutate_nics hasNIC (index + 1) ({[nic]} ∪ nicSet) items;
          Ret (set_item nic (ai_IPv4Pools i) (ai_IPv6Pools i) i :: rest, nicSet)
  end.

Definition validateAndMutateMultipleNICAnnotations (annoIPPoolsValue : list AnnoIPPoolItem) (currentNIC : string)
    : outcome (list AnnoIPPoolItem) :=
  match annoIPPoolsValue with
  | [] => Fail ErrWrongInput
  | first :: _ =>
      let hasNIC := (ai_NIC first != EmptyString) in
      '(items, nicSet) ← mutate_nics hasNIC 0 ∅ annoIPPoolsValue;
      if hasNIC && negb (bool_decide (currentNIC ∈ nicSet)) then Fail ErrWrongInput else Ret items
  end.

(** pkg/namespacemanager/utils.go *)
Definition GetNSDefaultPools (ns : ObjectMeta) : outcome (list string * list string) :=
  v4 ← match Annotations ns !! AnnoNSDefautlV4Pool with Some v => unmarshal (ErrOther "json.Unmarshal") v | None => Ret [] end;
  v6 ← match Annotations ns !! AnnoNSDefautlV6Pool with Some v => unmarshal (ErrOther "json.Unmarshal") v | None => Ret [] end;
  Ret (v4, v6).

(** ** pool_selections.go *)

(** Listing the cached pools of a version, the pools whose spec.default is true, and reading
    namespaces. *)
Context (listed : Z → outcome (list SpiderIPPool)) (default_pools : outcome (list SpiderIPPool)).
Context (get_ns : string → outcome ObjectMeta).

(** The names of a version with wildcards expanded; an empty list is left alone. *)
Definition expand (names : list string) (version : Z) : outcome (list string) :=
  match names with
  | [] => Ret []
  | _ => '(newPoolNames, hasWildcard) ← ParseWildcardPoolNameList listed names version;
         Ret (if hasWildcard : bool then newPoolNames else names)
  end.

(** A candidate for each version that names pools. *)
Definition candidates (v4 v6 : list string) : list PoolCandidate :=
  (if nonempty v4 then [MkCandidate IPv4 v4 ∅] else []) ++ (if nonempty v6 then [MkCandidate IPv6 v6 ∅] else []).

Fixpoint expand_items (items : list AnnoIPPoolItem) : outcome (list AnnoIPPoolItem) :=
  match items with
  | [] => Ret []
  | i :: items =>
      v4 ← expand (ai_IPv4Pools i) IPv4;
      v6 ← expand (ai_IPv6Pools i) IPv6;
      rest ← expand_items items;
      Ret (set_item (ai_NIC i) v4 v6 i :: rest)
  end.

Definition item_allocation (v : AnnoIPPoolItem) : ToBeAllocated :=
  MkToBeAllocated (ai_NIC v) (ai_CleanGateway v) (candidates (ai_IPv4Pools v) (ai_IPv6Pools v)).

Definition getPoolFromPodAnnoPools (anno currentNIC : string) : outcome ToBeAllocateds :=
  annoPodIPPools ← (unmarshal ErrWrongInput anno : outcome (list AnnoIPPoolItem));
  annoPodIPPools ← expand_items annoPodIPPools;
  annoPodIPPools ← validateAndMutateMultipleNICAnnotations annoPodIPPools currentNIC;
  Ret (map item_allocation annoPodIPPools).

Definition getPoolFromPodAnnoPool (anno nic : string) (cleanGateway : bool) : outcome ToBeAllocated :=
  annoPodIPPool ← unmarshal ErrWrongInput anno;
  v4 ← expand (ap_IPv4Pools annoPodIPPool) IPv4;
  v6 ← expand (ap_IPv6Pools annoPodIPPool) IPv6;
  Ret (MkToBeAllocated nic cleanGateway (candidates v4 v6)).

(** What [getPoolFromNS] and [getPoolFromNetConf] do with the two lists. *)
Definition from_lists (v4 v6 : list string) (nic : string) (cleanGateway : bool) : outcome (option ToBeAllocated) :=
  if negb (nonempty v4) && negb (nonempty v6) then Ret None
  else
    v4 ← expand v4 IPv4;
    v6 ← expand v6 IPv6;
    Ret (Some (MkToBeAllocated nic cleanGateway (candidates v4 v6))).

Definition getPoolFromNS (namespace nic : string) (cleanGateway : bool) : outcome (option ToBeAllocated) :=
  ns ← get_ns namespace;
  '(nsDefaultV4Pools, nsDefaultV6Pools) ← GetNSDefaultPools ns;
  from_lists nsDefaultV4Pools nsDefaultV6Pools nic cleanGateway.

Definition getPoolFromNetConf (nic : string) (netConfV4Pool netConfV6Pool : list string) (cleanGateway : bool)
    : outcome (option ToBeAllocated) :=
  from_lists netConfV4Pool netConfV6Pool nic cleanGateway.

(** The loop over the default pools: names and objects by version. *)
Fixpoint split_defaults (pools : list SpiderIPPool) : outcome (list SpiderIPPool * list SpiderIPPool) :=
  match pools with
  | [] => Ret ([], [])
  | p :: pools =>
      version ← deref (ps_IPVersion (pool_spec p));
      '(v4, v6) ← split_defaults pools;
      Ret (if version =? IPv4 then (p :: v4, v6) else (v4, p :: v6))
  end.

Definition by_name (pools : list SpiderIPPool) : gmap string SpiderIPPool :=
  foldl (λ m p, <[Name (pool_meta p) := p]> m) ∅ pools.

Definition default_candidate (version : Z) (pools : list SpiderIPPool) : list PoolCandidate :=
  if nonempty pools then [MkCandidate version ((λ p, Name (pool_meta p)) <$> pools) (by_name pools)] else [].

Definition getClusterDefaultPools (nic : string) (cleanGateway : bool) : outcome ToBeAllocated :=
  pools ← default_pools;
  match pools with
  | [] => Fail ErrNoAvailablePool
  | _ => '(v4, v6) ← split_defaults pools;
         Ret (MkToBeAllocated nic cleanGateway (default_candidate IPv4 v4 ++ default_candidate IPv6 v6))
  end.

(** pkg/applicationcontroller/applicationinformers/utils.go: the keys only count, whatever their
    values. *)
Definition HasSubnetsAnnotation (anno : gmap string string) : bool :=
  bool_decide (is_Some (anno !! AnnoSpiderSubnet)) || bool_decide (is_Some (anno !! AnnoSpiderSubnets)).

Section candidates.
Context {W : Type} (config : IPAMConfig).
(** [getPoolFromSubnetAnno]: it may create a pool. *)
Context (from_subnet_anno : Pod → string → bool → PodTopController → cmd W (option ToBeAllocated)).

Definition from_subnet (addArgs : IpamAddArgs) (pod : Pod) (podController : PodTopController) : cmd W (option ToBeAllocated) :=
  if cfg_EnableSpiderSubnet config then
    if cfg_EnableAutoPoolForApplication config then
      from_subnet_anno pod (aa_IfName addArgs) (aa_CleanGateway addArgs) podController
    else if HasSubnetsAnnotation (Annotations (pod_meta pod)) then lift (Fail (ErrOther "Auto-Pool feature is disabled"))
    else mret None
  else mret None.

(** The rules in their order of precedence, the subnet annotations apart. *)
Definition from_rules (addArgs : IpamAddArgs) (pod : Pod) : outcome ToBeAllocateds :=
  let nic := aa_IfName addArgs in
  let cleanGateway := aa_CleanGateway addArgs in
  match Annotations (pod_meta pod) !! AnnoPodIPPools with
  | Some anno => getPoolFromPodAnnoPools anno nic
  | None =>
      match Annotations (pod_meta pod) !! AnnoPodIPPool with
      | Some anno => t ← getPoolFromPodAnnoPool anno nic cleanGateway; Ret [t]
      | None =>
          t ← getPoolFromNS (Namespace (pod_meta pod)) nic cleanGateway;
          match t with
          | Some t => Ret [t]
          | None =>
              t ← getPoolFromNetConf nic (DefaultIPV4IPPool addArgs) (DefaultIPV6IPPool addArgs) cleanGateway;
              match t with
              | Some t => Ret [t]
              | None => t ← getClusterDefaultPools nic cleanGateway; Ret [t]
              end
          end
      end
  end.

Definition getPoolCandidates (addArgs : IpamAddArgs) (pod : Pod) (podController : PodTopController) : cmd W ToBeAllocateds :=
  fromSubnet ← from_subnet addArgs pod podController;
  match fromSubnet with
  | Some t => mret [t]
  | None => lift (from_rules addArgs pod)
  end.
End candidates.
End annotations.

(** ** config.go: the versions that are enabled *)

Definition set_candidates (pcs : list PoolCandidate) (t : ToBeAllocated) : ToBeAllocated :=
  MkToBeAllocated (t_NIC t) (t_CleanGateway t) pcs.

Section enabled.
Context (config : IPAMConfig).

Definition version_enabled (version : Z) : bool :=
  ((version =? IPv4) && cfg_EnableIPv4 config) || ((version =? IPv6) && cfg_EnableIPv6 config).

Definition filterPoolMisspecified (t : ToBeAllocated) : ToBeAllocated :=
  set_candidates (filter (λ pc, version_enabled (pc_IPVersion pc) = true) (PoolCandidates t)) t.

Definition checkIPVersionEnable (tt : ToBeAllocateds) : ToBeAllocateds := filterPoolMisspecified <$> tt.
End enabled.

(** ** allocate.go: prechecks, filters and order *)

Section filters.
Context `{MR : MapRange} `{JN : JSON (list (option NetworkSelectionElement))}.
Context (config : IPAMConfig).
(** Cached reads of pools, nodes and namespaces; the addresses of the physical function behind a
    virtual NIC, read through netlink in the Pod's network namespace. *)
Context (cached_pool : string → outcome SpiderIPPool) (get_node get_ns : string → outcome ObjectMeta).
Context (pf_addrs : string → string → outcome (list IP)).

Fixpoint precheck_pools (marks : gset string) (pools : list string) (m : gmap string SpiderIPPool) : outcome (gmap string SpiderIPPool) :=
  match pools with
  | [] => Ret m
  | pool :: pools =>
      if bool_decide (pool ∈ marks) then Fail ErrWrongInput
      else
        match m !! pool with
        | Some _ => precheck_pools ({[pool]} ∪ marks) pools m
        | None => ipPool ← cached_pool pool; precheck_pools ({[pool]} ∪ marks) pools (<[pool := ipPool]> m)
        end
  end.

(** [for _, c := range t.PoolCandidates]: each candidate is replaced by what [f] makes of it. *)
Fixpoint map_m {A B} (f : A → outcome B) (l : list A) : outcome (list B) :=
  match l with
  | [] => Ret []
  | a :: l => b ← f a; rest ← map_m f l; Ret (b :: rest)
  end.

Definition on_candidates (f : PoolCandidate → outcome PoolCandidate) (t : ToBeAllocated) : outcome ToBeAllocated :=
  pcs ← map_m f (PoolCandidates t);
  Ret (set_candidates pcs t).

Definition precheckPoolCandidates : ToBeAllocated → outcome ToBeAllocated :=
  on_candidates (λ c, m ← precheck_pools ∅ (pc_Pools c) (PToIPPool c); Ret (MkCandidate (pc_IPVersion c) (pc_Pools c) m)).

Definition filterPoolCandidatesByPfSubnet (pool : SpiderIPPool) (podNetNamespace nic : string) : outcome unit :=
  let subnet := ps_Subnet (pool_spec pool) in
  if subnet == EmptyString then Fail (ErrOther "subnet is empty")
  else
    addrs ← pf_addrs podNetNamespace nic;
    match net_ParseCIDR subnet with
    | None => Fail (ErrOther "failed to parse subnet")
    | Some (_, ipNet) => check (existsb (net_contains ipNet) addrs) (ErrOther "subnet not found on PF")
    end.

Definition matches_labels (selector : LabelSelector) (labels : gmap string string) (what : string) : outcome unit :=
  selector ← LabelSelectorAsSelector selector;
  check (Matches selector labels) (ErrOther what).

(** A list of names decides alone; without one an affinity is matched with the labels of the object. *)
Definition select_by (names : list string) (name : string) (affinity : option LabelSelector) (get : string → outcome ObjectMeta)
    (what : string) : outcome unit :=
  match names with
  | _ :: _ => check (bool_decide (name ∈ names)) (ErrOther what)
  | [] =>
      match affinity with
      | None => Ret ()
      | Some selector => o ← get name; matches_labels selector (Labels o) what
      end
  end.

(** Which network of the annotation a NIC is: by its interface, "net1" and so on by default, or
    by its number. *)
Fixpoint find_network (nic : string) (idx : Z) (networks : list NetworkSelectionElement) : option NetworkSelectionElement :=
  match networks with
  | [] => None
  | n :: networks =>
      let request := if InterfaceRequest n == EmptyString then "net" +:+ itoa (idx + 1) else InterfaceRequest n in
      if (nic == request) || (nic == itoa (idx + 1)) then Some n
      else find_network nic (idx + 1) networks
  end.

Definition or_else (s d : string) : string := if s == EmptyString then d else s.

(** The namespace and name of the Multus network of a NIC. *)
Definition multus_of (pod : Pod) (nic : string) : outcome (string * string) :=
  let podAnno := Annotations (pod_meta pod) in
  if (nic == ClusterDefaultInterfaceName) || (nic == itoa 0) then
    defaultMultusObj ←
      match default ""%string (podAnno !! MultusDefaultNetAnnot) with
      | EmptyString =>
          match MultusClusterNetwork config with
          | None => Fail (ErrOther "cluster-network multus isn't set")
          | Some n => Ret n
          end
      | obj => Ret obj
      end;
    networks ← ParsePodNetworkAnnotation defaultMultusObj (AgentNamespace config);
    match networks with
    | [] => Fail (ErrOther "empty result")
    | n :: _ => Ret (or_else (nse_Namespace n) (AgentNamespace config), nse_Name n)
    end
  else
    networks ← ParsePodNetworkAnnotation (default ""%string (podAnno !! MultusNetworkAttachmentAnnot)) (Namespace (pod_meta pod));
    match find_network nic 0 networks with
    | None => Fail ErrUnknown
    | Some n => Ret (or_else (nse_Namespace n) (Namespace (pod_meta pod)), nse_Name n)
    end.

(** An entry of spec.multusName, in the namespace of the agent by default. *)
Definition expected_multus (name : string) : string :=
  if contains_char "/" name then name else AgentNamespace config +:+ "/" +:+ name.

Definition selectByPod (version : Z) (ipPool : option SpiderIPPool) (pod : Pod) (podTopController : PodTopController) (nic : string)
    (podNetNamespace : option string) (matchMasterSubnet : bool) : outcome unit :=
  match ipPool with
  | None => Fail (ErrOther "nil IPPool")
  | Some ipPool =>
      let spec := pool_spec ipPool in
      _ ← check (DeletionTimestamp (pool_meta ipPool) == None) (ErrOther "terminating IPPool");
      disabled ← deref (ps_Disable spec);
      _ ← check (negb disabled) (ErrOther "disabled IPPool");
      _ ← check (ps_IPVersion spec == Some version) (ErrOther "ipVersion");
      _ ← select_by (ps_NodeName spec) (NodeName pod) (ps_NodeAffinity spec) get_node "unmatched Node";
      _ ← select_by (ps_NamespaceName spec) (Namespace (pod_meta pod)) (ps_NamespaceAffinity spec) get_ns "unmatched Namespace";
      if is_set (ps_PodAffinity spec) && IsAutoCreatedIPPool ipPool then
        check (IsMatchAutoPoolAffinity (ps_PodAffinity spec) podTopController) (ErrOther "unmatched Pod affinity")
      else
        _ ← match ps_PodAffinity spec with
            | Some selector => matches_labels selector (Labels (pod_meta pod)) "unmatched Pod affinity"
            | None => Ret ()
            end;
        '(multusNS, multusName) ← multus_of pod nic;
        match ps_MultusName spec with
        | _ :: _ =>
            check (existsb (λ n, (expected_multus n == multusNS +:+ "/" +:+ multusName)) (ps_MultusName spec))
              (ErrOther "unmatched multusName")
        | [] =>
            if negb matchMasterSubnet then Ret ()
            else
              match podNetNamespace with
              | None | Some EmptyString => Fail (ErrOther "podNetNamespace is empty")
              | Some netns => filterPoolCandidatesByPfSubnet ipPool netns nic
              end
        end
  end.

(** The loop that deletes the pools the Pod does not match from the list and from the map. *)
Fixpoint filter_pools (select : string → gmap string SpiderIPPool → outcome unit) (pools : list string) (m : gmap string SpiderIPPool)
    : outcome (list string * gmap string SpiderIPPool) :=
  match pools with
  | [] => Ret ([], m)
  | pool :: pools =>
      match select pool m with
      | Ret _ => '(kept, m) ← filter_pools select pools m; Ret (pool :: kept, m)
      | Fail _ => filter_pools select pools (delete pool m)
      | Panic => Panic
      | OutOfFuel => OutOfFuel
      end
  end.

Definition filterPoolCandidates (pod : Pod) (podTopController : PodTopController) (addArgs : IpamAddArgs) (t : ToBeAllocated)
    : outcome ToBeAllocated :=
  on_candidates (λ c,
    '(kept, m) ← filter_pools
       (λ pool m, selectByPod (pc_IPVersion c) (m !! pool) pod podTopController (t_NIC t) (NetNamespace addArgs) (MatchMasterSubnet addArgs))
       (pc_Pools c) (PToIPPool c);
    match kept with
    | [] => Fail ErrNoAvailablePool
    | _ => Ret (MkCandidate (pc_IPVersion c) kept m)
    end) t.

Definition pool_le (a b : SpiderIPPool) : Prop := Less b a = false.
#[export] Instance pool_le_dec : RelDecision pool_le.
Proof. intros a b. unfold pool_le. apply _. Defined.

(** [sort.Sort] of the pools, taken from the map in any order: equal ones may come in any order. *)
Definition sort_candidate (c : PoolCandidate) : PoolCandidate :=
  MkCandidate (pc_IPVersion c) ((λ p, Name (pool_meta p)) <$> merge_sort pool_le (snd <$> range_kv (PToIPPool c))) (PToIPPool c).

Definition sortPoolCandidates (tt : ToBeAllocateds) : ToBeAllocateds :=
  (λ t, set_candidates (sort_candidate <$> PoolCandidates t) t) <$> tt.

(** [genToBeAllocatedSet] after the candidates are read. *)
Definition refine_candidates (addArgs : IpamAddArgs) (pod : Pod) (podController : PodTopController) (preliminary : ToBeAllocateds)
    : outcome ToBeAllocateds :=
  let preliminary := checkIPVersionEnable config preliminary in
  preliminary ← map_m precheckPoolCandidates preliminary;
  preliminary ← map_m (filterPoolCandidates pod podController addArgs) preliminary;
  Ret (sortPoolCandidates preliminary).
End filters.

(** ** What is selected *)

Section selected.
Context `{MR : MapRange} `{JN : JSON (list (option NetworkSelectionElement))}.
Context (config : IPAMConfig).
Context (cached_pool : string → outcome SpiderIPPool) (get_node get_ns : string → outcome ObjectMeta).
Context (pf_addrs : string → string → outcome (list IP)).

(** The labels satisfy a well-formed selector. *)
Definition label_match (selector : LabelSelector) (labels : gmap string string) : Prop :=
  ∃ reqs, LabelSelectorAsSelector selector = Ret reqs ∧ Forall (λ r, Matches1 r labels = true) reqs.

Definition allowed (names : list string) (name : string) (affinity : option LabelSelector) (get : string → outcome ObjectMeta) : Prop :=
  if nonempty names then name ∈ names
  else ∀ selector, affinity = Some selector → ∃ o, get name = Ret o ∧ label_match selector (Labels o).

(** The Multus network of the NIC is one the pool is for; a pool for any network must lie in the
    subnet of the physical NIC when that is asked for. *)
Definition network_match (p : SpiderIPPool) (pod : Pod) (nic : string) (netns : option string) (matchMaster : bool) : Prop :=
  ∃ ns name, multus_of config pod nic = Ret (ns, name) ∧
    if nonempty (ps_MultusName (pool_spec p)) then ∃ n, n ∈ ps_MultusName (pool_spec p) ∧ expected_multus config n = ns +:+ "/" +:+ name
    else matchMaster = true → ∃ s, netns = Some s ∧ s ≠ EmptyString ∧ filterPoolCandidatesByPfSubnet pf_addrs p s nic = Ret ().

(** The pool may serve the NIC of the Pod. *)
Record suits (version : Z) (p : SpiderIPPool) (pod : Pod) (top : PodTopController) (nic : string) (netns : option string)
    (matchMaster : bool) : Prop := {
  su_live : DeletionTimestamp (pool_meta p) = None;
  su_enabled : ps_Disable (pool_spec p) = Some false;
  su_version : ps_IPVersion (pool_spec p) = Some version;
  su_node : allowed (ps_NodeName (pool_spec p)) (NodeName pod) (ps_NodeAffinity (pool_spec p)) get_node;
  su_ns : allowed (ps_NamespaceName (pool_spec p)) (Namespace (pod_meta pod)) (ps_NamespaceAffinity (pool_spec p)) get_ns;
  su_pod : if is_set (ps_PodAffinity (pool_spec p)) && IsAutoCreatedIPPool p
           then IsMatchAutoPoolAffinity (ps_PodAffinity (pool_spec p)) top = true
           else (∀ selector, ps_PodAffinity (pool_spec p) = Some selector → label_match selector (Labels (pod_meta pod))) ∧
                network_match p pod nic netns matchMaster
}.

Lemma matches_labels_Ret selector labels what : matches_labels selector labels what = Ret () ↔ label_match selector labels.
Proof.
  unfold matches_labels, label_match. rewrite bind_Ret. setoid_rewrite check_Ret. unfold Matches.
  setoid_rewrite forallb_forall. by setoid_rewrite <- List.Forall_forall.
Qed.

Lemma select_by_Ret names name affinity get what : select_by names name affinity get what = Ret () ↔ allowed names name affinity get.
Proof.
  unfold select_by, allowed. destruct names as [|n names]; cbn [nonempty].
  - destruct affinity as [selector|]; [|naive_solver]. rewrite bind_Ret. setoid_rewrite matches_labels_Ret. naive_solver.
  - by rewrite check_Ret, bool_decide_eq_true.
Qed.

Lemma selectByPod_Ret version p pod top nic netns mm :
  selectByPod config get_node get_ns pf_addrs version (Some p) pod top nic netns mm = Ret () ↔ suits version p pod top nic netns mm.
Proof.
  unfold selectByPod.
  assert (∀ (P : Prop) (m : outcome unit) (k : unit → outcome unit) (Q : Prop),
    (m = Ret () ↔ P) → (k () = Ret () ↔ Q) → (m ≫= k = Ret () ↔ P ∧ Q)) as Hbind.
  { intros P m k Q <- <-. rewrite bind_Ret. split; [by intros ([] & ? & ?)|by intros [? ?]; exists ()]. }
  transitivity (DeletionTimestamp (pool_meta p) = None ∧ ps_Disable (pool_spec p) = Some false ∧ ps_IPVersion (pool_spec p) = Some version ∧
    allowed (ps_NodeName (pool_spec p)) (NodeName pod) (ps_NodeAffinity (pool_spec p)) get_node ∧
    allowed (ps_NamespaceName (pool_spec p)) (Namespace (pod_meta pod)) (ps_NamespaceAffinity (pool_spec p)) get_ns ∧
    if is_set (ps_PodAffinity (pool_spec p)) && IsAutoCreatedIPPool p
    then IsMatchAutoPoolAffinity (ps_PodAffinity (pool_spec p)) top = true
    else (∀ selector, ps_PodAffinity (pool_spec p) = Some selector → label_match selector (Labels (pod_meta pod))) ∧
         network_match p pod nic netns mm); [|split; [intros (? & ? & ? & ? & ? & ?); by split|intros []; by split_and!]].
  apply Hbind; [by rewrite check_Ret, bool_decide_eq_true|].
  destruct (ps_Disable (pool_spec p)) as [[|]|]; cbn [deref mbind outcome_bind check negb]; [naive_solver| |naive_solver].
  assert (∀ P : Prop, P ↔ Some false = Some false ∧ P) as Htriv by naive_solver. rewrite <- Htriv. clear Htriv.
  apply Hbind; [by rewrite check_Ret, bool_decide_eq_true|]. apply Hbind; [apply select_by_Ret|]. apply Hbind; [apply select_by_Ret|].
  destruct (is_set (ps_PodAffinity (pool_spec p)) && IsAutoCreatedIPPool p); [apply check_Ret|]. apply Hbind.
  - destruct (ps_PodAffinity (pool_spec p)) as [selector|]; [|naive_solver]. rewrite matches_labels_Ret. naive_solver.
  - unfold network_match. rewrite bind_Ret. split.
    + intros ([ns name] & Hm & H). exists ns, name. split; [done|]. destruct (ps_MultusName (pool_spec p)) as [|n l] eqn:E; cbn [nonempty].
      * destruct mm; [|done]. intros _. destruct netns as [[|c s]|]; [done| |done]. by exists (String c s).
      * apply check_Ret, existsb_exists in H as (x & Hx%list_elem_of_In & ?%bool_decide_eq_true). eauto.
    + intros (ns & name & Hm & H). exists (ns, name). split; [done|]. destruct (ps_MultusName (pool_spec p)) as [|n l] eqn:E; cbn [nonempty] in H.
      * destruct mm; [|done]. destruct (H eq_refl) as (s & -> & Hs & Hf). by destruct s.
      * apply check_Ret, existsb_exists. destruct H as (x & Hx & ?). exists x. rewrite bool_decide_eq_true. by rewrite <- list_elem_of_In.
Qed.

(** ** The candidates after prechecks, filters and sorting *)

Lemma precheck_pools_spec marks pools m m' :
  precheck_pools cached_pool marks pools m = Ret m' →
  NoDup pools ∧ (∀ n, n ∈ pools → n ∉ marks ∧ is_Some (m' !! n)) ∧
  ∀ n p, m' !! n = Some p ↔ m !! n = Some p ∨ (m !! n = None ∧ n ∈ pools ∧ cached_pool n = Ret p).
Proof.
  revert marks m. induction pools as [|pool pools IH]; intros marks m; cbn [precheck_pools].
  { intros [= <-]. split_and!; [constructor|by intros n ?%elem_of_nil|]. intros n p.
    split; [by left|by intros [?|(_ & ?%elem_of_nil & _)]]. }
  case_bool_decide as Hm; [done|]. intros H.
  assert (∃ q m1, (m !! pool = Some q ∧ m1 = m ∨ m !! pool = None ∧ cached_pool pool = Ret q ∧ m1 = <[pool := q]> m) ∧
    precheck_pools cached_pool ({[pool]} ∪ marks) pools m1 = Ret m') as (q & m1 & Hq & Hr).
  { destruct (m !! pool) as [q|] eqn:Eq; [by exists q, m; auto|].
    apply bind_Ret in H as (q & Hq & H). exists q, (<[pool := q]> m). auto. }
  clear H. destruct (IH _ _ Hr) as (Hnd & Hin & Hl). clear IH Hr.
  assert (m1 !! pool = Some q) as Hpq by (destruct Hq as [[? ->]|(_ & _ & ->)]; [done|apply lookup_insert_eq]).
  assert (∀ n, n ≠ pool → m1 !! n = m !! n) as Hne.
  { intros n Hn. destruct Hq as [[_ ->]|(_ & _ & ->)]; [done|by apply lookup_insert_ne]. }
  split_and!.
  - constructor; [|done]. intros [Hp _]%Hin. apply Hp, elem_of_union_l, elem_of_singleton. done.
  - intros n [->|Hn]%elem_of_cons; [split; [done|]; exists q; apply Hl; by left|].
    destruct (Hin n Hn) as [Hm' ?]. split; [|done]. intros ?. by apply Hm', elem_of_union_r.
  - intros n p. rewrite Hl, elem_of_cons. destruct (decide (n = pool)) as [->|Hn].
    + rewrite Hpq. destruct Hq as [[Hq ->]|(Hq & Hc & ->)]; rewrite Hq; split.
      1, 2: intros [?|[? _]]; [by left|done].
      * intros [[= ->]|[? _]]; [right; auto|done].
      * intros [?|(_ & _ & E)]; [done|left; congruence].
    + rewrite Hne by done. split; (intros [?|(? & Hn' & ?)]; [by left|]); [right; auto|].
      destruct Hn' as [?|?]; [done|right; auto].
Qed.

Lemma filter_pools_spec (f : option SpiderIPPool → outcome unit) pools m kept m' :
  filter_pools (λ pool m, f (m !! pool)) pools m = Ret (kept, m') → NoDup pools →
  NoDup kept ∧ (∀ n, n ∈ kept ↔ n ∈ pools ∧ f (m !! n) = Ret ()) ∧
  ∀ n, m' !! n = if decide (n ∈ pools ∧ n ∉ kept) then None else m !! n.
Proof.
  revert m kept m'. induction pools as [|pool pools IH]; intros m kept m'; cbn [filter_pools].
  { intros [= <- <-] _. split_and!; [constructor|set_solver|]. intros n. rewrite decide_False; [done|set_solver]. }
  intros H [Hp Hnd]%NoDup_cons. destruct (f (m !! pool)) as [[]|e| |] eqn:Ef; [| |done..].
  - apply bind_Ret in H as ([kept1 m1] & Hf & [= <- <-]). destruct (IH _ _ _ Hf Hnd) as (Hk & Hin & Hl). split_and!.
    + constructor; [|done]. rewrite Hin. by intros [].
    + intros n. rewrite !elem_of_cons, Hin. split; [intros [->|[]]; auto|intros [[->|] ?]; auto].
    + intros n. rewrite Hl. apply decide_ext. rewrite !elem_of_cons, Hin. naive_solver.
  - destruct (IH _ _ _ H Hnd) as (Hk & Hin & Hl).
    assert (∀ n, n ∈ pools → delete pool m !! n = m !! n) as Hd by (intros n Hn; rewrite lookup_delete_ne; [done|by intros ->]).
    assert (∀ n, n ∈ kept ↔ n ∈ pool :: pools ∧ f (m !! n) = Ret ()) as Hin'.
    { intros n. rewrite Hin, elem_of_cons. split; [intros [Hn Hs]; rewrite Hd in Hs by done; auto|].
      intros [[->|Hn] Hs]; [congruence|]. by rewrite Hd. }
    split_and!; [done|done|]. intros n. rewrite Hl. destruct (decide (n = pool)) as [->|Hne].
    + rewrite lookup_delete_eq. rewrite (decide_True (P := pool ∈ pool :: pools ∧ pool ∉ kept)); [by case_decide|].
      split; [apply list_elem_of_here|]. rewrite Hin. by intros [].
    + rewrite lookup_delete_ne by done. apply decide_ext. rewrite elem_of_cons. naive_solver.
Qed.

Lemma map_m_Ret {A B} (f : A → outcome B) l l' : map_m f l = Ret l' ↔ Forall2 (λ a b, f a = Ret b) l l'.
Proof.
  revert l'. induction l as [|a l IH]; intros l'; cbn [map_m].
  - split; [intros [= <-]; constructor|by intros ->%Forall2_nil_inv_l].
  - rewrite bind_Ret. split.
    + intros (b & Hb & (rest & Hr%IH & [= <-])%bind_Ret). by constructor.
    + intros (b & rest & Hb & Hr & ->)%Forall2_cons_inv_l. exists b. split; [done|]. apply bind_Ret. exists rest. split; [by apply IH|done].
Qed.

(** The object a candidate uses for a name: the one it comes with, or else the cached one. *)
Definition pool_of (c : PoolCandidate) (n : string) (p : SpiderIPPool) : Prop :=
  PToIPPool c !! n = Some p ∨ (PToIPPool c !! n = None ∧ cached_pool n = Ret p).

(** The pools that come with a candidate are its own, under their names. *)
Definition candidate_ok (c : PoolCandidate) : Prop :=
  ∀ n p, PToIPPool c !! n = Some p → Name (pool_meta p) = n ∧ n ∈ pc_Pools c.

(** [c'] offers the pools of [c] that suit the Pod, those of higher priority first. *)
Definition refines (addArgs : IpamAddArgs) (pod : Pod) (top : PodTopController) (nic : string) (c c' : PoolCandidate) : Prop :=
  pc_IPVersion c' = pc_IPVersion c ∧ pc_Pools c' ≠ [] ∧
  ∃ ps : list SpiderIPPool, pc_Pools c' = (λ p, Name (pool_meta p)) <$> ps ∧ NoDup (pc_Pools c') ∧ StronglySorted (λ a b, priority b ≤ priority a) ps ∧
    ∀ p, p ∈ ps ↔ Name (pool_meta p) ∈ pc_Pools c ∧ pool_of c (Name (pool_meta p)) p ∧
      suits (pc_IPVersion c) p pod top nic (NetNamespace addArgs) (MatchMasterSubnet addArgs).

Lemma sorted_pools m :
  let ps := merge_sort pool_le (snd <$> range_kv m) in
  StronglySorted (λ a b, priority b ≤ priority a) ps ∧ (∀ p, p ∈ ps ↔ ∃ n, m !! n = Some p) ∧
  ((∀ n p, m !! n = Some p → Name (pool_meta p) = n) → NoDup ((λ p, Name (pool_meta p)) <$> ps)).
Proof.
  intros ps. assert (∀ a b, pool_le a b ↔ priority b ≤ priority a) as Hle.
  { intros a b. unfold pool_le. rewrite Less_priority. rewrite Z.ltb_ge. done. }
  assert (ps ≡ₚ snd <$> range_kv m) as Hperm by apply merge_sort_Permutation. split_and!.
  - assert (StronglySorted pool_le ps) as Hs.
    { assert (Transitive pool_le) by (intros a b c; rewrite !Hle; lia).
      assert (Total pool_le) by (intros a b; rewrite !Hle; lia). apply StronglySorted_merge_sort; apply _. }
    clear -Hs Hle. induction Hs as [|a l _ IH Ha]; constructor; [done|]. eapply Forall_impl; [exact Ha|]. intros b. apply Hle.
  - intros p. rewrite Hperm, list_elem_of_fmap. split.
    + intros ([n q] & -> & ?%elem_of_range_kv). by exists n.
    + intros [n Hn]. exists (n, p). by rewrite elem_of_range_kv.
  - intros Hn. rewrite Hperm. rewrite <- list_fmap_compose.
    assert (((λ p, Name (pool_meta p)) ∘ snd) <$> range_kv m = range_keys m) as ->; [|apply NoDup_range_keys].
    unfold range_kv. assert (∀ l, Forall (λ k, is_Some (m !! k)) l →
      ((λ p, Name (pool_meta p)) ∘ snd) <$> omap (λ k, (λ v, (k, v)) <$> m !! k) l = l) as H.
    { induction 1 as [|k l [v Hv] _ IH]; [done|]. cbn. rewrite Hv. cbn. f_equal; [by apply Hn|apply IH]. }
    apply H, Forall_forall. intros k. apply elem_of_range_keys.
Qed.

Lemma refine_candidate addArgs pod top nic c m kept m' :
  (∀ n p, cached_pool n = Ret p → Name (pool_meta p) = n) → candidate_ok c →
  precheck_pools cached_pool ∅ (pc_Pools c) (PToIPPool c) = Ret m →
  filter_pools (λ pool m, selectByPod config get_node get_ns pf_addrs (pc_IPVersion c) (m !! pool) pod top nic
    (NetNamespace addArgs) (MatchMasterSubnet addArgs)) (pc_Pools c) m = Ret (kept, m') → kept ≠ [] →
  refines addArgs pod top nic c (sort_candidate (MkCandidate (pc_IPVersion c) kept m')).
Proof.
  intros Hname Hc (Hnd & Hin & Hm)%precheck_pools_spec Hf Hk.
  apply (filter_pools_spec (λ o, selectByPod _ _ _ _ _ o _ _ _ _ _)) in Hf as (_ & Hkept & Hm'); [|done].
  assert (∀ n p, m !! n = Some p → Name (pool_meta p) = n ∧ n ∈ pc_Pools c) as Hmn.
  { intros n p [Hp|(_ & ? & ?%Hname)]%Hm; [by apply Hc|by split]. }
  assert (∀ n p, m' !! n = Some p ↔ n ∈ kept ∧ m !! n = Some p) as Hm''.
  { intros n p. rewrite Hm'. case_decide as Hd; [naive_solver|]. split; [|by intros [_ ?]].
    intros Hp. split; [|done]. destruct (Hmn n p Hp) as [_ ?]. destruct (decide (n ∈ kept)); [done|naive_solver]. }
  destruct (sorted_pools m') as (Hs & Hel & Hnames). unfold refines. cbn [sort_candidate pc_IPVersion pc_Pools PToIPPool].
  split_and!; [done| |].
  - destruct kept as [|n kept]; [done|]. destruct (proj1 (Hkept n) (list_elem_of_here _ _)) as [Hn _].
    destruct (Hin n Hn) as [_ [p Hp]]. assert (m' !! n = Some p) as H' by (apply Hm''; split; [apply list_elem_of_here|done]).
    intros E%fmap_nil_inv. assert (p ∈ merge_sort pool_le (snd <$> range_kv m')) as H by (apply Hel; by exists n). rewrite E in H. by apply elem_of_nil in H.
  - eexists. split; [done|]. split_and!; [|done|].
    + apply Hnames. intros n p [_ Hp]%Hm''. by apply (Hmn n p).
    + intros p. rewrite Hel. split.
      * intros (n & [Hn Hp]%Hm''). destruct (Hmn n p Hp) as [<- Hpn]. split_and!; [done| |].
        -- apply Hm in Hp as [?|(? & _ & ?)]; [by left|by right].
        -- apply selectByPod_Ret. rewrite <- Hp. by apply Hkept.
      * intros (Hn & Hp & Hsu). exists (Name (pool_meta p)). apply Hm''.
        assert (m !! Name (pool_meta p) = Some p) as Hmp by (apply Hm; destruct Hp as [?|[? ?]]; auto).
        split; [|done]. apply Hkept. split; [done|]. rewrite Hmp. by apply selectByPod_Ret.
Qed.

Lemma Forall2_compose {A B C} (R : A → B → Prop) (Q : B → C → Prop) (T : A → C → Prop) l1 l2 l3 :
  (∀ a b c, a ∈ l1 → R a b → Q b c → T a c) → Forall2 R l1 l2 → Forall2 Q l2 l3 → Forall2 T l1 l3.
Proof.
  intros HT H12. revert l3. induction H12 as [|a b l1 l2 Hab _ IH]; intros l3; [intros ->%Forall2_nil_inv_l; constructor|].
  intros (c & l3' & Hbc & Hl & ->)%Forall2_cons_inv_l. constructor; [eapply HT; [apply list_elem_of_here|done..]|].
  apply IH; [|done]. intros a' b' c' Ha'. apply HT. by apply list_elem_of_further.
Qed.

(** C10: the candidates an allocation tries are exactly the pools that suit the Pod.  For every NIC,
    in order, and every version that is enabled, the pools that remain are those of the candidate
    that are live, enabled, of the version and whose node, namespace, Pod and network conditions
    the Pod meets; there is at least one, none twice, and those with the stronger conditions come
    first. *)
Theorem refine_candidates_exact addArgs pod top tt tt' :
  (∀ n p, cached_pool n = Ret p → Name (pool_meta p) = n) → Forall (λ t, Forall candidate_ok (PoolCandidates t)) tt →
  refine_candidates config cached_pool get_node get_ns pf_addrs addArgs pod top tt = Ret tt' →
  Forall2 (λ t t', t_NIC t' = t_NIC t ∧ t_CleanGateway t' = t_CleanGateway t ∧
    Forall2 (refines addArgs pod top (t_NIC t)) (filter (λ c, version_enabled config (pc_IPVersion c) = true) (PoolCandidates t))
      (PoolCandidates t')) tt tt'.
Proof.
  intros Hname Hok. unfold refine_candidates, checkIPVersionEnable.
  intros (tt1 & H1%map_m_Ret & (tt2 & H2%map_m_Ret & [= <-])%bind_Ret)%bind_Ret. unfold sortPoolCandidates.
  apply Forall2_fmap_l in H1. apply Forall2_fmap_r. eapply Forall2_compose; [|exact H1|exact H2].
  intros t t1 t2 Ht Hp Hf. rewrite Forall_forall in Hok. specialize (Hok t Ht).
  unfold precheckPoolCandidates, filterPoolCandidates, on_candidates in Hp, Hf.
  apply bind_Ret in Hp as (pcs1 & Hp%map_m_Ret & [= <-]). apply bind_Ret in Hf as (pcs2 & Hf%map_m_Ret & [= <-]).
  cbn [set_candidates filterPoolMisspecified PoolCandidates t_NIC t_CleanGateway] in *. split_and!; [done..|].
  apply Forall2_fmap_r. eapply Forall2_compose; [|exact Hp|exact Hf]. intros c c1 c2 [_ Hc]%list_elem_of_filter Hc1 Hc2.
  rewrite Forall_forall in Hok. specialize (Hok c Hc). apply bind_Ret in Hc1 as (m & Hm & [= <-]).
  apply bind_Ret in Hc2 as ([kept m'] & Hk & Hc2). cbn [pc_IPVersion pc_Pools PToIPPool] in *.
  assert (kept ≠ [] ∧ c2 = MkCandidate (pc_IPVersion c) kept m') as [Hne ->] by (destruct kept; [done|by injection Hc2 as <-]).
  by eapply refine_candidate.
Qed.
End selected.

(** ** A concrete selection *)

#[export] Instance NSE_countable : Countable NetworkSelectionElement.
Proof.
  by refine (inj_countable' (λ n, (nse_Name n, nse_Namespace n, IPRequest n, MacRequest n, InfinibandGUIDRequest n, InterfaceRequest n))
    (λ '(a, b, c, d, e, f), MkNSE a b c d e f) _); intros [].
Defined.
Definition ex_nse_json : JSON (list (option NetworkSelectionElement)) := countable_json.

Definition ex_sel_config : IPAMConfig :=
  MkIPAMConfig true false false false true false true false false 5 (Some "kube-system/default") "kube-system" false.
Definition ex_sel_pool (name : string) (nodes multus : list string) (disable : bool) : SpiderIPPool :=
  MkIPPool (plain_meta "" name "")
    (MkIPPoolSpec (Some IPv4) "10.0.0.0/24" [] [] None None None None [] None nodes multus None (Some disable)) (MkIPPoolStatus None None None).
Definition ex_sel_cache (name : string) : outcome SpiderIPPool :=
  if name == "plain"%string then Ret (ex_sel_pool name [] [] false)
  else if name == "here"%string then Ret (ex_sel_pool name ["node"] ["default"] false)
  else if name == "off"%string then Ret (ex_sel_pool name [] [] true)
  else if name == "there"%string then Ret (ex_sel_pool name ["other"] [] false) else Fail APINotFound.
Definition ex_sel_pod : Pod := MkPod (plain_meta "default" "web-0" "uid-0") "node" RestartAlways PodRunning "".
Definition ex_sel_args : IpamAddArgs := MkAddArgs "default" "web-0" "eth0" false [] [] None false.
Definition ex_sel_tt : ToBeAllocateds :=
  [MkToBeAllocated "eth0" false [MkCandidate IPv4 ["plain"; "off"; "there"; "here"] ∅; MkCandidate IPv6 ["six"] ∅]].
Definition ex_sel_out : ToBeAllocateds :=
  [MkToBeAllocated "eth0" false [MkCandidate IPv4 ["here"; "plain"]
     (<["here" := ex_sel_pool "here" ["node"] ["default"] false]> (<["plain" := ex_sel_pool "plain" [] [] false]> ∅))]].

Lemma refine_candidates_exact_witness :
  refine_candidates (MR := ordered_range) (JN := ex_nse_json) ex_sel_config ex_sel_cache (λ _, Fail APINotFound) (λ _, Fail APINotFound)
    (λ _ _, Ret []) ex_sel_args ex_sel_pod ex_top ex_sel_tt = Ret ex_sel_out ∧
  Forall2 (λ t t', t_NIC t' = t_NIC t ∧ t_CleanGateway t' = t_CleanGateway t ∧
    Forall2 (refines (MR := ordered_range) (JN := ex_nse_json) ex_sel_config ex_sel_cache (λ _, Fail APINotFound) (λ _, Fail APINotFound)
      (λ _ _, Ret []) ex_sel_args ex_sel_pod ex_top (t_NIC t))
      (filter (λ c, version_enabled ex_sel_config (pc_IPVersion c) = true) (PoolCandidates t)) (PoolCandidates t')) ex_sel_tt ex_sel_out.
Proof.
  split; [vm_compute; reflexivity|].
  apply (refine_candidates_exact (MR := ordered_range) (JN := ex_nse_json) ex_sel_config ex_sel_cache (λ _, Fail APINotFound)
    (λ _, Fail APINotFound) (λ _ _, Ret []) ex_sel_args ex_sel_pod ex_top ex_sel_tt ex_sel_out).
  - intros n p. unfold ex_sel_cache. repeat case_bool_decide; by intros [= <-].
  - apply Forall_singleton, Forall_cons. split; [|apply Forall_singleton]; intros n p; cbn; by rewrite lookup_empty.
  - vm_compute. reflexivity.
Defined.
