(* ===== verification/IPAMAllocate.v ===== *)
(** * pkg/ipam/allocate.go: allocating the addresses of a Pod

    [Allocate] (the CNI ADD of a Pod): it returns what the endpoint of the Pod already records, or
    allocates an address from the candidate pools of every NIC and version and records the results.
    The state is that of IPAMRelease.v: pools, endpoints and the cache of failed allocations. *)

From S2P Require Import Prelude NetIP NetIPFacts IPAddr Cidr IPRange K8s Retry ReservedIP Convert IPPoolManager PoolLease PoolUtils Workload Endpoint IPAMRelease Selector PoolSelection.
Local Open Scope Z_scope.
Local Open Scope go_scope.

(** [models.IpamAddResponse] *)
Definition IpamAddResponse : Type := list IPConfig * list (option OAIRoute).

Definition MigrationJobNameAnnotation : string := "kubevirt.io/migrationJobName".

(** ** utils.go: custom routes *)

Definition getCustomRoutes `{JSON (list (string * string))} (pod : Pod) : outcome (list (option OAIRoute)) :=
  match Annotations (pod_meta pod) !! AnnoPodRoutes with
  | None => Ret []
  | Some anno =>
      annoPodRoutes ← (unmarshal ErrWrongInput anno : outcome (list (string * string)));
      _ ← for_each (λ '(dst, gw), match IsRouteWithoutIPVersion dst gw with Fail _ => Fail ErrWrongInput | o => o end) annoPodRoutes;
      Ret (ConvertAnnoPodRoutesToOAIRoutes annoPodRoutes)
  end.

Definition add_route (r : AllocationResult) (route : OAIRoute) : AllocationResult :=
  MkResult (res_IP r) (res_Routes r ++ [Some (MkOAIRoute (Nic (res_IP r)) (oai_Dst route) (oai_Gw route))]) (res_CleanGateway r).

(** The inner loop: the routes whose gateway lies in the subnet go to the result. *)
Fixpoint take_routes (ipNet : IPNet) (customRoutes : list (option OAIRoute)) (res : AllocationResult)
    : outcome (AllocationResult * list (option OAIRoute)) :=
  match customRoutes with
  | [] => Ret (res, [])
  | route :: customRoutes =>
      r ← deref route;
      if net_contains ipNet (net_ParseIP (oai_Gw r)) then take_routes ipNet customRoutes (add_route res r)
      else '(res, rest) ← take_routes ipNet customRoutes res; Ret (res, route :: rest)
  end.

(** The results as they are when the loop ends, with the error that ended it. *)
Fixpoint group_routes (customRoutes : list (option OAIRoute)) (results : list AllocationResult) : outcome unit * list AllocationResult :=
  match results with
  | [] => (Ret (), [])
  | res :: results =>
      match net_ParseCIDR (Address (res_IP res)) with
      | None => (Fail (ErrOther "net.ParseCIDR"), res :: results)
      | Some (_, ipNet) =>
          match take_routes ipNet customRoutes res with
          | Ret (res, rest) => let '(o, results) := group_routes rest results in (o, res :: results)
          | Fail e => (Fail e, res :: results)
          | Panic => (Panic, res :: results)
          | OutOfFuel => (OutOfFuel, res :: results)
          end
      end
  end.

Definition groupCustomRoutes (customRoutes : list (option OAIRoute)) (results : list AllocationResult) : outcome unit * list AllocationResult :=
  match customRoutes with [] => (Ret (), results) | _ => group_routes customRoutes results end.

(** ** The answer in standard mode *)

(** The comparison given to [sort.Slice]. *)
Definition result_less (a b : AllocationResult) : bool :=
  match atoi (Nic (res_IP a)), atoi (Nic (res_IP b)) with Some x, Some y => x <? y | _, _ => false end.
Definition result_le (a b : AllocationResult) : Prop := result_less b a = false.
#[export] Instance result_le_dec : RelDecision result_le.
Proof. intros a b. unfold result_le. apply _. Defined.

Definition set_cfg_Nic (nic : string) (c : IPConfig) : IPConfig :=
  MkIPConfig (Address c) (EnableGatewayDetection c) (EnableIPConflictDetection c) (Gateway c) (cfg_IPPool c) (Mac c) nic (Version c) (cfg_Vlan c).

(** The first NIC is named, with its routes; a nil route is a nil dereference. *)
Definition name_first (r : AllocationResult) : outcome AllocationResult :=
  if Nic (res_IP r) == itoa 0 then
    routes ← map_m (λ route, r ← deref route; Ret (Some (MkOAIRoute ClusterDefaultInterfaceName (oai_Dst r) (oai_Gw r)))) (res_Routes r);
    Ret (MkResult (set_cfg_Nic ClusterDefaultInterfaceName (res_IP r)) routes (res_CleanGateway r))
  else Ret r.

Definition order_results (isMultipleNicWithNoName : bool) (results : list AllocationResult) : outcome (list AllocationResult) :=
  if isMultipleNicWithNoName then map_m name_first (merge_sort result_le results) else Ret results.

Section allocate.
Context `{MR : MapRange} `{SC : Schedule} `{J : JSON PoolIPAllocations}.
Context `{JI : JSON (list AnnoIPPoolItem)} `{JP : JSON AnnoPodIPPoolValue} `{JL : JSON (list string)}.
Context `{JN : JSON (list (option NetworkSelectionElement))} `{JR : JSON (list (string * string))}.
Context {S E : Type} `{KS : KubeStore S SpiderIPPool} `{ES : EndpointStore E}.
Context (config : IPAMConfig) (pconfig : IPPoolManagerConfig) (em : EndpointConfig).
(** For the calls on a pool, for a NIC: the reserved addresses that are cached, what other clients
    do meanwhile, and the end of the context; the limiter's answer. *)
Context (rIPs : string → string → nat → list SpiderReservedIP) (env : string → string → nat → S → S) (cancelled : nat → bool).
Context (acquire : list string → outcome unit).
(** Reads. *)
Context (get_pod : string → string → outcome Pod) (get_controller : string → string → string → outcome ObjectMeta).
Context (listed : Z → outcome (list SpiderIPPool)) (default_pools : outcome (list SpiderIPPool)).
Context (cached_pool : string → outcome SpiderIPPool) (get_node get_ns : string → outcome ObjectMeta).
Context (get_vmim : string → string → outcome unit) (pf_addrs : string → string → outcome (list IP)).
(** The subnet annotations and the call of the IaaS provider, which completes the results. *)
Context (from_subnet_anno : Pod → string → bool → PodTopController → cmd (world S E) (option ToBeAllocated)).
Context (callIaaSAllocate : Pod → list AllocationResult → outcome (list AllocationResult)).

(** ** From candidates to results *)

(** The result of an earlier, failed allocation for the NIC from one of the pools. *)
Fixpoint find_reuse (old : list AllocationResult) (pools : list SpiderIPPool) (nic : string) (cleanGateway : bool) : option AllocationResult :=
  match old with
  | [] => None
  | r :: old =>
      match list_find (λ p, cfg_IPPool (res_IP r) = Name (pool_meta p) ∧ Nic (res_IP r) = nic) pools with
      | Some (_, p) => Some (MkResult (res_IP r) (ConvertSpecRoutesToOAIRoutes nic (default [] (ps_Routes (pool_spec p)))) cleanGateway)
      | None => find_reuse old pools nic cleanGateway
      end
  end.

(** The pools are tried in order. *)
Fixpoint try_pools (c : PoolCandidate) (nic : string) (cleanGateway : bool) (pod : Pod) (podController : PodTopController) (pools : list string)
    : cmd (world S E) AllocationResult :=
  match pools with
  | [] => lift (Fail (ErrOther "failed to allocate any IP address"))
  | pool :: pools => λ w,
      match on_pools (AllocateIP pconfig (rIPs nic pool) (env nic pool) cancelled pool nic (pod_meta pod) podController) w with
      | (Ret ip, w') =>
          (ipPool ← lift (deref (PToIPPool c !! pool));
           mret (MkResult ip (ConvertSpecRoutesToOAIRoutes nic (default [] (ps_Routes (pool_spec ipPool)))) cleanGateway)) w'
      | (Fail _, w') => try_pools c nic cleanGateway pod podController pools w'
      | (Panic, w') => (Panic, w')
      | (OutOfFuel, w') => (OutOfFuel, w')
      end
  end.

(** The reused result is changed in place in the cache too; the cache entry is replaced or removed
    before it is read again. *)
Definition allocateIPFromCandidate (c : PoolCandidate) (nic : string) (cleanGateway : bool) (pod : Pod) (podController : PodTopController)
    : cmd (world S E) AllocationResult := λ w,
  match find_reuse (getFailureIPs w (UID (pod_meta pod))) (snd <$> range_kv (PToIPPool c)) nic cleanGateway with
  | Some r => (Ret r, w)
  | None => try_pools c nic cleanGateway pod podController (pc_Pools c) w
  end.

(** The goroutines: the results and the errors. *)
Fixpoint run_tasks (pod : Pod) (podController : PodTopController) (tasks : list (PoolCandidate * (string * bool)))
    : cmd (world S E) (list AllocationResult * list error) :=
  match tasks with
  | [] => mret ([], [])
  | (c, (nic, cleanGateway)) :: tasks => λ w,
      match allocateIPFromCandidate c nic cleanGateway pod podController w with
      | (Ret r, w') => ('(results, errs) ← run_tasks pod podController tasks; mret (r :: results, errs)) w'
      | (Fail e, w') => ('(results, errs) ← run_tasks pod podController tasks; mret (results, e :: errs)) w'
      | (Panic, w') => (Panic, w')
      | (OutOfFuel, w') => (OutOfFuel, w')
      end
  end.

Definition tasks_of (tt : ToBeAllocateds) : list (PoolCandidate * (string * bool)) :=
  tt ≫= λ t, (λ c, (c, (t_NIC t, t_CleanGateway t))) <$> PoolCandidates t.

(** The results come back with the error. *)
Definition allocateIPsFromAllCandidates (tt : ToBeAllocateds) (pod : Pod) (podController : PodTopController)
    : cmd (world S E) (list AllocationResult * option error) :=
  match acquire (tt_Pools tt) with
  | Fail e => mret ([], Some e)
  | Panic => lift Panic
  | OutOfFuel => lift OutOfFuel
  | Ret _ =>
      '(results, errs) ← run_tasks pod podController (reorder (tasks_of tt));
      mret (results, match errs with [] => None | e :: _ => Some e end)
  end.

Definition genToBeAllocatedSet (addArgs : IpamAddArgs) (pod : Pod) (podController : PodTopController) : cmd (world S E) ToBeAllocateds :=
  preliminary ← getPoolCandidates listed default_pools get_ns config from_subnet_anno addArgs pod podController;
  lift (refine_candidates config cached_pool get_node get_ns pf_addrs addArgs pod podController preliminary).

(** ** Standard mode *)

(** The deferred function when [err] is set. *)
Definition on_failure (isMultipleNicWithNoName : bool) (uid : string) (results : list AllocationResult) : cmd (world S E) unit :=
  if isMultipleNicWithNoName then rmFailureIPs uid
  else match results with [] => mret () | _ => addFailureIPs uid results end.

(** [return nil, err] after the deferred function. *)
Definition fail_after {A} (m : cmd (world S E) unit) (e : error) : cmd (world S E) A := _ ← m; lift (Fail e).

(** The part after the addresses are allocated.  The error of the IaaS provider is another
    variable than the one the deferred function reads. *)
Definition record_results (pod : Pod) (endpoint : option SpiderEndpoint) (podController : PodTopController) (multi : bool)
    (customRoutes : list (option OAIRoute)) (results : list AllocationResult) : cmd (world S E) IpamAddResponse :=
  let uid := UID (pod_meta pod) in
  match (if has_IaaSClient config then callIaaSAllocate pod results else Ret results) with
  | Fail e => fail_after (rmFailureIPs uid) e
  | Panic => lift Panic
  | OutOfFuel => lift OutOfFuel
  | Ret results =>
      match groupCustomRoutes customRoutes results with
      | (Fail e, results) => fail_after (on_failure multi uid results) e
      | (Panic, _) => lift Panic
      | (OutOfFuel, _) => lift OutOfFuel
      | (Ret _, results) => λ w,
          match on_eps (PatchIPAllocationResults em results endpoint pod podController multi) w with
          | (Ret _, w') =>
              (_ ← rmFailureIPs uid;
               results ← lift (order_results multi results);
               mret (ConvertResultsToIPConfigsAndAllRoutes results)) w'
          | (Fail e, w') => fail_after (on_failure multi uid results) e w'
          | (Panic, w') => (Panic, w')
          | (OutOfFuel, w') => (OutOfFuel, w')
          end
      end
  end.

Definition allocateInStandardMode (addArgs : IpamAddArgs) (pod : Pod) (endpoint : option SpiderEndpoint) (podController : PodTopController)
    : cmd (world S E) IpamAddResponse :=
  let multi := IsMultipleNicWithNoName (Annotations (pod_meta pod)) in
  customRoutes ← lift (getCustomRoutes pod);
  toBeAllocatedSet ← genToBeAllocatedSet addArgs pod podController;
  '(results, err) ← allocateIPsFromAllCandidates toBeAllocatedSet pod podController;
  match err with
  | Some e => fail_after (on_failure multi (UID (pod_meta pod)) results) e
  | None => record_results pod endpoint podController multi customRoutes results
  end.

(** ** Existing allocations *)

(** An endpoint object in memory is deleted, unless it is being deleted, and its finalizer removed. *)
Definition drop_endpoint (endpoint : SpiderEndpoint) : cmd (world S E) SpiderEndpoint :=
  _ ← (if DeletionTimestamp (ep_meta endpoint) == None then on_eps (DeleteEndpoint endpoint) else mret ());
  on_eps (RemoveFinalizer endpoint).

Definition respond (details : list IPAllocationDetail) (conflict : bool) : cmd (world S E) (option IpamAddResponse) :=
  r ← lift (ConvertIPDetailsToIPConfigsAndAllRoutes details conflict (ipam_EnableGatewayDetection config));
  mret (Some r).

Definition retrieveExistingIPAllocation (uid nic : string) (endpoint : option SpiderEndpoint) (isMultipleNicWithNoName : bool)
    : cmd (world S E) (option IpamAddResponse) :=
  match endpoint with
  | None => mret None
  | Some ep =>
      if ep_UID (current_of ep) != uid then _ ← drop_endpoint ep; mret None
      else
        match RetrieveIPAllocation uid nic (Some ep) false with
        | None => mret None
        | Some _ =>
            ep ← (if isMultipleNicWithNoName then on_eps (UpdateAllocationNICName ep nic) else mret ep);
            respond (ep_IPs (current_of ep)) (ipam_EnableIPConflictDetection config)
        end
  end.

Fixpoint update_pools (namespaceKey : string) (pius : list (string * list IPAndUID)) : cmd (world S E) (list error) :=
  match pius with
  | [] => mret []
  | (pool, ius) :: pius => λ w,
      match on_pools (UpdateAllocatedIPs (env "" pool) cancelled pool namespaceKey ius) w with
      | (Ret _, w') => update_pools namespaceKey pius w'
      | (Fail e, w') => (errs ← update_pools namespaceKey pius; mret (e :: errs)) w'
      | (Panic, w') => (Panic, w')
      | (OutOfFuel, w') => (OutOfFuel, w')
      end
  end.

Definition reallocateIPPoolIPRecords (uid : string) (endpoint : SpiderEndpoint) : cmd (world S E) unit :=
  let namespaceKey := MetaNamespaceKey (ep_meta endpoint) in
  pius ← lift (GroupIPAllocationDetails uid (ep_IPs (current_of endpoint)));
  _ ← lift (acquire (Pools pius));
  errs ← update_pools namespaceKey (range_kv pius);
  match errs with [] => mret () | _ => lift (Fail (ErrOther "failed to re-allocate all allocated IP addresses")) end.

(** Whether addresses are checked for conflicts: not for the Pod a virtual machine moves to. *)
Definition IsDetectGatewayReachableForKubeVirtPod (pod : Pod) : outcome bool :=
  if negb (ipam_EnableIPConflictDetection config) then Ret false
  else
    match GetControllerOf (pod_meta pod) with
    | None => Ret true
    | Some ref =>
        if negb (cfg_EnableKubevirtStaticIP config) || (or_APIVersion ref != KubevirtGroupVersion)
           || (or_Kind ref != KindKubevirtVMI) then Ret true
        else
          match Annotations (pod_meta pod) !! MigrationJobNameAnnotation with
          | None => Ret true
          | Some vmimName =>
              match get_vmim (Namespace (pod_meta pod)) vmimName with
              | Ret _ => Ret false
              | Fail e => if e == APINotFound then Ret true else Fail e
              | Panic => Panic
              | OutOfFuel => OutOfFuel
              end
          end
    end.

Definition retrieveStaticIPAllocation (nic : string) (pod : Pod) (endpoint : option SpiderEndpoint) : cmd (world S E) (option IpamAddResponse) :=
  match RetrieveIPAllocation (UID (pod_meta pod)) nic endpoint true, endpoint with
  | Some _, Some ep =>
      _ ← reallocateIPPoolIPRecords (UID (pod_meta pod)) ep;
      ep ← on_eps (ReallocateCurrentIPAllocation (UID (pod_meta pod)) (NodeName pod) nic ep
                     (IsMultipleNicWithNoName (Annotations (pod_meta pod))));
      conflict ← lift (IsDetectGatewayReachableForKubeVirtPod pod);
      respond (ep_IPs (current_of ep)) conflict
  | _, _ => mret None
  end.

(** ** StatefulSet Pods whose pools have changed *)

(** What the loop decides for a detail: keep it, release it, or stop and release all. *)
Inductive verdict := Keep | Outdated | Stop.

Definition pool_map (preliminary : ToBeAllocateds) : gmap string (gset string) :=
  foldl (λ m t, <[t_NIC t := default ∅ (m !! t_NIC t) ∪ list_to_set (t_Pools t)]> m) ∅ preliminary.

Definition check_family (poolMap : gmap string (gset string)) (ifName : string) (multi : bool) (index : Z) (nic : string) (pool : option string)
    : verdict :=
  match pool with
  | None | Some EmptyString => Keep
  | Some p =>
      if multi && negb (bool_decide (p ∈ default ∅ (poolMap !! itoa index))) then Stop
      else if negb (bool_decide (p ∈ default ∅ (poolMap !! nic))) && (nic == ifName) then Outdated
      else Keep
  end.

Definition check_detail (poolMap : gmap string (gset string)) (ifName : string) (multi : bool) (index : Z) (ip : IPAllocationDetail) : verdict :=
  match check_family poolMap ifName multi index (NIC ip) (IPv4Pool ip) with
  | Keep => check_family poolMap ifName multi index (NIC ip) (IPv6Pool ip)
  | v => v
  end.

(** The flag, the details to release and those to keep. *)
Fixpoint scan_details (poolMap : gmap string (gset string)) (ifName : string) (multi : bool) (index : Z) (ips : list IPAllocationDetail)
    : bool * list IPAllocationDetail * list IPAllocationDetail :=
  match ips with
  | [] => (false, [], [])
  | ip :: ips =>
      match check_detail poolMap ifName multi index ip with
      | Stop => (true, [], [])
      | Outdated => let '(_, need, no) := scan_details poolMap ifName multi (index + 1) ips in (true, ip :: need, no)
      | Keep => let '(flag, need, no) := scan_details poolMap ifName multi (index + 1) ips in (flag, need, ip :: no)
      end
  end.

(** Whether something was released, and the endpoint object as it is then. *)
Definition releaseStsOutdatedIPIfNeed (addArgs : IpamAddArgs) (pod : Pod) (endpoint : SpiderEndpoint) (podTopController : PodTopController)
    (isMultipleNicWithNoName : bool) : cmd (world S E) (bool * SpiderEndpoint) :=
  preliminary ← getPoolCandidates listed default_pools get_ns config from_subnet_anno addArgs pod podTopController;
  let ips := ep_IPs (current_of endpoint) in
  let '(releaseEndpointIPsFlag, needRelease, noRelease) := scan_details (pool_map preliminary) (aa_IfName addArgs) isMultipleNicWithNoName 0 ips in
  if negb releaseEndpointIPsFlag then mret (false, endpoint)
  else if isMultipleNicWithNoName || (length needRelease == length ips) then
    ep ← drop_endpoint endpoint;
    _ ← release (env "") cancelled acquire (ep_UID (current_of endpoint)) ips;
    mret (true, ep)
  else
    ep ← on_eps (PatchEndpointAllocationIPs endpoint noRelease);
    _ ← release (env "") cancelled acquire (ep_UID (current_of endpoint)) needRelease;
    mret (true, ep).

(** ** Allocate *)

Definition find_endpoint (namespace name : string) : cmd (world S E) (option SpiderEndpoint) := λ w,
  match on_eps (GetEndpointByName namespace name true) w with
  | (Ret ep, w') => (Ret (Some ep), w')
  | (Fail e, w') => (if e == APINotFound then Ret None else Fail e, w')
  | (Panic, w') => (Panic, w')
  | (OutOfFuel, w') => (OutOfFuel, w')
  end.

(** An endpoint of another Pod of the same name is not the one to record in. *)
Definition own_endpoint (pod : Pod) (endpoint : option SpiderEndpoint) : option SpiderEndpoint :=
  match endpoint with
  | Some ep => if ep_UID (current_of ep) == UID (pod_meta pod) then endpoint else None
  | None => None
  end.

(** The answer from what is recorded, and the endpoint object as it is then. *)
Definition retrieve (addArgs : IpamAddArgs) (pod : Pod) (endpoint : option SpiderEndpoint) (podTopController : PodTopController)
    : cmd (world S E) (option IpamAddResponse * option SpiderEndpoint) :=
  let multi := IsMultipleNicWithNoName (Annotations (pod_meta pod)) in
  if cfg_EnableStatefulSet config && is_sts podTopController then
    match endpoint with
    | Some ep =>
        '(released, ep) ← releaseStsOutdatedIPIfNeed addArgs pod ep podTopController multi;
        if released : bool then mret (None, Some ep)
        else r ← retrieveStaticIPAllocation (aa_IfName addArgs) pod (Some ep); mret (r, Some ep)
    | None => r ← retrieveStaticIPAllocation (aa_IfName addArgs) pod None; mret (r, None)
    end
  else if cfg_EnableKubevirtStaticIP config && is_vmi podTopController then
    r ← retrieveStaticIPAllocation (aa_IfName addArgs) pod endpoint; mret (r, endpoint)
  else
    r ← retrieveExistingIPAllocation (UID (pod_meta pod)) (aa_IfName addArgs) endpoint multi; mret (r, endpoint).

Definition Allocate (addArgs : IpamAddArgs) : cmd (world S E) IpamAddResponse :=
  pod ← lift (get_pod (aa_PodNamespace addArgs) (aa_PodName addArgs));
  if negb (IsPodAlive (Some pod)) then lift (Fail (ErrOther "dead Pod"))
  else
    podTopController ← lift (GetPodTopController get_controller pod);
    let endpointName := if cfg_EnableKubevirtStaticIP config && is_vmi podTopController
                        then app_Name (top_app podTopController) else Name (pod_meta pod) in
    endpoint ← find_endpoint (Namespace (pod_meta pod)) endpointName;
    '(addResp, endpoint) ← retrieve addArgs pod endpoint podTopController;
    match addResp with
    | Some r => mret r
    | None => allocateInStandardMode addArgs pod (own_endpoint pod endpoint) podTopController
    end.
End allocate.

(** ** What an allocation leaves alone *)

(** A command that is continued according to its outcome. *)
Lemma evolves_handle {W A B} (R : W → W → Prop) `{!PreOrder R} (m : cmd W A) (f : A → cmd W B) (g : error → cmd W B) :
  evolves R m → (∀ a, evolves R (f a)) → (∀ e, evolves R (g e)) →
  evolves R (λ w, match m w with
                  | (Ret a, w') => f a w'
                  | (Fail e, w') => g e w'
                  | (Panic, w') => (Panic, w')
                  | (OutOfFuel, w') => (OutOfFuel, w')
                  end).
Proof.
  intros Hm Hf Hg w. specialize (Hm w). destruct (m w) as [[a|e| |] w']; cbn in *; [| |done..]; etrans; try exact Hm; [apply Hf|apply Hg].
Qed.


Section facts.
Context `{MR : MapRange} `{SC : Schedule} `{J : JSON PoolIPAllocations} `{JLaws : !JSONLaws PoolIPAllocations}.
Context `{JI : JSON (list AnnoIPPoolItem)} `{JP : JSON AnnoPodIPPoolValue} `{JL : JSON (list string)}.
Context `{JN : JSON (list (option NetworkSelectionElement))} `{JR : JSON (list (string * string))}.
Context {S E : Type} `{KS : KubeStore S SpiderIPPool} `{KL : !KubeStoreLaws S SpiderIPPool} `{ES : EndpointStore E}.
Context (config : IPAMConfig) (pconfig : IPPoolManagerConfig) (em : EndpointConfig).
Context (rIPs : string → string → nat → list SpiderReservedIP) (env : string → string → nat → S → S) (cancelled : nat → bool).
Context (acquire : list string → outcome unit).
Context (get_pod : string → string → outcome Pod) (get_controller : string → string → string → outcome ObjectMeta).
Context (listed : Z → outcome (list SpiderIPPool)) (default_pools : outcome (list SpiderIPPool)).
Context (cached_pool : string → outcome SpiderIPPool) (get_node get_ns : string → outcome ObjectMeta).
Context (get_vmim : string → string → outcome unit) (pf_addrs : string → string → outcome (list IP)).
Context (from_subnet_anno : Pod → string → bool → PodTopController → cmd (world S E) (option ToBeAllocated)).
Context (callIaaSAllocate : Pod → list AllocationResult → outcome (list AllocationResult)).
Section guarantee.
Context {U N : string → Prop} {Gr : PoolIPAllocation → Prop} (Q : lease_table → lease_table → Prop) `{G : !Guarantee U N Gr Q}.
Context (Henv : ∀ nic pool i s, guaranteed Q s (env nic pool i s)).

Local Abbreviation kept := (evolves (guaranteed_world (E := E) Q)).

Context (Hsub : ∀ pod nic clean top, kept (from_subnet_anno pod nic clean top)).

#[local] Hint Resolve evolves_on_pools evolves_on_eps evolves_deferred : evolves.
#[local] Hint Extern 0 (PreOrder _) => apply (guaranteed_world_preorder Q) : evolves.

Lemma modify_cache_guaranteed (f : gmap string (list AllocationResult) → gmap string (list AllocationResult)) :
  kept (modify (λ w, MkWorld (w_pools w) (w_eps w) (f (entries w)))).
Proof. apply evolves_modify. intros w. apply (guaranteed_preorder Q). Qed.

Lemma rmFailureIPs_guaranteed uid : kept (rmFailureIPs uid).
Proof. apply modify_cache_guaranteed. Qed.
Lemma addFailureIPs_guaranteed uid results : kept (addFailureIPs uid results).
Proof. apply (modify_cache_guaranteed (insert uid results)). Qed.
#[local] Hint Resolve rmFailureIPs_guaranteed addFailureIPs_guaranteed : evolves.

Lemma try_pools_guaranteed c nic clean pod top pools :
  (∀ r, PodUID r = UID (pod_meta pod) → Gr r) → kept (try_pools pconfig rIPs env cancelled c nic clean pod top pools).
Proof.
  intros HG. induction pools as [|pool pools IH]; cbn [try_pools]; [eauto with evolves|].
  apply (evolves_handle _ _ (λ ip, _) (λ _, _)); [|eauto with evolves|done].
  apply evolves_on_pools, (AllocateIP_guaranteed Q); [apply Henv|]. intros key. by apply HG.
Qed.

Lemma run_tasks_guaranteed pod top tasks : (∀ r, PodUID r = UID (pod_meta pod) → Gr r) → kept (run_tasks pconfig rIPs env cancelled pod top tasks).
Proof.
  intros HG. induction tasks as [|[c [nic clean]] tasks IH]; cbn [run_tasks]; [eauto with evolves|].
  apply (evolves_handle _ _ (λ r, _) (λ e, _)).
  - intros w. unfold allocateIPFromCandidate. destruct (find_reuse _ _ _ _); [cbn; reflexivity|by apply try_pools_guaranteed].
  - intros a. apply evolves_bind; [apply _|done|]. intros [results errs]. eauto with evolves.
  - intros e. apply evolves_bind; [apply _|done|]. intros [results errs]. eauto with evolves.
Qed.

Lemma getPoolCandidates_guaranteed addArgs pod top : kept (getPoolCandidates listed default_pools get_ns config from_subnet_anno addArgs pod top).
Proof.
  unfold getPoolCandidates, from_subnet. apply evolves_bind; [apply _| |intros [t|]; eauto with evolves].
  repeat (apply evolves_if; [|eauto with evolves]). apply Hsub.
Qed.

Lemma on_failure_guaranteed multi uid results : kept (on_failure multi uid results).
Proof. unfold on_failure. apply evolves_if; [eauto with evolves|]. destruct results; eauto with evolves. Qed.
Lemma fail_after_guaranteed {A} m e : kept m → kept (fail_after (A := A) m e).
Proof. intros Hm. unfold fail_after. eauto with evolves. Qed.
#[local] Hint Resolve on_failure_guaranteed fail_after_guaranteed : evolves.

Lemma record_results_guaranteed pod ep top multi customRoutes results :
  kept (record_results config em callIaaSAllocate pod ep top multi customRoutes results).
Proof.
  unfold record_results. destruct (if has_IaaSClient config then _ else _) as [results'|e| |]; [|eauto with evolves..].
  destruct (groupCustomRoutes _ _) as [[u|e| |] results'']; [|eauto with evolves..].
  apply (evolves_handle _ _ (λ _, _) (λ e, _)); eauto 10 with evolves.
Qed.

Lemma allocateInStandardMode_guaranteed addArgs pod ep top :
  (∀ r, PodUID r = UID (pod_meta pod) → Gr r) →
  kept (allocateInStandardMode config pconfig em rIPs env cancelled acquire listed default_pools cached_pool get_node get_ns pf_addrs
    from_subnet_anno callIaaSAllocate addArgs pod ep top).
Proof.
  intros HG. unfold allocateInStandardMode, genToBeAllocatedSet. apply evolves_bind; [apply _|eauto with evolves|]. intros routes.
  apply evolves_bind; [apply _| |].
  { apply evolves_bind; [apply _|apply getPoolCandidates_guaranteed|eauto with evolves]. }
  intros tt. apply evolves_bind; [apply _| |].
  - unfold allocateIPsFromAllCandidates. destruct (acquire _); [|eauto with evolves..].
    apply evolves_bind; [apply _|by apply run_tasks_guaranteed|]. intros [results errs]. eauto with evolves.
  - intros [results [e|]]; [eauto with evolves|apply record_results_guaranteed].
Qed.

(** *** Existing allocations *)

Lemma drop_endpoint_guaranteed ep : kept (drop_endpoint ep).
Proof. unfold drop_endpoint. apply evolves_bind; [apply _|apply evolves_if; eauto with evolves|eauto with evolves]. Qed.
#[local] Hint Resolve drop_endpoint_guaranteed : evolves.

Lemma respond_guaranteed details b : kept (respond config details b).
Proof. unfold respond. eauto with evolves. Qed.
#[local] Hint Resolve respond_guaranteed : evolves.

Lemma retrieveExisting_guaranteed uid nic ep multi : kept (retrieveExistingIPAllocation config uid nic ep multi).
Proof.
  unfold retrieveExistingIPAllocation. destruct ep as [ep|]; [|eauto with evolves]. apply evolves_if; [eauto with evolves|].
  destruct (RetrieveIPAllocation _ _ _ _); [|eauto with evolves]. apply evolves_bind; [apply _|apply evolves_if; eauto with evolves|].
  eauto with evolves.
Qed.

Lemma update_pools_guaranteed nn pius :
  N nn → (∀ pool ius iu, (pool, ius) ∈ pius → iu ∈ ius → Gr (MkPoolIPAllocation nn (iu_UID iu))) → kept (update_pools env cancelled nn pius).
Proof.
  intros Hnn. induction pius as [|[pool ius] pius IH]; intros HG; cbn [update_pools]; [eauto with evolves|].
  assert (kept (update_pools env cancelled nn pius)) as Hrest.
  { apply IH. intros pool' ius' iu Hin. apply (HG pool' ius'). by apply list_elem_of_further. }
  apply (evolves_handle _ _ (λ _, _) (λ e, _)); [|done|eauto with evolves].
  apply evolves_on_pools, (UpdateAllocatedIPs_guaranteed Q); [apply Henv|done|]. intros iu. apply (HG pool ius), list_elem_of_here.
Qed.

Lemma retrieveStatic_guaranteed nic pod ep :
  (∀ r, PodUID r = UID (pod_meta pod) → Gr r) → (∀ e, ep = Some e → N (MetaNamespaceKey (ep_meta e))) →
  kept (retrieveStaticIPAllocation config env cancelled acquire get_vmim nic pod ep).
Proof.
  intros HG Hep. unfold retrieveStaticIPAllocation. destruct ep as [ep|]; [|cbn; eauto with evolves].
  destruct (RetrieveIPAllocation _ _ _ _); [|eauto with evolves].
  apply evolves_bind; [apply _| |intros _].
  2:{ apply evolves_bind; [apply _|eauto with evolves|]. intros ep'. apply evolves_bind; [apply _|eauto with evolves|]. eauto with evolves. }
  unfold reallocateIPPoolIPRecords. apply evolves_lift_bind; [apply _|]. intros pius Hp.
  apply evolves_bind; [apply _|eauto with evolves|]. intros _. apply evolves_bind; [apply _|apply update_pools_guaranteed; [by apply Hep|]|].
  { intros pool ius iu Hin Hiu. apply elem_of_range_kv in Hin. apply HG. by rewrite (GroupIPAllocationDetails_uid _ _ _ _ _ _ Hp Hin Hiu). }
  intros errs. destruct errs; eauto with evolves.
Qed.

Lemma releaseStsOutdated_guaranteed addArgs pod ep top multi :
  U (ep_UID (current_of ep)) →
  kept (releaseStsOutdatedIPIfNeed config env cancelled acquire listed default_pools get_ns from_subnet_anno addArgs pod ep top multi).
Proof.
  intros Hu. unfold releaseStsOutdatedIPIfNeed. apply evolves_bind; [apply _|apply getPoolCandidates_guaranteed|]. intros preliminary.
  destruct (scan_details _ _ _ _ _) as [[flag need] no]. apply evolves_if; [eauto with evolves|].
  assert (∀ details, kept (release (env "") cancelled acquire (ep_UID (current_of ep)) details)) as Hrel.
  { intros details. by apply (release_guaranteed (env "") cancelled acquire Q (Henv "")). }
  apply evolves_if; eauto 10 with evolves.
Qed.

(** When nothing is released the endpoint object is the one that was read. *)
Lemma releaseStsOutdated_same addArgs pod ep top multi w ep' w' :
  releaseStsOutdatedIPIfNeed (E := E) config env cancelled acquire listed default_pools get_ns from_subnet_anno addArgs pod ep top multi w
    = (Ret (false, ep'), w') → ep' = ep.
Proof.
  unfold releaseStsOutdatedIPIfNeed. intros (pre & w1 & _ & H)%cmd_bind_Ret. destruct (scan_details _ _ _ _ _) as [[flag need] no].
  destruct (negb flag); [unfold mret, cmd_ret in H; congruence|]. destruct (multi || _);
    apply cmd_bind_Ret in H as (? & ? & _ & H); apply cmd_bind_Ret in H as (? & ? & _ & H); unfold mret, cmd_ret in H; congruence.
Qed.

Lemma retrieve_guaranteed addArgs pod ep top :
  (∀ r, PodUID r = UID (pod_meta pod) → Gr r) → (∀ e, ep = Some e → U (ep_UID (current_of e)) ∧ N (MetaNamespaceKey (ep_meta e))) →
  kept (retrieve config env cancelled acquire listed default_pools get_ns get_vmim from_subnet_anno addArgs pod ep top).
Proof.
  intros HG Hep. assert (kept (x ← retrieveStaticIPAllocation config env cancelled acquire get_vmim (aa_IfName addArgs) pod ep; mret (x, ep))) as Hs.
  { apply evolves_bind; [apply _|apply retrieveStatic_guaranteed; [done|]|eauto with evolves]. intros e He. by apply (Hep e He). }
  unfold retrieve. apply evolves_if; [|by apply evolves_if; [|apply evolves_bind; [apply _|apply retrieveExisting_guaranteed|eauto with evolves]]].
  destruct ep as [ep|]; [|exact Hs]. set (multi := IsMultipleNicWithNoName _). destruct (Hep ep eq_refl) as [Hu _]. intros w.
  unfold mbind at 1, cmd_bind at 1. pose proof (releaseStsOutdated_guaranteed addArgs pod ep top multi Hu w) as Hr.
  destruct (releaseStsOutdatedIPIfNeed _ _ _ _ _ _ _ _ _ _ _ _ _ w) as [[[[|] ep']|e| |] w'] eqn:Er; cbn in Hr; [exact Hr| |exact Hr..].
  apply releaseStsOutdated_same in Er as ->. etrans; [exact Hr|]. apply Hs.
Qed.

Lemma Allocate_guaranteed addArgs w :
  (∀ pod, get_pod (aa_PodNamespace addArgs) (aa_PodName addArgs) = Ret pod → ∀ r, PodUID r = UID (pod_meta pod) → Gr r) →
  (∀ pod top, get_pod (aa_PodNamespace addArgs) (aa_PodName addArgs) = Ret pod → GetPodTopController get_controller pod = Ret top →
   ∀ name ep, ep_get (w_eps w) true (NamespacedKey (Namespace (pod_meta pod)) name) = Ret ep →
     name = Name (pod_meta pod) ∨ name = app_Name (top_app top) → U (ep_UID (current_of ep)) ∧ N (MetaNamespaceKey (ep_meta ep))) →
  guaranteed_world (E := E) Q w (Allocate config pconfig em rIPs env cancelled acquire get_pod get_controller listed default_pools
    cached_pool get_node get_ns get_vmim pf_addrs from_subnet_anno callIaaSAllocate addArgs w).2.
Proof.
  intros HG Hep. unfold Allocate. unfold mbind at 1, cmd_bind at 1. destruct (get_pod _ _) as [pod|e| |]; cbn [lift]; [|reflexivity..]. specialize (HG pod eq_refl).
  destruct (IsPodAlive (Some pod)); cbn [negb]; [|reflexivity].
  unfold mbind at 1, cmd_bind at 1. destruct (GetPodTopController _ _) as [top|e| |] eqn:Et; cbn [lift]; [|reflexivity..].
  set (name := if _ && _ then _ else _). specialize (Hep pod top eq_refl Et name).
  assert (name = Name (pod_meta pod) ∨ name = app_Name (top_app top)) as Hname by (unfold name; case_match; auto).
  unfold mbind at 1, cmd_bind at 1. unfold find_endpoint, on_eps, GetEndpointByName, read.
  replace (MkWorld (w_pools w) (w_eps w) (entries w)) with w by (by destruct w).
  destruct (ep_get _ _ _) as [ep|e| |]; cbn [fst snd]; [|case_bool_decide; [|reflexivity]|reflexivity..].
  1: specialize (Hep ep eq_refl Hname).
  all: apply (evolves_bind (guaranteed_world Q)); [apply retrieve_guaranteed; naive_solver|].
  all: intros [[resp|] ep']; [eauto with evolves|by apply allocateInStandardMode_guaranteed].
Qed.
End guarantee.

(** C5: an allocation for one Pod never takes an address from another workload.  Whatever
    [Allocate] does for a Pod - retrieve, refresh, release outdated addresses, allocate, fail - a
    record of any pool survives it, unless its UID is the one recorded in the Pod's endpoint or
    its name is that of the endpoint, as long as the other clients and the creation of pools for
    subnet annotations keep it. *)
Theorem Allocate_spares_others (poolName k : string) (r : PoolIPAllocation) addArgs pod top w :
  (∀ nic pool i s, guaranteed (keeps_lease poolName k r) s (env nic pool i s)) →
  (∀ pod nic clean top, evolves (guaranteed_world (E := E) (keeps_lease poolName k r)) (from_subnet_anno pod nic clean top)) →
  valid (w_pools w) → recorded poolName k r (w_pools w) →
  get_pod (aa_PodNamespace addArgs) (aa_PodName addArgs) = Ret pod → GetPodTopController get_controller pod = Ret top →
  (∀ name ep, ep_get (w_eps w) true (NamespacedKey (Namespace (pod_meta pod)) name) = Ret ep →
     name = Name (pod_meta pod) ∨ name = app_Name (top_app top) →
     ep_UID (current_of ep) ≠ PodUID r ∧ MetaNamespaceKey (ep_meta ep) ≠ NamespacedName r) →
  recorded poolName k r (w_pools (Allocate config pconfig em rIPs env cancelled acquire get_pod get_controller listed default_pools
    cached_pool get_node get_ns get_vmim pf_addrs from_subnet_anno callIaaSAllocate addArgs w).2).
Proof.
  intros Henv Hsub Hv Hrec Hpod Htop Hep. eapply keeps_recorded; [|exact Hrec].
  apply (Allocate_guaranteed (keeps_lease poolName k r) Henv Hsub addArgs); [done| |done].
  intros pod' top' Hp Ht. rewrite Hpod in Hp. injection Hp as <-. rewrite Htop in Ht. injection Ht as <-. exact Hep.
Qed.

(** *** Whose leases change *)

(** The endpoint of the Pod, under its own name or that of its controller. *)
Definition endpoint_of_pod (w : world S E) (pod : Pod) (top : PodTopController) (ep : SpiderEndpoint) : Prop :=
  ∃ name, (name = Name (pod_meta pod) ∨ name = app_Name (top_app top)) ∧
    ep_get (w_eps w) true (NamespacedKey (Namespace (pod_meta pod)) name) = Ret ep.
(** What an ADD of the Pod may do: revoke what is recorded under the UID of its endpoint (or under
    one of [U0]), renew what is recorded for the name of its endpoint, and grant and renew under the
    UID of the Pod only. *)
Definition add_step (U0 : string → Prop) (w : world S E) (pod : Pod) (top : PodTopController) : lease_table → lease_table → Prop :=
  lease_step (λ u, U0 u ∨ ∃ ep, endpoint_of_pod w pod top ep ∧ u = ep_UID (current_of ep))
    (λ n, ∃ ep, endpoint_of_pod w pod top ep ∧ n = MetaNamespaceKey (ep_meta ep)) (λ r, PodUID r = UID (pod_meta pod)).
(** What a release under the UIDs [U] may do: revoke their leases. *)
Definition del_step (U : string → Prop) : lease_table → lease_table → Prop := lease_step U (λ _, False) (λ _, False).

(** An allocation, however it ends, is a sequence of such steps, between those of other clients. *)
Lemma Allocate_add_steps U0 others addArgs pod top w :
  get_pod (aa_PodNamespace addArgs) (aa_PodName addArgs) = Ret pod → GetPodTopController get_controller pod = Ret top →
  (∀ nic pool i s, guaranteed (rtc (beside others (add_step U0 w pod top))) s (env nic pool i s)) →
  (∀ pod' nic clean top', evolves (guaranteed_world (E := E) (rtc (beside others (add_step U0 w pod top)))) (from_subnet_anno pod' nic clean top')) →
  guaranteed_world (E := E) (rtc (beside others (add_step U0 w pod top))) w
    (Allocate config pconfig em rIPs env cancelled acquire get_pod get_controller listed default_pools
       cached_pool get_node get_ns get_vmim pf_addrs from_subnet_anno callIaaSAllocate addArgs w).2.
Proof.
  intros Hp Ht Henv Hsub. refine (Allocate_guaranteed _ Henv Hsub addArgs w _ _).
  - intros pod' Hp'. rewrite Hp in Hp'. by injection Hp' as <-.
  - intros pod' top' Hp' Ht' name ep Hep Hname. rewrite Hp in Hp'. injection Hp' as <-. rewrite Ht in Ht'. injection Ht' as <-.
    assert (endpoint_of_pod w pod top ep) by (exists name; auto). split; [right|]; by exists ep.
Qed.
End facts.

(** ** What an allocation grants *)

Section grants.
Context `{MR : MapRange} `{SC : Schedule} `{J : JSON PoolIPAllocations} `{JLaws : !JSONLaws PoolIPAllocations}.
Context {S E : Type} `{KS : KubeStore S SpiderIPPool} `{KL : !KubeStoreLaws S SpiderIPPool} `{ES : EndpointStore E}.
Context (pconfig : IPPoolManagerConfig) (max : Z) (Hmax : MaxAllocatedIPs pconfig = Some max).
Context (rIPs : string → string → nat → list SpiderReservedIP) (env : string → string → nat → S → S) (cancelled : nat → bool).
Context (acquire : list string → outcome unit) (Henv : ∀ nic pool i s, valid s → later s (env nic pool i s)).
Context (pod : Pod) (top : PodTopController).

(** At one moment between [s] and [s'] an address of the pool was taken for the Pod. *)
Definition granted (nic pool : string) (cfg : IPConfig) (s s' : S) : Prop :=
  ∃ i sc s1 p q, later s sc ∧ later sc s1 ∧ later s1 s' ∧ view sc !! pool = Some p ∧ view s1 = <[pool := q]> (view sc) ∧
    takes pconfig (rIPs nic pool i) (pod_meta pod) top cfg p q.

(** A result for a candidate and a NIC: what an earlier allocation had left in the cache for one
    of the pools, or an address that is granted. *)
Definition serves (old : list AllocationResult) (task : PoolCandidate * (string * bool)) (r : AllocationResult) (s s' : S) : Prop :=
  let '(c, (nic, cleanGateway)) := task in
  Nic (res_IP r) = nic ∧ res_CleanGateway r = cleanGateway ∧
  ((∃ o n p, o ∈ old ∧ res_IP r = res_IP o ∧ PToIPPool c !! n = Some p ∧ cfg_IPPool (res_IP r) = Name (pool_meta p)) ∨
   (∃ pool, pool ∈ pc_Pools c ∧ granted nic pool (res_IP r) s s')).

Lemma serves_mono old task r s0 s s' s1 : later s0 s → later s' s1 → serves old task r s s' → serves old task r s0 s1.
Proof.
  intros H0 H1. destruct task as [c [nic clean]]. intros (? & ? & [?|(pool & ? & i & sc & t & p & q & L0 & L & L1 & Hr)]); split_and!; auto.
  right. exists pool. split; [done|]. exists i, sc, t, p, q. split_and!; [by etrans|done|by etrans|apply Hr..].
Qed.

Lemma find_reuse_spec old pools nic clean r :
  find_reuse old pools nic clean = Some r →
  Nic (res_IP r) = nic ∧ res_CleanGateway r = clean ∧ ∃ o p, o ∈ old ∧ p ∈ pools ∧ res_IP r = res_IP o ∧ cfg_IPPool (res_IP r) = Name (pool_meta p).
Proof.
  induction old as [|o old IH]; cbn [find_reuse]; [done|]. destruct (list_find _ pools) as [[i p]|] eqn:Ef.
  - intros [= <-]. apply list_find_Some in Ef as (Hp & [Hn Hnic] & _). split_and!; [done..|]. exists o, p.
    split_and!; [apply list_elem_of_here|by apply list_elem_of_lookup_2 in Hp|done..].
  - intros (? & ? & o' & p & ? & ?)%IH. split_and!; [done..|]. exists o', p. split; [by apply list_elem_of_further|done].
Qed.

(** The cache of failures stays as it is. *)
Definition advances (w w' : world S E) : Prop := entries w' = entries w ∧ moves (w_pools w) (w_pools w').

#[local] Instance advances_preorder : PreOrder advances.
Proof.
  split; [by intros w|]. intros w1 w2 w3 [E1 M1] [E2 M2]. split; [by rewrite E2|by etrans].
Qed.

Lemma try_pools_advances c nic clean pools : evolves advances (try_pools pconfig rIPs env cancelled c nic clean pod top pools).
Proof.
  induction pools as [|pool pools IH]; cbn [try_pools]; [by apply evolves_lift, _|].
  apply (evolves_handle _ _ (λ ip, _) (λ _, _)); [|intros ip; apply evolves_lift_bind; [apply _|]; intros; by apply evolves_ret, _|done].
  intros w. unfold on_pools. pose proof (AllocateIP_moves (env nic pool) (Henv nic pool) pconfig (rIPs nic pool) cancelled pool nic
    (pod_meta pod) top (w_pools w)) as L. by destruct (AllocateIP _ _ _ _ _ _ _ _ (w_pools w)).
Qed.

Lemma allocateIPFromCandidate_advances c nic clean : evolves advances (allocateIPFromCandidate pconfig rIPs env cancelled c nic clean pod top).
Proof. intros w. unfold allocateIPFromCandidate. destruct (find_reuse _ _ _ _); [cbn; reflexivity|apply try_pools_advances]. Qed.

Lemma try_pools_serves c nic clean pools w r w' :
  valid (w_pools w) → try_pools (E := E) pconfig rIPs env cancelled c nic clean pod top pools w = (Ret r, w') →
  Nic (res_IP r) = nic ∧ res_CleanGateway r = clean ∧ ∃ pool, pool ∈ pools ∧ granted nic pool (res_IP r) (w_pools w) (w_pools w').
Proof.
  revert w. induction pools as [|pool pools IH]; intros w V; cbn [try_pools]; [done|]. unfold on_pools.
  pose proof (AllocateIP_moves (env nic pool) (Henv nic pool) pconfig (rIPs nic pool) cancelled pool nic (pod_meta pod) top (w_pools w) V) as L.
  destruct (AllocateIP _ _ _ _ _ _ _ _ (w_pools w)) as [[ip|e| |] s'] eqn:Ea; cbn in L; [| |done..].
  - intros (p & w1 & [= Hd <-] & [= <- <-])%cmd_bind_Ret.
    destruct (AllocateIP_takes _ _ _ _ _ _ _ _ _ _ _ _ (Henv nic pool) Hmax V Ea) as (i & sc & p1 & q & H1 & H2 & H3 & H4 & Hn & Ht).
    split_and!; [done..|]. exists pool. split; [apply list_elem_of_here|]. by exists i, sc, s', p1, q.
  - intros H. apply IH in H as (? & ? & pool' & ? & i & sc & t & p & q & ? & Hg); [|by eapply later_valid].
    split_and!; [done..|]. exists pool'. split; [by apply list_elem_of_further|]. exists i, sc, t, p, q. split; [by etransitivity|done].
Qed.

Lemma allocateIPFromCandidate_serves c nic clean w r w' :
  valid (w_pools w) → allocateIPFromCandidate (E := E) pconfig rIPs env cancelled c nic clean pod top w = (Ret r, w') →
  serves (getFailureIPs w (UID (pod_meta pod))) (c, (nic, clean)) r (w_pools w) (w_pools w').
Proof.
  intros V. unfold allocateIPFromCandidate. destruct (find_reuse _ _ _ _) as [r'|] eqn:Ef.
  - intros [= <- <-]. apply find_reuse_spec in Ef as (? & ? & o & p & ? & Hp & ? & ?). split_and!; [done..|]. left.
    apply list_elem_of_fmap in Hp as ([n p'] & -> & Hp%elem_of_range_kv). by exists o, n, p'.
  - intros (? & ? & ?)%try_pools_serves; [|done]. split_and!; [done..|]. by right.
Qed.

Lemma run_tasks_advances tasks : evolves advances (run_tasks pconfig rIPs env cancelled pod top tasks).
Proof.
  induction tasks as [|[c [nic clean]] tasks IH]; cbn [run_tasks]; [by apply evolves_ret, _|].
  apply (evolves_handle _ _ (λ r, _) (λ e, _)); [apply allocateIPFromCandidate_advances|..];
    intros ?; (apply evolves_bind; [apply _|done|]); intros [results errs]; by apply evolves_ret, _.
Qed.

Lemma run_tasks_serves tasks w results w' :
  valid (w_pools w) → run_tasks (E := E) pconfig rIPs env cancelled pod top tasks w = (Ret (results, []), w') →
  Forall2 (λ t r, serves (getFailureIPs w (UID (pod_meta pod))) t r (w_pools w) (w_pools w')) tasks results.
Proof.
  revert w results. induction tasks as [|[c [nic clean]] tasks IH]; intros w results V; cbn [run_tasks]; [intros [= <- <-]; constructor|].
  pose proof (allocateIPFromCandidate_advances c nic clean w) as A1.
  destruct (allocateIPFromCandidate _ _ _ _ _ _ _ _ _ w) as [[r|e| |] w1] eqn:Ea; cbn in A1; [| |done..].
  2:{ intros ([rs es] & w2 & Hr & H)%cmd_bind_Ret. unfold mret, cmd_ret in H. congruence. }
  intros ([rs es] & w2 & Hr & H)%cmd_bind_Ret. injection H as <- -> <-. destruct A1 as [Ee M]. specialize (M V).
  pose proof (later_valid _ _ V M) as V1. pose proof (run_tasks_advances tasks w1) as A2. rewrite Hr in A2. destruct A2 as [_ M2].
  constructor.
  - eapply serves_mono; [reflexivity|by apply M2|]. by apply allocateIPFromCandidate_serves.
  - eapply Forall2_impl; [by apply (IH w1)|]. intros t r' H. unfold getFailureIPs in *. rewrite Ee in H.
    eapply serves_mono; [exact M|reflexivity|exact H].
Qed.

(** C9: an allocation that succeeds serves every NIC and every version.  When
    [allocateIPsFromAllCandidates] reports no error there is exactly one result for each NIC and
    candidate, in the order in which the goroutines ran: for that NIC, and either what an earlier
    attempt had left in the cache for one of the candidate's pools, or an address of one of these
    pools that at some moment was taken for the Pod - one already recorded for it, or a free one
    that is recorded for it from then on. *)
Theorem allocateIPsFromAllCandidates_serves tt w results w' :
  valid (w_pools w) → allocateIPsFromAllCandidates (E := E) pconfig rIPs env cancelled acquire tt pod top w = (Ret (results, None), w') →
  ∃ tasks, tasks ≡ₚ tasks_of tt ∧
    Forall2 (λ t r, serves (getFailureIPs w (UID (pod_meta pod))) t r (w_pools w) (w_pools w')) tasks results.
Proof.
  intros V. unfold allocateIPsFromAllCandidates. destruct (acquire _); [|done..].
  intros ([rs es] & w1 & Hr & H)%cmd_bind_Ret. exists (reorder (tasks_of tt)). split; [apply reorder_perm|].
  destruct es; [|done]. injection H as <- <-. by apply run_tasks_serves.
Qed.
End grants.

(** ** Concrete allocations *)

#[export] Instance AnnoIPPoolItem_eq_dec : EqDecision AnnoIPPoolItem.
Proof. solve_decision. Defined.
#[export] Instance AnnoPodIPPoolValue_eq_dec : EqDecision AnnoPodIPPoolValue.
Proof. solve_decision. Defined.
#[export] Instance AnnoIPPoolItem_countable : Countable AnnoIPPoolItem.
Proof.
  by refine (inj_countable' (λ i, (ai_NIC i, ai_IPv4Pools i, ai_IPv6Pools i, ai_CleanGateway i)) (λ '(a, b, c, d), MkAnnoItem a b c d) _); intros [].
Defined.
#[export] Instance AnnoPodIPPoolValue_countable : Countable AnnoPodIPPoolValue.
Proof. by refine (inj_countable' (λ i, (ap_IPv4Pools i, ap_IPv6Pools i)) (λ '(a, b), MkAnnoPool a b) _); intros []. Defined.

(** The pools "p1", "p2" and "p3", three addresses each, of a node with Multus. *)
Definition ex_named_pool (name subnet range : string) : SpiderIPPool :=
  MkIPPool (plain_meta "" name "")
    (MkIPPoolSpec (Some IPv4) subnet [range] [] None None None None [] None [] [] None (Some false)) (MkIPPoolStatus None None None).
Definition ex_pools : list SpiderIPPool :=
  [ex_named_pool "p1" "10.1.0.0/24" "10.1.0.1-10.1.0.3"; ex_named_pool "p2" "10.2.0.0/24" "10.2.0.1-10.2.0.3";
   ex_named_pool "p3" "10.3.0.0/24" "10.3.0.1-10.3.0.3"].

(** A Pod with annotations for the pools of its NICs and for its second network. *)
Definition ex_pod_of (name uid : string) (items : list AnnoIPPoolItem) (owners : list OwnerReference) : Pod :=
  MkPod (MkMeta name "default" uid 1 ∅
    (<[AnnoPodIPPools := json_marshal (JSON := countable_json) items]>
     (<[MultusNetworkAttachmentAnnot := "kube-system/sriov"%string]> ∅)) [] owners None) "node" RestartAlways PodRunning "".

Definition ex_find (n : string) : outcome SpiderIPPool :=
  match list_find (λ p, Name (pool_meta p) = n) ex_pools with Some (_, p) => Ret p | None => Fail APINotFound end.
Definition ex_meta (n : string) : outcome ObjectMeta := Ret (plain_meta "" n "").

Definition ex_run (config : IPAMConfig) (pod : Pod) (iaas : Pod → list AllocationResult → outcome (list AllocationResult)) (nic : string)
    : cmd (world (mem_store SpiderIPPool) mem_eps) IpamAddResponse :=
  Allocate (MR := ordered_range) (SC := in_order) (J := ex_json) (JI := countable_json) (JP := countable_json) (JL := countable_json)
    (JN := ex_nse_json) (JR := countable_json) config ex_config (MkEndpointConfig true false) (λ _ _ _, []) (λ _ _ _ s, s) (λ _, false)
    (λ _, Ret ()) (λ _ _, Ret pod) (λ _ _ _, Ret (plain_meta "default" "web" "uid-sts")) (λ _, Ret ex_pools) (Ret ex_pools)
    ex_find ex_meta ex_meta (λ _ _, Fail APINotFound) (λ _ _, Ret [])
    (λ _ _ _ _, mret None) iaas (MkAddArgs "default" (Name (pod_meta pod)) nic false [] [] None false).

Definition ex_fresh : world (mem_store SpiderIPPool) mem_eps :=
  MkWorld (MkStore (list_to_map ((λ p, (Name (pool_meta p), p)) <$> ex_pools)) 2) (MkEps ∅ 1) ∅.

Definition ex_items (pool1 pool2 : string) : list AnnoIPPoolItem := [MkAnnoItem "eth0" [pool1] [] false; MkAnnoItem "net1" [pool2] [] false].

(** The first Pod has its addresses; the second asks for its own. *)
Definition ex_iaas (pod : Pod) (results : list AllocationResult) : outcome (list AllocationResult) := Ret results.
Definition ex_pod0 : Pod := ex_pod_of "web-0" "uid-0" (ex_items "p1" "p2") [].
Definition ex_pod1 : Pod := ex_pod_of "web-1" "uid-1" (ex_items "p1" "p2") [].
Definition ex_served : world (mem_store SpiderIPPool) mem_eps := (ex_run ex_sel_config ex_pod0 ex_iaas "eth0" ex_fresh).2.

Lemma mem_valid_dec (s : mem_store SpiderIPPool) :
  bool_decide (map_Forall (λ k o, obj_key o = k ∧ obj_version o < clock s) (objs s)) = true → mem_valid s.
Proof. intros H%bool_decide_eq_true. intros k o Ho. by apply H. Qed.

Lemma ex_served_valid : mem_valid (w_pools ex_served).
Proof. apply mem_valid_dec. vm_compute. reflexivity. Qed.

Lemma ex_served_recorded : recorded (H := ex_json) "p1" "10.1.0.1" ex_record (w_pools ex_served).
Proof. eexists _, _. split; [vm_compute; reflexivity|]. split; vm_compute; reflexivity. Qed.

Lemma Allocate_spares_others_witness :
  recorded (H := ex_json) "p1" "10.1.0.1" ex_record (w_pools (ex_run ex_sel_config ex_pod1 ex_iaas "eth0" ex_served).2).
Proof.
  eapply (Allocate_spares_others (MR := ordered_range) (JLaws := ex_json_laws) (KL := mem_pools)).
  - intros. apply (guaranteed_preorder (keeps_lease "p1" "10.1.0.1" ex_record)).
  - intros. apply evolves_ret, (guaranteed_world_preorder (keeps_lease "p1" "10.1.0.1" ex_record)).
  - apply ex_served_valid.
  - apply ex_served_recorded.
  - reflexivity.
  - reflexivity.
  - intros name ep Hep [->| ->]; vm_compute in Hep; discriminate Hep.
Defined.

Definition ex_tt : ToBeAllocateds :=
  [MkToBeAllocated "eth0" false [MkCandidate IPv4 ["p1"; "p2"] (by_name ex_pools)];
   MkToBeAllocated "net1" true [MkCandidate IPv4 ["gone"; "p3"] (by_name ex_pools)]].
Definition ex_allocate_all : cmd (world (mem_store SpiderIPPool) mem_eps) (list AllocationResult * option error) :=
  allocateIPsFromAllCandidates (MR := ordered_range) (SC := in_order) (J := ex_json) ex_config (λ _ _ _, []) (λ _ _ _ s, s) (λ _, false)
    (λ _, Ret ()) ex_tt ex_pod1 ex_top.

Lemma allocateIPsFromAllCandidates_serves_witness :
  ∃ results w', ex_allocate_all ex_served = (Ret (results, None), w') ∧
    ((λ r, (Nic (res_IP r), Address (res_IP r))) <$> results) = [("eth0", "10.1.0.2/24"); ("net1", "10.3.0.1/24")]%string ∧
    ∃ tasks, tasks ≡ₚ tasks_of ex_tt ∧
      Forall2 (λ t r, serves (J := ex_json) (KL := mem_pools) ex_config (λ _ _ _, []) ex_pod1 ex_top
        (getFailureIPs ex_served (UID (pod_meta ex_pod1))) t r (w_pools ex_served) (w_pools w')) tasks results.
Proof.
  destruct (ex_allocate_all ex_served) as [[[results [e|]]|e| |] w'] eqn:E; try (exfalso; vm_compute in E; discriminate E).
  exists results, w'. split; [done|]. split; [vm_compute in E; by injection E as <- _|].
  apply (allocateIPsFromAllCandidates_serves (MR := ordered_range) (SC := in_order) (JLaws := ex_json_laws) (KL := mem_pools)
    ex_config 5000 eq_refl (λ _ _ _, []) (λ _ _ _ s, s) (λ _, false) (λ _, Ret ())); [done|apply ex_served_valid|exact E].
Defined.

(** ** Allocations that do not end as they should *)

Definition ex_sts_owner : list OwnerReference := [MkOwnerReference "apps/v1" "StatefulSet" "web" "uid-sts" (Some true)].
Definition ex_sts_pod : Pod := ex_pod_of "web-0" "uid-0" (ex_items "p1" "p2") ex_sts_owner.
(** The Pod of the same StatefulSet that replaces it, with another pool for its first NIC. *)
Definition ex_sts_pod' : Pod := ex_pod_of "web-0" "uid-1" (ex_items "p3" "p2") ex_sts_owner.

(** A StatefulSet Pod that comes back after the pool of one of its two NICs was changed does not
    start: the endpoint is only shortened, but not used because it names the UID of the old Pod,
    and it cannot be created because it exists.  Further attempts leave the state as it is and
    fail in the same way. *)
Theorem sts_partial_change_stuck :
  let w := (ex_run ex_sel_config ex_sts_pod ex_iaas "eth0" ex_fresh).2 in
  let w' := (ex_run ex_sel_config ex_sts_pod' ex_iaas "eth0" w).2 in
  ex_run ex_sel_config ex_sts_pod' ex_iaas "eth0" w = (Fail APIAlreadyExists, w') ∧
  ex_run ex_sel_config ex_sts_pod' ex_iaas "eth0" w' = (Fail APIAlreadyExists, w').
Proof. split; vm_compute; reflexivity. Qed.

(** With one NIC the Pod comes back with an address of the new pool. *)
Example sts_full_change_served :
  let pod := ex_pod_of "web-0" "uid-1" [MkAnnoItem "eth0" ["p3"] [] false] ex_sts_owner in
  let w0 := (ex_run ex_sel_config (ex_pod_of "web-0" "uid-0" [MkAnnoItem "eth0" ["p1"] [] false] ex_sts_owner) ex_iaas "eth0" ex_fresh).2 in
  ∃ r w', ex_run ex_sel_config pod ex_iaas "eth0" w0 = (Ret r, w') ∧ (Address <$> r.1) = ["10.3.0.1/24"%string].
Proof. eexists _, _. split; vm_compute; reflexivity. Qed.

(** Two NICs that use the same pool are given one address. *)
Theorem shared_pool_same_address :
  ∃ r w', ex_run ex_sel_config (ex_pod_of "web-0" "uid-0" (ex_items "p1" "p1") []) ex_iaas "eth0" ex_fresh = (Ret r, w') ∧
    ((λ c, (Nic c, Address c)) <$> r.1) = [("eth0", "10.1.0.1/24"); ("net1", "10.1.0.1/24")]%string.
Proof. eexists _, _. split; vm_compute; reflexivity. Qed.

(** When the IaaS provider refuses, the addresses that were taken are not remembered for the next
    attempt, as they are when another step fails. *)
Theorem iaas_failure_forgets :
  let config := MkIPAMConfig true false false false true false true false false 5 (Some "kube-system/default") "kube-system" true in
  let refused := ex_run config ex_pod0 (λ _ _, Fail ErrUnknown) "eth0" ex_fresh in
  let existing := ex_run config ex_sts_pod' ex_iaas "eth0" (ex_run config ex_sts_pod ex_iaas "eth0" ex_fresh).2 in
  refused.1 = Fail ErrUnknown ∧ entries refused.2 = ∅ ∧
  existing.1 = Fail APIAlreadyExists ∧ length <$> entries existing.2 !! "uid-1"%string = Some 2%nat.
Proof. split_and!; vm_compute; reflexivity. Qed.
