(* ===== verification/PodTrace.v ===== *)
(** * pkg/gcmanager/pod_cache.go: the Pods whose addresses are to be collected

    The collector traces Pods that are gone, terminating or finished: [buildPodEntry] computes
    until when a Pod may keep its addresses, [PodDatabase] holds the entries.  Times are numbers of
    nanoseconds since the zero time, durations are 64-bit numbers of nanoseconds. *)

From S2P Require Import Prelude NetIP K8s Retry IPPoolManager Workload.
Local Open Scope Z_scope.
Local Open Scope go_scope.

(** ** Pods and nodes, as the collector reads them *)

Record PodDetail := MkPodDetail {
  gp_pod : Pod;
  HostNetwork : bool;
  PodIPs : list string;
  DeletionGracePeriodSeconds : option Z;
  TerminationGracePeriodSeconds : option Z;
  (** [State.Terminated.FinishedAt] of the containers. *)
  ContainerStatuses : list (option Z)
}.

Definition gp_meta (p : PodDetail) : ObjectMeta := pod_meta (gp_pod p).
Definition finished (p : PodDetail) : bool := (Phase (gp_pod p) == PodSucceeded) || (Phase (gp_pod p) == PodFailed).
Definition terminating (p : PodDetail) : bool := bool_decide (is_Some (DeletionTimestamp (gp_meta p))).

(** pkg/nodemanager/utils.go; a node is the list of its conditions, type and status. *)
Definition Node : Type := list (string * string).
Definition IsNodeReady (node : Node) : bool :=
  match list_find (λ c, c.1 = "Ready"%string) node with
  | Some (_, (_, status)) => (status == "True"%string)
  | None => false
  end.

(** gc_manager.go: the parts of the configuration that decide. *)
Record GarbageCollectionConfig := MkGCConfig {
  EnableGCStatelessTerminatingPodOnReadyNode : bool;
  EnableGCStatelessTerminatingPodOnNotReadyNode : bool;
  EnableGCStatelessRunningPodOnEmptyPodStatusIPs : bool;
  gc_EnableStatefulSet : bool;
  gc_EnableKubevirtStaticIP : bool;
  EnableCleanOutdatedEndpoint : bool;
  MaxPodEntryDatabaseCap : Z;
  WorkQueueMaxRetries : Z;
  AdditionalGraceDelay : Z
}.

(** ** Entries *)

(** [types.PodStatus] *)
Inductive PodStatus := StRunning | StTerminating | StSucceeded | StFailed | StEvicted | StDeleted | StUnknown.
#[export] Instance PodStatus_eq_dec : EqDecision PodStatus.
Proof. solve_decision. Defined.

Record PodEntry := MkEntry {
  pe_PodName : string;
  pe_Namespace : string;
  pe_NodeName : string;
  pe_UID : string;
  EntryUpdateTime : Z;
  TracingStartTime : Z;
  TracingGracefulTime : Z;
  TracingStopTime : Z;
  PodTracingReason : PodStatus;
  NumRequeues : Z
}.

(** [time.Duration(n) * time.Second] for the sum of two numbers of seconds. *)
Definition seconds (a b : Z) : Z := int64 (int64 (a + b) * 10 ^ 9).

Section build.
Context (gcConfig : GarbageCollectionConfig).
(** What the caches answer, and the time. *)
Context (get_node : string → outcome Node) (get_sts : string → string → outcome StatefulSet).
Context (get_vmi get_vm : string → string → outcome ObjectMeta) (now : Z).

Definition isShouldGCOrTraceStatelessTerminatingPodOnNode (pod : PodDetail) : outcome bool :=
  node ← get_node (NodeName (gp_pod pod));
  if IsNodeReady node && negb (EnableGCStatelessTerminatingPodOnReadyNode gcConfig) then Ret false
  else if negb (IsNodeReady node) && negb (EnableGCStatelessTerminatingPodOnNotReadyNode gcConfig) then Ret false
  else Ret true.

Definition isValidStatefulSetPod (pod : PodDetail) : outcome bool :=
  match GetControllerOf (gp_meta pod) with
  | Some ref =>
      if (or_APIVersion ref == AppsGroupVersion) && (or_Kind ref == KindStatefulSet)
      then IsValidStatefulSetPod get_sts (Namespace (gp_meta pod)) (Name (gp_meta pod)) (or_Kind ref) else Ret false
  | None => Ret false
  end.

Definition isValidKubevirtVMIPod (pod : PodDetail) : outcome bool :=
  match GetControllerOf (gp_meta pod) with
  | Some ref =>
      if gc_EnableKubevirtStaticIP gcConfig && (or_APIVersion ref == KubevirtGroupVersion) && (or_Kind ref == KindKubevirtVMI)
      then IsValidVMPod get_vmi get_vm (Namespace (gp_meta pod)) (or_Kind ref) (or_Name ref) else Ret false
  | None => Ret false
  end.

(** The latest end of a container, zero when none has ended. *)
Definition last_finished (statuses : list (option Z)) : Z :=
  foldl (λ t s, match s with Some f => if t <? f then f else t | None => t end) 0 statuses.

Definition computeSucceededOrFailedPodTerminatingTime (pod : PodDetail) : outcome (Z * Z * Z) :=
  if (length (ContainerStatuses pod) =? 0)%nat then Fail (ErrOther "no containers")
  else
    let start := last_finished (ContainerStatuses pod) in
    if start =? 0 then Fail (ErrOther "no finished time")
    else
      match TerminationGracePeriodSeconds pod with
      | None => Fail (ErrOther "no TerminationGracePeriodSeconds")
      | Some s => let grace := seconds s (AdditionalGraceDelay gcConfig) in Ret (start, start + grace, grace)
      end.

(** [*a != *b] *)
Definition differs (a b : option Z) : outcome bool := x ← deref a; y ← deref b; Ret (negb (x =? y)).

Definition phase_status (p : PodPhase) : PodStatus :=
  match p with PodSucceeded => StSucceeded | PodFailed => StFailed | PodRunning => StRunning | _ => StUnknown end.

(** The switch: why the Pod is to be traced, if it is. *)
Definition trace_reason (oldPod : option PodDetail) (pod : PodDetail) : outcome (option PodStatus) :=
  ends ← (if terminating pod then
            match oldPod with
            | None => Ret true
            | Some old =>
                if terminating old then differs (TerminationGracePeriodSeconds pod) (TerminationGracePeriodSeconds old) else Ret true
            end
          else Ret false);
  if ends : bool then Ret (Some StTerminating)
  else if finished pod then
    again ← match oldPod with
            | None => Ret true
            | Some old =>
                if Phase (gp_pod pod) == Phase (gp_pod old)
                then differs (TerminationGracePeriodSeconds pod) (TerminationGracePeriodSeconds old) else Ret true
            end;
    Ret (if again : bool then Some (phase_status (Phase (gp_pod pod))) else None)
  else Ret None.

Definition new_entry (pod : PodDetail) (start grace stop : Z) (reason : PodStatus) : PodEntry :=
  MkEntry (Name (gp_meta pod)) (Namespace (gp_meta pod)) (NodeName (gp_pod pod)) (UID (gp_meta pod)) now start grace stop reason 0.

Definition terminating_entry (pod : PodDetail) : outcome PodEntry :=
  start ← deref (DeletionTimestamp (gp_meta pod));
  match DeletionGracePeriodSeconds pod with
  | None => Fail (ErrOther "no DeletionGracePeriodSeconds")
  | Some s =>
      let grace := seconds s (AdditionalGraceDelay gcConfig) in
      Ret (new_entry pod start grace (start + grace) StTerminating)
  end.

Definition buildPodEntry (oldPod currentPod : option PodDetail) (deleted : bool) : outcome (option PodEntry) :=
  match currentPod with
  | None => Fail (ErrOther "currentPod must be specified")
  | Some pod =>
      if HostNetwork pod then Ret None
      else
        isValidStsPod ← (if gc_EnableStatefulSet gcConfig then isValidStatefulSetPod pod else Ret false);
        if isValidStsPod : bool then Ret None
        else
          isValidVMPod ← (if gc_EnableKubevirtStaticIP gcConfig then isValidKubevirtVMIPod pod else Ret false);
          if isValidVMPod : bool then Ret None
          else if deleted then
            let grace := int64 (AdditionalGraceDelay gcConfig * 10 ^ 9) in
            Ret (Some (new_entry pod now grace (now + grace) StDeleted))
          else
            reason ← trace_reason oldPod pod;
            match reason with
            | None => Ret None
            | Some reason =>
                enabled ← isShouldGCOrTraceStatelessTerminatingPodOnNode pod;
                if negb enabled then Ret None
                else if reason == StTerminating then e ← terminating_entry pod; Ret (Some e)
                else
                  '(start, stop, grace) ← computeSucceededOrFailedPodTerminatingTime pod;
                  Ret (Some (new_entry pod start grace stop reason))
            end
  end.
End build.

(** ** The database *)

Record PodDatabase := MkPodDB { pods : gmap (string * string) PodEntry; maxCap : Z }.

Definition NewPodDBer (maxDatabaseCap : Z) : PodDatabase := MkPodDB ∅ maxDatabaseCap.

Definition DeletePodEntry (namespace podName : string) (p : PodDatabase) : PodDatabase :=
  match pods p !! (namespace, podName) with
  | None => p
  | Some _ => MkPodDB (delete (namespace, podName) (pods p)) (maxCap p)
  end.

(** In the order of the iteration over the map, which no caller depends on. *)
Definition ListAllPodEntries (p : PodDatabase) : list PodEntry := (map_to_list (pods p)).*2.

Definition entry_changed (a b : PodEntry) : bool :=
  negb (TracingStartTime a =? TracingStartTime b) || negb (TracingGracefulTime a =? TracingGracefulTime b)
  || negb (TracingStopTime a =? TracingStopTime b) || (PodTracingReason a != PodTracingReason b)
  || negb (NumRequeues a =? NumRequeues b).

Definition ApplyPodEntry (podEntry : option PodEntry) : cmd PodDatabase unit := λ p,
  match podEntry with
  | None => (Fail (ErrOther "received a nil podEntry"), p)
  | Some e =>
      if PodTracingReason e == StRunning then (Fail (ErrOther "discard Running pod"), p)
      else
        match pods p !! (pe_Namespace e, pe_PodName e) with
        | None =>
            if Z.of_nat (size (pods p)) =? maxCap p then (Fail (ErrOther "out of capacity"), p)
            else (Ret (), MkPodDB (<[(pe_Namespace e, pe_PodName e) := e]> (pods p)) (maxCap p))
        | Some podCache =>
            if entry_changed podCache e
            then (Ret (), MkPodDB (<[(pe_Namespace podCache, pe_PodName podCache) := e]> (pods p)) (maxCap p))
            else (Ret (), p)
        end
  end.

(** ** The database is well formed *)

(** Entries are kept under their own names, none for a running Pod, and no more than the capacity. *)
Definition db_ok (p : PodDatabase) : Prop :=
  Z.of_nat (size (pods p)) ≤ maxCap p ∧
  map_Forall (λ k e, k = (pe_Namespace e, pe_PodName e) ∧ PodTracingReason e ≠ StRunning) (pods p).

Inductive db_step (p : PodDatabase) : PodDatabase → Prop :=
  | db_delete namespace podName : db_step p (DeletePodEntry namespace podName p)
  | db_apply podEntry : db_step p (ApplyPodEntry podEntry p).2.

Lemma db_step_ok p q : db_step p q → db_ok p → db_ok q.
Proof.
  intros [ns name|[e|]] [Hs Hf]; [| |done].
  - unfold DeletePodEntry. destruct (pods p !! _) as [e|] eqn:Ep; [|done]. split; cbn [pods maxCap].
    + rewrite map_size_delete_Some by done. lia.
    + by apply map_Forall_delete.
  - unfold ApplyPodEntry. case_bool_decide as Hr; [done|]. destruct (pods p !! _) as [c|] eqn:Ep.
    + destruct (entry_changed c e); [|done]. destruct (Hf _ _ Ep) as [Hk _]. injection Hk as E1 E2. split; cbn [snd pods maxCap].
      * rewrite <- E1, <- E2, map_size_insert_Some; [done|by rewrite Ep].
      * by apply map_Forall_insert_2; [rewrite <- E1, <- E2|].
    + destruct (Z.eqb_spec (Z.of_nat (size (pods p))) (maxCap p)) as [|Hc]; [done|]. split; cbn [snd pods maxCap].
      * rewrite map_size_insert_None by done. lia.
      * by apply map_Forall_insert_2.
Qed.

(** The database of traced Pods stays well formed: whatever entries are applied and deleted,
    in any order, every entry is stored under the name of its Pod, none is of a running Pod, and
    there are never more than the capacity. *)
Theorem PodDatabase_invariant cap p : 0 ≤ cap → rtc db_step (NewPodDBer cap) p → db_ok p.
Proof.
  intros Hcap H. assert (db_ok (NewPodDBer cap)) as H0 by (split; [done|apply map_Forall_empty]).
  revert H0. induction H; eauto using db_step_ok.
Qed.

Lemma DeletePodEntry_gone ns name p : pods (DeletePodEntry ns name p) !! (ns, name) = None.
Proof. unfold DeletePodEntry. destruct (pods p !! (ns, name)) eqn:Ep; [apply lookup_delete_eq|done]. Qed.

(** What is found after an entry was applied counts the same number of attempts. *)
Lemma ApplyPodEntry_requeues e p q e' :
  db_ok p → ApplyPodEntry (Some e) p = (Ret (), q) → pods q !! (pe_Namespace e, pe_PodName e) = Some e' → NumRequeues e' = NumRequeues e.
Proof.
  intros [_ Hf]. unfold ApplyPodEntry. case_bool_decide; [done|]. destruct (pods p !! _) as [c|] eqn:Ep.
  - destruct (entry_changed c e) eqn:Ec; intros [= <-]; cbn [pods].
    + destruct (Hf _ _ Ep) as [[= E1 E2] _]. rewrite <- E1, <- E2, lookup_insert_eq. by intros [= <-].
    + rewrite Ep. intros [= <-]. unfold entry_changed in Ec. rewrite !orb_false_iff, !negb_false_iff in Ec. lia.
  - destruct (_ =? _); [done|]. intros [= <-]. cbn [pods]. rewrite lookup_insert_eq. by intros [= <-].
Qed.

(** ** How long a Pod keeps its addresses *)

Section entries.
Context (gcConfig : GarbageCollectionConfig) (get_node : string → outcome Node) (get_sts : string → string → outcome StatefulSet).
Context (get_vmi get_vm : string → string → outcome ObjectMeta) (now : Z).

Lemma seconds_exact a b : 0 ≤ a + b < 2 ^ 63 / 10 ^ 9 → seconds a b = (a + b) * 10 ^ 9.
Proof.
  intros H. change (2 ^ 63 / 10 ^ 9) with 9223372036 in H. unfold seconds. rewrite (int64_small (a + b)) by lia. apply int64_small. lia.
Qed.

Lemma last_finished_spec l t : foldl (λ t s, match s with Some f => if t <? f then f else t | None => t end) t l = foldl Z.max t (omap id l).
Proof.
  revert t. induction l as [|[f|] l IH]; intros t; cbn; [done| |by apply IH]. rewrite IH. f_equal. destruct (Z.ltb_spec t f); lia.
Qed.

(** The grace period of [s] seconds and the delay, for sums below 292 years. *)
Definition grace_of (s g : Z) : Prop :=
  0 ≤ s + AdditionalGraceDelay gcConfig < 2 ^ 63 / 10 ^ 9 → g = (s + AdditionalGraceDelay gcConfig) * 10 ^ 9.

(** An entry for the Pod, with the times its reason asks for. *)
Record entry_for (pod : PodDetail) (deleted : bool) (e : PodEntry) : Prop := {
  ef_name : pe_Namespace e = Namespace (gp_meta pod) ∧ pe_PodName e = Name (gp_meta pod) ∧ pe_UID e = UID (gp_meta pod);
  ef_host : HostNetwork pod = false;
  ef_static : (gc_EnableStatefulSet gcConfig = true → isValidStatefulSetPod get_sts pod = Ret false) ∧
    (gc_EnableKubevirtStaticIP gcConfig = true → isValidKubevirtVMIPod gcConfig get_vmi get_vm pod = Ret false);
  ef_stop : TracingStopTime e = TracingStartTime e + TracingGracefulTime e;
  ef_reason : match PodTracingReason e with
              | StDeleted => deleted = true ∧ TracingStartTime e = now
              | StTerminating => ∃ s, DeletionTimestamp (gp_meta pod) = Some (TracingStartTime e) ∧ DeletionGracePeriodSeconds pod = Some s ∧
                  grace_of s (TracingGracefulTime e)
              | StSucceeded | StFailed => ∃ s, finished pod = true ∧ TerminationGracePeriodSeconds pod = Some s ∧
                  TracingStartTime e = foldl Z.max 0 (omap id (ContainerStatuses pod)) ∧
                  grace_of s (TracingGracefulTime e)
              | _ => False
              end
}.

Lemma trace_reason_cases old pod r : trace_reason old pod = Ret (Some r) →
  r = StTerminating ∧ terminating pod = true ∨ (r = StSucceeded ∨ r = StFailed) ∧ finished pod = true.
Proof.
  unfold trace_reason. intros ([|] & He & H)%bind_Ret.
  - injection H as <-. left. split; [done|]. destruct (terminating pod); [done|]. by injection He.
  - destruct (finished pod) eqn:Ef; [|done]. apply bind_Ret in H as ([|] & _ & H); [|done]. injection H as <-. right. split; [|done].
    unfold finished in Ef. destruct (Phase (gp_pod pod)); cbn in *; naive_solver.
Qed.

(** What is traced and until when.  [buildPodEntry] makes an entry only for a Pod that is off
    the host network, that is not a valid Pod of a StatefulSet or a virtual machine, and that was
    deleted, is terminating or has finished; the entry carries its name and UID, and its stop time
    is the start - the deletion, the deletion timestamp, the end of the last container - plus the
    grace period of the Pod and the configured delay, as long as these are below 292 years. *)
Theorem buildPodEntry_spec old pod deleted e :
  buildPodEntry gcConfig get_node get_sts get_vmi get_vm now old (Some pod) deleted = Ret (Some e) → entry_for pod deleted e.
Proof.
  unfold buildPodEntry. destruct (HostNetwork pod) eqn:Eh; [done|]. intros ([|] & Hs & H)%bind_Ret; [done|].
  apply bind_Ret in H as ([|] & Hv & H); [done|].
  assert ((gc_EnableStatefulSet gcConfig = true → isValidStatefulSetPod get_sts pod = Ret false) ∧
    (gc_EnableKubevirtStaticIP gcConfig = true → isValidKubevirtVMIPod gcConfig get_vmi get_vm pod = Ret false)) as Hstatic.
  { split; intros E; [by rewrite E in Hs|by rewrite E in Hv]. }
  destruct deleted; [injection H as <-; by split|].
  apply bind_Ret in H as ([r|] & Hr & H); [|done]. apply bind_Ret in H as ([|] & _ & H); [cbn [negb] in H|done].
  destruct (trace_reason_cases _ _ _ Hr) as [[-> Ht]|[Hr' Hf]].
  - rewrite bool_decide_true in H by done. apply bind_Ret in H as (e' & He & [= <-]). unfold terminating_entry in He.
    apply bind_Ret in He as (start & Hd%deref_Ret & He). destruct (DeletionGracePeriodSeconds pod) as [s|] eqn:Es; [|done].
    injection He as <-. split; [done..|]. exists s. split_and!; [done..|]. intros ?. by apply seconds_exact.
  - rewrite bool_decide_false in H by naive_solver. apply bind_Ret in H as ([[start stop] grace] & Hc & [= <-]).
    unfold computeSucceededOrFailedPodTerminatingTime in Hc. destruct (length _ =? 0)%nat; [done|]. destruct (_ =? 0); [done|].
    destruct (TerminationGracePeriodSeconds pod) as [s|] eqn:Es; [|done]. injection Hc as <- <- <-. split; [done..|].
    cbn [new_entry PodTracingReason TracingStartTime TracingGracefulTime]. unfold last_finished. rewrite last_finished_spec.
    destruct Hr' as [-> | ->]; exists s; (split_and!; [done..|]); intros ?; by apply seconds_exact.
Qed.
End entries.

(** ** Examples *)

Definition ex_gc_config : GarbageCollectionConfig := MkGCConfig true true true true false true 2 5 5.
Definition ex_ready (n : string) : outcome Node := Ret [("Ready", "True")]%string.
Definition ex_gc_pod (grace : Z) : PodDetail :=
  MkPodDetail (MkPod (MkMeta "web-0" "default" "uid-0" 1 ∅ ∅ [] [] (Some (10 ^ 18))) "node" RestartAlways PodRunning "") false ["10.1.0.1"%string]
    (Some grace) (Some grace) [].
Definition ex_build (grace : Z) : outcome (option PodEntry) :=
  buildPodEntry ex_gc_config ex_ready (λ _ _, Fail APINotFound) (λ _ _, Fail APINotFound) (λ _ _, Fail APINotFound) (10 ^ 18) None
    (Some (ex_gc_pod grace)) false.

Lemma buildPodEntry_spec_witness :
  ∃ e, ex_build 30 = Ret (Some e) ∧ TracingStopTime e = 10 ^ 18 + 35 * 10 ^ 9 ∧
    entry_for ex_gc_config (λ _ _, Fail APINotFound) (λ _ _, Fail APINotFound) (λ _ _, Fail APINotFound) (10 ^ 18) (ex_gc_pod 30) false e.
Proof.
  eexists. split; [vm_compute; reflexivity|]. split; [reflexivity|].
  apply (buildPodEntry_spec ex_gc_config ex_ready _ _ _ _ None). vm_compute. reflexivity.
Defined.

Lemma PodDatabase_invariant_witness :
  ∃ e, ex_build 30 = Ret (Some e) ∧ (ApplyPodEntry (Some e) (NewPodDBer 2)).1 = Ret () ∧
    db_ok (DeletePodEntry "default" "web-1" (ApplyPodEntry (Some e) (NewPodDBer 2)).2).
Proof.
  eexists. split; [vm_compute; reflexivity|]. split; [reflexivity|].
  apply (PodDatabase_invariant 2); [lia|]. eapply rtc_r; [apply rtc_once, db_apply|apply db_delete].
Defined.

(** The grace period is a 64-bit number of seconds, the duration one of nanoseconds: a Pod with a
    period of more than about 292 years is traced as if its time had been over before it began. *)
Theorem grace_period_overflow : ∃ e, ex_build (10 ^ 10) = Ret (Some e) ∧ TracingStopTime e < TracingStartTime e.
Proof. eexists. split; vm_compute; reflexivity. Qed.
