(* ===== verification/GCScan.v ===== *)
(** * pkg/gcmanager: collecting addresses that are no longer used

    [executeScanAll] (scanAll_IPPool.go) goes through the records of all pools and releases those
    whose Pod is gone; [releaseIPPoolIPExecutor] (tracePod_worker.go) releases the addresses of the
    Pods whose time is over.  The state is that of the pools and the endpoints, the database of
    traced Pods and the endpoints that no record names.  The two goroutines of a scan work on
    different pools; the records are examined in any order. *)

From S2P Require Import Prelude NetIP NetIPFacts IPAddr K8s Retry Convert IPPoolManager PoolLease Workload Endpoint PodTrace.
Local Open Scope Z_scope.
Local Open Scope go_scope.

(** ** State *)

Record gc_state (S E : Type) := MkGC {
  gc_pools : S;
  gc_eps : E;
  PodDB : PodDatabase;
  suspicious : gmap string WorkloadEndpointStatus
}.
Arguments MkGC {S E} _ _ _ _.
Arguments gc_pools {S E} _.
Arguments gc_eps {S E} _.
Arguments PodDB {S E} _.
Arguments suspicious {S E} _.

Section state.
Context {S E : Type}.

Definition gc_on_pools {A} (m : cmd S A) : cmd (gc_state S E) A := λ g,
  let '(o, s) := m (gc_pools g) in (o, MkGC s (gc_eps g) (PodDB g) (suspicious g)).
Definition gc_on_eps {A} (m : cmd E A) : cmd (gc_state S E) A := λ g,
  let '(o, e) := m (gc_eps g) in (o, MkGC (gc_pools g) e (PodDB g) (suspicious g)).
Definition on_db {A} (m : cmd PodDatabase A) : cmd (gc_state S E) A := λ g,
  let '(o, d) := m (PodDB g) in (o, MkGC (gc_pools g) (gc_eps g) d (suspicious g)).
Definition set_suspicious (f : gmap string WorkloadEndpointStatus → gmap string WorkloadEndpointStatus) : cmd (gc_state S E) unit :=
  modify (λ g, MkGC (gc_pools g) (gc_eps g) (PodDB g) (f (suspicious g))).
End state.

(** [continue], or an error that is only logged. *)
Definition quiet {W A} (m : cmd W A) : cmd W unit := λ w,
  match m w with
  | (Ret _, w') | (Fail _, w') => (Ret (), w')
  | (Panic, w') => (Panic, w')
  | (OutOfFuel, w') => (OutOfFuel, w')
  end.

(** A value or an error, to be looked at. *)
Definition try {A} (o : outcome A) : outcome (error + A) :=
  match o with
  | Ret a => Ret (inr a)
  | Fail e => Ret (inl e)
  | Panic => Panic
  | OutOfFuel => OutOfFuel
  end.

Fixpoint run_all {W} (ms : list (cmd W unit)) : cmd W unit :=
  match ms with
  | [] => mret ()
  | m :: ms => _ ← m; run_all ms
  end.

(** [cache.SplitMetaNamespaceKey] *)
Definition SplitMetaNamespaceKey (key : string) : outcome (string * string) :=
  match split "/" key with
  | [name] => Ret (""%string, name)
  | [namespace; name] => Ret (namespace, name)
  | _ => Fail (ErrOther "unexpected key format")
  end.

(** What the caches answer, and the time. *)
Record gc_reads := MkReads {
  rd_pod : string → string → outcome PodDetail;
  rd_ep : string → string → outcome SpiderEndpoint;
  rd_node : string → outcome Node;
  rd_sts : string → string → outcome StatefulSet;
  rd_vmi : string → string → outcome ObjectMeta;
  rd_vm : string → string → outcome ObjectMeta;
  rd_now : Z
}.

Section gc.
Context `{MR : MapRange} `{SC : Schedule} `{J : JSON PoolIPAllocations} {S E : Type}.
Context `{KS : KubeStore S SpiderIPPool} `{ES : EndpointStore E}.
Context (gcConfig : GarbageCollectionConfig).

(** ** Decisions on a record *)

Section decide.
Context (rd : gc_reads).

Definition isValidStatefulsetOrKubevirt (podNS podName ownerControllerType : string) : outcome bool :=
  isValidStsPod ← (if gc_EnableStatefulSet gcConfig && (ownerControllerType == KindStatefulSet)
                   then IsValidStatefulSetPod (rd_sts rd) podNS podName KindStatefulSet else Ret false);
  if isValidStsPod : bool then Ret true
  else if gc_EnableKubevirtStaticIP gcConfig && (ownerControllerType == KindKubevirtVMI)
  then IsValidVMPod (rd_vmi rd) (rd_vm rd) podNS KindKubevirtVMI podName
  else Ret false.

(** The kind of the first owner, whether it is the controller or not. *)
Definition valid_static (podNS podName : string) (pod : PodDetail) : outcome bool :=
  ref ← index (OwnerReferences (gp_meta pod)) 0;
  isValidStatefulsetOrKubevirt podNS podName (or_Kind ref).

(** Whether to reclaim, and whether to trace. *)
Definition shouldTraceOrReclaimIPInDeletionTimeStampPod (pod : PodDetail) (shouldGc : bool) : outcome (bool * bool) :=
  s ← deref (DeletionGracePeriodSeconds pod);
  deletion ← deref (DeletionTimestamp (gp_meta pod));
  if deletion + seconds s (AdditionalGraceDelay gcConfig) <? rd_now rd then Ret (shouldGc, false)
  else if PodIPs pod == [] then Ret (true, false) else Ret (false, true).

Definition is_static (pod : PodDetail) : bool := IsStaticIPPod (gc_EnableStatefulSet gcConfig) (gc_EnableKubevirtStaticIP gcConfig) (gp_pod pod).

(** The switch on the phase of the Pod. *)
Definition pod_status (podNS podName : string) (pod : PodDetail) (shouldGc : bool) : outcome (bool * bool) :=
  if finished pod then
    if is_static pod then valid ← valid_static podNS podName pod; Ret (negb valid, valid)
    else if terminating pod then shouldTraceOrReclaimIPInDeletionTimeStampPod pod shouldGc
    else Ret (false, false)
  else if Phase (gp_pod pod) == PodPending then Ret (false, false)
  else if terminating pod then shouldTraceOrReclaimIPInDeletionTimeStampPod pod shouldGc
  else if PodIPs pod != [] then Ret (false, false)
  else if is_static pod then valid ← valid_static podNS podName pod; Ret (negb valid, false)
  else if Phase (gp_pod pod) == PodRunning then Ret (EnableGCStatelessRunningPodOnEmptyPodStatusIPs gcConfig, false)
  else Ret (true, false).

(** A Pod of the same name with another UID: its predecessor's leftovers are reclaimed, unless it
    is a static Pod that is still starting. *)
Definition other_uid (podNS podName : string) (pod : PodDetail) : outcome bool :=
  if is_static pod then
    if PodIPs pod != [] then Ret true else valid ← valid_static podNS podName pod; Ret (negb valid)
  else Ret true.

Definition reclaim_address (podNS podName : string) (pod : PodDetail) (uid : string) (shouldGCIP : bool) : outcome bool :=
  if UID (gp_meta pod) != uid then other_uid podNS podName pod else Ret shouldGCIP.

(** Whether the address is reclaimed too, and whether the endpoint is. *)
Definition reclaim_endpoint (podNS podName : string) (pod : PodDetail) (endpoint : error + SpiderEndpoint) (shouldGCIP : bool)
    : outcome (bool * bool) :=
  match endpoint with
  | inl _ => Ret (false, false)
  | inr ep =>
      if UID (gp_meta pod) != ep_UID (current_of ep) then
        gc ← other_uid podNS podName pod;
        Ret (negb (is_static pod), gc)
      else Ret (false, shouldGCIP)
  end.
End decide.

(** ** Scanning all pools *)

Context (elected : bool).
(** What the caches answer while the record of an address of a pool is examined. *)
Context (reads : string → string → gc_reads).
Context (env : string → nat → S → S) (cancelled : nat → bool).

Definition trace_pod (rd : gc_reads) (pod : PodDetail) : cmd (gc_state S E) unit :=
  quiet (e ← lift (buildPodEntry gcConfig (rd_node rd) (rd_sts rd) (rd_vmi rd) (rd_vm rd) (rd_now rd) None (Some pod) false);
         on_db (ApplyPodEntry e)).

(** The label GCIP.  The answer of the IaaS provider is only logged. *)
Definition collect (poolName poolIP : string) (r : PoolIPAllocation) (podNS podName : string) (gcIP gcEndpoint : bool) : cmd (gc_state S E) unit :=
  _ ← (if gcIP then quiet (gc_on_pools (ReleaseIP (env poolName) cancelled poolName [MkIPAndUID poolIP (PodUID r)])) else mret ());
  if gcEndpoint then quiet (gc_on_eps (ReleaseEndpointAndFinalizer podNS podName true)) else mret ().

(** The record of a Pod that was found.  An error is a [continue]. *)
Definition scan_pod (poolName poolIP : string) (r : PoolIPAllocation) (podNS podName : string) (endpoint : error + SpiderEndpoint) (pod : PodDetail)
    : cmd (gc_state S E) unit :=
  let rd := reads poolName poolIP in
  shouldGc ← lift (if is_static pod then Ret false else isShouldGCOrTraceStatelessTerminatingPodOnNode gcConfig (rd_node rd) pod);
  '(shouldGCIP, trace) ← lift (pod_status rd podNS podName pod shouldGc);
  _ ← (if trace && elected then trace_pod rd pod else mret ());
  gcIP ← lift (reclaim_address rd podNS podName pod (PodUID r) shouldGCIP);
  '(also, gcEndpoint) ← lift (reclaim_endpoint rd podNS podName pod endpoint shouldGCIP);
  collect poolName poolIP r podNS podName (gcIP || also) gcEndpoint.

(** The body of the loop. *)
Definition scan_record (poolName poolIP : string) (r : PoolIPAllocation) : cmd (gc_state S E) unit :=
  let rd := reads poolName poolIP in
  '(podNS, podName) ← lift (SplitMetaNamespaceKey (NamespacedName r));
  endpoint ← lift (try (rd_ep rd podNS podName));
  _ ← match endpoint with inr _ => set_suspicious (delete (NamespacedName r)) | inl _ => mret () end;
  pod ← lift (try (rd_pod rd podNS podName));
  match pod with
  | inl podErr =>
      if podErr != APINotFound then lift (Fail podErr)
      else
        match endpoint with
        | inl e => if e == APINotFound then collect poolName poolIP r podNS podName true false else lift (Fail e)
        | inr ep =>
            valid ← lift (isValidStatefulsetOrKubevirt rd podNS podName (OwnerControllerType (ep_status ep)));
            if valid : bool then mret () else collect poolName poolIP r podNS podName true true
        end
  | inr pod => scan_pod poolName poolIP r podNS podName endpoint pod
  end.

(** The records of a pool; a pool whose records do not parse is skipped. *)
Definition pool_records_of (pool : SpiderIPPool) : list (string * (string * PoolIPAllocation)) :=
  match UnmarshalIPPoolAllocatedIPs (AllocatedIPs (pool_status pool)) with
  | Ret records => (λ kr, (Name (pool_meta pool), kr)) <$> range_kv records
  | _ => []
  end.

Definition fnScanAll (pools : list SpiderIPPool) : list (string * (string * PoolIPAllocation)) :=
  filter (λ p, is_Some (ps_IPVersion (pool_spec p))) pools ≫= pool_records_of.

(** ** Endpoints that no record names *)

Definition checkEndpointExistInIPPool (epNamespace epName poolName : string) : cmd (gc_state S E) unit :=
  pool ← gc_on_pools (GetIPPoolByName poolName);
  records ← lift (UnmarshalIPPoolAllocatedIPs (AllocatedIPs (pool_status pool)));
  if existsb (λ kr, (NamespacedName kr.2 == epNamespace +:+ "/" +:+ epName)) (range_kv records) then mret ()
  else quiet (gc_on_eps (ReleaseEndpointAndFinalizer epNamespace epName false)).

Definition detail_pools (d : IPAllocationDetail) : list string := option_list (IPv4Pool d) ++ option_list (IPv6Pool d).

Definition cleanOutdateEndpoint (suspiciousEndpointMap : gmap string WorkloadEndpointStatus) : cmd (gc_state S E) unit :=
  run_all ((λ ks : string * WorkloadEndpointStatus, quiet (
    '(namespace, name) ← lift (SplitMetaNamespaceKey ks.1);
    run_all ((λ pool, quiet (checkEndpointExistInIPPool namespace name pool)) <$> (ep_IPs (Current ks.2) ≫= detail_pools))))
    <$> range_kv suspiciousEndpointMap).

(** The endpoints that no record has named are looked at once more. *)
Definition clean_suspicious : cmd (gc_state S E) unit := λ g,
  if EnableCleanOutdatedEndpoint gcConfig then cleanOutdateEndpoint (suspicious g) g else (Ret (), g).

Definition executeScanAll (listed_eps : outcome (list SpiderEndpoint)) (listed_pools : outcome (list SpiderIPPool)) : cmd (gc_state S E) unit :=
  quiet (
    epList ← lift listed_eps;
    _ ← set_suspicious (λ _, list_to_map ((λ ep, (Namespace (ep_meta ep) +:+ "/" +:+ Name (ep_meta ep), ep_status ep)) <$> reverse epList));
    poolList ← lift listed_pools;
    _ ← run_all ((λ '(pool, (ip, r)), quiet (scan_record pool ip r)) <$> reorder (fnScanAll poolList));
    clean_suspicious).

(** ** Traced Pods whose time is over *)

(** Whether the entry is sent to the executors. *)
Definition handlePodEntryForTracingTimeOut (rd : gc_reads) (e : PodEntry) : cmd (gc_state S E) bool :=
  if TracingStopTime e =? 0 then mret false
  else if negb (TracingStopTime e <? rd_now rd) then mret false
  else
    pod ← lift (try (rd_pod rd (pe_Namespace e) (pe_PodName e)));
    match pod with
    | inl err => mret (err == APINotFound)
    | inr pod =>
        _ ← (if PodIPs pod == [] then on_db (modify (DeletePodEntry (pe_Namespace e) (pe_PodName e))) else mret ());
        mret true
    end.

(** The goroutines, one per pool: whether one failed. *)
Fixpoint gc_release_pools (pius : list (string * list IPAndUID)) : cmd (gc_state S E) bool :=
  match pius with
  | [] => mret false
  | (pool, ius) :: pius => λ g,
      match gc_on_pools (ReleaseIP (env pool) cancelled pool ius) g with
      | (Ret _, g') => gc_release_pools pius g'
      | (Fail e, g') => (failed ← gc_release_pools pius; mret (failed || (e != APINotFound))) g'
      | (Panic, g') => (Panic, g')
      | (OutOfFuel, g') => (OutOfFuel, g')
      end
  end.

(** The limiter's answer, and the release of a subnet's address at the IaaS provider, if any. *)
Context (acquire : list string → outcome unit) (iaas : option (string → string → outcome unit)).

Definition release_iaas (details : list IPAllocationDetail) : outcome unit :=
  match iaas with
  | None => Ret ()
  | Some release =>
      for_each (λ d, match d_IPv4 d with
                     | None => Ret ()
                     | Some a =>
                         match net_ParseCIDR a with
                         | None => Ret ()
                         | Some (ip, subnet) => release (net_string subnet) (ip_string ip)
                         end
                     end) details
  end.

Definition errRequeue : error := ErrOther "requeue".

(** The function an executor runs for a signal. *)
Definition release_entry (rd : gc_reads) (e : PodEntry) : cmd (gc_state S E) unit :=
  endpoint ← lift (try (rd_ep rd (pe_Namespace e) (pe_PodName e)));
  match endpoint with
  | inl err => if err == APINotFound then mret () else lift (Fail err)
  | inr ep =>
      if ep_UID (current_of ep) != pe_UID e then on_db (modify (DeletePodEntry (pe_Namespace e) (pe_PodName e)))
      else
        podUsedIPs ← lift (GroupIPAllocationDetails (ep_UID (current_of ep)) (ep_IPs (current_of ep)));
        _ ← quiet (lift (acquire (Pools podUsedIPs)));
        failed ← gc_release_pools (range_kv podUsedIPs);
        if failed : bool then lift (Fail errRequeue)
        else
          _ ← lift (release_iaas (ep_IPs (current_of ep)));
          _ ← (if ((OwnerControllerType (ep_status ep) == KindStatefulSet)
                   || (OwnerControllerType (ep_status ep) == KindKubevirtVMI))
                  && (DeletionTimestamp (ep_meta ep) == None)
               then gc_on_eps (DeleteEndpoint ep) else mret ());
          _ ← gc_on_eps (RemoveFinalizer ep);
          mret ()
  end.

Definition requeued (now : Z) (e : PodEntry) : PodEntry :=
  MkEntry (pe_PodName e) (pe_Namespace e) (pe_NodeName e) (pe_UID e) now (TracingStartTime e) (TracingGracefulTime e) (TracingStopTime e)
    (PodTracingReason e) (NumRequeues e + 1).

(** One round of an executor. *)
Definition releaseIPPoolIPExecutor (rd : gc_reads) (e : PodEntry) : cmd (gc_state S E) unit := λ g,
  let drop := on_db (modify (DeletePodEntry (pe_Namespace e) (pe_PodName e))) in
  match release_entry rd e g with
  | (Ret _, g') => drop g'
  | (Fail _, g') =>
      if NumRequeues e <? WorkQueueMaxRetries gcConfig then
        match on_db (ApplyPodEntry (Some (requeued (rd_now rd) e))) g' with
        | (Fail _, g') => drop g'
        | r => r
        end
      else drop g'
  | (Panic, g') => (Panic, g')
  | (OutOfFuel, g') => (OutOfFuel, g')
  end.

(** ** pod_informer.go: events *)

Definition apply_event (rd : gc_reads) (oldPod : option PodDetail) (pod : PodDetail) (deleted : bool) : cmd (gc_state S E) unit :=
  if negb elected then mret ()
  else
    quiet (podEntry ← lift (buildPodEntry gcConfig (rd_node rd) (rd_sts rd) (rd_vmi rd) (rd_vm rd) (rd_now rd) oldPod (Some pod) deleted);
           match podEntry with Some e => on_db (ApplyPodEntry (Some e)) | None => mret () end).

Definition onPodAdd (rd : gc_reads) (pod : PodDetail) : cmd (gc_state S E) unit := apply_event rd None pod false.
Definition onPodUpdate (rd : gc_reads) (oldPod pod : PodDetail) : cmd (gc_state S E) unit := apply_event rd (Some oldPod) pod false.
Definition onPodDel (rd : gc_reads) (pod : PodDetail) : cmd (gc_state S E) unit := apply_event rd None pod true.
End gc.

(** ** What a collection leaves alone *)

Lemma evolves_quiet {W A} (R : W → W → Prop) (m : cmd W A) : evolves R m → evolves R (quiet m).
Proof. intros H w. specialize (H w). unfold quiet. by destruct (m w) as [[]]. Qed.

Lemma evolves_run_all {W} (R : W → W → Prop) `{!PreOrder R} (ms : list (cmd W unit)) : Forall (evolves R) ms → evolves R (run_all ms).
Proof. induction 1; cbn [run_all]; [by apply evolves_ret, _|]. by apply evolves_bind; [apply _| |intros _]. Qed.

#[export] Hint Resolve evolves_quiet : evolves.

Section facts.
Context `{MR : MapRange} `{SC : Schedule} `{J : JSON PoolIPAllocations} `{JL : !JSONLaws PoolIPAllocations} {S E : Type}.
Context `{KS : KubeStore S SpiderIPPool} `{KL : !KubeStoreLaws S SpiderIPPool} `{ES : EndpointStore E}.
Context (gcConfig : GarbageCollectionConfig) (elected : bool) (reads : string → string → gc_reads).
Context (env : string → nat → S → S) (cancelled : nat → bool) (acquire : list string → outcome unit).
Context (iaas : option (string → string → outcome unit)).

Section guarantee.
Context {U N : string → Prop} {Gr : PoolIPAllocation → Prop} (Q : lease_table → lease_table → Prop) `{G : !Guarantee U N Gr Q}.
Context (Henv : ∀ pool i s, guaranteed Q s (env pool i s)).

Definition gc_guaranteed (g g' : gc_state S E) : Prop := guaranteed Q (gc_pools g) (gc_pools g').

#[export] Instance gc_guaranteed_preorder : PreOrder gc_guaranteed.
Proof. unfold gc_guaranteed. split; [intros g; apply (guaranteed_preorder Q)|]. intros g1 g2 g3. apply (guaranteed_preorder Q). Qed.

Local Abbreviation kept := (evolves gc_guaranteed).

(** What does not touch the pools. *)
Lemma kept_pools {A} (m : cmd (gc_state S E) A) : (∀ g, gc_pools (m g).2 = gc_pools g) → kept m.
Proof. intros H g. unfold gc_guaranteed. rewrite H. apply (guaranteed_preorder Q). Qed.
Lemma kept_on_pools {A} (m : cmd S A) : evolves (guaranteed Q) m → kept (gc_on_pools m).
Proof. intros H g. specialize (H (gc_pools g)). unfold gc_on_pools. by destruct (m (gc_pools g)). Qed.
Lemma kept_on_eps {A} (m : cmd E A) : kept (gc_on_eps m).
Proof. apply kept_pools. intros g. unfold gc_on_eps. by destruct (m (gc_eps g)). Qed.
Lemma kept_on_db {A} (m : cmd PodDatabase A) : kept (on_db m).
Proof. apply kept_pools. intros g. unfold on_db. by destruct (m (PodDB g)). Qed.
Lemma kept_suspicious f : kept (set_suspicious f).
Proof. by apply kept_pools. Qed.
#[local] Hint Resolve kept_on_eps kept_on_db kept_suspicious : evolves.
#[local] Hint Extern 0 (PreOrder _) => apply gc_guaranteed_preorder : evolves.

Lemma collect_kept pool ip r ns name gcIP gcEp : (gcIP = true → U (PodUID r)) → kept (collect env cancelled pool ip r ns name gcIP gcEp).
Proof.
  intros HU. unfold collect. apply evolves_bind; [apply _| |intros _; apply evolves_if; eauto with evolves].
  destruct gcIP; [|eauto with evolves]. apply evolves_quiet, kept_on_pools, (ReleaseIP_guaranteed Q); [apply Henv|].
  intros iu ->%list_elem_of_singleton. by apply HU.
Qed.

Lemma scan_record_kept pool ip r : U (PodUID r) → kept (scan_record gcConfig elected reads env cancelled pool ip r).
Proof.
  intros HU. unfold scan_record. apply evolves_bind; [apply _|eauto with evolves|]. intros [ns name].
  apply evolves_bind; [apply _|eauto with evolves|]. intros endpoint.
  apply evolves_bind; [apply _|destruct endpoint; eauto with evolves|]. intros _.
  apply evolves_bind; [apply _|eauto with evolves|]. intros [err|pod].
  - apply evolves_if; [eauto with evolves|]. destruct endpoint as [e|ep].
    + apply evolves_if; [by apply collect_kept|eauto with evolves].
    + apply evolves_bind; [apply _|eauto with evolves|]. intros [|]; [eauto with evolves|by apply collect_kept].
  - unfold scan_pod. apply evolves_bind; [apply _|eauto with evolves|]. intros shouldGc.
    apply evolves_bind; [apply _|eauto with evolves|]. intros [shouldGCIP trace].
    apply evolves_bind; [apply _|unfold trace_pod; apply evolves_if; eauto with evolves|]. intros _.
    apply evolves_bind; [apply _|eauto with evolves|]. intros gcIP.
    apply evolves_bind; [apply _|eauto with evolves|]. intros [also gcEp]. by apply collect_kept.
Qed.

Lemma clean_suspicious_kept : kept (clean_suspicious gcConfig).
Proof.
  intros g. unfold clean_suspicious. destruct (EnableCleanOutdatedEndpoint gcConfig); [|cbn; reflexivity].
  unfold cleanOutdateEndpoint. generalize (suspicious g). intros m. revert g. change (kept (run_all
    ((λ ks : string * WorkloadEndpointStatus, quiet (
    '(namespace, name) ← lift (SplitMetaNamespaceKey ks.1);
    run_all ((λ pool, quiet (checkEndpointExistInIPPool namespace name pool)) <$> (ep_IPs (Current ks.2) ≫= detail_pools)))) <$> range_kv m))).
  apply evolves_run_all; [apply _|]. apply Forall_fmap, Forall_forall. intros [key status] _. cbn [compose].
  apply evolves_quiet, evolves_bind; [apply _|eauto with evolves|]. intros [ns name].
  apply evolves_run_all; [apply _|]. apply Forall_fmap, Forall_forall. intros pool _. cbn [compose].
  unfold checkEndpointExistInIPPool. apply evolves_quiet, evolves_bind; [apply _| |].
  - apply kept_on_pools, evolves_read, (guaranteed_preorder Q).
  - intros p. apply evolves_bind; [apply _|eauto with evolves|]. intros records. apply evolves_if; eauto with evolves.
Qed.

(** A scan is as good as the examination of each record that is listed. *)
Lemma executeScanAll_kept listed_eps listed_pools :
  (∀ pools pool ip r, listed_pools = Ret pools → (pool, (ip, r)) ∈ fnScanAll pools →
     kept (scan_record gcConfig elected reads env cancelled pool ip r)) →
  kept (executeScanAll gcConfig elected reads env cancelled listed_eps listed_pools).
Proof.
  intros H. unfold executeScanAll. apply evolves_quiet, evolves_bind; [apply _|eauto with evolves|]. intros eps.
  apply evolves_bind; [apply _|eauto with evolves|]. intros _. apply evolves_lift_bind; [apply _|]. intros pools Hp.
  apply evolves_bind; [apply _| |intros _; apply clean_suspicious_kept]. apply evolves_run_all; [apply _|].
  apply Forall_fmap, Forall_forall. intros [pool [ip r]] Hin. cbn [compose]. apply evolves_quiet, (H pools); [done|].
  by rewrite reorder_perm in Hin.
Qed.

(** An executor releases what is recorded under the UID of the entry, and nothing else. *)
Lemma releaseIPPoolIPExecutor_kept rd e : U (pe_UID e) → kept (releaseIPPoolIPExecutor gcConfig env cancelled acquire iaas rd e).
Proof.
  intros HU g. assert (kept (release_entry env cancelled acquire iaas rd e)) as Hr.
  { unfold release_entry. apply evolves_bind; [apply _|eauto with evolves|]. intros [err|ep]; [apply evolves_if; eauto with evolves|].
    case_bool_decide as Hu; cbn [negb]; [|eauto with evolves]. apply evolves_lift_bind; [apply _|]. intros pius Hp.
    apply evolves_bind; [apply _|eauto with evolves|]. intros _. apply evolves_bind; [apply _| |].
    - assert (∀ pool ius, (pool, ius) ∈ range_kv pius → ∀ iu, iu ∈ ius → U (iu_UID iu)) as HU'.
      { intros pool ius Hin%elem_of_range_kv iu Hiu. by rewrite (GroupIPAllocationDetails_uid _ _ _ _ _ _ Hp Hin Hiu), Hu. }
      clear Hp. induction (range_kv pius) as [|[pool ius] l IH]; cbn [gc_release_pools]; [eauto with evolves|]. intros g0.
      pose proof (kept_on_pools _ (ReleaseIP_guaranteed Q (env pool) (Henv pool) cancelled pool ius (HU' pool ius (list_elem_of_here _ _))) g0) as H1.
      assert (kept (gc_release_pools env cancelled l)) as Hl by (apply IH; intros pool' ius' Hin; apply (HU' pool'); by apply list_elem_of_further).
      destruct (gc_on_pools _ g0) as [[u|err| |] g1]; cbn in H1; [| |done..]; (etrans; [exact H1|]); [apply Hl|].
      apply (evolves_bind gc_guaranteed); [done|]. eauto with evolves.
    - intros failed. apply evolves_if; [eauto with evolves|]. apply evolves_bind; [apply _|eauto with evolves|]. intros _.
      apply evolves_bind; [apply _|apply evolves_if; eauto with evolves|]. intros _. apply evolves_bind; [apply _|eauto with evolves|]. eauto with evolves. }
  unfold releaseIPPoolIPExecutor. specialize (Hr g). destruct (release_entry _ _ _ _ _ _ g) as [[u|err| |] g1]; cbn in Hr; [| |done..].
  - etrans; [exact Hr|]. apply kept_on_db.
  - destruct (_ <? _); [|etrans; [exact Hr|]; apply kept_on_db].
    pose proof (kept_on_db (ApplyPodEntry (Some (requeued (rd_now rd) e))) g1) as H2.
    destruct (on_db _ g1) as [[u|err'| |] g2]; cbn in H2; (etrans; [exact Hr|]); [exact H2| |exact H2..]. etrans; [exact H2|apply kept_on_db].
Qed.
End guarantee.

(** ** The database *)

Definition same_db (g g' : gc_state S E) : Prop := PodDB g' = PodDB g.
#[local] Instance same_db_preorder : PreOrder same_db.
Proof. split; [by intros g|]. intros g1 g2 g3 H1 H2. unfold same_db in *. congruence. Qed.

Lemma same_db_on_pools {A} (m : cmd S A) : evolves same_db (gc_on_pools m).
Proof. intros g. unfold gc_on_pools. by destruct (m (gc_pools g)). Qed.
Lemma same_db_on_eps {A} (m : cmd E A) : evolves same_db (gc_on_eps m).
Proof. intros g. unfold gc_on_eps. by destruct (m (gc_eps g)). Qed.
#[local] Hint Resolve same_db_on_pools same_db_on_eps : evolves.

Lemma gc_release_pools_db l : evolves same_db (gc_release_pools env cancelled l).
Proof.
  induction l as [|[pool ius] l IH]; cbn [gc_release_pools]; [by apply evolves_ret, _|]. intros g.
  pose proof (same_db_on_pools (ReleaseIP (env pool) cancelled pool ius) g) as H1.
  destruct (gc_on_pools _ g) as [[u|err| |] g1]; cbn in H1; [| |done..]; (etrans; [exact H1|]); [apply IH|].
  apply (evolves_bind same_db); [done|]. intros failed. by apply evolves_ret, _.
Qed.

(** A failed round has not touched the database. *)
Lemma release_entry_Fail_db rd e g err g1 :
  release_entry env cancelled acquire iaas rd e g = (Fail err, g1) → PodDB g1 = PodDB g.
Proof.
  unfold release_entry. unfold mbind at 1, cmd_bind at 1, lift at 1. destruct (try _) as [[err'|ep]|e'| |]; [| |by intros [= _ <-]|done..].
  { case_bool_decide; [done|]. by intros [= _ <-]. }
  case_bool_decide; cbn [negb]; [|done]. intros Hf.
  match type of Hf with ?m g = _ => assert (evolves same_db m) as Hm end; [|specialize (Hm g); rewrite Hf in Hm; exact Hm].
  apply evolves_bind; [apply _|by apply evolves_lift, _|]. intros pius.
  apply evolves_bind; [apply _|by apply evolves_quiet, evolves_lift, _|]. intros _.
  apply evolves_bind; [apply _|apply gc_release_pools_db|]. intros failed. apply evolves_if; [by apply evolves_lift, _|].
  apply evolves_bind; [apply _|by apply evolves_lift, _|]. intros _.
  apply evolves_bind; [apply _|apply evolves_if; [apply same_db_on_eps|by apply evolves_ret, _]|]. intros _.
  apply evolves_bind; [apply _|apply same_db_on_eps|]. intros u. by apply evolves_ret, _.
Qed.

(** ** Pods that are alive *)

(** Neither being deleted nor finished, and still starting or with its addresses. *)
Definition in_use (pod : PodDetail) : Prop :=
  terminating pod = false ∧ finished pod = false ∧ (Phase (gp_pod pod) = PodPending ∨ PodIPs pod ≠ []).

Lemma pod_status_in_use rd ns name pod shouldGc : in_use pod → pod_status gcConfig rd ns name pod shouldGc = Ret (false, false).
Proof.
  intros (Ht & Hf & Hi). unfold pod_status. rewrite Ht, Hf. case_bool_decide as Hp; [done|]. destruct Hi as [?|Hi]; [done|].
  by rewrite bool_decide_false.
Qed.

(** The endpoint that is read, if there is one, is that of the Pod, or the addresses of the Pod are
    fixed: then an endpoint of another UID is no reason to take the address. *)
Definition endpoint_agrees (uid : string) (pod : PodDetail) (endpoint : outcome SpiderEndpoint) : Prop :=
  is_static gcConfig pod = true ∨ ∀ ep, endpoint = Ret ep → ep_UID (current_of ep) = uid.

Lemma quiet_eps_pools {A} (m : cmd E A) (g : gc_state S E) : gc_pools (quiet (gc_on_eps m) g).2 = gc_pools g.
Proof. unfold quiet, gc_on_eps. by destruct (m (gc_eps g)) as [[]]. Qed.

(** The record of such a Pod is examined without any effect on pools. *)
Lemma scan_pod_in_use pool ip r ns name (read : outcome SpiderEndpoint) endpoint pod g :
  UID (gp_meta pod) = PodUID r → in_use pod → endpoint_agrees (PodUID r) pod read → (∀ ep, endpoint = inr ep → read = Ret ep) →
  gc_pools (scan_pod gcConfig elected reads env cancelled pool ip r ns name endpoint pod g).2 = gc_pools g.
Proof.
  intros Hu Hin Hep Hread. unfold scan_pod. unfold mbind at 1, cmd_bind at 1, lift at 1. destruct (if is_static gcConfig pod then _ else _) as [b|e| |]; [|done..].
  rewrite pod_status_in_use by done. unfold lift at 1, mbind at 1, cmd_bind at 1. cbn [andb]. unfold mbind at 1, cmd_bind at 1, mret at 1, cmd_ret at 1.
  unfold reclaim_address. rewrite bool_decide_true by done. cbn [negb]. unfold lift at 1, mbind at 1, cmd_bind at 1.
  assert (∀ x y, reclaim_endpoint gcConfig (reads pool ip) ns name pod endpoint false = Ret (x, y) → x = false) as Hx.
  { intros x y. unfold reclaim_endpoint. destruct endpoint as [e|ep]; [by intros [= <- _]|]. case_bool_decide as Hne; cbn [negb]; [by intros [= <- _]|].
    intros (gc & _ & [= <- _])%bind_Ret. destruct Hep as [->|Hep]; [done|]. destruct Hne. rewrite Hu. symmetry. by apply Hep, Hread. }
  unfold lift, mbind at 1, cmd_bind at 1. destruct (reclaim_endpoint _ _ _ _ _ _ _) as [[x y]|e| |]; [|done..]. rewrite (Hx x y eq_refl).
  unfold collect. cbn [orb andb]. unfold mbind, cmd_bind, mret, cmd_ret. destruct y; [apply quiet_eps_pools|done].
Qed.

Lemma scan_record_in_use pool ip r ns name pod g :
  SplitMetaNamespaceKey (NamespacedName r) = Ret (ns, name) → rd_pod (reads pool ip) ns name = Ret pod →
  UID (gp_meta pod) = PodUID r → in_use pod → endpoint_agrees (PodUID r) pod (rd_ep (reads pool ip) ns name) →
  gc_pools (scan_record gcConfig elected reads env cancelled pool ip r g).2 = gc_pools g.
Proof.
  intros Hs Hp Hu Hin Hep. unfold scan_record. rewrite Hs. unfold lift, set_suspicious, modify, mret, cmd_ret, mbind, cmd_bind, try. cbn beta iota. rewrite Hp.
  destruct (rd_ep (reads pool ip) ns name) as [ep|e| |] eqn:Ee; [| |done..]; rewrite (scan_pod_in_use _ _ _ _ _ (rd_ep (reads pool ip) ns name)); try done; rewrite Ee; try done.
  by intros ep' [= <-].
Qed.

(** C17: the collector does not take the address of a Pod that is alive, as long as the endpoint in
    its cache is not one of another Pod.  A record of a Pod that, at each moment of the scan at which
    it is looked up, is found under the recorded name with the recorded UID - neither being deleted
    nor finished, and either still starting or with its addresses - survives [executeScanAll],
    whatever else the scan finds, on these conditions: the endpoint that is read under the name, if
    there is one, carries the recorded UID, unless the Pod has fixed addresses (otherwise the address
    is taken, as [foreign_endpoint_reclaims] shows); the records that are listed have one name per
    UID; and the other clients keep the record. *)
Theorem executeScanAll_spares_live poolName k r ns name listed_eps listed_pools g :
  (∀ pool i s, guaranteed (keeps_lease poolName k r) s (env pool i s)) →
  (∀ pools pool ip r', listed_pools = Ret pools → (pool, (ip, r')) ∈ fnScanAll pools →
     PodUID r' = PodUID r → NamespacedName r' = NamespacedName r) →
  SplitMetaNamespaceKey (NamespacedName r) = Ret (ns, name) →
  (∀ pool ip, ∃ pod, rd_pod (reads pool ip) ns name = Ret pod ∧ UID (gp_meta pod) = PodUID r ∧ in_use pod ∧
     endpoint_agrees (PodUID r) pod (rd_ep (reads pool ip) ns name)) →
  valid (gc_pools g) → recorded poolName k r (gc_pools g) →
  recorded poolName k r (gc_pools (E := E) (executeScanAll gcConfig elected reads env cancelled listed_eps listed_pools g).2).
Proof.
  intros Henv Huid Hs Hpod V Hrec. eapply keeps_recorded; [|exact Hrec].
  apply (executeScanAll_kept (keeps_lease poolName k r) listed_eps listed_pools); [|done].
  intros pools pool ip r' Hl Hin. destruct (decide (PodUID r' = PodUID r)) as [Eu|Hne]; [|by apply (scan_record_kept _ Henv)].
  destruct (Hpod pool ip) as (pod & Hp & Hu & Hi & Ha). apply (kept_pools (keeps_lease poolName k r)). intros g'.
  eapply scan_record_in_use; [by rewrite (Huid pools pool ip r')|exact Hp|congruence|done|]. by rewrite Eu.
Qed.

(** An executor takes nothing from another Pod, and gives up after a bounded number of
    attempts.  A record under another UID than that of the entry survives a round of
    [releaseIPPoolIPExecutor], however it ends; and after the round the entry is gone, unless the
    round has failed with attempts left, in which case it counts one attempt more. *)
Theorem releaseIPPoolIPExecutor_spares_others poolName k r rd e g :
  (∀ pool i s, guaranteed (keeps_lease poolName k r) s (env pool i s)) → pe_UID e ≠ PodUID r →
  valid (gc_pools g) → recorded poolName k r (gc_pools g) → db_ok (PodDB g) →
  let '(o, g') := releaseIPPoolIPExecutor (E := E) gcConfig env cancelled acquire iaas rd e g in
  recorded poolName k r (gc_pools g') ∧
  (o = Ret () → ∀ e', pods (PodDB g') !! (pe_Namespace e, pe_PodName e) = Some e' →
    NumRequeues e < WorkQueueMaxRetries gcConfig ∧ NumRequeues e' = NumRequeues e + 1).
Proof.
  intros Henv Hu V Hrec Hdb.
  pose proof (releaseIPPoolIPExecutor_kept (keeps_lease poolName k r) (G := keeps_guarantee poolName k r) Henv rd e Hu g) as Hk.
  destruct (releaseIPPoolIPExecutor _ _ _ _ _ _ _ g) as [o g'] eqn:Er. split.
  { eapply keeps_recorded; [|exact Hrec]. by apply Hk. }
  intros -> e' He'. unfold releaseIPPoolIPExecutor in Er. destruct (release_entry _ _ _ _ _ _ g) as [[u|err| |] g1] eqn:Ef; [| |done..].
  { apply (f_equal snd) in Er. cbn in Er. subst g'. cbn in He'. by rewrite DeletePodEntry_gone in He'. }
  apply release_entry_Fail_db in Ef as Ed. rewrite <- Ed in Hdb.
  destruct (Z.ltb_spec (NumRequeues e) (WorkQueueMaxRetries gcConfig)); [|apply (f_equal snd) in Er; cbn in Er; subst g'; cbn in He'; by rewrite DeletePodEntry_gone in He'].
  split; [done|]. unfold on_db in Er. destruct (ApplyPodEntry _ (PodDB g1)) as [[[]|err'| |] d] eqn:Ea; [| |done..].
  - apply (f_equal snd) in Er. cbn in Er. subst g'. cbn [PodDB] in He'. by apply (ApplyPodEntry_requeues (requeued (rd_now rd) e) _ _ _ Hdb Ea).
  - apply (f_equal snd) in Er. cbn in Er. subst g'. cbn in He'. by rewrite DeletePodEntry_gone in He'.
Qed.
End facts.

(** ** Concrete scans *)

(** Of the Pod "default/web-0", whose address 10.0.0.2 is recorded under "uid-0". *)
Definition ex_gc_meta (owners : list OwnerReference) (deletion : option Z) : ObjectMeta := MkMeta "web-0" "default" "uid-0" 1 ∅ ∅ [] owners deletion.
Definition ex_detail_of (owners : list OwnerReference) (deletion : option Z) (ips : list string) : PodDetail :=
  MkPodDetail (MkPod (ex_gc_meta owners deletion) "node" RestartAlways PodRunning "") false ips (Some 30) (Some 30) [].
Definition ex_gc_endpoint (kind : string) : SpiderEndpoint :=
  MkEndpoint (set_Finalizers [SpiderFinalizer] (plain_meta "default" "web-0" ""))
    (MkEndpointStatus (MkPodIPAllocation "uid-0" "node"
       [MkDetail "eth0" (Some "10.0.0.2/24") None (Some "pool") None (Some 0) None None None [] None]) kind "web").
Definition ex_reads (pod : outcome PodDetail) (ep : outcome SpiderEndpoint) (now : Z) : gc_reads :=
  MkReads (λ _ _, pod) (λ _ _, ep) ex_ready (λ _ _, Ret (MkStatefulSet None (Some 3))) (λ _ _, Fail APINotFound) (λ _ _, Fail APINotFound) now.
Definition ex_gc : gc_state (mem_store SpiderIPPool) mem_eps := MkGC ex_store2 (MkEps {["default/web-0" := ex_gc_endpoint "StatefulSet"]} 1) (NewPodDBer 2) ∅.
Definition ex_listed : outcome (list SpiderIPPool) := Ret (snd <$> map_to_list (objs ex_store2)).
Definition ex_scan (reads : string → string → gc_reads) : cmd (gc_state (mem_store SpiderIPPool) mem_eps) unit :=
  executeScanAll (MR := ordered_range) (SC := in_order) (J := ex_json) ex_gc_config true reads (λ _ _ s, s) (λ _, false)
    (Ret [ex_gc_endpoint "StatefulSet"]) ex_listed.

(** The address is recorded for the Pod. *)
Definition holds (g : gc_state (mem_store SpiderIPPool) mem_eps) : bool :=
  match objs (gc_pools g) !! "pool" with
  | Some p => match UnmarshalIPPoolAllocatedIPs (J := ex_json) (AllocatedIPs (pool_status p)) with
              | Ret records => (records !! "10.0.0.2" == Some (MkPoolIPAllocation "default/web-0" "uid-0"))
              | _ => false
              end
  | None => false
  end.

Definition ex_live : string → string → gc_reads :=
  λ _ _, ex_reads (Ret (ex_detail_of [] None ["10.0.0.2"%string])) (Ret (ex_gc_endpoint "Deployment")) (10 ^ 18).

Lemma ex_gc_recorded : recorded (H := ex_json) "pool" "10.0.0.2" (MkPoolIPAllocation "default/web-0" "uid-0") ex_store2.
Proof. eexists _, _. split; [vm_compute; reflexivity|]. split; vm_compute; reflexivity. Qed.

Lemma ex_listed_records pools :
  ex_listed = Ret pools → fnScanAll (MR := ordered_range) (J := ex_json) pools = [("pool", ("10.0.0.2", MkPoolIPAllocation "default/web-0" "uid-0"))]%string.
Proof. intros H%Ret_inj. rewrite <- H. vm_compute. reflexivity. Qed.

Lemma executeScanAll_spares_live_witness :
  recorded (H := ex_json) "pool" "10.0.0.2" (MkPoolIPAllocation "default/web-0" "uid-0") (gc_pools (ex_scan ex_live ex_gc).2).
Proof.
  unfold ex_scan.
  refine (executeScanAll_spares_live (MR := ordered_range) (SC := in_order) (JL := ex_json_laws) (KL := mem_pools) (E := mem_eps)
    ex_gc_config true ex_live (λ _ _ s, s) (λ _, false) "pool" "10.0.0.2" (MkPoolIPAllocation "default/web-0" "uid-0") "default" "web-0"
    (Ret [ex_gc_endpoint "StatefulSet"]) ex_listed ex_gc _ _ _ _ _ _).
  - intros. apply (guaranteed_preorder (keeps_lease "pool" "10.0.0.2" (MkPoolIPAllocation "default/web-0" "uid-0"))).
  - intros pools pool ip r' Hl Hin _. apply ex_listed_records in Hl. rewrite Hl, list_elem_of_singleton in Hin. by injection Hin as _ _ ->.
  - reflexivity.
  - intros pool ip. exists (ex_detail_of [] None ["10.0.0.2"%string]). split; [reflexivity|]. split; [reflexivity|].
    split; [split; [reflexivity|]; split; [reflexivity|]; by right|]. right. by intros ep [= <-].
  - apply ex_store2_valid.
  - apply ex_gc_recorded.
Defined.

Definition ex_entry (uid : string) : PodEntry := MkEntry "web-0" "default" "node" uid 0 (10 ^ 18) 0 (10 ^ 18) StDeleted 1.

Lemma releaseIPPoolIPExecutor_spares_others_witness :
  let rd := ex_reads (Fail APINotFound) (Ret (ex_gc_endpoint "Deployment")) (2 * 10 ^ 18) in
  let '(o, g') := releaseIPPoolIPExecutor (MR := ordered_range) (J := ex_json) ex_gc_config (λ _ _ s, s) (λ _, false) (λ _, Ret ()) None
    rd (ex_entry "uid-9") ex_gc in
  recorded (H := ex_json) "pool" "10.0.0.2" (MkPoolIPAllocation "default/web-0" "uid-0") (gc_pools g') ∧
  (o = Ret () → ∀ e', pods (PodDB g') !! ("default", "web-0")%string = Some e' → 1 < 5 ∧ NumRequeues e' = 1 + 1).
Proof.
  refine (releaseIPPoolIPExecutor_spares_others (MR := ordered_range) (JL := ex_json_laws) (KL := mem_pools) (E := mem_eps)
    ex_gc_config (λ _ _ s, s) (λ _, false) (λ _, Ret ()) None "pool" "10.0.0.2" (MkPoolIPAllocation "default/web-0" "uid-0")
    (ex_reads (Fail APINotFound) (Ret (ex_gc_endpoint "Deployment")) (2 * 10 ^ 18)) (ex_entry "uid-9") ex_gc _ _ _ _ _).
  - intros. apply (guaranteed_preorder (keeps_lease "pool" "10.0.0.2" (MkPoolIPAllocation "default/web-0" "uid-0"))).
  - discriminate.
  - apply ex_store2_valid.
  - apply ex_gc_recorded.
  - split; [done|apply map_Forall_empty].
Defined.

(** The address of a Pod that is gone is collected. *)
Example orphan_collected : holds ex_gc = true ∧ holds (ex_scan (λ _ _, ex_reads (Fail APINotFound) (Fail APINotFound) (10 ^ 18)) ex_gc).2 = false.
Proof. split; vm_compute; reflexivity. Qed.

(** ** Scans that take too much *)

Definition ex_owner (api kind : string) (controller : bool) : OwnerReference := MkOwnerReference api kind "web" "uid-web" (Some controller).

(** A Pod of a StatefulSet that is restarted keeps its address while it is gone, and while it has
    its addresses; but when it is found terminating, within its grace period and without
    addresses, its fixed address is collected. *)
Theorem static_terminating_reclaimed :
  let sts := [ex_owner "apps/v1" "StatefulSet" true] in
  let scan pod := holds (ex_scan (λ _ _, ex_reads pod (Ret (ex_gc_endpoint "StatefulSet")) (10 ^ 18 + 1)) ex_gc).2 in
  scan (Fail APINotFound) = true ∧ scan (Ret (ex_detail_of sts (Some (10 ^ 18)) ["10.0.0.2"%string])) = true ∧
  scan (Ret (ex_detail_of sts (Some (10 ^ 18)) [])) = false.
Proof. split_and!; vm_compute; reflexivity. Qed.

(** The address of a running Pod, recorded under its own UID, is collected when the endpoint that the
    cache has under its name still carries the UID of a predecessor. *)
Definition ex_foreign_endpoint : SpiderEndpoint :=
  MkEndpoint (plain_meta "default" "web-0" "") (MkEndpointStatus (MkPodIPAllocation "uid-old" "node" []) "Deployment" "web").
Theorem foreign_endpoint_reclaims :
  let pod := ex_detail_of [] None ["10.0.0.2"%string] in
  UID (gp_meta pod) = "uid-0"%string ∧ in_use pod ∧ holds ex_gc = true ∧
  holds (ex_scan (λ _ _, ex_reads (Ret pod) (Ret ex_foreign_endpoint) (10 ^ 18)) ex_gc).2 = false.
Proof. split; [reflexivity|]. split; [split_and!; [reflexivity|reflexivity|by right]|]. split; vm_compute; reflexivity. Qed.

(** Whether a Pod with fixed addresses is valid is decided by the kind of its first owner: with
    another owner in front of its StatefulSet its address is collected while it starts. *)
Theorem first_owner_decides :
  let scan owners := holds (ex_scan (λ _ _, ex_reads (Ret (ex_detail_of owners None [])) (Ret (ex_gc_endpoint "StatefulSet")) (10 ^ 18)) ex_gc).2 in
  scan [ex_owner "apps/v1" "StatefulSet" true] = true ∧
  scan [ex_owner "v1" "ConfigMap" false; ex_owner "apps/v1" "StatefulSet" true] = false.
Proof. split; vm_compute; reflexivity. Qed.

(** A grace period beyond 292 years overflows: the address of a Pod that has just begun to
    terminate, and still has it, is collected. *)
Theorem overflow_reclaims :
  let pod s := MkPodDetail (MkPod (ex_gc_meta [] (Some (10 ^ 18))) "node" RestartAlways PodRunning "") false ["10.0.0.2"%string] (Some s) (Some s) [] in
  let scan s := holds (ex_scan (λ _ _, ex_reads (Ret (pod s)) (Ret (ex_gc_endpoint "Deployment")) (10 ^ 18 + 1)) ex_gc).2 in
  scan 30 = true ∧ scan (10 ^ 10) = false.
Proof. split; vm_compute; reflexivity. Qed.
