(* ===== verification/AppUtils.v ===== *)
(** * pkg/applicationcontroller/applicationinformers/utils.go: applications and their subnets

    The name and the labels of an auto-created pool, the record of the application it is made for,
    the annotations with which an application asks for subnets, and the free addresses of a subnet.
    Strings are of ASCII characters. *)

From S2P Require Import Prelude NetIP NetIPFacts IPAddr Cidr IPRange K8s Convert IPPoolManager PoolUtils Selector PoolSelection Workload.
Local Open Scope Z_scope.
Local Open Scope go_scope.

(** ** Strings *)

Definition lower_char (c : ascii) : ascii :=
  let n := nat_of_ascii c in if (65 <=? n)%nat && (n <=? 90)%nat then ascii_of_nat (n + 32) else c.
(** [strings.ToLower] *)
Fixpoint ToLower (s : string) : string :=
  match s with EmptyString => EmptyString | String c s => String (lower_char c) (ToLower s) end.

Definition len (s : string) : Z := Z.of_nat (String.length s).

(** [s[:n]] *)
Definition string_to (s : string) (n : Z) : outcome string :=
  if bool_decide (0 ≤ n ≤ len s) then Ret (String.substring 0 (Z.to_nat n) s) else Panic.

(** [strings.Count] for a pattern of one byte. *)
Fixpoint count_char (c : ascii) (s : string) : nat :=
  match s with
  | EmptyString => 0
  | String d s => if d == c then S (count_char c s) else count_char c s
  end.

(** [strings.HasSuffix] *)
Definition HasSuffix (s suffix : string) : bool :=
  (String.length suffix <=? String.length s)%nat &&
  (String.substring (String.length s - String.length suffix) (String.length suffix) s == suffix).

(** [strconv.ParseBool] *)
Definition ParseBool (s : string) : outcome bool :=
  if bool_decide (s ∈ ["1"; "t"; "T"; "true"; "TRUE"; "True"]%string) then Ret true
  else if bool_decide (s ∈ ["0"; "f"; "F"; "false"; "FALSE"; "False"]%string) then Ret false
  else Fail (ErrOther "strconv.ParseBool").

(** ** The name of an auto-created pool *)

Definition maxNameLength : Z := 253.
Definition randomLength : Z := 5.

Definition AutoPoolName (controllerName : string) (ipVersion : Z) (ifName appUID : string) : outcome string :=
  let splits := split "-" appUID in
  lastOne ← index splits (length splits - 1);
  lastOne ← (if randomLength <? len lastOne then string_to lastOne randomLength else Ret lastOne);
  let maxCustomNameLength := maxNameLength - len lastOne - 7 in
  controllerName ← (if maxCustomNameLength <? len (controllerName +:+ ifName)
                    then string_to controllerName (maxCustomNameLength - len ifName) else Ret controllerName);
  Ret ("auto" +:+ itoa ipVersion +:+ "-" +:+ ToLower controllerName +:+ "-" +:+ ToLower ifName +:+ "-" +:+ ToLower lastOne).

(** ** The application of a pool, in labels and in the status of a subnet *)

(** [schema.GroupVersion.String] *)
Definition GroupVersion_String (group version : string) : string :=
  if group == EmptyString then version else group +:+ "/" +:+ version.

Definition ApplicationLabelGV (apiVersion : string) : string :=
  match cut "/" apiVersion with
  | Some (first, second) => first +:+ "_" +:+ second
  | None => apiVersion
  end.

(** [None] when the text is not of the format. *)
Definition ParseApplicationGVStr (str : string) : option string :=
  match split "_" str with
  | [v] => Some (GroupVersion_String "" v)
  | [g; v] => Some (GroupVersion_String g v)
  | _ => None
  end.

Definition ApplicationNamespacedName (app : AppNamespacedName) : string :=
  match cut "/" (app_APIVersion app) with
  | Some (first, second) =>
      first +:+ "_" +:+ second +:+ "_" +:+ app_Kind app +:+ "_" +:+ app_Namespace app +:+ "_" +:+ app_Name app
  | None => app_APIVersion app +:+ "_" +:+ app_Kind app +:+ "_" +:+ app_Namespace app +:+ "_" +:+ app_Name app
  end.

Definition ParseApplicationNamespacedName (key : string) : option AppNamespacedName :=
  match split "_" key with
  | [v; kind; ns; name] => Some (MkApp (GroupVersion_String "" v) kind ns name)
  | [g; v; kind; ns; name] => Some (MkApp (GroupVersion_String g v) kind ns name)
  | _ => None
  end.

Definition GetAppReplicas (replicas : option Z) : Z := default 0 replicas.

(** ** Free addresses *)

Section free_ips.
Context `{MR : MapRange} `{J' : JSON PoolIPPreAllocations}.

Definition GenSubnetFreeIPs (subnet : SpiderSubnet) : outcome (list IP) :=
  controlledIPPools ← UnmarshalSubnetAllocatedIPPools (ControlledIPPools (subnet_status subnet));
  let used := concat ((λ kv, pre_IPs kv.2) <$> range_kv controlledIPPools) in
  version ← deref (ss_IPVersion (subnet_spec subnet));
  usedIPs ← ParseIPRanges version used;
  totalIPs ← AssembleTotalIPs version (ss_IPs (subnet_spec subnet)) (ss_ExcludeIPs (subnet_spec subnet));
  IPsDiffSet totalIPs usedIPs true.
End free_ips.

(** ** The annotations of an application *)

Record AnnoSubnetItem := MkSubnetItem { si_Interface : string; si_IPv4 : list string; si_IPv6 : list string }.
Record PodSubnetAnnoConfig := MkSubnetAnno {
  MultipleSubnets : list AnnoSubnetItem;
  SingleSubnet : option AnnoSubnetItem;
  FlexibleIPNum : option Z;
  AssignIPNum : Z;
  ReclaimIPPool : bool
}.

Definition AnnoSpiderSubnetPoolIPNumber : string := AnnotationPre +:+ "/ippool-ip-number".
Definition AnnoSpiderSubnetReclaimIPPool : string := AnnotationPre +:+ "/ippool-reclaim".

(** The comparison of neighbours in the sorted array. *)
Fixpoint equal_neighbours (l : list string) : bool :=
  match l with
  | x :: (y :: _) as l' => (y == x) || equal_neighbours l'
  | _ => false
  end.
Definition containsDuplicate (arr : list string) : bool := equal_neighbours (merge_sort String.le arr).

(** Only the first subnet of a family is kept, and it must not be empty. *)
Definition first_subnet (what : string) (l : list string) : outcome (list string) :=
  match l with
  | [] => Ret []
  | s :: _ => if s == EmptyString then Fail (ErrOther what) else Ret [s]
  end.

Definition restrict_item (item : AnnoSubnetItem) : outcome AnnoSubnetItem :=
  v4 ← first_subnet "empty IPv4 subnet" (si_IPv4 item);
  v6 ← first_subnet "empty IPv6 subnet" (si_IPv6 item);
  match v4, v6 with
  | [], [] => Fail (ErrOther "dual empty subnet")
  | _, _ => Ret (MkSubnetItem (si_Interface item) v4 v6)
  end.

Fixpoint restrict_items (items : list AnnoSubnetItem) : outcome (list AnnoSubnetItem) :=
  match items with
  | [] => Ret []
  | item :: items => i ← restrict_item item; l ← restrict_items items; Ret (i :: l)
  end.

(** What is left of the configuration when an error is returned is not used. *)
Definition mutateAndValidateSubnetAnno (c : PodSubnetAnnoConfig) : outcome PodSubnetAnnoConfig :=
  match MultipleSubnets c, SingleSubnet c with
  | _ :: _, _ =>
      items ← restrict_items (MultipleSubnets c);
      if containsDuplicate (concat (si_IPv4 <$> items)) || containsDuplicate (concat (si_IPv6 <$> items))
      then Fail (ErrOther "the same subnet for multiple interfaces")
      else if containsDuplicate (si_Interface <$> items) then Fail (ErrOther "the same Interface name for multiple interfaces")
      else Ret (MkSubnetAnno items (SingleSubnet c) (FlexibleIPNum c) (AssignIPNum c) (ReclaimIPPool c))
  | [], Some item =>
      item ← restrict_item item;
      let item := if si_Interface item == EmptyString
                  then MkSubnetItem ClusterDefaultInterfaceName (si_IPv4 item) (si_IPv6 item) else item in
      Ret (MkSubnetAnno [] (Some item) (FlexibleIPNum c) (AssignIPNum c) (ReclaimIPPool c))
  | [], None => Fail (ErrOther "no subnets specified")
  end.

(** Whether the number is flexible, and the number. *)
Definition GetPoolIPNumber (str : string) : outcome (bool * Z) :=
  if (count_char "+" str <=? 1)%nat then
    let '(found, tmp) := match cut "+" str with Some (_, after) => (true, after) | None => (false, str) end in
    match atoi tmp with Some ipNum => Ret (found, ipNum) | None => Fail (ErrOther "invalid input") end
  else Fail (ErrOther "invalid input").

Definition ShouldReclaimIPPool (anno : gmap string string) : outcome bool :=
  match anno !! AnnoSpiderSubnetReclaimIPPool with Some reclaimPool => ParseBool reclaimPool | None => Ret true end.

Section annotations.
(** [json.Unmarshal] of the two annotations. *)
Context (json_items : string → option (list AnnoSubnetItem)) (json_item : string → option (option AnnoSubnetItem)).
(** [*ClusterSubnetAutoPoolDefaultRedundantIPNumber] *)
Context (redundant : Z).

Definition GetSubnetAnnoConfig (anno : gmap string string) : outcome (option PodSubnetAnnoConfig) :=
  subnets ←
    match anno !! AnnoSpiderSubnets with
    | Some subnets => match json_items subnets with Some l => Ret (Some (l, None)) | None => Fail (ErrOther "json.Unmarshal") end
    | None =>
        match anno !! AnnoSpiderSubnet with
        | Some subnet => match json_item subnet with Some i => Ret (Some ([], i)) | None => Fail (ErrOther "json.Unmarshal") end
        | None => Ret None
        end
    end;
  match subnets with
  | None => Ret None
  | Some (multiple, single) =>
      '(flexible, assign) ←
        match anno !! AnnoSpiderSubnetPoolIPNumber with
        | Some poolIPNum =>
            '(isFlexible, ipNum) ← GetPoolIPNumber poolIPNum;
            if ipNum <? 0 then Fail (ErrOther "negative number")
            else if isFlexible : bool then Ret (Some ipNum, 0) else Ret (None, ipNum)
        | None => Ret (Some redundant, 0)
        end;
      reclaimPool ← ShouldReclaimIPPool anno;
      c ← mutateAndValidateSubnetAnno (MkSubnetAnno multiple single flexible assign reclaimPool);
      Ret (Some c)
  end.
End annotations.

Definition CalculateJobPodNum (parallelism completions : option Z) : Z :=
  match parallelism, completions with
  | Some p, None => if p =? 0 then 1 else p
  | None, Some c => if c =? 0 then 1 else c
  | Some _, Some c => if c =? 0 then 1 else c
  | None, None => 1
  end.

Definition IsDefaultIPPoolMode (c : option PodSubnetAnnoConfig) : bool :=
  match c with None => true | Some _ => false end.

(** ** Whether an application exists *)

Record GroupVersionResource := MkGVR { gvr_Group : string; gvr_Version : string; gvr_Resource : string }.
#[export] Instance GroupVersionResource_eq_dec : EqDecision GroupVersionResource.
Proof. solve_decision. Defined.

Definition ParseGroupVersion (gv : string) : outcome (string * string) :=
  if (gv == EmptyString) || (gv == "/"%string) then Ret ("", "")%string
  else match split "/" gv with
       | [v] => Ret (""%string, v)
       | [g; v] => Ret (g, v)
       | _ => Fail (ErrOther "unexpected GroupVersion string")
       end.

(** The plural of [meta.UnsafeGuessKindToResource]. *)
Definition guess_resource (group version kind : string) : GroupVersionResource :=
  if kind == EmptyString then MkGVR "" "" ""
  else
    let singularName := ToLower kind in
    let n := (String.length singularName - 1)%nat in
    let lastChar := String.substring n 1 singularName in
    MkGVR group version
      (if HasSuffix singularName "endpoints" then singularName
       else if lastChar == "s"%string then singularName +:+ "es"
       else if lastChar == "y"%string then String.substring 0 n singularName +:+ "ies"
       else singularName +:+ "s").

Definition GenerateGVR (app : AppNamespacedName) : outcome GroupVersionResource :=
  '(group, version) ← ParseGroupVersion (app_APIVersion app);
  Ret (guess_resource group version (app_Kind app)).

Definition K8sKinds : list string := [KindPod; KindDeployment; KindReplicaSet; KindDaemonSet; KindStatefulSet; KindJob; KindCronJob].

Definition IsThirdController (app : AppNamespacedName) : bool :=
  if bool_decide (app_APIVersion app ∈ K8sAPIVersions) then negb (bool_decide (app_Kind app ∈ K8sKinds)) else true.

Section exist.
(** The UID of an object of a built-in kind, by namespace and name, and of one of a resource. *)
Context (get_typed : string → string → string → outcome string).
Context (get_dynamic : GroupVersionResource → string → string → outcome string).

Definition IsAppExist (app : AppNamespacedName) : outcome (bool * string) :=
  let found (o : outcome string) :=
    match o with
    | Ret uid => Ret (true, uid)
    | Fail e => if e == APINotFound then Ret (false, ""%string) else Fail e
    | Panic => Panic
    | OutOfFuel => OutOfFuel
    end in
  if IsThirdController app then
    gvr ← GenerateGVR app;
    found (get_dynamic gvr (app_Namespace app) (app_Name app))
  else found (get_typed (app_Kind app) (app_Namespace app) (app_Name app)).
End exist.

Definition IsReclaimAutoPoolLabelValue (isReclaim : bool) : string := if isReclaim then "true" else "false".
Definition AutoPoolIPVersionLabelValue (ipVersion : Z) : string := if ipVersion =? IPv4 then "IPv4" else "IPv6".

(** ** Facts *)

Lemma split_go_nonempty sep cur s : ∃ x l, split_go sep cur s = x :: l.
Proof. revert cur. induction s as [|c s IH]; intros cur; cbn; [eauto|]. case_match; eauto. Qed.

Lemma length_ToLower s : String.length (ToLower s) = String.length s.
Proof. induction s; cbn; congruence. Qed.

Lemma len_app a b : len (a +:+ b) = len a + len b.
Proof.
  unfold len. induction a as [|c a IH]; [done|]. rewrite string_app_cons. cbn [String.length]. lia.
Qed.

Lemma length_substring n s : (n ≤ String.length s)%nat → String.length (String.substring 0 n s) = n.
Proof. revert n. induction s as [|c s IH]; intros [|n]; cbn; intros; [lia..|]. rewrite IH; lia. Qed.

Lemma string_to_Ret s n r : string_to s n = Ret r → len r = n.
Proof.
  unfold string_to, len. case_bool_decide as H; [|done]. intros [= <-]. unfold len in H. rewrite length_substring; lia.
Qed.

Lemma equal_neighbours_NoDup l : Sorted String.le l → equal_neighbours l = false ↔ NoDup l.
Proof.
  induction l as [|x l IH]; intros Hs; [by split; constructor|].
  inversion Hs as [|? ? Hs' Hhd]; subst. specialize (IH Hs'). rewrite NoDup_cons. destruct l as [|y l].
  { cbn. split; [|done]. intros _. split; [apply not_elem_of_nil|constructor]. }
  change (equal_neighbours (x :: y :: l)) with ((y == x) || equal_neighbours (y :: l)).
  rewrite orb_false_iff, bool_decide_eq_false, IH. split; [|set_solver]. intros [Hne Hn]. split; [|done].
  intros [->|Hin]%elem_of_cons; [done|]. apply Hne. inversion Hhd as [|? ? Hle]; subst.
  apply Sorted_StronglySorted in Hs'; [|apply _]. inversion Hs' as [|? ? _ Hf]; subst.
  rewrite Forall_forall in Hf. apply (anti_symm String.le); [by apply Hf|done].
Qed.

(** [containsDuplicate] looks for neighbours in the sorted array. *)
Lemma containsDuplicate_iff arr : containsDuplicate arr = true ↔ ¬ NoDup arr.
Proof.
  unfold containsDuplicate. rewrite <- not_false_iff_true, equal_neighbours_NoDup by apply (Sorted_merge_sort _).
  by rewrite merge_sort_Permutation.
Qed.

(** A text that [strings.Split] at "_" leaves alone. *)
Abbreviation plain s := (contains_char "_" s = false).

Lemma split_joined (a b : string) : plain a → split "_" (a +:+ "_" +:+ b) = a :: split "_" b.
Proof. apply (split_app "_"). Qed.

(** ** Properties *)

(** An API version as [schema.GroupVersion.String] prints it, without "_". *)
Definition printed_version (apiVersion : string) : Prop :=
  ∃ g v, apiVersion = GroupVersion_String g v ∧ contains_char "/" g = false ∧ contains_char "/" v = false ∧ plain g ∧ plain v.

Lemma cut_printed g v :
  contains_char "/" g = false → contains_char "/" v = false →
  cut "/" (GroupVersion_String g v) = if g == EmptyString then None else Some (g, v).
Proof.
  intros Hg Hv. unfold GroupVersion_String. case_bool_decide; [by apply cut_none|]. by apply (cut_app "/").
Qed.

(** C40: the record of an application in the status of a subnet is read back as the same
    application, with or without an API group. *)
Theorem ApplicationNamespacedName_roundtrip app :
  printed_version (app_APIVersion app) → plain (app_Kind app) → plain (app_Namespace app) → plain (app_Name app) →
  ParseApplicationNamespacedName (ApplicationNamespacedName app) = Some app.
Proof.
  destruct app as [apiVersion kind ns name]. cbn. intros (g & v & -> & Hg & Hv & Pg & Pv) Pk Pns Pn.
  unfold ParseApplicationNamespacedName, ApplicationNamespacedName. cbn [app_APIVersion app_Kind app_Namespace app_Name].
  rewrite cut_printed by done. unfold GroupVersion_String. case_bool_decide as E;
    rewrite !split_joined, split_none by done; [done|by rewrite bool_decide_false].
Qed.

Lemma ApplicationNamespacedName_roundtrip_witness :
  ParseApplicationNamespacedName (ApplicationNamespacedName (MkApp "apps/v1" "Deployment" "default" "web"))
    = Some (MkApp "apps/v1" "Deployment" "default" "web").
Proof.
  apply (ApplicationNamespacedName_roundtrip (MkApp "apps/v1" "Deployment" "default" "web")); [|reflexivity..].
  exists "apps"%string, "v1"%string. split_and!; reflexivity.
Defined.

(** [ParseApplicationGVStr] is the inverse of [ApplicationLabelGV]. *)
Lemma ApplicationLabelGV_roundtrip apiVersion :
  printed_version apiVersion → ParseApplicationGVStr (ApplicationLabelGV apiVersion) = Some apiVersion.
Proof.
  intros (g & v & -> & Hg & Hv & Pg & Pv). unfold ParseApplicationGVStr, ApplicationLabelGV. rewrite cut_printed by done.
  unfold GroupVersion_String. case_bool_decide; [by rewrite split_none|]. rewrite split_joined, split_none by done.
  by rewrite bool_decide_false.
Qed.

(** The length of the name of an auto-created pool: at most 254, one more than the limit of
    253 the code wants to keep, and exactly that whenever the name of the application is cut. *)
Theorem AutoPoolName_length controllerName ipVersion ifName appUID name :
  IsIPVersion ipVersion = Ret () → AutoPoolName controllerName ipVersion ifName appUID = Ret name →
  len name ≤ maxNameLength + 1 ∧
  (maxNameLength < len (controllerName +:+ ifName) → len name = maxNameLength + 1).
Proof.
  intros Hv. unfold AutoPoolName. intros (u & Hu & (u' & Hu' & (c & Hc & Hn)%bind_Ret)%bind_Ret)%bind_Ret.
  apply Ret_inj in Hn as <-.
  assert (len (itoa ipVersion) = 1) as Hi by (destruct (IsIPVersion_cases _ Hv) as [-> | ->]; reflexivity).
  assert (∀ s, len (ToLower s) = len s) as Hl by (intros s; unfold len; by rewrite length_ToLower).
  rewrite !len_app, Hi, !Hl. rewrite len_app in Hc. change (len "auto") with 4. change (len "-") with 1.
  unfold maxNameLength in *. assert (0 ≤ len u') by (unfold len; lia).
  destruct (Z.ltb_spec (253 - len u' - 7) (len controllerName + len ifName)) as [Hlt|Hle].
  - apply string_to_Ret in Hc. lia.
  - apply Ret_inj in Hc as <-. lia.
Qed.

(** The name of a Deployment of 250 letters gives a pool name above the limit. *)
Fixpoint letters (n : nat) : string := match n with O => "" | S n => String "a" (letters n) end.

Lemma AutoPoolName_length_witness :
  let name := match AutoPoolName (letters 250) IPv4 "eth0" "5a3c-9f1e" with Ret name => name | _ => ""%string end in
  len name ≤ maxNameLength + 1 ∧ (maxNameLength < len (letters 250 +:+ "eth0") → len name = maxNameLength + 1).
Proof.
  intros name. apply (AutoPoolName_length (letters 250) IPv4 "eth0" "5a3c-9f1e" name); [reflexivity|].
  vm_compute. reflexivity.
Defined.
