(* ===== verification/SubnetWebhook.v ===== *)
(** * pkg/subnetmanager: the admission webhook of SpiderSubnet

    subnet_mutate.go, subnet_validate.go and subnet_webhook.go: the defaulting of a subnet on every
    write and the checks that decide whether a write is admitted.  What the webhook reads of other
    objects is an argument, as for SpiderIPPool. *)

From S2P Require Import Prelude NetIP NetIPFacts IPAddr Cidr IPRange SubnetCIDR K8s Retry ReservedIP Convert IPPoolManager PoolUtils IPPoolWebhook.
Local Open Scope Z_scope.
Local Open Scope go_scope.

Record SubnetWebhook := MkSubnetWebhook {
  sw_EnableIPv4 : bool;
  sw_EnableIPv6 : bool;
  sw_EnableValidatingResourcesDeletedWebhook : bool
}.

(** What the listings of the API server return. *)
Record SubnetReads := MkSubnetReads {
  list_subnets : outcome (list SpiderSubnet);
  list_all_pools : outcome (list SpiderIPPool)
}.

(** ** Mutation *)

Definition on_subnet_meta (f : ObjectMeta → ObjectMeta) (s : SpiderSubnet) : SpiderSubnet :=
  MkSubnet (f (subnet_meta s)) (subnet_spec s) (subnet_status s).
Definition on_subnet_spec (f : SubnetSpec → SubnetSpec) (s : SpiderSubnet) : SpiderSubnet :=
  MkSubnet (subnet_meta s) (f (subnet_spec s)) (subnet_status s).
Definition set_subnet_status (st : SubnetStatus) (s : SpiderSubnet) : SpiderSubnet :=
  MkSubnet (subnet_meta s) (subnet_spec s) st.

Definition set_ss (s : SubnetSpec) (version : option Z) (ips exclude : list string) : SubnetSpec :=
  MkSubnetSpec version (ss_Subnet s) ips exclude (ss_Gateway s) (ss_Routes s).
Definition set_ss_IPVersion (v : Z) (s : SubnetSpec) := set_ss s (Some v) (ss_IPs s) (ss_ExcludeIPs s).
Definition set_ss_IPs (ips : list string) (s : SubnetSpec) := set_ss s (ss_IPVersion s) ips (ss_ExcludeIPs s).
Definition set_ss_ExcludeIPs (ips : list string) (s : SubnetSpec) := set_ss s (ss_IPVersion s) (ss_IPs s) ips.

Definition mutate_subnet_version (subnet : SpiderSubnet) : cmd SpiderSubnet Z :=
  match ss_IPVersion (subnet_spec subnet) with
  | Some v => mret v
  | None =>
      v ← lift (if IsIPv4CIDR (ss_Subnet (subnet_spec subnet)) then Ret IPv4
                else if IsIPv6CIDR (ss_Subnet (subnet_spec subnet)) then Ret IPv6
                else Fail (ErrOther "failed to generate 'spec.ipVersion'"));
      _ ← modify (on_subnet_spec (set_ss_IPVersion v));
      mret v
  end.

(** The subnet under mutation is the state. *)
Definition mutateSubnet `{MR : MapRange} (subnet : SpiderSubnet) : cmd SpiderSubnet unit :=
  match DeletionTimestamp (subnet_meta subnet) with
  | Some _ => mret ()
  | None =>
      _ ← (if negb (ContainsFinalizer (subnet_meta subnet) SpiderFinalizer)
           then modify (on_subnet_meta (λ m, AddFinalizer m SpiderFinalizer)) else mret ());
      version ← mutate_subnet_version subnet;
      cidr ← lift (CIDRToLabelValue version (ss_Subnet (subnet_spec subnet)));
      _ ← (if Labels (subnet_meta subnet) !! LabelSubnetCIDR != Some cidr
           then modify (on_subnet_meta (set_label LabelSubnetCIDR cidr)) else mret ());
      _ ← (if (1 <? length (ss_IPs (subnet_spec subnet)))%nat then
             mergedIPs ← lift (MergeIPRanges version (ss_IPs (subnet_spec subnet)));
             modify (on_subnet_spec (set_ss_IPs mergedIPs))
           else mret ());
      (if (1 <? length (ss_ExcludeIPs (subnet_spec subnet)))%nat then
         mergedExcludeIPs ← lift (MergeIPRanges version (ss_ExcludeIPs (subnet_spec subnet)));
         modify (on_subnet_spec (set_ss_ExcludeIPs mergedExcludeIPs))
       else mret ())
  end.

(** [Default] logs the error of the mutation and lets the object pass as it is. *)
Definition DefaultSubnet `{MR : MapRange} (subnet : SpiderSubnet) : outcome SpiderSubnet :=
  match mutateSubnet subnet subnet with
  | (Ret _, s) | (Fail _, s) => Ret s
  | (Panic, _) => Panic
  | (OutOfFuel, _) => OutOfFuel
  end.

(** ** Validation *)

Section subnet_webhook.
Context `{MR : MapRange} `{J' : JSON PoolIPPreAllocations}.
Context (sw : SubnetWebhook) (reads : SubnetReads).

Definition validateSubnetIPVersion (version : option Z) : outcome unit :=
  match version with
  | None => Fail (FieldInvalid "spec.ipVersion")
  | Some version =>
      if negb (version =? IPv4) && negb (version =? IPv6) then Fail (FieldNotSupported "spec.ipVersion")
      else if (version =? IPv4) && negb (sw_EnableIPv4 sw) then Fail (FieldForbidden "spec.ipVersion")
      else if (version =? IPv6) && negb (sw_EnableIPv6 sw) then Fail (FieldForbidden "spec.ipVersion")
      else Ret ()
  end.

Definition subnet_total (subnet : SpiderSubnet) (version : Z) : outcome (list IP) :=
  AssembleTotalIPs version (ss_IPs (subnet_spec subnet)) (ss_ExcludeIPs (subnet_spec subnet)).

(** The body of the loop of [validateOrphanIPPool]. *)
Definition check_orphan (version : Z) (subnet : SpiderSubnet) (tmpPool : SpiderIPPool) : outcome unit :=
  poolVersion ← deref (ps_IPVersion (pool_spec tmpPool));
  if negb (poolVersion =? version) then Ret ()
  else if ps_Subnet (pool_spec tmpPool) != ss_Subnet (subnet_spec subnet) then
    isCIDROverlap ← in_field (FieldInternal "spec.subnet")
      (IsCIDROverlap version (ps_Subnet (pool_spec tmpPool)) (ss_Subnet (subnet_spec subnet)));
    if isCIDROverlap : bool then Fail (FieldInvalid "spec.subnet") else Ret ()
  else
    poolIPs ← in_field (FieldInternal "spec.ips")
      (AssembleTotalIPs poolVersion (ps_IPs (pool_spec tmpPool)) (ps_ExcludeIPs (pool_spec tmpPool)));
    subnetIPs ← in_field (FieldInternal "spec.ips") (subnet_total subnet version);
    diff ← IsDiffIPSet poolIPs subnetIPs;
    if diff : bool then Fail (FieldInvalid "spec.ips") else Ret ().

Definition validateOrphanIPPool (subnet : SpiderSubnet) : outcome unit :=
  poolList ← in_field (FieldInternal "spec.subnet") (list_all_pools reads);
  for_each (λ tmpPool, version ← deref (ss_IPVersion (subnet_spec subnet)); check_orphan version subnet tmpPool) poolList.

(** The body of the loop of [validateSubnetCIDR]. *)
Definition check_other_subnet (version : Z) (subnet s : SpiderSubnet) : outcome unit :=
  sVersion ← deref (ss_IPVersion (subnet_spec s));
  if sVersion =? version then
    if Name (subnet_meta s) == Name (subnet_meta subnet)
    then Fail (FieldInternal "spec.subnet" APIAlreadyExists)
    else
      overlap ← in_field (FieldInternal "spec.subnet")
        (IsCIDROverlap version (ss_Subnet (subnet_spec subnet)) (ss_Subnet (subnet_spec s)));
      if overlap : bool then Fail (FieldInvalid "spec.subnet") else Ret ()
  else Ret ().

Definition validateSubnetCIDR (subnet : SpiderSubnet) : outcome unit :=
  version ← deref (ss_IPVersion (subnet_spec subnet));
  _ ← in_field (λ _, FieldInvalid "spec.subnet") (IsCIDR version (ss_Subnet (subnet_spec subnet)));
  _ ← in_field (λ _, FieldInvalid "spec.subnet") (IsFormatCIDR (ss_Subnet (subnet_spec subnet)));
  subnetList ← in_field (FieldInternal "spec.subnet") (list_subnets reads);
  _ ← for_each (check_other_subnet version subnet) subnetList;
  validateOrphanIPPool subnet.

Fixpoint check_ranges (path : string) (version : Z) (subnet : string) (i : Z) (rs : list string) : outcome unit :=
  match rs with
  | [] => Ret ()
  | r :: rs => _ ← ValidateContainsIPRange (indexed path i) version subnet r; check_ranges path version subnet (i + 1) rs
  end.
Definition validateSubnetIPs (version : Z) (subnet : string) (ips : list string) : outcome unit :=
  check_ranges "spec.ips" version subnet 0 ips.
Definition validateSubnetExcludeIPs (version : Z) (subnet : string) (excludeIPs : list string) : outcome unit :=
  check_ranges "spec.excludeIPs" version subnet 0 excludeIPs.

Definition validateSubnetGateway (subnet : SpiderSubnet) : outcome unit :=
  match ss_Gateway (subnet_spec subnet) with
  | None => Ret ()
  | Some gw =>
      version ← deref (ss_IPVersion (subnet_spec subnet));
      _ ← ValidateContainsIP "spec.gateway" version (ss_Subnet (subnet_spec subnet)) gw;
      excluded ← excludes_gateway version gw (ss_ExcludeIPs (subnet_spec subnet));
      if excluded : bool then Ret ()
      else check_gateway version gw 0 (ss_IPs (subnet_spec subnet))
  end.

Definition validateSubnetRoutes (version : Z) (subnet : string) (routes : list Route) : outcome unit :=
  check_routes version subnet 0 ∅ routes.

Definition validateSubnetSpec (subnet : SpiderSubnet) : outcome unit :=
  version ← deref (ss_IPVersion (subnet_spec subnet));
  _ ← validateSubnetIPs version (ss_Subnet (subnet_spec subnet)) (ss_IPs (subnet_spec subnet));
  _ ← validateSubnetExcludeIPs version (ss_Subnet (subnet_spec subnet)) (ss_ExcludeIPs (subnet_spec subnet));
  _ ← validateSubnetGateway subnet;
  validateSubnetRoutes version (ss_Subnet (subnet_spec subnet)) (ss_Routes (subnet_spec subnet)).

(** The body of the loop of [validateSubnetIPInUse]. *)
Definition check_pre_allocation (version : Z) (totalIPs : list IP) (preAllocation : PoolIPPreAllocation) : outcome unit :=
  poolTotalIPs ← in_field (FieldInternal "status.controlledIPPools") (ParseIPRanges version (pre_IPs preAllocation));
  invalidIPs ← IPsDiffSet poolTotalIPs totalIPs false;
  if (0 <? length invalidIPs)%nat then Fail (FieldForbidden "spec.ips") else Ret ().

Definition validateSubnetIPInUse (subnet : SpiderSubnet) : outcome unit :=
  version ← deref (ss_IPVersion (subnet_spec subnet));
  totalIPs ← in_field (FieldInternal "spec.ips") (subnet_total subnet version);
  match ControlledIPPools (subnet_status subnet) with
  | None => Ret ()
  | Some _ =>
      preAllocations ← in_field (FieldInternal "status.controlledIPPools")
        (UnmarshalSubnetAllocatedIPPools (ControlledIPPools (subnet_status subnet)));
      for_each (λ kv, check_pre_allocation version totalIPs kv.2) (range_kv preAllocations)
  end.

Definition validateSubnetShouldNotBeChanged (oldSubnet newSubnet : SpiderSubnet) : outcome unit :=
  if match ss_IPVersion (subnet_spec newSubnet), ss_IPVersion (subnet_spec oldSubnet) with
     | Some n, Some o => negb (n =? o)
     | _, _ => false
     end
  then Fail (FieldForbidden "spec.ipVersion")
  else if ss_Subnet (subnet_spec newSubnet) != ss_Subnet (subnet_spec oldSubnet)
  then Fail (FieldForbidden "spec.subnet")
  else Ret ().

Definition validateCreateSubnet (subnet : SpiderSubnet) : outcome (list error) :=
  or_else (to_list (validateSubnetIPVersion (ss_IPVersion (subnet_spec subnet))))
    (or_else (to_list (validateSubnetCIDR subnet)) (to_list (validateSubnetSpec subnet))).

Definition validateUpdateSubnet (oldSubnet newSubnet : SpiderSubnet) : outcome (list error) :=
  or_else (to_list (validateSubnetShouldNotBeChanged oldSubnet newSubnet))
    (or_else (to_list (validateSubnetIPVersion (ss_IPVersion (subnet_spec newSubnet))))
       (or_else (to_list (validateSubnetSpec newSubnet)) (to_list (validateSubnetIPInUse newSubnet)))).

Definition ValidateCreateSubnet (subnet : SpiderSubnet) : outcome unit :=
  errs ← validateCreateSubnet subnet;
  match errs with
  | [] => Ret ()
  | _ => if existsb is_already_exists errs then Fail APIAlreadyExists else Fail APIInvalid
  end.

Definition ValidateUpdateSubnet (oldSubnet newSubnet : SpiderSubnet) : outcome unit :=
  match DeletionTimestamp (subnet_meta newSubnet) with
  | Some _ => if negb (ContainsFinalizer (subnet_meta newSubnet) SpiderFinalizer) then Ret () else Fail APIForbidden
  | None =>
      errs ← validateUpdateSubnet oldSubnet newSubnet;
      match errs with [] => Ret () | _ => Fail APIInvalid end
  end.

Definition ValidateDeleteSubnet (subnet : SpiderSubnet) : outcome unit :=
  if negb (sw_EnableValidatingResourcesDeletedWebhook sw) then Ret ()
  else match ss_AllocatedIPCount (subnet_status subnet) with
       | Some n => if 0 <? n then Fail APIForbidden else Ret ()
       | None => Ret ()
       end.
End subnet_webhook.

(** ** What the mutation keeps *)

(** Name, deletion time, subnet, status, and a version that is set. *)
Definition same_subnet (s t : SpiderSubnet) : Prop :=
  Name (subnet_meta t) = Name (subnet_meta s) ∧ DeletionTimestamp (subnet_meta t) = DeletionTimestamp (subnet_meta s) ∧
  ss_Subnet (subnet_spec t) = ss_Subnet (subnet_spec s) ∧ subnet_status t = subnet_status s ∧
  (∀ v, ss_IPVersion (subnet_spec s) = Some v → ss_IPVersion (subnet_spec t) = Some v).

#[export] Instance same_subnet_preorder : PreOrder same_subnet.
Proof. split; [done|]. unfold same_subnet. intros s t u. intuition (congruence || eauto). Qed.

Lemma modify_subnet_if (b : bool) (f : SpiderSubnet → SpiderSubnet) s :
  (if b then modify f else mret ()) s = (Ret (), if b then f s else s).
Proof. by destruct b. Qed.

Lemma merge_same `{MR : MapRange} (b : bool) v rs (f : list string → SubnetSpec → SubnetSpec) :
  (∀ ips sp, ss_Subnet (f ips sp) = ss_Subnet sp ∧ ss_IPVersion (f ips sp) = ss_IPVersion sp) →
  evolves same_subnet (if b then (merged ← lift (MergeIPRanges v rs); modify (on_subnet_spec (f merged))) else mret ()).
Proof.
  intros Hf. apply evolves_if; [|apply evolves_ret, _]. apply evolves_bind; [apply _|apply evolves_lift, _|].
  intros ips. apply evolves_modify. intros s. destruct (Hf ips (subnet_spec s)) as [E1 E2].
  unfold same_subnet. cbn. rewrite E1, E2. done.
Qed.

(** The steps after the version is known. *)
Lemma mutate_rest_same `{MR : MapRange} s v : evolves same_subnet (
    cidr ← lift (CIDRToLabelValue v (ss_Subnet (subnet_spec s)));
    _ ← (if Labels (subnet_meta s) !! LabelSubnetCIDR != Some cidr
         then modify (on_subnet_meta (set_label LabelSubnetCIDR cidr)) else mret ());
    _ ← (if (1 <? length (ss_IPs (subnet_spec s)))%nat then
           mergedIPs ← lift (MergeIPRanges v (ss_IPs (subnet_spec s))); modify (on_subnet_spec (set_ss_IPs mergedIPs))
         else mret ());
    (if (1 <? length (ss_ExcludeIPs (subnet_spec s)))%nat then
       mergedExcludeIPs ← lift (MergeIPRanges v (ss_ExcludeIPs (subnet_spec s)));
       modify (on_subnet_spec (set_ss_ExcludeIPs mergedExcludeIPs))
     else mret ())).
Proof.
  apply evolves_bind; [apply _|apply evolves_lift, _|]. intros cidr. apply evolves_bind; [apply _| |].
  { apply evolves_if; [|apply evolves_ret, _]. apply evolves_modify. intros t. by split_and!. }
  intros _. apply evolves_bind; [apply _|by apply merge_same|]. intros _. by apply merge_same.
Qed.

Lemma mutateSubnet_same `{MR : MapRange} s : same_subnet s (mutateSubnet s s).2.
Proof.
  unfold mutateSubnet. destruct (DeletionTimestamp _); [done|].
  unfold mbind at 1, cmd_bind at 1. rewrite modify_subnet_if. set (s1 := if negb _ then _ else s).
  assert (same_subnet s s1) as H1 by (unfold s1, AddFinalizer, on_subnet_meta; repeat case_match; by split_and!).
  unfold mbind at 1, cmd_bind at 1. unfold mutate_subnet_version at 1. destruct (ss_IPVersion (subnet_spec s)) as [v|] eqn:Ev.
  - etrans; [exact H1|]. apply mutate_rest_same.
  - unfold mbind at 1, cmd_bind at 1, lift at 1. set (o := if IsIPv4CIDR _ then _ else _).
    destruct o as [v| | |]; [|exact H1..]. etrans; [|apply mutate_rest_same].
    destruct H1 as (? & ? & ? & ? & _). split_and!; try done. intros v'. by rewrite Ev.
Qed.

Lemma DefaultSubnet_same `{MR : MapRange} s s' : DefaultSubnet s = Ret s' → same_subnet s s'.
Proof.
  unfold DefaultSubnet. pose proof (mutateSubnet_same s) as H. destruct (mutateSubnet s s) as [o t].
  by destruct o; intros [= <-].
Qed.

(** ** Admitted subnets *)

Definition valid_subnet (v : Z) (s : SpiderSubnet) : Prop :=
  ss_IPVersion (subnet_spec s) = Some v ∧ IsCIDR v (ss_Subnet (subnet_spec s)) = Ret () ∧
  IsFormatCIDR (ss_Subnet (subnet_spec s)) = Ret ().

Definition separate (v : Z) (s t : SpiderSubnet) : Prop :=
  IsCIDROverlap v (ss_Subnet (subnet_spec s)) (ss_Subnet (subnet_spec t)) = Ret false.

Lemma overlap_decides v s t : valid_subnet v s → valid_subnet v t →
  ∃ b, IsCIDROverlap v (ss_Subnet (subnet_spec s)) (ss_Subnet (subnet_spec t)) = Ret b ∧
    (b = true ↔ ∃ x, wf_ip x ∧ in_cidr (ss_Subnet (subnet_spec s)) x ∧ in_cidr (ss_Subnet (subnet_spec t)) x).
Proof. intros (_ & C1 & F1) (_ & C2 & F2). apply IsCIDROverlap_spec; [done..|]. by apply (format_same_notation v). Qed.

Lemma separate_iff v s t : valid_subnet v s → valid_subnet v t →
  separate v s t ↔ ∀ x, ¬ (wf_ip x ∧ in_cidr (ss_Subnet (subnet_spec s)) x ∧ in_cidr (ss_Subnet (subnet_spec t)) x).
Proof.
  intros Hs Ht. unfold separate. destruct (overlap_decides v s t Hs Ht) as (b & -> & Hb). destruct b; [|naive_solver].
  split; [done|]. intros Hno. destruct Hb as [[x Hx] _]; [done|]. by destruct (Hno x).
Qed.

Section subnet_validation.
Context `{MR : MapRange} `{J' : JSON PoolIPPreAllocations} (sw : SubnetWebhook) (reads : SubnetReads).

Lemma ValidateCreateSubnet_inv s : ValidateCreateSubnet sw reads s = Ret () →
  ∃ v subnets, valid_subnet v s ∧ list_subnets reads = Ret subnets ∧
    Forall (λ t, check_other_subnet v s t = Ret ()) subnets.
Proof.
  unfold ValidateCreateSubnet. intros (errs & Herrs & He)%bind_Ret. destruct errs as [|e errs]; [|by case_match]. clear He.
  unfold validateCreateSubnet in Herrs. apply or_else_nil in Herrs as [_ [Hcidr _]%or_else_nil].
  apply to_list_nil in Hcidr. unfold validateSubnetCIDR in Hcidr.
  apply bind_Ret in Hcidr as (v & Hv & ([] & H1 & ([] & H2 & (l & H3 & ([] & H4 & _)%bind_Ret)%bind_Ret)%bind_Ret)%bind_Ret).
  rewrite in_field_Ret in H1. rewrite in_field_Ret in H2. rewrite in_field_Ret in H3. apply deref_Ret in Hv.
  apply for_each_Ret in H4. exists v, l. by split_and!.
Qed.

Lemma ValidateUpdateSubnet_inv s t : DeletionTimestamp (subnet_meta t) = None → ValidateUpdateSubnet sw s t = Ret () →
  validateSubnetShouldNotBeChanged s t = Ret () ∧ validateSubnetIPVersion sw (ss_IPVersion (subnet_spec t)) = Ret () ∧
  validateSubnetSpec t = Ret () ∧ validateSubnetIPInUse t = Ret ().
Proof.
  unfold ValidateUpdateSubnet. intros ->. intros (errs & Herrs & He)%bind_Ret. destruct errs; [|done]. clear He.
  unfold validateUpdateSubnet in Herrs.
  apply or_else_nil in Herrs as [H1 [H2 [H3 H4]%or_else_nil]%or_else_nil].
  rewrite to_list_nil in H1. rewrite to_list_nil in H2. rewrite to_list_nil in H3. by rewrite to_list_nil in H4.
Qed.

Lemma unchanged s t : validateSubnetShouldNotBeChanged s t = Ret () →
  ss_Subnet (subnet_spec t) = ss_Subnet (subnet_spec s) ∧
  ∀ v w, ss_IPVersion (subnet_spec s) = Some v → ss_IPVersion (subnet_spec t) = Some w → w = v.
Proof.
  unfold validateSubnetShouldNotBeChanged. intros H. case_match eqn:E; [done|].
  case_bool_decide; [|done]. split; [done|]. intros v w E1 E2. rewrite E1, E2 in E.
  by apply negb_false_iff, Z.eqb_eq in E.
Qed.
End subnet_validation.

(** ** The subnets of the cluster *)

Section subnet_cluster.
Context `{MR : MapRange} `{J' : JSON PoolIPPreAllocations} (sw : SubnetWebhook).

(** The writes of clients that the server accepts, as for pools: creations and updates pass
    through the webhook with the subnets listed as they are stored, a deletion marks the subnet,
    removing the finalizer of a marked subnet removes it, and the status is written freely. *)
Inductive subnet_write (subnets : gmap string SpiderSubnet) : gmap string SpiderSubnet → Prop :=
  | subnet_create reads l s s' :
      list_subnets reads = Ret l → l ≡ₚ (map_to_list subnets).*2 →
      subnets !! Name (subnet_meta s) = None → DeletionTimestamp (subnet_meta s) = None →
      DefaultSubnet s = Ret s' → ValidateCreateSubnet sw reads s' = Ret () →
      subnet_write subnets (<[Name (subnet_meta s') := s']> subnets)
  | subnet_update old s s' :
      subnets !! Name (subnet_meta s) = Some old → DeletionTimestamp (subnet_meta s) = None →
      DefaultSubnet s = Ret s' → ValidateUpdateSubnet sw old s' = Ret () →
      subnet_write subnets (<[Name (subnet_meta s') := s']> subnets)
  | subnet_delete k s now :
      subnets !! k = Some s → ValidateDeleteSubnet sw s = Ret () →
      subnet_write subnets (<[k := on_subnet_meta (mark_deleted now) s]> subnets)
  | subnet_finalize k old s t :
      subnets !! k = Some old → DeletionTimestamp (subnet_meta s) = Some t →
      ValidateUpdateSubnet sw old s = Ret () → subnet_write subnets (delete k subnets)
  | subnet_status_write k s st :
      subnets !! k = Some s → subnet_write subnets (<[k := set_subnet_status st s]> subnets).

Definition subnets_inv (subnets : gmap string SpiderSubnet) : Prop :=
  (∀ k s, subnets !! k = Some s → Name (subnet_meta s) = k ∧ ∃ v, valid_subnet v s) ∧
  ∀ k1 k2 s t v, k1 ≠ k2 → subnets !! k1 = Some s → subnets !! k2 = Some t →
    valid_subnet v s → valid_subnet v t → separate v s t.

Lemma separate_sym v s t : valid_subnet v s → valid_subnet v t → separate v s t → separate v t s.
Proof. intros Hs Ht. rewrite !separate_iff by done. naive_solver. Qed.

Lemma subnets_inv_insert subnets s v :
  subnets_inv subnets → valid_subnet v s →
  (∀ k t, k ≠ Name (subnet_meta s) → subnets !! k = Some t → valid_subnet v t → separate v s t) →
  subnets_inv (<[Name (subnet_meta s) := s]> subnets).
Proof.
  intros [I1 I2] Hs Hsep. assert (∀ w, valid_subnet w s → w = v) as Hv by (intros w [E _]; destruct Hs; congruence).
  split.
  - intros k t [[<- <-]|[? Ht]]%lookup_insert_Some; [by eauto|by apply I1].
  - intros k1 k2 t1 t2 w Hne [[<- <-]|[? H1]]%lookup_insert_Some [[E <-]|[? H2]]%lookup_insert_Some V1 V2; [done|..].
    + rewrite (Hv w V1) in *. eauto.
    + rewrite (Hv w V2) in *. subst. apply separate_sym; eauto.
    + eauto.
Qed.

(** A write that keeps the specification of a stored subnet. *)
Lemma subnets_inv_same subnets k s s' :
  subnets_inv subnets → subnets !! k = Some s → ss_Subnet (subnet_spec s') = ss_Subnet (subnet_spec s) →
  ss_IPVersion (subnet_spec s') = ss_IPVersion (subnet_spec s) →
  Name (subnet_meta s') = Name (subnet_meta s) → subnets_inv (<[k := s']> subnets).
Proof.
  intros Hinv Hs Esub Ever En. destruct (proj1 Hinv k s Hs) as [Hk (v & Hv)].
  rewrite <- Hk, <- En. apply (subnets_inv_insert _ _ v Hinv).
  - unfold valid_subnet in *. by rewrite Esub, Ever.
  - intros k' t Hne Ht Vt. unfold separate. rewrite Esub. apply (proj2 Hinv k k' s t v); [congruence|done..].
Qed.

Lemma subnet_create_inv subnets reads l s' :
  subnets_inv subnets → list_subnets reads = Ret l → l ≡ₚ (map_to_list subnets).*2 →
  ValidateCreateSubnet sw reads s' = Ret () → subnets_inv (<[Name (subnet_meta s') := s']> subnets).
Proof.
  intros Hinv Hl Hperm (v & l' & Hv & Hl' & Hall)%ValidateCreateSubnet_inv.
  rewrite Hl in Hl'. apply Ret_inj in Hl' as <-. apply (subnets_inv_insert _ _ v Hinv Hv). intros k t Hne Ht Vt.
  rewrite Forall_forall in Hall. assert (t ∈ l) as Hin.
  { rewrite Hperm. apply list_elem_of_fmap. exists (k, t). by rewrite elem_of_map_to_list. }
  specialize (Hall t Hin). unfold check_other_subnet in Hall. destruct Vt as (Evt & _).
  rewrite Evt in Hall. cbn [deref mbind outcome_bind] in Hall. destruct (proj1 Hinv k t Ht) as [Hk _].
  rewrite Z.eqb_refl, bool_decide_false in Hall by congruence. unfold separate.
  by destruct (IsCIDROverlap v _ _) as [[]| | |].
Qed.

Lemma subnet_write_inv subnets subnets' : subnets_inv subnets → subnet_write subnets subnets' → subnets_inv subnets'.
Proof.
  intros Hinv [reads l s s' Hl Hp Hn Hd Hdef Hv|old s s' Hold Hd Hdef Hv|k s now Hs _|k old s t Hs _ _|k s st Hs].
  - by eapply subnet_create_inv.
  - destruct (DefaultSubnet_same _ _ Hdef) as (En & Ed & _).
    apply ValidateUpdateSubnet_inv in Hv as (Hch & Hver & _); [|congruence]. apply unchanged in Hch as [Esub Ever].
    destruct (proj1 Hinv _ _ Hold) as [Hk (v & Hv)]. rewrite En. apply (subnets_inv_same _ _ old); [done..| |congruence].
    destruct Hv as (Ev & _). destruct (ss_IPVersion (subnet_spec s')) as [w|] eqn:Ew; [|done].
    by rewrite Ev, (Ever v w Ev eq_refl).
  - by apply (subnets_inv_same _ _ s).
  - destruct Hinv as [I1 I2]. split.
    + intros k' t' [_ Ht]%lookup_delete_Some. by apply I1.
    + intros k1 k2 t1 t2 v Hne [_ H1]%lookup_delete_Some [_ H2]%lookup_delete_Some. by apply (I2 k1 k2).
  - by apply (subnets_inv_same _ _ s).
Qed.

Lemma subnets_reachable_inv subnets : rtc subnet_write ∅ subnets → subnets_inv subnets.
Proof.
  intros Hr. remember ∅ as start eqn:E.
  assert (subnets_inv start) as H0 by (subst; split; intros *; by rewrite ?lookup_empty).
  clear E. induction Hr; eauto using subnet_write_inv.
Qed.
End subnet_cluster.

(** ** Properties *)

(** C19: whatever sequence of creations, updates, deletions and status writes the webhook admits,
    two subnets of a version never share an address. *)
Theorem webhook_subnets_disjoint `{MR : MapRange} `{J' : JSON PoolIPPreAllocations} sw subnets k1 k2 s1 s2 :
  rtc (subnet_write sw) ∅ subnets → subnets !! k1 = Some s1 → subnets !! k2 = Some s2 → k1 ≠ k2 →
  ss_IPVersion (subnet_spec s1) = ss_IPVersion (subnet_spec s2) →
  ∀ x, ¬ (wf_ip x ∧ in_cidr (ss_Subnet (subnet_spec s1)) x ∧ in_cidr (ss_Subnet (subnet_spec s2)) x).
Proof.
  intros Hr H1 H2 Hne Hv. apply subnets_reachable_inv in Hr as [I1 I2].
  destruct (I1 _ _ H1) as [_ (v & V1)]. destruct (I1 _ _ H2) as [_ (w & V2)].
  assert (w = v) as -> by (destruct V1 as (? & _), V2 as (? & _); congruence).
  apply (separate_iff v); [done..|]. by apply (I2 k1 k2).
Qed.

Definition ex_sw : SubnetWebhook := MkSubnetWebhook true true true.
Definition ex_subnet (name cidr : string) (ips : list string) (controlled : option string) : SpiderSubnet :=
  MkSubnet (plain_meta "" name "") (MkSubnetSpec None cidr ips [] None []) (MkSubnetStatus controlled None None).
Definition ex_defaulted (s : SpiderSubnet) : SpiderSubnet :=
  match @DefaultSubnet ordered_range s with Ret s' => s' | _ => s end.
Definition ex_s1 : SpiderSubnet := ex_defaulted (ex_subnet "s1" "10.6.0.0/16" ["10.6.0.10-10.6.0.20"] None).
Definition ex_s2 : SpiderSubnet := ex_defaulted (ex_subnet "s2" "10.7.0.0/16" ["10.7.0.10-10.7.0.20"] None).

Lemma webhook_subnets_disjoint_witness :
  Name (subnet_meta ex_s1) = "s1"%string ∧
  ∀ x, ¬ (wf_ip x ∧ in_cidr (ss_Subnet (subnet_spec ex_s1)) x ∧ in_cidr (ss_Subnet (subnet_spec ex_s2)) x).
Proof.
  split; [reflexivity|].
  apply (@webhook_subnets_disjoint ordered_range countable_json ex_sw (<["s2" := ex_s2]> (<["s1" := ex_s1]> ∅)) "s1" "s2");
    [|reflexivity..|discriminate|reflexivity].
  eapply rtc_l; [|eapply rtc_l; [|apply rtc_refl]].
  - apply (@subnet_create ordered_range countable_json ex_sw _ (MkSubnetReads (Ret []) (Ret [])) [] (ex_subnet "s1" "10.6.0.0/16" ["10.6.0.10-10.6.0.20"] None) ex_s1);
      [reflexivity|done|reflexivity|reflexivity|vm_compute; reflexivity|vm_compute; reflexivity].
  - apply (@subnet_create ordered_range countable_json ex_sw _ (MkSubnetReads (Ret [ex_s1]) (Ret [])) [ex_s1] (ex_subnet "s2" "10.7.0.0/16" ["10.7.0.10-10.7.0.20"] None) ex_s2);
      [reflexivity|done|reflexivity|reflexivity|vm_compute; reflexivity|vm_compute; reflexivity].
Defined.

(** An address of a subnet. *)
Definition subnet_address (s : SpiderSubnet) (x : IP) : Prop :=
  x ∈ ranges_ips (ss_IPs (subnet_spec s)) ∧ x ∉ ranges_ips (ss_ExcludeIPs (subnet_spec s)).

(** An update of a subnet that the webhook admits keeps every address that is assigned to one
    of its pools an address of the subnet, and keeps its CIDR. *)
Theorem update_keeps_pre_allocations `{MR : MapRange} `{J' : JSON PoolIPPreAllocations} sw old new v table :
  DeletionTimestamp (subnet_meta new) = None → ValidateUpdateSubnet sw old new = Ret () →
  ss_IPVersion (subnet_spec new) = Some v → UnmarshalSubnetAllocatedIPPools (ControlledIPPools (subnet_status new)) = Ret table →
  Forall (good_range v) (ss_IPs (subnet_spec new)) → Forall (good_range v) (ss_ExcludeIPs (subnet_spec new)) →
  (∀ k a, table !! k = Some a → Forall (good_range v) (pre_IPs a)) →
  ss_Subnet (subnet_spec new) = ss_Subnet (subnet_spec old) ∧
  ∀ k a x, table !! k = Some a → x ∈ ranges_ips (pre_IPs a) → subnet_address new x.
Proof.
  intros Hd (Hch & _ & _ & Huse)%ValidateUpdateSubnet_inv Hv Ht Hg He Hp; [|done]. split; [by apply unchanged|].
  intros k a x Ha Hx. unfold validateSubnetIPInUse in Huse. rewrite Hv in Huse. cbn [deref mbind outcome_bind] in Huse.
  unfold subnet_total in Huse. rewrite AssembleTotalIPs_spec in Huse by done. cbn [in_field mbind outcome_bind] in Huse.
  destruct (ControlledIPPools (subnet_status new)) as [d|]; [|by injection Ht as <-].
  rewrite Ht in Huse. cbn [in_field mbind outcome_bind] in Huse. apply for_each_Ret in Huse.
  rewrite Forall_forall in Huse. specialize (Huse (k, a) (proj2 (elem_of_range_kv table k a) Ha)). cbn [snd] in Huse.
  unfold check_pre_allocation in Huse. rewrite ParseIPRanges_spec in Huse by eauto. cbn [in_field mbind outcome_bind] in Huse.
  rewrite IPsDiffSet_ip16 in Huse by auto with addr.
  cbn [mbind outcome_bind] in Huse. destruct (filter (.∉ _) (ranges_ips (pre_IPs a))) eqn:Ef; [|done].
  destruct (decide (x ∈ filter (.∉ ranges_ips (ss_ExcludeIPs (subnet_spec new))) (ranges_ips (ss_IPs (subnet_spec new))))) as [Hin|Hout].
  - by apply list_elem_of_filter in Hin as [? ?].
  - exfalso. eapply (not_elem_of_nil x). rewrite <- Ef. by apply list_elem_of_filter.
Qed.

Definition ex_pre : PoolIPPreAllocations := {["auto-web" := MkPoolIPPreAllocation ["10.6.0.12-10.6.0.14"] None]}.
Definition ex_s1_used : SpiderSubnet :=
  MkSubnet (subnet_meta ex_s1) (subnet_spec ex_s1) (MkSubnetStatus (@MarshalSubnetAllocatedIPPools countable_json ex_pre) None None).

Lemma update_keeps_pre_allocations_witness :
  ss_Subnet (subnet_spec ex_s1_used) = ss_Subnet (subnet_spec ex_s1) ∧
  ∀ k a x, ex_pre !! k = Some a → x ∈ ranges_ips (pre_IPs a) → subnet_address ex_s1_used x.
Proof.
  apply (@update_keeps_pre_allocations ordered_range countable_json ex_sw ex_s1 ex_s1_used IPv4 ex_pre);
    [reflexivity|vm_compute; reflexivity|reflexivity|vm_compute; reflexivity|..].
  - apply (bool_decide_unpack _). vm_compute. exact I.
  - apply (bool_decide_unpack _). vm_compute. exact I.
  - intros k a. unfold ex_pre. intros [<- <-]%lookup_singleton_Some. apply (bool_decide_unpack _). vm_compute. exact I.
Defined.
