(* ===== verification/SubnetManager.v ===== *)
(** * pkg/subnetmanager/subnet_manager.go: auto-created pools

    [ReconcileAutoIPPool] creates or resizes the pool of an application: the subnet's status
    records which addresses are assigned to which pool, [preAllocateIPsFromSubnet] changes that
    record, and the pool is then written with the addresses assigned to it. *)

From S2P Require Import Prelude NetIP NetIPFacts IPAddr Cidr IPRange SubnetCIDR K8s Retry ReservedIP Convert IPPoolManager PoolUtils IPPoolWebhook Workload AppUtils SubnetWebhook.
Local Open Scope Z_scope.
Local Open Scope go_scope.

Record AutoPoolProperty := MkAutoPoolProperty {
  DesiredIPNumber : Z;
  ap_IPVersion : Z;
  IsReclaimIPPool : bool;
  IfName : string;
  AnnoPoolIPNumberVal : string
}.

Definition LabelIPPoolReclaimIPPool : string := AnnoSpiderSubnetReclaimIPPool.
Definition LabelIPPoolOwnerApplicationGV : string := AnnotationPre +:+ "/owner-application-gv".
Definition LabelIPPoolOwnerApplicationKind : string := AnnotationPre +:+ "/owner-application-kind".
Definition LabelIPPoolOwnerApplicationNamespace : string := AnnotationPre +:+ "/owner-application-namespace".
Definition LabelIPPoolOwnerApplicationUID : string := AnnotationPre +:+ "/owner-application-uid".
Definition LabelIPPoolInterface : string := AnnotationPre +:+ "/interface".
Definition LabelIPPoolIPVersion : string := AnnotationPre +:+ "/ip-version".

(** [fmt.Errorf("%w: ...", constant.ErrWrongInput, ...)] *)
Definition wrong {A} (o : outcome A) : outcome A := in_field (λ _, ErrWrongInput) o.

Section pre_allocation.
Context `{MR : MapRange} `{J : JSON PoolIPAllocations} `{J' : JSON PoolIPPreAllocations}.
(** What the cache of reserved IPs holds. *)
Context (rIPs : list SpiderReservedIP).

Definition subnetStatusCount (subnet : SpiderSubnet) : outcome (Z * Z) :=
  let spec := subnet_spec subnet in
  s ← ignore_err None (c ← NewCIDR (ss_Subnet spec) (ss_IPs spec) (ss_ExcludeIPs spec); Ret (Some c));
  match ControlledIPPools (subnet_status subnet) with
  | None => Ret (0, 0)
  | Some data =>
      match json_unmarshal data with
      | None => Ret (0, 0)
      | Some controlledIPPools =>
          counts ← concat_map_m (λ kv : string * PoolIPPreAllocation,
              version ← deref (ss_IPVersion spec);
              tmpIPs ← ignore_err [] (ParseIPRanges version (pre_IPs kv.2));
              Ret [Z.of_nat (length tmpIPs)]) (range_kv controlledIPPools);
          s ← deref s;
          Ret (int64 (TotalIPInt s), int64 (foldr Z.add 0 counts))
      end
  end.

(** The subnet with a new record of pre-allocations and its counts, as it is sent to the server. *)
Definition with_pre_allocations (subnet : SpiderSubnet) (table : PoolIPPreAllocations) : outcome SpiderSubnet :=
  let data := MarshalSubnetAllocatedIPPools table in
  let st := subnet_status subnet in
  '(totalCount, allocatedCount) ←
    subnetStatusCount (set_subnet_status (MkSubnetStatus data (ss_TotalIPCount st) (ss_AllocatedIPCount st)) subnet);
  Ret (set_subnet_status (MkSubnetStatus data (Some totalCount) (Some allocatedCount)) subnet).

(** The addresses that are allocated in the pool. *)
Definition pool_allocated_records (pool : SpiderIPPool) : outcome PoolIPAllocations :=
  wrong (UnmarshalIPPoolAllocatedIPs (AllocatedIPs (pool_status pool))).
Definition allocated_ips (ipVersion : Z) (poolIPAllocations : PoolIPAllocations) : outcome (list IP) :=
  ParseIPRanges ipVersion (range_keys poolIPAllocations).

(** [source] without the first [n] of its addresses that are not allocated, as ranges. *)
Definition discard_free (ipVersion : Z) (source poolAllocatedIPs : list IP) (n : Z) : outcome (list string) :=
  freeIPs ← IPsDiffSet source poolAllocatedIPs true;
  discardedIPs ← slice_to freeIPs n;
  newIPs ← IPsDiffSet source discardedIPs false;
  wrong (ConvertIPsToIPRanges ipVersion newIPs).

(** The ranges assigned to the pool, and the subnet to be written when the record changes. *)
Abbreviation assignment := (list string * option SpiderSubnet)%type.

(** The branch of [preAllocateIPsFromSubnet] for a pool that has the desired number already. *)
Definition reuse_or_correct (subnet : SpiderSubnet) (pool : SpiderIPPool) (ipVersion desiredIPNum : Z)
    (table : PoolIPPreAllocations) (allocation : PoolIPPreAllocation) (subnetPoolIPs : list IP) : outcome assignment :=
  poolIPAllocations ← pool_allocated_records pool;
  poolAllocatedIPs ← allocated_ips ipVersion poolIPAllocations;
  interrupted ← IsDiffIPSet poolAllocatedIPs subnetPoolIPs;
  if interrupted : bool then
    poolTotalIPs ← wrong (ParseIPRanges ipVersion (ps_IPs (pool_spec pool)));
    let total := Z.of_nat (length poolTotalIPs) in
    if total - desiredIPNum <=? total - Z.of_nat (length poolAllocatedIPs) then
      newPoolSpecIPRange ← discard_free ipVersion poolTotalIPs poolAllocatedIPs (total - desiredIPNum);
      subnet' ← with_pre_allocations subnet
        (<[Name (pool_meta pool) := MkPoolIPPreAllocation newPoolSpecIPRange (Application allocation)]> table);
      Ret (newPoolSpecIPRange, Some subnet')
    else Fail ErrFreeIPsNotEnough
  else Ret (pre_IPs allocation, None).

(** The branch for a pool that has more than the desired number. *)
Definition shrink (subnet : SpiderSubnet) (pool : SpiderIPPool) (ipVersion desiredIPNum : Z)
    (podController : PodTopController) (table : PoolIPPreAllocations) (subnetPoolIPs : list IP) : outcome assignment :=
  poolIPAllocations ← pool_allocated_records pool;
  let total := Z.of_nat (length subnetPoolIPs) in
  if total - desiredIPNum <=? total - Z.of_nat (size poolIPAllocations) then
    poolAllocatedIPs ← wrong (allocated_ips ipVersion poolIPAllocations);
    poolIPRange ← discard_free ipVersion subnetPoolIPs poolAllocatedIPs (total - desiredIPNum);
    subnet' ← with_pre_allocations subnet
      (<[Name (pool_meta pool) := MkPoolIPPreAllocation poolIPRange (Some (ApplicationNamespacedName (top_app podController)))]> table);
    Ret (poolIPRange, Some subnet')
  else Fail ErrFreeIPsNotEnough.

(** The branch for a pool that needs [ipNum] more addresses than it has. *)
Definition grow (subnet : SpiderSubnet) (pool : SpiderIPPool) (ipVersion ipNum : Z) (podController : PodTopController)
    (table : PoolIPPreAllocations) (beforeAllocatedIPs : list IP) : outcome assignment :=
  freeIPs ← GenSubnetFreeIPs subnet;
  reservedIPs ← wrong (AssembleReservedIPs rIPs ipVersion);
  freeIPs ← (if (length reservedIPs =? 0)%nat then Ret freeIPs else IPsDiffSet freeIPs reservedIPs true);
  if Z.of_nat (length freeIPs) <? ipNum then Fail (ErrOther "insufficient subnet FreeIPs")
  else
    _ ← make_cap 24 ipNum;
    taken ← slice_to freeIPs ipNum;
    allocateIPRange ← wrong (ConvertIPsToIPRanges ipVersion (taken ++ beforeAllocatedIPs));
    subnet' ← with_pre_allocations subnet
      (<[Name (pool_meta pool) := MkPoolIPPreAllocation allocateIPRange (Some (ApplicationNamespacedName (top_app podController)))]> table);
    Ret (allocateIPRange, Some subnet').

(** [preAllocateIPsFromSubnet] up to the write of the status. *)
Definition assign_ips (subnet : SpiderSubnet) (pool : SpiderIPPool) (ipVersion desiredIPNum : Z)
    (podController : PodTopController) : outcome assignment :=
  table ← wrong (UnmarshalSubnetAllocatedIPPools (ControlledIPPools (subnet_status subnet)));
  match table !! Name (pool_meta pool) with
  | Some allocation =>
      subnetPoolIPs ← wrong (ParseIPRanges ipVersion (pre_IPs allocation));
      let last := Z.of_nat (length subnetPoolIPs) in
      if desiredIPNum =? last then reuse_or_correct subnet pool ipVersion desiredIPNum table allocation subnetPoolIPs
      else if desiredIPNum <? last then shrink subnet pool ipVersion desiredIPNum podController table subnetPoolIPs
      else grow subnet pool ipVersion (desiredIPNum - last) podController table subnetPoolIPs
  | None => grow subnet pool ipVersion desiredIPNum podController table []
  end.
End pre_allocation.

(** ** ReconcileAutoIPPool *)


Section reconcile.
Context `{MR : MapRange} `{J : JSON PoolIPAllocations} `{J' : JSON PoolIPPreAllocations}.
Context {S : Type} `{KS : KubeStore S SpiderSubnet}.
Context (rIPs : list SpiderReservedIP).
(** What other clients do between the read of the subnet and the write of its status, and the
    writes of pools, whose answer is decoded into the object. *)
Context (env : S → S) (create_pool update_pool : SpiderIPPool → cmd S SpiderIPPool).

Definition preAllocateIPsFromSubnet (subnet : SpiderSubnet) (pool : SpiderIPPool) (ipVersion desiredIPNum : Z)
    (podController : PodTopController) : cmd S (list string) :=
  assigned ← lift (assign_ips rIPs subnet pool ipVersion desiredIPNum podController);
  match assigned.2 with
  | None => mret assigned.1
  | Some subnet' => _ ← meanwhile env; _ ← ((λ s, api_update_status s subnet') : cmd S unit); mret assigned.1
  end.

(** The pool as it is created, without its addresses. *)
Definition new_auto_pool (subnet : SpiderSubnet) (podController : PodTopController) (prop : AutoPoolProperty) : outcome SpiderIPPool :=
  let app := top_app podController in
  let version := ap_IPVersion prop in
  let cidr := ss_Subnet (subnet_spec subnet) in
  name ← AutoPoolName (app_Name app) version (IfName prop) (top_UID podController);
  let labels : gmap string string :=
    <[LabelIPPoolOwnerSpiderSubnet := Name (subnet_meta subnet)]>
    (<[LabelIPPoolOwnerApplicationGV := ApplicationLabelGV (app_APIVersion app)]>
    (<[LabelIPPoolOwnerApplicationKind := app_Kind app]>
    (<[LabelIPPoolOwnerApplicationNamespace := app_Namespace app]>
    (<[LabelIPPoolOwnerApplicationName := app_Name app]>
    (<[LabelIPPoolOwnerApplicationUID := top_UID podController]>
    (<[LabelIPPoolInterface := IfName prop]>
    (<[LabelIPPoolReclaimIPPool := IsReclaimAutoPoolLabelValue (IsReclaimIPPool prop)]>
    {[LabelIPPoolIPVersion := AutoPoolIPVersionLabelValue version]}))))))) in
  cidrLabelValue ← in_field (λ _, ErrOther "failed to parse") (CIDRToLabelValue version cidr);
  let meta := set_Labels (<[LabelIPPoolCIDR := cidrLabelValue]> labels) (plain_meta "" name "") in
  meta ← SetControllerReference (subnet_meta subnet) meta;
  Ret (MkIPPool (AddFinalizer meta SpiderFinalizer)
        (MkIPPoolSpec (Some version) cidr [] [] (ss_Gateway (subnet_spec subnet))
           (match ss_Routes (subnet_spec subnet) with [] => None | l => Some l end)
           (Some (NewAutoPoolPodAffinity podController)) None [] None [] [] None None)
        (MkIPPoolStatus None None None)).

(** What is to be done with an existing pool: nothing, or its labels are refreshed.  An empty map
    of labels is nil, and writing to it a panic. *)
Definition refresh_pool (subnet : SpiderSubnet) (pool : SpiderIPPool) (podController : PodTopController) (prop : AutoPoolProperty)
    : outcome (SpiderIPPool + SpiderIPPool) :=
  let labels := Labels (pool_meta pool) in
  let reclaim := IsReclaimAutoPoolLabelValue (IsReclaimIPPool prop) in
  if ps_Subnet (pool_spec pool) != ss_Subnet (subnet_spec subnet) then Fail ErrWrongInput
  else
    poolIPs ← wrong (ParseIPRanges (ap_IPVersion prop) (ps_IPs (pool_spec pool)));
    if (Z.of_nat (length poolIPs) =? DesiredIPNumber prop)
       && (default ""%string (labels !! LabelIPPoolOwnerApplicationUID) == top_UID podController)
       && (default ""%string (labels !! LabelIPPoolReclaimIPPool) == reclaim)
    then Ret (inl pool)
    else if labels == ∅ then Panic
    else Ret (inr (on_meta (λ m, set_Labels (<[LabelIPPoolReclaimIPPool := reclaim]>
           (<[LabelIPPoolOwnerApplicationUID := top_UID podController]> (Labels m))) m) pool)).

(** The addresses are assigned in the subnet, then the pool is written. *)
Definition apply_pool (write : SpiderIPPool → cmd S SpiderIPPool) (subnet : SpiderSubnet) (pool : SpiderIPPool)
    (podController : PodTopController) (prop : AutoPoolProperty) : cmd S SpiderIPPool :=
  ips ← preAllocateIPsFromSubnet subnet pool (ap_IPVersion prop) (DesiredIPNumber prop) podController;
  let pool := on_spec (set_ps_IPs ips) pool in
  let pool := on_meta (set_Annotations {[AnnoSpiderSubnetPoolIPNumber := AnnoPoolIPNumberVal prop]}) pool in
  write pool.

Definition ReconcileAutoIPPool (pool : option SpiderIPPool) (subnetName : string) (podController : PodTopController)
    (prop : AutoPoolProperty) : cmd S SpiderIPPool :=
  if subnetName == EmptyString then lift (Fail ErrWrongInput)
  else if DesiredIPNumber prop <? 0 then lift (Fail ErrWrongInput)
  else
    subnet ← read (λ s, api_get s subnetName);
    if DeletionTimestamp (subnet_meta subnet) != None then lift (Fail ErrWrongInput)
    else
      match pool with
      | Some pool =>
          refreshed ← lift (refresh_pool subnet pool podController prop);
          match refreshed with
          | inl pool => mret pool
          | inr pool => apply_pool update_pool subnet pool podController prop
          end
      | None =>
          pool ← lift (new_auto_pool subnet podController prop);
          apply_pool create_pool subnet pool podController prop
      end.
End reconcile.

(** The answer to a write: webhooks and the server may complete the object, but its name, its
    labels and its addresses are those that were sent. *)
Definition answered (p q : SpiderIPPool) : Prop :=
  Name (pool_meta q) = Name (pool_meta p) ∧ ps_IPs (pool_spec q) = ps_IPs (pool_spec p) ∧ Labels (pool_meta p) ⊆ Labels (pool_meta q).

(** ** What holds of the record of a subnet *)

(** A subnet whose ranges can be enumerated, converted back and are without repetition. *)
Record subnet_good (v : Z) (s : SpiderSubnet) : Prop := {
  sg_version : ss_IPVersion (subnet_spec s) = Some v;
  sg_valid : IsIPVersion v = Ret ();
  sg_ips : Forall (good_range v) (ss_IPs (subnet_spec s));
  sg_excluded : Forall (good_range v) (ss_ExcludeIPs (subnet_spec s));
  sg_nodup : NoDup (ranges_ips (ss_IPs (subnet_spec s)));
  sg_next : Forall next_ok (ranges_ips (ss_IPs (subnet_spec s)));
  sg_size : Z.of_nat (length (ranges_ips (ss_IPs (subnet_spec s)))) * 24 ≤ 2 ^ 48
}.

(** Ranges that stand for addresses of the subnet, each once. *)
Definition ranges_ok (v : Z) (s : SpiderSubnet) (rs : list string) : Prop :=
  Forall (good_range v) rs ∧ NoDup (ranges_ips rs) ∧ Forall (subnet_address s) (ranges_ips rs).

(** The pre-allocations are addresses of the subnet, and no address is assigned to two pools. *)
Definition table_ok (v : Z) (s : SpiderSubnet) (table : PoolIPPreAllocations) : Prop :=
  (∀ k a, table !! k = Some a → ranges_ok v s (pre_IPs a)) ∧
  ∀ k1 k2 a1 a2 x, k1 ≠ k2 → table !! k1 = Some a1 → table !! k2 = Some a2 →
    x ∈ ranges_ips (pre_IPs a1) → x ∉ ranges_ips (pre_IPs a2).

(** Ranges without an address of another pool. *)
Definition not_others (table : PoolIPPreAllocations) (name : string) (rs : list string) : Prop :=
  ∀ k a x, k ≠ name → table !! k = Some a → x ∈ ranges_ips rs → x ∉ ranges_ips (pre_IPs a).

Lemma table_ok_insert v s table name rs app :
  table_ok v s table → ranges_ok v s rs → not_others table name rs →
  table_ok v s (<[name := MkPoolIPPreAllocation rs app]> table).
Proof.
  intros [T1 T2] Hr Hn. split.
  - intros k a [[<- <-]|[? Ha]]%lookup_insert_Some; [done|by eapply T1].
  - intros k1 k2 a1 a2 x Hne [[<- <-]|[? H1]]%lookup_insert_Some [[E <-]|[? H2]]%lookup_insert_Some Hx; [done|..].
    + by apply (Hn k2 a2 x).
    + intros Hx'. subst. by apply (Hn k1 a1 x).
    + by apply (T2 k1 k2 a1 a2 x).
Qed.

Lemma table_ok_others v s table name a :
  table_ok v s table → table !! name = Some a → not_others table name (pre_IPs a).
Proof. intros [_ T2] Ha k b x Hne Hb Hx. by eapply (T2 name k). Qed.

Lemma not_others_weaken table name rs rs' :
  (∀ x, x ∈ ranges_ips rs' → x ∈ ranges_ips rs) → not_others table name rs → not_others table name rs'.
Proof. intros Hs Hn k a x Hne Ha Hx. eapply Hn; eauto. Qed.

#[export] Instance subnet_address_dec s x : Decision (subnet_address s x).
Proof. unfold subnet_address. apply _. Defined.
#[export] Instance ranges_ok_dec v s rs : Decision (ranges_ok v s rs).
Proof. unfold ranges_ok. apply _. Defined.

Section facts.
Context `{MR : MapRange} `{J : JSON PoolIPAllocations} `{J' : JSON PoolIPPreAllocations} `{JL' : !JSONLaws PoolIPPreAllocations}.

Lemma address_facts v s x : subnet_good v s → subnet_address s x → ip16 x ∧ of_family v x ∧ next_ok x.
Proof.
  intros G [Hx _]. pose proof (ranges_ips_ip16 (ss_IPs (subnet_spec s))) as H1.
  pose proof (ranges_ips_family v _ (sg_ips _ _ G)) as H2. pose proof (sg_next _ _ G) as H3.
  rewrite Forall_forall in H1, H2, H3. auto.
Qed.

Lemma addresses_ip16 v s l : subnet_good v s → Forall (subnet_address s) l → Forall ip16 l.
Proof. intros G Hl. eapply Forall_impl; [exact Hl|]. intros x Hx. by apply (address_facts v s). Qed.

(** Distinct addresses of the subnet are converted to ranges that stand for just them. *)
Lemma convert_addresses v s l : subnet_good v s → NoDup l → Forall (subnet_address s) l →
  ∃ rs, ConvertIPsToIPRanges v l = Ret rs ∧ ranges_ok v s rs ∧ ranges_ips rs ≡ₚ l.
Proof.
  intros G N Hl. pose proof (addresses_ip16 v s l G Hl) as H16. rewrite Forall_forall in Hl.
  assert (convertible v l) as Hc.
  { split_and!; [apply (sg_valid _ _ G)| |].
    - apply Forall_forall. intros x Hx. destruct (address_facts v s x G (Hl x Hx)) as (? & ? & ?). auto with addr.
    - assert (length l ≤ length (ranges_ips (ss_IPs (subnet_spec s))))%nat.
      { apply submseteq_length, NoDup_submseteq; [done|]. intros x Hx. by apply Hl. }
      pose proof (sg_size _ _ G). lia. }
  destruct (convert_roundtrip v l Hc) as (rs & E & Hg & _ & Hn & _ & Hin). exists rs.
  rewrite map_To16_ip16 in Hin by done. assert (ranges_ips rs ≡ₚ l) as Hp by (by apply NoDup_Permutation).
  split_and!; [done| |done]. split_and!; [done..|]. rewrite Hp. by apply Forall_forall.
Qed.

Lemma slice_to_Ret {A} (l : list A) n r : slice_to l n = Ret r → r = take (Z.to_nat n) l ∧ 0 ≤ n ≤ Z.of_nat (length l).
Proof. unfold slice_to. case_bool_decide; [|done]. by intros [= <-]. Qed.

Lemma discard_free_spec v s source alloc n rs :
  subnet_good v s → NoDup source → Forall (subnet_address s) source → Forall ip16 alloc →
  discard_free v source alloc n = Ret rs →
  ranges_ok v s rs ∧ Z.of_nat (length (ranges_ips rs)) = Z.of_nat (length source) - n ∧
  (∀ x, x ∈ ranges_ips rs → x ∈ source) ∧ ∀ x, x ∈ source → x ∈ alloc → x ∈ ranges_ips rs.
Proof.
  intros G N Hs Ha. pose proof (addresses_ip16 v s _ G Hs) as H16. unfold discard_free.
  destruct (IPsDiffSet_sorted source alloc) as (free & -> & Pf); [done..|]. cbn [mbind outcome_bind].
  intros (dis & [-> Hn]%slice_to_Ret & H)%bind_Ret.
  assert (∀ x, x ∈ take (Z.to_nat n) free → x ∈ source ∧ x ∉ alloc) as Hd.
  { intros x Hx. assert (x ∈ free) as Hf by (rewrite <- (take_drop (Z.to_nat n) free); set_solver).
    rewrite Pf in Hf. by apply list_elem_of_filter in Hf as [? ?]. }
  assert (NoDup free) as Nf by (rewrite Pf; by apply NoDup_filter).
  rewrite IPsDiffSet_ip16 in H; [|done|].
  2:{ apply Forall_forall. intros x Hx. rewrite Forall_forall in H16. by apply H16, Hd. }
  cbn [mbind outcome_bind] in H. set (new := filter _ source) in H.
  destruct (convert_addresses v s new G) as (rs' & E & Hok & Hp); [by apply NoDup_filter|by apply Forall_filter|].
  rewrite E in H. apply Ret_inj in H as <-. split_and!; [done| | |].
  - rewrite Hp. assert (new ++ take (Z.to_nat n) free ≡ₚ source) as Happ.
    { apply NoDup_Permutation; [|done|].
      - apply NoDup_app. split_and!; [by apply NoDup_filter| |].
        + intros x Hx. by apply list_elem_of_filter in Hx as [? ?].
        + eapply sublist_NoDup; [exact Nf|apply sublist_take].
      - intros x. rewrite elem_of_app. unfold new. rewrite list_elem_of_filter. split.
        + intros [[_ ?]|Hx]; [done|]. by apply Hd.
        + intros Hx. destruct (decide (x ∈ take (Z.to_nat n) free)); auto. }
    apply Permutation_length in Happ. rewrite length_app, length_take in Happ. lia.
  - intros x. rewrite Hp. unfold new. rewrite list_elem_of_filter. by intros [? ?].
  - intros x Hx Hal. rewrite Hp. unfold new. rewrite list_elem_of_filter. split; [|done].
    intros Hin. by apply Hd in Hin as [? ?].
Qed.

(** The free addresses are those of the subnet that are assigned to no pool. *)
Lemma GenSubnetFreeIPs_spec v s table :
  subnet_good v s → UnmarshalSubnetAllocatedIPPools (ControlledIPPools (subnet_status s)) = Ret table →
  table_ok v s table →
  ∃ l, GenSubnetFreeIPs s = Ret l ∧ NoDup l ∧ Forall (subnet_address s) l ∧
    ∀ x k a, x ∈ l → table !! k = Some a → x ∉ ranges_ips (pre_IPs a).
Proof.
  intros G Hd [T1 T2]. unfold GenSubnetFreeIPs. rewrite Hd, (sg_version _ _ G). cbn [deref mbind outcome_bind].
  set (used := concat _). assert (∀ r, r ∈ used ↔ ∃ k a, table !! k = Some a ∧ r ∈ pre_IPs a) as Hu.
  { intros r. unfold used. rewrite elem_of_concat. split.
    - intros (l & ([k a] & -> & Hka%elem_of_range_kv)%list_elem_of_fmap & Hr). eauto.
    - intros (k & a & Ha & Hr). exists (pre_IPs a). split; [|done]. apply list_elem_of_fmap. exists (k, a).
      by rewrite elem_of_range_kv. }
  rewrite ParseIPRanges_spec.
  2:{ apply Forall_forall. intros r (k & a & Ha & Hr)%Hu. destruct (T1 k a Ha) as (Hg & _).
      rewrite Forall_forall in Hg. auto. }
  cbn [mbind outcome_bind]. rewrite AssembleTotalIPs_spec by apply G. cbn [mbind outcome_bind].
  destruct (IPsDiffSet_sorted (filter (.∉ ranges_ips (ss_ExcludeIPs (subnet_spec s))) (ranges_ips (ss_IPs (subnet_spec s)))) (ranges_ips used))
    as (l & -> & Hl); [auto with addr..|].
  exists l. split_and!; [done| | |].
  - rewrite Hl. apply NoDup_filter, NoDup_filter, (sg_nodup _ _ G).
  - rewrite Hl. apply Forall_filter, Forall_forall. intros x [? ?]%list_elem_of_filter. by split.
  - intros x k a. rewrite Hl. intros [Hx _]%list_elem_of_filter Ha Hin. apply Hx.
    apply elem_of_ranges_ips in Hin as (r & Hr & Hin). apply elem_of_ranges_ips. exists r. split; [|done]. apply Hu. eauto.
Qed.

Lemma with_pre_allocations_Ret s table s' : with_pre_allocations s table = Ret s' →
  subnet_meta s' = subnet_meta s ∧ subnet_spec s' = subnet_spec s ∧
  UnmarshalSubnetAllocatedIPPools (ControlledIPPools (subnet_status s')) = Ret table.
Proof.
  unfold with_pre_allocations. intros ([t a] & _ & [= <-])%bind_Ret. split_and!; [done..|]. apply UnmarshalSubnet_Marshal.
Qed.

(** What is relied on in the pool: its ranges are addresses of the subnet that are assigned to no
    other pool, and its records name addresses. *)
Record pool_fits (v : Z) (s : SpiderSubnet) (table : PoolIPPreAllocations) (pool : SpiderIPPool) (records : PoolIPAllocations)
    : Prop := {
  pf_spec : ranges_ok v s (ps_IPs (pool_spec pool));
  pf_others : not_others table (Name (pool_meta pool)) (ps_IPs (pool_spec pool));
  pf_records : UnmarshalIPPoolAllocatedIPs (AllocatedIPs (pool_status pool)) = Ret records;
  pf_keys : ∀ k, is_Some (records !! k) → good_range v k
}.

Definition allocated (records : PoolIPAllocations) (x : IP) : Prop := ∃ k, is_Some (records !! k) ∧ x ∈ range_ips k.

Lemma allocated_ips_spec v s table pool records : pool_fits v s table pool records →
  allocated_ips v records = Ret (ranges_ips (range_keys records)) ∧
  ∀ x, x ∈ ranges_ips (range_keys records) ↔ allocated records x.
Proof.
  intros F. split.
  - apply ParseIPRanges_spec, Forall_forall. intros k Hk%elem_of_range_keys. by apply (pf_keys _ _ _ _ _ F).
  - intros x. rewrite elem_of_ranges_ips. unfold allocated. by setoid_rewrite elem_of_range_keys.
Qed.

(** An assignment of [desired] addresses to the pool: addresses of the subnet that no other pool
    has, with those kept that are in use, and recorded unless it was recorded before. *)
Definition assigned (v : Z) (s : SpiderSubnet) (table : PoolIPPreAllocations) (pool : SpiderIPPool) (records : PoolIPAllocations)
    (desired : Z) (r : list string * option SpiderSubnet) : Prop :=
  let name := Name (pool_meta pool) in
  ranges_ok v s r.1 ∧ not_others table name r.1 ∧ Z.of_nat (length (ranges_ips r.1)) = desired ∧
  (∀ x a, allocated records x → x ∈ ranges_ips (ps_IPs (pool_spec pool)) →
    table !! name = Some a → x ∈ ranges_ips (pre_IPs a) → x ∈ ranges_ips r.1) ∧
  ∃ app, match r.2 with
         | None => table !! name = Some (MkPoolIPPreAllocation r.1 app)
         | Some s' => subnet_meta s' = subnet_meta s ∧ subnet_spec s' = subnet_spec s ∧
             UnmarshalSubnetAllocatedIPPools (ControlledIPPools (subnet_status s')) =
               Ret (<[name := MkPoolIPPreAllocation r.1 app]> table)
         end.

Context (rIPs : list SpiderReservedIP).

Lemma reuse_or_correct_spec v s table pool records desired a r :
  subnet_good v s → table_ok v s table → pool_fits v s table pool records → table !! Name (pool_meta pool) = Some a →
  desired = Z.of_nat (length (ranges_ips (pre_IPs a))) →
  reuse_or_correct s pool v desired table a (ranges_ips (pre_IPs a)) = Ret r → assigned v s table pool records desired r.
Proof.
  intros G T F Ha Hd. destruct (proj1 T _ _ Ha) as (Hg & Hn & Hs). destruct (allocated_ips_spec _ _ _ _ _ F) as [Ea Hal].
  destruct (pf_spec _ _ _ _ _ F) as (Pg & Pn & Ps).
  unfold reuse_or_correct, pool_allocated_records. rewrite (pf_records _ _ _ _ _ F). cbn [wrong in_field mbind outcome_bind].
  rewrite Ea. cbn [mbind outcome_bind]. rewrite IsDiffIPSet_ip16 by auto with addr. cbn [mbind outcome_bind].
  case_bool_decide as Hdiff.
  - rewrite ParseIPRanges_spec by done. cbn [wrong in_field mbind outcome_bind]. case_match; [|done].
    intros (rs & Hrs & (s' & Hs' & [= <-])%bind_Ret)%bind_Ret.
    apply (discard_free_spec v s) in Hrs as (Hok & Hlen & Hsub & Hkeep); [|done..|auto with addr].
    apply with_pre_allocations_Ret in Hs'. split_and!; [done| |cbn [fst]; lia| |by exists (Application a)].
    + by eapply not_others_weaken; [|apply (pf_others _ _ _ _ _ F)].
    + intros x a' Hx Hspec _ _. apply Hkeep; [done|]. by apply Hal.
  - intros [= <-]. split_and!; [done|by apply (table_ok_others v s)|done| |by exists (Application a); destruct a].
    intros x a' Hx _ Ha' Hin. rewrite Ha in Ha'. by injection Ha' as <-.
Qed.

Lemma shrink_spec v s table pool records desired a podController r :
  subnet_good v s → table_ok v s table → pool_fits v s table pool records → table !! Name (pool_meta pool) = Some a →
  shrink s pool v desired podController table (ranges_ips (pre_IPs a)) = Ret r → assigned v s table pool records desired r.
Proof.
  intros G T F Ha. destruct (proj1 T _ _ Ha) as (Hg & Hn & Hs). destruct (allocated_ips_spec _ _ _ _ _ F) as [Ea Hal].
  unfold shrink, pool_allocated_records. rewrite (pf_records _ _ _ _ _ F). cbn [wrong in_field mbind outcome_bind].
  case_match; [|done]. rewrite Ea. cbn [wrong in_field mbind outcome_bind].
  intros (rs & Hrs & (s' & Hs' & [= <-])%bind_Ret)%bind_Ret.
  apply (discard_free_spec v s) in Hrs as (Hok & Hlen & Hsub & Hkeep); [|done..|auto with addr].
  apply with_pre_allocations_Ret in Hs'. split_and!; [done| |cbn [fst]; lia| |eexists; exact Hs'].
  - by eapply not_others_weaken; [|apply (table_ok_others v s table _ a)].
  - intros x a' Hx _ Ha' Hin. rewrite Ha in Ha'. injection Ha' as <-. apply Hkeep; [done|]. by apply Hal.
Qed.

Lemma grow_spec v s table pool records n before podController r :
  subnet_good v s → table_ok v s table → good_reserved rIPs v →
  UnmarshalSubnetAllocatedIPPools (ControlledIPPools (subnet_status s)) = Ret table →
  match table !! Name (pool_meta pool) with Some a => before = ranges_ips (pre_IPs a) | None => before = [] end →
  0 ≤ n → grow rIPs s pool v n podController table before = Ret r →
  assigned v s table pool records (n + Z.of_nat (length before)) r ∧
  ∀ x, x ∈ ranges_ips r.1 → x ∉ before → ¬ reserved rIPs v x.
Proof.
  intros G T R Hd Hb Hn. unfold grow. destruct (GenSubnetFreeIPs_spec v s table G Hd T) as (free & -> & Nf & Sf & Uf).
  cbn [mbind outcome_bind]. destruct (AssembleReservedIPs_spec rIPs v (sg_valid _ _ G) R) as (res & -> & R16 & Rin).
  cbn [wrong in_field mbind outcome_bind]. pose proof (addresses_ip16 v s free G Sf) as F16.
  assert (∃ l, (if (length res =? 0)%nat then Ret free else IPsDiffSet free res true) = Ret l ∧ l ≡ₚ filter (.∉ res) free)
    as (l & -> & Pl).
  { destruct res as [|y res']; [|by apply IPsDiffSet_sorted]. cbn. exists free. split; [done|].
    by rewrite filter_all by (intros; apply not_elem_of_nil). }
  cbn [mbind outcome_bind]. destruct (Z.ltb_spec (Z.of_nat (length l)) n) as [Hlt|Hge]; [done|].
  intros ([] & _ & (taken & [-> Ht]%slice_to_Ret & (rs & Hrs & (s' & Hs' & [= <-])%bind_Ret)%bind_Ret)%bind_Ret)%bind_Ret.
  apply with_pre_allocations_Ret in Hs'. set (taken := take (Z.to_nat n) l) in *.
  assert (∀ x, x ∈ taken → x ∈ free ∧ x ∉ res) as Htk.
  { intros x Hx. assert (x ∈ l) as Hl by (rewrite <- (take_drop (Z.to_nat n) l); set_solver).
    rewrite Pl in Hl. by apply list_elem_of_filter in Hl as [? ?]. }
  assert (NoDup taken) as Nt.
  { eapply sublist_NoDup; [|apply sublist_take]. rewrite Pl. by apply NoDup_filter. }
  assert (NoDup before ∧ Forall (subnet_address s) before) as [Nb Sb].
  { destruct (table !! _) as [a|] eqn:Ea; subst before; [apply (proj1 T _ _ Ea)|split; constructor]. }
  assert (∀ x, x ∈ taken → x ∉ before) as Htb.
  { intros x Hx Hin. destruct (Htk x Hx) as [Hfr _]. destruct (table !! _) as [a|] eqn:Ea; subst before;
      [by apply (Uf x _ a Hfr Ea)|by apply elem_of_nil in Hin]. }
  destruct (convert_addresses v s (taken ++ before) G) as (rs' & E & Hok & Hp).
  { by apply NoDup_app. }
  { apply Forall_app. split; [|done]. rewrite Forall_forall in Sf. apply Forall_forall. intros x Hx. by apply Sf, Htk. }
  rewrite E in Hrs. apply Ret_inj in Hrs as <-. split; [split_and!; [done| | | |eexists; exact Hs']|].
  - intros k a x Hne Ha Hx Hin. cbn [fst] in Hx. rewrite Hp, elem_of_app in Hx. destruct Hx as [Hx|Hx].
    + destruct (Htk x Hx) as [Hfr _]. by apply (Uf x k a).
    + destruct (table !! Name (pool_meta pool)) as [b|] eqn:Eb; subst before; [|by apply elem_of_nil in Hx].
      by apply (proj2 T (Name (pool_meta pool)) k b a x).
  - cbn [fst]. rewrite Hp, length_app. unfold taken. rewrite length_take. lia.
  - intros x a _ _ Ha Hin. cbn [fst]. rewrite Hp, elem_of_app. right. rewrite Ha in Hb. by subst.
  - intros x Hx Hnb. cbn [fst] in Hx. rewrite Hp, elem_of_app in Hx. destruct Hx as [Hx|?]; [|done].
    rewrite <- Rin. by apply Htk.
Qed.

(** Every branch of [preAllocateIPsFromSubnet]. *)
Lemma assign_ips_spec v s table pool records desired podController r :
  subnet_good v s → UnmarshalSubnetAllocatedIPPools (ControlledIPPools (subnet_status s)) = Ret table →
  table_ok v s table → pool_fits v s table pool records → good_reserved rIPs v → 0 ≤ desired →
  assign_ips rIPs s pool v desired podController = Ret r → assigned v s table pool records desired r.
Proof.
  intros G Hd T F R Hdes. unfold assign_ips. rewrite Hd. cbn [wrong in_field mbind outcome_bind].
  destruct (table !! Name (pool_meta pool)) as [a|] eqn:Ea.
  - destruct (proj1 T _ _ Ea) as (Hg & _). rewrite ParseIPRanges_spec by done. cbn [wrong in_field mbind outcome_bind].
    destruct (Z.eqb_spec desired (Z.of_nat (length (ranges_ips (pre_IPs a))))) as [E|E]; [by apply reuse_or_correct_spec|].
    destruct (Z.ltb_spec desired (Z.of_nat (length (ranges_ips (pre_IPs a))))) as [Hlt|Hge]; [by apply shrink_spec|].
    intros Hr. apply (grow_spec v s table pool records) in Hr as [Hr _]; [|done..|by rewrite Ea|lia].
    by replace (desired - _ + _) with desired in Hr by lia.
  - intros Hr. apply (grow_spec v s table pool records) in Hr as [Hr _]; [|done..|by rewrite Ea|lia].
    by rewrite Z.add_0_r in Hr.
Qed.
End facts.

(** ** The subnets on the server *)

Section server.
Context `{MR : MapRange} `{J : JSON PoolIPAllocations} `{J' : JSON PoolIPPreAllocations} `{JL' : !JSONLaws PoolIPPreAllocations}.
Context {S : Type} `{KS : KubeStore S SpiderSubnet} `{KL : !KubeStoreLaws S SpiderSubnet}.
Context (rIPs : list SpiderReservedIP) (env : S → S) (create_pool update_pool : SpiderIPPool → cmd S SpiderIPPool).

Definition subnet_record (s : SpiderSubnet) (v : Z) (table : PoolIPPreAllocations) : Prop :=
  subnet_good v s ∧ UnmarshalSubnetAllocatedIPPools (ControlledIPPools (subnet_status s)) = Ret table ∧ table_ok v s table.

(** In every subnet, no address is assigned to two pools. *)
Definition subnets_ok (st : S) : Prop := ∀ k s, view st !! k = Some s → ∃ v table, subnet_record s v table.

(** Other clients keep that too; writes of pools do not touch subnets. *)
Context (env_later : ∀ st, valid st → later st (env st)) (env_ok : ∀ st, subnets_ok st → subnets_ok (env st)).
Context (create_view : ∀ p st, later st (create_pool p st).2 ∧ view (create_pool p st).2 = view st).
Context (update_view : ∀ p st, later st (update_pool p st).2 ∧ view (update_pool p st).2 = view st).
Context (create_answer : ∀ p st q st', create_pool p st = (Ret q, st') → answered p q).
Context (update_answer : ∀ p st q st', update_pool p st = (Ret q, st') → answered p q).

(** The ranges are recorded for the pool in the subnet of that name. *)
Definition recorded_for (st : S) (subnetName name : string) (ips : list string) : Prop :=
  ∃ s table app, view st !! subnetName = Some s ∧
    UnmarshalSubnetAllocatedIPPools (ControlledIPPools (subnet_status s)) = Ret table ∧
    table !! name = Some (MkPoolIPPreAllocation ips app).

Lemma preAllocate_spec st k s v table pool records desired podController r st' :
  valid st → subnets_ok st → api_get st k = Ret s → subnet_record s v table → pool_fits v s table pool records →
  good_reserved rIPs v → 0 ≤ desired →
  preAllocateIPsFromSubnet rIPs env s pool v desired podController st = (r, st') →
  later st st' ∧ subnets_ok st' ∧ ∀ ips, r = Ret ips →
    ranges_ok v s ips ∧ Z.of_nat (length (ranges_ips ips)) = desired ∧ recorded_for st' k (Name (pool_meta pool)) ips.
Proof.
  intros Hv Hok Hg (G & Hd & T) F R Hdes. unfold preAllocateIPsFromSubnet, mbind, cmd_bind, lift.
  destruct (assign_ips rIPs s pool v desired podController) as [[ips w]|e| |] eqn:E.
  2-4: by intros [= <- <-]; split_and!.
  apply (assign_ips_spec rIPs v s table pool records) in E as (Hr & Ho & Hlen & _ & app & Hw); [|done..]. cbn [fst snd] in *.
  destruct (get_found st k s Hv Hg) as [Hview _]. destruct w as [s'|].
  2:{ intros [= <- <-]. split_and!; [done..|]. intros ips' [= <-]. split_and!; [done..|]. by exists s, table, app. }
  unfold meanwhile. cbn. destruct (api_update_status (env st) s') as [o st1] eqn:Eu. destruct Hw as (Hm & Hsp & Hdec).
  destruct (update_of_read st (env st) st1 k s s' o Hv Hg (env_later st Hv) Hm Eu) as [Hl Hcase].
  assert (later st st1) as Hl1 by (etransitivity; [by apply env_later|exact Hl]).
  assert (∀ ver, subnet_record (merge_status s s' ver) v (<[Name (pool_meta pool) := MkPoolIPPreAllocation ips app]> table)) as Hrec.
  { intros ver. split_and!; [by split; apply G|done|]. apply (table_ok_insert v s); done. }
  assert (subnets_ok st1) as Hok1.
  { destruct Hcase as [[Hvw _]|(ver & _ & Hvw)]; intros k' s0; rewrite Hvw; [by apply env_ok|].
    intros [[<- <-]|[_ H0]]%lookup_insert_Some; [eauto|]. by apply env_ok in H0. }
  destruct o as [[]|e| |]; intros [= <- <-]; split_and!; try done. intros ips' [= <-].
  destruct Hcase as [[_ ?]|(ver & _ & Hvw)]; [done|]. split_and!; [done..|].
  exists (merge_status s s' ver), (<[Name (pool_meta pool) := MkPoolIPPreAllocation ips app]> table), app.
  split_and!; [by rewrite Hvw, lookup_insert_eq|done|by rewrite lookup_insert_eq].
Qed.

(** The specs of the subnets are left alone. *)
Definition specs_hold (P : string → SubnetSpec → Prop) (st : S) : Prop := ∀ k s, view st !! k = Some s → P k (subnet_spec s).

Lemma preAllocate_specs P st s pool v desired podController r st' :
  valid st → (∀ st, specs_hold P st → specs_hold P (env st)) → specs_hold P st →
  preAllocateIPsFromSubnet rIPs env s pool v desired podController st = (r, st') → specs_hold P st'.
Proof.
  intros Hv Henv HP. unfold preAllocateIPsFromSubnet, mbind, cmd_bind, lift.
  destruct (assign_ips rIPs s pool v desired podController) as [[ips w]|e| |]; [|by intros [= <- <-]..].
  destruct w as [s'|]; [|by intros [= <- <-]]. unfold meanwhile. cbn. destruct (api_update_status (env st) s') as [o st1] eqn:Eu.
  assert (valid (env st)) as Hve by (eapply later_valid; [exact Hv|by apply env_later]).
  assert (specs_hold P st1) as H1.
  { assert (∀ old ver, view (env st) !! obj_key s' = Some old → view st1 = <[obj_key s' := merge_status old s' ver]> (view (env st)) →
      specs_hold P st1) as Happ.
    { intros old ver Ho Hw k x. rewrite Hw. intros [[<- <-]|[_ Hx]]%lookup_insert_Some; [exact (Henv st HP _ _ Ho)|exact (Henv st HP _ _ Hx)]. }
    destruct (update_total _ _ _ _ Eu) as [->|[e ->]].
    - destruct (update_applied _ _ _ Hve Eu) as (old & ver & Ho & _ & Hw). by eapply Happ.
    - destruct (update_failed _ _ _ _ Hve Eu) as [Hw|(_ & old & ver & Ho & _ & Hw)]; [|by eapply Happ].
      intros k x. rewrite Hw. by apply Henv. }
  destruct o as [[]|e| |]; by intros [= <- <-].
Qed.

Lemma apply_pool_specs P write st s pool podController prop r st' :
  valid st → (∀ st, specs_hold P st → specs_hold P (env st)) → specs_hold P st →
  (∀ p st, later st (write p st).2 ∧ view (write p st).2 = view st) →
  apply_pool rIPs env write s pool podController prop st = (r, st') → specs_hold P st'.
Proof.
  intros Hv Henv HP Hw. unfold apply_pool, mbind, cmd_bind.
  destruct (preAllocateIPsFromSubnet _ _ _ _ _ _ _ st) as [o st1] eqn:E. apply (preAllocate_specs P) in E; [|done..].
  destruct o as [ips|e| |]; [|by intros [= <- <-]..].
  match goal with |- context [write ?p st1] => destruct (Hw p st1) as [_ Hvw]; destruct (write p st1) as [o st2] end.
  cbn in Hvw. intros [= <- <-]. intros k x. rewrite Hvw. apply E.
Qed.

Lemma Reconcile_specs P st subnetName pool podController prop r st' :
  valid st → (∀ st, specs_hold P st → specs_hold P (env st)) → specs_hold P st →
  ReconcileAutoIPPool rIPs env create_pool update_pool pool subnetName podController prop st = (r, st') → specs_hold P st'.
Proof.
  intros Hv Henv HP. unfold ReconcileAutoIPPool. case_match; [by intros [= <- <-]|]. case_match; [by intros [= <- <-]|].
  unfold mbind at 1, cmd_bind at 1, read. destruct (api_get st subnetName) as [s|e| |]; [|by intros [= <- <-]..].
  case_match; [by intros [= <- <-]|]. destruct pool as [pool|]; unfold mbind at 1, cmd_bind at 1, lift.
  - destruct (refresh_pool s pool podController prop) as [[p|p]|e| |]; [by intros [= <- <-]| |by intros [= <- <-]..].
    by apply (apply_pool_specs P update_pool).
  - destruct (new_auto_pool s podController prop) as [p|e| |]; [|by intros [= <- <-]..].
    by apply (apply_pool_specs P create_pool).
Qed.

(** What a successful reconciliation comes to. *)
Definition reconciled (st : S) (subnetName : string) (prop : AutoPoolProperty) (p : SpiderIPPool) : Prop :=
  Forall (good_range (ap_IPVersion prop)) (ps_IPs (pool_spec p)) ∧
  Z.of_nat (length (ranges_ips (ps_IPs (pool_spec p)))) = DesiredIPNumber prop ∧
  recorded_for st subnetName (Name (pool_meta p)) (ps_IPs (pool_spec p)).

Lemma apply_pool_spec write st k s table pool records podController prop r st' :
  valid st → subnets_ok st → api_get st k = Ret s → subnet_record s (ap_IPVersion prop) table →
  pool_fits (ap_IPVersion prop) s table pool records → good_reserved rIPs (ap_IPVersion prop) → 0 ≤ DesiredIPNumber prop →
  (∀ p st, later st (write p st).2 ∧ view (write p st).2 = view st) → (∀ p st q st', write p st = (Ret q, st') → answered p q) →
  apply_pool rIPs env write s pool podController prop st = (r, st') →
  later st st' ∧ subnets_ok st' ∧ ∀ p, r = Ret p → Name (pool_meta p) = Name (pool_meta pool) ∧ reconciled st' k prop p.
Proof.
  intros Hv Hok Hg Hrec F R Hdes Hw Ha. unfold apply_pool, mbind, cmd_bind.
  destruct (preAllocateIPsFromSubnet _ _ _ _ _ _ _ st) as [o st1] eqn:E.
  apply (preAllocate_spec st k s _ table pool records) in E as (Hl & Hok1 & Hips); [|done..].
  destruct o as [ips|e| |]; [|by intros [= <- <-]..]. destruct (Hips ips eq_refl) as (Hr & Hlen & Hrecd).
  match goal with |- context [write ?p st1] => destruct (Hw p st1) as [Hlw Hvw]; pose proof (Ha p st1) as Hans; destruct (write p st1) as [o st2] end.
  cbn in Hlw, Hvw. assert (subnets_ok st2) as Hok2 by (intros k' s'; rewrite Hvw; apply Hok1).
  assert (later st st2) as Hl2 by (by etrans).
  intros [= <- <-]. split_and!; [done..|]. intros p ->. destruct (Hans p st2 eq_refl) as (Hn & Hi & _). cbn in Hn, Hi.
  split; [done|]. unfold reconciled. rewrite Hi, Hn. split_and!; [apply Hr|done|]. unfold recorded_for. by rewrite Hvw.
Qed.

Lemma new_auto_pool_fits s table podController prop pool :
  new_auto_pool s podController prop = Ret pool → pool_fits (ap_IPVersion prop) s table pool ∅.
Proof.
  unfold new_auto_pool. intros (name & _ & (l & _ & (m & _ & [= <-])%bind_Ret)%bind_Ret)%bind_Ret. split; try done.
  - split_and!; constructor.
  - intros k a x _ _ Hx. by apply elem_of_nil in Hx.
  - intros k [? Hk]. by rewrite lookup_empty in Hk.
Qed.

Lemma refresh_pool_fits s table pool podController prop records r :
  pool_fits (ap_IPVersion prop) s table pool records → refresh_pool s pool podController prop = Ret r →
  match r with
  | inl p => p = pool ∧ Z.of_nat (length (ranges_ips (ps_IPs (pool_spec p)))) = DesiredIPNumber prop
  | inr p => pool_spec p = pool_spec pool ∧ Name (pool_meta p) = Name (pool_meta pool) ∧
             pool_fits (ap_IPVersion prop) s table p records
  end.
Proof.
  intros F. unfold refresh_pool. case_match; [done|]. destruct (pf_spec _ _ _ _ _ F) as (Pg & _).
  rewrite ParseIPRanges_spec by done. cbn [wrong in_field mbind outcome_bind].
  destruct (Z.eqb_spec (Z.of_nat (length (ranges_ips (ps_IPs (pool_spec pool))))) (DesiredIPNumber prop)) as [E|E]; cbn [andb].
  - case_match; [by intros [= <-]|]. case_match; [done|]. intros [= <-]. split_and!; [done..|]. by split; apply F.
  - case_match; [done|]. intros [= <-]. split_and!; [done..|]. by split; apply F.
Qed.

(** The pool that is given fits the subnet that is stored. *)
Definition given_fits (st : S) (subnetName : string) (prop : AutoPoolProperty) (pool : SpiderIPPool) : Prop :=
  ∀ s table, view st !! subnetName = Some s →
    UnmarshalSubnetAllocatedIPPools (ControlledIPPools (subnet_status s)) = Ret table →
    ∃ records, pool_fits (ap_IPVersion prop) s table pool records.

Lemma Reconcile_spec st subnetName pool podController prop r st' :
  valid st → subnets_ok st → good_reserved rIPs (ap_IPVersion prop) →
  (∀ s, view st !! subnetName = Some s → ss_IPVersion (subnet_spec s) = Some (ap_IPVersion prop)) →
  (∀ p, pool = Some p → given_fits st subnetName prop p) →
  ReconcileAutoIPPool rIPs env create_pool update_pool pool subnetName podController prop st = (r, st') →
  later st st' ∧ subnets_ok st' ∧ ∀ p, r = Ret p →
    Forall (good_range (ap_IPVersion prop)) (ps_IPs (pool_spec p)) ∧
    Z.of_nat (length (ranges_ips (ps_IPs (pool_spec p)))) = DesiredIPNumber prop ∧
    (pool = Some p ∨ recorded_for st' subnetName (Name (pool_meta p)) (ps_IPs (pool_spec p))).
Proof.
  intros Hv Hok R Hver Hpool. unfold ReconcileAutoIPPool. case_match; [by intros [= <- <-]|].
  destruct (Z.ltb_spec (DesiredIPNumber prop) 0) as [|Hdes]; [by intros [= <- <-]|].
  unfold mbind at 1, cmd_bind at 1, read. destruct (api_get st subnetName) as [s|e| |] eqn:Hg; [|by intros [= <- <-]..].
  destruct (get_found st subnetName s Hv Hg) as [Hview _]. case_match; [by intros [= <- <-]|].
  destruct (Hok _ _ Hview) as (v & table & Hrec).
  assert (v = ap_IPVersion prop) as -> by (destruct Hrec as [G _]; pose proof (sg_version _ _ G); rewrite (Hver _ Hview) in *; congruence).
  pose proof Hrec as (G & Hd & T). destruct pool as [pool|].
  - destruct (Hpool pool eq_refl s table Hview Hd) as [records F]. unfold mbind at 1, cmd_bind at 1, lift.
    destruct (refresh_pool s pool podController prop) as [rp|e| |] eqn:Er; [|by intros [= <- <-]..].
    apply (refresh_pool_fits s table _ _ _ records) in Er; [|done]. destruct rp as [p|p].
    + destruct Er as [-> Hlen]. intros [= <- <-]. split_and!; [done..|]. intros p [= <-].
      destruct (pf_spec _ _ _ _ _ F) as (Pg & _). split_and!; [done..|by left].
    + destruct Er as (_ & _ & F'). intros Hap. apply (apply_pool_spec update_pool st subnetName s table p records) in Hap as (? & ? & Hr); [|done..].
      split_and!; [done..|]. intros q Hq. destruct (Hr q Hq) as (_ & ? & ? & ?). split_and!; [done..|by right].
  - unfold mbind at 1, cmd_bind at 1, lift. destruct (new_auto_pool s podController prop) as [p|e| |] eqn:En; [|by intros [= <- <-]..].
    apply (new_auto_pool_fits s table) in En.
    intros Hap. apply (apply_pool_spec create_pool st subnetName s table p ∅) in Hap as (? & ? & Hr); [|done..].
    split_and!; [done..|]. intros q Hq. destruct (Hr q Hq) as (_ & ? & ? & ?). split_and!; [done..|by right].
Qed.
(** C18: [ReconcileAutoIPPool], for a subnet of the version asked for and a pool that, where one is
    given, fits the record of the subnet ([given_fits]: its ranges are addresses of the subnet and
    recorded for no other pool, and its records name addresses), and whatever other clients write
    between the read and the write of the subnet, so long as they keep the invariant: it keeps that no
    address is assigned to two pools of a subnet; a pool it returns has the desired number of
    addresses, and unless the pool was left as it is, the subnet now records exactly them for the
    pool.  Without [given_fits] the invariant can be lost, as [correction_takes_back] shows. *)
Theorem ReconcileAutoIPPool_keeps st subnetName pool podController prop r st' :
  valid st → subnets_ok st → good_reserved rIPs (ap_IPVersion prop) →
  (∀ s, view st !! subnetName = Some s → ss_IPVersion (subnet_spec s) = Some (ap_IPVersion prop)) →
  (∀ p, pool = Some p → given_fits st subnetName prop p) →
  ReconcileAutoIPPool rIPs env create_pool update_pool pool subnetName podController prop st = (r, st') →
  subnets_ok st' ∧ ∀ p, r = Ret p →
    Forall (good_range (ap_IPVersion prop)) (ps_IPs (pool_spec p)) ∧
    Z.of_nat (length (ranges_ips (ps_IPs (pool_spec p)))) = DesiredIPNumber prop ∧
    (pool = Some p ∨ recorded_for st' subnetName (Name (pool_meta p)) (ps_IPs (pool_spec p))).
Proof. intros Hv Hok R Hver Hpool E. by destruct (Reconcile_spec st subnetName pool podController prop r st' Hv Hok R Hver Hpool E) as (_ & ? & ?). Qed.

End server.

(** ** Properties *)

(** [preAllocateIPsFromSubnet], whether it reuses, corrects, shrinks or enlarges what a pool
    has, assigns exactly the desired number of addresses, all of the subnet and none of another
    pool, and keeps every address that is in use in the pool and recorded for it. *)
Theorem preAllocate_keeps_used `{MR : MapRange} `{J : JSON PoolIPAllocations} `{J' : JSON PoolIPPreAllocations}
    `{JL' : !JSONLaws PoolIPPreAllocations} rIPs v s table pool records desired podController ips w :
  subnet_record s v table → pool_fits v s table pool records → good_reserved rIPs v → 0 ≤ desired →
  assign_ips rIPs s pool v desired podController = Ret (ips, w) →
  Z.of_nat (length (ranges_ips ips)) = desired ∧ NoDup (ranges_ips ips) ∧
  (∀ x, x ∈ ranges_ips ips → subnet_address s x) ∧ not_others table (Name (pool_meta pool)) ips ∧
  ∀ x a, allocated records x → x ∈ ranges_ips (ps_IPs (pool_spec pool)) →
    table !! Name (pool_meta pool) = Some a → x ∈ ranges_ips (pre_IPs a) → x ∈ ranges_ips ips.
Proof.
  intros (G & Hd & T) F R Hdes E.
  apply (assign_ips_spec rIPs v s table pool records) in E as ((_ & Hn & Hs) & Ho & Hlen & Hkeep & _); [|done..].
  rewrite Forall_forall in Hs. by split_and!.
Qed.

(** The subnet of the examples with one pool, of which one address is in use. *)
Definition ex_auto_pool (ips : list string) (used : string) : SpiderIPPool :=
  MkIPPool (set_Labels {[LabelIPPoolOwnerApplicationName := "web"%string]} (plain_meta "" "auto-web" ""))
    (MkIPPoolSpec (Some IPv4) "10.6.0.0/16" ips [] None None None None [] None [] [] None None)
    (MkIPPoolStatus (@MarshalIPPoolAllocatedIPs ex_json {[used := MkPoolIPAllocation "default/web-0" "uid-0"]}) None (Some 1)).
Definition ex_web : PodTopController := MkTopController (MkApp "apps/v1" "Deployment" "default" "web") "uid-web".
Definition ex_auto : SpiderIPPool := ex_auto_pool ["10.6.0.12-10.6.0.14"] "10.6.0.13".

Lemma ex_pre_cases k a : ex_pre !! k = Some a → k = "auto-web"%string ∧ a = MkPoolIPPreAllocation ["10.6.0.12-10.6.0.14"] None.
Proof. unfold ex_pre. by intros [<- <-]%lookup_singleton_Some. Qed.

Lemma ex_record : @subnet_record countable_json ex_s1_used IPv4 ex_pre.
Proof.
  split_and!; [|vm_compute; reflexivity|].
  - split; [reflexivity|reflexivity|..]; apply (bool_decide_unpack _); vm_compute; exact I.
  - split.
    + intros k a [-> ->]%ex_pre_cases. apply (bool_decide_unpack _). vm_compute. exact I.
    + intros k1 k2 a1 a2 x Hne [-> ->]%ex_pre_cases [-> ->]%ex_pre_cases. done.
Qed.

Lemma ex_fits : @pool_fits ex_json IPv4 ex_s1_used ex_pre ex_auto {["10.6.0.13" := MkPoolIPAllocation "default/web-0" "uid-0"]}.
Proof.
  split.
  - apply (bool_decide_unpack _). vm_compute. exact I.
  - by intros k a x Hne [-> ->]%ex_pre_cases.
  - vm_compute. reflexivity.
  - intros k [? [<- <-]%lookup_singleton_Some]. apply (bool_decide_unpack _). vm_compute. exact I.
Qed.

Definition ex_shrunk : list string * option SpiderSubnet :=
  match @assign_ips ordered_range ex_json countable_json [] ex_s1_used ex_auto IPv4 2 ex_web with Ret r => r | _ => ([], None) end.

Lemma preAllocate_keeps_used_witness :
  ex_shrunk.1 = ["10.6.0.13-10.6.0.14"] ∧
  Z.of_nat (length (ranges_ips ex_shrunk.1)) = 2 ∧ NoDup (ranges_ips ex_shrunk.1) ∧
  (∀ x, x ∈ ranges_ips ex_shrunk.1 → subnet_address ex_s1_used x) ∧ not_others ex_pre "auto-web" ex_shrunk.1 ∧
  ∀ x a, allocated {["10.6.0.13" := MkPoolIPAllocation "default/web-0" "uid-0"]} x → x ∈ ranges_ips (ps_IPs (pool_spec ex_auto)) →
    ex_pre !! "auto-web" = Some a → x ∈ ranges_ips (pre_IPs a) → x ∈ ranges_ips ex_shrunk.1.
Proof.
  split; [vm_compute; reflexivity|].
  exact (@preAllocate_keeps_used ordered_range ex_json countable_json countable_json_laws [] IPv4 ex_s1_used ex_pre ex_auto _ 2 ex_web
    ex_shrunk.1 ex_shrunk.2 ex_record ex_fits ltac:(constructor) ltac:(lia) ltac:(vm_compute; reflexivity)).
Defined.

Definition ex_stored : mem_store SpiderSubnet := MkStore {["s1" := ex_s1_used]} 1.
Definition ex_prop : AutoPoolProperty := MkAutoPoolProperty 3 IPv4 true "eth0" "3".
Definition ex_write (p : SpiderIPPool) : cmd (mem_store SpiderSubnet) SpiderIPPool := mret p.
Lemma ex_write_answer p st q st' : ex_write p st = (Ret q, st') → answered p q.
Proof. by intros [= <- <-]. Qed.
Definition ex_reconciled : outcome SpiderIPPool * mem_store SpiderSubnet :=
  @ReconcileAutoIPPool ordered_range ex_json countable_json (mem_store SpiderSubnet) _ [] id ex_write ex_write None "s1" ex_web ex_prop ex_stored.

Lemma ex_stored_lookup k s : objs ex_stored !! k = Some s → k = "s1"%string ∧ s = ex_s1_used.
Proof. cbn [ex_stored objs]. by intros [<- <-]%lookup_singleton_Some. Qed.

Lemma ReconcileAutoIPPool_keeps_witness :
  (ps_IPs ∘ pool_spec) <$> ex_reconciled.1 = Ret ["10.6.0.10-10.6.0.11"; "10.6.0.15"] ∧
  @subnets_ok countable_json _ _ mem_subnets ex_reconciled.2 ∧ ∀ p, ex_reconciled.1 = Ret p →
    Forall (good_range IPv4) (ps_IPs (pool_spec p)) ∧
    Z.of_nat (length (ranges_ips (ps_IPs (pool_spec p)))) = 3 ∧
    (None = Some p ∨ @recorded_for countable_json _ _ mem_subnets ex_reconciled.2 "s1" (Name (pool_meta p)) (ps_IPs (pool_spec p))).
Proof.
  split; [vm_compute; reflexivity|].
  refine (@ReconcileAutoIPPool_keeps ordered_range ex_json countable_json countable_json_laws _ _ mem_subnets [] id ex_write ex_write
    _ _ _ _ ex_write_answer ex_write_answer ex_stored "s1" None ex_web ex_prop ex_reconciled.1 ex_reconciled.2 _ _ _ _ _ _).
  - done.
  - done.
  - done.
  - done.
  - intros k o [-> ->]%ex_stored_lookup. split; [reflexivity|]. vm_compute. reflexivity.
  - intros k s [-> ->]%ex_stored_lookup. exists IPv4, ex_pre. apply ex_record.
  - constructor.
  - by intros s [_ ->]%ex_stored_lookup.
  - done.
  - apply surjective_pairing.
Defined.

(** A shrink of a pool that was recorded in the subnet but not yet applied to the pool, an address
    allocated in the pool meanwhile, and another pool that was given the discarded address: the
    correction takes the address back without regard to the other pool, so that it is assigned to
    both. *)
Theorem correction_takes_back :
  let table : PoolIPPreAllocations :=
    {["auto-web" := MkPoolIPPreAllocation ["10.6.0.12"] None; "auto-db" := MkPoolIPPreAllocation ["10.6.0.11"] None]} in
  let s := set_subnet_status (MkSubnetStatus (@MarshalSubnetAllocatedIPPools countable_json table) None None) ex_s1 in
  let pool := ex_auto_pool ["10.6.0.11-10.6.0.12"] "10.6.0.11" in
  (r ← @assign_ips ordered_range ex_json countable_json [] s pool IPv4 1 ex_web;
   s' ← deref r.2;
   table' ← @UnmarshalSubnetAllocatedIPPools countable_json (ControlledIPPools (subnet_status s'));
   Ret (r.1, pre_IPs <$> table' !! "auto-web", pre_IPs <$> table' !! "auto-db"))
  = Ret (["10.6.0.11"], Some ["10.6.0.11"], Some ["10.6.0.11"]).
Proof. vm_compute. reflexivity. Qed.
