(* ===== verification/SubnetSync.v ===== *)
(** * pkg/subnetmanager/subnet_informer.go: the controller of SpiderSubnet

    [syncHandler] brings a subnet up to date: its label, the ownership of its pools, the record of
    the addresses its pools have, and the removal of its finalizer.  The caches are arguments; the
    state is that of the server and the set of watched resources. *)

From S2P Require Import Prelude NetIP NetIPFacts IPAddr Cidr IPRange SubnetCIDR K8s Retry WorkQueue ReservedIP Convert IPPoolManager PoolUtils IPPoolWebhook Workload AppUtils SubnetWebhook SubnetManager.
Local Open Scope Z_scope.
Local Open Scope go_scope.

(** The calls of the client on subnets and pools; a write returns the object as it is stored. *)
Class SubnetClient (S : Type) := {
  sub_get : string → cmd S SpiderSubnet;
  sub_update : SpiderSubnet → cmd S SpiderSubnet;
  sub_update_status : SpiderSubnet → cmd S SpiderSubnet;
  sub_delete : SpiderSubnet → cmd S unit;
  sub_update_pool : SpiderIPPool → cmd S unit
}.

(** The server, and the resources of third-party controllers that are watched. *)
Record sync_state (S : Type) := MkSync { server : S; recordedResource : list GroupVersionResource }.
Arguments MkSync {S} _ _.
Arguments server {S} _.
Arguments recordedResource {S} _.

Definition on_server {S A} (m : cmd S A) : cmd (sync_state S) A := λ w,
  let '(r, s) := m (server w) in (r, MkSync s (recordedResource w)).

(** What the caches hold. *)
Record SubnetCaches := MkSubnetCaches {
  cached_pools : outcome (list SpiderIPPool);
  cached_pool : string → outcome SpiderIPPool
}.

(** ** Metadata and ownership *)

Section sync.
Context `{MR : MapRange} `{J' : JSON PoolIPPreAllocations} {S : Type} `{SC : SubnetClient S}.
Context (caches : SubnetCaches).
(** Reads of applications, and [informer.AddEventHandler]. *)
Context (get_typed : string → string → string → outcome string).
Context (get_dynamic : GroupVersionResource → string → string → outcome string).
Context (add_handler : GroupVersionResource → outcome unit).

Definition syncMetadata (subnet : SpiderSubnet) : cmd (sync_state S) SpiderSubnet :=
  version ← lift (deref (ss_IPVersion (subnet_spec subnet)));
  cidr ← lift (CIDRToLabelValue version (ss_Subnet (subnet_spec subnet)));
  if Labels (subnet_meta subnet) !! LabelSubnetCIDR != Some cidr
  then on_server (sub_update (on_subnet_meta (set_label LabelSubnetCIDR cidr) subnet))
  else mret subnet.

(** The pool with the subnet as its controller and in its label, and whether that is new. *)
Definition adopt_pool (subnet : SpiderSubnet) (pool : SpiderIPPool) : outcome (SpiderIPPool * bool) :=
  meta ← (if negb (IsControlledBy (pool_meta pool) (subnet_meta subnet))
          then m ← SetControllerReference (subnet_meta subnet) (pool_meta pool); Ret (m, true)
          else Ret (pool_meta pool, false));
  let '(m, orphan) := meta in
  if Labels m !! LabelIPPoolOwnerSpiderSubnet != Some (Name (subnet_meta subnet))
  then Ret (on_meta (λ _, set_label LabelIPPoolOwnerSpiderSubnet (Name (subnet_meta subnet)) m) pool, true)
  else Ret (on_meta (λ _, m) pool, orphan).

Fixpoint adopt_pools (subnet : SpiderSubnet) (pools : list SpiderIPPool) : cmd (sync_state S) unit :=
  match pools with
  | [] => mret ()
  | pool :: pools =>
      if ps_Subnet (pool_spec pool) != ss_Subnet (subnet_spec subnet) then adopt_pools subnet pools
      else
        adopted ← lift (adopt_pool subnet pool);
        _ ← (if adopted.2 : bool then on_server (sub_update_pool (InheritSubnetProperties subnet adopted.1)) else mret ());
        adopt_pools subnet pools
  end.

Definition syncControllerSubnet (subnet : SpiderSubnet) : cmd (sync_state S) unit :=
  ipPools ← lift (cached_pools caches);
  adopt_pools subnet ipPools.

(** ** The record of pre-allocations *)

(** The watch that is started for a resource stays while the controller runs. *)
Definition monitorThirdController (app : AppNamespacedName) : cmd (sync_state S) unit :=
  gvr ← lift (GenerateGVR app);
  recorded ← read (λ w, Ret (bool_decide (gvr ∈ recordedResource w)));
  if recorded : bool then mret ()
  else
    _ ← lift (add_handler gvr);
    modify (λ w, MkSync (server w) (gvr :: recordedResource w)).

(** The pool is not in the cache. *)
Definition pool_missing (poolName : string) : bool :=
  match cached_pool caches poolName with Fail e => e == APINotFound | _ => false end.

(** Neither the application nor the pool exists; an application of a third party is watched. *)
Definition app_gone (exist : bool) (app : AppNamespacedName) (poolName : string) : cmd (sync_state S) bool :=
  if exist then _ ← (if IsThirdController app then monitorThirdController app else mret ()); mret false
  else mret (pool_missing poolName).

(** The number of addresses of a pre-allocation that is kept. *)
Definition keep_auto (version : option Z) (poolName : string) (preAllocation : PoolIPPreAllocation)
    : cmd (sync_state S) (option nat) :=
  match Application preAllocation with
  | None => mret None
  | Some application =>
      match ParseApplicationNamespacedName application with
      | None => mret None
      | Some app =>
          exists_ ← lift (IsAppExist get_typed get_dynamic app);
          gone ← app_gone exists_.1 app poolName;
          if gone : bool then mret None
          else
            version ← lift (deref version);
            lift match ParseIPRanges version (pre_IPs preAllocation) with
                 | Ret autoIPPoolIPs => Ret (Some (length autoIPPoolIPs))
                 | Fail _ => Ret None
                 | Panic => Panic
                 | OutOfFuel => OutOfFuel
                 end
      end
  end.

Fixpoint keep_autos (version : option Z) (pres : list (string * PoolIPPreAllocation)) (table : PoolIPPreAllocations) (count : nat)
    : cmd (sync_state S) (PoolIPPreAllocations * nat) :=
  match pres with
  | [] => mret (table, count)
  | (poolName, preAllocation) :: pres =>
      kept ← keep_auto version poolName preAllocation;
      match kept with
      | Some n => keep_autos version pres (<[poolName := preAllocation]> table) (count + n)
      | None => keep_autos version pres table count
      end
  end.

(** The part of the subnet that a pool of its own has. *)
Definition manual_ips (version : Z) (subnetTotalIPs : list IP) (ipPool : SpiderIPPool) : outcome (option (list IP)) :=
  match AssembleTotalIPs version (ps_IPs (pool_spec ipPool)) (ps_ExcludeIPs (pool_spec ipPool)) with
  | Ret [] | Fail _ => Ret None
  | Ret poolTotalIPs => Ret (Some (IPsIntersectionSet subnetTotalIPs poolTotalIPs false))
  | Panic => Panic
  | OutOfFuel => OutOfFuel
  end.

Fixpoint add_manuals (version : Z) (subnetTotalIPs : list IP) (ipPools : list SpiderIPPool) (table : PoolIPPreAllocations) (count : nat)
    : outcome (PoolIPPreAllocations * nat) :=
  match ipPools with
  | [] => Ret (table, count)
  | ipPool :: ipPools =>
      if IsAutoCreatedIPPool ipPool then add_manuals version subnetTotalIPs ipPools table count
      else
        valid ← manual_ips version subnetTotalIPs ipPool;
        match valid with
        | None => add_manuals version subnetTotalIPs ipPools table count
        | Some validIPs =>
            poolVersion ← deref (ps_IPVersion (pool_spec ipPool));
            ranges ← ignore_err [] (ConvertIPsToIPRanges poolVersion validIPs);
            add_manuals version subnetTotalIPs ipPools
              (<[Name (pool_meta ipPool) := MkPoolIPPreAllocation ranges None]> table) (count + length validIPs)
        end
  end.

(** A nil map: the field is unset, or JSON null. *)
Definition is_nil_table (data : option string) : bool := (data == None) || (data == Some "null"%string).

(** The status of the subnet, and whether it has to be written.  [reflect.DeepEqual] tells a nil
    map from an empty one. *)
Definition new_status (st : SubnetStatus) (old new : PoolIPPreAllocations) (count total : nat) : SubnetStatus * bool :=
  let '(st, changed) :=
    if negb (is_nil_table (ControlledIPPools st)) && (new == old) then (st, false)
    else (MkSubnetStatus (MarshalSubnetAllocatedIPPools new) (ss_TotalIPCount st) (Some (int64 (Z.of_nat count))), true) in
  let totalIPCount := int64 (Z.of_nat total) in
  if ss_TotalIPCount st != Some totalIPCount
  then (MkSubnetStatus (ControlledIPPools st) (Some totalIPCount) (ss_AllocatedIPCount st), true)
  else (st, changed).

Definition syncControlledIPPoolIPs (subnet : SpiderSubnet) : cmd (sync_state S) SpiderSubnet :=
  let spec := subnet_spec subnet in
  preAllocations ← lift (UnmarshalSubnetAllocatedIPPools (ControlledIPPools (subnet_status subnet)));
  autos ← keep_autos (ss_IPVersion spec) (range_kv preAllocations) ∅ 0;
  ipPools ← lift (cached_pools caches);
  version ← lift (deref (ss_IPVersion spec));
  subnetTotalIPs ← lift (AssembleTotalIPs version (ss_IPs spec) (ss_ExcludeIPs spec));
  manuals ← lift (add_manuals version subnetTotalIPs
    (matching pool_meta LabelIPPoolOwnerSpiderSubnet (Name (subnet_meta subnet)) ipPools) autos.1 autos.2);
  let '(st, sync) := new_status (subnet_status subnet) preAllocations manuals.1 manuals.2 (length subnetTotalIPs) in
  if sync : bool then on_server (sub_update_status (set_subnet_status st subnet)) else mret subnet.

(** ** Deletion *)

Definition FinalizerDeleteDependents : string := "foregroundDeletion".

Definition removeFinalizer (subnet : SpiderSubnet) : cmd (sync_state S) SpiderSubnet :=
  subnet ← (if negb (ContainsFinalizer (subnet_meta subnet) FinalizerDeleteDependents)
            then _ ← on_server (sub_delete subnet); on_server (sub_get (Name (subnet_meta subnet)))
            else mret subnet);
  if negb (ContainsFinalizer (subnet_meta subnet) SpiderFinalizer) then mret subnet
  else if ControlledIPPools (subnet_status subnet) != None then mret subnet
  else on_server (sub_update (on_subnet_meta (λ m, set_Finalizers (filter (λ f, f ≠ SpiderFinalizer) (Finalizers m)) m) subnet)).

(** [cached]: the subnet of the cache. *)
Definition syncHandler (cached : outcome SpiderSubnet) : cmd (sync_state S) unit :=
  match cached with
  | Fail e => lift (if e == APINotFound then Ret () else Fail e)
  | Panic => lift Panic
  | OutOfFuel => lift OutOfFuel
  | Ret subnet =>
      subnetCopy ← syncMetadata subnet;
      _ ← syncControllerSubnet subnetCopy;
      subnetCopy ← syncControlledIPPoolIPs subnetCopy;
      if DeletionTimestamp (subnet_meta subnet) != None then _ ← removeFinalizer subnetCopy; mret () else mret ()
  end.
End sync.

(** ** The queues *)

Section queues.
Context (MaxWorkqueueLength : Z).

Definition enqueueSubnetOnAdd (subnet : SpiderSubnet) : workqueue string → workqueue string :=
  enqueue MaxWorkqueueLength (Name (subnet_meta subnet)).
Definition enqueueSubnetOnUpdate (newSubnet : SpiderSubnet) : workqueue string → workqueue string :=
  enqueue MaxWorkqueueLength (Name (subnet_meta newSubnet)).
Definition enqueueSubnetOnIPPoolChange (ipPool : SpiderIPPool) (q : workqueue string) : workqueue string :=
  match Labels (pool_meta ipPool) !! LabelIPPoolOwnerSpiderSubnet with
  | Some ownerSubnet => enqueue MaxWorkqueueLength ownerSubnet q
  | None => q
  end.
(** The handler of pool updates.  Lists that are absent and lists that are empty, which
    [reflect.DeepEqual] tells apart, are the same here. *)
Definition on_pool_update (oldIPPool newIPPool : SpiderIPPool) (q : workqueue string) : workqueue string :=
  if (ps_IPs (pool_spec newIPPool) == ps_IPs (pool_spec oldIPPool))
     && (ps_ExcludeIPs (pool_spec newIPPool) == ps_ExcludeIPs (pool_spec oldIPPool)) then q
  else enqueueSubnetOnIPPoolChange newIPPool q.

(** [sync]: [syncHandler] on the subnet of that name in the cache. *)
Definition processNextWorkItem {W} (sync : string → cmd W unit) (env : workqueue string → workqueue string) (now bucket : Z)
    : W * workqueue string → option (outcome bool * (W * workqueue string)) :=
  work env (λ name w, let '(r, w) := sync name w in (settle_always now bucket name r, w)).

(** An object of a third-party controller that was deleted. *)
Record thirdControllerKey := MkThirdKey { tk_MetaNamespaceKey : string; tk_AppUID : string }.
#[export] Instance thirdControllerKey_eq_dec : EqDecision thirdControllerKey.
Proof. solve_decision. Defined.
#[export] Instance thirdControllerKey_countable : Countable thirdControllerKey.
Proof. by refine (inj_countable' (λ k, (tk_MetaNamespaceKey k, tk_AppUID k)) (λ p, MkThirdKey p.1 p.2) _); intros []. Defined.

Definition on_third_delete (obj : ObjectMeta) : workqueue thirdControllerKey → workqueue thirdControllerKey :=
  Add (MkThirdKey (MetaNamespaceKey obj) (UID obj)).

(** The pools with these labels are deleted. *)
Definition reclaim_labels (uid : string) : gmap string string :=
  <[LabelIPPoolOwnerApplicationUID := uid]> {[LabelIPPoolReclaimIPPool := "true"%string]}.

Definition processDynamicNextWorkItem {W} (DeleteAllOf : gmap string string → cmd W unit)
    (env : workqueue thirdControllerKey → workqueue thirdControllerKey) (now bucket : Z)
    : W * workqueue thirdControllerKey → option (outcome bool * (W * workqueue thirdControllerKey)) :=
  work env (λ key w,
    let '(r, w) := DeleteAllOf (reclaim_labels (tk_AppUID key)) w in
    (match r with
     | Fail e => if not_found e then modify (Forget key) else modify (AddRateLimited now bucket key)
     | Ret _ => modify (Forget key)
     | Panic => lift Panic
     | OutOfFuel => lift OutOfFuel
     end, w)).
End queues.

(** ** What the record becomes *)

Section record.
Context `{MR : MapRange} {S : Type}.
Context (caches : SubnetCaches).
Context (get_typed : string → string → string → outcome string).
Context (get_dynamic : GroupVersionResource → string → string → outcome string).
Context (add_handler : GroupVersionResource → outcome unit).
Notation keep_auto := (keep_auto caches get_typed get_dynamic add_handler).
Notation keep_autos := (keep_autos caches get_typed get_dynamic add_handler).

(** The application recorded with a pre-allocation. *)
Definition app_of (a : PoolIPPreAllocation) : option AppNamespacedName := Application a ≫= ParseApplicationNamespacedName.

(** The pre-allocation of an auto-created pool is kept while its application or the pool is there. *)
Definition auto_decision (version : option Z) (k : string) (a : PoolIPPreAllocation) : outcome (option nat) :=
  match app_of a with
  | None => Ret None
  | Some app =>
      e ← IsAppExist get_typed get_dynamic app;
      if negb e.1 && pool_missing caches k then Ret None
      else
        version ← deref version;
        match ParseIPRanges version (pre_IPs a) with
        | Ret ips => Ret (Some (length ips)) | Fail _ => Ret None | Panic => Panic | OutOfFuel => OutOfFuel
        end
  end.
Definition kept (version : option Z) (k : string) (a : PoolIPPreAllocation) : bool :=
  match auto_decision version k a with Ret (Some _) => true | _ => false end.

(** The resource of the application is watched if it is of a third party. *)
Definition watched (a : PoolIPPreAllocation) (w : sync_state S) : Prop :=
  ∀ app uid, app_of a = Some app → IsAppExist get_typed get_dynamic app = Ret (true, uid) → IsThirdController app = true →
    ∃ gvr, GenerateGVR app = Ret gvr ∧ gvr ∈ recordedResource w.

(** The server is left alone, and resources stay watched. *)
Definition watches_more (w w' : sync_state S) : Prop :=
  server w' = server w ∧ recordedResource w ⊆ recordedResource w'.
#[export] Instance watches_more_preorder : PreOrder watches_more.
Proof. split; [done|]. intros w1 w2 w3 [E1 H1] [E2 H2]. split; [congruence|]. by etrans. Qed.

Lemma monitor_Ret app w w' : monitorThirdController add_handler app w = (Ret (), w') →
  watches_more w w' ∧ ∃ gvr, GenerateGVR app = Ret gvr ∧ gvr ∈ recordedResource w'.
Proof.
  unfold monitorThirdController. intros (gvr & w1 & [Hg ->]%lift_Ret & H)%cmd_bind_Ret.
  apply cmd_bind_Ret in H as (b & w1 & [[= <-] ->]%read_Ret & H). case_bool_decide as Hin.
  - injection H as <-. split; [done|eauto].
  - apply cmd_bind_Ret in H as ([] & w1 & [_ ->]%lift_Ret & H). injection H as <-. split.
    + split; [done|]. cbn. set_solver.
    + exists gvr. split; [done|]. cbn. set_solver.
Qed.

Lemma app_gone_Ret e app k gone (w w' : sync_state S) : app_gone caches add_handler e app k w = (Ret gone, w') →
  watches_more w w' ∧ gone = negb e && pool_missing caches k ∧
  (e = true → IsThirdController app = true → ∃ gvr, GenerateGVR app = Ret gvr ∧ gvr ∈ recordedResource w').
Proof.
  unfold app_gone. destruct e; cbn [negb andb]; [|by intros [= <- <-]].
  intros ([] & w2 & Hm & [= <- <-])%cmd_bind_Ret. destruct (IsThirdController app); [|by injection Hm as <-].
  apply monitor_Ret in Hm as [? ?]. auto.
Qed.

Lemma app_gone_again (e : bool) app k (w : sync_state S) :
  (e = true → IsThirdController app = true → ∃ gvr, GenerateGVR app = Ret gvr ∧ gvr ∈ recordedResource w) →
  app_gone caches add_handler e app k w = (Ret (negb e && pool_missing caches k), w).
Proof.
  intros Hw. unfold app_gone. destruct e; [|done]. unfold mbind, cmd_bind.
  destruct (IsThirdController app); [|done]. destruct Hw as (gvr & Eg & Hin); [done..|].
  unfold monitorThirdController, mbind, cmd_bind, lift, read. by rewrite Eg, bool_decide_true.
Qed.

Lemma keep_auto_Ret version k a r w w' : keep_auto version k a w = (Ret r, w') →
  watches_more w w' ∧ auto_decision version k a = Ret r ∧ watched a w'.
Proof.
  unfold keep_auto, auto_decision, watched, app_of. destruct (Application a) as [text|]; cbn.
  2:{ by intros [= <- <-]. }
  destruct (ParseApplicationNamespacedName text) as [app|]; [|by intros [= <- <-]].
  intros ([e uid] & w1 & [He ->]%lift_Ret & H)%cmd_bind_Ret. rewrite He. cbn [mbind outcome_bind fst] in *.
  apply cmd_bind_Ret in H as (gone & w1 & (Hw & -> & Hwat)%app_gone_Ret & H).
  assert (watched_now : ∀ w, w = w1 → ∀ app' uid', Some app = Some app' → IsAppExist get_typed get_dynamic app' = Ret (true, uid') →
    IsThirdController app' = true → ∃ gvr, GenerateGVR app' = Ret gvr ∧ gvr ∈ recordedResource w).
  { intros ? -> app' uid' [= <-] Hex. rewrite He in Hex. injection Hex as -> _. auto. }
  destruct (negb e && _); [by injection H as <- <-; eauto|].
  apply cmd_bind_Ret in H as (v & w2 & [-> ->]%lift_Ret & [H ->]%lift_Ret). eauto.
Qed.

(** Once everything is watched, the decision is all there is. *)
Lemma keep_auto_again version k a r w : auto_decision version k a = Ret r → watched a w → keep_auto version k a w = (Ret r, w).
Proof.
  unfold keep_auto, auto_decision, watched, app_of. destruct (Application a) as [text|]; cbn.
  2:{ by intros [= <-]. }
  destruct (ParseApplicationNamespacedName text) as [app|]; [|by intros [= <-]].
  intros ([e uid] & He & H)%bind_Ret Hw. cbn [fst] in H.
  apply cmd_bind_Ret. exists (e, uid), w. split; [by apply lift_Ret|].
  apply cmd_bind_Ret. exists (negb e && pool_missing caches k), w. split.
  { apply app_gone_again. intros -> Ht. by apply (Hw app uid). }
  destruct (negb e && _); [by injection H as <-|]. apply bind_Ret in H as (v & -> & H).
  apply cmd_bind_Ret. exists v, w. split; [done|]. by apply lift_Ret.
Qed.

Lemma watched_mono a w w' : watches_more w w' → watched a w → watched a w'.
Proof. intros [_ Hs] Hw app uid H1 H2 H3. destruct (Hw app uid H1 H2 H3) as (gvr & ? & ?). eauto. Qed.

(** The record of the auto-created pools that are kept. *)
Abbreviation autos version old := (filter (λ kv, kept version kv.1 kv.2 = true) (old : PoolIPPreAllocations)).

Lemma keep_autos_Ret version pres table n table' n' w w' :
  NoDup pres.*1 → keep_autos version pres table n w = (Ret (table', n'), w') →
  watches_more w w' ∧ (∀ k a, (k, a) ∈ pres → (∃ r, auto_decision version k a = Ret r) ∧ watched a w') ∧
  ∀ k a, table' !! k = Some a ↔ ((k, a) ∈ pres ∧ kept version k a = true) ∨
    (table !! k = Some a ∧ ∀ b, (k, b) ∈ pres → kept version k b = false).
Proof.
  revert table n w. induction pres as [|[k0 a0] pres IH]; intros table n w Hn; cbn [keep_autos].
  { intros [= <- <- <-]. split_and!; [done|by intros k a ?%elem_of_nil|].
    intros k a. split; [|by intros [[?%elem_of_nil _]|[? _]]]. intros ?. right. split; [done|]. by intros b ?%elem_of_nil. }
  cbn in Hn. apply NoDup_cons in Hn as [Hk0 Hn].
  intros (r & w1 & (Hw1 & Hdec & Hwat)%keep_auto_Ret & H)%cmd_bind_Ret.
  assert (∀ b, (k0, b) ∉ pres) as Hfresh by (intros b Hb; apply Hk0, list_elem_of_fmap; by exists (k0, b)).
  set (table1 := if kept version k0 a0 then <[k0 := a0]> table else table).
  assert (∃ n1, keep_autos version pres table1 n1 w1 = (Ret (table', n'), w')) as [n1 H1].
  { unfold table1, kept. rewrite Hdec. destruct r; eauto. }
  apply IH in H1 as (Hw & Hall & Hlook); [|done]. split_and!; [by etrans| |].
  - intros k a [[= -> ->]|Hin]%elem_of_cons; [|by apply Hall]. split; [eauto|]. by apply (watched_mono _ w1).
  - intros k a. rewrite Hlook. unfold table1. setoid_rewrite elem_of_cons. destruct (decide (k = k0)) as [->|Hne].
    + assert (∀ b, (k0, b) ∈ pres ↔ False) as Hno by (intros b; split; [apply Hfresh|done]). setoid_rewrite Hno.
      destruct (kept version k0 a0) eqn:Ek; rewrite ?lookup_insert_eq; split.
      * intros [[[] _]|[[= <-] _]]. auto.
      * intros [[[[= ->]|[]] _]|[_ Hb]]; [right; split; [done|by intros b []]|]. specialize (Hb a0 (or_introl eq_refl)). congruence.
      * intros [[[] _]|[Ht _]]. right. split; [done|]. by intros b [[= ->]|[]].
      * intros [[[[= ->]|[]] Hk]|[Ht _]]; [congruence|]. right. split; [done|by intros b []].
    + assert ((if kept version k0 a0 then <[k0 := a0]> table else table) !! k = table !! k) as ->
        by (destruct (kept version k0 a0); [by rewrite lookup_insert_ne|done]).
      assert (∀ b, (k, b) = (k0, a0) ∨ (k, b) ∈ pres ↔ (k, b) ∈ pres) as Hno by (intros b; split; [by intros [[= -> ->]|]|auto]).
      by setoid_rewrite Hno.
Qed.

Lemma NoDup_range_kv (m : PoolIPPreAllocations) : NoDup (range_kv m).*1.
Proof.
  assert ((range_kv m).*1 = range_keys m) as ->; [|apply NoDup_range_keys].
  unfold range_kv. assert (∀ l, (∀ k, k ∈ l → is_Some (m !! k)) → (omap (λ k, (λ v, (k, v)) <$> m !! k) l).*1 = l) as H.
  { induction l as [|k l IH]; intros Hl; [done|]. destruct (Hl k) as [v Hv]; [set_solver|]. cbn. rewrite Hv. cbn.
    f_equal. apply IH. set_solver. }
  apply H. intros k. by rewrite elem_of_range_keys.
Qed.

(** The loop over the record computes the filtered record, whatever the order. *)
Lemma keep_autos_filter version old table' n' w w' :
  keep_autos version (range_kv old) ∅ 0 w = (Ret (table', n'), w') →
  watches_more w w' ∧ table' = autos version old ∧
  ∀ k a, old !! k = Some a → (∃ r, auto_decision version k a = Ret r) ∧ watched a w'.
Proof.
  intros (Hw & Hall & Hlook)%keep_autos_Ret; [|apply NoDup_range_kv]. split_and!; [done| |].
  - apply map_eq. intros k. apply option_eq. intros a. rewrite Hlook, elem_of_range_kv, map_lookup_filter_Some, lookup_empty.
    cbn. split; [by intros [?|[? _]]|by left].
  - intros k a Ha. by apply Hall, elem_of_range_kv.
Qed.

Lemma keep_autos_again version pres table n w :
  (∀ k a, (k, a) ∈ pres → (∃ r, auto_decision version k a = Ret r) ∧ watched a w) →
  ∃ table' n', keep_autos version pres table n w = (Ret (table', n'), w).
Proof.
  revert table n. induction pres as [|[k a] pres IH]; intros table n Hall; cbn [keep_autos]; [by eexists _, _|].
  destruct (Hall k a) as [[r Hr] Hw]; [set_solver|]. unfold mbind, cmd_bind. rewrite (keep_auto_again _ _ _ _ _ Hr Hw).
  destruct r; apply IH; set_solver.
Qed.

Lemma manual_decision version k a : Application a = None → auto_decision version k a = Ret None.
Proof. unfold auto_decision, app_of. by intros ->. Qed.
Lemma manual_not_kept version k a : Application a = None → kept version k a = false.
Proof. intros Ha. unfold kept. by rewrite manual_decision. Qed.

End record.

(** ** The pools of the subnet's own *)

Section manuals.
Context `{MR : MapRange}.

(** They are added on top of what is there. *)
Lemma add_manuals_union v total pools table n :
  add_manuals v total pools table n = (λ mc, (mc.1 ∪ table, (n + mc.2)%nat)) <$> add_manuals v total pools ∅ 0.
Proof.
  revert table n. induction pools as [|p pools IH]; intros table n; cbn [add_manuals].
  { cbn. by rewrite map_empty_union, Nat.add_0_r. }
  destruct (IsAutoCreatedIPPool p); [apply IH|]. destruct (manual_ips v total p) as [[l|]| | |]; cbn; [|apply IH|done..].
  destruct (deref _) as [pv| | |]; cbn; [|done..]. destruct (ignore_err _ _) as [rs| | |]; cbn; [|done..].
  rewrite IH, (IH (<[_ := _]> ∅)). destruct (add_manuals v total pools ∅ 0) as [[m c]| | |]; cbn; [|done..].
  f_equal. f_equal; [|lia]. by rewrite <- map_union_assoc, insert_empty, <- insert_union_singleton_l.
Qed.

Lemma add_manuals_app v total pools m c :
  add_manuals v total pools ∅ 0 = Ret (m, c) → ∀ k a, m !! k = Some a → Application a = None.
Proof.
  revert m c. induction pools as [|p pools IH]; cbn [add_manuals]; intros m c.
  { intros [= <- <-] k a. by rewrite lookup_empty. }
  destruct (IsAutoCreatedIPPool p); [apply IH|]. intros ([l|] & _ & Em)%bind_Ret; [|by eapply IH].
  apply bind_Ret in Em as (pv & _ & (rs & _ & Em)%bind_Ret). rewrite add_manuals_union in Em.
  destruct (add_manuals v total pools ∅ 0) as [[m1 c1]| | |] eqn:E1; cbn in Em; [|done..]. injection Em as <- <-.
  intros k a [Ha|[_ Ha]]%lookup_union_Some_raw; [by eapply IH|].
  rewrite insert_empty in Ha. by apply lookup_singleton_Some in Ha as [_ <-].
Qed.

(** A pool of the subnet's own. *)
Definition manual_good (v : Z) (p : SpiderIPPool) : Prop :=
  ps_IPVersion (pool_spec p) = Some v ∧ Forall (good_range v) (ps_IPs (pool_spec p)) ∧
  Forall (good_range v) (ps_ExcludeIPs (pool_spec p)).

(** The entry of a pool: its addresses that are addresses of the subnet. *)
Definition manual_entry (s : SpiderSubnet) (p : SpiderIPPool) (a : PoolIPPreAllocation) : Prop :=
  Application a = None ∧ NoDup (ranges_ips (pre_IPs a)) ∧
  ∀ x, x ∈ ranges_ips (pre_IPs a) ↔ subnet_address s x ∧ pool_address p x.

Lemma manual_ips_spec v s total p :
  subnet_good v s → AssembleTotalIPs v (ss_IPs (subnet_spec s)) (ss_ExcludeIPs (subnet_spec s)) = Ret total → manual_good v p →
  (manual_ips v total p = Ret None ∧ ∀ x, ¬ pool_address p x) ∨
  ∃ l rs, manual_ips v total p = Ret (Some l) ∧ ConvertIPsToIPRanges v l = Ret rs ∧
    manual_entry s p (MkPoolIPPreAllocation rs None).
Proof.
  intros G Ht (_ & Hg & He). unfold manual_ips. rewrite AssembleTotalIPs_spec in Ht by apply G. apply Ret_inj in Ht as <-.
  rewrite AssembleTotalIPs_spec by done. set (pl := filter _ (ranges_ips (ps_IPs _))).
  assert (∀ x, x ∈ pl ↔ pool_address p x) as Hpl.
  { intros x. unfold pl, pool_address. rewrite list_elem_of_filter. tauto. }
  set (tot := filter _ (ranges_ips (ss_IPs _))). destruct pl as [|y pl'] eqn:E.
  { left. split; [done|]. intros x Hx%Hpl. by apply elem_of_nil in Hx. }
  right. rewrite <- E in *. clear E y pl'.
  assert (Forall ip16 tot ∧ Forall ip16 pl) as [T16 P16] by (split; unfold tot, pl; auto with addr).
  destruct (IPsIntersectionSet_spec tot pl false) as (Nr & _ & Hin); [by apply ip16_or_nil..|].
  set (l := IPsIntersectionSet tot pl false) in *.
  assert (∀ x, x ∈ l ↔ subnet_address s x ∧ pool_address p x) as Hl.
  { intros x. rewrite Hin. rewrite Forall_forall in T16, P16. rewrite <- Hpl.
    assert (∀ y, y ∈ tot ↔ subnet_address s y) as Htot by (intros y; unfold tot, subnet_address; rewrite list_elem_of_filter; tauto).
    rewrite <- Htot. split.
    - intros [(a & Ha & _ & ->) (b & Hb & _ & E)]. rewrite To16_ip16 in * by auto. rewrite To16_ip16 in E by auto. by subst.
    - intros [Ha Hb]. split; [exists x|exists x]; rewrite To16_ip16 by auto; auto with addr. }
  destruct (convert_addresses v s l G Nr) as (rs & Ec & (_ & Nrs & _) & Hp).
  { apply Forall_forall. intros x Hx. by apply Hl. }
  exists l, rs. split_and!; [done..|]. split_and!; [done..|]. intros x. cbn [pre_IPs]. by rewrite Hp, Hl.
Qed.

Lemma add_manuals_spec v s total pools :
  subnet_good v s → AssembleTotalIPs v (ss_IPs (subnet_spec s)) (ss_ExcludeIPs (subnet_spec s)) = Ret total →
  (∀ p, p ∈ pools → IsAutoCreatedIPPool p = false → manual_good v p) →
  ∃ m c, add_manuals v total pools ∅ 0 = Ret (m, c) ∧
    (∀ k a, m !! k = Some a → ∃ p, p ∈ pools ∧ IsAutoCreatedIPPool p = false ∧ Name (pool_meta p) = k ∧ manual_entry s p a) ∧
    ∀ p x, p ∈ pools → IsAutoCreatedIPPool p = false → pool_address p x → is_Some (m !! Name (pool_meta p)).
Proof.
  intros G Ht. induction pools as [|p pools IH]; intros Hall; cbn [add_manuals].
  { exists ∅, 0%nat. split_and!; [done|intros k a; by rewrite lookup_empty|by intros p x ?%elem_of_nil]. }
  destruct IH as (m & c & E & Hm & Hp); [intros; apply Hall; set_solver|].
  destruct (IsAutoCreatedIPPool p) eqn:Ea.
  { exists m, c. split_and!; [done| |].
    - intros k a Ha. destruct (Hm k a Ha) as (q & ? & ?). exists q. set_solver.
    - intros q x [->|Hq]%elem_of_cons; [congruence|by apply Hp]. }
  assert (manual_good v p) as Hgood by (apply Hall; [set_solver|done]).
  destruct (manual_ips_spec v s total p G Ht Hgood) as [[-> Hno]|(l & rs & -> & Ec & Hent)]; cbn.
  { exists m, c. split_and!; [done| |].
    - intros k a Ha. destruct (Hm k a Ha) as (q & ? & ?). exists q. set_solver.
    - intros q x [->|Hq]%elem_of_cons; [intros _ Hx; by destruct (Hno x)|by apply Hp]. }
  destruct Hgood as (Ev & _). rewrite Ev. cbn. rewrite Ec. cbn. rewrite add_manuals_union, E. cbn.
  exists (m ∪ <[Name (pool_meta p) := MkPoolIPPreAllocation rs None]> ∅), (length l + c)%nat. split_and!; [done| |].
  - intros k a [Ha|[_ Ha]]%lookup_union_Some_raw.
    + destruct (Hm k a Ha) as (q & ? & ?). exists q. set_solver.
    + rewrite insert_empty in Ha. apply lookup_singleton_Some in Ha as [<- <-]. exists p. set_solver.
  - intros q x [->|Hq]%elem_of_cons Hauto Hx.
    + apply lookup_union_is_Some. right. rewrite lookup_insert_eq. eauto.
    + apply lookup_union_is_Some. left. eauto.
Qed.
End manuals.

(** What is relied on in the client: a status update that succeeds returns the subnet with the
    status that was sent. *)
Class SubnetClientLaws (S : Type) `{SubnetClient S} := {
  update_status_stored : ∀ s st s' st', sub_update_status s st = (Ret s', st') →
    subnet_status s' = subnet_status s ∧ subnet_spec s' = subnet_spec s ∧ Name (subnet_meta s') = Name (subnet_meta s)
}.

Section sync_facts.
Context `{MR : MapRange} `{J' : JSON PoolIPPreAllocations} `{JL' : !JSONLaws PoolIPPreAllocations}.
Context {S : Type} `{SC : SubnetClient S} `{SCL : !SubnetClientLaws S}.
(** The JSON text of a map is an object, not null. *)
Context (not_null : ∀ t : PoolIPPreAllocations, json_marshal t ≠ "null"%string).
Context (caches : SubnetCaches).
Context (get_typed : string → string → string → outcome string).
Context (get_dynamic : GroupVersionResource → string → string → outcome string).
Context (add_handler : GroupVersionResource → outcome unit).
Notation kept := (kept caches get_typed get_dynamic).
Notation decode s := (UnmarshalSubnetAllocatedIPPools (ControlledIPPools (subnet_status s))).
Notation sync := (syncControlledIPPoolIPs caches get_typed get_dynamic add_handler).

Lemma new_status_table st old new c t :
  UnmarshalSubnetAllocatedIPPools (ControlledIPPools st) = Ret old →
  UnmarshalSubnetAllocatedIPPools (ControlledIPPools (new_status st old new c t).1) = Ret new.
Proof.
  intros Hd. unfold new_status. destruct (negb (is_nil_table _) && (new == old)) eqn:E.
  - apply andb_true_iff in E as [_ ->%bool_decide_eq_true]. by case_match.
  - case_match; apply UnmarshalSubnet_Marshal.
Qed.

(** Once written, the status is not written again for the same record. *)
Lemma new_status_stable st old new c t c' :
  new ≠ ∅ → new_status (new_status st old new c t).1 new new c' t = ((new_status st old new c t).1, false).
Proof.
  intros Hne. set (st' := (new_status st old new c t).1).
  assert (is_nil_table (ControlledIPPools st') = false ∧ ss_TotalIPCount st' = Some (int64 (Z.of_nat t))) as [H1 H2].
  { unfold st', new_status. destruct (negb (is_nil_table (ControlledIPPools st)) && (new == old)) eqn:E.
    - apply andb_true_iff in E as [E1%negb_true_iff _]. case_bool_decide as Et; cbn; auto.
    - assert (is_nil_table (MarshalSubnetAllocatedIPPools new) = false) as Hn; [|clear E; cbn; case_bool_decide; cbn; by split].
      unfold MarshalSubnetAllocatedIPPools. destruct (Nat.eqb_spec (size new) 0) as [E0%map_size_empty_inv|_]; [done|].
      unfold is_nil_table. rewrite bool_decide_false by done. rewrite bool_decide_false; [done|].
      intros [= En]. by apply (not_null new). }
  unfold new_status at 1. rewrite H1, bool_decide_true by done. cbn [negb andb]. by rewrite H2, bool_decide_true by done.
Qed.

(** The pieces of a successful run. *)
Lemma sync_Ret s w s' w' : sync s w = (Ret s', w') →
  ∃ old w1 pools v total m c n, decode s = Ret old ∧ watches_more w w1 ∧
    (∀ k a, old !! k = Some a → (∃ r, auto_decision caches get_typed get_dynamic (ss_IPVersion (subnet_spec s)) k a = Ret r) ∧
       watched get_typed get_dynamic a w1) ∧
    cached_pools caches = Ret pools ∧ ss_IPVersion (subnet_spec s) = Some v ∧
    AssembleTotalIPs v (ss_IPs (subnet_spec s)) (ss_ExcludeIPs (subnet_spec s)) = Ret total ∧
    add_manuals v total (matching pool_meta LabelIPPoolOwnerSpiderSubnet (Name (subnet_meta s)) pools) ∅ 0 = Ret (m, c) ∧
    let new := m ∪ filter (λ kv, kept (ss_IPVersion (subnet_spec s)) kv.1 kv.2 = true) old in
    let st := new_status (subnet_status s) old new (n + c) (length total) in
    recordedResource w' = recordedResource w1 ∧
    subnet_status s' = st.1 ∧ subnet_spec s' = subnet_spec s ∧ Name (subnet_meta s') = Name (subnet_meta s) ∧
    (st.2 = false → s' = s ∧ server w' = server w).
Proof.
  unfold syncControlledIPPoolIPs. intros (old & w0 & [Hd ->]%lift_Ret & H)%cmd_bind_Ret.
  apply cmd_bind_Ret in H as ([t1 n] & w1 & (Hw & -> & Hall)%keep_autos_filter & H).
  apply cmd_bind_Ret in H as (pools & w0 & [Hp ->]%lift_Ret & H).
  apply cmd_bind_Ret in H as (v & w0 & [Hv%deref_Ret ->]%lift_Ret & H).
  apply cmd_bind_Ret in H as (total & w0 & [Ht ->]%lift_Ret & H).
  apply cmd_bind_Ret in H as ([m' c'] & w0 & [Hm ->]%lift_Ret & H). rewrite add_manuals_union in Hm.
  destruct (add_manuals v total _ ∅ 0) as [[m c]| | |] eqn:Em; cbn in Hm; [|done..]. injection Hm as <- <-.
  exists old, w1, pools, v, total, m, c, n. cbn [fst snd] in *.
  do 7 (split; [done|]). set (st := new_status _ _ _ _ _) in *.
  destruct st as [st' b] eqn:Est. destruct b.
  - unfold on_server in H. destruct (sub_update_status _ _) as [r sv] eqn:Eu. injection H as -> <-.
    destruct (update_status_stored _ _ _ _ Eu) as (E1 & E2 & E3). by split_and!.
  - injection H as <- <-. cbn. destruct Hw as [Hs _].
    assert (st' = subnet_status s) as ->; [|by split_and!].
    clear -Est. unfold st, new_status in Est. by repeat case_match; simplify_eq.
Qed.

(** The record of a subnet after a sync: the pre-allocations of auto-created pools whose
    application or pool still exists are kept as they are, each of the other pools of the subnet
    has the addresses it shares with the subnet, and there is nothing else. *)
Theorem sync_record v s old pools w s' w' :
  subnet_good v s → decode s = Ret old → cached_pools caches = Ret pools →
  (∀ p, p ∈ matching pool_meta LabelIPPoolOwnerSpiderSubnet (Name (subnet_meta s)) pools → IsAutoCreatedIPPool p = false → manual_good v p) →
  syncControlledIPPoolIPs caches get_typed get_dynamic add_handler s w = (Ret s', w') →
  let own p := p ∈ matching pool_meta LabelIPPoolOwnerSpiderSubnet (Name (subnet_meta s)) pools ∧ IsAutoCreatedIPPool p = false in
  ∃ new, decode s' = Ret new ∧
    (∀ k a, new !! k = Some a →
      (old !! k = Some a ∧ kept (Some v) k a = true) ∨ ∃ p, own p ∧ Name (pool_meta p) = k ∧ manual_entry s p a) ∧
    (∀ p x, own p → pool_address p x → ∃ q a, own q ∧ Name (pool_meta q) = Name (pool_meta p) ∧
      new !! Name (pool_meta p) = Some a ∧ manual_entry s q a) ∧
    ∀ k a, old !! k = Some a → kept (Some v) k a = true → (∀ p, own p → Name (pool_meta p) ≠ k) → new !! k = Some a.
Proof.
  intros G Hd Hp Hgood (old' & w1 & pools' & v' & total & m & c & n & Hd' & _ & _ & Hp' & Hv & Ht & Em & _ & Est & Esp & _)%sync_Ret own.
  rewrite Hd in Hd'. apply Ret_inj in Hd' as <-. rewrite Hp in Hp'. apply Ret_inj in Hp' as <-.
  rewrite (sg_version _ _ G) in Hv, Est. injection Hv as <-.
  destruct (add_manuals_spec v s total _ G Ht Hgood) as (m' & c' & Em' & Hm & Hall). rewrite Em in Em'. injection Em' as <- <-.
  set (new := m ∪ _) in Est. exists new. rewrite Est. split_and!.
  - by apply new_status_table.
  - intros k a [Ha|[_ [Ha Hk]%map_lookup_filter_Some]]%lookup_union_Some_raw; [right|by left].
    destruct (Hm k a Ha) as (p & ? & ? & ? & ?). exists p. by split_and!.
  - intros p x [Hin Hauto] Hx. destruct (Hall p x Hin Hauto Hx) as [a Ha]. destruct (Hm _ _ Ha) as (q & ? & ? & ? & ?).
    exists q, a. split_and!; try done. unfold new. by apply lookup_union_Some_l.
  - intros k a Ha Hk Hno. unfold new. apply lookup_union_Some_raw. right. split.
    + destruct (m !! k) as [b|] eqn:Eb; [|done]. destruct (Hm k b Eb) as (p & ? & ? & E & _). by destruct (Hno p).
    + by apply map_lookup_filter_Some.
Qed.

(** The sync of a subnet with pools comes to rest: run again on the subnet it has written,
    with the same caches, it succeeds and writes nothing. *)
Theorem sync_stable s w s' w' table :
  syncControlledIPPoolIPs caches get_typed get_dynamic add_handler s w = (Ret s', w') →
  UnmarshalSubnetAllocatedIPPools (ControlledIPPools (subnet_status s')) = Ret table → table ≠ ∅ →
  syncControlledIPPoolIPs caches get_typed get_dynamic add_handler s' w' = (Ret s', w').
Proof.
  intros (old & w1 & pools & v & total & m & c & n & Hd & _ & Hwat & Hp & Hv & Ht & Em & Hrr & Est & Esp & Enm & _)%sync_Ret Hd' Hne.
  set (new := m ∪ _) in Est. rewrite Est, (new_status_table _ old new) in Hd' by done. apply Ret_inj in Hd' as <-.
  pose proof (add_manuals_app _ _ _ _ _ Em) as Happ.
  assert (filter (λ kv, kept (ss_IPVersion (subnet_spec s)) kv.1 kv.2 = true) new =
    filter (λ kv, m !! kv.1 = None ∧ kept (ss_IPVersion (subnet_spec s)) kv.1 kv.2 = true) old) as Hf.
  { apply map_eq. intros k. apply option_eq. intros a. rewrite !map_lookup_filter_Some. unfold new. rewrite lookup_union_Some_raw.
    rewrite map_lookup_filter_Some. cbn. split; [|naive_solver]. intros [[Ha|(? & ? & ?)] Hk]; [|done].
    exfalso. revert Hk. by rewrite (manual_not_kept _ _ _ _ _ _ (Happ k a Ha)). }
  assert (m ∪ filter (λ kv, kept (ss_IPVersion (subnet_spec s)) kv.1 kv.2 = true) new = new) as Hnew.
  { rewrite Hf. apply map_eq. intros k. apply option_eq. intros a. unfold new.
    rewrite !lookup_union_Some_raw, !map_lookup_filter_Some. naive_solver. }
  assert (∀ k a, (k, a) ∈ range_kv new → (∃ r, auto_decision caches get_typed get_dynamic (ss_IPVersion (subnet_spec s')) k a = Ret r) ∧
    watched get_typed get_dynamic a w') as Hagain.
  { intros k a Ha%elem_of_range_kv. rewrite Esp. apply lookup_union_Some_raw in Ha as [Ha|[_ [Ha _]%map_lookup_filter_Some]].
    - split; [exists None; by apply manual_decision, (Happ k)|]. intros app uid Happ'. by unfold app_of in Happ'; rewrite (Happ k a Ha) in Happ'.
    - destruct (Hwat k a Ha) as [? Hw]. split; [done|]. intros app uid H1 H2 H3. rewrite Hrr. eauto. }
  destruct (keep_autos_again _ _ _ add_handler (ss_IPVersion (subnet_spec s')) (range_kv new) ∅ 0 w' Hagain) as (t2 & n2 & E2).
  pose proof E2 as (_ & -> & _)%keep_autos_filter. rewrite Esp in E2.
  unfold syncControlledIPPoolIPs. apply cmd_bind_Ret. exists new, w'.
  rewrite lift_Ret, Est. split; [by split; [apply new_status_table|]|].
  apply cmd_bind_Ret. eexists _, w'. rewrite Esp. split; [exact E2|].
  apply cmd_bind_Ret. exists pools, w'. rewrite lift_Ret. split; [done|].
  apply cmd_bind_Ret. exists v, w'. rewrite lift_Ret, Hv. split; [done|].
  apply cmd_bind_Ret. exists total, w'. rewrite lift_Ret. split; [done|].
  apply cmd_bind_Ret. exists (new, (n2 + c)%nat), w'. rewrite lift_Ret, Enm, add_manuals_union, Em. cbn [fst snd].
  rewrite Hv in Hnew. cbn [fmap outcome_fmap fst snd]. rewrite Hnew. split; [done|]. by rewrite new_status_stable.
Qed.
End sync_facts.

(** ** Examples *)

(** A server that stores what is sent to it. *)
#[export] Instance mem_client : SubnetClient (gmap string SpiderSubnet) := {|
  sub_get k st := (match st !! k with Some s => Ret s | None => Fail APINotFound end, st);
  sub_update s st := (Ret s, <[Name (subnet_meta s) := s]> st);
  sub_update_status s st := (Ret s, <[Name (subnet_meta s) := s]> st);
  sub_delete s st := (Ret (), delete (Name (subnet_meta s)) st);
  sub_update_pool p st := (Ret (), st)
|}.
#[export] Instance mem_client_laws : SubnetClientLaws (gmap string SpiderSubnet).
Proof. split. by intros s st s' st' [= <- <-]. Qed.

(** A record with the pool of an application that exists and one of an application that is gone,
    and a pool of the subnet's own. *)
Definition ex_app (name : string) : option string := Some (ApplicationNamespacedName (MkApp "apps/v1" "Deployment" "default" name)).
Definition ex_old : PoolIPPreAllocations :=
  {["auto-web" := MkPoolIPPreAllocation ["10.6.0.12-10.6.0.14"] (ex_app "web");
    "auto-old" := MkPoolIPPreAllocation ["10.6.0.11"] (ex_app "old")]}.
Definition ex_synced : SpiderSubnet :=
  set_subnet_status (MkSubnetStatus (@MarshalSubnetAllocatedIPPools countable_json ex_old) None None) ex_s1.
Definition ex_own_pool : SpiderIPPool :=
  MkIPPool (set_Labels {[LabelIPPoolOwnerSpiderSubnet := "s1"%string]} (plain_meta "" "own" ""))
    (MkIPPoolSpec (Some IPv4) "10.6.0.0/16" ["10.6.0.15-10.6.0.30"] ["10.6.0.18"] None None None None [] None [] [] None None)
    (MkIPPoolStatus None None None).
Definition ex_caches : SubnetCaches := MkSubnetCaches (Ret [ex_own_pool]) (λ _, Fail APINotFound).
Definition ex_get_app (kind ns name : string) : outcome string :=
  if name == "web"%string then Ret "uid-web"%string else Fail APINotFound.
Definition ex_sync (s : SpiderSubnet) (w : sync_state (gmap string SpiderSubnet)) : outcome SpiderSubnet * sync_state (gmap string SpiderSubnet) :=
  @syncControlledIPPoolIPs ordered_range countable_json _ mem_client ex_caches ex_get_app (λ _ _ _, Fail APINotFound) (λ _, Ret ()) s w.
Definition ex_sync1 := ex_sync ex_synced (MkSync ∅ []).
Definition ex_after : SpiderSubnet := match ex_sync1.1 with Ret s => s | _ => ex_synced end.
Definition ex_new : PoolIPPreAllocations :=
  {["auto-web" := MkPoolIPPreAllocation ["10.6.0.12-10.6.0.14"] (ex_app "web");
    "own" := MkPoolIPPreAllocation ["10.6.0.15-10.6.0.17"; "10.6.0.19-10.6.0.20"] None]}.

Lemma ex_not_null (t : PoolIPPreAllocations) : @json_marshal _ countable_json t ≠ "null"%string.
Proof. cbn. destruct (encode t); discriminate. Qed.

Lemma sync_stable_witness :
  @UnmarshalSubnetAllocatedIPPools countable_json (ControlledIPPools (subnet_status ex_after)) = Ret ex_new ∧
  ex_sync ex_after ex_sync1.2 = (Ret ex_after, ex_sync1.2).
Proof.
  split; [vm_compute; reflexivity|].
  refine (@sync_stable ordered_range countable_json countable_json_laws _ mem_client mem_client_laws ex_not_null ex_caches ex_get_app
    (λ _ _ _, Fail APINotFound) (λ _, Ret ()) ex_synced (MkSync ∅ []) ex_after ex_sync1.2 ex_new _ _ _).
  - vm_compute. reflexivity.
  - vm_compute. reflexivity.
  - discriminate.
Defined.

Lemma sync_record_witness :
  let own p := p ∈ matching pool_meta LabelIPPoolOwnerSpiderSubnet "s1" [ex_own_pool] ∧ IsAutoCreatedIPPool p = false in
  let kept := kept ex_caches ex_get_app (λ _ _ _, Fail APINotFound) in
  ∃ new, @UnmarshalSubnetAllocatedIPPools countable_json (ControlledIPPools (subnet_status ex_after)) = Ret new ∧
    (∀ k a, new !! k = Some a →
      (ex_old !! k = Some a ∧ kept (Some IPv4) k a = true) ∨ ∃ p, own p ∧ Name (pool_meta p) = k ∧ manual_entry ex_synced p a) ∧
    (∀ p x, own p → pool_address p x → ∃ q a, own q ∧ Name (pool_meta q) = Name (pool_meta p) ∧
      new !! Name (pool_meta p) = Some a ∧ manual_entry ex_synced q a) ∧
    ∀ k a, ex_old !! k = Some a → kept (Some IPv4) k a = true → (∀ p, own p → Name (pool_meta p) ≠ k) → new !! k = Some a.
Proof.
  refine (@sync_record ordered_range countable_json countable_json_laws _ mem_client mem_client_laws ex_caches ex_get_app
    (λ _ _ _, Fail APINotFound) (λ _, Ret ()) IPv4 ex_synced ex_old [ex_own_pool] (MkSync ∅ []) ex_after ex_sync1.2 _ _ _ _ _).
  - split; [reflexivity|reflexivity|..]; apply (bool_decide_unpack _); vm_compute; exact I.
  - vm_compute. reflexivity.
  - reflexivity.
  - intros p [_ ->%list_elem_of_singleton]%list_elem_of_filter _.
    split; [reflexivity|]. split; apply (bool_decide_unpack _); vm_compute; exact I.
  - vm_compute. reflexivity.
Defined.
