(* ===== verification/PoolSync.v ===== *)
(** * pkg/ippoolmanager/ippool_informer.go: the controller of SpiderIPPool

    [handleIPPool] brings the status of a pool up to date, deletes an auto-created pool whose
    application is gone, and removes the finalizer of a pool that is being deleted and not used any
    more.  It works on the pool of the cache, which may be older than the one that is stored. *)

From S2P Require Import Prelude NetIP NetIPFacts IPAddr Cidr IPRange SubnetCIDR K8s Retry WorkQueue Convert IPPoolManager PoolUtils IPPoolWebhook AppUtils SubnetManager.
Local Open Scope Z_scope.
Local Open Scope go_scope.

(** ** The client *)

(** [Update] and [Delete]; [Status().Update] is that of [KubeStore]. *)
Class PoolWriter (S : Type) := {
  pool_update : SpiderIPPool → cmd S unit;
  pool_delete : SpiderIPPool → cmd S unit
}.

Definition set_DeletionTimestamp (t : option Z) (m : ObjectMeta) : ObjectMeta :=
  MkMeta (Name m) (Namespace m) (UID m) (ResourceVersion m) (Labels m) (Annotations m) (Finalizers m) (OwnerReferences m) t.

(** What the server stores: an update leaves the status and the deletion time alone; an object
    that is being deleted is removed with its last finalizer, and one without finalizers at once. *)
Definition stored_update (old new : SpiderIPPool) (v : Z) : SpiderIPPool :=
  MkIPPool (set_DeletionTimestamp (DeletionTimestamp (pool_meta old)) (set_ResourceVersion v (pool_meta new)))
    (pool_spec new) (pool_status old).
Definition apply_update (k : string) (old new : SpiderIPPool) (v : Z) (m : gmap string SpiderIPPool) : gmap string SpiderIPPool :=
  if (DeletionTimestamp (pool_meta old) != None) && (Finalizers (pool_meta new) == []) then delete k m
  else <[k := stored_update old new v]> m.
Definition stored_delete (old : SpiderIPPool) (now v : Z) : SpiderIPPool :=
  if DeletionTimestamp (pool_meta old) != None then old
  else on_meta (λ m, set_DeletionTimestamp (Some now) (set_ResourceVersion v m)) old.
Definition apply_delete (k : string) (old : SpiderIPPool) (now v : Z) (m : gmap string SpiderIPPool) : gmap string SpiderIPPool :=
  if Finalizers (pool_meta old) == [] then delete k m else <[k := stored_delete old now v]> m.

(** What is relied on: an update is applied only to the version it was computed from, and a call
    that fails may or may not have been applied. *)
Class PoolWriterLaws (S : Type) `{KS : KubeStore S SpiderIPPool} `{KL : !KubeStoreLaws S SpiderIPPool} `{PW : PoolWriter S} := {
  pool_update_later : ∀ s o, valid s → later s (pool_update o s).2;
  pool_update_total : ∀ s o, (pool_update o s).1 = Ret () ∨ ∃ e, (pool_update o s).1 = Fail e;
  pool_update_applied : ∀ s o r s', valid s → pool_update o s = (r, s') →
    (view s' = view s ∧ r ≠ Ret ()) ∨
    ∃ old v, view s !! obj_key o = Some old ∧ obj_version old = obj_version o ∧
      view s' = apply_update (obj_key o) old o v (view s);
  pool_update_found : ∀ s o e, valid s → (pool_update o s).1 = Fail e → not_found e = true → view s !! obj_key o = None;
  pool_delete_later : ∀ s o, valid s → later s (pool_delete o s).2;
  pool_delete_applied : ∀ s o r s', valid s → pool_delete o s = (r, s') →
    view s' = view s ∨
    ∃ old now v, view s !! obj_key o = Some old ∧ view s' = apply_delete (obj_key o) old now v (view s)
}.

(** ** The handler *)

Record IPPoolControllerConfig := MkPoolControllerConfig {
  EnableSpiderSubnet : bool;
  EnableAutoPoolForApplication : bool;
  pc_MaxWorkqueueLength : Z;
  pc_WorkQueueMaxRetries : Z;
  pc_WorkQueueRequeueDelayDuration : Z
}.

Section handler.
Context {S : Type} `{KS : KubeStore S SpiderIPPool} `{PW : PoolWriter S}.
Context (config : IPPoolControllerConfig).
(** Reads of applications. *)
Context (get_typed : string → string → string → outcome string).
Context (get_dynamic : GroupVersionResource → string → string → outcome string).
(** What other clients do between the two parts of the handler. *)
Context (env : S → S).

(** [client.IgnoreNotFound] *)
Definition IgnoreNotFound (m : cmd S unit) : cmd S unit := λ s,
  match m s with (Fail e, s') => ((if not_found e then Ret () else Fail e), s') | r => r end.

Definition label (pool : SpiderIPPool) (k : string) : string := default ""%string (Labels (pool_meta pool) !! k).

(** The application the labels name. *)
Definition owner_application (pool : SpiderIPPool) : outcome AppNamespacedName :=
  match ParseApplicationGVStr (label pool LabelIPPoolOwnerApplicationGV) with
  | None => Fail ErrWrongInput
  | Some appAPIVersion =>
      Ret (MkApp appAPIVersion (label pool LabelIPPoolOwnerApplicationKind)
             (label pool LabelIPPoolOwnerApplicationNamespace) (label pool LabelIPPoolOwnerApplicationName))
  end.

(** The application is gone, or another one of the same name is there. *)
Definition enable_delete (pool : SpiderIPPool) : outcome bool :=
  app ← owner_application pool;
  '(isAppExist, appUID) ← IsAppExist get_typed get_dynamic app;
  Ret (negb isAppExist || (appUID != label pool LabelIPPoolOwnerApplicationUID)).

Definition cleanAutoIPPoolLegacy (pool : SpiderIPPool) : cmd S unit :=
  if DeletionTimestamp (pool_meta pool) != None then mret ()
  else if label pool LabelIPPoolReclaimIPPool != "true"%string then mret ()
  else if AllocatedIPs (pool_status pool) == None then
    enableDelete ← lift (enable_delete pool);
    if enableDelete : bool then IgnoreNotFound (pool_delete pool) else mret ()
  else mret ().

Definition removeFinalizer (pool : SpiderIPPool) : cmd S unit :=
  if negb (ContainsFinalizer (pool_meta pool) SpiderFinalizer) then mret ()
  else pool_update (on_meta (λ m, set_Finalizers (filter (λ f, f ≠ SpiderFinalizer) (Finalizers m)) m) pool).

(** The status with the counts, and whether it has to be written. *)
Definition pool_counts (pool : SpiderIPPool) : outcome (SpiderIPPool * bool) :=
  let st := pool_status pool in
  let '(allocated, needUpdate) := match AllocatedIPCount st with Some n => (n, false) | None => (0, true) end in
  subnet ← wrong (NewCIDR (ps_Subnet (pool_spec pool)) (ps_IPs (pool_spec pool)) (ps_ExcludeIPs (pool_spec pool)));
  let total := TotalIPInt subnet in
  if TotalIPCount st != Some (int64 total)
  then Ret (set_pool_status (MkIPPoolStatus (AllocatedIPs st) (Some (int64 total)) (Some allocated)) pool, true)
  else Ret (set_pool_status (MkIPPoolStatus (AllocatedIPs st) (TotalIPCount st) (Some allocated)) pool, needUpdate).

Definition syncHandler (pool : SpiderIPPool) : cmd S unit :=
  if (DeletionTimestamp (pool_meta pool) != None) && (AllocatedIPs (pool_status pool) == None)
  then IgnoreNotFound (removeFinalizer pool)
  else
    counts ← lift (pool_counts pool);
    if counts.2 : bool then ((λ s, api_update_status s counts.1) : cmd S unit) else mret ().

Definition handleIPPool (pool : SpiderIPPool) : cmd S unit :=
  _ ← (if EnableSpiderSubnet config && EnableAutoPoolForApplication config && IsAutoCreatedIPPool pool
       then cleanAutoIPPoolLegacy pool else mret ());
  _ ← meanwhile env;
  syncHandler pool.

(** ** The queue *)

Definition enqueueIPPool (pool : SpiderIPPool) : workqueue string → workqueue string :=
  enqueue (pc_MaxWorkqueueLength config) (Name (pool_meta pool)).

(** [cached]: the pools of the cache. *)
Definition process_pool (cached : string → outcome SpiderIPPool) (now bucket : Z) (poolName : string) (s : S)
    : cmd (workqueue string) unit * S :=
  match cached poolName with
  | Fail e => (if not_found e then modify (Forget poolName) else modify (AddRateLimited now bucket poolName), s)
  | Ret pool =>
      let '(r, s) := handleIPPool pool s in
      (settle (pc_WorkQueueRequeueDelayDuration config) (pc_WorkQueueMaxRetries config) conflict now bucket poolName r, s)
  | Panic => (lift Panic, s)
  | OutOfFuel => (lift OutOfFuel, s)
  end.

Definition processNextWorkItem (cached : string → outcome SpiderIPPool) (queue_env : workqueue string → workqueue string) (now bucket : Z)
    : S * workqueue string → option (outcome bool * (S * workqueue string)) :=
  work queue_env (process_pool cached now bucket).
End handler.

(** ** A client in memory *)

#[export] Instance mem_pool_writer : PoolWriter (mem_store SpiderIPPool) := {|
  pool_update o s :=
    match objs s !! obj_key o with
    | None => (Fail APINotFound, s)
    | Some old =>
        if obj_version old == obj_version o
        then (Ret (), MkStore (apply_update (obj_key o) old o (clock s) (objs s)) (clock s + 1))
        else (Fail APIConflict, s)
    end;
  pool_delete o s :=
    match objs s !! obj_key o with
    | None => (Fail APINotFound, s)
    | Some old => (Ret (), MkStore (apply_delete (obj_key o) old (clock s) (clock s) (objs s)) (clock s + 1))
    end
|}.

Lemma mem_write_later (s : mem_store SpiderIPPool) m :
  mem_valid s → (∀ k o, m !! k = Some o → objs s !! k = Some o ∨ (obj_key o = k ∧ obj_version o = clock s)) →
  mem_later s (MkStore m (clock s + 1)).
Proof.
  intros Hv Hm. split_and!; cbn; [lia| |].
  - intros _ k o Ho. cbn in *. destruct (Hm k o Ho) as [Ho'|[? ?]]; [destruct (Hv k o Ho'); split; [done|lia]|split; [done|lia]].
  - intros k o Ho. destruct (Hm k o Ho) as [?|[_ ?]]; [by left|right; lia].
Qed.

#[export] Instance mem_pool_writer_laws : PoolWriterLaws (mem_store SpiderIPPool).
Proof.
  split; cbn.
  - intros s o Hv. destruct (objs s !! obj_key o) as [old|] eqn:E; [|done]. case_bool_decide; [|done].
    apply mem_write_later; [done|]. intros k p. unfold apply_update. case_match; [intros [_ ?]%lookup_delete_Some; by left|].
    intros [[<- <-]|[_ ?]]%lookup_insert_Some; [by right|by left].
  - intros s o. repeat case_match; eauto.
  - intros s o r s' Hv. destruct (objs s !! obj_key o) as [old|] eqn:E; [case_bool_decide|]; intros [= <- <-]; [right|by left..].
    by exists old, (clock s).
  - intros s o e Hv. destruct (objs s !! obj_key o) as [old|] eqn:E; [case_bool_decide|]; try done. by intros [= <-].
  - intros s o Hv. destruct (objs s !! obj_key o) as [old|] eqn:E; [|done].
    apply mem_write_later; [done|]. destruct (Hv _ _ E) as [Hk _]. intros k p. unfold apply_delete.
    case_match; [intros [_ ?]%lookup_delete_Some; by left|].
    intros [[<- <-]|[_ ?]]%lookup_insert_Some; [|by left]. unfold stored_delete. case_match; [by left|]. right. done.
  - intros s o r s' Hv. destruct (objs s !! obj_key o) as [old|] eqn:E; intros [= <- <-]; [right|by left].
    by exists old, (clock s), (clock s).
Qed.

(** ** Facts *)

Lemma pool_counts_same pool p b : pool_counts pool = Ret (p, b) →
  pool_meta p = pool_meta pool ∧ pool_spec p = pool_spec pool ∧ AllocatedIPs (pool_status p) = AllocatedIPs (pool_status pool).
Proof.
  unfold pool_counts. destruct (AllocatedIPCount (pool_status pool)); intros (c & _ & H)%bind_Ret; case_match; by injection H as <- <-.
Qed.

(** A pool whose counts are right has nothing to be written. *)
Lemma pool_counts_stable pool c : 
  NewCIDR (ps_Subnet (pool_spec pool)) (ps_IPs (pool_spec pool)) (ps_ExcludeIPs (pool_spec pool)) = Ret c →
  is_Some (AllocatedIPCount (pool_status pool)) → TotalIPCount (pool_status pool) = Some (int64 (TotalIPInt c)) →
  pool_counts pool = Ret (pool, false).
Proof.
  intros Hc [n Hn] Ht. unfold pool_counts. rewrite Hc, Hn. cbn. rewrite Ht. rewrite bool_decide_true by done. cbn.
  destruct pool as [? ? [? ? ?]]; cbn in *. by subst.
Qed.

Lemma pool_counts_spec pool p b : pool_counts pool = Ret (p, b) →
  (∀ c, NewCIDR (ps_Subnet (pool_spec pool)) (ps_IPs (pool_spec pool)) (ps_ExcludeIPs (pool_spec pool)) = Ret c →
     Forall (λ item, ∀ s e, parse c item = Ret (s, e) → s ≤ e) (ps_ExcludeIPs (pool_spec pool))) →
  (b = false → p = pool) ∧ AllocatedIPCount (pool_status p) = Some (default 0 (AllocatedIPCount (pool_status pool))) ∧
  pool_counts p = Ret (p, false) ∧
  ∃ c l, NewCIDR (ps_Subnet (pool_spec pool)) (ps_IPs (pool_spec pool)) (ps_ExcludeIPs (pool_spec pool)) = Ret c ∧ NoDup l ∧
    (∀ n, n ∈ l ↔ included c (ps_IPs (pool_spec pool)) n ∧ ¬ excluded c (ps_ExcludeIPs (pool_spec pool)) n) ∧
    int64 (TotalIPInt c) = Z.min (Z.of_nat (length l)) MaxInt64 ∧
    TotalIPCount (pool_status p) = Some (Z.min (Z.of_nat (length l)) MaxInt64).
Proof.
  intros E Hex. destruct (pool_counts_same _ _ _ E) as (_ & Es & _). unfold pool_counts in E.
  destruct (NewCIDR _ _ _) as [c| | |] eqn:Ec; cbn in E; [|by destruct (AllocatedIPCount _)..].
  destruct (NewCIDR_spec _ _ _ _ Ec (Hex c eq_refl)) as (Hwf & Hm & _).
  destruct (TotalIPInt_count c Hwf) as (l & Hl1 & Hl2 & _ & Hl3).
  assert (int64 (TotalIPInt c) = Z.min (Z.of_nat (length l)) MaxInt64) as Ht by (rewrite Hl3; apply int64_small; unfold MaxInt64; lia).
  assert (∀ n, n ∈ l ↔ included c (ps_IPs (pool_spec pool)) n ∧ ¬ excluded c (ps_ExcludeIPs (pool_spec pool)) n) as Hin
    by (intros n; by rewrite Hl2, Hm).
  assert (TotalIPCount (pool_status p) = Some (Z.min (Z.of_nat (length l)) MaxInt64) ∧
    AllocatedIPCount (pool_status p) = Some (default 0 (AllocatedIPCount (pool_status pool))) ∧ (b = false → p = pool)) as (Tp & Ap & Bp).
  { rewrite Ht in E. destruct (decide (TotalIPCount (pool_status pool) = Some (Z.min (Z.of_nat (length l)) MaxInt64))) as [Eb|Eb];
      [rewrite bool_decide_true in E by done|rewrite bool_decide_false in E by done];
      destruct (AllocatedIPCount (pool_status pool)) as [n|] eqn:En; cbn in E; injection E as <- <-; cbn; split_and!; try done.
    intros _. destruct pool as [? ? [? ? ?]]; cbn in *; by subst. }
  split_and!; [done|done| |by exists c, l]. apply (pool_counts_stable _ c); [by rewrite Es|by rewrite Ap|by rewrite Ht].
Qed.

Section facts.
Context {S : Type} `{KS : KubeStore S SpiderIPPool} `{KL : !KubeStoreLaws S SpiderIPPool} `{PW : PoolWriter S} `{PL : !PoolWriterLaws S}.
Context (config : IPPoolControllerConfig).
Context (get_typed : string → string → string → outcome string).
Context (get_dynamic : GroupVersionResource → string → string → outcome string).
Context (env : S → S).

(** A pool with allocated addresses. *)
Definition in_use (p : SpiderIPPool) : Prop :=
  SpiderFinalizer ∈ Finalizers (pool_meta p) ∧ is_Some (AllocatedIPs (pool_status p)).

(** The pools in use stay, with their addresses. *)
Definition keeps_used (s s' : S) : Prop :=
  ∀ k p, view s !! k = Some p → in_use p →
    ∃ p', view s' !! k = Some p' ∧ in_use p' ∧ pool_spec p' = pool_spec p ∧
      AllocatedIPs (pool_status p') = AllocatedIPs (pool_status p).

Lemma keeps_used_view s s' : view s' = view s → keeps_used s s'.
Proof. intros E k p Hp Hu. exists p. by rewrite E. Qed.

(** A write to one key. *)
Lemma keeps_used_insert s s' k old new :
  view s !! k = Some old → view s' = <[k := new]> (view s) →
  (in_use old → in_use new ∧ pool_spec new = pool_spec old ∧ AllocatedIPs (pool_status new) = AllocatedIPs (pool_status old)) →
  keeps_used s s'.
Proof.
  intros Ho E Hw k' p Hp Hu. rewrite E. destruct (decide (k' = k)) as [->|Hne].
  - rewrite Ho in Hp. injection Hp as <-. exists new. rewrite lookup_insert_eq. by destruct (Hw Hu) as (? & ? & ?).
  - exists p. by rewrite lookup_insert_ne.
Qed.
Lemma keeps_used_unused s s' k old :
  view s !! k = Some old → AllocatedIPs (pool_status old) = None → (∀ k', k' ≠ k → view s' !! k' = view s !! k') → keeps_used s s'.
Proof.
  intros Ho Hn E k' p Hp Hu. destruct (decide (k' = k)) as [->|Hne]; [|exists p; by rewrite E].
  rewrite Ho in Hp. injection Hp as <-. destruct Hu as [_ [x Hx]]. congruence.
Qed.

Lemma IgnoreNotFound_state (m : cmd S unit) s : (IgnoreNotFound m s).2 = (m s).2.
Proof. unfold IgnoreNotFound. by destruct (m s) as [[] ]. Qed.

Lemma delete_keeps s o : valid s → keeps_used s (pool_delete o s).2.
Proof.
  intros Hv. destruct (pool_delete o s) as [r s'] eqn:E. cbn.
  destruct (pool_delete_applied s o r s' Hv E) as [Hw|(old & now & v & Ho & Hw)]; [by apply keeps_used_view|].
  unfold apply_delete in Hw. case_bool_decide as Hf.
  - intros k p Hp [Hu Hu']. destruct (decide (k = obj_key o)) as [->|Hne].
    + rewrite Ho in Hp. injection Hp as <-. rewrite Hf in Hu. by apply elem_of_nil in Hu.
    + exists p. rewrite Hw, lookup_delete_ne by done. done.
  - eapply keeps_used_insert; [done..|]. unfold stored_delete. case_match; [done|]. intros []. done.
Qed.

Lemma clean_keeps s pool : valid s →
  let s' := (cleanAutoIPPoolLegacy get_typed get_dynamic pool s).2 in later s s' ∧ keeps_used s s'.
Proof.
  intros Hv. assert (later s s ∧ keeps_used s s) as Hid by (split; [done|by apply keeps_used_view]).
  unfold cleanAutoIPPoolLegacy. repeat case_match; try done. unfold mbind, cmd_bind, lift.
  destruct (enable_delete get_typed get_dynamic pool) as [[]| | |]; try done.
  rewrite IgnoreNotFound_state. split; [by apply pool_delete_later|by apply delete_keeps].
Qed.

(** The pool of the cache was stored at an earlier moment. *)
Definition cached_at (s0 : S) (k : string) (pool : SpiderIPPool) (s : S) : Prop :=
  valid s0 ∧ view s0 !! k = Some pool ∧ obj_key pool = k ∧ later s0 s.

(** The finalizer is removed from the pool as it was cached, or not at all. *)
Lemma removeFinalizer_cases s0 s k pool r s' :
  cached_at s0 k pool s → removeFinalizer pool s = (r, s') →
  (view s' = view s ∧ (r = Ret () → SpiderFinalizer ∉ Finalizers (pool_meta pool))) ∨
  (view s !! k = Some pool ∧ ∃ v, view s' =
    apply_update k pool (on_meta (λ m, set_Finalizers (filter (λ f, f ≠ SpiderFinalizer) (Finalizers m)) m) pool) v (view s)).
Proof.
  intros (Hv & Hp & Hk & Hl). unfold removeFinalizer, ContainsFinalizer. case_bool_decide as Hf; cbn [negb].
  2:{ intros [= <- <-]. by left. }
  intros E. apply pool_update_applied in E as [[? ?]|(old & v & Ho & Hver & Hw)]; [by left|right|by eapply later_valid].
  set (p := on_meta _ pool) in *. change (obj_key p) with (obj_key pool) in Ho, Hw. change (obj_version p) with (obj_version pool) in Hver.
  rewrite Hk in Ho, Hw.
  assert (old = pool) as -> by (by apply (later_version s0 s k)). eauto.
Qed.

Lemma removeFinalizer_keeps s0 s k pool : cached_at s0 k pool s → AllocatedIPs (pool_status pool) = None →
  keeps_used s (removeFinalizer pool s).2.
Proof.
  intros Hc Hn. destruct (removeFinalizer pool s) as [r s'] eqn:E.
  destruct (removeFinalizer_cases _ _ _ _ _ _ Hc E) as [[Hw _]|(Ho & v & Hw)]; [by apply keeps_used_view|].
  apply (keeps_used_unused s s' k pool); [done..|]. intros k' Hne. rewrite Hw. unfold apply_update.
  case_match; [by rewrite lookup_delete_ne|by rewrite lookup_insert_ne].
Qed.

Lemma sync_keeps s0 s k pool : cached_at s0 k pool s → keeps_used s (syncHandler pool s).2.
Proof.
  intros Hc. unfold syncHandler. destruct (_ && _) eqn:Eb.
  - apply andb_true_iff in Eb as [_ Hn%bool_decide_eq_true]. rewrite IgnoreNotFound_state. by eapply removeFinalizer_keeps.
  - unfold mbind, cmd_bind, lift. destruct (pool_counts pool) as [[p b]| | |] eqn:E; try by apply keeps_used_view.
    destruct b; [|by apply keeps_used_view]. cbn [fst snd]. destruct Hc as (Hv & Hp & Hk & Hl).
    destruct (pool_counts_same _ _ _ E) as (Em & Es & Ea). destruct (api_update_status s p) as [r s'] eqn:Eu.
    destruct (update_of_view s0 s s' k pool p r Hv Hp Hk Hl Em Eu) as [_ [[Hw _]|(v & Ho & Hw)]]; [by apply keeps_used_view|].
    eapply keeps_used_insert; [done..|]. intros [H1 H2]. unfold in_use. cbn. by rewrite Ea.
Qed.

(** C21: however old the cached pool is and whatever else happens to the pools, the controller of
    pools takes no pool away that has allocated addresses, and changes neither its addresses nor
    its spec: it only marks pools for deletion, and lets a pool go only when the stored one is
    unused. *)
Theorem handleIPPool_keeps_used s0 s k pool r s' :
  (∀ s, valid s → later s (env s)) → cached_at s0 k pool s →
  handleIPPool config get_typed get_dynamic env pool s = (r, s') →
  ∃ s1, keeps_used s s1 ∧ (s' = s1 ∨ keeps_used (env s1) s').
Proof.
  intros Henv Hc. pose proof Hc as (Hv & Hp & Hk & Hl). assert (valid s) as Hvs by (by eapply later_valid).
  unfold handleIPPool. set (c := _ && IsAutoCreatedIPPool pool). set (m := if c then _ else _).
  assert (later s (m s).2 ∧ keeps_used s (m s).2) as [Hl1 Hk1].
  { subst m. destruct c; [by apply clean_keeps|]. split; [done|by apply keeps_used_view]. }
  unfold mbind, cmd_bind, meanwhile. destruct (m s) as [[[]|e| |] s1]; cbn [snd] in *; [|intros [= <- <-]; exists s1; by auto..].
  intros E. exists s1. split; [done|]. right. change s' with ((r, s').2). rewrite <- E.
  apply (sync_keeps s0 _ k). split_and!; [done..|]. etrans; [exact Hl|]. etrans; [exact Hl1|]. apply Henv. by eapply later_valid.
Qed.

(** A pool that is in use, or is being deleted, or was not created for an application, is not
    cleaned. *)
Definition not_cleaned (pool : SpiderIPPool) : Prop :=
  is_Some (AllocatedIPs (pool_status pool)) ∨ is_Some (DeletionTimestamp (pool_meta pool)) ∨ IsAutoCreatedIPPool pool = false.

Lemma handle_is_sync pool s : not_cleaned pool →
  handleIPPool config get_typed get_dynamic env pool s = syncHandler pool (env s).
Proof.
  intros Hn. unfold handleIPPool, mbind, cmd_bind, meanwhile. destruct (_ && _ && _) eqn:E; [|done].
  apply andb_true_iff in E as [_ Ha]. unfold cleanAutoIPPoolLegacy.
  destruct Hn as [[x Hx]|[[x Hx]|Hn]]; [| |congruence]; rewrite Hx.
  - destruct (DeletionTimestamp _ != None); [done|]. by destruct (label pool LabelIPPoolReclaimIPPool != _).
  - done.
Qed.

(** Handling a pool, as it is stored, that is not to be deleted makes its total count the
    number of distinct addresses of its ranges that are not excluded, sets the count of allocated
    addresses if it was not set, and changes nothing else; handling it again has nothing to
    write. *)
Theorem handleIPPool_counts s k pool s' :
  valid s → (∀ s, valid s → later s (env s)) → view s !! k = Some pool → obj_key pool = k → view (env s) !! k = Some pool →
  not_cleaned pool → (is_Some (AllocatedIPs (pool_status pool)) ∨ DeletionTimestamp (pool_meta pool) = None) →
  (∀ c, NewCIDR (ps_Subnet (pool_spec pool)) (ps_IPs (pool_spec pool)) (ps_ExcludeIPs (pool_spec pool)) = Ret c →
     Forall (λ item, ∀ s e, parse c item = Ret (s, e) → s ≤ e) (ps_ExcludeIPs (pool_spec pool))) →
  handleIPPool config get_typed get_dynamic env pool s = (Ret (), s') →
  ∃ p c l, view s' = <[k := p]> (view (env s)) ∧ pool_spec p = pool_spec pool ∧
    AllocatedIPs (pool_status p) = AllocatedIPs (pool_status pool) ∧
    AllocatedIPCount (pool_status p) = Some (default 0 (AllocatedIPCount (pool_status pool))) ∧
    NewCIDR (ps_Subnet (pool_spec pool)) (ps_IPs (pool_spec pool)) (ps_ExcludeIPs (pool_spec pool)) = Ret c ∧
    NoDup l ∧ (∀ n, n ∈ l ↔ included c (ps_IPs (pool_spec pool)) n ∧ ¬ excluded c (ps_ExcludeIPs (pool_spec pool)) n) ∧
    TotalIPCount (pool_status p) = Some (Z.min (Z.of_nat (length l)) MaxInt64) ∧
    pool_counts p = Ret (p, false).
Proof.
  intros Hv Henv Hp Hk Hp' Hn Hd Hex. rewrite handle_is_sync by done. unfold syncHandler. rewrite andb_comm.
  replace ((AllocatedIPs (pool_status pool) == None) && (DeletionTimestamp (pool_meta pool) != None)) with false.
  2:{ destruct Hd as [[x ->]| ->]; [done|]. by rewrite andb_false_r. }
  intros ([q b] & s1 & [E ->]%lift_Ret & H)%cmd_bind_Ret. cbn [fst snd] in H.
  destruct (pool_counts_spec _ _ _ E Hex) as (Hb & Ha & Hidem & c & l & Hc & Hl & Hin & Hi & Ht).
  destruct (pool_counts_same _ _ _ E) as (Em & Es & Ea). destruct b.
  - destruct (update_of_view s (env s) s' k pool q _ Hv Hp Hk (Henv s Hv) Em H) as [_ [[_ ?]|(v & _ & Hw)]]; [done|].
    exists (merge_status pool q v), c, l. cbn. split_and!; try done. apply (pool_counts_stable _ c); cbn; [done|by rewrite Ha|by rewrite Hi].
  - injection H as <-. rewrite (Hb eq_refl) in *. exists pool, c, l. split_and!; try done. by rewrite insert_id.
Qed.

(** A pool that is being deleted, as it is stored, with no allocated address and no other
    finalizer, is gone after it was handled. *)
Theorem handleIPPool_lets_go s k pool s' :
  valid s → (∀ s, valid s → later s (env s)) → view s !! k = Some pool → obj_key pool = k → view (env s) !! k = Some pool →
  is_Some (DeletionTimestamp (pool_meta pool)) → AllocatedIPs (pool_status pool) = None →
  Finalizers (pool_meta pool) = [SpiderFinalizer] →
  handleIPPool config get_typed get_dynamic env pool s = (Ret (), s') →
  view s' = delete k (view (env s)).
Proof.
  intros Hv Henv Hp Hk Hp' Hd Ha Hf. rewrite handle_is_sync by (right; by left). unfold syncHandler. rewrite Ha.
  destruct Hd as [t Hd]. rewrite Hd. cbn. unfold IgnoreNotFound. destruct (removeFinalizer pool (env s)) as [o s1] eqn:E. intros H.
  assert (s1 = s' ∧ (o = Ret () ∨ ∃ e, o = Fail e ∧ not_found e = true)) as [-> Ho].
  { destruct o as [[]|e| |]; [injection H as <-; auto| |done..]. injection H as He <-. split; [done|]. right. exists e.
    destruct (not_found e); done. }
  assert (cached_at s k pool (env s)) as Hc by (split_and!; auto).
  destruct (removeFinalizer_cases _ _ _ _ _ _ Hc E) as [[Hw Hr]|(_ & v & Hw)].
  - destruct Ho as [->|(e & -> & He)]; [exfalso; apply (Hr eq_refl); rewrite Hf; by left|]. exfalso.
    unfold removeFinalizer, ContainsFinalizer in E. rewrite Hf in E. rewrite bool_decide_true in E by (by left). cbn [negb] in E.
    set (p := on_meta _ pool) in E. assert (view (env s) !! obj_key p = None) as Hno.
    { apply (pool_update_found (env s) p e); [by eapply later_valid; eauto|by rewrite E|done]. }
    change (obj_key p) with (obj_key pool) in Hno. rewrite Hk in Hno. congruence.
  - rewrite Hw. unfold apply_update, on_meta, set_Finalizers. cbn [pool_meta Finalizers]. by rewrite Hd, Hf.
Qed.
End facts.

(** ** Witnesses *)

Definition ex_pool (v : Z) (deleted : option Z) (st : IPPoolStatus) : SpiderIPPool :=
  MkIPPool (MkMeta "p" "" "uid-p" v ∅ ∅ [SpiderFinalizer] [] deleted)
    (MkIPPoolSpec (Some IPv4) "10.6.0.0/16" ["10.6.0.10-10.6.0.19"%string] ["10.6.0.12"%string] None None None None [] None [] [] None None) st.
Definition ex_config : IPPoolControllerConfig := MkPoolControllerConfig true true 100 5 0.
Definition ex_typed (kind ns name : string) : outcome string := Fail APINotFound.
Definition ex_dynamic (gvr : GroupVersionResource) (ns name : string) : outcome string := Fail APINotFound.

(** The cache has the pool without addresses; an address was allocated since. *)
Definition ex_unused : SpiderIPPool := ex_pool 1 (Some 7) (MkIPPoolStatus None (Some 9) (Some 0)).
Definition ex_used : SpiderIPPool := ex_pool 2 (Some 7) (MkIPPoolStatus (Some "allocated"%string) (Some 9) (Some 1)).
Definition ex_before : mem_store SpiderIPPool := MkStore {["p"%string := ex_unused]} 2.
Definition ex_after : mem_store SpiderIPPool := MkStore {["p"%string := ex_used]} 3.

Lemma ex_single_valid (p : SpiderIPPool) n : obj_key p = "p"%string → obj_version p < n → mem_valid (MkStore {["p"%string := p]} n).
Proof. intros Hk Hn k o. cbn [objs]. by intros [<- <-]%lookup_singleton_Some. Qed.

Lemma handleIPPool_keeps_used_witness :
  (handleIPPool ex_config ex_typed ex_dynamic id ex_unused ex_after).1 = Fail APIConflict ∧
  ∃ s1, keeps_used ex_after s1 ∧ ((handleIPPool ex_config ex_typed ex_dynamic id ex_unused ex_after).2 = s1 ∨
    keeps_used s1 (handleIPPool ex_config ex_typed ex_dynamic id ex_unused ex_after).2).
Proof.
  split; [vm_compute; reflexivity|].
  refine (handleIPPool_keeps_used ex_config ex_typed ex_dynamic id ex_before ex_after "p" ex_unused
    (handleIPPool ex_config ex_typed ex_dynamic id ex_unused ex_after).1 (handleIPPool ex_config ex_typed ex_dynamic id ex_unused ex_after).2 _ _ (surjective_pairing _)); [done|].
  split_and!; [by apply ex_single_valid|by cbn; rewrite lookup_singleton_eq|done|].
  split_and!; [done|by intros _; apply ex_single_valid|]. intros k o. cbn [ex_after objs]. intros [_ <-]%lookup_singleton_Some. by right.
Defined.

Definition ex_fresh : SpiderIPPool := ex_pool 1 None (MkIPPoolStatus None None None).
Definition ex_start : mem_store SpiderIPPool := MkStore {["p"%string := ex_fresh]} 2.

Lemma handleIPPool_counts_witness :
  let s' := (handleIPPool ex_config ex_typed ex_dynamic id ex_fresh ex_start).2 in
  (TotalIPCount ∘ pool_status <$> objs s' !! "p"%string) = Some (Some 9) ∧
  ∃ p c l, view s' = <["p"%string := p]> (view (id ex_start)) ∧ pool_spec p = pool_spec ex_fresh ∧
    AllocatedIPs (pool_status p) = AllocatedIPs (pool_status ex_fresh) ∧
    AllocatedIPCount (pool_status p) = Some (default 0 (AllocatedIPCount (pool_status ex_fresh))) ∧
    NewCIDR (ps_Subnet (pool_spec ex_fresh)) (ps_IPs (pool_spec ex_fresh)) (ps_ExcludeIPs (pool_spec ex_fresh)) = Ret c ∧
    NoDup l ∧ (∀ n, n ∈ l ↔ included c (ps_IPs (pool_spec ex_fresh)) n ∧ ¬ excluded c (ps_ExcludeIPs (pool_spec ex_fresh)) n) ∧
    TotalIPCount (pool_status p) = Some (Z.min (Z.of_nat (length l)) MaxInt64) ∧
    pool_counts p = Ret (p, false).
Proof.
  cbv zeta. split; [vm_compute; reflexivity|].
  refine (handleIPPool_counts ex_config ex_typed ex_dynamic id ex_start "p" ex_fresh
    (handleIPPool ex_config ex_typed ex_dynamic id ex_fresh ex_start).2 _ _ _ _ _ _ _ _ _).
  - by apply ex_single_valid.
  - done.
  - by cbn; rewrite lookup_singleton_eq.
  - done.
  - by cbn; rewrite lookup_singleton_eq.
  - right. right. reflexivity.
  - by right.
  - intros c Hc. vm_compute in Hc. injection Hc as <-. constructor; [|constructor].
    intros s e H. vm_compute in H. injection H as <- <-. done.
  - vm_compute. reflexivity.
Defined.

Lemma handleIPPool_lets_go_witness :
  objs (handleIPPool ex_config ex_typed ex_dynamic id ex_unused ex_before).2 = delete "p"%string (objs ex_before).
Proof.
  refine (handleIPPool_lets_go ex_config ex_typed ex_dynamic id ex_before "p" ex_unused
    (handleIPPool ex_config ex_typed ex_dynamic id ex_unused ex_before).2 _ _ _ _ _ _ _ _ _).
  - by apply ex_single_valid.
  - done.
  - by cbn; rewrite lookup_singleton_eq.
  - done.
  - by cbn; rewrite lookup_singleton_eq.
  - by eexists.
  - done.
  - done.
  - vm_compute. reflexivity.
Defined.
