(* ===== verification/AppController.v ===== *)
(** * pkg/applicationcontroller/app_controller.go: auto-created pools follow their applications

    Events of applications put keys into a queue; a worker takes a key, reads the application and
    reconciles the auto-created pool of each of its interfaces and families.  The caches, the list
    of pools and the deletion of pools by labels are arguments. *)

From S2P Require Import Prelude NetIP NetIPFacts IPAddr Cidr IPRange SubnetCIDR K8s Retry WorkQueue ReservedIP Convert IPPoolManager PoolUtils IPPoolWebhook Workload PoolSelection GCScan AppUtils SubnetWebhook SubnetManager SubnetSync.
Local Open Scope Z_scope.
Local Open Scope go_scope.

(** ** Applications *)

Record PodTemplate := MkTemplate { HostNetwork : bool; tmpl_Annotations : gmap string string }.

(** The six kinds of applications, by what the controller reads of them. *)
Inductive application :=
  | AppDeployment (m : ObjectMeta) (replicas : option Z) (t : PodTemplate)
  | AppReplicaSet (m : ObjectMeta) (replicas : option Z) (t : PodTemplate)
  | AppStatefulSet (m : ObjectMeta) (replicas : option Z) (t : PodTemplate)
  | AppJob (m : ObjectMeta) (parallelism completions : option Z) (t : PodTemplate)
  | AppCronJob (m : ObjectMeta) (parallelism completions : option Z) (t : PodTemplate)
  | AppDaemonSet (m : ObjectMeta) (desiredNumberScheduled : Z) (t : PodTemplate).

Definition app_meta (a : application) : ObjectMeta :=
  match a with
  | AppDeployment m _ _ | AppReplicaSet m _ _ | AppStatefulSet m _ _ | AppJob m _ _ _ | AppCronJob m _ _ _ | AppDaemonSet m _ _ => m
  end.
Definition app_template (a : application) : PodTemplate :=
  match a with
  | AppDeployment _ _ t | AppReplicaSet _ _ t | AppStatefulSet _ _ t | AppJob _ _ _ t | AppCronJob _ _ _ t | AppDaemonSet _ _ t => t
  end.
Definition app_kind (a : application) : string :=
  match a with
  | AppDeployment _ _ _ => KindDeployment
  | AppReplicaSet _ _ _ => KindReplicaSet
  | AppStatefulSet _ _ _ => KindStatefulSet
  | AppJob _ _ _ _ => KindJob
  | AppCronJob _ _ _ _ => KindCronJob
  | AppDaemonSet _ _ _ => KindDaemonSet
  end.

(** The number of pods. *)
Definition app_replicas (a : application) : Z :=
  match a with
  | AppDeployment _ replicas _ | AppReplicaSet _ replicas _ | AppStatefulSet _ replicas _ => GetAppReplicas replicas
  | AppJob _ parallelism completions _ | AppCronJob _ parallelism completions _ => CalculateJobPodNum parallelism completions
  | AppDaemonSet _ desired _ => desired
  end.

(** The application is not the top controller of its pods. *)
Definition app_owned (a : application) : bool :=
  let by_ (version kind : string) :=
    match GetControllerOf (app_meta a) with
    | Some owner => (or_APIVersion owner == version) && (or_Kind owner == kind)
    | None => false
    end in
  match a with
  | AppReplicaSet _ _ _ => by_ AppsGroupVersion KindDeployment
  | AppJob _ _ _ _ => by_ BatchGroupVersion KindCronJob
  | _ => false
  end.

Record appWorkQueueKey := MkAppKey { ak_MetaNamespaceKey : string; AppKind : string; AppUID : string }.
#[export] Instance appWorkQueueKey_eq_dec : EqDecision appWorkQueueKey.
Proof. solve_decision. Defined.
#[export] Instance appWorkQueueKey_countable : Countable appWorkQueueKey.
Proof.
  by refine (inj_countable' (λ k, (ak_MetaNamespaceKey k, AppKind k, AppUID k)) (λ '(m, k, u), MkAppKey m k u) _); intros [].
Defined.

Record SubnetAppControllerConfig := MkAppControllerConfig {
  ac_EnableIPv4 : bool;
  ac_EnableIPv6 : bool;
  ac_MaxWorkqueueLength : Z;
  ac_WorkQueueMaxRetries : Z;
  ac_WorkQueueRequeueDelayDuration : Z
}.

(** ** Events *)

Section events.
Context (config : SubnetAppControllerConfig).
(** The arguments of [GetSubnetAnnoConfig]. *)
Context (json_items : string → option (list AnnoSubnetItem)) (json_item : string → option (option AnnoSubnetItem)) (redundant : Z).
(** [reflect.DeepEqual] of two configurations: it tells nil from empty slices, which are the same
    here. *)
Context (deep_equal : PodSubnetAnnoConfig → PodSubnetAnnoConfig → bool).

Definition subnet_config (a : application) : outcome (option PodSubnetAnnoConfig) :=
  GetSubnetAnnoConfig json_items json_item redundant (tmpl_Annotations (app_template a)).

Definition app_key (a : application) : appWorkQueueKey := MkAppKey (MetaNamespaceKey (app_meta a)) (app_kind a) (UID (app_meta a)).

Definition enqueueApp (a : application) : workqueue appWorkQueueKey → workqueue appWorkQueueKey :=
  enqueue (ac_MaxWorkqueueLength config) (app_key a).

Definition hasSubnetConfigChanged (oldSubnetConfig : option PodSubnetAnnoConfig) (newSubnetConfig : PodSubnetAnnoConfig)
    (oldAppReplicas newAppReplicas : Z) : bool :=
  match oldSubnetConfig with
  | None => true
  | Some oldSubnetConfig =>
      if deep_equal oldSubnetConfig newSubnetConfig then negb (oldAppReplicas =? newAppReplicas) else true
  end.

(** [newObj] is [None] for an object of another type; the type assertion on an old object of
    another kind panics. *)
Definition controllerAddOrUpdateHandler (oldObj newObj : option application) : cmd (workqueue appWorkQueueKey) unit :=
  match newObj with
  | None => lift (Fail (ErrOther "unrecognized application"))
  | Some new =>
      if HostNetwork (app_template new) then mret ()
      else if app_owned new then mret ()
      else
        newSubnetConfig ← lift (subnet_config new);
        match newSubnetConfig with
        | None => mret ()
        | Some newSubnetConfig =>
            '(oldSubnetConfig, oldAppReplicas) ←
              match oldObj with
              | None => mret (None, 0)
              | Some old =>
                  if app_kind old == app_kind new then oldSubnetConfig ← lift (subnet_config old); mret (oldSubnetConfig, app_replicas old)
                  else lift Panic
              end;
            if hasSubnetConfigChanged oldSubnetConfig newSubnetConfig oldAppReplicas (app_replicas new)
            then modify (enqueueApp new) else mret ()
        end
  end.
End events.

(** ** Synchronisation *)

Section sync.
Context `{MR : MapRange} `{J : JSON PoolIPAllocations} `{J' : JSON PoolIPPreAllocations} `{SCH : Schedule}.
Context {S : Type} `{KS : KubeStore S SpiderSubnet}.
Context (config : SubnetAppControllerConfig).
Context (json_items : string → option (list AnnoSubnetItem)) (json_item : string → option (option AnnoSubnetItem)) (redundant : Z).
(** The arguments of [ReconcileAutoIPPool]. *)
Context (rIPs : list SpiderReservedIP) (env : S → S) (create_pool update_pool : SpiderIPPool → cmd S SpiderIPPool).
(** [List] and [DeleteAllOf] of pools by labels. *)
Context (list_pools : gmap string string → S → outcome (list SpiderIPPool)) (DeleteAllOf : gmap string string → cmd S unit).
(** The application of a kind, namespace and name in the cache. *)
Context (lister : string → string → string → outcome application).

(** *** Reconciliation of one pool *)

Definition match_labels (subnetName : string) (podController : PodTopController) (ipVersion : Z) (ifName : string) : gmap string string :=
  let app := top_app podController in
  <[LabelIPPoolOwnerSpiderSubnet := subnetName]>
  (<[LabelIPPoolOwnerApplicationGV := ApplicationLabelGV (app_APIVersion app)]>
  (<[LabelIPPoolOwnerApplicationKind := app_Kind app]>
  (<[LabelIPPoolOwnerApplicationNamespace := app_Namespace app]>
  (<[LabelIPPoolOwnerApplicationName := app_Name app]>
  (<[LabelIPPoolIPVersion := AutoPoolIPVersionLabelValue ipVersion]>
  {[LabelIPPoolInterface := ifName]}))))).

(** The first pool that is not one of a former application and about to be reclaimed. *)
Definition reusable (uid : string) (pool : SpiderIPPool) : bool :=
  let labels := Labels (pool_meta pool) in
  negb ((default ""%string (labels !! LabelIPPoolReclaimIPPool) == "true"%string)
        && (default ""%string (labels !! LabelIPPoolOwnerApplicationUID) != uid)).
Fixpoint find_pool (uid : string) (pools : list SpiderIPPool) : option SpiderIPPool :=
  match pools with
  | [] => None
  | pool :: pools => if reusable uid pool then Some pool else find_pool uid pools
  end.

(** The number of addresses, and its text in the annotation. *)
Definition desired_number (c : PodSubnetAnnoConfig) (appReplicas : Z) : Z * string :=
  match FlexibleIPNum c with
  | Some n => (int64 (appReplicas + n), ("+" +:+ itoa n)%string)
  | None => (AssignIPNum c, itoa (AssignIPNum c))
  end.

Definition apply_one (c : PodSubnetAnnoConfig) (podController : PodTopController) (appReplicas : Z)
    (subnetName : string) (ipVersion : Z) (ifName : string) : cmd S unit :=
  pools ← read (list_pools (match_labels subnetName podController ipVersion ifName));
  let tmpPool := find_pool (top_UID podController) pools in
  let '(desiredIPNumber, annoPoolIPNumberVal) := desired_number c appReplicas in
  _ ← ReconcileAutoIPPool rIPs env create_pool update_pool tmpPool subnetName podController
        (MkAutoPoolProperty desiredIPNumber ipVersion (ReclaimIPPool c) ifName annoPoolIPNumberVal);
  mret ().

(** *** The two families, and the interfaces *)

(** Both goroutines run to their end; the errors are kept by family. *)
Fixpoint run_families (tasks : list (Z * cmd S unit)) (errs : option error * option error) : cmd S (option error * option error) :=
  match tasks with
  | [] => mret errs
  | (v, m) :: tasks => λ s,
      match m s with
      | (Ret _, s) => run_families tasks errs s
      | (Fail e, s) => run_families tasks (if v =? IPv4 then (Some e, errs.2) else (errs.1, Some e)) s
      | (Panic, s) => (Panic, s)
      | (OutOfFuel, s) => (OutOfFuel, s)
      end
  end.

(** The families that are enabled and have a subnet, with their first subnet. *)
Definition item_families (item : AnnoSubnetItem) : list (Z * string) :=
  let family (enabled : bool) (v : Z) (subnets : list string) :=
    match subnets with subnet :: _ => if enabled then [(v, subnet)] else [] | [] => [] end in
  family (ac_EnableIPv4 config) IPv4 (si_IPv4 item) ++ family (ac_EnableIPv6 config) IPv6 (si_IPv6 item).

Definition processNext (one : string → Z → string → cmd S unit) (item : AnnoSubnetItem) : cmd S unit :=
  errs ← run_families ((λ '(v, subnet), (v, one subnet v (si_Interface item))) <$> reorder (item_families item)) (None, None);
  match errs with
  | (None, None) => mret ()
  | (Some e, None) | (None, Some e) => lift (Fail e)
  | (Some errV4, Some errV6) => lift (Fail (ErrAppend errV4 errV6))
  end.

Fixpoint process_items (one : string → Z → string → cmd S unit) (items : list AnnoSubnetItem) : cmd S unit :=
  match items with
  | [] => mret ()
  | item :: items => _ ← processNext one item; process_items one items
  end.

Definition applyAutoIPPool (c : PodSubnetAnnoConfig) (podController : PodTopController) (appReplicas : Z) : cmd S unit :=
  let one := apply_one c podController appReplicas in
  match MultipleSubnets c, SingleSubnet c with
  | _ :: _, _ => process_items one (MultipleSubnets c)
  | [], Some item => processNext one item
  | [], None => lift (Fail ErrWrongInput)
  end.

(** *** Deletion *)

Definition deleteAutoPools (appUID : string) : cmd S unit := λ s,
  match DeleteAllOf (reclaim_labels appUID) s with
  | (Fail e, s) => ((if not_found e then Ret () else Fail e), s)
  | r => r
  end.

(** On an error, the key of the application is put into the queue. *)
Definition controllerDeleteHandler (obj : option application) : cmd (S * workqueue appWorkQueueKey) unit := λ w,
  match obj with
  | None => (Fail ErrWrongInput, w)
  | Some app =>
      if bool_decide (is_Some (GetControllerOf (app_meta app))) then (Ret (), w)
      else
        let '(r, s) := deleteAutoPools (UID (app_meta app)) w.1 in
        match r with
        | Ret _ => (Ret (), (s, w.2))
        | Fail _ => (Ret (), (s, enqueueApp config app w.2))
        | Panic => (Panic, (s, w.2))
        | OutOfFuel => (OutOfFuel, (s, w.2))
        end
  end.

(** *** The handlers of the informers *)

(** An error is logged. *)
Definition logged {W} (m : cmd W unit) : cmd W unit := λ w, match m w with (Fail _, w) => (Ret (), w) | r => r end.
Definition onAdd deep_equal (obj : option application) : cmd (workqueue appWorkQueueKey) unit :=
  logged (controllerAddOrUpdateHandler config json_items json_item redundant deep_equal None obj).
Definition onUpdate deep_equal (oldObj newObj : option application) : cmd (workqueue appWorkQueueKey) unit :=
  logged (controllerAddOrUpdateHandler config json_items json_item redundant deep_equal oldObj newObj).
Definition onDelete (obj : option application) : cmd (S * workqueue appWorkQueueKey) unit := logged (controllerDeleteHandler obj).

(** *** The worker *)

Definition AppKinds : list string := [KindDeployment; KindReplicaSet; KindDaemonSet; KindStatefulSet; KindJob; KindCronJob].
Definition app_version (kind : string) : string :=
  if bool_decide (kind ∈ [KindJob; KindCronJob]) then BatchGroupVersion else AppsGroupVersion.

(** An application that is gone has its pools deleted; [*subnetConfig] panics on nil. *)
Definition syncHandler (appKey : appWorkQueueKey) : cmd S unit :=
  '(namespace, name) ← lift (in_field (λ _, ErrWrongInput) (SplitMetaNamespaceKey (ak_MetaNamespaceKey appKey)));
  if negb (bool_decide (AppKind appKey ∈ AppKinds)) then lift (Fail ErrWrongInput)
  else
    match lister (AppKind appKey) namespace name with
    | Fail e => if not_found e then deleteAutoPools (AppUID appKey) else lift (Fail e)
    | Panic => lift Panic
    | OutOfFuel => lift OutOfFuel
    | Ret app =>
        subnetConfig ← lift (in_field (λ _, ErrWrongInput) (subnet_config json_items json_item redundant app));
        subnetConfig ← lift (deref subnetConfig);
        applyAutoIPPool subnetConfig
          (MkTopController (MkApp (app_version (AppKind appKey)) (AppKind appKey) (Namespace (app_meta app)) (Name (app_meta app)))
             (UID (app_meta app)))
          (app_replicas app)
    end.

(** The errors after which the key is rate limited. *)
Definition app_limited (e : error) : bool := conflict e || already_exists e || Is e ErrFreeIPsNotEnough.

Definition processNextWorkItem (queue_env : workqueue appWorkQueueKey → workqueue appWorkQueueKey) (now bucket : Z)
    : S * workqueue appWorkQueueKey → option (outcome bool * (S * workqueue appWorkQueueKey)) :=
  work queue_env (λ key s,
    let '(r, s) := syncHandler key s in
    (settle (ac_WorkQueueRequeueDelayDuration config) (ac_WorkQueueMaxRetries config) app_limited now bucket key r, s)).
End sync.

(** ** Facts *)

(** The interfaces of a configuration. *)
Definition config_items (c : PodSubnetAnnoConfig) : list AnnoSubnetItem :=
  match MultipleSubnets c with [] => option_list (SingleSubnet c) | l => l end.

Section facts.
Context `{MR : MapRange} `{J : JSON PoolIPAllocations} `{J' : JSON PoolIPPreAllocations} `{JL' : !JSONLaws PoolIPPreAllocations} `{SCH : Schedule}.
Context {S : Type} `{KS : KubeStore S SpiderSubnet} `{KL : !KubeStoreLaws S SpiderSubnet}.
Context (config : SubnetAppControllerConfig).
Context (rIPs : list SpiderReservedIP) (env : S → S) (create_pool update_pool : SpiderIPPool → cmd S SpiderIPPool).
Context (list_pools : gmap string string → S → outcome (list SpiderIPPool)).
Context (c : PodSubnetAnnoConfig) (podController : PodTopController) (appReplicas : Z).

Definition wanted (v : Z) (subnetName ifName : string) : Prop :=
  ∃ item, item ∈ config_items c ∧ (v, subnetName) ∈ item_families config item ∧ si_Interface item = ifName.
(** The subnets are of the families they are given for. *)
Definition right_families : S → Prop := specs_hold (λ k spec, ∀ v i, wanted v k i → ss_IPVersion spec = Some v).

(** Other clients keep the records and the specs of subnets; writes of pools do not touch subnets. *)
Context (env_later : ∀ st, valid st → later st (env st)) (env_ok : ∀ st, subnets_ok st → subnets_ok (env st)).
Context (env_families : ∀ st, right_families st → right_families (env st)).
Context (create_view : ∀ p st, later st (create_pool p st).2 ∧ view (create_pool p st).2 = view st).
Context (update_view : ∀ p st, later st (update_pool p st).2 ∧ view (update_pool p st).2 = view st).
Context (create_answer : ∀ p st q st', create_pool p st = (Ret q, st') → answered p q).
Context (update_answer : ∀ p st q st', update_pool p st = (Ret q, st') → answered p q).
Context (reserved_ok : ∀ v, good_reserved rIPs v).

Definition auto_property (v : Z) (ifName : string) : AutoPoolProperty :=
  MkAutoPoolProperty (desired_number c appReplicas).1 v (ReclaimIPPool c) ifName (desired_number c appReplicas).2.
Definition found_pool (st : S) (v : Z) (subnetName ifName : string) (p : SpiderIPPool) : Prop :=
  ∃ l, list_pools (match_labels subnetName podController v ifName) st = Ret l ∧ find_pool (top_UID podController) l = Some p.

(** One interface and family, as the code reconciles it. *)
Local Abbreviation one := (apply_one rIPs env create_pool update_pool list_pools c podController appReplicas).
(** The states that reconciliations reach. *)
Definition reaches : S → S → Prop := rtc (λ st st', ∃ v k i, wanted v k i ∧ (one k v i st).2 = st').
(** The pools that are reused fit what the subnets record. *)
Definition pools_fit (st : S) : Prop :=
  ∀ st1 v subnetName ifName p, reaches st st1 → wanted v subnetName ifName → found_pool st1 v subnetName ifName p → given_fits st1 subnetName (auto_property v ifName) p.

(** A reconciliation that ended well: a pool with the desired addresses was found as it is, or they
    are recorded for it now. *)
Definition served (st st' : S) (v : Z) (subnetName ifName : string) : Prop :=
  one subnetName v ifName st = (Ret (), st') ∧
  ∃ p, Forall (good_range v) (ps_IPs (pool_spec p)) ∧
    Z.of_nat (length (ranges_ips (ps_IPs (pool_spec p)))) = (desired_number c appReplicas).1 ∧
    (found_pool st v subnetName ifName p ∨ recorded_for st' subnetName (Name (pool_meta p)) (ps_IPs (pool_spec p))).
(** Reconciliations one after the other, without anything between them. *)
Inductive chain : list (Z * string * string) → S → S → Prop :=
  | chain_nil st : chain [] st st
  | chain_cons v k i ts st st1 st' : served st st1 v k i → chain ts st1 st' → chain ((v, k, i) :: ts) st st'.
Lemma chain_app ts ts' st st1 st' : chain ts st st1 → chain ts' st1 st' → chain (ts ++ ts') st st'.
Proof. induction 1; [done|]. intros. by econstructor; eauto. Qed.

Definition apps_ok (st : S) : Prop := valid st ∧ subnets_ok st ∧ right_families st ∧ pools_fit st.

Lemma pools_fit_next st v k i : wanted v k i → pools_fit st → pools_fit (one k v i st).2.
Proof. intros Hw H st1 v1 k1 i1 p Hr. apply H. eapply rtc_l; [|exact Hr]. eauto. Qed.

Lemma apply_one_spec st v k i r st' : apps_ok st → wanted v k i → one k v i st = (r, st') → apps_ok st' ∧ (r = Ret () → served st st' v k i).
Proof.
  intros Hok Hw E0. pose proof Hok as (Hv & Hs & Hf & Hp). pose proof (pools_fit_next st v k i Hw Hp) as Hp'. rewrite E0 in Hp'. cbn in Hp'.
  pose proof E0 as E1. unfold apply_one, mbind at 1, cmd_bind at 1, read in E1.
  destruct (list_pools (match_labels k podController v i) st) as [l|e| |] eqn:El; [|by injection E1 as <- <-..].
  destruct (desired_number c appReplicas) as [desired anno] eqn:Ed. unfold mbind, cmd_bind in E1. revert E1.
  match goal with |- context [ReconcileAutoIPPool _ _ _ _ ?pool _ _ ?prop st] => set (found := pool); set (pr := prop) end.
  destruct (ReconcileAutoIPPool _ _ _ _ found k podController pr st) as [o st1] eqn:E.
  assert (pr = auto_property v i) as Epr by (unfold auto_property; by rewrite Ed).
  assert (right_families st1) as Hf1 by (by eapply Reconcile_specs in E).
  apply Reconcile_spec in E as (Hl1 & Hs1 & Hr); [|done..|apply reserved_ok| |].
  2:{ intros s Hs'. exact (Hf k s Hs' v i Hw). }
  2:{ intros p Ep. rewrite Epr. apply (Hp st v k i p); [by apply rtc_refl|done|]. by exists l. }
  assert (valid st1) as Hv1 by by eapply later_valid.
  destruct o as [p|e| |]; intros [= <- <-]; (split; [by split_and!|]); try done. intros _. split; [done|].
  destruct (Hr p eq_refl) as (Hg & Hn & Hcase). rewrite Epr in Hg, Hn. unfold auto_property in Hn. rewrite Ed in Hn. rewrite Ed. exists p. split_and!; [done..|].
  destruct Hcase as [Hc|Hc]; [left; by exists l|by right].
Qed.

(** The families of one interface. *)
Lemma run_families_spec i tasks errs st r st' : apps_ok st → (∀ v k, (v, k) ∈ tasks → wanted v k i) →
  run_families ((λ '(v, k), (v, one k v i)) <$> tasks) errs st = (r, st') →
  apps_ok st' ∧ (r = Ret (None, None) → errs = (None, None) ∧ chain ((λ '(v, k), (v, k, i)) <$> tasks) st st').
Proof.
  revert errs st. induction tasks as [|[v k] tasks IH]; intros errs st Hok Hw; cbn [fmap list_fmap run_families].
  - intros [= <- <-]. split; [done|]. intros [= ->]. split; [done|constructor].
  - destruct (one k v i st) as [o st1] eqn:E.
    apply apply_one_spec in E as (Hok1 & Hr); [|done|apply Hw; by left].
    assert (∀ v k, (v, k) ∈ tasks → wanted v k i) as Hw' by (intros; apply Hw; by right).
    destruct o as [[]|e| |]; [| |by intros [= <- <-]..]; intros E; apply IH in E as (Hok' & Hr'); try done.
    + split; [done|]. intros Er. destruct (Hr' Er) as [He Hs]. split; [done|]. econstructor; [by apply Hr|done].
    + split; [done|]. intros Er. destruct (Hr' Er) as [He _]. by destruct (v =? IPv4).
Qed.

(** The tasks of an interface, in the order of the goroutines, and of all of them. *)
Definition item_tasks (item : AnnoSubnetItem) : list (Z * string * string) := (λ '(v, k), (v, k, si_Interface item)) <$> item_families config item.
Definition all_tasks : list (Z * string * string) := concat (item_tasks <$> config_items c).

Lemma processNext_spec st item r st' : apps_ok st → item ∈ config_items c → processNext config one item st = (r, st') →
  apps_ok st' ∧ (r = Ret () → ∃ ts, ts ≡ₚ item_tasks item ∧ chain ts st st').
Proof.
  intros Hok Hi. unfold processNext, mbind, cmd_bind.
  destruct (run_families _ _ st) as [o st1] eqn:E.
  apply run_families_spec in E as (Hok1 & Hr); [|done|].
  2:{ intros v k. rewrite reorder_perm. intros Hk. by exists item. }
  destruct o as [[[e4|] [e6|]]|e| |]; intros [= <- <-]; (split; [done|]); try done. intros _. destruct (Hr eq_refl) as [_ Hc].
  eexists. split; [|exact Hc]. unfold item_tasks. by rewrite reorder_perm.
Qed.

Lemma process_items_spec items st r st' : apps_ok st → (∀ item, item ∈ items → item ∈ config_items c) →
  process_items config one items st = (r, st') →
  apps_ok st' ∧ (r = Ret () → ∃ ts, ts ≡ₚ concat (item_tasks <$> items) ∧ chain ts st st').
Proof.
  revert st. induction items as [|item items IH]; intros st Hok Hin; cbn [process_items].
  - intros [= <- <-]. split; [done|]. intros _. exists []. split; [done|constructor].
  - unfold mbind, cmd_bind. destruct (processNext _ _ item st) as [o st1] eqn:E.
    apply processNext_spec in E as (Hok1 & Hr); [|done|apply Hin; by left].
    destruct o as [[]|e| |]; [|by intros [= <- <-]..]. intros E.
    apply IH in E as (Hok' & Hr'); [|done|intros; apply Hin; by right]. split; [done|].
    intros Er. destruct (Hr eq_refl) as (ts & P & C), (Hr' Er) as (ts' & P' & C'). exists (ts ++ ts').
    split; [cbn; by rewrite P, P'|by eapply chain_app].
Qed.

Lemma applyAutoIPPool_spec st r st' : apps_ok st →
  applyAutoIPPool config rIPs env create_pool update_pool list_pools c podController appReplicas st = (r, st') →
  apps_ok st' ∧ (r = Ret () → ∃ ts, ts ≡ₚ all_tasks ∧ chain ts st st').
Proof.
  intros Hok. unfold applyAutoIPPool.
  assert (∀ items r st', items = config_items c → process_items config one items st = (r, st') →
    apps_ok st' ∧ (r = Ret () → ∃ ts, ts ≡ₚ all_tasks ∧ chain ts st st')) as Hitems.
  { intros items r1 st1 -> E. by apply process_items_spec in E. }
  destruct (MultipleSubnets c) as [|x l] eqn:Em; [destruct (SingleSubnet c) as [item|] eqn:Es|].
  - intros E. apply (Hitems [item]); [unfold config_items; by rewrite Em, Es|]. cbn [process_items]. unfold mbind, cmd_bind. rewrite E.
    by destruct r as [[]|e| |].
  - intros [= <- <-]. done.
  - apply Hitems. unfold config_items. by rewrite Em.
Qed.
End facts.

(** ** Properties *)

Section properties.
Context `{MR : MapRange} `{J : JSON PoolIPAllocations} `{J' : JSON PoolIPPreAllocations} `{JL' : !JSONLaws PoolIPPreAllocations} `{SCH : Schedule}.
Context {S : Type} `{KS : KubeStore S SpiderSubnet} `{KL : !KubeStoreLaws S SpiderSubnet}.
Context (config : SubnetAppControllerConfig).
Context (json_items : string → option (list AnnoSubnetItem)) (json_item : string → option (option AnnoSubnetItem)) (redundant : Z).
Context (rIPs : list SpiderReservedIP) (env : S → S) (create_pool update_pool : SpiderIPPool → cmd S SpiderIPPool).
Context (list_pools : gmap string string → S → outcome (list SpiderIPPool)) (DeleteAllOf : gmap string string → cmd S unit).
Context (lister : string → string → string → outcome application).

(** The application as the controller of its pods. *)
Definition controller_of (kind : string) (app : application) : PodTopController :=
  MkTopController (MkApp (app_version kind) kind (Namespace (app_meta app)) (Name (app_meta app))) (UID (app_meta app)).

(** C20: synchronising an application that is there, in any order of the goroutines of the two
    families, whatever other clients do between the read and the write of a subnet so long as they
    keep the invariant and the versions of the subnets, and however it ends, keeps that no address is
    assigned to two pools of a subnet, when the pools that are found on the way fit what the subnets
    record ([pools_fit], without which [correction_takes_back] loses the invariant).  If it
    succeeds, the run is one reconciliation after the other, one for every interface and every
    enabled family with a subnet, and each of them found a pool with as many addresses as the
    annotation and the replicas ask for, or left the subnet with exactly so many recorded for the
    pool. *)
Theorem syncHandler_satisfies key ns name app c st r st' :
  let served_by := chain rIPs env create_pool update_pool list_pools c (controller_of (AppKind key) app) (app_replicas app) in
  (∀ st, valid st → later st (env st)) → (∀ st, subnets_ok st → subnets_ok (env st)) →
  (∀ st, right_families config c st → right_families config c (env st)) →
  (∀ p st, later st (create_pool p st).2 ∧ view (create_pool p st).2 = view st) →
  (∀ p st, later st (update_pool p st).2 ∧ view (update_pool p st).2 = view st) →
  (∀ p st q st', create_pool p st = (Ret q, st') → answered p q) → (∀ p st q st', update_pool p st = (Ret q, st') → answered p q) →
  (∀ v, good_reserved rIPs v) →
  SplitMetaNamespaceKey (ak_MetaNamespaceKey key) = Ret (ns, name) → AppKind key ∈ AppKinds →
  lister (AppKind key) ns name = Ret app → subnet_config json_items json_item redundant app = Ret (Some c) →
  valid st → subnets_ok st → right_families config c st →
  pools_fit config rIPs env create_pool update_pool list_pools c (controller_of (AppKind key) app) (app_replicas app) st →
  syncHandler config json_items json_item redundant rIPs env create_pool update_pool list_pools DeleteAllOf lister key st = (r, st') →
  subnets_ok st' ∧ (r = Ret () → ∃ ts, ts ≡ₚ all_tasks config c ∧ served_by ts st st').
Proof.
  intros served_by ? ? ? ? ? ? ? ? Hk Hkind Hl Hc Hv Hs Hf Hp. unfold syncHandler. rewrite Hk. cbn [in_field]. unfold mbind at 1, cmd_bind at 1, lift at 1.
  rewrite bool_decide_true by done. cbn [negb]. rewrite Hl, Hc. cbn [in_field]. unfold mbind, cmd_bind, lift. cbn [deref].
  intros E. by apply applyAutoIPPool_spec in E as ((_ & ? & _) & ?).
Qed.

(** An application whose subnet annotation was removed after its key was put into the queue: the
    configuration is nil, dereferencing it panics, and so does the worker. *)
Theorem annotation_removed_panics queue_env now bucket key ns name app (s : S) q q' :
  SplitMetaNamespaceKey (ak_MetaNamespaceKey key) = Ret (ns, name) → AppKind key ∈ AppKinds →
  lister (AppKind key) ns name = Ret app → subnet_config json_items json_item redundant app = Ret None →
  Get q = Some (Some key, q') →
  processNextWorkItem config json_items json_item redundant rIPs env create_pool update_pool list_pools DeleteAllOf lister queue_env now bucket (s, q)
  = Some (Panic, (s, Done key (queue_env q'))).
Proof.
  intros Hk Hkind Hl Hc Hg. unfold processNextWorkItem, work. cbn [fst snd]. rewrite Hg. unfold syncHandler. rewrite Hk. cbn [in_field].
  unfold mbind at 1, cmd_bind at 1, lift at 1. rewrite bool_decide_true by done. cbn [negb]. by rewrite Hl, Hc.
Qed.

End properties.

Section event_properties.
Context (config : SubnetAppControllerConfig).
Context (json_items : string → option (list AnnoSubnetItem)) (json_item : string → option (option AnnoSubnetItem)) (redundant : Z).

(** An event that changes the subnets or the number of pods of an application, or adds it, puts
    its key into the queue when that is not full, for each of the six kinds of applications, so that
    it will be synchronised; the event does nothing else to the queue. *)
Theorem app_event_enqueued deep_equal old new c q r q' :
  (∀ a b, deep_equal a b = true → a = b) →
  HostNetwork (app_template new) = false → app_owned new = false →
  subnet_config json_items json_item redundant new = Ret (Some c) →
  (∀ o, old = Some o → app_kind o = app_kind new ∧ ∃ oc, subnet_config json_items json_item redundant o = Ret oc ∧
     (oc ≠ Some c ∨ app_replicas o ≠ app_replicas new)) →
  Len q < ac_MaxWorkqueueLength config → shuttingDown q = false →
  controllerAddOrUpdateHandler config json_items json_item redundant deep_equal old (Some new) q = (r, q') →
  r = Ret () ∧ app_key new ∈ dirty q' ∧ queue_step None q q'.
Proof.
  intros Hde Hh Ho Hc Hold Hlen Hsd. unfold controllerAddOrUpdateHandler. rewrite Hh, Ho. unfold mbind at 1, cmd_bind at 1, lift at 1. rewrite Hc.
  assert (enqueueApp config new q = Add (app_key new) q) as He.
  { unfold enqueueApp, enqueue. destruct (Z.leb_spec (ac_MaxWorkqueueLength config) (Len q)); [lia|done]. }
  assert (∀ res, (modify (enqueueApp config new) q : outcome unit * _) = res → res = (r, q') → r = Ret () ∧ app_key new ∈ dirty q' ∧ queue_step None q q') as Hadd.
  { intros res <-. unfold modify. rewrite He. intros [= <- <-]. split_and!; [done| |apply step_add].
    unfold Add. rewrite Hsd. case_bool_decide; [done|]. cbn. set_solver. }
  destruct old as [o|].
  - destruct (Hold o eq_refl) as (Hk & oc & Hoc & Hch). unfold mbind, cmd_bind, lift. rewrite bool_decide_true by done. rewrite Hoc. cbn.
    assert (hasSubnetConfigChanged deep_equal oc c (app_replicas o) (app_replicas new) = true) as ->; [|by apply Hadd].
    destruct oc as [oc|]; [|done]. cbn. destruct (deep_equal oc c) eqn:Ed; [|done]. apply Hde in Ed as ->.
    destruct Hch as [Hch|Hch]; [done|]. by apply negb_true_iff, Z.eqb_neq.
  - unfold mbind, cmd_bind. cbn. by apply Hadd.
Qed.
End event_properties.

(** ** Witnesses *)

Definition ex_item : AnnoSubnetItem := MkSubnetItem "eth0" ["s1"%string] [].
Definition ex_anno : PodSubnetAnnoConfig := MkSubnetAnno [] (Some ex_item) (Some 1) 0 true.
Definition ex_json_items (s : string) : option (list AnnoSubnetItem) := None.
Definition ex_json_item (s : string) : option (option AnnoSubnetItem) := Some (Some ex_item).
Definition ex_deployment (replicas : Z) (anno : gmap string string) : application :=
  AppDeployment (plain_meta "default" "web" "uid-web") (Some replicas) (MkTemplate false anno).
Definition ex_web_app : application := ex_deployment 2 {[AnnoSpiderSubnet := "s1"%string]}.
Definition ex_lister (a : application) (kind ns name : string) : outcome application := Ret a.
Definition ex_app_config : SubnetAppControllerConfig := MkAppControllerConfig true true 10 5 0.
Definition ex_key : appWorkQueueKey := MkAppKey "default/web" KindDeployment "uid-web".
(** The pool of the application is there, with three addresses of the subnet. *)
Definition ex_list (labels : gmap string string) (s : mem_store SpiderSubnet) : outcome (list SpiderIPPool) := Ret [ex_auto].
Definition ex_delete_all (labels : gmap string string) : cmd (mem_store SpiderSubnet) unit := mret ().

Definition ex_synced : outcome unit * mem_store SpiderSubnet :=
  @syncHandler ordered_range ex_json countable_json in_order (mem_store SpiderSubnet) _ ex_app_config ex_json_items ex_json_item 1 [] id
    ex_write ex_write ex_list ex_delete_all (ex_lister ex_web_app) ex_key ex_stored.

Local Abbreviation ex_one := (apply_one (MR := ordered_range) (J := ex_json) (J' := countable_json) [] id ex_write ex_write ex_list ex_anno (controller_of KindDeployment ex_web_app) 2).
Lemma ex_wanted v k i : wanted ex_app_config ex_anno v k i → v = IPv4 ∧ k = "s1"%string ∧ i = "eth0"%string.
Proof.
  intros (item & Hi & Hf & <-). cbn in Hi. apply list_elem_of_singleton in Hi as ->. cbn in Hf. apply list_elem_of_singleton in Hf. by injection Hf as -> ->.
Qed.
Lemma ex_reaches st : reaches (MR := ordered_range) (J := ex_json) (J' := countable_json) ex_app_config [] id ex_write ex_write ex_list ex_anno (controller_of KindDeployment ex_web_app) 2 ex_stored st →
  st = ex_stored.
Proof.
  intros Hr. remember ex_stored as st0 eqn:E0. induction Hr as [|st0 st1 st2 (v & k & i & (-> & -> & ->)%ex_wanted & <-) _ IH]; [done|]. subst st0.
  apply IH. vm_compute. reflexivity.
Qed.

Lemma syncHandler_satisfies_witness :
  ex_synced.1 = Ret () ∧ @subnets_ok countable_json _ _ mem_subnets ex_synced.2 ∧
  ∃ ts, ts ≡ₚ [(IPv4, "s1"%string, "eth0"%string)] ∧
    chain (MR := ordered_range) (J := ex_json) (J' := countable_json) (KL := mem_subnets) [] id ex_write ex_write ex_list ex_anno (controller_of KindDeployment ex_web_app) 2 ts ex_stored ex_synced.2.
Proof.
  split; [vm_compute; reflexivity|].
  refine ((λ H, conj (proj1 H) (proj2 H _)) (@syncHandler_satisfies ordered_range ex_json countable_json countable_json_laws in_order _ _ mem_subnets ex_app_config
    ex_json_items ex_json_item 1 [] id ex_write ex_write ex_list ex_delete_all (ex_lister ex_web_app) ex_key "default" "web" ex_web_app ex_anno
    ex_stored ex_synced.1 ex_synced.2 _ _ _ _ _ _ _ _ _ _ _ _ _ _ _ _ _)); [vm_compute; reflexivity|..].
  - done.
  - done.
  - done.
  - done.
  - done.
  - apply ex_write_answer.
  - apply ex_write_answer.
  - intros v. constructor.
  - vm_compute. reflexivity.
  - apply (bool_decide_unpack _). vm_compute. exact I.
  - reflexivity.
  - vm_compute. reflexivity.
  - intros k o [-> ->]%ex_stored_lookup. split; [reflexivity|]. vm_compute. reflexivity.
  - intros k s [-> ->]%ex_stored_lookup. exists IPv4, ex_pre. apply ex_record.
  - intros k s [-> ->]%ex_stored_lookup v i (-> & _ & _)%ex_wanted. reflexivity.
  - intros st1 v k i p ->%ex_reaches (-> & -> & ->)%ex_wanted (l & [= <-] & Hfound) s table [_ ->]%ex_stored_lookup Ht.
    assert (p = ex_auto) as -> by (vm_compute in Hfound; vm_compute; injection Hfound as <-; reflexivity).
    destruct ex_record as (_ & Hd & _). rewrite Hd in Ht. injection Ht as <-. eexists. exact ex_fits.
  - apply surjective_pairing.
Defined.

Definition ex_queued : workqueue appWorkQueueKey := MkQueue [ex_key] {[ex_key]} ∅ ∅ ∅ false.

Lemma annotation_removed_panics_witness :
  queue (controllerAddOrUpdateHandler ex_app_config ex_json_items ex_json_item 1 (λ _ _, false) None (Some ex_web_app) new_queue).2 = queue ex_queued ∧
  @processNextWorkItem ordered_range ex_json countable_json in_order (mem_store SpiderSubnet) _ ex_app_config ex_json_items ex_json_item 1 [] id
    ex_write ex_write ex_list ex_delete_all (ex_lister (ex_deployment 2 ∅)) id 0 0 (ex_stored, ex_queued)
  = Some (Panic, (ex_stored, Done ex_key (MkQueue [] ({[ex_key]} ∖ {[ex_key]}) ({[ex_key]} ∪ ∅) ∅ ∅ false))).
Proof.
  split; [vm_compute; reflexivity|].
  refine (@annotation_removed_panics ordered_range ex_json countable_json in_order _ _ ex_app_config ex_json_items ex_json_item 1 [] id
    ex_write ex_write ex_list ex_delete_all (ex_lister (ex_deployment 2 ∅)) id 0 0 ex_key "default" "web" (ex_deployment 2 ∅) ex_stored ex_queued
    (MkQueue [] ({[ex_key]} ∖ {[ex_key]}) ({[ex_key]} ∪ ∅) ∅ ∅ false) _ _ _ _ _).
  - vm_compute. reflexivity.
  - apply (bool_decide_unpack _). vm_compute. exact I.
  - reflexivity.
  - vm_compute. reflexivity.
  - reflexivity.
Defined.

Lemma app_event_enqueued_witness :
  let h := controllerAddOrUpdateHandler ex_app_config ex_json_items ex_json_item 1 (λ _ _, false)
    (Some ex_web_app) (Some (ex_deployment 3 {[AnnoSpiderSubnet := "s1"%string]})) new_queue in
  h.1 = Ret () ∧ ex_key ∈ dirty h.2 ∧ queue_step None new_queue h.2.
Proof.
  cbv zeta. refine (app_event_enqueued ex_app_config ex_json_items ex_json_item 1 (λ _ _, false) (Some ex_web_app)
    (ex_deployment 3 {[AnnoSpiderSubnet := "s1"%string]}) ex_anno new_queue _ _ _ _ _ _ _ _ _ (surjective_pairing _)).
  - intros a b H. discriminate H.
  - reflexivity.
  - reflexivity.
  - vm_compute. reflexivity.
  - intros o [= <-]. split; [reflexivity|]. exists (Some ex_anno). split; [vm_compute; reflexivity|]. right. done.
  - done.
  - reflexivity.
Defined.
