(* ===== verification/NetPrefix.v ===== *)
(** * netip.Prefix and ParseIPOrCIDR (pkg/ip/ip.go)

    The coordinator objects hold addresses and prefixes as text and normalise them through
    [net/netip].  The parts of that package the code uses beyond NetIP.v: prefixes, their parser
    and their printer, and that parsing inverts printing. *)

From S2P Require Import Prelude NetIP NetIPFacts Convert Workload.
Local Open Scope Z_scope.
Local Open Scope go_scope.

(** ** Definitions *)

(** A [netip.Prefix]; its address has no zone. *)
Record Prefix := MkPrefix { pfx_addr : Addr; pfx_bits : Z }.
#[export] Instance Addr_eq_dec : EqDecision Addr.
Proof. solve_decision. Defined.
#[export] Instance Prefix_eq_dec : EqDecision Prefix.
Proof. solve_decision. Defined.

Definition Is4 (a : Addr) : bool := (length (addr_bytes a) =? 4)%nat.
Definition Is6 (a : Addr) : bool := (length (addr_bytes a) =? 16)%nat.
Definition BitLen (a : Addr) : Z := if Is6 a then 128 else 32.

(** [Addr.String] of an address without zone. *)
Definition addr_string (a : Addr) : string :=
  if Is4 a then string4 (addr_bytes a)
  else if take 12 (addr_bytes a) == v4InV6Prefix then "::ffff:" +:+ string4 (drop 12 (addr_bytes a))
  else string6 (addr_bytes a).

(** [PrefixFrom] of a length between 0 and the number of bits. *)
Definition PrefixFrom (a : Addr) (bits : Z) : Prefix := MkPrefix (MkAddr (addr_bytes a) "") bits.

Definition prefix_string (p : Prefix) : string := addr_string (pfx_addr p) +:+ "/" +:+ itoa (pfx_bits p).

(** A sign and leading zeros are refused. *)
Definition bits_start (s : string) : bool :=
  match s with
  | String c (String _ _) => match digit_val c with Some d => 0 <? d | None => false end
  | _ => true
  end.

Definition ParsePrefix (s : string) : option Prefix :=
  '(addr, bitsStr) ← cut_last "/" s;
  ip ← ParseAddr addr;
  if Is6 ip && (addr_zone ip != EmptyString) then None
  else if negb (bits_start bitsStr) then None
  else
    bits ← atoi bitsStr;
    if (bits <? 0) || (BitLen ip <? bits) then None else Some (PrefixFrom ip bits).

Definition ParseIPOrCIDR (s : string) : option Prefix :=
  if contains_char "/" s then ParsePrefix s
  else
    nAddr ← ParseAddr s;
    let prefix := if Is6 nAddr then 128 else 32 in
    Some (PrefixFrom nAddr prefix).

(** ** Printing and parsing *)

Definition wf_prefix_of (p : Prefix) : Prop :=
  wf_ip (addr_bytes (pfx_addr p)) ∧ addr_zone (pfx_addr p) = EmptyString ∧ 0 ≤ pfx_bits p ≤ BitLen (pfx_addr p).

Lemma scan_hex_dec_byte x s : is_byte x → ends_group s → ∃ n v, scan_hex (dec_byte x +:+ s) 0 0 = Some (S n, v, s).
Proof.
  intros Hx Hs. unfold is_byte in Hx. unfold dec_byte.
  pose proof (Z.mod_pos_bound x 10 ltac:(lia)). pose proof (Z.mod_pos_bound (x / 10) 10 ltac:(lia)).
  assert (0 ≤ x / 100 < 10) by (split; [apply Z.div_pos|apply Z.div_lt_upper_bound]; lia).
  destruct (Z.leb_spec 10 x), (Z.leb_spec 100 x); try lia; rewrite ?string_app_cons;
    do 2 eexists; rewrite !scan_hex_digit, scan_hex_end by (lia || done); reflexivity.
Qed.

Lemma parse6_mapped l : wf_bytes l → length l = 4%nat →
  parse6_body ("::ffff:" +:+ string4 l) = Some (v4InV6Prefix ++ l).
Proof.
  intros Hwf Hl. pose proof (parseIPv4_string4 l Hwf Hl) as Hp.
  change ("::ffff:" +:+ string4 l) with (String ":" (String ":" (hex_group 65535 +:+ String ":" (string4 l)))).
  rewrite parse6_body_colons. rewrite bool_decide_false by done. rewrite parse6_loop_group by done.
  destruct l as [|x1 [|x2 [|x3 [|x4 [|]]]]]; try done.
  assert (is_byte x1) as Hx by (by apply Forall_cons in Hwf as [? _]).
  rewrite string4_eq in *. set (s := dec_byte x2 +:+ _) in *.
  destruct (scan_hex_dec_byte x1 (String "." s) Hx eq_refl) as (n & v & Hscan).
  pose proof (dec_byte_chars x1 Hx) as Hc. destruct (dec_byte_cons x1) as (c & t & E).
  rewrite E in *. cbn [string_forall] in Hc. apply andb_true_iff in Hc as [Hc _].
  rewrite string_app_cons in *. rewrite bool_decide_false by (by apply (is_hex_not c)).
  cbn [parse6_loop]. rewrite Hscan. cbn [mbind option_bind]. rewrite Hp. reflexivity.
Qed.

Lemma mapped_family s : addr_family ("::ffff:" +:+ s) = Some false.
Proof. done. Qed.

Lemma ParseAddr_string a : wf_ip (addr_bytes a) → addr_zone a = EmptyString → ParseAddr (addr_string a) = Some a.
Proof.
  destruct a as [l z]. cbn [addr_bytes addr_zone]. intros [Hwf Hl] ->. unfold addr_string, ParseAddr, Is4. cbn [addr_bytes].
  destruct (Nat.eqb_spec (length l) 4) as [H4|H4].
  - rewrite (addr_family_sep "." _ true) by auto using string4_chars, string4_dot. by rewrite parseIPv4_string4.
  - destruct Hl as [?|H16]; [done|]. case_bool_decide as Hm.
    + assert (wf_bytes (drop 12 l)) by (by apply Forall_drop).
      assert (length (drop 12 l) = 4%nat) by (rewrite length_drop; lia).
      rewrite mapped_family. unfold parseIPv6. rewrite cut_none.
      * rewrite parse6_mapped by done. rewrite <- Hm, take_drop. done.
      * rewrite contains_char_app. cbn. apply (string_forall_contains (hex_or ".")); [by apply string4_chars|done].
    + assert (ip16 l) by done. rewrite (addr_family_sep ":" _ false) by auto using string6_chars, string6_colon.
      unfold parseIPv6. rewrite cut_none by (apply (string_forall_contains (hex_or ":")); [by apply string6_chars|done]).
      by rewrite parse6_body_string6.
Qed.

Lemma bits_of_itoa n : 0 ≤ n ≤ 128 → bits_start (itoa n) = true ∧ atoi (itoa n) = Some n ∧ string_forall (λ c, c != "/"%char) (itoa n) = true.
Proof.
  intros Hn. assert (∃ k, (k ≤ 128)%nat ∧ n = Z.of_nat k) as (k & Hk & ->) by (exists (Z.to_nat n); lia).
  assert (Forall (λ k, bits_start (itoa (Z.of_nat k)) = true ∧ atoi (itoa (Z.of_nat k)) = Some (Z.of_nat k) ∧
    string_forall (λ c, c != "/"%char) (itoa (Z.of_nat k)) = true) (seq 0 129)) as Hall.
  { apply (bool_decide_unpack _). vm_compute. exact I. }
  rewrite Forall_forall in Hall. apply Hall, elem_of_seq. lia.
Qed.

(** A prefix is read back as it was printed. *)
Lemma ParsePrefix_string p : wf_prefix_of p → ParsePrefix (prefix_string p) = Some p.
Proof.
  destruct p as [a bits]. intros (Hwf & Hz & Hb). cbn [pfx_addr pfx_bits] in *. unfold ParsePrefix, prefix_string. cbn [pfx_addr pfx_bits].
  assert (BitLen a ≤ 128) by (unfold BitLen; case_match; lia).
  destruct (bits_of_itoa bits ltac:(lia)) as (H1 & H2 & H3).
  change ("/" +:+ itoa bits) with (String "/" (itoa bits)). rewrite cut_last_app by done. cbn [mbind option_bind].
  rewrite ParseAddr_string by done. cbn [mbind option_bind]. rewrite Hz, bool_decide_true by done. cbn [negb]. rewrite andb_false_r, H1.
  cbn [negb]. rewrite H2. cbn [mbind option_bind]. rewrite (proj2 (Z.ltb_ge bits 0)), (proj2 (Z.ltb_ge (BitLen a) bits)) by lia.
  unfold PrefixFrom. cbn. destruct a as [l z]. cbn in *. by subst.
Qed.

Lemma ParsePrefix_wf s p : ParsePrefix s = Some p → wf_prefix_of p.
Proof.
  unfold ParsePrefix. intros ([addr bs] & _ & (ip & Hip%ParseAddr_wf & H)%bind_Some)%bind_Some.
  case_match; [done|]. case_match; [done|]. apply bind_Some in H as (bits & _ & H).
  case_match eqn:E; [done|]. injection H as <-. apply orb_false_iff in E as [?%Z.ltb_ge ?%Z.ltb_ge].
  split; [done|]. split; [done|]. cbn [pfx_bits pfx_addr PrefixFrom]. unfold BitLen, Is6 in *. cbn in *. lia.
Qed.

Lemma ParseIPOrCIDR_wf s p : ParseIPOrCIDR s = Some p → wf_prefix_of p.
Proof.
  unfold ParseIPOrCIDR. case_match; [by apply ParsePrefix_wf|]. intros (a & Ha%ParseAddr_wf & [= <-])%bind_Some.
  split; [done|]. split; [done|]. cbn [pfx_bits pfx_addr PrefixFrom]. unfold BitLen, Is6 in *. cbn. case_match; lia.
Qed.

Lemma prefix_string_slash p : contains_char "/" (prefix_string p) = true.
Proof. unfold prefix_string. rewrite !contains_char_app. cbn. by rewrite orb_true_r. Qed.

(** What was parsed and printed is parsed to the same prefix. *)
Lemma ParseIPOrCIDR_string s p : ParseIPOrCIDR s = Some p → ParseIPOrCIDR (prefix_string p) = Some p.
Proof. intros Hp%ParseIPOrCIDR_wf. unfold ParseIPOrCIDR. rewrite prefix_string_slash. by apply ParsePrefix_string. Qed.
