(* ===== verification/Coordinator.v ===== *)
(** * pkg/coordinatormanager: the admission webhook of SpiderCoordinator

    coordinator_mutate.go, coordinator_validate.go and coordinator_webhook.go.  A SpiderCoordinator
    says how the coordinator plugin sets up the routes, rules and MAC addresses of Pods.  The
    defaulting keeps what it has done when it ends in an error, because the webhook only logs the
    error: it is a command on the object. *)

From S2P Require Import Prelude NetIP NetIPFacts K8s Retry Convert IPPoolWebhook Selector NetPrefix.
Local Open Scope Z_scope.
Local Open Scope go_scope.

(** ** The objects (spidercoordinator_types.go) *)

Record CoordinatorSpec := MkCoordinatorSpec {
  cs_Mode : option string;
  cs_PodCIDRType : option string;
  cs_HijackCIDR : list string;
  cs_PolicyRoutes : list Route;
  cs_PodMACPrefix : option string;
  cs_TunePodRoutes : option bool;
  cs_PodDefaultRouteNIC : option string;
  cs_HostRuleTable : option Z;
  cs_PodRPFilter : option Z;
  cs_TxQueueLen : option Z;
  cs_VethLinkAddress : option string;
  cs_VethMTU : option Z
}.

(** The slices are compared with [reflect.DeepEqual]: [nil] and an empty slice differ. *)
Record CoordinatorStatus := MkCoordinatorStatus {
  Phase : string;
  Reason : string;
  OverlayPodCIDR : option (list string);
  ServiceCIDR : option (list string)
}.

Record SpiderCoordinator := MkCoordinator {
  coord_meta : ObjectMeta;
  coord_spec : CoordinatorSpec;
  coord_status : CoordinatorStatus
}.
#[export] Instance CoordinatorSpec_eq_dec : EqDecision CoordinatorSpec.
Proof. solve_decision. Defined.
#[export] Instance CoordinatorStatus_eq_dec : EqDecision CoordinatorStatus.
Proof. solve_decision. Defined.
#[export] Instance SpiderCoordinator_eq_dec : EqDecision SpiderCoordinator.
Proof. solve_decision. Defined.

Definition on_coord_spec (f : CoordinatorSpec → CoordinatorSpec) (c : SpiderCoordinator) : SpiderCoordinator :=
  MkCoordinator (coord_meta c) (f (coord_spec c)) (coord_status c).
Definition set_HijackCIDR (l : list string) (s : CoordinatorSpec) : CoordinatorSpec :=
  MkCoordinatorSpec (cs_Mode s) (cs_PodCIDRType s) l (cs_PolicyRoutes s) (cs_PodMACPrefix s) (cs_TunePodRoutes s)
    (cs_PodDefaultRouteNIC s) (cs_HostRuleTable s) (cs_PodRPFilter s) (cs_TxQueueLen s) (cs_VethLinkAddress s) (cs_VethMTU s).
Definition set_PolicyRoutes (l : list Route) (s : CoordinatorSpec) : CoordinatorSpec :=
  MkCoordinatorSpec (cs_Mode s) (cs_PodCIDRType s) (cs_HijackCIDR s) l (cs_PodMACPrefix s) (cs_TunePodRoutes s)
    (cs_PodDefaultRouteNIC s) (cs_HostRuleTable s) (cs_PodRPFilter s) (cs_TxQueueLen s) (cs_VethLinkAddress s) (cs_VethMTU s).

(** ** Loops that rewrite a slice in place

    [for i, x := range xs { ...; xs[i] = f(x) }]: what was rewritten before an error stays. *)
Fixpoint update_each {A} (f : A → outcome A) (xs : list A) : outcome unit * list A :=
  match xs with
  | [] => (Ret (), [])
  | x :: xs' =>
      match f x with
      | Ret y => let '(r, ys) := update_each f xs' in (r, y :: ys)
      | Fail e => (Fail e, xs)
      | Panic => (Panic, xs)
      | OutOfFuel => (OutOfFuel, xs)
      end
  end.

(** The same with the index, for errors that name it; nothing is kept after an error. *)
Fixpoint map_indexed {A B} (f : Z → A → outcome B) (i : Z) (xs : list A) : outcome (list B) :=
  match xs with
  | [] => Ret []
  | x :: xs => y ← f i x; ys ← map_indexed f (i + 1) xs; Ret (y :: ys)
  end.

Lemma update_each_Ret {A} (f : A → outcome A) xs ys :
  update_each f xs = (Ret (), ys) ↔ Forall2 (λ x y, f x = Ret y) xs ys.
Proof.
  revert ys. induction xs as [|x xs IH]; intros ys; cbn [update_each].
  - split; [intros [= <-]; constructor|]. by intros ->%Forall2_nil_inv_l.
  - destruct (f x) as [y| | |] eqn:E; destruct (update_each f xs) as [r l] eqn:El; split; intros H; try done;
      try (apply Forall2_cons_inv_l in H as (y' & ys' & Hy & Hall & ->)).
    + injection H as -> <-. constructor; [done|]. by apply IH.
    + apply IH in Hall. congruence.
    + congruence.
    + congruence.
    + congruence.
Qed.

Lemma map_indexed_Ret {A B} (f : Z → A → outcome B) i xs ys :
  map_indexed f i xs = Ret ys → Forall2 (λ x y, ∃ j, f j x = Ret y) xs ys.
Proof.
  revert i ys. induction xs as [|x xs IH]; intros i ys; cbn [map_indexed]; intros H; inv_ret; [constructor|].
  constructor; eauto.
Qed.

(** ** coordinator_mutate.go *)

Definition ModeAuto : string := "auto".

(** [if p == nil { p = ptr.To(v) }] *)
Definition or_default {A} (v : A) (p : option A) : option A := Some (default v p).

Definition default_spec (s : CoordinatorSpec) : CoordinatorSpec :=
  MkCoordinatorSpec (or_default ModeAuto (cs_Mode s)) (cs_PodCIDRType s) (cs_HijackCIDR s) (cs_PolicyRoutes s) (cs_PodMACPrefix s)
    (or_default true (cs_TunePodRoutes s)) (cs_PodDefaultRouteNIC s) (or_default 500 (cs_HostRuleTable s))
    (or_default 0 (cs_PodRPFilter s)) (or_default 0 (cs_TxQueueLen s)) (or_default ""%string (cs_VethLinkAddress s))
    (or_default 1500 (cs_VethMTU s)).

Definition mutate_cidr (cidr : string) : outcome string :=
  if negb (contains_char "/" cidr) then
    match ParseAddr cidr with
    | None => Fail (ErrOther "invalid IP address")
    | Some nAddr =>
        if Is4 nAddr then Ret (cidr +:+ "/" +:+ itoa 32)
        else if Is6 nAddr then Ret (cidr +:+ "/" +:+ itoa 128)
        else Ret cidr
    end
  else Ret cidr.

Definition mutate_route (route : Route) : outcome Route :=
  match ParseIPOrCIDR (Dst route) with
  | Some nPrefix => Ret (MkRoute (prefix_string nPrefix) (Gw route))
  | None => Fail (ErrOther "invalid route dst")
  end.

Definition mutateCoordinator : cmd SpiderCoordinator unit :=
  _ ← modify (on_coord_spec default_spec);
  coord ← read Ret;
  if DeletionTimestamp (coord_meta coord) != None then mret ()
  else if cs_PodCIDRType (coord_spec coord) == None then lift (Fail (ErrOther "PodCIDRType is not allowed to be empty"))
  else
    _ ← (λ c, let '(r, l) := update_each mutate_cidr (cs_HijackCIDR (coord_spec c)) in (r, on_coord_spec (set_HijackCIDR l) c));
    _ ← (λ c, let '(r, l) := update_each mutate_route (cs_PolicyRoutes (coord_spec c)) in (r, on_coord_spec (set_PolicyRoutes l) c));
    modify (λ c, MkCoordinator (AddFinalizer (coord_meta c) SpiderFinalizer) (coord_spec c) (coord_status c)).

(** The error is only logged. *)
Definition Default (coord : SpiderCoordinator) : SpiderCoordinator := (mutateCoordinator coord).2.

(** ** coordinator_validate.go *)

Definition podCIDRTypeField : string := "spec.podCIDRType".
Definition extraCIDRField : string := "spec.extraCIDR".
Definition podMACPrefixField : string := "spec.podMACPrefix".
Definition podRPFilterField : string := "spec.podRPFilter".
Definition policyRoutesField : string := "spec.policyRoutes".
Definition txQueueLenField : string := "spec.txQueueLen".
Definition vethLinkAddressField : string := "spec.vethLinkAddress".
Definition vethMTUField : string := "spec.vethMTU".

Definition auto : string := "auto".
Definition cluster : string := "cluster".
Definition calico : string := "calico".
Definition cilium : string := "cilium".
Definition flannel : string := "flannel".
Definition none : string := "none".
Definition SupportedPodCIDRType : list string := [auto; cluster; calico; cilium; none].

Definition validateCoordinatorPodCIDRType (t : string) : outcome unit :=
  check (bool_decide (t ∈ SupportedPodCIDRType)) (FieldNotSupported podCIDRTypeField).

Definition validateCoordinatorExtraCIDR (cidrs : list string) : outcome (list string) :=
  map_indexed (λ i cidr,
    match ParseIPOrCIDR cidr with
    | Some nPrefix => Ret (prefix_string nPrefix)
    | None => Fail (FieldInvalid (indexed extraCIDRField i))
    end) 0 cidrs.

Definition validateCoordinatorPolicyRoutes (routes : list Route) : outcome (list Route) :=
  map_indexed (λ i route,
    match ParseIPOrCIDR (Dst route) with
    | None => Fail (FieldInvalid (indexed policyRoutesField i +:+ ".dst"))
    | Some nPrefix =>
        match ParseAddr (Gw route) with
        | None => Fail (FieldInvalid (indexed policyRoutesField i +:+ ".gw"))
        | Some gw =>
            if bool_decide (Is4 (pfx_addr nPrefix) = Is4 gw) then Ret (MkRoute (prefix_string nPrefix) (Gw route))
            else Fail (FieldInvalid (indexed policyRoutesField i))
        end
    end) 0 routes.

(** [strconv.ParseInt(s, 16, 0)] *)
Fixpoint hex_digits (s : string) (n : Z) : option Z :=
  match s with
  | EmptyString => Some n
  | String c s => d ← hex_val c; hex_digits s (n * 16 + d)
  end.
Definition ParseInt16 (s : string) : option Z :=
  let '(neg, body) :=
    match s with
    | String c s' => if c == "-"%char then (true, s') else if c == "+"%char then (false, s') else (false, s)
    | EmptyString => (false, s)
    end in
  if body == EmptyString then None
  else n ← hex_digits body 0;
       let z := if neg : bool then - n else n in
       if bool_decide (- 2 ^ 63 ≤ z < 2 ^ 63) then Some z else None.

(** [fmt.Sprintf("%08b", n)]: binary digits, padded with zeros after the sign to a width of 8. *)
Fixpoint binary_digits (fuel : nat) (n : Z) (s : string) : string :=
  match fuel with
  | O => s
  | S fuel =>
      let s := String (if Z.odd n then "1" else "0")%char s in
      if n <? 2 then s else binary_digits fuel (n / 2) s
  end.
Fixpoint pad_zeros (k : nat) (s : string) : string :=
  match k with O => s | S k => String "0" (pad_zeros k s) end.
Definition sprintf_08b (n : Z) : string :=
  let digits := binary_digits 64 (Z.abs n) "" in
  if n <? 0 then String "-" (pad_zeros (7 - String.length digits) digits) else pad_zeros (8 - String.length digits) digits.

Definition validateCoordinatorPodMACPrefix (prefix : option string) : outcome unit :=
  match prefix with
  | None => Ret ()
  | Some prefix =>
      if prefix == EmptyString then Ret ()
      else
        let errInvalid := FieldInvalid podMACPrefixField in
        match split ":" prefix with
        | [p0; p1] =>
            if negb (String.length p0 =? 2)%nat || negb (String.length p1 =? 2)%nat then Fail errInvalid
            else
              match ParseInt16 p0 with
              | None => Fail errInvalid
              | Some fb =>
                  match ParseInt16 p1 with
                  | None => Fail errInvalid
                  | Some _ =>
                      match String.get 7 (sprintf_08b fb) with
                      | None => Panic
                      | Some c => check (c == "0"%char) errInvalid
                      end
                  end
              end
        | _ => Fail errInvalid
        end
  end.

Definition validateCoordinatorPodRPFilter (f : Z) : outcome unit :=
  if 0 <=? f then check (bool_decide (f ∈ [0; 1; 2])) (FieldNotSupported podRPFilterField) else Ret ().

(** The result is the (copied) spec with its prefixes normalised. *)
Definition ValidateCoordinatorSpec (spec : CoordinatorSpec) (requireOptionalType : bool) : outcome CoordinatorSpec :=
  _ ← check (negb (requireOptionalType && (cs_PodCIDRType spec == None))) (FieldNotSupported podCIDRTypeField);
  _ ← match cs_PodCIDRType spec with Some t => validateCoordinatorPodCIDRType t | None => Ret () end;
  cidrs ← validateCoordinatorExtraCIDR (cs_HijackCIDR spec);
  routes ← validateCoordinatorPolicyRoutes (cs_PolicyRoutes spec);
  _ ← validateCoordinatorPodMACPrefix (cs_PodMACPrefix spec);
  _ ← match cs_TxQueueLen spec with Some n => check (negb (n <? 0)) (FieldInvalid txQueueLenField) | None => Ret () end;
  _ ← check (negb (requireOptionalType && (cs_PodRPFilter spec == None))) (FieldNotSupported podRPFilterField);
  _ ← match cs_PodRPFilter spec with Some f => validateCoordinatorPodRPFilter f | None => Ret () end;
  _ ← match cs_VethLinkAddress spec with
      | Some a => if a != EmptyString then check (bool_decide (is_Some (ParseAddr a))) (FieldInvalid vethLinkAddressField) else Ret ()
      | None => Ret ()
      end;
  _ ← match cs_VethMTU spec with Some n => check (negb (n <=? 0)) (FieldInvalid vethMTUField) | None => Ret () end;
  Ret (set_PolicyRoutes routes (set_HijackCIDR cidrs spec)).

(** The list of errors, empty when the object is admitted. *)
Definition spec_errors (o : outcome CoordinatorSpec) : outcome (list error) :=
  match o with Ret _ => Ret [] | Fail e => Ret [e] | Panic => Panic | OutOfFuel => OutOfFuel end.
Definition validateCreateCoordinator (coord : SpiderCoordinator) : outcome (list error) :=
  spec_errors (ValidateCoordinatorSpec (coord_spec coord) true).
Definition validateUpdateCoordinator (oldCoord newCoord : SpiderCoordinator) : outcome (list error) :=
  spec_errors (ValidateCoordinatorSpec (coord_spec newCoord) true).

Definition ValidateCreate (coord : SpiderCoordinator) : outcome unit :=
  errs ← validateCreateCoordinator coord; check (errs == []) APIInvalid.
Definition ValidateUpdate (oldCoord newCoord : SpiderCoordinator) : outcome unit :=
  errs ← validateUpdateCoordinator oldCoord newCoord; check (errs == []) APIInvalid.
Definition ValidateDelete (coord : SpiderCoordinator) : outcome unit := Ret ().

(** ** What is admitted *)

(** In-place loops that stop early leave the element they stopped at. *)
Lemma update_each_cases {A} (f : A → outcome A) xs r ys :
  update_each f xs = (r, ys) → (r = Ret () ∧ Forall2 (λ x y, f x = Ret y) xs ys) ∨ ∃ x, x ∈ ys ∧ is_ret (f x) = false.
Proof.
  intros E. assert (r = Ret () ∨ r ≠ Ret ()) as [->|Hr] by (destruct r as [[]| | |]; auto); [left; by rewrite <- update_each_Ret|right].
  revert r ys E Hr. induction xs as [|x xs IH]; intros r ys; cbn [update_each]; [by intros [= <- <-]|].
  destruct (f x) as [y| | |] eqn:Ef; [|by intros [= <- <-] _; exists x; rewrite Ef; split; [left|]..].
  destruct (update_each f xs) as [r' l]. intros [= <- <-] Hr. destruct (IH _ _ eq_refl Hr) as (z & ? & ?). exists z. split; [by right|done].
Qed.

(** A loop whose function leaves the elements alone leaves the slice alone. *)
Lemma update_each_id {A} (f : A → outcome A) xs : Forall (λ x, f x = Ret x) xs → update_each f xs = (Ret (), xs).
Proof. intros Hf. apply update_each_Ret. by induction Hf; constructor. Qed.

(** The first byte of an admitted prefix is the number written, and it is even. *)
Definition mac_prefix_ok (prefix : string) : Prop :=
  ∃ p0 p1 fb sb, split ":" prefix = [p0; p1] ∧ String.length p0 = 2%nat ∧ String.length p1 = 2%nat ∧
    ParseInt16 p0 = Some fb ∧ ParseInt16 p1 = Some sb ∧ Z.even fb = true.

Lemma hex_digits_bound s n z : 0 ≤ n → hex_digits s n = Some z → 0 ≤ z < (n + 1) * 16 ^ Z.of_nat (String.length s).
Proof.
  revert n. induction s as [|c s IH]; intros n Hn; cbn [hex_digits String.length]; [intros [= <-]; lia|].
  intros (d & Hd%hex_val_bound & Hz%IH)%bind_Some; [|lia]. rewrite Nat2Z.inj_succ, Z.pow_succ_r by lia.
  assert (0 < 16 ^ Z.of_nat (String.length s)) by (apply Z.pow_pos_nonneg; lia). nia.
Qed.

Lemma ParseInt16_bound s z : String.length s = 2%nat → ParseInt16 s = Some z → -16 < z < 256.
Proof.
  intros Hl. unfold ParseInt16.
  assert (∀ (neg : bool) body, (String.length body ≤ (if neg then 1 else 2))%nat →
    (n ← hex_digits body 0; let z := if neg then - n else n in if bool_decide (- 2 ^ 63 ≤ z < 2 ^ 63) then Some z else None) = Some z →
    -16 < z < 256) as Hgen.
  { intros neg body Hb (n & Hn%hex_digits_bound & H)%bind_Some; [|lia]. cbv zeta in H. case_bool_decide; [|done]. injection H as <-.
    assert (16 ^ Z.of_nat (String.length body) ≤ 16 ^ (if neg then 1 else 2)) by (apply Z.pow_le_mono_r; destruct neg; lia). destruct neg; lia. }
  destruct s as [|c s]; [done|]. cbn in Hl. case_bool_decide; [|case_bool_decide]; (case_bool_decide; [done|]).
  - apply (Hgen true s). lia.
  - apply (Hgen false s). lia.
  - apply (Hgen false (String c s)). cbn. lia.
Qed.

Lemma lowest_bit n : -16 < n < 256 → String.get 7 (sprintf_08b n) = Some (if Z.even n then "0" else "1")%char.
Proof.
  intros Hn. assert (Forall (λ n, String.get 7 (sprintf_08b n) = Some (if Z.even n then "0" else "1")%char) (seqZ (-15) 271)) as Hall.
  { apply (bool_decide_unpack _). vm_compute. exact I. }
  rewrite Forall_forall in Hall. apply Hall, elem_of_seqZ. lia.
Qed.

Lemma validateCoordinatorPodMACPrefix_cases prefix :
  (validateCoordinatorPodMACPrefix (Some prefix) = Ret () ∧ (prefix = EmptyString ∨ mac_prefix_ok prefix)) ∨
  validateCoordinatorPodMACPrefix (Some prefix) = Fail (FieldInvalid podMACPrefixField).
Proof.
  cbn [validateCoordinatorPodMACPrefix]. case_bool_decide; [by left; split; [|left]|].
  destruct (split ":" prefix) as [|p0 [|p1 [|]]] eqn:E; try by right. case_match eqn:El; [by right|].
  apply orb_false_iff in El as [E0%negb_false_iff%Nat.eqb_eq E1%negb_false_iff%Nat.eqb_eq].
  destruct (ParseInt16 p0) as [fb|] eqn:F0; [|by right]. destruct (ParseInt16 p1) as [sb|] eqn:F1; [|by right].
  rewrite (lowest_bit fb) by (by apply (ParseInt16_bound p0)). destruct (Z.even fb) eqn:Ee; [|by right].
  left. split; [done|]. right. by exists p0, p1, fb, sb.
Qed.

(** What the plugin can rely on in a spec. *)
Record spec_ready (s : CoordinatorSpec) : Prop := {
  ready_set : is_Some (cs_Mode s) ∧ is_Some (cs_TunePodRoutes s) ∧ is_Some (cs_HostRuleTable s);
  ready_type : ∃ t, cs_PodCIDRType s = Some t ∧ t ∈ SupportedPodCIDRType;
  ready_cidrs : Forall (λ cidr, is_Some (ParsePrefix cidr)) (cs_HijackCIDR s);
  ready_routes : Forall (λ r, ∃ p gw, ParsePrefix (Dst r) = Some p ∧ Dst r = prefix_string p ∧ ParseAddr (Gw r) = Some gw ∧
    Is4 (pfx_addr p) = Is4 gw) (cs_PolicyRoutes s);
  ready_mac : ∀ p, cs_PodMACPrefix s = Some p → p = EmptyString ∨ mac_prefix_ok p;
  ready_filter : ∃ f, cs_PodRPFilter s = Some f ∧ f ≤ 2;
  ready_txqueue : ∃ n, cs_TxQueueLen s = Some n ∧ 0 ≤ n;
  ready_link : ∃ a, cs_VethLinkAddress s = Some a ∧ (a = EmptyString ∨ is_Some (ParseAddr a));
  ready_mtu : ∃ n, cs_VethMTU s = Some n ∧ 0 < n
}.

Lemma ExtraCIDR_valid l l' : validateCoordinatorExtraCIDR l = Ret l' → Forall (λ cidr, is_Some (ParseIPOrCIDR cidr)) l.
Proof.
  intros H%map_indexed_Ret. eapply Forall2_Forall_l; [exact H|]. apply Forall_true. intros y x (j & Hx).
  destruct (ParseIPOrCIDR x); by eauto.
Qed.

Lemma PolicyRoutes_valid l l' : validateCoordinatorPolicyRoutes l = Ret l' →
  Forall (λ r, ∃ p gw, ParseIPOrCIDR (Dst r) = Some p ∧ ParseAddr (Gw r) = Some gw ∧ Is4 (pfx_addr p) = Is4 gw) l.
Proof.
  intros H%map_indexed_Ret. eapply Forall2_Forall_l; [exact H|]. apply Forall_true. intros y x (j & Hx).
  destruct (ParseIPOrCIDR (Dst x)) as [p|]; [|done]. destruct (ParseAddr (Gw x)) as [gw|]; [|done]. case_bool_decide; [|done]. eauto.
Qed.

Lemma mutate_cidr_slash x y : mutate_cidr x = Ret y → contains_char "/" y = true.
Proof.
  unfold mutate_cidr. destruct (contains_char "/" x) eqn:E; cbn [negb]; [by intros [= <-]|].
  destruct (ParseAddr x) as [a|] eqn:Ea; [|done]. destruct (ParseAddr_wf _ _ Ea) as [_ Hl].
  unfold Is4, Is6. destruct Hl as [-> | ->]; intros [= <-]; rewrite !contains_char_app; cbn; by rewrite orb_true_r.
Qed.

Lemma mutate_route_normal x y : mutate_route x = Ret y → ∃ p, Dst y = prefix_string p ∧ ParsePrefix (Dst y) = Some p ∧ ParseIPOrCIDR (Dst y) = Some p.
Proof.
  unfold mutate_route. destruct (ParseIPOrCIDR (Dst x)) as [p|] eqn:E; [|done]. intros [= <-]. exists p. cbn [Dst].
  split_and!; [done|by eapply ParsePrefix_string, ParseIPOrCIDR_wf|by eapply ParseIPOrCIDR_string].
Qed.

Lemma mutate_cidr_stuck x : is_ret (mutate_cidr x) = false → ParseIPOrCIDR x = None.
Proof.
  unfold mutate_cidr, ParseIPOrCIDR. destruct (contains_char "/" x); cbn [negb]; [done|].
  destruct (ParseAddr x); [|done]. repeat case_match; done.
Qed.

Lemma mutate_route_stuck x : is_ret (mutate_route x) = false → ParseIPOrCIDR (Dst x) = None.
Proof. unfold mutate_route. by destruct (ParseIPOrCIDR (Dst x)). Qed.

Lemma coordinator_ValidateCreate_Ret c : ValidateCreate c = Ret () ↔ ∃ s, ValidateCoordinatorSpec (coord_spec c) true = Ret s.
Proof.
  unfold ValidateCreate, validateCreateCoordinator, spec_errors. destruct (ValidateCoordinatorSpec _ _) eqn:E; cbn; split; intros H; try done; eauto;
    by destruct H.
Qed.

(** What the checks of a spec establish. *)
Lemma ValidateCoordinatorSpec_Ret s b s' : ValidateCoordinatorSpec s b = Ret s' →
  (∀ t, cs_PodCIDRType s = Some t → t ∈ SupportedPodCIDRType) ∧ (b = true → is_Some (cs_PodCIDRType s)) ∧
  Forall (λ cidr, is_Some (ParseIPOrCIDR cidr)) (cs_HijackCIDR s) ∧
  Forall (λ r, ∃ p gw, ParseIPOrCIDR (Dst r) = Some p ∧ ParseAddr (Gw r) = Some gw ∧ Is4 (pfx_addr p) = Is4 gw) (cs_PolicyRoutes s) ∧
  (∀ p, cs_PodMACPrefix s = Some p → p = EmptyString ∨ mac_prefix_ok p) ∧
  (∀ n, cs_TxQueueLen s = Some n → 0 ≤ n) ∧ (∀ f, cs_PodRPFilter s = Some f → f ≤ 2) ∧
  (∀ a, cs_VethLinkAddress s = Some a → a = EmptyString ∨ is_Some (ParseAddr a)) ∧ (∀ n, cs_VethMTU s = Some n → 0 < n).
Proof.
  unfold ValidateCoordinatorSpec. intros H. inv_ret.
  repeat match goal with H : negb (_ && (_ == None)) = true |- _ => apply negb_true_iff in H end.
  split_and!.
  - intros t Ht. rewrite Ht in *. unfold validateCoordinatorPodCIDRType in *. inv_ret. by eapply bool_decide_eq_true.
  - intros ->. destruct (cs_PodCIDRType s); [done|]. done.
  - by eapply ExtraCIDR_valid.
  - by eapply PolicyRoutes_valid.
  - intros p Hp. rewrite Hp in *. by destruct (validateCoordinatorPodMACPrefix_cases p) as [[_ ?]|?]; [|congruence].
  - intros n Hn. rewrite Hn in *. inv_ret. match goal with H : negb (n <? 0) = true |- _ => apply negb_true_iff, Z.ltb_ge in H end. done.
  - intros f Hf. rewrite Hf in *. unfold validateCoordinatorPodRPFilter in *. destruct (Z.leb_spec 0 f); [|lia].
    inv_ret. match goal with H : bool_decide (f ∈ _) = true |- _ => apply bool_decide_eq_true in H end. set_solver by lia.
  - intros a Ha. rewrite Ha in *. case_bool_decide; [by left|]. cbn [negb] in *. inv_ret. right. by eapply bool_decide_eq_true.
  - intros n Hn. rewrite Hn in *. inv_ret. match goal with H : negb (n <=? 0) = true |- _ => apply negb_true_iff, Z.leb_gt in H end. done.
Qed.

(** The defaulting of an object that is admitted went through. *)
Lemma mutate_admitted c : DeletionTimestamp (coord_meta c) = None → ValidateCreate (Default c) = Ret () →
  ∃ cidrs routes, Forall2 (λ x y, mutate_cidr x = Ret y) (cs_HijackCIDR (coord_spec c)) cidrs ∧
    Forall2 (λ x y, mutate_route x = Ret y) (cs_PolicyRoutes (coord_spec c)) routes ∧
    Default c = MkCoordinator (AddFinalizer (coord_meta c) SpiderFinalizer)
      (set_PolicyRoutes routes (set_HijackCIDR cidrs (default_spec (coord_spec c)))) (coord_status c).
Proof.
  rewrite coordinator_ValidateCreate_Ret. intros Hd [s' Hv]. apply ValidateCoordinatorSpec_Ret in Hv as (_ & Ht & Hc & Hr & _). revert Ht Hc Hr.
  unfold Default, mutateCoordinator, mbind, cmd_bind, modify, read, lift. cbn [coord_meta on_coord_spec coord_spec]. rewrite Hd.
  rewrite (bool_decide_true (None = None)) by done. cbn [negb]. case_bool_decide as Et; [by intros Ht; destruct (Ht eq_refl); cbn in *; congruence|].
  cbn [coord_spec cs_HijackCIDR default_spec]. destruct (update_each mutate_cidr _) as [r cidrs] eqn:E1.
  apply update_each_cases in E1 as [[-> H1]|(x & Hx & Hs%mutate_cidr_stuck)].
  2:{ intros _ Hc _. exfalso. assert (Forall (λ cidr, is_Some (ParseIPOrCIDR cidr)) cidrs) as Hall.
      { by destruct r as [[]| | |]; cbn in Hc; [destruct (update_each mutate_route _) as [[[]| | |] ?]|..]. }
      rewrite Forall_forall in Hall. destruct (Hall x Hx). congruence. }
  cbn [coord_spec on_coord_spec cs_PolicyRoutes set_HijackCIDR default_spec].
  destruct (update_each mutate_route _) as [r routes] eqn:E2.
  apply update_each_cases in E2 as [[-> H2]|(x & Hx & Hs%mutate_route_stuck)]; [by intros _ _ _; exists cidrs, routes|].
  intros _ _ Hr. exfalso. assert (Forall (λ r, is_Some (ParseIPOrCIDR (Dst r))) routes) as Hall.
  { destruct r as [[]| | |]; (eapply Forall_impl; [exact Hr|]); cbn; naive_solver. }
  rewrite Forall_forall in Hall. destruct (Hall x Hx). congruence.
Qed.

Lemma default_spec_idem s l l' :
  default_spec (set_PolicyRoutes l' (set_HijackCIDR l (default_spec s))) = set_PolicyRoutes l' (set_HijackCIDR l (default_spec s)).
Proof. by destruct s as [[] ? ? ? ? [] ? [] [] [] [] []]. Qed.

Lemma AddFinalizer_deletion m f : DeletionTimestamp (AddFinalizer m f) = DeletionTimestamp m.
Proof. unfold AddFinalizer. by case_match. Qed.

Lemma AddFinalizer_in m f : f ∈ Finalizers (AddFinalizer m f).
Proof. unfold AddFinalizer, ContainsFinalizer. case_bool_decide; [done|]. cbn. set_solver. Qed.

(** Defaulting has nothing to do on an object whose texts are normal. *)
Lemma Default_fixed c :
  DeletionTimestamp (coord_meta c) = None → is_Some (cs_PodCIDRType (coord_spec c)) → default_spec (coord_spec c) = coord_spec c →
  Forall (λ x, mutate_cidr x = Ret x) (cs_HijackCIDR (coord_spec c)) → Forall (λ x, mutate_route x = Ret x) (cs_PolicyRoutes (coord_spec c)) →
  SpiderFinalizer ∈ Finalizers (coord_meta c) → Default c = c.
Proof.
  intros Hd [t Ht] Hs Hc Hr Hf. destruct c as [m s st]. cbn [coord_meta coord_spec] in *.
  unfold Default, mutateCoordinator, mbind, cmd_bind, modify, read, lift. cbn [coord_meta on_coord_spec coord_spec]. rewrite Hs, Hd, Ht.
  rewrite (bool_decide_true (None = None)), bool_decide_false by done. cbn [negb coord_spec on_coord_spec].
  unfold on_coord_spec at 2. cbn [coord_meta coord_spec coord_status]. rewrite Hs, (update_each_id _ _ Hc). cbn [coord_spec on_coord_spec cs_PolicyRoutes set_HijackCIDR].
  rewrite (update_each_id _ _ Hr). cbn [snd coord_meta coord_spec coord_status on_coord_spec].
  unfold AddFinalizer, ContainsFinalizer. rewrite bool_decide_true by done. by destruct s.
Qed.

(** C31: a coordinator that the webhook admits is ready for use: every optional field has a value,
    the type of the Pod CIDRs is a supported one, every hijacked CIDR is a prefix and every policy
    route has a normal destination of the family of its gateway, the numbers are within bounds and
    the MAC prefix is unicast; and defaulting it again changes nothing, so that a second write of
    the admitted object stores the same. *)
Theorem coordinator_admitted c :
  DeletionTimestamp (coord_meta c) = None → ValidateCreate (Default c) = Ret () →
  spec_ready (coord_spec (Default c)) ∧ SpiderFinalizer ∈ Finalizers (coord_meta (Default c)) ∧ Default (Default c) = Default c.
Proof.
  intros Hd Hv. destruct (mutate_admitted c Hd Hv) as (cidrs & routes & Hc & Hr & E).
  apply coordinator_ValidateCreate_Ret in Hv as [s' Hv]. rewrite E in *. clear E. cbn [coord_spec coord_meta] in *.
  apply ValidateCoordinatorSpec_Ret in Hv as (Ht & Hset & Vc & Vr & Vm & Vq & Vf & Vl & Vu). destruct (Hset eq_refl) as [t Et].
  cbn [set_PolicyRoutes set_HijackCIDR cs_HijackCIDR cs_PolicyRoutes] in Vc, Vr.
  assert (Forall (λ y, contains_char "/" y = true) cidrs) as Hslash.
  { eapply Forall2_Forall_r; [exact Hc|]. apply Forall_true. intros x y. apply mutate_cidr_slash. }
  assert (Forall (λ y, ∃ p, Dst y = prefix_string p ∧ ParsePrefix (Dst y) = Some p ∧ ParseIPOrCIDR (Dst y) = Some p) routes) as Hdst.
  { eapply Forall2_Forall_r; [exact Hr|]. apply Forall_true. intros x y. apply mutate_route_normal. }
  split_and!.
  - split; cbn [set_PolicyRoutes set_HijackCIDR default_spec cs_Mode cs_TunePodRoutes cs_HostRuleTable cs_PodCIDRType cs_HijackCIDR cs_PolicyRoutes
      cs_PodMACPrefix cs_PodRPFilter cs_TxQueueLen cs_VethLinkAddress cs_VethMTU or_default] in *.
    + split_and!; by eexists.
    + eauto.
    + apply Forall_forall. intros x Hx. rewrite Forall_forall in Vc, Hslash. specialize (Vc x Hx). specialize (Hslash x Hx).
      unfold ParseIPOrCIDR in Vc. by rewrite Hslash in Vc.
    + apply Forall_forall. intros x Hx. rewrite Forall_forall in Vr, Hdst. destruct (Vr x Hx) as (p & gw & H1 & H2 & H3).
      destruct (Hdst x Hx) as (p' & H4 & H5 & H6). assert (p' = p) as -> by congruence. by exists p, gw.
    + done.
    + eauto.
    + eauto.
    + eauto.
    + eauto.
  - apply AddFinalizer_in.
  - apply Default_fixed; cbn [coord_meta coord_spec].
    + by rewrite AddFinalizer_deletion.
    + by exists t.
    + apply default_spec_idem.
    + eapply Forall_impl; [exact Hslash|]. cbn. intros x Hx. unfold mutate_cidr. by rewrite Hx.
    + eapply Forall_impl; [exact Hdst|]. cbn. intros [d g] (p & H1 & _ & H3). cbn in *. unfold mutate_route. cbn. by rewrite H3, <- H1.
    + apply AddFinalizer_in.
Qed.

Definition ex_spec : CoordinatorSpec :=
  MkCoordinatorSpec None (Some cluster) ["169.254.20.10"; "10.0.0.0/8"]%string [MkRoute "fd00::1" "fd00::ff"]
    (Some "0a:1b"%string) None None None None None None None.
Definition ex_coordinator : SpiderCoordinator :=
  MkCoordinator (plain_meta "" "default" "uid-c") ex_spec (MkCoordinatorStatus "" "" None None).

Lemma coordinator_admitted_witness :
  cs_HijackCIDR (coord_spec (Default ex_coordinator)) = ["169.254.20.10/32"; "10.0.0.0/8"]%string ∧
  spec_ready (coord_spec (Default ex_coordinator)) ∧ SpiderFinalizer ∈ Finalizers (coord_meta (Default ex_coordinator)) ∧
  Default (Default ex_coordinator) = Default ex_coordinator.
Proof. split; [vm_compute; reflexivity|]. apply coordinator_admitted; vm_compute; reflexivity. Defined.

(** A sign counts as a character of a byte: the prefix has two characters per byte, but it is no
    MAC prefix. *)
Theorem signed_mac_prefix :
  validateCoordinatorPodMACPrefix (Some "+2:-4"%string) = Ret () ∧ hex_string_of_length 2 "+2" = false.
Proof. split; vm_compute; reflexivity. Qed.
