(* ===== verification/CoordinatorSync.v ===== *)
(** * pkg/coordinatormanager: the controller of SpiderCoordinator

    coordinator_informer.go and calico_ippool_informer.go with what they use of pkg/utils/utils.go
    and pkg/utils/string: the controller finds out which CIDRs the Pods and Services of the cluster
    have, by the CNI that is installed, and publishes them in the status of the default
    SpiderCoordinator.  The caches, the configuration files of the node and the answers of the API
    server are arguments (a record); the server's coordinators are the state. *)

From S2P Require Import Prelude NetIP NetIPFacts K8s Retry WorkQueue Selector AppUtils NetPrefix Coordinator.
Local Open Scope Z_scope.
Local Open Scope go_scope.

(** ** Slices *)

(** [var s []T] that was appended to: still nil when nothing was. *)
Definition appended {A} (l : list A) : option (list A) := match l with [] => None | _ => Some l end.
(** [len(s)] of a slice that may be nil. *)
Definition slice_len {A} (s : option (list A)) : nat := length (default [] s).

(** [sort.Slice] with a comparison of keys: the order of elements with equal keys is not
    specified. *)
Class SliceSort := {
  sort_slice : ∀ {A}, (A → Z) → list A → list A;
  sort_slice_perm : ∀ {A} (key : A → Z) l, sort_slice key l ≡ₚ l;
  sort_slice_sorted : ∀ {A} (key : A → Z) l, StronglySorted Z.le (key <$> sort_slice key l)
}.

(** ** pkg/utils: texts *)

Fixpoint strip_prefix (p s : string) : option string :=
  match p, s with
  | EmptyString, _ => Some s
  | String a p, String b s => if a == b then strip_prefix p s else None
  | _, EmptyString => None
  end.
Fixpoint take_while (P : ascii → bool) (s : string) : string :=
  match s with String c s' => if P c then String c (take_while P s') else EmptyString | EmptyString => EmptyString end.
Fixpoint drop_while (P : ascii → bool) (s : string) : string :=
  match s with String c s' => if P c then drop_while P s' else s | EmptyString => EmptyString end.

(** The leftmost position at which [f] matches. *)
Fixpoint find_first (f : string → option string) (s : string) : option string :=
  match f s with
  | Some m => Some m
  | None => match s with String _ s' => find_first f s' | EmptyString => None end
  end.

(** [strings.Contains] *)
Definition Contains (s sub : string) : bool := bool_decide (is_Some (find_first (strip_prefix sub) s)).

(** The class [\s] of a regular expression. *)
Definition re_space (c : ascii) : bool := bool_decide (c ∈ ["009"; "010"; "012"; "013"; " "]%char).

(** The group of "key\s*(\S+)". *)
Definition match_word (key s : string) : option string :=
  rest ← strip_prefix key s;
  match take_while (negb ∘ re_space) (drop_while re_space rest) with
  | EmptyString => None
  | w => Some w
  end.
(** The group of "key(.*)": the rest of the line. *)
Definition match_line (key s : string) : option string :=
  rest ← strip_prefix key s; Some (take_while (λ c, c != "010"%char) rest).

(** The parts of a list that are CIDRs. *)
Definition valid_cidrs (l : list string) : list string := filter (λ cidr, is_Some (net_ParseCIDR cidr)) l.

Definition subnets_of (clusterConfig key : string) : option (list string) :=
  match find_first (match_word key) clusterConfig with
  | Some w => appended (valid_cidrs (TrimSpace <$> split "," w))
  | None => None
  end.

Definition ExtractK8sCIDRFromKubeadmConfigMap (cm_Data : gmap string string) : outcome (option (list string) * option (list string)) :=
  match cm_Data !! "ClusterConfiguration"%string with
  | None => Fail (ErrOther "unable to get kubeadm configmap ClusterConfiguration")
  | Some clusterConfig => Ret (subnets_of clusterConfig "podSubnet:", subnets_of clusterConfig "serviceSubnet:")
  end.

(** The first container's [Command] and [Args] of a Pod. *)
Record Container := MkContainer { Command : list string; Args : list string }.

Definition findSubnets (l : string) (found : option string * option string) : option string * option string :=
  let '(podSubnets, serviceSubnets) := found in
  (match podSubnets with None => find_first (match_line "--cluster-cidr=") l | Some _ => podSubnets end,
   match serviceSubnets with None => find_first (match_line "--service-cluster-ip-range=") l | Some _ => serviceSubnets end).
Definition both_found (found : option string * option string) : bool := (found.1 != None) && (found.2 != None).
Fixpoint find_flags (lines : list string) (found : option string * option string) : option string * option string :=
  match lines with
  | [] => found
  | l :: lines => let found := findSubnets l found in if both_found found then found else find_flags lines found
  end.

Definition flag_cidrs (flag : option string) : option (list string) :=
  match flag with Some v => appended (valid_cidrs (split "," v)) | None => None end.

Definition ExtractK8sCIDRFromKCMPod (containers : list Container) : outcome (option (list string) * option (list string)) :=
  c ← index containers 0;
  let found := find_flags (Command c) (None, None) in
  let found := if negb (both_found found) then find_flags (Args c) found else found in
  Ret (flag_cidrs found.1, flag_cidrs found.2).

(** pkg/utils/string *)
Definition ParseNsAndName (s : string) : string * string :=
  match split "/" (TrimSpace s) with [ns; name] => (ns, name) | _ => (""%string, ""%string) end.

(** ** What the controller reads *)

Record CalicoIPPool := MkCalicoIPPool { cal_Creation : Z; cal_Deletion : option Z; cal_Disabled : bool; cal_CIDR : string }.
Record CiliumPodIPPool := MkCiliumIPPool {
  cil_Creation : Z; cil_Deletion : option Z; cil_IPv4 : option (list string); cil_IPv6 : option (list string) }.
Record K8sServiceCIDR := MkServiceCIDR { svc_Creation : Z; svc_Deletion : option Z; svc_CIDRs : list string }.

(** The listers of Cilium pools and of ServiceCIDRs are nil when the cluster has no such resource;
    the configuration of the CNI is what libcni returns. *)
Record ClusterInfo := MkClusterInfo {
  conf_files : outcome (list string);
  conflist_name : string → outcome string;
  conf_name : string → outcome string;
  kubeadm_config : outcome (gmap string string);
  kcm_pods : outcome (list (list Container));
  calico_pools : outcome (list CalicoIPPool);
  cilium_pools : option (outcome (list CiliumPodIPPool));
  config_map : string → string → outcome (gmap string string);
  service_cidrs : option (outcome (list K8sServiceCIDR));
  CiliumConfigMap : string
}.

Section cluster.
Context `{SS : SliceSort} (info : ClusterInfo).

(** ** The type of the CNI *)

Definition findDefaultCNIConf : outcome string :=
  cnifiles ← match conf_files info with Fail _ => Fail (ErrOther "failed to load cni files") | o => o end;
  let cniPluginConfigs := filter (λ file, Contains file "00-multus" = false) cnifiles in
  Ret (default ""%string (head (merge_sort String.le cniPluginConfigs))).

Definition fetchCniNameFromPath (cniPath : string) : outcome string :=
  if HasSuffix cniPath ".conflist"
  then match conflist_name info cniPath with Fail _ => Fail (ErrOther "error loading CNI conflist file") | o => o end
  else match conf_name info cniPath with Fail _ => Fail (ErrOther "error loading CNI config file") | o => o end.

Definition GetDefaultCniName : outcome string :=
  cniPath ← findDefaultCNIConf;
  if cniPath != EmptyString then fetchCniNameFromPath cniPath else Ret ""%string.

Definition fetchType : outcome string :=
  defaultCniName ← GetDefaultCniName;
  Ret (if bool_decide (defaultCniName ∈ ["calico"; "k8s-pod-network"]%string) then calico
       else if defaultCniName == cilium then cilium
       else if defaultCniName == flannel then cluster
       else none).

(** ** The status *)

Definition NotReady : string := "NotReady".
Definition Synced : string := "Synced".

Definition set_overlay (l : option (list string)) (st : CoordinatorStatus) : CoordinatorStatus :=
  MkCoordinatorStatus (Phase st) (Reason st) l (ServiceCIDR st).
Definition set_service (l : option (list string)) (st : CoordinatorStatus) : CoordinatorStatus :=
  MkCoordinatorStatus (Phase st) (Reason st) (OverlayPodCIDR st) l.
Definition set_phase (phase reason : string) (st : CoordinatorStatus) : CoordinatorStatus :=
  MkCoordinatorStatus phase reason (OverlayPodCIDR st) (ServiceCIDR st).

Definition setStatus2NoReady (reason : string) (st : CoordinatorStatus) : CoordinatorStatus :=
  MkCoordinatorStatus NotReady reason (Some []) (Some []).

(** The slice is assigned unless the status is synced and has it already. *)
Definition publish_overlay (podCIDR : list string) (st : CoordinatorStatus) : CoordinatorStatus :=
  if (Phase st == Synced) && (OverlayPodCIDR st == Some podCIDR) then st else set_overlay (Some podCIDR) st.

Definition calico_cidrs (items : list CalicoIPPool) : list string :=
  cal_CIDR <$> filter (λ p, cal_Deletion p = None ∧ cal_Disabled p = false) (sort_slice cal_Creation items).

Definition updateCalicoPodCIDR (st : CoordinatorStatus) : outcome CoordinatorStatus :=
  items ← calico_pools info;
  Ret (publish_overlay (calico_cidrs items) st).

Definition cilium_cidrs (items : list CiliumPodIPPool) : list string :=
  concat ((λ p, if cil_Deletion p != None then [] else default [] (cil_IPv4 p) ++ default [] (cil_IPv6 p))
    <$> sort_slice cil_Creation items).

Definition fetchCiliumIPPools (lister : outcome (list CiliumPodIPPool)) (st : CoordinatorStatus) : outcome CoordinatorStatus :=
  items ← lister;
  Ret (publish_overlay (cilium_cidrs items) st).

(** The pool of one family in the configuration of Cilium. *)
Definition cluster_pool (trim : string → string) (v : option string) : outcome (list string) :=
  match v with
  | None => Ret []
  | Some v => let v := trim v in
      if bool_decide (is_Some (net_ParseCIDR v)) then Ret [v] else Fail (ErrOther "invalid CIDR address")
  end.

Definition updateCiliumPodCIDR (k8sPodCIDR : option (list string)) (st : CoordinatorStatus) : outcome CoordinatorStatus :=
  let '(ns, name) := ParseNsAndName (CiliumConfigMap info) in
  if (ns == EmptyString) && (name == EmptyString) then Fail (ErrOther "invalid ENV SPIDERPOOL_CILIUM_CONFIGMAP_NAMESPACE_NAME")
  else
    match cilium_pools info with
    | None => Fail (ErrOther "the cilium multi-pool feature is unavailable")
    | Some lister =>
        ccm ← config_map info ns name;
        let ipam := default ""%string (ccm !! "ipam"%string) in
        if bool_decide (ipam ∈ ["cluster-pool"; "cluster-pool-v2beta"]%string) then
          v4 ← cluster_pool TrimSpace (ccm !! "cluster-pool-ipv4-cidr"%string);
          (* the trimmed text is stored in the variable of the other family *)
          v6 ← cluster_pool id (ccm !! "cluster-pool-ipv6-cidr"%string);
          Ret (set_overlay (appended (v4 ++ v6)) st)
        else if ipam == "multi-pool"%string then fetchCiliumIPPools lister st
        else if ipam == "kubernetes"%string then Ret (set_overlay k8sPodCIDR (set_phase Synced (Reason st) st))
        else Fail (ErrOther "unsupported CIlium IPAM mode")
    end.

Definition service_cidr_list (items : list K8sServiceCIDR) : list string :=
  concat (svc_CIDRs <$> filter (λ p, svc_Deletion p = None) (sort_slice svc_Creation items)).

Definition updateServiceCIDR (st : CoordinatorStatus) : outcome CoordinatorStatus :=
  match service_cidrs info with
  | None => Fail (ErrOther "the kubernetes serviceCIDR is disabled")
  | Some lister =>
      items ← lister;
      let serviceCIDR := service_cidr_list items in
      Ret (if (Phase st == Synced) && (ServiceCIDR st == Some serviceCIDR) then st else set_service (Some serviceCIDR) st)
  end.

Section sync.
(** [error.Error] *)
Context (Error : error → string).

(** [if err != nil { ... return }] where the rest needs no error. *)
Definition on_error {A B} (o : outcome A) (h : error → outcome B) (k : A → outcome B) : outcome B :=
  match o with Ret a => k a | Fail e => h e | Panic => Panic | OutOfFuel => OutOfFuel end.

(** The CIDRs of the cluster: of kubeadm's configuration, or of the flags of the
    kube-controller-manager; [inr]: the message for the status. *)
Definition cluster_cidrs : outcome (option (list string) * option (list string) + string) :=
  let from_kubeadm := ignore_err (None, None) (cm ← kubeadm_config info; ExtractK8sCIDRFromKubeadmConfigMap cm) in
  cidrs ← from_kubeadm;
  if (slice_len cidrs.1 =? 0)%nat || (slice_len cidrs.2 =? 0)%nat then
    on_error (kcm_pods info) (λ e, Ret (inr (Error e)))
      (λ podList, match podList with
                  | [] => Ret (inr "No kube-controller-manager pod found, unable to get clusterCIDR"%string)
                  | pod :: _ => inl <$> ExtractK8sCIDRFromKCMPod pod
                  end)
  else Ret (inl cidrs).

(** The end: the CIDRs of Services, and the phase. *)
Definition finish_status (k8sServiceCIDR : option (list string)) (st : CoordinatorStatus) : outcome CoordinatorStatus :=
  st ← on_error (updateServiceCIDR st) (λ _, Ret (set_service k8sServiceCIDR st)) Ret;
  Ret (set_phase Synced ""%string st).

Definition pod_cidr_failed (st : CoordinatorStatus) (e : error) : outcome CoordinatorStatus :=
  Ret (set_overlay (Some []) (set_phase NotReady (Error e) st)).

Definition update_status (podCIDRType : option string) (st : CoordinatorStatus) : outcome CoordinatorStatus :=
  podCidrType ← deref podCIDRType;
  on_error (if podCidrType == auto then fetchType else Ret podCidrType) (λ e, Ret (setStatus2NoReady (Error e) st)) (λ podCidrType,
  cidrs ← cluster_cidrs;
  match cidrs with
  | inr message => Ret (setStatus2NoReady message st)
  | inl (k8sPodCIDR, k8sServiceCIDR) =>
      if podCidrType == cluster then finish_status k8sServiceCIDR (set_overlay k8sPodCIDR st)
      else if podCidrType == calico then on_error (updateCalicoPodCIDR st) (pod_cidr_failed st) (finish_status k8sServiceCIDR)
      else if podCidrType == cilium then on_error (updateCiliumPodCIDR k8sPodCIDR st) (pod_cidr_failed st) (finish_status k8sServiceCIDR)
      else if podCidrType == none then finish_status k8sServiceCIDR (set_overlay (Some []) (set_phase Synced (Reason st) st))
      else finish_status k8sServiceCIDR st
  end).

Definition updatePodAndServerCIDR (coord : SpiderCoordinator) : outcome SpiderCoordinator :=
  st ← update_status (cs_PodCIDRType (coord_spec coord)) (coord_status coord);
  Ret (MkCoordinator (coord_meta coord) (coord_spec coord) st).
End sync.
End cluster.

(** ** The handler *)

(** [Status().Patch(copy, MergeFrom(base))]: the fields in which the two differ are written. *)
Class CoordinatorClient (S : Type) := {
  coordinators : S → gmap string SpiderCoordinator;
  patch_status : SpiderCoordinator → SpiderCoordinator → cmd S unit
}.

Definition patched {A} `{EqDecision A} (base new stored : A) : A := if new == base then stored else new.
Definition merge_patch (base new stored : CoordinatorStatus) : CoordinatorStatus :=
  MkCoordinatorStatus (patched (Phase base) (Phase new) (Phase stored)) (patched (Reason base) (Reason new) (Reason stored))
    (patched (OverlayPodCIDR base) (OverlayPodCIDR new) (OverlayPodCIDR stored))
    (patched (ServiceCIDR base) (ServiceCIDR new) (ServiceCIDR stored)).
Definition patch_coordinator (base new stored : SpiderCoordinator) (v : Z) : SpiderCoordinator :=
  MkCoordinator (set_ResourceVersion v (coord_meta stored)) (coord_spec stored)
    (merge_patch (coord_status base) (coord_status new) (coord_status stored)).

(** The patch is applied to the object as it is stored; after an error it may or may not have
    been. *)
Class CoordinatorLaws (S : Type) `{CoordinatorClient S} := {
  patch_applied : ∀ new base s r s', patch_status new base s = (r, s') →
    (coordinators s' = coordinators s ∧ r ≠ Ret ()) ∨
    ∃ stored v, coordinators s !! Name (coord_meta new) = Some stored ∧
      coordinators s' = <[Name (coord_meta new) := patch_coordinator base new stored v]> (coordinators s)
}.

Section handler.
Context `{SS : SliceSort} {S : Type} `{CC : CoordinatorClient S}.
Context (Error : error → string).

(** [cached] is the default coordinator in the cache. *)
Definition syncHandler (info : ClusterInfo) (cached : outcome SpiderCoordinator) : cmd S unit :=
  match cached with
  | Fail e => lift (if not_found e then Ret () else Fail e)
  | Panic => lift Panic
  | OutOfFuel => lift OutOfFuel
  | Ret coord =>
      coordCopy ← lift (updatePodAndServerCIDR info Error coord);
      if coord_status coordCopy != coord_status coord then patch_status coordCopy coord else mret ()
  end.

(** Every key stands for the one default coordinator. *)
Definition processNextWorkItem (info : S → ClusterInfo) (cached : S → outcome SpiderCoordinator) (now bucket : Z)
    (env : workqueue string → workqueue string) : S * workqueue string → option (outcome bool * (S * workqueue string)) :=
  work env (λ key s, let '(r, s') := syncHandler (info s) (cached s) s in (settle_always now bucket key r, s')).
End handler.

(** ** Events *)

Definition ciliumConfig : string := "cilium-config".
Definition kubeadmConfigMap : string := "kubeadm-config".

Definition coordinator_key (coord : SpiderCoordinator) : string := "SpiderCoordinator/" +:+ Name (coord_meta coord).

Definition enqueueCoordinatorOnAdd (coord : SpiderCoordinator) : cmd (workqueue string) unit := modify (Add (coordinator_key coord)).

(** Two objects of the cache share no pointer, so equal pointers are nil ones. *)
Definition type_changed (old new : option string) : outcome bool :=
  match old, new with
  | None, None => Ret false
  | _, _ => n ← deref new; o ← deref old; Ret (n != o)
  end.

Definition enqueueCoordinatorOnUpdate (oldCoord newCoord : SpiderCoordinator) : cmd (workqueue string) unit :=
  changed ← lift (type_changed (cs_PodCIDRType (coord_spec oldCoord)) (cs_PodCIDRType (coord_spec newCoord)));
  if changed : bool then modify (Add (coordinator_key newCoord))
  else if coord_status oldCoord == coord_status newCoord then mret ()
  else modify (Add (coordinator_key newCoord)).

(** A config map, with a [Data] that may be nil. *)
Record ConfigMap := MkConfigMap { cm_Name : string; cm_Data : option (gmap string string) }.
Definition watched_config_map (cm : ConfigMap) : bool := (cm_Name cm == ciliumConfig) || (cm_Name cm == kubeadmConfigMap).
Definition config_map_key (cm : ConfigMap) : string := "ConfigMap/" +:+ cm_Name cm.

Definition enqueueCoordinatorOnConfigMapAdd (cm : ConfigMap) : cmd (workqueue string) unit :=
  if watched_config_map cm then modify (Add (config_map_key cm)) else mret ().
Definition enqueueCoordinatorOnConfigMapUpdated (oldCm newCm : ConfigMap) : cmd (workqueue string) unit :=
  if watched_config_map newCm then
    if cm_Data oldCm == cm_Data newCm then mret () else modify (Add (config_map_key newCm))
  else mret ().
Definition enqueueCoordinatorOnConfigMapDeleted (cm : ConfigMap) : cmd (workqueue string) unit :=
  if watched_config_map cm then modify (Add (config_map_key cm)) else mret ().

(** Additions and deletions of ServiceCIDRs and of Cilium pools, and any event on a Calico pool. *)
Definition enqueueServiceCIDR (name : string) : cmd (workqueue string) unit := modify (Add ("ServiceCIDR/" +:+ name)).
Definition enqueueCiliumIPPool (name : string) : cmd (workqueue string) unit := modify (Add name).
Definition Reconcile (name : string) : cmd (workqueue string) unit := modify (Add ("CalicoIPPool/" +:+ name)).

(** ** Sorting *)

Lemma sorted_unique {A} (key : A → Z) (l1 l2 : list A) :
  NoDup (key <$> l1) → l1 ≡ₚ l2 → StronglySorted Z.le (key <$> l1) → StronglySorted Z.le (key <$> l2) → l1 = l2.
Proof.
  revert l2. induction l1 as [|x l1 IH]; intros l2 Hn Hp H1 H2; [by apply Permutation_nil_l in Hp as ->|].
  destruct l2 as [|y l2]; [by apply Permutation_nil_r in Hp|]. cbn [fmap list_fmap] in *.
  inversion H1 as [|? ? S1 F1]; inversion H2 as [|? ? S2 F2]; subst. apply NoDup_cons in Hn as [Hx Hn].
  assert (y ∈ x :: l1) as [->|Hy]%elem_of_cons by (rewrite Hp; by left).
  { f_equal. apply IH; [done| |done..]. by eapply Permutation_cons_inv. }
  assert (x ∈ y :: l2) as [->|Hx']%elem_of_cons by (rewrite <- Hp; by left).
  { f_equal. apply IH; [done| |done..]. by eapply Permutation_cons_inv. }
  exfalso. rewrite Forall_fmap, Forall_forall in F1, F2. specialize (F1 y Hy). specialize (F2 x Hx'). cbn in *.
  apply Hx. rewrite list_elem_of_fmap. exists y. split; [lia|done].
Qed.

Lemma sort_slice_unique `{SliceSort} {A} (key : A → Z) (l1 l2 : list A) :
  NoDup (key <$> l1) → l1 ≡ₚ l2 → sort_slice key l1 = sort_slice key l2.
Proof.
  intros Hn Hp. apply (sorted_unique key); [by rewrite sort_slice_perm| |apply sort_slice_sorted..].
  by rewrite !sort_slice_perm.
Qed.

(** ** The status comes to rest *)

Section status.
Context `{SS : SliceSort} (info : ClusterInfo) (Error : error → string).

Lemma publish_overlay_eq l st : publish_overlay l st = set_overlay (Some l) st.
Proof.
  unfold publish_overlay. case_match eqn:E; [|done]. apply andb_true_iff in E as [_ E%bool_decide_eq_true]. destruct st. cbn in *. by subst.
Qed.

(** What is found out about the cluster, whatever the status is: the CIDRs to publish ([None]: the
    Pod CIDRs stay), or why there are none. *)
Inductive verdict :=
  | Published (overlay : option (option (list string))) (service : option (list string))
  | ClusterUnknown (reason : string)
  | PodsUnknown (reason : string).

Definition apply_verdict (v : verdict) (st : CoordinatorStatus) : CoordinatorStatus :=
  match v with
  | Published overlay service => MkCoordinatorStatus Synced "" (default (OverlayPodCIDR st) overlay) service
  | ClusterUnknown reason => MkCoordinatorStatus NotReady reason (Some []) (Some [])
  | PodsUnknown reason => MkCoordinatorStatus NotReady reason (Some []) (ServiceCIDR st)
  end.

Definition service_value (k8sServiceCIDR : option (list string)) : outcome (option (list string)) :=
  match service_cidrs info with
  | Some (Ret items) => Ret (Some (service_cidr_list items))
  | Some Panic => Panic
  | Some OutOfFuel => OutOfFuel
  | _ => Ret k8sServiceCIDR
  end.

Definition cilium_overlay (k8sPodCIDR : option (list string)) : outcome (option (list string)) :=
  OverlayPodCIDR <$> updateCiliumPodCIDR info k8sPodCIDR (MkCoordinatorStatus "" "" None None).

Definition pod_overlay (t : string) (k8sPodCIDR : option (list string)) : outcome (option (option (list string))) :=
  if t == cluster then Ret (Some k8sPodCIDR)
  else if t == calico then (λ items, Some (Some (calico_cidrs items))) <$> calico_pools info
  else if t == cilium then Some <$> cilium_overlay k8sPodCIDR
  else if t == none then Ret (Some (Some []))
  else Ret None.

Definition find_out (podCIDRType : option string) : outcome verdict :=
  t ← deref podCIDRType;
  on_error (if t == auto then fetchType info else Ret t) (λ e, Ret (ClusterUnknown (Error e))) (λ t,
  cidrs ← cluster_cidrs info Error;
  match cidrs with
  | inr message => Ret (ClusterUnknown message)
  | inl (k8sPodCIDR, k8sServiceCIDR) =>
      on_error (pod_overlay t k8sPodCIDR) (λ e, Ret (PodsUnknown (Error e)))
        (λ overlay, service ← service_value k8sServiceCIDR; Ret (Published overlay service))
  end).

Lemma finish_status_eq k st :
  finish_status info k st = (service ← service_value k; Ret (MkCoordinatorStatus Synced "" (OverlayPodCIDR st) service)).
Proof.
  unfold finish_status, updateServiceCIDR, service_value. destruct (service_cidrs info) as [[items|e| |]|]; try done. cbn.
  unfold set_phase. case_match eqn:E; [|done]. apply andb_true_iff in E as [_ E%bool_decide_eq_true]. by rewrite E.
Qed.

(** The CIDRs of Cilium do not depend on the status. *)
Lemma updateCilium_overlay k st : OverlayPodCIDR <$> updateCiliumPodCIDR info k st = cilium_overlay k.
Proof.
  unfold cilium_overlay, updateCiliumPodCIDR, fetchCiliumIPPools. destruct (ParseNsAndName _) as [ns name]. case_match; [done|].
  destruct (cilium_pools info) as [lister|]; [|done]. destruct (config_map info ns name) as [ccm| | |]; [|done..]. cbn [mbind outcome_bind].
  case_match; [|case_match; [|case_match; done]].
  - destruct (cluster_pool TrimSpace _) as [v4| | |]; [|done..]. cbn [mbind outcome_bind]. by destruct (cluster_pool id _).
  - destruct lister; cbn; by rewrite ?publish_overlay_eq.
Qed.

Lemma update_status_eq t st : update_status info Error t st = (v ← find_out t; Ret (apply_verdict v st)).
Proof.
  unfold update_status, find_out. destruct t as [t|]; [|done]. cbn [deref mbind outcome_bind].
  destruct (if t == auto then fetchType info else Ret t) as [t'|e| |]; try done. cbn [on_error].
  destruct (cluster_cidrs info Error) as [[[k8sPod k8sService]|m]| | |]; try done. cbn [mbind outcome_bind]. unfold pod_overlay.
  case_bool_decide; [|case_bool_decide; [|case_bool_decide; [|case_bool_decide]]]; cbn [on_error].
  - rewrite finish_status_eq. by destruct (service_value k8sService).
  - unfold updateCalicoPodCIDR. destruct (calico_pools info); try done. cbn [mbind fmap outcome_bind outcome_fmap on_error].
    rewrite publish_overlay_eq, finish_status_eq. by destruct (service_value k8sService).
  - rewrite <- (updateCilium_overlay k8sPod st). destruct (updateCiliumPodCIDR info k8sPod st) as [st'| | |]; try done.
    cbn [mbind fmap outcome_bind outcome_fmap on_error]. rewrite finish_status_eq. by destruct (service_value k8sService).
  - rewrite finish_status_eq. by destruct (service_value k8sService).
  - rewrite finish_status_eq. by destruct (service_value k8sService).
Qed.

Lemma apply_verdict_idem v st : apply_verdict v (apply_verdict v st) = apply_verdict v st.
Proof. by destruct v as [[]| |]. Qed.

(** Computed from the status it left, the status is the same. *)
Lemma updatePodAndServerCIDR_idem c c' : updatePodAndServerCIDR info Error c = Ret c' → updatePodAndServerCIDR info Error c' = Ret c'.
Proof.
  unfold updatePodAndServerCIDR. rewrite !update_status_eq. intros (st & (v & Hv & [= <-])%bind_Ret & [= <-])%bind_Ret.
  cbn [coord_spec coord_status coord_meta]. rewrite Hv. cbn. by rewrite apply_verdict_idem.
Qed.

Lemma merge_patch_same base new : merge_patch base new base = new.
Proof.
  destruct base, new. unfold merge_patch, patched. cbn. f_equal; case_bool_decide; by subst.
Qed.
End status.

(** ** The order of listings *)

(** The same objects, listed in another order. *)
Definition relisted {A} (key : A → Z) (o o' : outcome (list A)) : Prop :=
  o = o' ∨ ∃ l l', o = Ret l ∧ o' = Ret l' ∧ l ≡ₚ l' ∧ NoDup (key <$> l).
Definition relisted_opt {A} (key : A → Z) (o o' : option (outcome (list A))) : Prop :=
  o = o' ∨ ∃ l l', o = Some l ∧ o' = Some l' ∧ relisted key l l'.

(** Two views of one cluster. *)
Record same_cluster (i i' : ClusterInfo) : Prop := {
  same_files : conf_files i = conf_files i' ∧ conflist_name i = conflist_name i' ∧ conf_name i = conf_name i';
  same_kubeadm : kubeadm_config i = kubeadm_config i' ∧ kcm_pods i = kcm_pods i';
  same_maps : config_map i = config_map i' ∧ CiliumConfigMap i = CiliumConfigMap i';
  same_calico : relisted cal_Creation (calico_pools i) (calico_pools i');
  same_cilium : relisted_opt cil_Creation (cilium_pools i) (cilium_pools i');
  same_services : relisted_opt svc_Creation (service_cidrs i) (service_cidrs i')
}.

Section order.
Context `{SS : SliceSort} (Error : error → string).

Lemma relisted_fmap {A B} (key : A → Z) (f : list A → B) (o o' : outcome (list A)) :
  (∀ l l', l ≡ₚ l' → NoDup (key <$> l) → f l = f l') → relisted key o o' → f <$> o = f <$> o'.
Proof. intros Hf [->|(l & l' & -> & -> & Hp & Hn)]; [done|]. cbn. by rewrite (Hf l l'). Qed.

Lemma service_value_same i i' k : same_cluster i i' → service_value i k = service_value i' k.
Proof.
  intros [_ _ _ _ _ Hs]. unfold service_value. destruct Hs as [->|(l & l' & -> & -> & [->|(x & x' & -> & -> & Hp & Hn)])]; [done..|].
  unfold service_cidr_list. by rewrite (sort_slice_unique svc_Creation x x').
Qed.

Lemma cilium_overlay_same i i' k : same_cluster i i' → cilium_overlay i k = cilium_overlay i' k.
Proof.
  intros [_ _ [Em En] _ Hc _]. unfold cilium_overlay, updateCiliumPodCIDR, fetchCiliumIPPools. rewrite Em, En.
  destruct (ParseNsAndName _) as [ns name]. case_match; [done|].
  destruct Hc as [->|(l & l' & -> & -> & [->|(x & x' & -> & -> & Hp & Hn)])]; [done..|].
  destruct (config_map i' ns name); [|done..]. cbn [mbind outcome_bind]. case_match; [done|]. case_match; [|done].
  unfold cilium_cidrs. by rewrite (sort_slice_unique cil_Creation x x').
Qed.

(** What the controller publishes does not depend on the order in which the caches list Calico
    pools, Cilium pools and ServiceCIDRs, as long as no two of them were created at the same
    time. *)
Theorem coordinator_listing_order i i' t : same_cluster i i' → find_out i Error t = find_out i' Error t.
Proof.
  intros Hi. pose proof Hi as [(F1 & F2 & F3) [K1 K2] _ Hc _ _]. unfold find_out. destruct t as [t|]; [|done]. cbn [deref mbind outcome_bind].
  assert (fetchType i = fetchType i') as ->.
  { unfold fetchType, GetDefaultCniName, findDefaultCNIConf, fetchCniNameFromPath. by rewrite F1, F2, F3. }
  assert (cluster_cidrs i Error = cluster_cidrs i' Error) as -> by (unfold cluster_cidrs; by rewrite K1, K2).
  assert (∀ t k, pod_overlay i t k = pod_overlay i' t k) as Hpod.
  { intros t' k. unfold pod_overlay. rewrite (cilium_overlay_same i i' k Hi).
    rewrite (relisted_fmap cal_Creation (λ items, Some (Some (calico_cidrs items))) _ _) by
      (try exact Hc; intros l l' Hp Hn; unfold calico_cidrs; by rewrite (sort_slice_unique cal_Creation l l')). done. }
  destruct (if t == auto then _ else _); try done. cbn [on_error]. destruct (cluster_cidrs i' Error) as [[[kp ks]|]| | |]; try done.
  cbn [mbind outcome_bind]. rewrite Hpod, (service_value_same i i' ks Hi). done.
Qed.
End order.

(** C29: a sync on an up-to-date cache publishes, in the status of the coordinator and nowhere else,
    what is found out about the cluster, which depends on the old status only where the coordinator
    has no opinion; a coordinator that is not ready publishes no Pod CIDR; and the next sync of the
    same cluster writes nothing, so that the controller and its own update events come to rest.  The
    same cluster means that the pools and ServiceCIDRs are listed in the same order, or in any order
    if no two of them were created in the same second; with two of the same second the status
    follows the order of the listing ([same_second_flaps]). *)
Theorem coordinator_sync_settles `{SS : SliceSort} {S : Type} `{CC : CoordinatorClient S} `{CL : !CoordinatorLaws S}
    (Error : error → string) info k coord (s s' : S) :
  coordinators s !! k = Some coord → Name (coord_meta coord) = k →
  syncHandler Error info (Ret coord) s = (Ret (), s') →
  ∃ coord' v, coordinators s' = <[k := coord']> (coordinators s) ∧ coord_spec coord' = coord_spec coord ∧ Name (coord_meta coord') = k ∧
    find_out info Error (cs_PodCIDRType (coord_spec coord)) = Ret v ∧ coord_status coord' = apply_verdict v (coord_status coord) ∧
    (Phase (coord_status coord') ≠ Synced → OverlayPodCIDR (coord_status coord') = Some []) ∧
    ∀ info', same_cluster info info' → syncHandler Error info' (Ret coord') s' = (Ret (), s').
Proof.
  intros Hs Hk (copy & s1 & [E ->]%lift_Ret & H)%cmd_bind_Ret. pose proof (updatePodAndServerCIDR_idem _ _ _ _ E) as Hidem.
  unfold updatePodAndServerCIDR in E. rewrite update_status_eq in E. apply bind_Ret in E as (st & (v & Hv & [= <-])%bind_Ret & [= <-]).
  set (copy := MkCoordinator _ _ _) in *.
  assert (∀ coord', coord_spec coord' = coord_spec coord → coord_status coord' = coord_status copy →
    ∀ info', same_cluster info info' → syncHandler Error info' (Ret coord') s' = (Ret (), s')) as Hrest.
  { intros [m sp st] [= ->] [= ->] info' Hi. rewrite (coordinator_listing_order Error _ _ _ Hi) in Hv. unfold syncHandler, mbind, cmd_bind, lift, updatePodAndServerCIDR. cbn [coord_spec coord_status coord_meta].
    rewrite update_status_eq, Hv. cbn. rewrite apply_verdict_idem, bool_decide_true by done. done. }
  case_bool_decide as Hst; cbn [negb] in H.
  - injection H as <-. exists coord, v. split_and!; try done; [by rewrite insert_id| |by apply Hrest].
    rewrite <- Hst. by destruct v.
  - destruct (patch_applied _ _ _ _ _ H) as [[_ ?]|(stored & ver & Hst' & Hw)]; [done|].
    change (Name (coord_meta copy)) with (Name (coord_meta coord)) in *. rewrite Hk in *. assert (stored = coord) as -> by congruence.
    assert (coord_status (patch_coordinator coord copy coord ver) = coord_status copy) as Hcopy by apply merge_patch_same.
    exists (patch_coordinator coord copy coord ver), v. split_and!; try done; [|by apply Hrest].
    rewrite Hcopy. by destruct v.
Qed.

(** ** What is published is a CIDR *)

Lemma appended_valid l r : appended (valid_cidrs l) = Some r → Forall (λ cidr, is_Some (net_ParseCIDR cidr)) r.
Proof.
  unfold appended. destruct (valid_cidrs l) as [|x l'] eqn:E; [done|]. intros [= <-]. rewrite <- E. apply Forall_forall.
  intros y. unfold valid_cidrs. rewrite list_elem_of_filter. tauto.
Qed.

(** The CIDRs taken from kubeadm or from the flags are texts that parse. *)
Theorem cluster_cidrs_valid info Error p s :
  cluster_cidrs info Error = Ret (inl (p, s)) → ∀ l, p = Some l ∨ s = Some l → Forall (λ cidr, is_Some (net_ParseCIDR cidr)) l.
Proof.
  assert (∀ c key l, subnets_of c key = Some l → Forall (λ cidr, is_Some (net_ParseCIDR cidr)) l) as H1.
  { intros c key l. unfold subnets_of. case_match; [apply appended_valid|done]. }
  assert (∀ f l, flag_cidrs f = Some l → Forall (λ cidr, is_Some (net_ParseCIDR cidr)) l) as H2.
  { intros f l. unfold flag_cidrs. case_match; [apply appended_valid|done]. }
  unfold cluster_cidrs. intros ([p' s'] & Hk & H)%bind_Ret. cbn [fst snd] in H. case_match.
  - destruct (kcm_pods info) as [[|pod pods]|e| |]; try done. cbn [on_error] in H. unfold ExtractK8sCIDRFromKCMPod in H.
    destruct (index pod 0) as [c| | |]; try done. cbn in H. injection H as <- <-. intros l [Hl|Hl]; by eapply H2.
  - injection H as <- <-. destruct (kubeadm_config info) as [cm| | |]; cbn in Hk; try done; try (injection Hk as <- <-; by intros l [?|?]).
    unfold ExtractK8sCIDRFromKubeadmConfigMap in Hk. destruct (cm !! _) as [c|]; cbn in Hk; injection Hk as <- <-; [|by intros l [?|?]].
    intros l [Hl|Hl]; by eapply H1.
Qed.

(** ** A server and an order, for concrete runs *)

Definition key_le {A} (key : A → Z) (x y : A) : Prop := key x ≤ key y.
#[export] Instance key_le_dec {A} (key : A → Z) : RelDecision (key_le key).
Proof. intros x y. unfold key_le. apply _. Defined.
#[export] Instance key_le_trans {A} (key : A → Z) : Transitive (key_le key).
Proof. intros x y z. unfold key_le. lia. Qed.
#[export] Instance key_le_total {A} (key : A → Z) : Total (key_le key).
Proof. intros x y. unfold key_le. lia. Qed.

Lemma StronglySorted_key {A} (key : A → Z) l : StronglySorted (key_le key) l → StronglySorted Z.le (key <$> l).
Proof. induction 1 as [|x l Hs IH Hf]; cbn; constructor; [done|]. by apply Forall_fmap. Qed.

(** A stable sort. *)
Definition stable_sort : SliceSort := {|
  sort_slice A key l := merge_sort (key_le key) l;
  sort_slice_perm A key l := merge_sort_Permutation (key_le key) l;
  sort_slice_sorted A key l := StronglySorted_key key _ (StronglySorted_merge_sort (key_le key) l)
|}.

#[export] Instance mem_coordinators : CoordinatorClient (gmap string SpiderCoordinator) := {|
  coordinators s := s;
  patch_status new base s :=
    match s !! Name (coord_meta new) with
    | None => (Fail APINotFound, s)
    | Some stored =>
        (Ret (), <[Name (coord_meta new) := patch_coordinator base new stored (ResourceVersion (coord_meta stored) + 1)]> s)
    end
|}.
#[export] Instance mem_coordinators_laws : CoordinatorLaws (gmap string SpiderCoordinator).
Proof.
  split. intros new base s r s'. cbn. destruct (s !! _) as [stored|] eqn:E; intros [= <- <-]; [right|by left]. eauto.
Qed.

(** ** Witnesses *)

(** kubeadm's configuration, as its config map has it. *)
Definition newline : string := String "010" EmptyString.
Definition ex_kubeadm : string :=
  "networking:" +:+ newline +:+ "  dnsDomain: cluster.local" +:+ newline +:+ "  podSubnet: 10.244.0.0/16,fd00:10:244::/56" +:+ newline +:+
  "  serviceSubnet: 10.96.0.0/12" +:+ newline.

Definition ex_info (calico_list : list CalicoIPPool) (cilium_list : option (outcome (list CiliumPodIPPool))) (cilium_cm : gmap string string)
    : ClusterInfo :=
  MkClusterInfo (Ret ["/etc/cni/net.d/00-multus.conf"; "/etc/cni/net.d/10-calico.conflist"]%string) (λ _, Ret "k8s-pod-network"%string)
    (λ _, Fail APIOther) (Ret {["ClusterConfiguration"%string := ex_kubeadm]}) (Fail APIOther) (Ret calico_list) cilium_list
    (λ _ _, Ret cilium_cm) None "kube-system/cilium-config".

Definition ex_v4 (t : Z) : CalicoIPPool := MkCalicoIPPool t None false "10.233.64.0/18".
Definition ex_v6 (t : Z) : CalicoIPPool := MkCalicoIPPool t None false "fd85:ee78::/112".
Definition ex_text (e : error) : string := "error".

Definition ex_coord (t : string) (st : CoordinatorStatus) : SpiderCoordinator :=
  MkCoordinator (plain_meta "" "default" "uid-c")
    (MkCoordinatorSpec None (Some t) [] [] None None None None None None None None) st.
Definition ex_new : CoordinatorStatus := MkCoordinatorStatus "" "" None None.

Lemma coordinator_sync_settles_witness :
  let info := ex_info [ex_v6 20; ex_v4 10] None ∅ in
  let s := {["default"%string := ex_coord auto ex_new]} : gmap string SpiderCoordinator in
  let s' := (syncHandler (SS := stable_sort) ex_text info (Ret (ex_coord auto ex_new)) s).2 in
  (OverlayPodCIDR ∘ coord_status <$> s' !! "default"%string) = Some (Some ["10.233.64.0/18"; "fd85:ee78::/112"]%string) ∧
  ∃ coord' v, s' = <["default"%string := coord']> s ∧ coord_spec coord' = coord_spec (ex_coord auto ex_new) ∧ Name (coord_meta coord') = "default"%string ∧
    find_out (SS := stable_sort) info ex_text (Some auto) = Ret v ∧ coord_status coord' = apply_verdict v ex_new ∧
    (Phase (coord_status coord') ≠ Synced → OverlayPodCIDR (coord_status coord') = Some []) ∧
    ∀ info', same_cluster info info' → syncHandler (SS := stable_sort) ex_text info' (Ret coord') s' = (Ret (), s').
Proof.
  cbv zeta. split; [vm_compute; reflexivity|].
  refine (coordinator_sync_settles (SS := stable_sort) ex_text (ex_info [ex_v6 20; ex_v4 10] None ∅) "default" (ex_coord auto ex_new)
    ({["default"%string := ex_coord auto ex_new]} : gmap string SpiderCoordinator)
    (syncHandler (SS := stable_sort) ex_text (ex_info [ex_v6 20; ex_v4 10] None ∅) (Ret (ex_coord auto ex_new))
       ({["default"%string := ex_coord auto ex_new]} : gmap string SpiderCoordinator)).2 _ _ _).
  - apply lookup_singleton_eq.
  - reflexivity.
  - vm_compute. reflexivity.
Defined.

Lemma coordinator_listing_order_witness :
  find_out (SS := stable_sort) (ex_info [ex_v6 20; ex_v4 10] None ∅) ex_text (Some auto) =
  find_out (SS := stable_sort) (ex_info [ex_v4 10; ex_v6 20] None ∅) ex_text (Some auto).
Proof.
  apply (coordinator_listing_order (SS := stable_sort)). split; [done..| | |]; [|by left..]. right. exists [ex_v6 20; ex_v4 10], [ex_v4 10; ex_v6 20].
  split_and!; [done..|apply perm_swap|]. apply (bool_decide_unpack _). vm_compute. exact I.
Defined.

(** The two pools of a dual-stack installation that were created in the same second: the status
    follows the order of the listing, and each listing in the other order writes it again. *)
Theorem same_second_flaps :
  ∃ st1 st2, st1 ≠ st2 ∧
    update_status (SS := stable_sort) (ex_info [ex_v4 10; ex_v6 10] None ∅) ex_text (Some calico) st2 = Ret st1 ∧
    update_status (SS := stable_sort) (ex_info [ex_v6 10; ex_v4 10] None ∅) ex_text (Some calico) st1 = Ret st2.
Proof.
  exists (MkCoordinatorStatus Synced "" (Some ["10.233.64.0/18"; "fd85:ee78::/112"]%string) (Some ["10.96.0.0/12"%string])),
    (MkCoordinatorStatus Synced "" (Some ["fd85:ee78::/112"; "10.233.64.0/18"]%string) (Some ["10.96.0.0/12"%string])).
  split; [done|]. split; vm_compute; reflexivity.
Qed.

(** The Cilium IPAM modes that do not use Cilium's pools need its pool resource nevertheless. *)
Theorem cilium_needs_multi_pool `{SS : SliceSort} Error calico_list cm st st' :
  update_status (ex_info calico_list None cm) Error (Some cilium) st = Ret st' → Phase st' = NotReady.
Proof. intros H. vm_compute in H. injection H as <-. reflexivity. Qed.

(** The IPv6 pool of Cilium's configuration is parsed as it stands: blanks around it make the
    coordinator not ready, while they are trimmed off the IPv4 pool. *)
Definition ex_cilium_cm (v4 v6 : string) : gmap string string :=
  {["ipam"%string := "cluster-pool"%string; "cluster-pool-ipv4-cidr"%string := v4; "cluster-pool-ipv6-cidr"%string := v6]}.
Theorem cilium_v6_not_trimmed `{SS : SliceSort} :
  OverlayPodCIDR <$> update_status (ex_info [] (Some (Ret [])) (ex_cilium_cm " 10.0.0.0/8" "fd00::/104")) ex_text (Some cilium) ex_new
    = Ret (Some ["10.0.0.0/8"; "fd00::/104"]%string) ∧
  Phase <$> update_status (ex_info [] (Some (Ret [])) (ex_cilium_cm "10.0.0.0/8" " fd00::/104")) ex_text (Some cilium) ex_new = Ret NotReady.
Proof. split; vm_compute; reflexivity. Qed.

(** An update of a coordinator with a type is enqueued exactly when it changes the type or the
    status: other updates of the spec are not the controller's business. *)
Theorem coordinator_update_event o n old new q :
  cs_PodCIDRType (coord_spec old) = Some o → cs_PodCIDRType (coord_spec new) = Some n → shuttingDown q = false →
  ∃ q', enqueueCoordinatorOnUpdate old new q = (Ret (), q') ∧
    (coordinator_key new ∈ dirty q' ↔ coordinator_key new ∈ dirty q ∨ o ≠ n ∨ coord_status old ≠ coord_status new).
Proof.
  intros Ho Hn Hq. assert (coordinator_key new ∈ dirty (Add (coordinator_key new) q)) as Hadd.
  { unfold Add. rewrite Hq. case_bool_decide; [done|]. cbn. set_solver. }
  unfold enqueueCoordinatorOnUpdate, type_changed. rewrite Ho, Hn. unfold mbind, cmd_bind, lift, modify. cbn.
  case_bool_decide as E; cbn [negb]; [case_bool_decide|]; eexists; (split; [done|]); naive_solver.
Qed.
