(* ===== verification/MultusConfig.v ===== *)
(** * pkg/multuscniconfig: the admission webhook of SpiderMultusConfig

    multusconfig_mutate.go, multusconfig_validate.go and multusconfig_webhook.go, with the types of
    spidermultus_types.go.  A SpiderMultusConfig describes one network attachment: the main CNI
    plugin with its options, the plugins chained after it and the coordinator. *)

From S2P Require Import Prelude NetIP K8s Retry WorkQueue IPPoolWebhook Selector NetPrefix Coordinator.
Local Open Scope Z_scope.
Local Open Scope go_scope.

(** ** The objects *)

Record BondConfig := MkBond { bond_Name : string; bond_Mode : Z; bond_Options : option string }.
Record SpiderpoolPools := MkPools { MatchMasterSubnet : option bool; IPv4IPPool : list string; IPv6IPPool : list string }.

(** Macvlan and IPvlan have the same fields. *)
Record SpiderMacvlanCniConfig := MkMacvlan {
  mv_Master : list string;
  mv_MTU : option Z;
  mv_VlanID : option Z;
  mv_Bond : option BondConfig;
  mv_RdmaResourceName : option string;
  mv_Pools : option SpiderpoolPools
}.
Abbreviation SpiderIPvlanCniConfig := SpiderMacvlanCniConfig.
Record SpiderVlanCniConfig := MkVlan {
  vl_Master : list string;
  vl_MTU : option Z;
  vl_VlanMode : option string;
  vl_VlanID : option Z;
  vl_Bond : option BondConfig;
  vl_RdmaResourceName : option string;
  vl_Pools : option SpiderpoolPools
}.
Record SpiderSRIOVCniConfig := MkSriov {
  sr_ResourceName : option string;
  sr_VlanID : option Z;
  sr_MTU : option Z;
  sr_MinTxRateMbps : option Z;
  sr_MaxTxRateMbps : option Z;
  sr_RdmaIsolation : option bool;
  sr_Pools : option SpiderpoolPools
}.
Record SpiderIBSriovCniConfig := MkIBSriov {
  ib_ResourceName : option string;
  ib_Pkey : option string;
  ib_LinkState : option string;
  ib_RdmaIsolation : option bool;
  ib_EnableIbKubernetes : option bool;
  ib_Pools : option SpiderpoolPools
}.
Record SpiderIpoibCniConfig := MkIpoib { ipo_Master : string; ipo_Pools : option SpiderpoolPools }.
Record Trunk := MkTrunk { MinID : option Z; MaxID : option Z; trunk_ID : option Z }.
Record SpiderOvsCniConfig := MkOvs {
  ov_BrName : string;
  ov_VlanTag : option Z;
  ov_Trunk : list (option Trunk);
  ov_DeviceID : string;
  ov_Pools : option SpiderpoolPools
}.

Record MultusCNIConfigSpec := MkMultusSpec {
  CniType : option string;
  MacvlanConfig : option SpiderMacvlanCniConfig;
  IPVlanConfig : option SpiderIPvlanCniConfig;
  VlanConfig : option SpiderVlanCniConfig;
  SriovConfig : option SpiderSRIOVCniConfig;
  OvsConfig : option SpiderOvsCniConfig;
  IbSriovConfig : option SpiderIBSriovCniConfig;
  IpoibConfig : option SpiderIpoibCniConfig;
  EnableCoordinator : option bool;
  DisableIPAM : option bool;
  CoordinatorConfig : option CoordinatorSpec;
  ChainCNIJsonData : list string;
  CustomCNIConfig : option string
}.
Record SpiderMultusConfig := MkMultus { smc_meta : ObjectMeta; smc_spec : MultusCNIConfigSpec }.

(** ** Constants (pkg/constant/k8s.go) *)

Definition MacvlanCNI : string := "macvlan".
Definition IPVlanCNI : string := "ipvlan".
Definition VlanCNI : string := "vlan".
Definition SriovCNI : string := "sriov".
Definition IBSriovCNI : string := "ib-sriov".
Definition IPoIBCNI : string := "ipoib".
Definition OvsCNI : string := "ovs".
Definition CustomCNI : string := "custom".
Definition VlanModeManual : string := "manual".
Definition VlanModeAuto : string := "auto".
Definition AnnoPodResourceInject : string := "cni.spidernet.io/rdma-resource-inject".
Definition AnnoNetworkResourceInject : string := "cni.spidernet.io/network-resource-inject".
Definition AnnoCNIConfigName : string := "cni.spidernet.io/cniconfig-name".
Definition AnnoNetAttachConfName : string := "multus.spidernet.io/cr-name".
Definition AnnoMultusConfigCNIVersion : string := "multus.spidernet.io/cni-version".
Definition KindSpiderMultusConfig : string := "SpiderMultusConfig".
Definition CniVersion031 : string := "0.3.1".
Definition SupportCNIVersions : list string := ["0.3.0"; CniVersion031; "0.4.0"; "1.0.0"]%string.

(** ** multusconfig_mutate.go *)

Definition no_pools : SpiderpoolPools := MkPools None [] [].

Definition setBondDefaultConfig (bond : BondConfig) : BondConfig :=
  MkBond (bond_Name bond) (bond_Mode bond) (or_default ""%string (bond_Options bond)).

(** The same defaults for IPvlan. *)
Definition setMacvlanDefaultConfig (c : SpiderMacvlanCniConfig) : SpiderMacvlanCniConfig :=
  MkMacvlan (mv_Master c) (or_default 0 (mv_MTU c)) (or_default 0 (mv_VlanID c)) (setBondDefaultConfig <$> mv_Bond c)
    (or_default ""%string (mv_RdmaResourceName c)) (or_default no_pools (mv_Pools c)).
Definition setIPVlanDefaultConfig : SpiderIPvlanCniConfig → SpiderIPvlanCniConfig := setMacvlanDefaultConfig.

Definition setVlanDefaultConfig (c : SpiderVlanCniConfig) : SpiderVlanCniConfig :=
  let vlanMode := default VlanModeManual (vl_VlanMode c) in
  MkVlan (vl_Master c) (or_default 0 (vl_MTU c)) (Some vlanMode)
    (if (vlanMode == VlanModeManual) && (vl_VlanID c == None) then Some 0 else vl_VlanID c)
    (setBondDefaultConfig <$> vl_Bond c) (or_default ""%string (vl_RdmaResourceName c)) (or_default no_pools (vl_Pools c)).

Definition setSriovDefaultConfig (c : SpiderSRIOVCniConfig) : SpiderSRIOVCniConfig :=
  MkSriov (or_default ""%string (sr_ResourceName c)) (or_default 0 (sr_VlanID c)) (or_default 0 (sr_MTU c))
    (or_default 0 (sr_MinTxRateMbps c)) (or_default 0 (sr_MaxTxRateMbps c)) (or_default false (sr_RdmaIsolation c))
    (Some match sr_Pools c with
          | None => MkPools (Some false) [] []
          | Some p => MkPools (or_default false (MatchMasterSubnet p)) (IPv4IPPool p) (IPv6IPPool p)
          end).

Definition setIBSriovDefaultConfig (c : SpiderIBSriovCniConfig) : SpiderIBSriovCniConfig :=
  MkIBSriov (or_default ""%string (ib_ResourceName c)) (or_default ""%string (ib_Pkey c)) (or_default "enable"%string (ib_LinkState c))
    (or_default true (ib_RdmaIsolation c)) (or_default false (ib_EnableIbKubernetes c)) (or_default no_pools (ib_Pools c)).

Definition setIpoibDefaultConfig (c : SpiderIpoibCniConfig) : SpiderIpoibCniConfig :=
  MkIpoib (ipo_Master c) (or_default no_pools (ipo_Pools c)).

Definition setOvsDefaultConfig (c : SpiderOvsCniConfig) : SpiderOvsCniConfig :=
  MkOvs (ov_BrName c) (or_default 0 (ov_VlanTag c)) (ov_Trunk c) (ov_DeviceID c) (or_default no_pools (ov_Pools c)).

Definition setCoordinatorDefaultConfig (coordinator : option CoordinatorSpec) : CoordinatorSpec :=
  match coordinator with
  | None => MkCoordinatorSpec (Some ModeAuto) None [] [] (Some ""%string) (Some true) (Some ""%string) None (Some 0) None (Some ""%string) None
  | Some c =>
      MkCoordinatorSpec (or_default ModeAuto (cs_Mode c)) (cs_PodCIDRType c) (cs_HijackCIDR c) (cs_PolicyRoutes c)
        (or_default ""%string (cs_PodMACPrefix c)) (or_default false (cs_TunePodRoutes c)) (or_default ""%string (cs_PodDefaultRouteNIC c))
        (cs_HostRuleTable c) (or_default 0 (cs_PodRPFilter c)) (or_default 0 (cs_TxQueueLen c)) (cs_VethLinkAddress c) (cs_VethMTU c)
  end.

(** The options of the CNI of the type, the others stay. *)
Definition default_cni (t : string) (s : MultusCNIConfigSpec) : MultusCNIConfigSpec :=
  let only {A} (cni : string) (f : A → A) (c : option A) : option A := if t == cni then f <$> c else c in
  MkMultusSpec (Some t) (only MacvlanCNI setMacvlanDefaultConfig (MacvlanConfig s)) (only IPVlanCNI setIPVlanDefaultConfig (IPVlanConfig s))
    (only VlanCNI setVlanDefaultConfig (VlanConfig s)) (only SriovCNI setSriovDefaultConfig (SriovConfig s))
    (only OvsCNI setOvsDefaultConfig (OvsConfig s)) (only IBSriovCNI setIBSriovDefaultConfig (IbSriovConfig s))
    (only IPoIBCNI setIpoibDefaultConfig (IpoibConfig s))
    (if t == CustomCNI then Some false else EnableCoordinator s) (DisableIPAM s)
    (if t == CustomCNI then None else Some (setCoordinatorDefaultConfig (CoordinatorConfig s)))
    (ChainCNIJsonData s) (if t == CustomCNI then or_default ""%string (CustomCNIConfig s) else CustomCNIConfig s).

(** The annotations that ask for the injection of resources are copied to labels. *)
Definition inject_labels (m : ObjectMeta) : ObjectMeta :=
  foldl (λ m v, match Annotations m !! v with Some value => set_label v value m | None => m end) m
    [AnnoPodResourceInject; AnnoNetworkResourceInject].

Definition mutateSpiderMultusConfig (smc : SpiderMultusConfig) : SpiderMultusConfig :=
  MkMultus (inject_labels (smc_meta smc)) (default_cni (default CustomCNI (CniType (smc_spec smc))) (smc_spec smc)).

Definition Default : SpiderMultusConfig → SpiderMultusConfig := mutateSpiderMultusConfig.

(** ** multusconfig_validate.go *)

Definition cniTypeField : string := "spec.cniType".
Definition macvlanConfigField : string := "spec.macvlanConfig".
Definition ipvlanConfigField : string := "spec.ipvlanConfig".
Definition vlanConfigField : string := "spec.vlan".
Definition sriovConfigField : string := "spec.sriovConfig".
Definition ibsriovConfigField : string := "spec.ibsriovConfig".
Definition ipoibConfigField : string := "spec.ipoibConfig".
Definition ovsConfigField : string := "spec.ovsConfig".
Definition customCniConfigField : string := "spec.customCniTypeConfig".
Definition chainCniConfigField : string := "spec.chainCNIJsonData".
Definition annotationField : string := "metadata.annotations".

Definition checkExistedConfig (spec : MultusCNIConfigSpec) (exclude : string) : bool :=
  let other (cni : string) (b : bool) : bool := (exclude != cni) && b in
  let set {A} (c : option A) : bool := match c with Some _ => true | None => false end in
  other MacvlanCNI (set (MacvlanConfig spec)) || other IPVlanCNI (set (IPVlanConfig spec)) || other VlanCNI (set (VlanConfig spec)) ||
  other OvsCNI (set (OvsConfig spec)) || other SriovCNI (set (SriovConfig spec)) || other IBSriovCNI (set (IbSriovConfig spec)) ||
  other IPoIBCNI (set (IpoibConfig spec)) || other CustomCNI (set (CustomCNIConfig spec)).

Definition validateVlanCNIConfig (master : list string) (bond : option BondConfig) : outcome unit :=
  match master with
  | [] => Fail (ErrOther "master can't be empty")
  | [_] => Ret ()
  | _ => match bond with
         | None => Fail (ErrOther "the bond property is nil with multiple Interfaces")
         | Some b => check (bond_Name b != EmptyString) (ErrOther "bond name can't be empty")
         end
  end.

Definition validateVlanID (vlanID : option Z) : outcome unit :=
  match vlanID with None => Ret () | Some v => check (bool_decide (0 ≤ v ≤ 4094)) (ErrOther "invalid vlanId") end.

Definition validateVlanMode (vlanMode : option string) (vlanID : option Z) : outcome unit :=
  match vlanMode with
  | None => Fail (ErrOther "vlanMode must not be nil")
  | Some m =>
      if m == VlanModeManual then check (vlanID != None) (ErrOther "vlanId must not be nil when vlanMode is manual")
      else if m == VlanModeAuto then check (vlanID == None) (ErrOther "vlanId must not be specified when vlanMode is auto")
      else Fail (ErrOther "invalid vlanMode")
  end.

Definition pools_configured (ippools : option SpiderpoolPools) : outcome unit :=
  match ippools with
  | None => Fail (ErrOther "no any ippools configured")
  | Some p => check (negb (length (IPv4IPPool p) + length (IPv6IPPool p) =? 0)%nat) (ErrOther "no any ippools configured")
  end.
Definition ValidateRdmaResouce (rdmaResourceName : string) (ippools : option SpiderpoolPools) : outcome unit :=
  _ ← check (rdmaResourceName != EmptyString) (ErrOther "rdmaResourceName can not empty");
  pools_configured ippools.
Definition ValidateNetworkResouce (resourceName : string) (ippools : option SpiderpoolPools) : outcome unit :=
  if resourceName == EmptyString then Ret () else pools_configured ippools.

(** [if err := ...; err != nil { return field.Invalid(path, ...) }] *)
Definition invalid (path : string) (o : outcome unit) : outcome unit :=
  match o with Fail _ => Fail (FieldInvalid path) | _ => o end.

(** The checks of the resources to inject; the RDMA one dereferences the name. *)
Definition check_resources (path : string) (injectRdma injectNetwork : bool) (resource : option string) (pools : option SpiderpoolPools)
    : outcome unit :=
  _ ← (if injectRdma then r ← deref resource; invalid path (ValidateRdmaResouce r pools) else Ret ());
  if injectNetwork then invalid path (ValidateNetworkResouce (default ""%string resource) pools) else Ret ().

Definition match_master_subnet (pools : option SpiderpoolPools) : bool :=
  match pools with Some p => default false (MatchMasterSubnet p) | None => false end.

Definition check_mtu (path : string) (mtu : option Z) : outcome unit :=
  match mtu with Some n => check (negb (n <? 0)) (FieldInvalid path) | None => Ret () end.

Section validate.
(** [libcni.ConfFromBytes] succeeds, and [json.Valid]. *)
Context (conf_valid : string → bool) (json_valid : string → bool).
Context (spec : MultusCNIConfigSpec) (injectRdma injectNetwork : bool).

Definition only_config (cni : string) : outcome unit := check (negb (checkExistedConfig spec cni)) (FieldForbidden cniTypeField).

(** The cases of macvlan and of ipvlan. *)
Definition validate_macvlan (path cni : string) (config : option SpiderMacvlanCniConfig) : outcome unit :=
  match config with
  | None => Fail (FieldRequired path)
  | Some c =>
      _ ← invalid path (validateVlanID (mv_VlanID c));
      _ ← check_mtu path (mv_MTU c);
      _ ← check (negb (match_master_subnet (mv_Pools c))) (FieldInvalid path);
      _ ← invalid path (validateVlanCNIConfig (mv_Master c) (mv_Bond c));
      _ ← only_config cni;
      check_resources path injectRdma injectNetwork (mv_RdmaResourceName c) (mv_Pools c)
  end.

Definition validate_vlan : outcome unit :=
  match VlanConfig spec with
  | None => Fail (FieldRequired vlanConfigField)
  | Some c =>
      _ ← invalid vlanConfigField (validateVlanMode (vl_VlanMode c) (vl_VlanID c));
      _ ← invalid vlanConfigField (validateVlanID (vl_VlanID c));
      _ ← check_mtu vlanConfigField (vl_MTU c);
      _ ← check (negb (match_master_subnet (vl_Pools c))) (FieldInvalid vlanConfigField);
      _ ← invalid vlanConfigField (validateVlanCNIConfig (vl_Master c) (vl_Bond c));
      _ ← only_config VlanCNI;
      check_resources vlanConfigField injectRdma injectNetwork (vl_RdmaResourceName c) (vl_Pools c)
  end.

Definition validate_sriov : outcome unit :=
  match SriovConfig spec with
  | None => Fail (FieldRequired sriovConfigField)
  | Some c =>
      _ ← invalid sriovConfigField (validateVlanID (sr_VlanID c));
      (* the message takes the MTU of the macvlan configuration *)
      _ ← match sr_MTU c with
          | Some n => if n <? 0 then m ← deref (MacvlanConfig spec); _ ← deref (mv_MTU m); Fail (FieldInvalid macvlanConfigField) else Ret ()
          | None => Ret ()
          end;
      _ ← match sr_MinTxRateMbps c, sr_MaxTxRateMbps c with
          | Some lo, Some hi => check (negb (hi <? lo)) (FieldInvalid sriovConfigField)
          | _, _ => Ret ()
          end;
      _ ← check (default ""%string (sr_ResourceName c) != EmptyString) (FieldRequired sriovConfigField);
      _ ← only_config SriovCNI;
      check_resources sriovConfigField injectRdma injectNetwork (sr_ResourceName c) (sr_Pools c)
  end.

Definition validate_ibsriov : outcome unit :=
  match IbSriovConfig spec with
  | None => Fail (FieldRequired ibsriovConfigField)
  | Some c =>
      _ ← check (default ""%string (ib_ResourceName c) != EmptyString) (FieldRequired ibsriovConfigField);
      _ ← only_config IBSriovCNI;
      check_resources ibsriovConfigField injectRdma injectNetwork (ib_ResourceName c) (ib_Pools c)
  end.

Definition validate_ipoib : outcome unit :=
  match IpoibConfig spec with
  | None => Fail (FieldRequired ipoibConfigField)
  | Some c =>
      _ ← check (ipo_Master c != EmptyString) (FieldRequired ipoibConfigField);
      _ ← only_config IPoIBCNI;
      check_resources ipoibConfigField injectRdma injectNetwork (Some (ipo_Master c)) (ipo_Pools c)
  end.

(** A range of a trunk; the lower bound is dereferenced when there is an upper one. *)
Definition validate_trunk (trunk : option Trunk) : outcome unit :=
  t ← deref trunk;
  _ ← match MinID t with Some lo => check (negb (4094 <? lo)) (FieldInvalid ovsConfigField) | None => Ret () end;
  _ ← match MaxID t with
      | Some hi => _ ← check (negb (4094 <? hi)) (FieldInvalid ovsConfigField); lo ← deref (MinID t); check (negb (hi <? lo)) (FieldInvalid ovsConfigField)
      | None => Ret ()
      end;
  match trunk_ID t with Some id => check (negb (4096 <? id)) (FieldInvalid ovsConfigField) | None => Ret () end.

Definition validate_ovs : outcome unit :=
  _ ← check (negb (injectRdma || injectNetwork)) (FieldForbidden cniTypeField);
  match OvsConfig spec with
  | None => Fail (FieldRequired ovsConfigField)
  | Some c =>
      _ ← invalid ovsConfigField (validateVlanID (ov_VlanTag c));
      _ ← for_each validate_trunk (ov_Trunk c);
      only_config OvsCNI
  end.

Definition validate_custom : outcome unit :=
  _ ← check (negb (injectRdma || injectNetwork)) (FieldForbidden cniTypeField);
  _ ← only_config CustomCNI;
  match CustomCNIConfig spec with
  | Some c => if c != EmptyString then check (json_valid c) (FieldForbidden customCniConfigField) else Ret ()
  | None => Ret ()
  end.

Definition validate_main (t : string) : outcome unit :=
  if t == MacvlanCNI then validate_macvlan macvlanConfigField MacvlanCNI (MacvlanConfig spec)
  else if t == IPVlanCNI then validate_macvlan ipvlanConfigField IPVlanCNI (IPVlanConfig spec)
  else if t == VlanCNI then validate_vlan
  else if t == SriovCNI then validate_sriov
  else if t == IBSriovCNI then validate_ibsriov
  else if t == IPoIBCNI then validate_ipoib
  else if t == OvsCNI then validate_ovs
  else if t == CustomCNI then validate_custom
  else Ret ().

Definition validate_spec : outcome unit :=
  match CniType spec with
  | None => Fail (FieldInvalid cniTypeField)
  | Some t =>
      _ ← validate_main t;
      _ ← match CoordinatorConfig spec with
          | Some c => _ ← ValidateCoordinatorSpec c false; Ret ()
          | None => Ret ()
          end;
      for_each (λ cf, check (conf_valid cf) (FieldForbidden chainCniConfigField)) (ChainCNIJsonData spec)
  end.
End validate.

Definition annotated (k : string) (smc : SpiderMultusConfig) : bool := bool_decide (is_Some (Annotations (smc_meta smc) !! k)).

Definition validateCNIConfig (conf_valid json_valid : string → bool) (smc : SpiderMultusConfig) : outcome unit :=
  validate_spec conf_valid json_valid (smc_spec smc) (annotated AnnoPodResourceInject smc) (annotated AnnoNetworkResourceInject smc).

(** The name of the net-attach-def of a configuration. *)
Definition net_attach_name (smc : SpiderMultusConfig) : string :=
  default (Name (smc_meta smc)) (Annotations (smc_meta smc) !! AnnoNetAttachConfName).

Definition validateCustomAnnoNameShouldNotBeChangeable (oldConfig newConfig : SpiderMultusConfig) : outcome unit :=
  match Annotations (smc_meta oldConfig) !! AnnoNetAttachConfName, Annotations (smc_meta newConfig) !! AnnoNetAttachConfName with
  | Some o, Some n => check (o == n) (FieldInvalid annotationField)
  | None, Some _ => Fail (FieldInvalid annotationField)
  | _, None => Ret ()
  end.

Section annotations.
(** The read of a net-attach-def from the server. *)
Context (get_nad : string → string → outcome ObjectMeta).

Definition checkNetAttachDef (smc : SpiderMultusConfig) (name : string) : outcome unit :=
  match get_nad (Namespace (smc_meta smc)) name with
  | Fail e => if not_found e then Ret () else Fail (FieldInternal annotationField e)
  | Ret nad =>
      check (forallb (λ r, negb ((or_Kind r == KindSpiderMultusConfig) && (or_Name r != Name (smc_meta smc)))) (OwnerReferences nad))
        (FieldInvalid annotationField)
  | Panic => Panic
  | OutOfFuel => OutOfFuel
  end.

Definition validateAnnotation (smc : SpiderMultusConfig) : outcome unit :=
  _ ← match Annotations (smc_meta smc) !! AnnoNetAttachConfName with
      | Some customMultusName =>
          _ ← check (IsDNS1123Subdomain customMultusName) (FieldInvalid annotationField);
          checkNetAttachDef smc customMultusName
      | None => checkNetAttachDef smc (Name (smc_meta smc))
      end;
  match Annotations (smc_meta smc) !! AnnoMultusConfigCNIVersion with
  | Some cniVersion => check (bool_decide (cniVersion ∈ SupportCNIVersions)) (FieldInvalid annotationField)
  | None => Ret ()
  end.

Definition validate (conf_valid json_valid : string → bool) (oldMultusConfig : option SpiderMultusConfig) (smc : SpiderMultusConfig) : outcome unit :=
  _ ← match oldMultusConfig with Some old => validateCustomAnnoNameShouldNotBeChangeable old smc | None => Ret () end;
  _ ← validateAnnotation smc;
  validateCNIConfig conf_valid json_valid smc.

Definition ValidateCreate (conf_valid json_valid : string → bool) (smc : SpiderMultusConfig) : outcome unit :=
  match validate conf_valid json_valid None smc with Fail _ => Fail APIInvalid | o => o end.
Definition ValidateUpdate (conf_valid json_valid : string → bool) (oldConfig newConfig : SpiderMultusConfig) : outcome unit :=
  match validate conf_valid json_valid (Some oldConfig) newConfig with Fail _ => Fail APIInvalid | o => o end.
Definition ValidateDelete (smc : SpiderMultusConfig) : outcome unit := Ret ().
End annotations.

(** ** Properties of the webhook *)

Lemma default_cni_idem t s : is_Some (CoordinatorConfig s) → default_cni t (default_cni t s) = default_cni t s.
Proof.
  intros [k Hk].
  assert (∀ b : option BondConfig, setBondDefaultConfig <$> (setBondDefaultConfig <$> b) = setBondDefaultConfig <$> b) as Hb by (by intros []).
  assert (∀ (A : Type) (f : A → A) (cni : string) (c : option A), (∀ x, f (f x) = f x) →
    (if t == cni then f <$> (if t == cni then f <$> c else c) else (if t == cni then f <$> c else c)) = (if t == cni then f <$> c else c)) as Hf.
  { intros A f cni c Hff. case_bool_decide; [|done]. destruct c; [|done]. cbn. by rewrite Hff. }
  unfold default_cni. cbn [MacvlanConfig IPVlanConfig VlanConfig SriovConfig OvsConfig IbSriovConfig IpoibConfig EnableCoordinator DisableIPAM
    CoordinatorConfig ChainCNIJsonData CustomCNIConfig]. f_equal.
  - apply Hf. intros x. destruct x. unfold setMacvlanDefaultConfig. cbn -[setBondDefaultConfig]. by rewrite Hb.
  - apply Hf. intros x. destruct x. unfold setIPVlanDefaultConfig, setMacvlanDefaultConfig. cbn -[setBondDefaultConfig]. by rewrite Hb.
  - apply Hf. intros [ma mt mo vi bo re po]. unfold setVlanDefaultConfig. cbn -[setBondDefaultConfig]. rewrite Hb.
    destruct mo as [mo|], vi as [vi|]; cbn; repeat case_bool_decide; done.
  - apply Hf. intros x. by destruct x as [? ? ? ? ? ? []].
  - apply Hf. intros x. by destruct x.
  - apply Hf. intros x. by destruct x.
  - apply Hf. intros x. by destruct x.
  - by case_bool_decide.
  - case_bool_decide; [done|]. by rewrite Hk.
  - by case_bool_decide.
Qed.

Lemma inject_labels_idem m : inject_labels (inject_labels m) = inject_labels m.
Proof.
  destruct m as [n ns u v ls a fs os d]. unfold inject_labels, set_label, set_Labels. cbn.
  destruct (a !! AnnoPodResourceInject) eqn:E1, (a !! AnnoNetworkResourceInject) eqn:E2; repeat (cbn; rewrite ?E1, ?E2); try done; cbn; f_equal.
  - rewrite (insert_insert_ne _ AnnoPodResourceInject AnnoNetworkResourceInject) by done. by rewrite !insert_insert_eq.
  - by rewrite insert_insert_eq.
  - by rewrite insert_insert_eq.
Qed.

(** Defaulting is idempotent once something of the coordinator is configured, which it is after the
    first time: the mutating webhook may be called again on what it returned. *)
Theorem multus_default_idempotent smc : is_Some (CoordinatorConfig (smc_spec smc)) → Default (Default smc) = Default smc.
Proof.
  intros Hc. unfold Default, mutateSpiderMultusConfig. cbn [smc_meta smc_spec]. rewrite inject_labels_idem. f_equal.
  change (CniType (default_cni ?t ?s)) with (Some t). by apply default_cni_idem.
Qed.

(** The first defaulting of an object without coordinator leaves the queue length unset, and a
    second one sets it. *)
Theorem multus_default_twice s : CniType s = Some MacvlanCNI → CoordinatorConfig s = None →
  (CoordinatorConfig (default_cni MacvlanCNI s) ≫= cs_TxQueueLen) = None ∧
  (CoordinatorConfig (default_cni MacvlanCNI (default_cni MacvlanCNI s)) ≫= cs_TxQueueLen) = Some 0.
Proof. intros _ Hc. unfold default_cni. cbn. by rewrite Hc. Qed.

(** ** Where validation goes wrong *)

(** A trunk with an upper bound only. *)
Theorem trunk_without_min_panics hi id : hi ≤ 4094 → validate_trunk (Some (MkTrunk None (Some hi) id)) = Panic.
Proof. intros Hh. unfold validate_trunk. cbn. by rewrite (proj2 (Z.ltb_ge 4094 hi)). Qed.

(** A minimal transmit rate without a maximal one: the default of the maximum is 0, which means no
    limit, but the minimum is compared with it. *)
Theorem min_rate_needs_max c s b1 b2 n :
  sr_MinTxRateMbps c = Some n → sr_MaxTxRateMbps c = None → 0 < n → default 0 (sr_VlanID c) = 0 → 0 ≤ default 0 (sr_MTU c) →
  SriovConfig s = Some c → validate_sriov (default_cni SriovCNI s) b1 b2 = Fail (FieldInvalid sriovConfigField).
Proof.
  intros H1 H2 Hn Hv Hm Hs. unfold validate_sriov. change (SriovConfig (default_cni SriovCNI s)) with (setSriovDefaultConfig <$> SriovConfig s).
  rewrite Hs. cbn. rewrite H1, H2, Hv. cbn. rewrite (proj2 (Z.ltb_ge _ 0)) by done. cbn. by rewrite (proj2 (Z.ltb_lt 0 n)).
Qed.

(** The annotation that names the net-attach-def cannot be added or changed, but it can be
    removed, which changes the name too. *)
Theorem custom_name_removable old new :
  Annotations (smc_meta new) !! AnnoNetAttachConfName = None → validateCustomAnnoNameShouldNotBeChangeable old new = Ret ().
Proof. intros H. unfold validateCustomAnnoNameShouldNotBeChangeable. rewrite H. by case_match. Qed.

(** Routes are tuned by default only when nothing of the coordinator is configured. *)
Theorem tune_routes_default :
  cs_TunePodRoutes (setCoordinatorDefaultConfig None) = Some true ∧
  ∀ c, cs_TunePodRoutes c = None → cs_TunePodRoutes (setCoordinatorDefaultConfig (Some c)) = Some false.
Proof. split; [done|]. intros c H. cbn. by rewrite H. Qed.
