(* ===== verification/MultusSync.v ===== *)
(** * pkg/multuscniconfig: the controller of SpiderMultusConfig

    multusconfig_informer.go: the controller writes, for every SpiderMultusConfig, the
    NetworkAttachmentDefinition that Multus reads, with the configuration of the chain of CNI
    plugins.  Configurations of plugins are values; the JSON codec that turns a chain into text and
    the checks of libcni are parameters. *)

From S2P Require Import Prelude NetIP K8s Retry WorkQueue IPPoolWebhook GCScan Selector NetPrefix Coordinator MultusConfig.
Local Open Scope Z_scope.
Local Open Scope go_scope.

(** ** Configurations of plugins (utils.go) *)

Record IPAMConfig := MkIPAM { ipam_Type : string; DefaultIPv4IPPool : list string; DefaultIPv6IPPool : list string; ipam_MatchMasterSubnet : bool }.

Record MacvlanNetConf := MkMacvlanConf { mc_Master : string; mc_Mode : string; mc_MTU : option Z; mc_IPAM : option IPAMConfig }.
Record IPvlanNetConf := MkIPvlanConf { ic_Master : string; ic_MTU : option Z; ic_IPAM : option IPAMConfig }.
Record VlanNetConf := MkVlanConf {
  vc_Master : string; vc_VlanMode : option string; vc_VlanID : option Z; vc_MTU : option Z; vc_IPAM : option IPAMConfig }.
Record SRIOVNetConf := MkSriovConf { sc_Vlan : option Z; sc_MinTxRate : option Z; sc_MaxTxRate : option Z; sc_IPAM : option IPAMConfig }.
Record IBSRIOVNetConf := MkIBSriovConf {
  ibc_Pkey : option string; ibc_LinkState : option string; ibc_RdmaIsolation : option bool; ibc_IBKubernetesEnabled : option bool;
  ibc_IPAM : option IPAMConfig }.
Record IPoIBNetConf := MkIPoIBConf { ipc_Master : string; ipc_IPAM : option IPAMConfig }.
Record OvsNetConf := MkOvsConf {
  oc_Vlan : option Z; oc_BrName : string; oc_DeviceID : string; oc_IPAM : option IPAMConfig; oc_Trunk : list (option Trunk) }.
Record IfacerNetConf := MkIfacerConf { if_VlanID : Z; if_Interfaces : list string; if_Bond : option BondConfig }.
Record CoordinatorNetConf := MkCoordinatorConf {
  cc_TxQueueLen : option Z; cc_VethLinkAddress : string; cc_VethMTU : option Z; cc_TunePodRoutes : option bool; cc_MacPrefix : string;
  cc_Mode : string; cc_PodDefaultRouteNIC : string; cc_PodRPFilter : option Z; cc_HijackCIDR : list string; cc_PolicyRoutes : list Route }.

(** An element of the chain, by its type; [PChain] is a plugin given as JSON. *)
Inductive plugin (J : Type) :=
  | PMacvlan (c : MacvlanNetConf)
  | PIPvlan (c : IPvlanNetConf)
  | PVlan (c : VlanNetConf)
  | PSriov (c : SRIOVNetConf)
  | PIBSriov (c : IBSRIOVNetConf)
  | PIPoIB (c : IPoIBNetConf)
  | POvs (c : OvsNetConf)
  | PRdma
  | PTuning (mtu : Z)
  | PIfacer (c : IfacerNetConf)
  | PCoordinator (c : CoordinatorNetConf)
  | PChain (v : J).
Arguments PMacvlan {J} _.
Arguments PIPvlan {J} _.
Arguments PVlan {J} _.
Arguments PSriov {J} _.
Arguments PIBSriov {J} _.
Arguments PIPoIB {J} _.
Arguments POvs {J} _.
Arguments PRdma {J}.
Arguments PTuning {J} _.
Arguments PIfacer {J} _.
Arguments PCoordinator {J} _.
Arguments PChain {J} _.

(** [json.Unmarshal] into an empty interface, and [json.Marshal] of a configuration list. *)
Class CNIJson := {
  json_value : Type;
  json_parse : string → option json_value;
  encode_conflist : string → string → list (plugin json_value) → string
}.

Definition Spiderpool : string := "spiderpool".

Definition ipam_of (disableIPAM : bool) (pools : option SpiderpoolPools) (subnet : bool) : option IPAMConfig :=
  if disableIPAM then None
  else Some match pools with
            | Some p => MkIPAM Spiderpool (IPv4IPPool p) (IPv6IPPool p) subnet
            | None => MkIPAM Spiderpool [] [] false
            end.

(** The interface under the main plugin: the only master, or the bond of several. *)
Definition base_name (master : list string) (bond : option BondConfig) : outcome string :=
  match master with
  | [m] => Ret m
  | _ => b ← deref bond; Ret (bond_Name b)
  end.

(** [fmt.Sprintf("%d", n)] *)
Definition sprintf_d (n : Z) : string := if n <? 0 then "-" +:+ itoa (- n) else itoa n.

Definition sub_interface (masterName : string) (vlanID : option Z) : string :=
  match vlanID with
  | Some v => if v != 0 then masterName +:+ "." +:+ sprintf_d v else masterName
  | None => masterName
  end.

Section generate.
Context `{JS : CNIJson}.
Abbreviation plugin := (plugin json_value).
Context (disableIPAM : bool).

Definition generateMacvlanCNIConf (c : SpiderMacvlanCniConfig) : outcome plugin :=
  masterName ← base_name (mv_Master c) (mv_Bond c);
  Ret (PMacvlan (MkMacvlanConf (sub_interface masterName (mv_VlanID c)) "bridge" (mv_MTU c) (ipam_of disableIPAM (mv_Pools c) false))).

Definition generateIPvlanCNIConf (c : SpiderIPvlanCniConfig) : outcome plugin :=
  masterName ← base_name (mv_Master c) (mv_Bond c);
  Ret (PIPvlan (MkIPvlanConf (sub_interface masterName (mv_VlanID c)) (mv_MTU c) (ipam_of disableIPAM (mv_Pools c) false))).

Definition generateVlanCNIConf (c : SpiderVlanCniConfig) : outcome plugin :=
  masterName ← base_name (vl_Master c) (vl_Bond c);
  Ret (PVlan (MkVlanConf masterName (vl_VlanMode c) (if vl_VlanMode c == Some VlanModeManual then vl_VlanID c else None) (vl_MTU c)
    (ipam_of disableIPAM (vl_Pools c) false))).

Definition generateSriovCNIConf (c : SpiderSRIOVCniConfig) : plugin :=
  PSriov (MkSriovConf (sr_VlanID c) (sr_MinTxRateMbps c) (sr_MaxTxRateMbps c)
    (ipam_of disableIPAM (sr_Pools c) (match_master_subnet (sr_Pools c)))).

Definition generateIBSriovCNIConf (c : SpiderIBSriovCniConfig) : plugin :=
  PIBSriov (MkIBSriovConf (ib_Pkey c) (ib_LinkState c) (ib_RdmaIsolation c) (ib_EnableIbKubernetes c) (ipam_of disableIPAM (ib_Pools c) false)).

Definition generateIpoibCNIConf (c : SpiderIpoibCniConfig) : plugin :=
  PIPoIB (MkIPoIBConf (ipo_Master c) (ipam_of disableIPAM (ipo_Pools c) false)).

Definition generateOvsCNIConf (c : SpiderOvsCniConfig) : plugin :=
  POvs (MkOvsConf (ov_VlanTag c) (ov_BrName c) (ov_DeviceID c) (ipam_of disableIPAM (ov_Pools c) false) (ov_Trunk c)).

Definition generateIfacer (master : list string) (vlanID : Z) (bond : option BondConfig) : plugin :=
  PIfacer (MkIfacerConf vlanID master bond).

(** The filter of the Pod is copied when the type of its CIDRs is set. *)
Definition generateCoordinatorCNIConf (coordinatorSpec : option CoordinatorSpec) : plugin :=
  PCoordinator match coordinatorSpec with
  | None => MkCoordinatorConf None "" None None "" "" "" None [] []
  | Some s =>
      MkCoordinatorConf (cs_TxQueueLen s) (default ""%string (cs_VethLinkAddress s)) (cs_VethMTU s) (cs_TunePodRoutes s)
        (default ""%string (cs_PodMACPrefix s)) (default ""%string (cs_Mode s)) (default ""%string (cs_PodDefaultRouteNIC s))
        (if cs_PodCIDRType s != None then cs_PodRPFilter s else None) (cs_HijackCIDR s) (cs_PolicyRoutes s)
  end.

Fixpoint chain_plugins (data : list string) : outcome (list plugin) :=
  match data with
  | [] => Ret []
  | cf :: data =>
      match json_parse cf with
      | None => Fail (ErrOther "failed to unmarshal chain cni config")
      | Some v => rest ← chain_plugins data; Ret (PChain v :: rest)
      end
  end.

Definition needs_ifacer (vlanID : option Z) (master : list string) : bool :=
  match vlanID with Some v => v != 0 | None => false end || (2 <=? length master)%nat.

(** The cases of macvlan and ipvlan: the interface first, when it has to be made. *)
Definition with_ifacer (c : SpiderMacvlanCniConfig) (plugins : list plugin) : outcome (list plugin) :=
  if needs_ifacer (mv_VlanID c) (mv_Master c)
  then v ← deref (mv_VlanID c); Ret (generateIfacer (mv_Master c) v (mv_Bond c) :: plugins)
  else Ret plugins.

(** The chain of the type around the plugins that are given. *)
Definition main_chain (t : string) (spec : MultusCNIConfigSpec) (plugins : list plugin) : outcome (list plugin) :=
  if t == MacvlanCNI then
    c ← deref (MacvlanConfig spec); p ← generateMacvlanCNIConf c; with_ifacer c (p :: plugins)
  else if t == IPVlanCNI then
    c ← deref (IPVlanConfig spec); p ← generateIPvlanCNIConf c; with_ifacer c (p :: plugins)
  else if t == VlanCNI then
    c ← deref (VlanConfig spec); p ← generateVlanCNIConf c;
    Ret (if (2 <=? length (vl_Master c))%nat then generateIfacer (vl_Master c) 0 (vl_Bond c) :: p :: plugins else p :: plugins)
  else if t == SriovCNI then
    c ← deref (SriovConfig spec);
    let plugins := if default false (sr_RdmaIsolation c) then PRdma :: plugins else plugins in
    let plugins := generateSriovCNIConf c :: plugins in
    Ret (match sr_MTU c with Some mtu => if 0 <? mtu then plugins ++ [PTuning mtu] else plugins | None => plugins end)
  else if t == IBSriovCNI then
    c ← deref (IbSriovConfig spec); Ret (generateIBSriovCNIConf c :: plugins)
  else if t == IPoIBCNI then
    c ← deref (IpoibConfig spec); Ret (generateIpoibCNIConf c :: plugins)
  else
    c ← deref (OvsConfig spec); Ret (generateOvsCNIConf c :: plugins).
End generate.

(** ** The net-attach-def *)

Record NetAttachDef := MkNetAttachDef { nad_meta : ObjectMeta; nad_Config : string }.

Definition ResourceNameAnnot : string := "k8s.v1.cni.cncf.io/resourceName".
Definition ResourceNameOvsCniValue : string := "ovs-cni.network.kubevirt.io".

Definition cni_types : list string := [MacvlanCNI; IPVlanCNI; VlanCNI; SriovCNI; IBSriovCNI; IPoIBCNI; OvsCNI].

Section net_attach_def.
Context `{JS : CNIJson} (json_valid : string → bool).

(** The resource of the device plugin that the annotation names. *)
Definition resource_annotation (t : string) (spec : MultusCNIConfigSpec) (anno : gmap string string) : outcome (gmap string string) :=
  if t == SriovCNI then
    c ← deref (SriovConfig spec); r ← deref (sr_ResourceName c); Ret (<[ResourceNameAnnot := r]> anno)
  else if t == IBSriovCNI then
    c ← deref (IbSriovConfig spec); r ← deref (ib_ResourceName c); Ret (<[ResourceNameAnnot := r]> anno)
  else if t == OvsCNI then
    c ← deref (OvsConfig spec);
    Ret (if ov_DeviceID c != EmptyString then <[ResourceNameAnnot := ResourceNameOvsCniValue +:+ "/" +:+ ov_BrName c]> anno else anno)
  else Ret anno.

Definition generateNetAttachDef (netAttachName : string) (smc : SpiderMultusConfig) : outcome NetAttachDef :=
  let spec := smc_spec smc in
  let anno := Annotations (smc_meta smc) in
  chain ← chain_plugins (ChainCNIJsonData spec);
  hasCoordinator ← deref (EnableCoordinator spec);
  let plugins := if hasCoordinator : bool then chain ++ [generateCoordinatorCNIConf (CoordinatorConfig spec)] else chain in
  let disableIPAM := default false (DisableIPAM spec) in
  let cniVersion := default CniVersion031 (anno !! AnnoMultusConfigCNIVersion) in
  let cniConfigName := match anno !! AnnoCNIConfigName with
                       | Some n => if n == EmptyString then netAttachName else n
                       | None => netAttachName
                       end in
  t ← deref (CniType spec);
  '(anno, confStr) ←
    (if bool_decide (t ∈ cni_types) then
       anno ← resource_annotation t spec anno;
       plugins ← main_chain disableIPAM t spec plugins;
       Ret (anno, encode_conflist cniConfigName cniVersion plugins)
     else if t == CustomCNI then
       match CustomCNIConfig spec with
       | Some c => if c != EmptyString then
                     if json_valid c then Ret (anno, c) else Fail (ErrOther "customCniConfig isn't a valid JSON encoding")
                   else Ret (anno, ""%string)
       | None => Ret (anno, ""%string)
       end
     else Fail ErrWrongInput);
  Ret (MkNetAttachDef (MkMeta netAttachName (Namespace (smc_meta smc)) "" 0 ∅ anno [] [] None) confStr).
End net_attach_def.

(** ** The controller *)

(** The calls of the client. *)
Class NadClient (S : Type) := {
  nad_create : NetAttachDef → cmd S unit;
  nad_update : NetAttachDef → cmd S unit
}.

(** [reflect.DeepEqual] of the annotations read and those generated: an empty map that was read is
    nil, the generated one is not. *)
Definition annotations_equal (stored generated : gmap string string) : bool := (stored == generated) && (generated != ∅).

Section controller.
Context `{JS : CNIJson} (json_valid : string → bool).
Context {S : Type} `{NC : NadClient S}.
(** The read of the net-attach-def. *)
Context (get_nad : string → string → outcome NetAttachDef).

(** The stored object with what differs replaced, and whether something does. *)
Definition refresh_nad (smc : SpiderMultusConfig) (stored generated : NetAttachDef) : NetAttachDef * bool :=
  let '(m, b1) := if negb (annotations_equal (Annotations (nad_meta stored)) (Annotations (nad_meta generated)))
                  then (set_Annotations (Annotations (nad_meta generated)) (nad_meta stored), true) else (nad_meta stored, false) in
  let '(c, b2) := if nad_Config stored != nad_Config generated then (nad_Config generated, true) else (nad_Config stored, false) in
  let '(m, b3) := if negb (IsControlledBy m (smc_meta smc)) then (set_OwnerReferences (OwnerReferences (nad_meta generated)) m, true) else (m, false) in
  (MkNetAttachDef m c, b1 || b2 || b3).

Definition write_nad (smc : SpiderMultusConfig) (old : option NetAttachDef) (generated : NetAttachDef) : cmd S unit :=
  match old with
  | Some nad =>
      if DeletionTimestamp (nad_meta nad) != None then lift (Fail (ErrOther "the old net-attach-def is terminating, wait for a while"))
      else
        let '(nad, isNeedUpdate) := refresh_nad smc nad generated in
        if isNeedUpdate : bool then nad_update nad else mret ()
  | None => nad_create generated
  end.

Definition syncHandler (smc : SpiderMultusConfig) : cmd S unit :=
  if DeletionTimestamp (smc_meta smc) != None then mret ()
  else
    let netAttachName := net_attach_name smc in
    old ← lift match get_nad (Namespace (smc_meta smc)) netAttachName with
               | Ret nad => Ret (Some nad)
               | Fail e => if not_found e then Ret None else Fail e
               | Panic => Panic
               | OutOfFuel => OutOfFuel
               end;
    generated ← lift (generateNetAttachDef json_valid netAttachName smc);
    meta ← lift (set_controller_reference KindSpiderMultusConfig (smc_meta smc) (nad_meta generated));
    write_nad smc old (MkNetAttachDef meta (nad_Config generated)).
End controller.

Section worker.
Context `{JS : CNIJson} (json_valid : string → bool) {S : Type} `{NC : NadClient S}.
Context (WorkQueueRequeueDelayDuration WorkQueueMaxRetries : Z).

Definition enqueueMultusConfig (smc : SpiderMultusConfig) : cmd (workqueue string) unit := modify (Add (MetaNamespaceKey (smc_meta smc))).

(** [cached] and [get_nad] are reads at the moment of processing. *)
Definition process (cached : string → string → outcome SpiderMultusConfig) (get_nad : S → string → string → outcome NetAttachDef)
    (now bucket : Z) (key : string) (s : S) : cmd (workqueue string) unit * S :=
  match SplitMetaNamespaceKey key with
  | Ret (ns, name) =>
      match cached ns name with
      | Fail e => (if not_found e then modify (Forget key) else modify (AddRateLimited now bucket key), s)
      | Ret smc =>
          let '(r, s) := syncHandler json_valid (get_nad s) smc s in
          (settle WorkQueueRequeueDelayDuration WorkQueueMaxRetries conflict now bucket key r, s)
      | Panic => (lift Panic, s)
      | OutOfFuel => (lift OutOfFuel, s)
      end
  | _ => (modify (Forget key), s)
  end.

Definition processNextWorkItem cached get_nad now bucket (env : workqueue string → workqueue string) (w : S * workqueue string)
    : option (outcome bool * (S * workqueue string)) := work env (process cached get_nad now bucket) w.
End worker.

(** ** What is generated for an admitted configuration *)

(** The [type] of a plugin in the chain. *)
Definition plugin_type {J} (p : plugin J) : option string :=
  match p with
  | PMacvlan _ => Some MacvlanCNI
  | PIPvlan _ => Some IPVlanCNI
  | PVlan _ => Some VlanCNI
  | PSriov _ => Some SriovCNI
  | PIBSriov _ => Some IBSriovCNI
  | PIPoIB _ => Some IPoIBCNI
  | POvs _ => Some OvsCNI
  | PRdma => Some "rdma"%string
  | PTuning _ => Some "tuning"%string
  | PIfacer _ => Some "ifacer"%string
  | PCoordinator _ => Some "coordinator"%string
  | PChain _ => None
  end.

(** The master interface of a plugin that has one. *)
Definition plugin_master {J} (p : plugin J) : option string :=
  match p with
  | PMacvlan c => Some (mc_Master c)
  | PIPvlan c => Some (ic_Master c)
  | PVlan c => Some (vc_Master c)
  | _ => None
  end.

(** An interface has to be made of these masters: a VLAN, a bond or both, all with valid options. *)
Definition ifacer_ok (c : IfacerNetConf) : Prop :=
  0 ≤ if_VlanID c ≤ 4094 ∧ if_Interfaces c ≠ [] ∧
  (if_VlanID c ≠ 0 ∨ (2 ≤ length (if_Interfaces c))%nat) ∧
  ((2 ≤ length (if_Interfaces c))%nat → ∃ b, if_Bond c = Some b ∧ bond_Name b ≠ EmptyString).

(** The interface an ifacer makes: the bond of several masters or the only one, with its VLAN. *)
Definition ifacer_target (c : IfacerNetConf) : outcome string :=
  base ← base_name (if_Interfaces c) (if_Bond c); Ret (sub_interface base (Some (if_VlanID c))).

(** The masters, the VLAN and the bond that the options of a type give; [None] for a type whose
    plugin has no master to be made. *)
Definition master_options (t : string) (spec : MultusCNIConfigSpec) : option IfacerNetConf :=
  if t == MacvlanCNI then (λ c, MkIfacerConf (default 0 (mv_VlanID c)) (mv_Master c) (mv_Bond c)) <$> MacvlanConfig spec
  else if t == IPVlanCNI then (λ c, MkIfacerConf (default 0 (mv_VlanID c)) (mv_Master c) (mv_Bond c)) <$> IPVlanConfig spec
  else if t == VlanCNI then (λ c, MkIfacerConf 0 (vl_Master c) (vl_Bond c)) <$> VlanConfig spec
  else None.

(** What stands in front of the main plugin: nothing when its master is the only interface given, and
    otherwise, for a VLAN or several interfaces, the ifacer that makes its master. *)
Definition prepared {J} (masters : option IfacerNetConf) (before : list (plugin J)) (main : plugin J) : Prop :=
  match masters with
  | None => before = []
  | Some c =>
      (if_VlanID c = 0 ∧ ∃ m, if_Interfaces c = [m] ∧ before = [] ∧ plugin_master main = Some m) ∨
      (ifacer_ok c ∧ before = [PIfacer c] ∧ ∃ m, ifacer_target c = Ret m ∧ plugin_master main = Some m)
  end.

Lemma validateVlanCNIConfig_Ret master bond : validateVlanCNIConfig master bond = Ret () →
  master ≠ [] ∧ ((2 ≤ length master)%nat → ∃ b, bond = Some b ∧ bond_Name b ≠ EmptyString).
Proof.
  destruct master as [|m [|m' l]]; cbn; [done| |].
  - intros _. split; [done|lia].
  - destruct bond as [b|]; [|done]. intros H%check_Ret%negb_true_iff%bool_decide_eq_false. eauto.
Qed.

Lemma invalid_Ret path o : invalid path o = Ret () → o = Ret ().
Proof. by destruct o as [[]| | |]. Qed.

Lemma base_name_ok master bond : master ≠ [] → ((2 ≤ length master)%nat → ∃ b, bond = Some b ∧ bond_Name b ≠ EmptyString) →
  ∃ m, base_name master bond = Ret m.
Proof.
  intros Hm Hb. destruct master as [|m [|m' l]]; [done|by eexists|]. destruct Hb as (b & -> & _); [cbn; lia|]. by eexists.
Qed.

Section chains.
Context `{JS : CNIJson} (conf_valid json_valid : string → bool).
Implicit Types rest : list (plugin json_value).

(** What validation leaves of the masters of macvlan and ipvlan. *)
Lemma validate_macvlan_Ret spec path cni b1 b2 c : validate_macvlan spec b1 b2 path cni (Some (setMacvlanDefaultConfig c)) = Ret () →
  0 ≤ default 0 (mv_VlanID c) ≤ 4094 ∧ mv_Master c ≠ [] ∧
  ((2 ≤ length (mv_Master c))%nat → ∃ b, setBondDefaultConfig <$> mv_Bond c = Some b ∧ bond_Name b ≠ EmptyString).
Proof.
  intros H. unfold validate_macvlan in H. inv_ret.
  match goal with H : invalid _ (validateVlanID _) = _ |- _ => apply invalid_Ret in H; cbn in H; apply check_Ret, bool_decide_eq_true in H; rename H into Hv end.
  match goal with H : invalid _ (validateVlanCNIConfig _ _) = _ |- _ => apply invalid_Ret, validateVlanCNIConfig_Ret in H as [Hne Hb] end.
  split_and!; [lia|lia|done|done].
Qed.

(** An ifacer made of checked options fits, and without one the only interface is the master. *)
Lemma prepared_made c (main : plugin json_value) : ifacer_ok c →
  (∃ m, ifacer_target c = Ret m ∧ plugin_master main = Some m) → prepared (Some c) [PIfacer c] main.
Proof. intros H ?. by right. Qed.

Lemma prepared_plain v master bond m (main : plugin json_value) : v = 0 → ¬ (2 ≤ length master)%nat → base_name master bond = Ret m → master ≠ [] →
  plugin_master main = Some m → prepared (Some (MkIfacerConf v master bond)) [] main.
Proof.
  intros -> Hl Hm Hne Hp. left. destruct master as [|m0 [|m1 l]]; [done| |cbn in Hl; lia]. apply Ret_inj in Hm as <-. eauto.
Qed.

(** The macvlan and ipvlan chains of options that were defaulted and checked. *)
Lemma with_ifacer_ok spec path cni b1 b2 c rest (main : plugin json_value) m :
  validate_macvlan spec b1 b2 path cni (Some (setMacvlanDefaultConfig c)) = Ret () →
  base_name (mv_Master c) (setBondDefaultConfig <$> mv_Bond c) = Ret m → plugin_master main = Some (sub_interface m (or_default 0 (mv_VlanID c))) →
  ∃ before, with_ifacer (setMacvlanDefaultConfig c) (main :: rest) = Ret (before ++ main :: rest) ∧
    prepared (Some (MkIfacerConf (default 0 (mv_VlanID c)) (mv_Master c) (setBondDefaultConfig <$> mv_Bond c))) before main.
Proof.
  intros (Hv & Hne & Hb)%validate_macvlan_Ret Hm Hp. unfold with_ifacer, needs_ifacer.
  cbn [mv_VlanID mv_Master mv_Bond setMacvlanDefaultConfig or_default deref].
  destruct (_ || _) eqn:E; cbn [mbind outcome_bind].
  - eexists [_]. split; [done|]. apply prepared_made.
    + split_and!; cbn; [lia|lia|done| |done]. apply orb_true_iff in E as [E%negb_true_iff%bool_decide_eq_false|E%Nat.leb_le]; auto.
    + eexists. split; [|exact Hp]. unfold ifacer_target. cbn. by rewrite Hm.
  - apply orb_false_iff in E as [E%negb_false_iff%bool_decide_eq_true El%Nat.leb_gt]. exists []. split; [done|].
    apply (prepared_plain _ _ _ m); [done|lia|done|done|]. rewrite Hp. unfold or_default. cbn [sub_interface]. rewrite E. done.
Qed.

Lemma master_ok spec path cni b1 b2 c :
  validate_macvlan spec b1 b2 path cni (Some (setMacvlanDefaultConfig c)) = Ret () →
  ∃ m, base_name (mv_Master c) (setBondDefaultConfig <$> mv_Bond c) = Ret m.
Proof. intros (_ & Hne & Hb)%validate_macvlan_Ret. by apply base_name_ok. Qed.

Lemma macvlan_chain_ok spec path cni b1 b2 disable c rest :
  validate_macvlan spec b1 b2 path cni (Some (setMacvlanDefaultConfig c)) = Ret () →
  let masters := MkIfacerConf (default 0 (mv_VlanID c)) (mv_Master c) (setBondDefaultConfig <$> mv_Bond c) in
  (∃ before main, (p ← generateMacvlanCNIConf disable (setMacvlanDefaultConfig c); with_ifacer (setMacvlanDefaultConfig c) (p :: rest))
     = Ret (before ++ main :: rest) ∧ plugin_type main = Some MacvlanCNI ∧ prepared (Some masters) before main) ∧
  (∃ before main, (p ← generateIPvlanCNIConf disable (setMacvlanDefaultConfig c); with_ifacer (setMacvlanDefaultConfig c) (p :: rest))
     = Ret (before ++ main :: rest) ∧ plugin_type main = Some IPVlanCNI ∧ prepared (Some masters) before main).
Proof.
  intros H. destruct (master_ok _ _ _ _ _ _ H) as [m Hm]. unfold generateMacvlanCNIConf, generateIPvlanCNIConf. cbn [mv_Master mv_Bond setMacvlanDefaultConfig].
  rewrite Hm. cbn [mbind outcome_bind].
  split; edestruct (with_ifacer_ok spec path cni b1 b2 c rest) as (before & Hw & Hp); [exact H|exact Hm| |by eexists; eexists
    |exact H|exact Hm| |by eexists; eexists]; reflexivity.
Qed.

Lemma vlan_chain_ok spec b1 b2 disable c rest : VlanConfig spec = Some (setVlanDefaultConfig c) → validate_vlan spec b1 b2 = Ret () →
  ∃ before main, main_chain disable VlanCNI spec rest = Ret (before ++ main :: rest) ∧ plugin_type main = Some VlanCNI ∧
    prepared (Some (MkIfacerConf 0 (vl_Master c) (setBondDefaultConfig <$> vl_Bond c))) before main.
Proof.
  intros Hc H. unfold validate_vlan in H. rewrite Hc in H. inv_ret.
  match goal with H : invalid _ (validateVlanCNIConfig _ _) = _ |- _ => apply invalid_Ret, validateVlanCNIConfig_Ret in H as [Hne Hb] end.
  destruct (base_name_ok _ _ Hne Hb) as [m Hm]. unfold main_chain. cbn [bool_decide decide]. rewrite Hc.
  rewrite !bool_decide_false, bool_decide_true by done. cbn [deref mbind outcome_bind]. unfold generateVlanCNIConf. rewrite Hm. cbn [mbind outcome_bind].
  cbn [vl_Master vl_Bond setVlanDefaultConfig] in *.
  destruct (Nat.leb_spec 2 (length (vl_Master c))) as [Hl|Hl]; [eexists [_]|exists []]; (eexists; split; [reflexivity|]; split; [done|]).
  - apply prepared_made; [split_and!; cbn; auto; lia|]. eexists. split; [|reflexivity]. unfold ifacer_target. cbn -[base_name]. by rewrite Hm.
  - apply (prepared_plain _ _ _ m); [done|lia|done|done|reflexivity].
Qed.

(** The optional plugins of SR-IOV: the RDMA isolation right after the main plugin, the tuning of a
    positive MTU at the end. *)
Definition isolation (t : string) (spec : MultusCNIConfigSpec) : list (plugin json_value) :=
  match (if t == SriovCNI then SriovConfig spec ≫= sr_RdmaIsolation else None) with Some true => [PRdma] | _ => [] end.
Definition tuning (t : string) (spec : MultusCNIConfigSpec) : list (plugin json_value) :=
  match (if t == SriovCNI then SriovConfig spec ≫= sr_MTU else None) with
  | Some mtu => if 0 <? mtu then [PTuning mtu] else []
  | None => []
  end.

(** The options that count for a type after the defaulting, and the chain of each type. *)
Lemma default_vlan s : VlanConfig (default_cni VlanCNI s) = setVlanDefaultConfig <$> VlanConfig s.
Proof. reflexivity. Qed.
Lemma default_sriov s : SriovConfig (default_cni SriovCNI s) = setSriovDefaultConfig <$> SriovConfig s.
Proof. reflexivity. Qed.
Lemma default_ibsriov s : IbSriovConfig (default_cni IBSriovCNI s) = setIBSriovDefaultConfig <$> IbSriovConfig s.
Proof. reflexivity. Qed.
Lemma default_ipoib s : IpoibConfig (default_cni IPoIBCNI s) = setIpoibDefaultConfig <$> IpoibConfig s.
Proof. reflexivity. Qed.
Lemma default_ovs s : OvsConfig (default_cni OvsCNI s) = setOvsDefaultConfig <$> OvsConfig s.
Proof. reflexivity. Qed.

Lemma default_custom s : CustomCNIConfig (default_cni CustomCNI s) = or_default ""%string (CustomCNIConfig s).
Proof. reflexivity. Qed.
Lemma inject_labels_name m : Namespace (inject_labels m) = Namespace m.
Proof. unfold inject_labels. cbn. by repeat case_match. Qed.

Lemma main_chain_macvlan s d rest : main_chain d MacvlanCNI (default_cni MacvlanCNI s) rest =
  (c ← deref (setMacvlanDefaultConfig <$> MacvlanConfig s); p ← generateMacvlanCNIConf d c; with_ifacer c (p :: rest)).
Proof. reflexivity. Qed.
Lemma main_chain_ipvlan s d rest : main_chain d IPVlanCNI (default_cni IPVlanCNI s) rest =
  (c ← deref (setMacvlanDefaultConfig <$> IPVlanConfig s); p ← generateIPvlanCNIConf d c; with_ifacer c (p :: rest)).
Proof. reflexivity. Qed.
Lemma main_chain_sriov s d rest : main_chain d SriovCNI (default_cni SriovCNI s) rest =
  (c ← deref (setSriovDefaultConfig <$> SriovConfig s);
   let plugins := generateSriovCNIConf d c :: (if default false (sr_RdmaIsolation c) then PRdma :: rest else rest) in
   Ret (match sr_MTU c with Some mtu => if 0 <? mtu then plugins ++ [PTuning mtu] else plugins | None => plugins end)).
Proof. reflexivity. Qed.
Lemma main_chain_ibsriov s d rest : main_chain d IBSriovCNI (default_cni IBSriovCNI s) rest =
  (c ← deref (setIBSriovDefaultConfig <$> IbSriovConfig s); Ret (generateIBSriovCNIConf d c :: rest)).
Proof. reflexivity. Qed.
Lemma main_chain_ipoib s d rest : main_chain d IPoIBCNI (default_cni IPoIBCNI s) rest =
  (c ← deref (setIpoibDefaultConfig <$> IpoibConfig s); Ret (generateIpoibCNIConf d c :: rest)).
Proof. reflexivity. Qed.
Lemma main_chain_ovs s d rest : main_chain d OvsCNI (default_cni OvsCNI s) rest =
  (c ← deref (setOvsDefaultConfig <$> OvsConfig s); Ret (generateOvsCNIConf d c :: rest)).
Proof. reflexivity. Qed.

Lemma master_options_macvlan s : master_options MacvlanCNI (default_cni MacvlanCNI s) =
  (λ c, MkIfacerConf (default 0 (mv_VlanID c)) (mv_Master c) (setBondDefaultConfig <$> mv_Bond c)) <$> MacvlanConfig s.
Proof. unfold master_options. cbn. by destruct (MacvlanConfig s). Qed.
Lemma master_options_ipvlan s : master_options IPVlanCNI (default_cni IPVlanCNI s) =
  (λ c, MkIfacerConf (default 0 (mv_VlanID c)) (mv_Master c) (setBondDefaultConfig <$> mv_Bond c)) <$> IPVlanConfig s.
Proof. unfold master_options. cbn. by destruct (IPVlanConfig s). Qed.
Lemma master_options_vlan s : master_options VlanCNI (default_cni VlanCNI s) =
  (λ c, MkIfacerConf 0 (vl_Master c) (setBondDefaultConfig <$> vl_Bond c)) <$> VlanConfig s.
Proof. unfold master_options. cbn. by destruct (VlanConfig s). Qed.

(** The chain is complete around the plugins given, and has the parts in the order of the CNI
    specification: what makes the master, the main plugin, the others. *)
Lemma main_chain_ok s b1 b2 disable t rest : t ∈ cni_types → validate_main json_valid (default_cni t s) b1 b2 t = Ret () →
  let spec := default_cni t s in
  ∃ before main, main_chain disable t spec rest = Ret (before ++ main :: isolation t spec ++ rest ++ tuning t spec) ∧
    plugin_type main = Some t ∧ prepared (master_options t spec) before main.
Proof.
  cbv zeta.
  assert (∀ before main, t ≠ SriovCNI → main_chain disable t (default_cni t s) rest = Ret (before ++ main :: rest) → plugin_type main = Some t →
    prepared (master_options t (default_cni t s)) before main →
    ∃ before main, main_chain disable t (default_cni t s) rest = Ret (before ++ main :: isolation t (default_cni t s) ++ rest ++ tuning t (default_cni t s)) ∧
    plugin_type main = Some t ∧ prepared (master_options t (default_cni t s)) before main) as Hplain.
  { intros before main Hs E Ht Hp. exists before, main. unfold isolation, tuning. rewrite !bool_decide_false by done. by rewrite app_nil_r. }
  intros Ht H. unfold cni_types in Ht. repeat (apply elem_of_cons in Ht as [->|Ht]); [| | | | | | |by apply elem_of_nil in Ht].
  - change (validate_macvlan (default_cni MacvlanCNI s) b1 b2 macvlanConfigField MacvlanCNI (setMacvlanDefaultConfig <$> MacvlanConfig s) = Ret ()) in H.
    destruct (MacvlanConfig s) as [c|] eqn:Ec; [|done]. destruct (macvlan_chain_ok _ _ _ _ _ disable _ rest H) as [(before & main & E & E1 & E2) _].
    apply (Hplain before main); [done|by rewrite main_chain_macvlan, Ec|done|]. by rewrite master_options_macvlan, Ec.
  - change (validate_macvlan (default_cni IPVlanCNI s) b1 b2 ipvlanConfigField IPVlanCNI (setMacvlanDefaultConfig <$> IPVlanConfig s) = Ret ()) in H.
    destruct (IPVlanConfig s) as [c|] eqn:Ec; [|done]. destruct (macvlan_chain_ok _ _ _ _ _ disable _ rest H) as [_ (before & main & E & E1 & E2)].
    apply (Hplain before main); [done|by rewrite main_chain_ipvlan, Ec|done|]. by rewrite master_options_ipvlan, Ec.
  - change (validate_vlan (default_cni VlanCNI s) b1 b2 = Ret ()) in H. pose proof H as H'. unfold validate_vlan in H'. rewrite default_vlan in H'.
    destruct (VlanConfig s) as [c|] eqn:Ec; [|done].
    destruct (vlan_chain_ok (default_cni VlanCNI s) b1 b2 disable c rest) as (before & main & E & E1 & E2); [by rewrite default_vlan, Ec|exact H|].
    apply (Hplain before main); [done..|]. by rewrite master_options_vlan, Ec.
  - change (validate_sriov (default_cni SriovCNI s) b1 b2 = Ret ()) in H. unfold validate_sriov in H. rewrite default_sriov in H.
    destruct (SriovConfig s) as [c|] eqn:Ec; [|done]. rewrite main_chain_sriov, Ec. cbn [fmap option_fmap option_map deref mbind outcome_bind].
    cbn [setSriovDefaultConfig sr_RdmaIsolation sr_MTU or_default default].
    exists [], (generateSriovCNIConf disable (setSriovDefaultConfig c)). split; [|done].
    unfold isolation, tuning. rewrite default_sriov, Ec, !(bool_decide_true (SriovCNI = SriovCNI)) by done.
    cbn [fmap option_fmap option_map mbind option_bind setSriovDefaultConfig sr_RdmaIsolation sr_MTU or_default].
    destruct (default false (sr_RdmaIsolation c)), (0 <? default 0 (sr_MTU c)); cbn; by rewrite ?app_nil_r.
  - change (validate_ibsriov (default_cni IBSriovCNI s) b1 b2 = Ret ()) in H. unfold validate_ibsriov in H. rewrite default_ibsriov in H.
    destruct (IbSriovConfig s) as [c|] eqn:Ec; [|done]. eapply (Hplain []); [done|rewrite main_chain_ibsriov, Ec; reflexivity|done|reflexivity].
  - change (validate_ipoib (default_cni IPoIBCNI s) b1 b2 = Ret ()) in H. unfold validate_ipoib in H. rewrite default_ipoib in H.
    destruct (IpoibConfig s) as [c|] eqn:Ec; [|done]. eapply (Hplain []); [done|rewrite main_chain_ipoib, Ec; reflexivity|done|reflexivity].
  - change (validate_ovs (default_cni OvsCNI s) b1 b2 = Ret ()) in H. unfold validate_ovs in H. inv_ret. rewrite default_ovs in H.
    destruct (OvsConfig s) as [c|] eqn:Ec; [|done]. eapply (Hplain []); [done|rewrite main_chain_ovs, Ec; reflexivity|done|reflexivity].
Qed.

Lemma resource_annotation_ok s b1 b2 t anno : t ∈ cni_types → validate_main json_valid (default_cni t s) b1 b2 t = Ret () →
  ∃ anno', resource_annotation t (default_cni t s) anno = Ret anno'.
Proof.
  intros Ht H. unfold cni_types in Ht. repeat (apply elem_of_cons in Ht as [->|Ht]); [by eexists|by eexists|by eexists| | |by eexists| |by apply elem_of_nil in Ht].
  - change (validate_sriov (default_cni SriovCNI s) b1 b2 = Ret ()) in H. unfold validate_sriov in H. rewrite default_sriov in H.
    unfold resource_annotation. rewrite bool_decide_true, default_sriov by done. destruct (SriovConfig s); [|done]. by eexists.
  - change (validate_ibsriov (default_cni IBSriovCNI s) b1 b2 = Ret ()) in H. unfold validate_ibsriov in H. rewrite default_ibsriov in H.
    unfold resource_annotation. rewrite bool_decide_false, bool_decide_true, default_ibsriov by done. destruct (IbSriovConfig s); [|done]. by eexists.
  - change (validate_ovs (default_cni OvsCNI s) b1 b2 = Ret ()) in H. unfold validate_ovs in H. inv_ret. rewrite default_ovs in H.
    unfold resource_annotation. rewrite !bool_decide_false, bool_decide_true, default_ovs by done. destruct (OvsConfig s); [|done]. by eexists.
Qed.

Lemma chain_plugins_ok data js : Forall2 (λ cf v, json_parse cf = Some v) data js → chain_plugins data = Ret (PChain <$> js).
Proof. induction 1 as [|cf v data js E _ IH]; cbn [chain_plugins]; [done|]. by rewrite E, IH. Qed.

Lemma multus_ValidateCreate_Ret get_nad smc t : ValidateCreate get_nad conf_valid json_valid smc = Ret () → CniType (smc_spec smc) = Some t →
  validate_main json_valid (smc_spec smc) (annotated AnnoPodResourceInject smc) (annotated AnnoNetworkResourceInject smc) t = Ret ().
Proof.
  intros H Ht. unfold ValidateCreate, validate, validateCNIConfig, validate_spec in H. rewrite Ht in H.
  destruct (_ ≫= _) as [[]| | |] eqn:E in H; try done. inv_ret. done.
Qed.

(** C27: of a configuration that the webhook defaulted and admitted, whose coordinator switch is set
    (the API server defaults it) and whose chained JSON texts decode, the controller generates a
    net-attach-def, without an error or a panic.  Its text is the custom one, or it encodes exactly
    this chain: the plugin of the type, behind an ifacer exactly when a VLAN or several masters are
    given (and then the interface it makes is the master of the main plugin, otherwise the only
    interface given is), the RDMA isolation of SR-IOV, the chained plugins in their order, the
    coordinator when it is enabled, the tuning of a positive MTU of SR-IOV.  That the chained texts
    decode is assumed: the webhook runs another decoder over them, the one of libcni. *)
Theorem multus_admitted_generates get_nad smc t name js b :
  CniType (smc_spec (Default smc)) = Some t → t ∈ CustomCNI :: cni_types →
  ValidateCreate get_nad conf_valid json_valid (Default smc) = Ret () →
  EnableCoordinator (smc_spec (Default smc)) = Some b →
  Forall2 (λ cf v, json_parse cf = Some v) (ChainCNIJsonData (smc_spec smc)) js →
  ∃ nad, generateNetAttachDef json_valid name (Default smc) = Ret nad ∧
    Name (nad_meta nad) = name ∧ Namespace (nad_meta nad) = Namespace (smc_meta smc) ∧
    (t = CustomCNI → nad_Config nad = default ""%string (CustomCNIConfig (smc_spec smc))) ∧
    (t ≠ CustomCNI → ∃ cniName version before main,
      nad_Config nad = encode_conflist cniName version (before ++ main :: isolation t (smc_spec (Default smc)) ++ ((PChain <$> js) ++
        (if b then [generateCoordinatorCNIConf (CoordinatorConfig (smc_spec (Default smc)))] else [])) ++ tuning t (smc_spec (Default smc))) ∧
      plugin_type main = Some t ∧ prepared (master_options t (smc_spec (Default smc))) before main).
Proof.
  intros Ht Hin Hv Hb Hjs. pose proof (multus_ValidateCreate_Ret _ _ _ Hv Ht) as Hm. unfold generateNetAttachDef. rewrite Hb, Ht.
  change (ChainCNIJsonData (smc_spec (Default smc))) with (ChainCNIJsonData (smc_spec smc)). rewrite (chain_plugins_ok _ _ Hjs). cbn [mbind outcome_bind deref].
  assert (smc_spec (Default smc) = default_cni t (smc_spec smc)) as E by (injection Ht as <-; reflexivity). rewrite E in *.
  apply elem_of_cons in Hin as [->|Hin].
  - rewrite bool_decide_false by (apply (bool_decide_unpack _); vm_compute; exact I). rewrite bool_decide_true by done.
    change (validate_main json_valid ?s ?x ?y CustomCNI) with (validate_custom json_valid s x y) in Hm. unfold validate_custom in Hm. inv_ret.
    rewrite default_custom in *. unfold or_default in *. set (c := default ""%string (CustomCNIConfig (smc_spec smc))) in *.
    assert (Namespace (inject_labels (smc_meta smc)) = Namespace (smc_meta smc)) as Hns by apply inject_labels_name.
    case_bool_decide as Hc; cbn [negb] in *; [|apply check_Ret in Hm; rewrite Hm]; (eexists; split_and!; [reflexivity|done|exact Hns|by rewrite ?Hc|done]).
  - rewrite bool_decide_true by done. destruct (resource_annotation_ok _ _ _ _ (Annotations (smc_meta (Default smc))) Hin Hm) as [anno ->].
    cbn [mbind outcome_bind]. set (rest := if b then _ else _).
    destruct (main_chain_ok _ _ _ (default false (DisableIPAM (default_cni t (smc_spec smc)))) _ rest Hin Hm) as (before & main & E1 & E2 & E3).
    rewrite E1. cbn [mbind outcome_bind]. eexists. split_and!; [reflexivity|done|apply inject_labels_name| |].
    + intros ->. exfalso. revert Hin. apply (bool_decide_unpack _). vm_compute. exact I.
    + intros _. do 2 eexists. exists before, main. split; [|done]. cbn [nad_Config]. do 4 f_equal. subst rest. by destruct b; rewrite ?app_nil_r.
Qed.
End chains.

(** ** The stored net-attach-def *)

Definition nad_key (o : NetAttachDef) : string * string := (Namespace (nad_meta o), Name (nad_meta o)).

(** What the server stores of an object that is written. *)
Definition stored_nad (uid : string) (v : Z) (o : NetAttachDef) : NetAttachDef :=
  let m := nad_meta o in
  MkNetAttachDef (MkMeta (Name m) (Namespace m) uid v (Labels m) (Annotations m) (Finalizers m) (OwnerReferences m) (DeletionTimestamp m)) (nad_Config o).

(** A creation needs a free name, an update the version that is stored; after an error the write
    may or may not have been applied. *)
Class NadLaws (S : Type) `{NadClient S} := {
  nad_view : S → gmap (string * string) NetAttachDef;
  nad_valid : S → Prop;
  nad_view_key : ∀ s k o, nad_valid s → nad_view s !! k = Some o → nad_key o = k;
  create_applied : ∀ o s r s', nad_create o s = (r, s') →
    (nad_view s' = nad_view s ∧ r ≠ Ret ()) ∨
    ∃ uid v, nad_view s !! nad_key o = None ∧ nad_view s' = <[nad_key o := stored_nad uid v o]> (nad_view s);
  nad_update_applied : ∀ o s r s', nad_update o s = (r, s') →
    (nad_view s' = nad_view s ∧ r ≠ Ret ()) ∨
    ∃ old v, nad_view s !! nad_key o = Some old ∧ ResourceVersion (nad_meta old) = ResourceVersion (nad_meta o) ∧
      nad_view s' = <[nad_key o := stored_nad (UID (nad_meta old)) v o]> (nad_view s)
}.

Section settles.
Context `{JS : CNIJson} (json_valid : string → bool) {S : Type} `{NC : NadClient S} `{NL : !NadLaws S}.
Implicit Types (s : S) (smc : SpiderMultusConfig).

(** A cache that is up to date. *)
Definition read_nad (s : S) (ns name : string) : outcome NetAttachDef :=
  match nad_view s !! (ns, name) with Some o => Ret o | None => Fail APINotFound end.

Lemma set_controller_reference_fresh owner m m' : OwnerReferences m = [] → set_controller_reference KindSpiderMultusConfig owner m = Ret m' →
  IsControlledBy m' owner = true ∧ Name m' = Name m ∧ Namespace m' = Namespace m ∧ Annotations m' = Annotations m ∧ DeletionTimestamp m' = DeletionTimestamp m.
Proof.
  intros Ho. unfold set_controller_reference, GetControllerOf, upsertOwnerRef. rewrite Ho. cbn. case_match; [done|]. intros [= <-]. cbn.
  split_and!; try done. unfold IsControlledBy, GetControllerOf. cbn. rewrite decide_True by done. cbn. by rewrite bool_decide_true.
Qed.

Lemma generate_meta name smc gen : generateNetAttachDef json_valid name smc = Ret gen →
  Name (nad_meta gen) = name ∧ Namespace (nad_meta gen) = Namespace (smc_meta smc) ∧ OwnerReferences (nad_meta gen) = [] ∧
  DeletionTimestamp (nad_meta gen) = None.
Proof. unfold generateNetAttachDef. intros H. inv_ret. destruct x2 as [a c]. inv_ret. done. Qed.

(** An object that is as it should be is left alone. *)
Lemma refresh_nothing smc stored gen :
  annotations_equal (Annotations (nad_meta stored)) (Annotations (nad_meta gen)) = true → nad_Config stored = nad_Config gen →
  IsControlledBy (nad_meta stored) (smc_meta smc) = true → (refresh_nad smc stored gen).2 = false.
Proof. intros H1 H2 H3. unfold refresh_nad. rewrite H1, H2. cbn. rewrite bool_decide_true by done. cbn. by rewrite H3. Qed.

Lemma refresh_spec smc stored gen : let '(o, b) := refresh_nad smc stored gen in IsControlledBy (nad_meta gen) (smc_meta smc) = true →
  Annotations (nad_meta o) = Annotations (nad_meta gen) ∧ nad_Config o = nad_Config gen ∧ IsControlledBy (nad_meta o) (smc_meta smc) = true ∧
  nad_key o = nad_key stored ∧ DeletionTimestamp (nad_meta o) = DeletionTimestamp (nad_meta stored) ∧ (b = false → o = stored).
Proof.
  unfold refresh_nad. destruct (annotations_equal _ _) eqn:Ea; cbn [negb].
  - apply andb_true_iff in Ea as [Ea%bool_decide_eq_true _]. case_bool_decide as Ec; cbn [negb];
      destruct (IsControlledBy (nad_meta stored) (smc_meta smc)) eqn:Ei; cbn; intros Hg; split_and!; try done; destruct stored; cbn in *; by subst.
  - case_bool_decide as Ec; cbn [negb]; destruct (IsControlledBy (set_Annotations _ _) (smc_meta smc)) eqn:Ei; cbn; intros Hg; split_and!; try done.
Qed.

(** C28: after a successful sync, on an up-to-date cache, of a configuration that is not being deleted,
    the server has the net-attach-def of the configuration: the generated text and annotations,
    controlled by the configuration, under the name of the configuration or of its annotation; no
    other is touched; and if the generated annotations are not empty, the next sync writes nothing.
    (Without annotations every sync writes it again, see [empty_annotations_rewritten].) *)
Theorem multus_sync_settles smc s s' :
  nad_valid s → DeletionTimestamp (smc_meta smc) = None → syncHandler json_valid (read_nad s) smc s = (Ret (), s') →
  ∃ gen nad, generateNetAttachDef json_valid (net_attach_name smc) smc = Ret gen ∧
    nad_view s' = <[(Namespace (smc_meta smc), net_attach_name smc) := nad]> (nad_view s) ∧
    nad_Config nad = nad_Config gen ∧ Annotations (nad_meta nad) = Annotations (nad_meta gen) ∧
    IsControlledBy (nad_meta nad) (smc_meta smc) = true ∧
    (Annotations (nad_meta gen) ≠ ∅ → syncHandler json_valid (read_nad s') smc s' = (Ret (), s')).
Proof.
  intros Hv Hd H. unfold syncHandler in H. rewrite Hd in H. rewrite bool_decide_true in H by done. cbn [negb] in H.
  apply cmd_bind_Ret in H as (old & s1 & [Hold ->]%lift_Ret & H). apply cmd_bind_Ret in H as (gen & s1 & [Hgen ->]%lift_Ret & H).
  apply cmd_bind_Ret in H as (m & s1 & [Hm ->]%lift_Ret & H). destruct (generate_meta _ _ _ Hgen) as (G1 & G2 & G3 & G4).
  destruct (set_controller_reference_fresh _ _ _ G3 Hm) as (M1 & M2 & M3 & M4 & M5). set (new := MkNetAttachDef m (nad_Config gen)) in *.
  assert (∀ nad, nad_view s' = <[(Namespace (smc_meta smc), net_attach_name smc) := nad]> (nad_view s) → nad_Config nad = nad_Config gen →
    Annotations (nad_meta nad) = Annotations (nad_meta gen) → IsControlledBy (nad_meta nad) (smc_meta smc) = true → DeletionTimestamp (nad_meta nad) = None →
    Annotations (nad_meta gen) ≠ ∅ → syncHandler json_valid (read_nad s') smc s' = (Ret (), s')) as Hrest.
  { intros nad Hw Hc Ha Hi Hdel Hne. unfold syncHandler, mbind, cmd_bind, lift. rewrite Hd, bool_decide_true by done. cbn [negb].
    unfold read_nad. rewrite Hw, lookup_insert_eq, Hgen, Hm. cbn [write_nad]. rewrite Hdel, bool_decide_true by done. cbn [negb].
    fold new. pose proof (refresh_nothing smc nad new) as Hn. destruct (refresh_nad smc nad new) as [o b]. cbn [snd] in Hn. rewrite Hn; [done| |done|done].
    unfold annotations_equal. cbn [nad_meta new]. rewrite M4. apply andb_true_iff. split; [by apply bool_decide_eq_true|]. apply negb_true_iff, bool_decide_eq_false. done. }
  unfold read_nad in Hold. destruct (nad_view s !! (Namespace (smc_meta smc), net_attach_name smc)) as [stored|] eqn:Ev; injection Hold as <-; cbn [write_nad] in H.
  - case_bool_decide as Hsd; cbn [negb] in H; [|done]. pose proof (nad_view_key _ _ _ Hv Ev) as Hk. pose proof (refresh_spec smc stored new) as Hr.
    destruct (refresh_nad smc stored new) as [o b]. destruct (Hr M1) as (R1 & R2 & R3 & R4 & R5 & R6). cbn [nad_meta new] in R1. rewrite M4 in R1. destruct b.
    + destruct (nad_update_applied _ _ _ _ H) as [[_ ?]|(old & v & _ & _ & Hw)]; [done|]. rewrite R4, Hk in Hw.
      exists gen, (stored_nad (UID (nad_meta old)) v o). split_and!; try done. apply (Hrest (stored_nad (UID (nad_meta old)) v o)); try done. cbn. congruence.
    + injection H as <-. rewrite (R6 eq_refl) in *. exists gen, stored. split_and!; try done; [by rewrite insert_id|]. apply (Hrest stored); try done. by rewrite insert_id.
  - destruct (create_applied _ _ _ _ H) as [[_ ?]|(uid & v & _ & Hw)]; [done|].
    assert (nad_key new = (Namespace (smc_meta smc), net_attach_name smc)) as Hk by (unfold nad_key; cbn; congruence). rewrite Hk in Hw.
    exists gen, (stored_nad uid v new). split_and!; try done. apply (Hrest (stored_nad uid v new)); try done. cbn. congruence.
Qed.

(** Without annotations, the object that is stored is written again by every sync. *)
Theorem empty_annotations_rewritten smc s gen stored :
  DeletionTimestamp (smc_meta smc) = None → generateNetAttachDef json_valid (net_attach_name smc) smc = Ret gen →
  Annotations (nad_meta gen) = ∅ → read_nad s (Namespace (smc_meta smc)) (net_attach_name smc) = Ret stored →
  DeletionTimestamp (nad_meta stored) = None → nad_Config stored = nad_Config gen → Annotations (nad_meta stored) = ∅ →
  IsControlledBy (nad_meta stored) (smc_meta smc) = true →
  syncHandler json_valid (read_nad s) smc s = nad_update stored s.
Proof.
  intros Hd Hg Ha Hr Hs Hc Hsa Hi. destruct (generate_meta _ _ _ Hg) as (G1 & G2 & G3 & G4).
  unfold syncHandler, mbind, cmd_bind, lift. rewrite Hd, bool_decide_true by done. cbn [negb]. rewrite Hr, Hg.
  assert (∃ m, set_controller_reference KindSpiderMultusConfig (smc_meta smc) (nad_meta gen) = Ret m) as [m Hm].
  { unfold set_controller_reference, GetControllerOf. rewrite G3. cbn. rewrite G2, andb_comm, bool_decide_true by done. by eexists. }
  rewrite Hm. destruct (set_controller_reference_fresh _ _ _ G3 Hm) as (M1 & M2 & M3 & M4 & M5). cbn [write_nad]. rewrite Hs, bool_decide_true by done. cbn [negb].
  unfold refresh_nad, annotations_equal. cbn [nad_meta nad_Config]. rewrite M4, Ha, Hsa, Hc. rewrite !bool_decide_true by done. cbn [negb andb].
  assert (set_Annotations ∅ (nad_meta stored) = nad_meta stored) as E by (destruct stored as [[] ?]; cbn in *; by subst). rewrite E, Hi. cbn.
  by destruct stored; cbn in *; subst.
Qed.
End settles.

(** ** A server, for concrete runs *)

Record nad_store := MkNadStore { nads : gmap (string * string) NetAttachDef; nad_clock : Z }.

#[export] Instance mem_nads : NadClient nad_store := {|
  nad_create o s :=
    match nads s !! nad_key o with
    | Some _ => (Fail APIAlreadyExists, s)
    | None => (Ret (), MkNadStore (<[nad_key o := stored_nad (itoa (nad_clock s)) (nad_clock s) o]> (nads s)) (nad_clock s + 1))
    end;
  nad_update o s :=
    match nads s !! nad_key o with
    | None => (Fail APINotFound, s)
    | Some old =>
        if ResourceVersion (nad_meta old) == ResourceVersion (nad_meta o)
        then (Ret (), MkNadStore (<[nad_key o := stored_nad (UID (nad_meta old)) (nad_clock s) o]> (nads s)) (nad_clock s + 1))
        else (Fail APIConflict, s)
    end
|}.
#[export] Instance mem_nads_laws : NadLaws nad_store.
Proof.
  refine {| nad_view := nads; nad_valid s := ∀ k o, nads s !! k = Some o → nad_key o = k |}; [by eauto|..].
  - intros o s r s'. cbn. destruct (nads s !! nad_key o) eqn:E; intros [= <- <-]; [by left|right]. eauto.
  - intros o s r s'. cbn. destruct (nads s !! nad_key o) as [old|] eqn:E; [case_bool_decide|]; intros [= <- <-]; [right|by left..]. eauto.
Defined.

(** ** Witnesses *)

(** A codec that shows the types of the chain. *)
Definition shown_plugin (p : plugin string) : string :=
  match p with
  | PChain v => v
  | PMacvlan c => "macvlan on " +:+ mc_Master c
  | PIfacer c => "ifacer"
  | PCoordinator c => "coordinator"
  | _ => "plugin"
  end.
Definition ex_json : CNIJson := {|
  json_value := string;
  json_parse s := if s == EmptyString then None else Some s;
  encode_conflist name version plugins := name +:+ " " +:+ version +:+ ": " +:+ join ", " (shown_plugin <$> plugins)
|}.

Definition ex_macvlan : SpiderMacvlanCniConfig :=
  MkMacvlan ["eth0"; "eth1"]%string None (Some 100) (Some (MkBond "bond0" 1 None)) None None.
Definition ex_multus (anno : gmap string string) : SpiderMultusConfig :=
  MkMultus (MkMeta "net" "kube-system" "uid-m" 1 ∅ anno [] [] None)
    (MkMultusSpec (Some MacvlanCNI) (Some ex_macvlan) None None None None None None (Some true) (Some false) None ["tuning"%string] None).

Definition ex_no_nad (ns name : string) : outcome ObjectMeta := Fail APINotFound.

Lemma multus_admitted_generates_witness :
  let smc := ex_multus ∅ in
  nad_Config <$> generateNetAttachDef (JS := ex_json) (λ _, true) "net" (Default smc) =
    Ret "net 0.3.1: ifacer, macvlan on bond0.100, tuning, coordinator"%string ∧
  ∃ nad, generateNetAttachDef (JS := ex_json) (λ _, true) "net" (Default smc) = Ret nad ∧
    Name (nad_meta nad) = "net"%string ∧ Namespace (nad_meta nad) = "kube-system"%string ∧
    (MacvlanCNI = CustomCNI → nad_Config nad = default ""%string (CustomCNIConfig (smc_spec smc))) ∧
    (MacvlanCNI ≠ CustomCNI → ∃ cniName version before main,
      nad_Config nad = encode_conflist (CNIJson := ex_json) cniName version
        (before ++ main :: isolation MacvlanCNI (smc_spec (Default smc)) ++ ((PChain <$> ["tuning"%string]) ++
        [generateCoordinatorCNIConf (CoordinatorConfig (smc_spec (Default smc)))]) ++ tuning MacvlanCNI (smc_spec (Default smc))) ∧
      plugin_type main = Some MacvlanCNI ∧ prepared (master_options MacvlanCNI (smc_spec (Default smc))) before main).
Proof.
  cbv zeta. split; [vm_compute; reflexivity|].
  refine (multus_admitted_generates (JS := ex_json) (λ _, true) (λ _, true) ex_no_nad (ex_multus ∅) MacvlanCNI "net" ["tuning"%string] true _ _ _ _ _).
  - reflexivity.
  - right. left.
  - vm_compute. reflexivity.
  - reflexivity.
  - repeat constructor.
Defined.

(** The stored object was changed by hand. *)
Definition ex_anno : gmap string string := {[AnnoMultusConfigCNIVersion := "0.4.0"%string]}.
Definition ex_stored (anno : gmap string string) : NetAttachDef :=
  MkNetAttachDef (MkMeta "net" "kube-system" "uid-n" 3 ∅ anno [] [] None) "edited".
Definition ex_store (anno : gmap string string) : nad_store :=
  MkNadStore {[("kube-system", "net")%string := ex_stored anno]} 4.

Lemma multus_sync_settles_witness :
  let smc := Default (ex_multus ex_anno) in
  let s' := (syncHandler (JS := ex_json) (λ _, true) (read_nad (ex_store ex_anno)) smc (ex_store ex_anno)).2 in
  (nad_Config <$> nads s' !! ("kube-system", "net")%string) = Some "net 0.4.0: ifacer, macvlan on bond0.100, tuning, coordinator"%string ∧
  ∃ gen nad, generateNetAttachDef (JS := ex_json) (λ _, true) "net" smc = Ret gen ∧
    nads s' = <[("kube-system", "net")%string := nad]> (nads (ex_store ex_anno)) ∧
    nad_Config nad = nad_Config gen ∧ Annotations (nad_meta nad) = Annotations (nad_meta gen) ∧
    IsControlledBy (nad_meta nad) (smc_meta smc) = true ∧
    (Annotations (nad_meta gen) ≠ ∅ → syncHandler (JS := ex_json) (λ _, true) (read_nad s') smc s' = (Ret (), s')).
Proof.
  cbv zeta. split; [vm_compute; reflexivity|].
  refine (multus_sync_settles (JS := ex_json) (λ _, true) (Default (ex_multus ex_anno)) (ex_store ex_anno)
    (syncHandler (JS := ex_json) (λ _, true) (read_nad (ex_store ex_anno)) (Default (ex_multus ex_anno)) (ex_store ex_anno)).2 _ _ _).
  - intros k o. cbn [nads ex_store]. by intros [<- <-]%lookup_singleton_Some.
  - reflexivity.
  - vm_compute. reflexivity.
Defined.

(** The reverse path filter of the Pod reaches the coordinator only when the type of the Pod CIDRs
    is set as well, which a SpiderMultusConfig need not have. *)
Theorem rp_filter_lost `{JS : CNIJson} s f : cs_PodRPFilter s = Some f → cs_PodCIDRType s = None →
  ∃ c, generateCoordinatorCNIConf (Some s) = PCoordinator c ∧ cc_PodRPFilter c = None.
Proof. intros _ Ht. eexists. split; [reflexivity|]. cbn. by rewrite Ht. Qed.
