(* ===== verification/Ifacer.v ===== *)
(** * cmd/ifacer: the CNI plugin that makes the master interface

    types.go, utils.go, cmd_add.go and cmd_del.go, with LinkAdd and LinkSetBondSlave of
    pkg/networking/networking/ip.go: from its configuration the plugin makes a VLAN interface, a
    bond of several interfaces, or a VLAN on a bond, on the node.  The kernel's devices are reached
    through netlink, a parameter: the class [Netlink], with what is relied on in [NetlinkLaws]. *)

From S2P Require Import Prelude NetIP K8s Retry Convert Selector MultusConfig MultusSync.
Local Open Scope Z_scope.
Local Open Scope go_scope.

(** ** Configuration *)

Record Bond := MkIfBond { ib_Name : string; ib_Mode : Z; ib_Options : string }.
Record Ifacer := MkIfacer { Interfaces : list string; VlanID : Z; if_bond : option Bond }.

Definition DefaultBondName : string := "sp_bond0".

(** The checks after the JSON is decoded. *)
Definition ParseConfig (decoded : option Ifacer) : outcome Ifacer :=
  match decoded with
  | None => Fail (ErrOther "failed to parse config")
  | Some conf =>
      _ ← check (Interfaces conf != []) (ErrOther "invalid config: interfaces have at least one interface");
      _ ← check (bool_decide (0 ≤ VlanID conf ≤ 4094)) (ErrOther "invalid vlan tag");
      Ret (MkIfacer (Interfaces conf) (VlanID conf)
        ((λ b, if ib_Name b == EmptyString then MkIfBond DefaultBondName (ib_Mode b) (ib_Options b) else b) <$> if_bond conf))
  end.

Definition validateBondMode (mode : Z) : outcome unit := check (bool_decide (mode ∈ [0; 1; 2; 3; 4; 5; 6])) (ErrOther "unknown bond mode").

Definition getVlanIfaceName (master : string) (vlanID : Z) : string := master +:+ "." +:+ sprintf_d vlanID.

(** ** Options of a bond *)

(** The options by their JSON names. *)
Record BondOptions := MkBondOptions {
  ActiveSlave : string;
  AdActorSystem : string;
  Primary : string;
  ArpIPTargets : list string;
  AdActorSysPrio : Z;
  AdSelect : Z;
  AdUserPortKey : Z;
  AllSlavesActive : Z;
  ArpInterval : Z;
  ArpValidate : Z;
  ArpAllTargets : Z;
  DownDelay : Z;
  FailOverMac : Z;
  LacpRate : Z;
  Miimon : Z;
  MinLinks : Z;
  PacketsPerSlave : Z;
  PrimaryReselect : Z;
  TlbDynamicLb : Z;
  UpDelay : Z;
  UseCarrier : Z;
  XmitHashPolicy : Z;
  LpInterval : Z;
  ResendIgmp : Z;
  NumPeerNotif : Z
}.

(** A [netlink.Bond]: the numeric fields by name, those not set having their defaults. *)
Record NetlinkBond := MkNetlinkBond {
  nb_Name : string;
  nb_Mode : Z;
  nb_fields : gmap string Z;
  nb_AdActorSystem : string;
  nb_ArpIpTargets : list IP
}.

Definition set_field (f : string) (v : Z) (b : NetlinkBond) : NetlinkBond :=
  MkNetlinkBond (nb_Name b) (nb_Mode b) (<[f := v]> (nb_fields b)) (nb_AdActorSystem b) (nb_ArpIpTargets b).
Definition set_actor_system (hw : string) (b : NetlinkBond) : NetlinkBond :=
  MkNetlinkBond (nb_Name b) (nb_Mode b) (nb_fields b) hw (nb_ArpIpTargets b).
Definition set_arp_targets (l : list IP) (b : NetlinkBond) : NetlinkBond :=
  MkNetlinkBond (nb_Name b) (nb_Mode b) (nb_fields b) (nb_AdActorSystem b) l.

(** The options that are applied when they are positive, with the field each of them sets. *)
Definition int_options (o : BondOptions) : list (string * Z) :=
  [("ArpAllTargets", ArpAllTargets o); ("MinLinks", MinLinks o); ("AdActorSysPrio", AdActorSysPrio o); ("ArpInterval", ArpInterval o);
   ("AdSelect", AdSelect o); ("AdUserPortKey", AdUserPortKey o); ("ArpValidate", ArpValidate o); ("AllSlavesActive", AllSlavesActive o);
   ("DownDelay", DownDelay o); ("FailOverMac", FailOverMac o); ("LacpRate", LacpRate o); ("Miimon", Miimon o);
   ("PacketsPerSlave", PacketsPerSlave o); ("PrimaryReselect", PrimaryReselect o); ("TlbDynamicLb", TlbDynamicLb o); ("UpDelay", UpDelay o);
   ("UseCarrier", UseCarrier o); ("XmitHashPolicy", XmitHashPolicy o); ("LpInterval", LpInterval o); ("ResendIgmp", ResendIgmp o);
   ("NumPeerNotif", NumPeerNotif o)]%string.
Definition GetAllIntBondOptions (o : BondOptions) : list (NetlinkBond → NetlinkBond) :=
  (λ fv, set_field fv.1 fv.2) <$> filter (λ fv, 0 < fv.2) (int_options o).

(** The text that is decoded: "k1=v1;k2=v2" becomes an object; parts that are not "k=v" are left
    out. *)
Definition quote (s : string) : string := String "034" (s +:+ String "034" EmptyString).
Definition option_member (kv : string) : option string :=
  match split "=" kv with
  | [k; v] => Some (quote k +:+ ":" +:+
      (if String.prefix "[" v then v else match atoi v with None => quote v | Some _ => v end))
  | _ => None
  end.
Fixpoint option_members (first : bool) (l : list string) (acc : string) : string :=
  match l with
  | [] => acc
  | kv :: l =>
      option_members false l match option_member kv with
                             | None => acc
                             | Some op => if first then op else acc +:+ "," +:+ op
                             end
  end.
Definition options_json (options : string) : string := "{" +:+ option_members true (split ";" (TrimSpace options)) "" +:+ "}".

(** ** The devices of the node *)

Inductive LinkKind := KindBond | KindVlan (id : Z) | KindOther.
#[export] Instance LinkKind_eq_dec : EqDecision LinkKind.
Proof. solve_decision. Defined.
Record Link := MkLink { l_Name : string; l_Kind : LinkKind; l_Flags : Z; l_Index : Z }.
Definition FlagUp : Z := 1.

Inductive NewLink := NewBond (b : NetlinkBond) | NewVlan (name : string) (parentIndex vlanId : Z).
Definition new_name (n : NewLink) : string := match n with NewBond b => nb_Name b | NewVlan name _ _ => name end.

Definition LinkNotFound : error := ErrOther "Link not found".
(** [os.IsNotExist] *)
Definition NotExist : error := ErrOther "no such device".

Class Netlink (S : Type) := {
  LinkByName : S → string → outcome Link;
  LinkList : S → outcome (list Link);
  (* the index of the device *)
  LinkAdd : NewLink → cmd S Z;
  LinkSetUp : string → cmd S unit;
  LinkSetDown : string → cmd S unit;
  LinkSetBondSlave : Link → string → cmd S unit
}.

Section plugin.
Context {S : Type} `{NK : Netlink S}.
(** [json.Unmarshal] of the options. *)
Context (decode_options : string → option BondOptions).

Definition parseString2BondOptions (options : string) : outcome BondOptions :=
  match decode_options (options_json options) with
  | Some o => Ret o
  | None => Fail (ErrOther "failed to convert options to BondOptions")
  end.

Definition index_option (f name : string) : cmd S (list (NetlinkBond → NetlinkBond)) :=
  if name != EmptyString then link ← read (λ s, LinkByName s name); mret [set_field f (l_Index link)] else mret [].

Definition parse_targets (l : list string) : outcome (list IP) :=
  concat_map_m (λ t, let ip := net_ParseIP t in if is_nil ip then Fail (ErrOther "invalid bond arp_ip_target") else Ret [ip]) l.

Definition parseBondOptions2NetlinkBond (o : BondOptions) (bond : NetlinkBond) : cmd S NetlinkBond :=
  f1 ← index_option "Primary" (Primary o);
  f2 ← index_option "ActiveSlave" (ActiveSlave o);
  f3 ← lift (if AdActorSystem o != EmptyString then
               if is_mac (AdActorSystem o) then Ret [set_actor_system (AdActorSystem o)] else Fail (ErrOther "invalid bond ad_actor_system")
             else Ret []);
  f4 ← lift (if ArpIPTargets o != [] then ips ← parse_targets (ArpIPTargets o); Ret [set_arp_targets ips] else Ret []);
  mret (foldl (λ b f, f b) bond (f1 ++ f2 ++ f3 ++ f4 ++ GetAllIntBondOptions o)).

(** pkg/networking/networking/ip.go: only one kind of error of the creation counts. *)
Definition linkAddAndSetUp (link : NewLink) : cmd S unit := λ s,
  match LinkAdd link s with
  | (Fail e, s) => if e == NotExist then (Fail (ErrOther "failed to LinkAdd"), s) else LinkSetUp (new_name link) s
  | (Ret _, s) => LinkSetUp (new_name link) s
  | (Panic, s) => (Panic, s)
  | (OutOfFuel, s) => (OutOfFuel, s)
  end.
Definition networking_LinkSetBondSlave (slave : string) (bond : string) : cmd S unit :=
  l ← read (λ s, LinkByName s slave); LinkSetBondSlave l bond.

Definition checkInterfaceWithSameVlan (vlanID : Z) (vlanInterface : string) : cmd S unit :=
  links ← read LinkList;
  lift (for_each (λ link, check (negb ((l_Kind link == KindVlan vlanID) && (l_Name link != vlanInterface)))
    (ErrOther "cannot have multiple different vlan interfaces with the same vlanId")) links).

Definition set_up_unless (link : Link) : cmd S unit :=
  if l_Flags link != FlagUp then LinkSetUp (l_Name link) else mret ().

(** [err == nil], not found, or another error. *)
Definition lookup_link (name : string) : cmd S (option Link) := λ s,
  match LinkByName s name with
  | Ret l => (Ret (Some l), s)
  | Fail e => if e == LinkNotFound then (Ret None, s) else (Fail e, s)
  | Panic => (Panic, s)
  | OutOfFuel => (OutOfFuel, s)
  end.

Fixpoint enslave (bond : string) (slaves : list string) : cmd S unit :=
  match slaves with
  | [] => mret ()
  | slave :: slaves =>
      link ← read (λ s, LinkByName s slave);
      _ ← LinkSetDown (l_Name link);
      _ ← networking_LinkSetBondSlave slave bond;
      _ ← LinkSetUp (l_Name link);
      enslave bond slaves
  end.

(** The index of the bond. *)
Definition createBondDevice (conf : Ifacer) (b : Bond) : cmd S Z :=
  bondLink ← lookup_link (ib_Name b);
  match bondLink with
  | Some link =>
      if l_Flags link != FlagUp then
        _ ← LinkSetUp (l_Name link);
        if l_Kind link == KindBond then mret (l_Index link)
        else lift (Fail (ErrOther "a non-bond type interface already exists on the host"))
      else (* not an error, so not a missing link either *) lift (Fail (ErrOther "failed to LinkByName"))
  | None =>
      _ ← lift (validateBondMode (ib_Mode b));
      let bond := MkNetlinkBond (ib_Name b) (ib_Mode b) ∅ "" [] in
      bond ← (if ib_Options b != EmptyString then
                o ← lift (parseString2BondOptions (ib_Options b)); parseBondOptions2NetlinkBond o bond
              else mret bond);
      bondIndex ← LinkAdd (NewBond bond);
      _ ← enslave (ib_Name b) (Interfaces conf);
      _ ← LinkSetUp (ib_Name b);
      mret bondIndex
  end.

Definition createVlanDevice (conf : Ifacer) : cmd S unit :=
  iface ← lift (index (Interfaces conf) 0);
  parentLink ← read (λ s, LinkByName s iface);
  _ ← set_up_unless parentLink;
  let vlanIfName := getVlanIfaceName iface (VlanID conf) in
  vlanLink ← lookup_link vlanIfName;
  match vlanLink with
  | Some link => set_up_unless link
  | None => linkAddAndSetUp (NewVlan vlanIfName (l_Index parentLink) (VlanID conf))
  end.

(** The result that is printed is empty. *)
Definition CmdAdd (decoded : option Ifacer) : cmd S unit :=
  conf ← lift (ParseConfig decoded);
  match Interfaces conf with
  | [] => mret ()
  | [iface] =>
      if VlanID conf == 0 then mret ()
      else
        _ ← checkInterfaceWithSameVlan (VlanID conf) (getVlanIfaceName iface (VlanID conf));
        createVlanDevice conf
  | _ =>
      match if_bond conf with
      | None => mret ()
      | Some b =>
          bond ← createBondDevice conf b;
          if VlanID conf == 0 then mret ()
          else
            let vlanName := getVlanIfaceName (ib_Name b) (VlanID conf) in
            _ ← checkInterfaceWithSameVlan (VlanID conf) vlanName;
            vlanLink ← lookup_link vlanName;
            match vlanLink with
            | Some link => set_up_unless link
            | None => linkAddAndSetUp (NewVlan vlanName bond (VlanID conf))
            end
      end
  end.
Definition CmdDel (decoded : option Ifacer) : cmd S unit := mret ().
End plugin.

(** ** The interface exists *)

(** What is relied on: a device that is found, was added or was set up is there, and none of the
    calls takes a device away. *)
Class NetlinkLaws (S : Type) `{Netlink S} := {
  devices : S → gmap string Link;
  by_name_found : ∀ s n l, LinkByName s n = Ret l → devices s !! n = Some l ∧ l_Name l = n;
  add_found : ∀ n s i s', LinkAdd n s = (Ret i, s') → is_Some (devices s' !! new_name n);
  set_up_found : ∀ n s s', LinkSetUp n s = (Ret (), s') → is_Some (devices s' !! n);
  add_keeps : ∀ n s, dom (devices s) ⊆ dom (devices (LinkAdd n s).2);
  set_up_keeps : ∀ n s, dom (devices s) ⊆ dom (devices (LinkSetUp n s).2);
  set_down_keeps : ∀ n s, dom (devices s) ⊆ dom (devices (LinkSetDown n s).2);
  slave_keeps : ∀ l n s, dom (devices s) ⊆ dom (devices (LinkSetBondSlave l n s).2)
}.

Section makes.
Context {S : Type} `{NK : Netlink S} `{NKL : !NetlinkLaws S}.
Context (decode_options : string → option BondOptions).

Definition keeps (s s' : S) : Prop := dom (devices s) ⊆ dom (devices s').
#[local] Instance keeps_preorder : PreOrder keeps.
Proof. split; [intros s; unfold keeps; done|]. intros s1 s2 s3. unfold keeps. set_solver. Qed.

Lemma keeps_there s s' n : keeps s s' → is_Some (devices s !! n) → is_Some (devices s' !! n).
Proof. unfold keeps. rewrite <- !elem_of_dom. set_solver. Qed.

Lemma keeps_lookup n : evolves keeps (lookup_link n).
Proof. intros s. unfold lookup_link. destruct (LinkByName s n) as [|e| |]; try done. cbn. by case_bool_decide. Qed.
Lemma keeps_set_up n : evolves keeps (LinkSetUp n).
Proof. intros s. apply set_up_keeps. Qed.
Lemma keeps_unless l : evolves keeps (set_up_unless l).
Proof. unfold set_up_unless. case_match; [apply keeps_set_up|apply evolves_ret, _]. Qed.
Lemma keeps_add_up n : evolves keeps (linkAddAndSetUp n).
Proof.
  intros s. unfold linkAddAndSetUp. pose proof (add_keeps n s) as Ha. destruct (LinkAdd n s) as [[|e| |] s1]; cbn [snd] in Ha; try done.
  - etrans; [exact Ha|apply keeps_set_up].
  - case_bool_decide; [exact Ha|]. etrans; [exact Ha|apply keeps_set_up].
Qed.
Lemma keeps_enslave b l : evolves keeps (enslave b l).
Proof.
  induction l as [|x l IH]; cbn [enslave]; [apply evolves_ret, _|]. apply evolves_bind; [apply _|apply evolves_read, _|intros link].
  apply evolves_bind; [apply _|intros s; apply set_down_keeps|intros _]. apply evolves_bind; [apply _| |intros _].
  { apply evolves_bind; [apply _|apply evolves_read, _|intros k s; apply slave_keeps]. }
  apply evolves_bind; [apply _|apply keeps_set_up|intros _; exact IH].
Qed.
Lemma keeps_vlan_check v n : evolves keeps (checkInterfaceWithSameVlan v n).
Proof. apply evolves_bind; [apply _|apply evolves_read, _|intros l; apply evolves_lift, _]. Qed.

(** The state after a command that came to a value. *)
Lemma keeps_Ret {A} (m : cmd S A) s a s' : evolves keeps m → m s = (Ret a, s') → keeps s s'.
Proof. intros Hm E. specialize (Hm s). by rewrite E in Hm. Qed.

Lemma index_option_state f n s l s' : index_option f n s = (Ret l, s') → s' = s.
Proof. unfold index_option. case_match; [|by intros [= _ <-]]. intros (x & s1 & [_ ->]%read_Ret & [= _ <-])%cmd_bind_Ret. done. Qed.

Lemma parse_options_name o b s b' s' : parseBondOptions2NetlinkBond o b s = (Ret b', s') → nb_Name b' = nb_Name b ∧ s' = s.
Proof.
  intros (f1 & s1 & H1 & (f2 & s2 & H2 & (f3 & s3 & [H3 ->]%lift_Ret & (f4 & s4 & [H4 ->]%lift_Ret & [= <- <-])%cmd_bind_Ret)%cmd_bind_Ret)%cmd_bind_Ret)%cmd_bind_Ret.
  pose proof (index_option_state _ _ _ _ _ H1) as ->. pose proof (index_option_state _ _ _ _ _ H2) as ->. split; [|done].
  assert (∀ l : list (NetlinkBond → NetlinkBond), Forall (λ f, ∀ b, nb_Name (f b) = nb_Name b) l → ∀ b, nb_Name (foldl (λ b f, f b) b l) = nb_Name b) as Hfold.
  { intros l Hl. induction Hl as [|f l Hf _ IH]; intros x; [done|]. cbn. by rewrite IH, Hf. }
  apply Hfold. rewrite !Forall_app. split_and!.
  - unfold index_option in H1. destruct (Primary o != _); [|injection H1 as <-; constructor]. apply cmd_bind_Ret in H1 as (x & s1 & _ & [= <- _]). by repeat constructor.
  - unfold index_option in H2. destruct (ActiveSlave o != _); [|injection H2 as <-; constructor]. apply cmd_bind_Ret in H2 as (x & s1 & _ & [= <- _]). by repeat constructor.
  - destruct (AdActorSystem o != _); [destruct (is_mac _); [|done]|]; injection H3 as <-; by repeat constructor.
  - destruct (ArpIPTargets o != _); [|injection H4 as <-; constructor]. inv_ret. by repeat constructor.
  - unfold GetAllIntBondOptions. apply Forall_fmap, Forall_true. done.
Qed.

Lemma createBondDevice_there conf b s i s' : createBondDevice decode_options conf b s = (Ret i, s') → keeps s s' ∧ is_Some (devices s' !! ib_Name b).
Proof.
  intros (l & s1 & H1 & H)%cmd_bind_Ret. pose proof (keeps_Ret _ _ _ _ (keeps_lookup _) H1) as K1.
  assert (s1 = s ∧ match l with Some link => devices s !! ib_Name b = Some link ∧ l_Name link = ib_Name b | None => True end) as [-> Hl].
  { unfold lookup_link in H1. destruct (LinkByName s (ib_Name b)) as [link|e| |] eqn:E; [| |done..].
    - injection H1 as <- <-. split; [done|by apply by_name_found].
    - destruct (e == LinkNotFound); [|done]. by injection H1 as <- <-. }
  destruct l as [link|].
  - destruct Hl as [Hd Hn]. destruct (l_Flags link != FlagUp); [|done]. apply cmd_bind_Ret in H as (u & s2 & H2 & H). destruct u.
    destruct (l_Kind link == KindBond); [|done]. injection H as _ <-. rewrite Hn in H2. split; [exact (keeps_Ret _ _ _ _ (keeps_set_up _) H2)|by eapply set_up_found].
  - apply cmd_bind_Ret in H as (u & s2 & [_ ->]%lift_Ret & H). apply cmd_bind_Ret in H as (bond & s2 & H2 & H).
    assert (nb_Name bond = ib_Name b ∧ s2 = s) as [Hn ->].
    { destruct (ib_Options b != EmptyString); [|by injection H2 as <- <-]. apply cmd_bind_Ret in H2 as (o & s3 & [_ ->]%lift_Ret & H2). by apply parse_options_name in H2. }
    apply cmd_bind_Ret in H as (idx & s2 & H3 & H). apply cmd_bind_Ret in H as (u1 & s3 & H4 & H). apply cmd_bind_Ret in H as (u2 & s4 & H5 & H).
    injection H as _ <-. pose proof (add_found _ _ _ _ H3) as Hadd. cbn in Hadd. rewrite Hn in Hadd.
    pose proof (add_keeps (NewBond bond) s) as K2. rewrite H3 in K2. cbn in K2.
    pose proof (keeps_Ret _ _ _ _ (keeps_enslave _ _) H4) as K3. pose proof (keeps_Ret _ _ _ _ (keeps_set_up _) H5) as K4.
    split; [by do 2 (etrans; [eassumption|])|]. by eapply keeps_there, keeps_there.
Qed.

(** A VLAN interface: the one that is there is set up, a new one is added. *)
Lemma vlan_there name parent v s s' :
  (l ← lookup_link name; match l with Some link => set_up_unless link | None => linkAddAndSetUp (NewVlan name parent v) end) s = (Ret (), s') →
  keeps s s' ∧ is_Some (devices s' !! name).
Proof.
  intros (l & s1 & H1 & H)%cmd_bind_Ret. unfold lookup_link in H1. destruct (LinkByName s name) as [link|e| |] eqn:E; [| |done..].
  - injection H1 as <- <-. destruct (by_name_found _ _ _ E) as [Hd Hn]. pose proof (keeps_Ret _ _ _ _ (keeps_unless _) H) as K.
    split; [done|]. eapply keeps_there; [exact K|eauto].
  - destruct (e == LinkNotFound); [|done]. injection H1 as <- <-. split; [exact (keeps_Ret _ _ _ _ (keeps_add_up _) H)|].
    unfold linkAddAndSetUp in H. destruct (LinkAdd _ s) as [[|e'| |] s2]; try done; [by eapply set_up_found in H|].
    case_bool_decide; [done|]. by eapply set_up_found in H.
Qed.

(** The configuration of the chain as the plugin decodes it: the two types have the same JSON
    names. *)
Definition decoded_ifacer (c : IfacerNetConf) : Ifacer :=
  MkIfacer (if_Interfaces c) (if_VlanID c)
    ((λ b, MkIfBond (bond_Name b) (bond_Mode b) (default ""%string (bond_Options b))) <$> if_Bond c).

Lemma sub_interface_vlan m v : sub_interface m (Some v) = if v == 0 then m else getVlanIfaceName m v.
Proof. unfold sub_interface. by case_bool_decide. Qed.

Lemma CmdAdd_there c m s s' : ifacer_ok c → ifacer_target c = Ret m → CmdAdd decode_options (Some (decoded_ifacer c)) s = (Ret (), s') →
  keeps s s' ∧ is_Some (devices s' !! m).
Proof.
  intros (Hv & Hne & Hneed & Hbond) Ht (conf & s1 & [Hc ->]%lift_Ret & H)%cmd_bind_Ret. unfold ParseConfig in Hc. cbn in Hc. inv_ret.
  unfold ifacer_target in Ht. cbn [Interfaces decoded_ifacer VlanID if_bond] in H.
  destruct (if_Interfaces c) as [|i [|i' l]] eqn:Ei; [done| |].
  - cbn [base_name mbind outcome_bind] in Ht. apply Ret_inj in Ht. rewrite sub_interface_vlan in Ht. subst m. destruct Hneed as [Hz|Hl]; [|cbn in Hl; lia].
    rewrite bool_decide_false in H |- * by done. apply cmd_bind_Ret in H as (u & s1 & G1 & H). pose proof (keeps_Ret _ _ _ _ (keeps_vlan_check _ _) G1) as K1.
    unfold createVlanDevice in H. cbn [Interfaces] in H. cbn in H. apply cmd_bind_Ret in H as (iface & s2 & [[= <-] ->]%lift_Ret & H).
    apply cmd_bind_Ret in H as (p & s2 & [_ ->]%read_Ret & H). apply cmd_bind_Ret in H as (u2 & s2 & G2 & H).
    pose proof (keeps_Ret _ _ _ _ (keeps_unless _) G2) as K2. apply vlan_there in H as [K3 Hm]. split; [by do 2 (etrans; [eassumption|])|exact Hm].
  - destruct Hbond as (b & Hb & Hbn); [cbn; lia|]. rewrite Hb in *. cbn [deref base_name mbind outcome_bind] in Ht. apply Ret_inj in Ht. rewrite sub_interface_vlan in Ht. subst m.
    cbn [fmap option_fmap option_map] in H. cbn [ib_Name ib_Mode ib_Options] in H. rewrite (bool_decide_false (bond_Name b = EmptyString)) in H by done.
    apply cmd_bind_Ret in H as (idx & s1 & G1 & H). apply createBondDevice_there in G1 as [K1 Hm]. cbn [ib_Name] in *.
    case_bool_decide; [by injection H as <-|]. apply cmd_bind_Ret in H as (u & s2 & G2 & H). pose proof (keeps_Ret _ _ _ _ (keeps_vlan_check _ _) G2) as K2.
    apply vlan_there in H as [K3 Hm']. split; [by do 2 (etrans; [eassumption|])|exact Hm'].
Qed.

(** The plugins of a generated chain fit together: when the ifacer in front of a main plugin has
    run on a node, the interface that the main plugin names as its master exists there, and no
    interface was taken away. *)
Theorem ifacer_makes_master {J} masters before (main : plugin J) m s s' :
  prepared masters before main → before ≠ [] → plugin_master main = Some m →
  (∃ c, before = [PIfacer c] ∧ CmdAdd decode_options (Some (decoded_ifacer c)) s = (Ret (), s')) →
  is_Some (devices s' !! m) ∧ dom (devices s) ⊆ dom (devices s').
Proof.
  intros Hp Hne Hm (c' & Hc & H). destruct masters as [c|]; [|done]. destruct Hp as [(_ & ? & _ & -> & _)|(Hok & -> & m' & Ht & Hm')]; [done|].
  injection Hc as <-. assert (m' = m) as -> by congruence.
  destruct (CmdAdd_there _ _ _ _ Hok Ht H). done.
Qed.
End makes.

(** ** Options *)

(** Every positive numeric option sets its field, and no other numeric field is set. *)
Theorem int_options_applied o b f v : nb_fields b = ∅ →
  nb_fields (foldl (λ b g, g b) b (GetAllIntBondOptions o)) !! f = Some v ↔ (f, v) ∈ int_options o ∧ 0 < v.
Proof.
  assert (∀ l (m : NetlinkBond), NoDup l.*1 → (∀ f v, (f, v) ∈ l → nb_fields m !! f = None) →
    ∀ f v, nb_fields (foldl (λ b g, g b) m ((λ fv, set_field fv.1 fv.2) <$> l)) !! f = Some v ↔ (f, v) ∈ l ∨ nb_fields m !! f = Some v) as Hgen.
  { induction l as [|[f0 v0] l IH]; intros m Hn Hm f' v'; cbn [fmap list_fmap foldl]; [set_solver|]. cbn in Hn. apply NoDup_cons in Hn as [Hf Hn].
    rewrite IH; [|done|].
    - cbn [set_field nb_fields]. rewrite lookup_insert_Some. rewrite elem_of_cons. split.
      + intros [?|[[<- <-]|[? ?]]]; [by left; right|by left; left|by right].
      + intros [[[= <- <-]|?]|Hs]; [by right; left|by left|]. right. right. split; [|done]. intros Hf0. pose proof (Hm f0 v0 (list_elem_of_here _ _)) as Hno. cbn in Hf0. congruence.
    - intros f1 v1 H1. cbn [set_field nb_fields]. rewrite lookup_insert_ne; [apply (Hm f1 v1); by right|].
      intros <-. apply Hf. rewrite list_elem_of_fmap. by exists (f0, v1). }
  intros Hb. unfold GetAllIntBondOptions. rewrite Hgen.
  - rewrite Hb, lookup_empty, list_elem_of_filter. cbn. naive_solver.
  - assert (∀ (l : list (string * Z)) (P : string * Z → Prop) (d : ∀ x, Decision (P x)), NoDup l.*1 → NoDup (filter P l).*1) as Hfil.
    { intros l P d. induction l as [|x l IH]; [done|]. cbn [fmap list_fmap]. intros [Hx Hl]%NoDup_cons. rewrite filter_cons. case_decide; [|by apply IH].
      cbn [fmap list_fmap]. apply NoDup_cons. split; [|by apply IH]. rewrite list_elem_of_fmap. intros (y & E & [_ Hy]%list_elem_of_filter).
      apply Hx. rewrite E. by apply list_elem_of_fmap_2. }
    apply Hfil. destruct o. cbn. apply (bool_decide_unpack _). vm_compute. exact I.
  - intros. by rewrite Hb, lookup_empty.
Qed.

(** A part in front that is no option is left out, but the comma before the next one stays: the text
    is not JSON, although such parts are said to be ignored. *)
Theorem malformed_option_first : options_json "fast;miimon=100" = "{," +:+ quote "miimon" +:+ ":100}" ∧
  options_json "miimon=100;fast" = "{" +:+ quote "miimon" +:+ ":100}".
Proof. split; vm_compute; reflexivity. Qed.

(** ** A node, for concrete runs *)

Definition up_link (l : Link) : Link := MkLink (l_Name l) (l_Kind l) (Z.lor (l_Flags l) FlagUp) (l_Index l).
Definition new_kind (n : NewLink) : LinkKind := match n with NewBond _ => KindBond | NewVlan _ _ v => KindVlan v end.
#[export] Instance mem_netlink : Netlink (gmap string Link) := {|
  LinkByName s n := match s !! n with Some l => if l_Name l == n then Ret l else Fail APIOther | None => Fail LinkNotFound end;
  LinkList s := Ret (map_to_list s).*2;
  LinkAdd n s := match s !! new_name n with
                 | Some _ => (Fail APIAlreadyExists, s)
                 | None => let i := Z.of_nat (size s) + 1 in (Ret i, <[new_name n := MkLink (new_name n) (new_kind n) 2 i]> s)
                 end;
  LinkSetUp n s := match s !! n with Some l => (Ret (), <[n := up_link l]> s) | None => (Fail LinkNotFound, s) end;
  LinkSetDown n s := match s !! n with Some l => (Ret (), s) | None => (Fail LinkNotFound, s) end;
  LinkSetBondSlave l n s := (Ret (), s)
|}.
#[export] Instance mem_netlink_laws : NetlinkLaws (gmap string Link).
Proof.
  refine {| devices s := s |}.
  - intros s n l. cbn. destruct (s !! n) as [l'|]; [|done]. case_bool_decide; [|done]. by intros [= <-].
  - intros n s i s'. cbn. destruct (s !! new_name n); [done|]. intros [= _ <-]. rewrite lookup_insert_eq. eauto.
  - intros n s s'. cbn. destruct (s !! n); [|done]. intros [= <-]. rewrite lookup_insert_eq. eauto.
  - intros n s. cbn. destruct (s !! new_name n); cbn; [done|]. rewrite dom_insert. set_solver.
  - intros n s. cbn. destruct (s !! n); cbn; [|done]. rewrite dom_insert. set_solver.
  - intros n s. cbn. by destruct (s !! n).
  - done.
Qed.

Definition ex_node : gmap string Link :=
  {["eth0"%string := MkLink "eth0" KindOther 3 1; "eth1"%string := MkLink "eth1" KindOther 3 2]}.
Definition ex_conf : IfacerNetConf := MkIfacerConf 100 ["eth0"; "eth1"]%string (Some (MkBond "bond0" 1 None)).
Definition ex_main : plugin string := PMacvlan (MkMacvlanConf "bond0.100" "bridge" None None).

Lemma ifacer_makes_master_witness :
  let s' := (CmdAdd (λ _, None) (Some (decoded_ifacer ex_conf)) ex_node).2 in
  is_Some (devices s' !! "bond0.100"%string) ∧ dom (devices ex_node) ⊆ dom (devices s').
Proof.
  refine (ifacer_makes_master (λ _, None) (Some ex_conf) [PIfacer ex_conf] ex_main "bond0.100" ex_node
    (CmdAdd (λ _, None) (Some (decoded_ifacer ex_conf)) ex_node).2 _ _ _ _).
  - right. split; [split_and!; cbn; [lia|lia|done|by right; lia|]; intros _; by eexists|].
    split; [reflexivity|]. exists "bond0.100"%string. split; reflexivity.
  - done.
  - reflexivity.
  - exists ex_conf. split; [reflexivity|]. vm_compute. reflexivity.
Defined.
