(* ===== verification/PodWebhook.v ===== *)
(** * pkg/podmanager: the mutating webhook of Pods

    pod_webhook.go and the rest of utils.go, with [ResourceName] of pkg/multuscniconfig/utils.go: a
    Pod that asks for networks (by an annotation of its own or of its namespace) gets the list of
    the SpiderMultusConfigs with the same label as its network annotation, and every Pod gets the
    extended resources that its networks need, in its first container.  The reads of the API server
    are a class; a quantity is what the API machinery makes of a number. *)

From S2P Require Import Prelude NetIP NetIPFacts K8s Workload Selector PoolSelection IPPoolWebhook Coordinator MultusConfig.
Local Open Scope Z_scope.
Local Open Scope go_scope.

(** ** Pods *)

Section containers.
Context (Quantity : Type).
Record Container := MkContainer { Limits : gmap string Quantity; Requests : gmap string Quantity }.
Record PodObject := MkPodObject { po_meta : ObjectMeta; Containers : list Container }.
End containers.
Arguments MkContainer {_}.
Arguments Limits {_}.
Arguments Requests {_}.
Arguments MkPodObject {_}.
Arguments po_meta {_}.
Arguments Containers {_}.

Record PodENIResourceInjectConfig := MkENIConfig {
  ProviderEnabled : bool;
  PluginEnabled : bool;
  MasterNICEnabled : bool;
  InjectENI : bool;
  eni_ResourceName : string
}.

Definition DefaultENISlotResourceName : string := "spidernet.io/sub-eni".
Definition MasterNICResourceSuffix : string := "-nic".
Definition SpiderpoolResourceDomain : string := "spidernet.io".

(** The configuration as [InitPodWebhook] keeps it. *)
Definition InitPodWebhook_config (eniConfig : list PodENIResourceInjectConfig) : PodENIResourceInjectConfig :=
  let cfg := default (MkENIConfig false false false false "") (head eniConfig) in
  MkENIConfig (ProviderEnabled cfg) (PluginEnabled cfg) (MasterNICEnabled cfg) (InjectENI cfg)
    (if eni_ResourceName cfg == EmptyString then DefaultENISlotResourceName else eni_ResourceName cfg).

(** ** The networks *)

(** The name of an object with its namespace, as [fmt.Sprintf] prints it here. *)
Definition slash_name (m : ObjectMeta) : string := Namespace m +:+ "/" +:+ Name m.

(** [ResourceName] of pkg/multuscniconfig; the type is dereferenced. *)
Definition ResourceName (smc : SpiderMultusConfig) : outcome string :=
  let spec := smc_spec smc in
  let name {A} (c : option A) (f : A → option string) : string := default ""%string (c ≫= f) in
  t ← deref (CniType spec);
  Ret (if t == MacvlanCNI then name (MacvlanConfig spec) mv_RdmaResourceName
       else if t == IPVlanCNI then name (IPVlanConfig spec) mv_RdmaResourceName
       else if t == VlanCNI then name (VlanConfig spec) vl_RdmaResourceName
       else if t == SriovCNI then name (SriovConfig spec) sr_ResourceName
       else if t == IBSriovCNI then name (IbSriovConfig spec) ib_ResourceName
       else ""%string).

Definition getSpiderMultusConfigMasters (mc : SpiderMultusConfig) : list string :=
  let spec := smc_spec mc in
  match CniType spec with
  | None => []
  | Some t =>
      if t == MacvlanCNI then default [] (mv_Master <$> MacvlanConfig spec)
      else if t == IPVlanCNI then default [] (mv_Master <$> IPVlanConfig spec)
      else if t == VlanCNI then default [] (vl_Master <$> VlanConfig spec)
      else if t == IPoIBCNI then
        match IpoibConfig spec with
        | Some c => if ipo_Master c == EmptyString then [] else [ipo_Master c]
        | None => []
        end
      else []
  end.

Definition isProviderVLANSpiderMultusConfig (mc : SpiderMultusConfig) : bool :=
  match CniType (smc_spec mc), VlanConfig (smc_spec mc) with
  | Some t, Some c => (t == VlanCNI) && (vl_VlanMode c == Some VlanModeAuto)
  | _, _ => false
  end.

(** The bond of two or more masters, the first master otherwise. *)
Definition master_key (master : list string) (bond : option BondConfig) : string :=
  match master, bond with
  | _ :: _ :: _, Some b => bond_Name b
  | m :: _, _ => m
  | [], _ => ""
  end.

Definition getMultusConfigSortKey (mc : SpiderMultusConfig) : string :=
  let spec := smc_spec mc in
  match CniType spec with
  | None => ""
  | Some t =>
      if t == MacvlanCNI then match MacvlanConfig spec with Some c => master_key (mv_Master c) (mv_Bond c) | None => "" end
      else if t == IPVlanCNI then match IPVlanConfig spec with Some c => master_key (mv_Master c) (mv_Bond c) | None => "" end
      else if t == VlanCNI then match VlanConfig spec with Some c => master_key (vl_Master c) (vl_Bond c) | None => "" end
      else if t == SriovCNI then default ""%string (SriovConfig spec ≫= sr_ResourceName)
      else ""
  end.

Definition mc_less (x y : SpiderMultusConfig) : bool :=
  let leftKey := getMultusConfigSortKey x in
  let rightKey := getMultusConfigSortKey y in
  if leftKey != rightKey then String.ltb leftKey rightKey
  else String.ltb (slash_name (smc_meta x)) (slash_name (smc_meta y)).

(** [sort.SliceStable]: an element stays in front of the later ones that are not less. *)
Fixpoint insert_stable {A} (less : A → A → bool) (x : A) (l : list A) : list A :=
  match l with
  | [] => [x]
  | y :: l' => if less y x then y :: insert_stable less x l' else x :: l
  end.
Definition SliceStable {A} (less : A → A → bool) (l : list A) : list A := foldr (insert_stable less) [] l.

Definition sortMultusConfigs : list SpiderMultusConfig → list SpiderMultusConfig := SliceStable mc_less.

(** ** What a network must have to be injected *)

Definition validateInjectResource (resourceName : string) (ippools : option SpiderpoolPools) (requireRdmaResource : bool) : outcome unit :=
  if requireRdmaResource then ValidateRdmaResouce resourceName ippools else ValidateNetworkResouce resourceName ippools.

Definition doValidateInjectResource (mc : SpiderMultusConfig) (requireRdmaResource : bool) : outcome unit :=
  let spec := smc_spec mc in
  let ptrValue := default ""%string in
  match CniType spec with
  | None => Fail (ErrOther "cniType is nil")
  | Some t =>
      if t == MacvlanCNI then
        match MacvlanConfig spec with
        | None => Fail (ErrOther "macvlan config is nil")
        | Some c => validateInjectResource (ptrValue (mv_RdmaResourceName c)) (mv_Pools c) requireRdmaResource
        end
      else if t == IPVlanCNI then
        match IPVlanConfig spec with
        | None => Fail (ErrOther "ipvlan config is nil")
        | Some c => validateInjectResource (ptrValue (mv_RdmaResourceName c)) (mv_Pools c) requireRdmaResource
        end
      else if t == VlanCNI then
        match VlanConfig spec with
        | None => Fail (ErrOther "vlan config is nil")
        | Some c => validateInjectResource (ptrValue (vl_RdmaResourceName c)) (vl_Pools c) requireRdmaResource
        end
      else if t == SriovCNI then
        match SriovConfig spec with
        | None => Fail (ErrOther "sriov config is nil")
        | Some c => validateInjectResource (ptrValue (sr_ResourceName c)) (sr_Pools c) requireRdmaResource
        end
      else if t == IBSriovCNI then
        match IbSriovConfig spec with
        | None => Fail (ErrOther "ib-sriov config is nil")
        | Some c => validateInjectResource (ptrValue (ib_ResourceName c)) (ib_Pools c) requireRdmaResource
        end
      else if t == IPoIBCNI then
        match IpoibConfig spec with
        | None => Fail (ErrOther "ipoib config is nil")
        | Some c => validateInjectResource (ipo_Master c) (ipo_Pools c) requireRdmaResource
        end
      else Fail (ErrOther "RDMA resource injection does not support cniType")
  end.

Definition DoValidateRdmaResouce (mc : SpiderMultusConfig) : outcome unit := doValidateInjectResource mc true.

(** ** Injection *)

(** What the webhook reads of the API server: namespaces (cached) and SpiderMultusConfigs, listed
    in all namespaces by a selector or one by namespace and name. *)
Class WebhookReader := {
  GetNamespaceByName : string → outcome ObjectMeta;
  ListMultusConfigs : list Requirement → outcome (list SpiderMultusConfig);
  GetMultusConfig : string → string → outcome SpiderMultusConfig
}.

(** A list of the API server holds the objects that match, and no two of one name. *)
Class WebhookReaderLaws (R : WebhookReader) := {
  listed_match : ∀ sel l mc, ListMultusConfigs sel = Ret l → mc ∈ l → Matches sel (Labels (smc_meta mc)) = true;
  listed_distinct : ∀ sel l, ListMultusConfigs sel = Ret l → NoDup (slash_name ∘ smc_meta <$> l)
}.

Section webhook.
(** [resource.MustParse] of the decimal text of a number. *)
Context {Quantity : Type} (quantity : Z → Quantity).
Abbreviation PodObject := (PodObject Quantity).
Abbreviation Container := (Container Quantity).

Definition annotate_pod (k v : string) (pod : PodObject) : PodObject :=
  MkPodObject (set_Annotations (<[k := v]> (Annotations (po_meta pod))) (po_meta pod)) (Containers pod).

Definition has_key {A} (m : gmap string A) (k : string) : bool := bool_decide (is_Some (m !! k)).

Definition podHasResource (pod : PodObject) (resourceName : string) : bool :=
  existsb (λ c, has_key (Limits c) resourceName || has_key (Requests c) resourceName) (Containers pod).

Definition injectPodResource (pod : PodObject) (resourceName : string) (n : Z) : PodObject :=
  match Containers pod with
  | [] => pod
  | c :: cs =>
      if n <=? 0 then pod
      else
        let resource := if resourceName == EmptyString then DefaultENISlotResourceName else resourceName in
        if podHasResource pod resource then pod
        else
          let q := quantity n in
          MkPodObject (po_meta pod) (MkContainer (<[resource := q]> (Limits c)) (<[resource := q]> (Requests c)) :: cs)
  end.
Definition InjectPodENIResources : PodObject → string → Z → PodObject := injectPodResource.

Section ranges.
Context `{MR : MapRange}.

(** The resources of the map that a container limits are marked as found. *)
Definition mark_found (resourceMap : gmap string bool) (c : Container) : gmap string bool :=
  foldl (λ m resource, if default false (m !! resource) then m
                       else if has_key (Limits c) resource then <[resource := true]> m else m)
    resourceMap (range_keys resourceMap).

(** [pod.Spec.Containers[0].Resources.Limits[resource] = 1] *)
Definition limit_first (pod : PodObject) (resource : string) : outcome PodObject :=
  match Containers pod with
  | [] => Panic
  | c :: cs => Ret (MkPodObject (po_meta pod) (MkContainer (<[resource := quantity 1]> (Limits c)) (Requests c) :: cs))
  end.

Definition InjectRdmaResourceToPod (resourceMap : gmap string bool) (pod : PodObject) : outcome PodObject :=
  let resourceMap := foldl mark_found resourceMap (Containers pod) in
  foldl (λ pod '(resource, found), pod ← pod; if (found : bool) then Ret pod else limit_first pod resource)
    (Ret pod) (range_kv resourceMap).

(** The loop over the networks: the value of the annotation and the resources. *)
Fixpoint collect_networks (requireRdmaResource : bool) (items : list SpiderMultusConfig) (multusAnnValue : string)
    (resourcesMap : gmap string bool) : outcome (string * gmap string bool) :=
  match items with
  | [] => Ret (multusAnnValue, resourcesMap)
  | mc :: items =>
      _ ← doValidateInjectResource mc requireRdmaResource;
      let multusAnnValue := if multusAnnValue == EmptyString then slash_name (smc_meta mc)
                            else multusAnnValue +:+ "," +:+ slash_name (smc_meta mc) in
      resourceName ← ResourceName mc;
      collect_networks requireRdmaResource items multusAnnValue
        (if resourceName == EmptyString then resourcesMap
         else if has_key resourcesMap resourceName then resourcesMap else <[resourceName := false]> resourcesMap)
  end.

Definition injectPodNetwork (pod : PodObject) (multusConfigs : list SpiderMultusConfig) (requireRdmaResource : bool) : outcome PodObject :=
  '(multusAnnValue, resourcesMap) ← collect_networks requireRdmaResource (sortMultusConfigs multusConfigs) "" ∅;
  InjectRdmaResourceToPod resourcesMap
    (if multusAnnValue != EmptyString then annotate_pod MultusNetworkAttachmentAnnot multusAnnValue pod else pod).
Definition InjectPodNetwork (pod : PodObject) (multusConfigs : list SpiderMultusConfig) : outcome PodObject :=
  injectPodNetwork pod multusConfigs true.

(** ** The handlers *)

Context `{R : WebhookReader, J : JSON (list (option NetworkSelectionElement))}.
(** Whether there is a namespace manager. *)
Context (nsManager : bool).

Definition getEffectiveResourceInjectValue (pod : PodObject) (anno : string) : outcome (option string) :=
  match Annotations (po_meta pod) !! anno with
  | Some value => Ret (Some value)
  | None =>
      if negb nsManager || (Namespace (po_meta pod) == EmptyString) then Ret None
      else ns ← GetNamespaceByName (Namespace (po_meta pod)); Ret (Annotations ns !! anno)
  end.

Definition inject_annotations : list string := [AnnoPodResourceInject; AnnoNetworkResourceInject].

Definition needPodNetworkInjection (pod : PodObject) : outcome bool :=
  foldr (λ anno rest, value ← getEffectiveResourceInjectValue pod anno;
                      match value with Some _ => Ret true | None => rest end) (Ret false) inject_annotations.

Definition podNetworkMutatingWebhook (pod : PodObject) : outcome PodObject :=
  foldr (λ anno rest,
    value ← getEffectiveResourceInjectValue pod anno;
    match value with
    | None => rest
    | Some multusLabelValue =>
        selector ← LabelSelectorAsSelector (MkSelector ∅ [MkRequirement anno OpIn [multusLabelValue]]);
        multusConfigs ← ListMultusConfigs selector;
        _ ← check (negb (length multusConfigs =? 0)%nat) (ErrOther "no spidermultusconfigs found");
        injectPodNetwork pod multusConfigs (anno == AnnoPodResourceInject)
    end) (Ret pod) inject_annotations.

(** The networks of one annotation: those that were not seen and exist. *)
Fixpoint resolve_networks (networks : list NetworkSelectionElement) (seen : gset string) (result : list SpiderMultusConfig)
    : outcome (gset string * list SpiderMultusConfig) :=
  match networks with
  | [] => Ret (seen, result)
  | network :: networks =>
      let key := nse_Namespace network +:+ "/" +:+ nse_Name network in
      if bool_decide (key ∈ seen) then resolve_networks networks seen result
      else
        match GetMultusConfig (nse_Namespace network) (nse_Name network) with
        | Ret mc => resolve_networks networks ({[key]} ∪ seen) (result ++ [mc])
        | Fail APINotFound => resolve_networks networks seen result
        | Fail e => Fail e
        | Panic => Panic
        | OutOfFuel => OutOfFuel
        end
  end.

Definition resolve_annotation (pod : PodObject) (acc : outcome (gset string * list SpiderMultusConfig)) (anno : string)
    : outcome (gset string * list SpiderMultusConfig) :=
  '(seen, result) ← acc;
  match default ""%string (Annotations (po_meta pod) !! anno) with
  | EmptyString => Ret (seen, result)
  | value => networks ← ParsePodNetworkAnnotation value (Namespace (po_meta pod)); resolve_networks networks seen result
  end.
Definition resolvePodReferencedSpiderMultusConfigs (pod : PodObject) : outcome (list SpiderMultusConfig) :=
  snd <$> foldl (resolve_annotation pod) (Ret (∅, [])) [MultusDefaultNetAnnot; MultusNetworkAttachmentAnnot].

Definition podENIResourceMutatingWebhook (pod : PodObject) (cfg : PodENIResourceInjectConfig) : outcome PodObject :=
  if negb (ProviderEnabled cfg) || negb (PluginEnabled cfg) || negb (InjectENI cfg) then Ret pod
  else
    let name := if eni_ResourceName cfg == EmptyString then DefaultENISlotResourceName else eni_ResourceName cfg in
    if podHasResource pod name then Ret pod
    else
      multusConfigs ← resolvePodReferencedSpiderMultusConfigs pod;
      let eligibleCount := length (List.filter isProviderVLANSpiderMultusConfig multusConfigs) in
      Ret (if (eligibleCount =? 0)%nat then pod else InjectPodENIResources pod name (Z.of_nat eligibleCount)).

Definition master_resource (master : string) : string := SpiderpoolResourceDomain +:+ "/" +:+ master +:+ MasterNICResourceSuffix.

Definition masters_of (multusConfigs : list SpiderMultusConfig) : gmap string unit :=
  foldl (λ m master, if master != EmptyString then <[master := ()]> m else m) ∅
    (concat (getSpiderMultusConfigMasters <$> multusConfigs)).

Definition podMasterNICResourceMutatingWebhook (pod : PodObject) (cfg : PodENIResourceInjectConfig) : outcome PodObject :=
  if negb (MasterNICEnabled cfg) || negb (InjectENI cfg) then Ret pod
  else
    multusConfigs ← resolvePodReferencedSpiderMultusConfigs pod;
    let sortedMasters := merge_sort String.le (range_keys (masters_of multusConfigs)) in
    Ret (foldl (λ pod master, injectPodResource pod (master_resource master) 1) pod sortedMasters).

Definition PodWebhook_Default (cfg : PodENIResourceInjectConfig) (pod : PodObject) : outcome PodObject :=
  needInject ← needPodNetworkInjection pod;
  pod ← (if (needInject : bool) then podNetworkMutatingWebhook pod else Ret pod);
  pod ← podMasterNICResourceMutatingWebhook pod cfg;
  podENIResourceMutatingWebhook pod cfg.
End ranges.
End webhook.

(** ** Sorting *)

Section stable.
Context {A : Type} (less : A → A → bool).

Lemma insert_stable_perm x l : insert_stable less x l ≡ₚ x :: l.
Proof. induction l as [|y l IH]; [done|]. cbn. destruct (less y x); [|done]. rewrite IH. constructor. Qed.
Lemma SliceStable_perm l : SliceStable less l ≡ₚ l.
Proof. induction l as [|x l IH]; [done|]. cbn. rewrite insert_stable_perm. by constructor. Qed.

Context (asym : ∀ x y, less x y = true → less y x = false).
Context (trans : ∀ x y z, less y x = false → less z y = false → less z x = false).

Lemma insert_stable_sorted x l : StronglySorted (λ a b, less b a = false) l → StronglySorted (λ a b, less b a = false) (insert_stable less x l).
Proof.
  induction 1 as [|y l Hl IH Hy]; [by repeat constructor|]. cbn. destruct (less y x) eqn:E.
  - constructor; [done|]. rewrite insert_stable_perm. constructor; [by apply asym|done].
  - constructor; [by constructor|]. constructor; [done|]. eapply Forall_impl; [exact Hy|]. eauto.
Qed.
Lemma SliceStable_sorted l : StronglySorted (λ a b, less b a = false) (SliceStable less l).
Proof. induction l as [|x l IH]; [constructor|]. by apply insert_stable_sorted. Qed.
End stable.

Lemma ltb_leb a b : String.ltb a b = negb (String.leb b a).
Proof. unfold String.ltb, String.leb. rewrite (String.compare_antisym b a). by destruct (String.compare a b). Qed.
Lemma leb_le a b : String.leb a b = true ↔ String.le a b.
Proof. unfold String.le. by destruct (String.leb a b). Qed.

(** Not less: the lexicographic order of key and name. *)
Lemma mc_less_false x y : mc_less y x = false ↔
  (getMultusConfigSortKey x ≠ getMultusConfigSortKey y ∧ String.le (getMultusConfigSortKey x) (getMultusConfigSortKey y)) ∨
  (getMultusConfigSortKey x = getMultusConfigSortKey y ∧ String.le (slash_name (smc_meta x)) (slash_name (smc_meta y))).
Proof.
  unfold mc_less. rewrite !ltb_leb, <- !leb_le. case_bool_decide as E; cbn [negb]; rewrite negb_false_iff; naive_solver.
Qed.
Lemma mc_less_asym x y : mc_less x y = true → mc_less y x = false.
Proof.
  rewrite mc_less_false. unfold mc_less. rewrite !ltb_leb. rewrite <- !leb_le. case_bool_decide as E; cbn [negb]; intros H%negb_true_iff.
  - right. split; [done|]. destruct (String.leb_total (slash_name (smc_meta x)) (slash_name (smc_meta y))); [done|congruence].
  - left. split; [done|]. destruct (String.leb_total (getMultusConfigSortKey x) (getMultusConfigSortKey y)); [done|congruence].
Qed.
Lemma mc_less_trans x y z : mc_less y x = false → mc_less z y = false → mc_less z x = false.
Proof.
  rewrite !mc_less_false. intros [[Hn H]|[He H]] [[Hn' H']|[He' H']].
  - left. split; [|by etrans]. intros E. rewrite E in H. apply Hn'. by apply (anti_symm String.le).
  - left. by rewrite <- He'.
  - left. by rewrite He.
  - right. split; [congruence|]. by etrans.
Qed.

Lemma sortMultusConfigs_perm l : sortMultusConfigs l ≡ₚ l.
Proof. apply SliceStable_perm. Qed.
Lemma sortMultusConfigs_sorted l : StronglySorted (λ a b, mc_less b a = false) (sortMultusConfigs l).
Proof. apply SliceStable_sorted; [exact mc_less_asym|exact mc_less_trans]. Qed.

(** The order of the networks depends on the set of the configurations only. *)
Lemma sortMultusConfigs_unique l l' : NoDup (slash_name ∘ smc_meta <$> l) → l ≡ₚ l' → sortMultusConfigs l = sortMultusConfigs l'.
Proof.
  intros Hn Hl. apply (StronglySorted_unique_strong (λ a b, mc_less b a = false)); [|apply sortMultusConfigs_sorted..|by rewrite !sortMultusConfigs_perm].
  intros x y Hx Hy. rewrite !mc_less_false. rewrite sortMultusConfigs_perm in Hx, Hy. rewrite <- Hl in Hy. intros H1 H2.
  assert (slash_name (smc_meta x) = slash_name (smc_meta y)) as E.
  { destruct H1 as [[N1 L1]|[E1 L1]], H2 as [[N2 L2]|[E2 L2]]; [|congruence..|by apply (anti_symm String.le)].
    destruct N1. by apply (anti_symm String.le). }
  apply list_elem_of_lookup in Hx as [i Hi], Hy as [j Hj].
  assert (i = j) as ->; [|congruence]. eapply NoDup_lookup; [exact Hn| |].
  - rewrite list_lookup_fmap, Hi. reflexivity.
  - rewrite list_lookup_fmap, Hj. cbn. by rewrite E.
Qed.

(** ** Containers *)

(** No limit and no request of a container is taken away or changed. *)
Definition grows {Q} (cs cs' : list (Container Q)) : Prop :=
  Forall2 (λ c c', Limits c ⊆ Limits c' ∧ Requests c ⊆ Requests c') cs cs'.
#[export] Instance grows_refl {Q} : Reflexive (@grows Q).
Proof. intros cs. induction cs; constructor; [done|exact IHcs]. Qed.
#[export] Instance grows_trans {Q} : Transitive (@grows Q).
Proof.
  intros a b c Hab. revert c. induction Hab as [|x y a b [H1 H2] Hab IH]; intros c Hbc; inversion Hbc as [|? z ? c' [H3 H4]]; subst; constructor; [|by apply IH].
  split; by etrans.
Qed.

Definition limited {Q} (pod : PodObject Q) (r : string) : Prop := ∃ c, c ∈ Containers pod ∧ is_Some (Limits c !! r).

#[export] Instance limited_dec {Q} (pod : PodObject Q) r : Decision (limited pod r).
Proof.
  refine (cast_if (decide (List.Exists (λ c, is_Some (Limits c !! r)) (Containers pod)))); unfold limited; by rewrite <- Exists_exists.
Defined.

Lemma grows_limited {Q} (pod pod' : PodObject Q) r : grows (Containers pod) (Containers pod') → limited pod r → limited pod' r.
Proof.
  intros H (c & [i Hi]%list_elem_of_lookup & [q Hq]). destruct (Forall2_lookup_l _ _ _ _ _ H Hi) as (c' & Hc' & HL & _).
  exists c'. split; [by eapply list_elem_of_lookup_2|]. exists q. by eapply lookup_weaken.
Qed.

Section inject.
Context {Quantity : Type} (quantity : Z → Quantity).
Implicit Types pod : PodObject Quantity.

Lemma has_key_spec {A} (m : gmap string A) k : has_key m k = true ↔ is_Some (m !! k).
Proof. apply bool_decide_eq_true. Qed.

Lemma podHasResource_spec pod r :
  podHasResource pod r = true ↔ ∃ c, c ∈ Containers pod ∧ (is_Some (Limits c !! r) ∨ is_Some (Requests c !! r)).
Proof.
  unfold podHasResource. rewrite existsb_exists. setoid_rewrite list_elem_of_In. by setoid_rewrite orb_true_iff; setoid_rewrite has_key_spec.
Qed.

Lemma grows_has pod pod' r : grows (Containers pod) (Containers pod') → podHasResource pod r = true → podHasResource pod' r = true.
Proof.
  rewrite !podHasResource_spec. intros H (c & [i Hi]%list_elem_of_lookup & Hc). destruct (Forall2_lookup_l _ _ _ _ _ H Hi) as (c' & Hc' & HL & HR).
  exists c'. split; [by eapply list_elem_of_lookup_2|]. destruct Hc as [[q Hq]|[q Hq]]; [left|right]; exists q; by eapply lookup_weaken.
Qed.

(** What [injectPodResource] comes to. *)
Definition resource_of (name : string) : string := if name == EmptyString then DefaultENISlotResourceName else name.
Lemma injectPodResource_grows pod r n : grows (Containers pod) (Containers (injectPodResource quantity pod r n)).
Proof.
  unfold injectPodResource. fold (resource_of r). destruct (Containers pod) as [|c cs] eqn:E; [by rewrite E|]. destruct (n <=? 0); [by rewrite E|].
  destruct (podHasResource pod _) eqn:Hh; [by rewrite E|]. cbn. constructor; [|reflexivity]. cbn.
  unfold podHasResource in Hh. rewrite E in Hh. cbn in Hh. apply orb_false_iff in Hh as [[H1 H2]%orb_false_iff _].
  apply bool_decide_eq_false in H1, H2. split; apply insert_subseteq; by apply eq_None_not_Some.
Qed.
Lemma injectPodResource_meta pod r n : po_meta (injectPodResource quantity pod r n) = po_meta pod.
Proof. unfold injectPodResource. destruct (Containers pod); [done|]. destruct (n <=? 0); [done|]. by destruct (podHasResource _ _). Qed.
Lemma injectPodResource_has pod r n : Containers pod ≠ [] → 0 < n → podHasResource (injectPodResource quantity pod r n) (resource_of r) = true.
Proof.
  intros Hc Hn. unfold injectPodResource. fold (resource_of r). destruct (Containers pod) as [|c cs]; [done|]. destruct (Z.leb_spec n 0); [lia|].
  destruct (podHasResource pod (resource_of r)) eqn:Hh; [done|]. unfold podHasResource. cbn. unfold has_key. rewrite lookup_insert_eq.
  by rewrite bool_decide_true by eauto.
Qed.
Lemma injectPodResource_same pod r n : podHasResource pod (resource_of r) = true → injectPodResource quantity pod r n = pod.
Proof.
  intros Hh. unfold injectPodResource. fold (resource_of r). rewrite Hh. destruct (Containers pod); [done|]. by destruct (n <=? 0).
Qed.

(** A run of such injections. *)
Definition inject_all (rs : list string) (pod : PodObject Quantity) : PodObject Quantity :=
  foldl (λ pod r, injectPodResource quantity pod r 1) pod rs.
Lemma inject_all_grows rs pod : grows (Containers pod) (Containers (inject_all rs pod)).
Proof. revert pod. induction rs as [|r rs IH]; intros pod; [done|]. cbn. etrans; [apply injectPodResource_grows|apply IH]. Qed.
Lemma inject_all_meta rs pod : po_meta (inject_all rs pod) = po_meta pod.
Proof. revert pod. induction rs as [|r rs IH]; intros pod; [done|]. cbn. etrans; [apply IH|apply injectPodResource_meta]. Qed.
Lemma inject_all_has rs pod r : Containers pod ≠ [] → r ∈ rs → podHasResource (inject_all rs pod) (resource_of r) = true.
Proof.
  revert pod. induction rs as [|r' rs IH]; intros pod Hc; [by intros ?%elem_of_nil|]. cbn. intros [->|Hr]%elem_of_cons.
  - eapply grows_has; [apply inject_all_grows|]. by apply injectPodResource_has.
  - apply IH; [|done]. intros E. pose proof (Forall2_length _ _ _ (injectPodResource_grows pod r' 1)) as L. rewrite E in L. by destruct (Containers pod).
Qed.
Lemma inject_all_same rs pod : (∀ r, r ∈ rs → podHasResource pod (resource_of r) = true) → inject_all rs pod = pod.
Proof.
  induction rs as [|r rs IH]; intros H; [done|]. cbn. rewrite injectPodResource_same by (apply H; by left). apply IH. intros; apply H; by right.
Qed.
Lemma inject_all_empty rs pod : Containers pod = [] → inject_all rs pod = pod.
Proof. intros E. induction rs as [|r rs IH]; [done|]. cbn. unfold injectPodResource at 2. by rewrite E. Qed.
Lemma inject_all_idempotent rs pod : inject_all rs (inject_all rs pod) = inject_all rs pod.
Proof.
  destruct (Containers pod) as [|c cs] eqn:E; [by rewrite !inject_all_empty by (rewrite ?inject_all_empty; done)|].
  apply inject_all_same. intros. apply inject_all_has; [by rewrite E|done].
Qed.
End inject.

(** ** The limits of the networks *)

Section rdma.
Context {Quantity : Type} (quantity : Z → Quantity) `{MR : MapRange}.
Implicit Types pod : PodObject Quantity.

Lemma mark_keys (c : Container Quantity) ks (m : gmap string bool) r : (∀ k, k ∈ ks → is_Some (m !! k)) →
  foldl (λ m k, if default false (m !! k) then m else if has_key (Limits c) k then <[k := true]> m else m) m ks !! r =
  (λ b, b || bool_decide (r ∈ ks) && has_key (Limits c) r) <$> (m !! r).
Proof.
  revert m. induction ks as [|k ks IH]; intros m Hks; cbn [foldl].
  - destruct (m !! r) as [b|]; [|done]. cbn. by rewrite orb_false_r.
  - destruct (Hks k) as [b Hb]; [by left|]. rewrite Hb. cbn [default from_option].
    assert (bool_decide (r ∈ k :: ks) = (r == k) || bool_decide (r ∈ ks)) as ->.
    { rewrite <- bool_decide_or. apply bool_decide_ext. set_solver. }
    destruct b; [|destruct (has_key (Limits c) k) eqn:Hk]; unfold id; cbv iota.
    + rewrite IH by (intros; apply Hks; by right). destruct (decide (r = k)) as [->|N]; [by rewrite Hb|]. by rewrite (bool_decide_false (r = k)) by done.
    + rewrite IH by (intros k' ?; destruct (decide (k' = k)) as [->|]; [rewrite lookup_insert_eq; eauto|rewrite lookup_insert_ne by done; apply Hks; by right]).
      destruct (decide (r = k)) as [->|N]; [rewrite lookup_insert_eq, Hb; cbn; by rewrite bool_decide_true, Hk by done|].
      by rewrite lookup_insert_ne, (bool_decide_false (r = k)) by done.
    + rewrite IH by (intros; apply Hks; by right). destruct (decide (r = k)) as [->|N]; [rewrite Hb; cbn; by rewrite Hk, !andb_false_r|].
      by rewrite (bool_decide_false (r = k)) by done.
Qed.

Lemma mark_found_lookup (m : gmap string bool) (c : Container Quantity) r : mark_found m c !! r = (λ b, b || has_key (Limits c) r) <$> (m !! r).
Proof.
  unfold mark_found. rewrite mark_keys by (intros k ?%elem_of_range_keys; done). destruct (m !! r) eqn:E; [|done]. cbn.
  by rewrite bool_decide_true by (apply elem_of_range_keys; eauto).
Qed.
Lemma mark_all_lookup (m : gmap string bool) (cs : list (Container Quantity)) r :
  foldl mark_found m cs !! r = (λ b, b || existsb (λ c, has_key (Limits c) r) cs) <$> (m !! r).
Proof.
  revert m. induction cs as [|c cs IH]; intros m; cbn [foldl existsb]; [by destruct (m !! r) as [[]|]|].
  rewrite IH, mark_found_lookup. destruct (m !! r); [|done]. cbn. by rewrite orb_assoc.
Qed.

(** The resources of the map that no container limits. *)
Definition missing (m : gmap string bool) pod : list string :=
  (λ kf : string * bool, kf.1) <$> filter (λ kf, kf.2 = false) (range_kv (foldl mark_found m (Containers pod))).

Lemma elem_of_missing m pod r : r ∈ missing m pod ↔ m !! r = Some false ∧ ¬ limited pod r.
Proof.
  unfold missing. rewrite list_elem_of_fmap.
  assert (existsb (λ c, has_key (Limits c) r) (Containers pod) = true ↔ limited pod r) as Hl.
  { rewrite existsb_exists. unfold limited. setoid_rewrite list_elem_of_In. by setoid_rewrite has_key_spec. }
  split.
  - intros ([k b] & -> & [Hb Hk]%list_elem_of_filter). cbn in *. apply elem_of_range_kv in Hk. rewrite mark_all_lookup in Hk.
    destruct (m !! k) as [[]|]; cbn in Hk; [by simplify_eq| |done]. split; [done|]. intros E. apply Hl in E. rewrite E in Hk. by simplify_eq.
  - intros [Hm Hn]. exists (r, false). split; [done|]. apply list_elem_of_filter. split; [done|]. apply elem_of_range_kv. rewrite mark_all_lookup, Hm. cbn.
    by rewrite (not_true_is_false _ (λ H, Hn (proj1 Hl H))).
Qed.

Definition limit_all (rs : list string) (L : gmap string Quantity) : gmap string Quantity := foldl (λ L r, <[r := quantity 1]> L) L rs.
Lemma limit_all_lookup rs L r : limit_all rs L !! r = if decide (r ∈ rs) then Some (quantity 1) else L !! r.
Proof.
  revert L. induction rs as [|k rs IH]; intros L; cbn [limit_all foldl]; [by rewrite decide_False by set_solver|]. fold (limit_all rs (<[k:=quantity 1]> L)).
  rewrite IH. destruct (decide (r ∈ rs)); [by rewrite decide_True by set_solver|]. destruct (decide (r = k)) as [->|].
  - rewrite lookup_insert_eq. by rewrite decide_True by set_solver.
  - rewrite lookup_insert_ne by done. by rewrite decide_False by set_solver.
Qed.

(** The second loop, by the resources that are missing. *)
Lemma InjectRdma_spec m pod : InjectRdmaResourceToPod quantity m pod =
  match missing m pod, Containers pod with
  | [], _ => Ret pod
  | _, [] => Panic
  | rs, c :: cs => Ret (MkPodObject (po_meta pod) (MkContainer (limit_all rs (Limits c)) (Requests c) :: cs))
  end.
Proof.
  unfold InjectRdmaResourceToPod, missing. generalize (range_kv (foldl mark_found m (Containers pod))) as kvs. intros kvs.
  set (step := λ (p : outcome (PodObject Quantity)) '(resource, found), _).
  assert (∀ kvs o, (∀ p, o ≠ Ret p) → foldl step o kvs = o) as Hstop.
  { clear. induction kvs as [|[r f] kvs IH]; intros o Ho; [done|]. cbn. destruct o; [by destruct (Ho a)|..]; by apply IH. }
  revert pod. induction kvs as [|[r f] kvs IH]; intros pod; [done|]. cbn [foldl]. rewrite filter_cons. cbn [snd].
  destruct f; [apply IH|]. cbn [decide decide_rel fmap list_fmap fst]. change (step (Ret pod) (r, false)) with (limit_first quantity pod r).
  unfold limit_first. destruct (Containers pod) as [|c cs] eqn:E; [by apply Hstop|]. rewrite IH. cbn [Containers po_meta].
  by destruct (filter _ kvs).
Qed.

Lemma InjectRdma_grows m pod pod' : InjectRdmaResourceToPod quantity m pod = Ret pod' →
  po_meta pod' = po_meta pod ∧ grows (Containers pod) (Containers pod') ∧ ∀ r, m !! r = Some false → limited pod' r.
Proof.
  rewrite InjectRdma_spec. intros H. pose proof (elem_of_missing m pod) as Hm. destruct (missing m pod) as [|r0 rs] eqn:E.
  - injection H as <-. split_and!; [done..|]. intros r Hr. destruct (decide (limited pod r)) as [|Hn]; [done|]. by destruct (not_elem_of_nil r); apply Hm.
  - destruct (Containers pod) as [|c cs] eqn:Ec; [done|]. apply Ret_inj in H as <-. split; [done|]. cbn [Containers].
    assert (grows (c :: cs) (MkContainer (limit_all (r0 :: rs) (Limits c)) (Requests c) :: cs)) as Hg.
    { constructor; [|reflexivity]. cbn [Limits Requests]. split; [|done]. apply map_subseteq_spec. intros r q Hq. rewrite limit_all_lookup. destruct (decide _) as [Hr|]; [|done].
      apply Hm in Hr as [_ Hr]. destruct Hr. exists c. rewrite Ec. split; [by left|eauto]. }
    split; [done|]. intros r Hr. destruct (decide (r ∈ r0 :: rs)) as [Hi|Hi].
    + eexists. split; [by left|]. cbn [Limits Requests]. rewrite limit_all_lookup, decide_True by done. eauto.
    + eapply (grows_limited pod); [by rewrite Ec|]. destruct (decide (limited pod r)) as [|Hn]; [done|]. by destruct Hi; apply Hm.
Qed.

Lemma InjectRdma_same m pod : (∀ r, m !! r = Some false → limited pod r) → InjectRdmaResourceToPod quantity m pod = Ret pod.
Proof.
  intros H. rewrite InjectRdma_spec. destruct (missing m pod) as [|r rs] eqn:E; [done|].
  assert (r ∈ missing m pod) as [Hr Hn]%elem_of_missing by (rewrite E; by left). destruct Hn. by apply H.
Qed.

(** The comment says that a missing resource goes to the requests of the first container; no
    request changes, the resource is added to the limits. *)
Theorem rdma_requests_unchanged m pod pod' : InjectRdmaResourceToPod quantity m pod = Ret pod' →
  Requests <$> Containers pod' = Requests <$> Containers pod.
Proof.
  rewrite InjectRdma_spec. destruct (missing m pod); [by intros [= <-]|]. destruct (Containers pod); [done|]. by intros [= <-].
Qed.

(** A Pod without containers, which the API server rejects only after the mutating webhooks, makes
    the handler panic. *)
Theorem no_container_panics m pod r : Containers pod = [] → m !! r = Some false → InjectRdmaResourceToPod quantity m pod = Panic.
Proof.
  intros Hc Hr. rewrite InjectRdma_spec, Hc. assert (r ∈ missing m pod) as Hm.
  - apply elem_of_missing. split; [done|]. intros (c & Hi & _). rewrite Hc in Hi. by apply elem_of_nil in Hi.
  - destruct (missing m pod); [by apply elem_of_nil in Hm|done].
Qed.
End rdma.

(** ** The webhook *)

(** The metadata changes in the network annotation at most. *)
Definition same_but_networks (m m' : ObjectMeta) : Prop :=
  ∃ a, m' = set_Annotations a m ∧ ∀ k, k ≠ MultusNetworkAttachmentAnnot → a !! k = Annotations m !! k.

Lemma same_but_refl m : same_but_networks m m.
Proof. exists (Annotations m). by destruct m. Qed.

(** The value that lists the networks. *)
Definition networks_value (l : list SpiderMultusConfig) : string := join "," ((slash_name ∘ smc_meta) <$> l).

Lemma slash_name_nonempty m : slash_name m ≠ EmptyString.
Proof. unfold slash_name. by destruct (Namespace m). Qed.
Lemma networks_value_nonempty l : l ≠ [] → networks_value l ≠ EmptyString.
Proof.
  destruct l as [|mc l]; [done|]. intros _. pose proof (slash_name_nonempty (smc_meta mc)) as Hn. unfold networks_value. cbn [fmap list_fmap join compose].
  destruct (slash_name (smc_meta mc)) eqn:E; [done|]. destruct l; cbn; by rewrite ?E.
Qed.

(** The loop over the networks: every one is valid, the value lists them in order, and the map has
    the resources of all of them. *)
Lemma collect_networks_spec rdma l v m v' m' : collect_networks rdma l v m = Ret (v', m') →
  v' = match l with [] => v | _ => if v == EmptyString then networks_value l else v +:+ "," +:+ networks_value l end ∧
  Forall (λ mc, doValidateInjectResource mc rdma = Ret ()) l ∧
  (∀ k, is_Some (m' !! k) ↔ is_Some (m !! k) ∨ (k ≠ EmptyString ∧ ∃ mc, mc ∈ l ∧ ResourceName mc = Ret k)) ∧
  Forall (λ mc, is_ret (ResourceName mc) = true) l ∧
  ((∀ k b, m !! k = Some b → b = false) → ∀ k b, m' !! k = Some b → b = false).
Proof.
  revert v m. induction l as [|mc l IH]; intros v m; cbn [collect_networks].
  { intros [= <- <-]. split_and!; try done. set_solver. }
  intros ([] & Hv & (r & Hr & H)%bind_Ret)%bind_Ret. apply IH in H as (-> & Hall & Hk & Hret & Hf). clear IH. split_and!.
  - destruct (v == EmptyString) eqn:Ev.
    + rewrite bool_decide_false by apply slash_name_nonempty. unfold networks_value. destruct l; [done|]. cbn. reflexivity.
    + rewrite (bool_decide_false (_ = EmptyString)) by (by destruct v). unfold networks_value. destruct l; [done|]. cbn [fmap list_fmap join]. cbn [compose].
      by rewrite <- !string_app_assoc.
  - by constructor.
  - intros k. rewrite Hk. clear Hk.
    assert (is_Some ((if r == EmptyString then m else if has_key m r then m else <[r:=false]> m) !! k) ↔ is_Some (m !! k) ∨ (k ≠ EmptyString ∧ k = r)) as ->.
    { destruct (decide (r = EmptyString)) as [->|Er]; [rewrite bool_decide_true by done; naive_solver|]. rewrite bool_decide_false by done.
      destruct (has_key m r) eqn:Eh.
      - apply has_key_spec in Eh. split; [by left|]. intros [?|[_ ->]]; done.
      - rewrite lookup_insert_is_Some. destruct (decide (r = k)) as [->|]; naive_solver. }
    split.
    + intros [[?|[? ->]]|(? & mc' & ? & ?)]; [by left|right..]; (split; [done|]); [exists mc|exists mc']; (split; [|done]); [by left|by right].
    + intros [?|(? & mc' & [->|?]%elem_of_cons & E)]; [by left; left| |right; eauto]. left. right. split; [done|]. congruence.
  - constructor; [by rewrite Hr|done].
  - intros Hm. apply Hf. intros k b. destruct (r == EmptyString); [apply Hm|]. destruct (has_key m r); [apply Hm|].
    intros [[<- <-]|[_ ?]]%lookup_insert_Some; [done|by eapply Hm].
Qed.

Section handlers.
Context {Quantity : Type} (quantity : Z → Quantity) `{MR : MapRange, R : WebhookReader, J : JSON (list (option NetworkSelectionElement))}.
Context (nsManager : bool).
Implicit Types pod : PodObject Quantity.

(** Injection of a list of networks that is not empty. *)
Lemma injectPodNetwork_spec rdma pod l pod' : l ≠ [] → injectPodNetwork quantity pod l rdma = Ret pod' →
  po_meta pod' = po_meta (annotate_pod MultusNetworkAttachmentAnnot (networks_value (sortMultusConfigs l)) pod) ∧
  grows (Containers pod) (Containers pod') ∧
  Forall (λ mc, doValidateInjectResource mc rdma = Ret () ∧ ∃ r, ResourceName mc = Ret r ∧ (r = EmptyString ∨ limited pod' r)) l ∧
  (∀ pod'', po_meta pod'' = po_meta pod' → grows (Containers pod') (Containers pod'') → injectPodNetwork quantity pod'' l rdma = Ret pod'').
Proof.
  intros Hl ([v m] & Hc & H)%bind_Ret. pose proof (collect_networks_spec _ _ _ _ _ _ Hc) as (Hv & Hall & Hk & Hret & Hf).
  assert (sortMultusConfigs l ≠ []) as Hs. { intros E. apply Hl. apply Permutation_nil. by rewrite <- E, sortMultusConfigs_perm. }
  assert (v = networks_value (sortMultusConfigs l)) as ->. { rewrite Hv. by destruct (sortMultusConfigs l). }
  rewrite bool_decide_false in H by (by apply networks_value_nonempty). cbn [negb] in H. apply InjectRdma_grows in H as (Hm & Hg & Hlim). cbn [Containers annotate_pod] in Hg.
  assert (∀ k, is_Some (m !! k) → m !! k = Some false) as Hfalse.
  { intros k [b Hb]. rewrite Hb. f_equal. eapply Hf; [by intros ? ? ?%lookup_empty_Some|done]. }
  split_and!; [done..| |].
  - rewrite sortMultusConfigs_perm in Hall, Hret. rewrite Forall_forall in Hall, Hret. apply Forall_forall. intros mc Hmc. split; [by apply Hall|].
    specialize (Hret mc Hmc). destruct (ResourceName mc) as [r|e| |] eqn:Er; [|done..]. exists r. split; [done|]. destruct (decide (r = EmptyString)) as [|N]; [by left|].
    right. apply Hlim, Hfalse, Hk. right. split; [done|]. exists mc. by rewrite sortMultusConfigs_perm.
  - intros pod'' Em Eg. unfold injectPodNetwork. rewrite Hc. cbn [mbind outcome_bind]. rewrite bool_decide_false by (by apply networks_value_nonempty). cbn [negb].
    assert (annotate_pod MultusNetworkAttachmentAnnot (networks_value (sortMultusConfigs l)) pod'' = pod'') as ->.
    { destruct pod'' as [m'' cs]. unfold annotate_pod. cbn in *. f_equal. rewrite Em, Hm. destruct (po_meta pod). unfold set_Annotations. cbn. by rewrite insert_insert_eq. }
    apply InjectRdma_same. intros r Hr. eapply grows_limited; [exact Eg|]. by apply Hlim.
Qed.

Lemma getEffective_meta pod pod' anno : same_but_networks (po_meta pod) (po_meta pod') → anno ∈ inject_annotations →
  getEffectiveResourceInjectValue nsManager pod' anno = getEffectiveResourceInjectValue nsManager pod anno.
Proof.
  intros (a & Ha & Hs) Hi. unfold getEffectiveResourceInjectValue. rewrite Ha. cbn. rewrite Hs; [done|].
  intros ->. unfold inject_annotations in Hi. repeat (apply elem_of_cons in Hi as [Hi|Hi]; [discriminate Hi|]). by apply elem_of_nil in Hi.
Qed.

(** The annotation that decides, and its value: the one for RDMA before the one for networks. *)
Definition requested pod (anno v : string) : Prop :=
  (anno = AnnoPodResourceInject ∧ getEffectiveResourceInjectValue nsManager pod anno = Ret (Some v)) ∨
  (anno = AnnoNetworkResourceInject ∧ getEffectiveResourceInjectValue nsManager pod AnnoPodResourceInject = Ret None ∧
   getEffectiveResourceInjectValue nsManager pod anno = Ret (Some v)).

Definition unrequested pod : Prop := Forall (λ anno, getEffectiveResourceInjectValue nsManager pod anno = Ret None) inject_annotations.

Lemma selector_of anno v sel : LabelSelectorAsSelector (MkSelector ∅ [MkRequirement anno OpIn [v]]) = Ret sel → sel = [MkReq anno In [v]].
Proof.
  unfold LabelSelectorAsSelector. cbn [MatchLabels MatchExpressions]. unfold range_kv. rewrite range_keys_empty. cbn [omap list_omap fmap list_fmap app concat_map_m lsr_key lsr_op lsr_values selection_op].
  intros. inv_ret. unfold NewRequirement in *. destruct (_ && _); [|done]. by inv_ret.
Qed.

(** The first part of the webhook: nothing, or the networks that the selector lists. *)
Lemma network_step pod pod1 :
  (need ← needPodNetworkInjection nsManager pod; if (need : bool) then podNetworkMutatingWebhook quantity nsManager pod else Ret pod) = Ret pod1 →
  (unrequested pod ∧ pod1 = pod) ∨
  ∃ anno v l, requested pod anno v ∧ ListMultusConfigs [MkReq anno In [v]] = Ret l ∧ l ≠ [] ∧
    LabelSelectorAsSelector (MkSelector ∅ [MkRequirement anno OpIn [v]]) = Ret [MkReq anno In [v]] ∧
    injectPodNetwork quantity pod l (anno == AnnoPodResourceInject) = Ret pod1.
Proof.
  unfold needPodNetworkInjection, podNetworkMutatingWebhook, inject_annotations. cbn [foldr]. intros (need & Hn & H)%bind_Ret.
  assert (∀ anno v rest, (value ← Ret (Some v); match value with None => rest | Some v => selector ← LabelSelectorAsSelector (MkSelector ∅ [MkRequirement anno OpIn [v]]);
      multusConfigs ← ListMultusConfigs selector; _ ← check (negb (length multusConfigs =? 0)%nat) (ErrOther "no spidermultusconfigs found");
      injectPodNetwork quantity pod multusConfigs (anno == AnnoPodResourceInject) end) = Ret pod1 →
      ∃ l, ListMultusConfigs [MkReq anno In [v]] = Ret l ∧ l ≠ [] ∧ LabelSelectorAsSelector (MkSelector ∅ [MkRequirement anno OpIn [v]]) = Ret [MkReq anno In [v]] ∧
      injectPodNetwork quantity pod l (anno == AnnoPodResourceInject) = Ret pod1) as Hcase.
  { intros anno v rest (val & [= <-] & (sel & Hs & (l & Hl & ([] & Hc%check_Ret & Hi)%bind_Ret)%bind_Ret)%bind_Ret)%bind_Ret.
    pose proof (selector_of _ _ _ Hs) as ->. exists l. split_and!; [done| |done|done]. by destruct l. }
  destruct (getEffectiveResourceInjectValue nsManager pod AnnoPodResourceInject) as [[v|]|e| |] eqn:E1; [| |done..].
  - injection Hn as <-. apply Hcase in H as (l & ?). right. exists AnnoPodResourceInject, v, l. split; [by left|done].
  - destruct (getEffectiveResourceInjectValue nsManager pod AnnoNetworkResourceInject) as [[v|]|e| |] eqn:E2; [| |done..].
    + injection Hn as <-. apply (Hcase _ _ (Ret pod)) in H as (l & ?). right. exists AnnoNetworkResourceInject, v, l. split; [by right|done].
    + injection Hn as <-. injection H as <-. left. split; [|done]. by repeat constructor.
Qed.
Lemma network_step_unrequested pod : unrequested pod →
  (need ← needPodNetworkInjection nsManager pod; if (need : bool) then podNetworkMutatingWebhook quantity nsManager pod else Ret pod) = Ret pod.
Proof.
  intros [H1 [H2 _]%Forall_cons]%Forall_cons. unfold needPodNetworkInjection, inject_annotations. cbn [foldr]. by rewrite H1, H2.
Qed.
Lemma network_step_requested pod anno v l : requested pod anno v → ListMultusConfigs [MkReq anno In [v]] = Ret l → l ≠ [] →
  LabelSelectorAsSelector (MkSelector ∅ [MkRequirement anno OpIn [v]]) = Ret [MkReq anno In [v]] →
  (need ← needPodNetworkInjection nsManager pod; if (need : bool) then podNetworkMutatingWebhook quantity nsManager pod else Ret pod) =
  injectPodNetwork quantity pod l (anno == AnnoPodResourceInject).
Proof.
  intros Hr Hl Hne Hs. unfold needPodNetworkInjection, podNetworkMutatingWebhook, inject_annotations. cbn [foldr].
  assert (check (negb (length l =? 0)%nat) (ErrOther "no spidermultusconfigs found") = Ret ()) as Hc by (by destruct l).
  destruct Hr as [[-> E]|(-> & E1 & E2)].
  - rewrite E. cbn [mbind outcome_bind]. rewrite Hs. cbn [mbind outcome_bind]. rewrite Hl. cbn [mbind outcome_bind]. by rewrite Hc.
  - rewrite E1, E2. cbn [mbind outcome_bind]. rewrite Hs. cbn [mbind outcome_bind]. rewrite Hl. cbn [mbind outcome_bind]. by rewrite Hc.
Qed.

Lemma injected_meta rdma pod l pod1 : l ≠ [] → injectPodNetwork quantity pod l rdma = Ret pod1 → same_but_networks (po_meta pod) (po_meta pod1).
Proof.
  intros Hl H. destruct (injectPodNetwork_spec _ _ _ _ Hl H) as (-> & _). eexists. split; [reflexivity|]. intros k Hk. cbn. by rewrite lookup_insert_ne.
Qed.

(** The networks of a Pod depend on its metadata only. *)
Lemma resolve_meta pod pod' : po_meta pod' = po_meta pod → resolvePodReferencedSpiderMultusConfigs pod' = resolvePodReferencedSpiderMultusConfigs pod.
Proof. unfold resolvePodReferencedSpiderMultusConfigs, resolve_annotation. by intros ->. Qed.

Lemma inject_masters ms pod : foldl (λ pod m, injectPodResource quantity pod (master_resource m) 1) pod ms = inject_all quantity (master_resource <$> ms) pod.
Proof. revert pod. induction ms as [|m ms IH]; intros pod; [done|]. apply IH. Qed.
Lemma resource_of_master m : resource_of (master_resource m) = master_resource m.
Proof. unfold resource_of. by rewrite bool_decide_false. Qed.

Lemma master_step cfg pod pod2 : podMasterNICResourceMutatingWebhook quantity pod cfg = Ret pod2 →
  po_meta pod2 = po_meta pod ∧ grows (Containers pod) (Containers pod2) ∧
  ∀ pod', po_meta pod' = po_meta pod2 → grows (Containers pod2) (Containers pod') → podMasterNICResourceMutatingWebhook quantity pod' cfg = Ret pod'.
Proof.
  unfold podMasterNICResourceMutatingWebhook. destruct (_ || _); [by intros [= <-]|]. intros (l & Hl & H%Ret_inj)%bind_Ret. rewrite inject_masters in H.
  set (rs := master_resource <$> _) in H. subst pod2. split_and!; [apply inject_all_meta|apply inject_all_grows|]. intros pod' Hm Hg.
  rewrite inject_all_meta in Hm. rewrite (resolve_meta pod pod'), Hl by done. cbn [mbind outcome_bind]. f_equal. rewrite inject_masters. fold rs.
  destruct (Containers pod) as [|c cs] eqn:E.
  - rewrite inject_all_empty in Hg by done. rewrite E in Hg. inversion Hg as [E'|]. by rewrite inject_all_empty.
  - apply inject_all_same. intros r Hr. eapply grows_has; [exact Hg|]. apply inject_all_has; [by rewrite E|done].
Qed.

Lemma eni_step cfg pod pod3 : podENIResourceMutatingWebhook quantity pod cfg = Ret pod3 →
  po_meta pod3 = po_meta pod ∧ grows (Containers pod) (Containers pod3) ∧ podENIResourceMutatingWebhook quantity pod3 cfg = Ret pod3.
Proof.
  unfold podENIResourceMutatingWebhook. destruct (_ || _); [by intros [= <-]|]. fold (resource_of (eni_ResourceName cfg)).
  assert (resource_of (resource_of (eni_ResourceName cfg)) = resource_of (eni_ResourceName cfg)) as Hrr.
  { unfold resource_of. destruct (eni_ResourceName cfg == EmptyString) eqn:E; [done|]. by rewrite E. }
  destruct (podHasResource pod (resource_of (eni_ResourceName cfg))) eqn:Hh; [intros [= <-]; by rewrite Hh|].
  intros (l & Hl & H%Ret_inj)%bind_Ret. destruct (length _ =? 0)%nat eqn:En.
  - subst pod3. rewrite Hh, Hl. cbn [mbind outcome_bind]. by rewrite En.
  - subst pod3. unfold InjectPodENIResources. split_and!; [apply injectPodResource_meta|apply injectPodResource_grows|].
    destruct (Containers pod) as [|c cs] eqn:E.
    + assert (injectPodResource quantity pod (resource_of (eni_ResourceName cfg)) (Z.of_nat (length (List.filter isProviderVLANSpiderMultusConfig l))) = pod) as -> by (unfold injectPodResource; by rewrite E).
      rewrite Hh, Hl. cbn [mbind outcome_bind]. rewrite En. unfold injectPodResource. by rewrite E.
    + pose proof (injectPodResource_has quantity pod (resource_of (eni_ResourceName cfg))) as Hx. rewrite Hrr in Hx. rewrite Hx; [done|by rewrite E|].
      apply Nat.eqb_neq in En. lia.
Qed.

Lemma Default_steps cfg pod pod' : PodWebhook_Default quantity nsManager cfg pod = Ret pod' ↔
  ∃ pod1 pod2, (need ← needPodNetworkInjection nsManager pod; if (need : bool) then podNetworkMutatingWebhook quantity nsManager pod else Ret pod) = Ret pod1 ∧
    podMasterNICResourceMutatingWebhook quantity pod1 cfg = Ret pod2 ∧ podENIResourceMutatingWebhook quantity pod2 cfg = Ret pod'.
Proof.
  unfold PodWebhook_Default. split.
  - intros (need & Hn & (pod1 & H1 & (pod2 & H2 & H3)%bind_Ret)%bind_Ret)%bind_Ret. exists pod1, pod2. by rewrite Hn.
  - intros (pod1 & pod2 & (need & -> & H1)%bind_Ret & H2 & H3). cbn [mbind outcome_bind]. rewrite H1. cbn [mbind outcome_bind]. by rewrite H2.
Qed.

Lemma network_step_meta pod pod1 :
  (need ← needPodNetworkInjection nsManager pod; if (need : bool) then podNetworkMutatingWebhook quantity nsManager pod else Ret pod) = Ret pod1 →
  same_but_networks (po_meta pod) (po_meta pod1) ∧ grows (Containers pod) (Containers pod1).
Proof.
  intros [[_ ->]|(anno & v & l & _ & _ & Hne & _ & H)]%network_step; [split; [apply same_but_refl|done]|].
  split; [by eapply injected_meta|]. by apply injectPodNetwork_spec in H as (_ & ? & _).
Qed.

(** C32: the Pod webhook only adds: an admitted Pod keeps its containers with every limit and every
    request that its author wrote, and of its metadata only the annotation that lists the networks
    may change. *)
Theorem pod_webhook_keeps cfg pod pod' : PodWebhook_Default quantity nsManager cfg pod = Ret pod' →
  grows (Containers pod) (Containers pod') ∧ same_but_networks (po_meta pod) (po_meta pod').
Proof.
  intros (pod1 & pod2 & [Hm Hg]%network_step_meta & (Hm2 & Hg2 & _)%master_step & (Hm3 & Hg3 & _)%eni_step)%Default_steps.
  split; [by do 2 (etrans; [eassumption|])|]. by rewrite Hm3, Hm2.
Qed.

(** The webhook is idempotent: run again on a Pod that it admitted (as the API server does when
    another webhook changed the Pod) it succeeds and changes nothing. *)
Theorem pod_webhook_idempotent cfg pod pod' : PodWebhook_Default quantity nsManager cfg pod = Ret pod' →
  PodWebhook_Default quantity nsManager cfg pod' = Ret pod'.
Proof.
  intros (pod1 & pod2 & H1 & (Hm2 & Hg2 & H2)%master_step & (Hm3 & Hg3 & H3)%eni_step)%Default_steps. apply Default_steps. exists pod', pod'.
  assert (same_but_networks (po_meta pod) (po_meta pod')) as Hs. { rewrite Hm3, Hm2. by apply network_step_meta in H1 as [? _]. }
  pose proof (λ anno, getEffective_meta pod pod' anno Hs) as Heff. split_and!; [|by apply H2|done].
  apply network_step in H1 as [[Hun ->]|(anno & v & l & Hr & Hl & Hne & Hsel & Hi)].
  - apply network_step_unrequested. unfold unrequested in *. rewrite Forall_forall in Hun |- *. intros a Ha. rewrite Heff by done. by apply Hun.
  - rewrite (network_step_requested pod' anno v l); [|destruct Hr as [[-> E]|(-> & E1 & E2)]; [left|right]; rewrite !Heff by set_solver; done|done..].
    apply injectPodNetwork_spec in Hi as (_ & _ & _ & Hagain); [|done]. apply Hagain; [congruence|by etrans].
Qed.
End handlers.

(** The list order of the API server does not matter: the network annotation, and with it the NIC
    that a network gets, is a function of the set of the configurations. *)
Theorem injection_order {Q} (quantity : Z → Q) `{MR : MapRange} pod l l' rdma :
  NoDup (slash_name ∘ smc_meta <$> l) → l ≡ₚ l' → injectPodNetwork quantity pod l rdma = injectPodNetwork quantity pod l' rdma.
Proof. intros. unfold injectPodNetwork. by rewrite (sortMultusConfigs_unique l l'). Qed.

(** A configuration that went through its own webhook has the label that the Pods select by. *)
Theorem annotated_config_selected mc anno v : anno ∈ inject_annotations → Annotations (smc_meta mc) !! anno = Some v →
  Matches [MkReq anno In [v]] (Labels (smc_meta (Default mc))) = true.
Proof.
  intros Ha Hv. assert (Labels (smc_meta (Default mc)) !! anno = Some v) as HL.
  - unfold Default, mutateSpiderMultusConfig, inject_labels. cbn [smc_meta foldl]. destruct (smc_meta mc) as [n ns u rv ls a fs os d]. cbn in Hv.
    unfold inject_annotations in Ha. apply elem_of_cons in Ha as [->|Ha].
    + unfold set_label, set_Labels. cbn. rewrite Hv. cbn. destruct (a !! AnnoNetworkResourceInject); cbn; [rewrite lookup_insert_ne by done|]; by rewrite lookup_insert_eq.
    + apply list_elem_of_singleton in Ha as ->. unfold set_label, set_Labels. cbn. destruct (a !! AnnoPodResourceInject); cbn; rewrite Hv; cbn; by rewrite lookup_insert_eq.
  - unfold Matches, Matches1. cbn [forallb req_op req_key req_values]. rewrite HL. by rewrite bool_decide_true by (by left).
Qed.

(** ** The network annotation, parsed again *)

Definition label_char (c : ascii) : bool := is_lower c || is_digit c || is_dash c.
Definition network_char (c : ascii) : bool := label_char c || (c == "/"%char) || (c == ","%char).

Lemma label_chars s : dns1123_label s = true → s ≠ EmptyString ∧ string_forall label_char s = true.
Proof.
  unfold dns1123_label, edged. destruct s as [|c s]; [done|]. intros H. split; [done|]. destruct (last_char (String c s)); [|done].
  apply andb_true_iff in H as [_ H]. exact H.
Qed.
Lemma chars_without (P : ascii → bool) c s : P c = false → string_forall P s = true → contains_char c s = false.
Proof. eauto using string_forall_contains. Qed.

Lemma network_char_visible s : string_forall network_char s = true → string_forall (negb ∘ is_space) s = true.
Proof.
  apply string_forall_weaken. intros c. unfold network_char, label_char, is_lower, is_digit, is_dash, is_space, char_between. cbn [compose].
  intros H. apply negb_true_iff. apply orb_false_iff. rewrite bool_decide_eq_false. split.
  - apply andb_false_iff. rewrite !Z.leb_gt. repeat apply orb_true_iff in H as [H|H]; try (apply andb_true_iff in H as [H1%Z.leb_le H2%Z.leb_le]; lia).
    all: apply bool_decide_eq_true in H as ->; right; vm_compute; reflexivity.
  - intros ->. by vm_compute in H.
Qed.
Lemma label_network s : string_forall label_char s = true → string_forall network_char s = true.
Proof. apply string_forall_weaken. intros c H. unfold network_char. by rewrite H. Qed.

(** Networks with plain names: labels of DNS. *)
Definition plain_network (mc : SpiderMultusConfig) : Prop :=
  dns1123_label (Namespace (smc_meta mc)) = true ∧ dns1123_label (Name (smc_meta mc)) = true.

Lemma plain_network_chars mc : plain_network mc → string_forall network_char (slash_name (smc_meta mc)) = true.
Proof.
  intros [[_ H1]%label_chars [_ H2]%label_chars]. unfold slash_name. rewrite !string_forall_app, (label_network _ H1), (label_network _ H2). reflexivity.
Qed.

Lemma parse_slash_name mc : plain_network mc →
  ParsePodNetworkObjectName (TrimSpace (slash_name (smc_meta mc))) = Ret (Namespace (smc_meta mc), Name (smc_meta mc), ""%string).
Proof.
  intros Hp. pose proof (network_char_visible _ (plain_network_chars _ Hp)) as Hv. rewrite TrimSpace_same by done.
  destruct Hp as [Hns Hn]. destruct (label_chars _ Hns) as [_ Cns], (label_chars _ Hn) as [_ Cn].
  unfold ParsePodNetworkObjectName, slash_name. change ("/" +:+ Name (smc_meta mc)) with (String "/" (Name (smc_meta mc))).
  rewrite split_app by (by apply (chars_without label_char)). rewrite (split_none "/" (Name _)) by (by apply (chars_without label_char)). cbn [mbind outcome_bind].
  rewrite split_none by (by apply (chars_without label_char)). cbn [mbind outcome_bind].
  rewrite !TrimSpace_same by (by apply network_char_visible, label_network). cbn [for_each]. by rewrite Hns, Hn.
Qed.

Definition plain_element (mc : SpiderMultusConfig) : NetworkSelectionElement :=
  MkNSE (Name (smc_meta mc)) (Namespace (smc_meta mc)) [] "" "" "".

Lemma split_names l : Forall plain_network l → l ≠ [] → split "," (networks_value l) = (slash_name ∘ smc_meta) <$> l.
Proof.
  intros Hl Hne. unfold networks_value. induction Hl as [|mc l Hp Hl IH]; [done|]. cbn [fmap list_fmap join compose].
  assert (contains_char "," (slash_name (smc_meta mc)) = false) as Hc.
  { destruct Hp as [[_ H1]%label_chars [_ H2]%label_chars]. unfold slash_name. rewrite !contains_char_app.
    by rewrite (chars_without label_char "," (Namespace (smc_meta mc))), (chars_without label_char "," (Name (smc_meta mc))). }
  destruct l as [|mc' l]; [by apply split_none|]. cbn [fmap list_fmap] in *. change ("," +:+ ?s) with (String "," s). rewrite split_app by done. f_equal. by apply IH.
Qed.

Lemma parse_networks_value `{J : JSON (list (option NetworkSelectionElement))} l ns : Forall plain_network l → l ≠ [] →
  ParsePodNetworkAnnotation (networks_value l) ns = Ret (plain_element <$> l).
Proof.
  intros Hl Hne. assert (string_forall network_char (networks_value l) = true) as Hc.
  { apply string_forall_join; [done|]. apply Forall_fmap. eapply Forall_impl; [exact Hl|]. apply plain_network_chars. }
  unfold ParsePodNetworkAnnotation. rewrite bool_decide_false by (by apply networks_value_nonempty).
  rewrite TrimSpace_same by (by apply network_char_visible). cbn [existsb]. rewrite !(chars_without network_char _ _) by done. cbn [orb].
  rewrite split_names by done. assert (parse_items ((slash_name ∘ smc_meta) <$> l) = Ret (Some <$> (plain_element <$> l))) as ->.
  { clear Hc Hne. induction Hl as [|mc l Hp Hl IH]; [done|]. cbn [fmap list_fmap parse_items compose]. rewrite parse_slash_name by done.
    cbn [mbind outcome_bind]. rewrite IH. done. }
  cbn [mbind outcome_bind]. clear Hc Hne. induction Hl as [|mc l Hp Hl IH]; [done|]. cbn [fmap list_fmap complete_elements deref mbind outcome_bind].
  cbn [MacRequest InfinibandGUIDRequest IPRequest plain_element for_each]. change (check ((""%string == EmptyString) || _) _) with (Ret ()).
  cbn [mbind outcome_bind]. cbn [fmap list_fmap] in IH. rewrite IH. destruct Hp as [[Hn _]%label_chars _]. cbn. by rewrite bool_decide_false.
Qed.

(** A name with one slash has one reading. *)
Lemma one_slash (a b c d : string) : contains_char "/" c = false → contains_char "/" d = false →
  a +:+ "/" +:+ b = c +:+ "/" +:+ d → a = c ∧ b = d.
Proof.
  intros Hc Hd. revert a. induction c as [|x c IH]; intros a H.
  - destruct a as [|y a]; [by injection H|]. injection H as -> H'. change (EmptyString +:+ d) with d in H'. rewrite <- H', contains_char_app in Hd. cbn in Hd. by rewrite orb_true_r in Hd.
  - cbn in Hc. apply orb_false_iff in Hc as [Hx Hc]. destruct a as [|y a]; [injection H as <- _; by rewrite bool_decide_true in Hx|]. injection H as -> H.
    destruct (IH Hc a H) as [-> ->]. done.
Qed.

Section resolve.
Context `{R : WebhookReader}.

Definition nse_key (n : NetworkSelectionElement) : string := nse_Namespace n +:+ "/" +:+ nse_Name n.

(** What is seen was resolved. *)
Definition seen_ok (seen : gset string) (result : list SpiderMultusConfig) : Prop :=
  ∀ key, key ∈ seen → ∃ ns name mc, key = ns +:+ "/" +:+ name ∧ GetMultusConfig ns name = Ret mc ∧ mc ∈ result.

Lemma resolve_networks_seen networks seen result seen' result' : resolve_networks networks seen result = Ret (seen', result') → seen ⊆ seen'.
Proof.
  revert seen result. induction networks as [|m networks IH]; intros seen result; cbn [resolve_networks]; [by intros [= <- _]|].
  destruct (bool_decide _); [apply IH|]. destruct (GetMultusConfig _ _) as [mc|[]| |]; try done; [|apply IH]. intros H%IH. set_solver.
Qed.

Lemma resolve_networks_spec networks seen result seen' result' : seen_ok seen result → resolve_networks networks seen result = Ret (seen', result') →
  seen_ok seen' result' ∧ result ⊆ result' ∧
  ∀ n mc, n ∈ networks → GetMultusConfig (nse_Namespace n) (nse_Name n) = Ret mc → nse_key n ∈ seen'.
Proof.
  revert seen result. induction networks as [|n networks IH]; intros seen result Hok; cbn [resolve_networks].
  { intros [= <- <-]. split_and!; [done..|]. by intros ? ? ?%elem_of_nil. }
  fold (nse_key n). destruct (decide (nse_key n ∈ seen)) as [Hin|Hout]; [rewrite bool_decide_true by done|rewrite bool_decide_false by done].
  - intros H. pose proof (resolve_networks_seen _ _ _ _ _ H) as Hss.
    apply IH in H as (? & ? & Hn); [|done]. split_and!; [done..|]. intros n' mc [->|Hi]%elem_of_cons Hg; [by apply Hss|by eapply Hn].
  - destruct (GetMultusConfig (nse_Namespace n) (nse_Name n)) as [mc|e| |] eqn:E; [| |done..].
    + intros H. pose proof (resolve_networks_seen _ _ _ _ _ H) as Hss.
      apply IH in H as (Hok' & Hsub & Hn).
      * split_and!; [done|set_solver|]. intros n' mc' [->|Hi]%elem_of_cons Hg; [set_solver|by eapply Hn].
      * intros key [->%elem_of_singleton|Hk]%elem_of_union; [exists (nse_Namespace n), (nse_Name n), mc; split_and!; [done..|set_solver]|].
        destruct (Hok key Hk) as (ns & name & mc' & ? & ? & ?). exists ns, name, mc'. split_and!; [done..|set_solver].
    + destruct (decide (e = APINotFound)) as [->|Ne]; [|by destruct e]. intros H%IH; [|done]. destruct H as (? & ? & Hn). split_and!; [done..|].
      intros n' mc' [->|Hi]%elem_of_cons Hg; [congruence|by eapply Hn].
Qed.
End resolve.

Section networks.
Context {Quantity : Type} (quantity : Z → Quantity) `{MR : MapRange, R : WebhookReader, J : JSON (list (option NetworkSelectionElement))}.
Context (nsManager : bool).
Implicit Types pod : PodObject Quantity.

(** The networks of an injected annotation are resolved. *)
Lemma resolve_injected pod l res : Annotations (po_meta pod) !! MultusNetworkAttachmentAnnot = Some (networks_value l) →
  Forall plain_network l → l ≠ [] → (∀ mc, mc ∈ l → GetMultusConfig (Namespace (smc_meta mc)) (Name (smc_meta mc)) = Ret mc) →
  resolvePodReferencedSpiderMultusConfigs pod = Ret res → l ⊆ res.
Proof.
  intros Ha Hp Hne Hget. unfold resolvePodReferencedSpiderMultusConfigs. cbn [foldl].
  intros H. destruct (resolve_annotation pod (resolve_annotation pod _ _) _) as [[seen2 res2]|e| |] eqn:E2; [|done..]. injection H as <-.
  apply bind_Ret in E2 as ([seen1 res1] & E1 & E2). rewrite Ha in E2. cbn [default from_option id] in E2.
  assert (seen_ok seen1 res1) as Hok.
  { unfold resolve_annotation in E1. cbn [mbind outcome_bind] in E1. assert (seen_ok ∅ []) as H0 by (intros ? ?%elem_of_empty; done).
    destruct (default ""%string _) as [|a s]; [by injection E1 as <- <-|]. apply bind_Ret in E1 as (nets & _ & E1). by eapply resolve_networks_spec. }
  pose proof (networks_value_nonempty l Hne) as Hnv. destruct (networks_value l) as [|a s] eqn:Env; [done|]. rewrite <- Env in E2.
  rewrite parse_networks_value in E2 by done. cbn [mbind outcome_bind] in E2. apply resolve_networks_spec in E2 as (Hok2 & _ & Hall); [|done].
  intros mc Hmc. specialize (Hget mc Hmc). destruct (Hok2 _ (Hall (plain_element mc) mc (list_elem_of_fmap_2 _ _ _ Hmc) Hget)) as (ns & name & mc' & Hk & Hg & Hin).
  rewrite Forall_forall in Hp. destruct (Hp mc Hmc) as [[_ H1]%label_chars [_ H2]%label_chars].
  symmetry in Hk. apply one_slash in Hk as [-> ->]; [|by apply (chars_without label_char)..]. cbn in Hg. congruence.
Qed.

Lemma masters_of_spec l m : is_Some (masters_of l !! m) ↔ m ≠ EmptyString ∧ ∃ mc, mc ∈ l ∧ m ∈ getSpiderMultusConfigMasters mc.
Proof.
  unfold masters_of. assert (∀ ms (acc : gmap string unit), is_Some (foldl (λ acc m, if m != EmptyString then <[m := ()]> acc else acc) acc ms !! m) ↔
    is_Some (acc !! m) ∨ m ≠ EmptyString ∧ m ∈ ms) as Hf.
  { induction ms as [|x ms IH]; intros acc; cbn [foldl]; [set_solver|]. rewrite IH. rewrite elem_of_cons. destruct (decide (x = EmptyString)) as [->|Hx].
    - rewrite bool_decide_true by done. cbn. naive_solver.
    - rewrite bool_decide_false by done. cbn. rewrite lookup_insert_is_Some. destruct (decide (x = m)) as [->|]; naive_solver. }
  rewrite Hf, lookup_empty, elem_of_concat. setoid_rewrite list_elem_of_fmap. split.
  - intros [[? ?]|(? & ms & (mc & -> & ?) & ?)]; [done|eauto].
  - intros (? & mc & ? & ?). right. eauto 10.
Qed.

(** A Pod that asks for networks and is admitted gets exactly the configurations that carry the
    label it asked for: its network annotation lists all of them, in the order of the sort, and
    every extended resource that one of them needs is limited in a container. *)
Theorem pod_webhook_networks {L : WebhookReaderLaws R} cfg pod pod' anno v :
  requested nsManager pod anno v → PodWebhook_Default quantity nsManager cfg pod = Ret pod' →
  ∃ l, ListMultusConfigs [MkReq anno In [v]] = Ret l ∧ l ≠ [] ∧
    Annotations (po_meta pod') !! MultusNetworkAttachmentAnnot = Some (networks_value (sortMultusConfigs l)) ∧
    Forall (λ mc, Labels (smc_meta mc) !! anno = Some v ∧ ∃ r, ResourceName mc = Ret r ∧ (r = EmptyString ∨ limited pod' r)) l.
Proof.
  intros Hr (pod1 & pod2 & H1 & (Hm2 & Hg2 & _)%master_step & (Hm3 & Hg3 & _)%eni_step)%Default_steps.
  apply network_step in H1 as [[Hun _]|(anno' & v' & l & Hr' & Hl & Hne & _ & Hi)].
  - apply Forall_cons in Hun as [U1 [U2 _]%Forall_cons]. destruct Hr as [[-> E]|(-> & _ & E)]; congruence.
  - assert (anno' = anno ∧ v' = v) as [-> ->] by (destruct Hr as [[-> E]|(-> & E1 & E)], Hr' as [[-> E']|(-> & E1' & E')]; split; congruence).
    exists l. apply injectPodNetwork_spec in Hi as (Hm1 & _ & Hall & _); [|done]. split_and!; [done..| |].
    + rewrite Hm3, Hm2, Hm1. cbn. by rewrite lookup_insert_eq.
    + rewrite Forall_forall in Hall |- *. intros mc Hmc. destruct (Hall mc Hmc) as (_ & r & Er & Hlim). split.
      * pose proof (listed_match _ _ _ Hl Hmc) as Hmatch. unfold Matches, Matches1 in Hmatch. cbn [forallb req_op req_key req_values] in Hmatch.
        destruct (Labels (smc_meta mc) !! anno) as [w|]; [|done]. rewrite andb_true_r in Hmatch. apply bool_decide_eq_true in Hmatch. by apply list_elem_of_singleton in Hmatch as ->.
      * exists r. split; [done|]. destruct Hlim as [|Hlim]; [by left|right]. eapply grows_limited, Hlim. by etrans.
Qed.

(** Scheduling by master NIC follows the injection: when it is on, a Pod with a container that
    was given networks asks for the NIC resource of every master of every one of them, since the
    annotation that was just written reads back as the same configurations. *)
Theorem pod_webhook_masters cfg pod pod' anno v l : MasterNICEnabled cfg = true → InjectENI cfg = true → Containers pod ≠ [] →
  requested nsManager pod anno v → ListMultusConfigs [MkReq anno In [v]] = Ret l → Forall plain_network l →
  (∀ mc, mc ∈ l → GetMultusConfig (Namespace (smc_meta mc)) (Name (smc_meta mc)) = Ret mc) →
  PodWebhook_Default quantity nsManager cfg pod = Ret pod' →
  ∀ mc m, mc ∈ l → m ∈ getSpiderMultusConfigMasters mc → m ≠ EmptyString → podHasResource pod' (master_resource m) = true.
Proof.
  intros Hon Hinj Hc Hr Hl Hp Hget (pod1 & pod2 & H1 & H2 & (_ & Hg3 & _)%eni_step)%Default_steps mc m Hmc Hm Hne.
  apply network_step in H1 as [[Hun _]|(anno' & v' & l' & Hr' & Hl' & Hnel & _ & Hi)].
  { apply Forall_cons in Hun as [U1 [U2 _]%Forall_cons]. destruct Hr as [[-> E]|(-> & _ & E)]; congruence. }
  assert (anno' = anno ∧ v' = v) as [-> ->] by (destruct Hr as [[-> E]|(-> & E1 & E)], Hr' as [[-> E']|(-> & E1' & E')]; split; congruence).
  assert (l' = l) as -> by congruence. apply injectPodNetwork_spec in Hi as (Hm1 & Hg1 & _ & _); [|done].
  unfold podMasterNICResourceMutatingWebhook in H2. rewrite Hon, Hinj in H2. cbn [negb orb] in H2. apply bind_Ret in H2 as (res & Hres & H2%Ret_inj).
  eapply (resolve_injected pod1 (sortMultusConfigs l)) in Hres; [|rewrite Hm1; cbn; by rewrite lookup_insert_eq|by rewrite sortMultusConfigs_perm| |].
  - rewrite inject_masters in H2. subst pod2. eapply grows_has; [exact Hg3|]. rewrite <- resource_of_master. apply inject_all_has.
    + intros E. apply Hc. apply Forall2_length in Hg1. rewrite E in Hg1. by destruct (Containers pod).
    + apply list_elem_of_fmap_2. rewrite merge_sort_Permutation. apply elem_of_range_keys, masters_of_spec. split; [done|]. exists mc. split; [|done].
      apply Hres. by rewrite sortMultusConfigs_perm.
  - intros E. apply Hnel, Permutation_nil. by rewrite <- E, sortMultusConfigs_perm.
  - intros mc'. rewrite sortMultusConfigs_perm. apply Hget.
Qed.
End networks.

(** ** A cluster, for concrete runs *)

Definition mem_reader (nss : gmap string ObjectMeta) (smcs : list SpiderMultusConfig) : WebhookReader := {|
  GetNamespaceByName n := match nss !! n with Some m => Ret m | None => Fail APINotFound end;
  ListMultusConfigs sel := Ret (List.filter (λ mc, Matches sel (Labels (smc_meta mc))) smcs);
  GetMultusConfig ns name :=
    match List.find (λ mc, (Namespace (smc_meta mc) == ns) && (Name (smc_meta mc) == name)) smcs with
    | Some mc => Ret mc
    | None => Fail APINotFound
    end
|}.
Lemma mem_reader_laws nss smcs : NoDup (slash_name ∘ smc_meta <$> smcs) → WebhookReaderLaws (mem_reader nss smcs).
Proof.
  intros Hn. constructor.
  - intros sel l mc [= <-]. rewrite list_elem_of_In, filter_In. by intros [_ ?].
  - intros sel l [= <-]. induction smcs as [|mc smcs IH]; [constructor|]. cbn [fmap list_fmap] in Hn. apply NoDup_cons in Hn as [Hx Hn]. cbn [List.filter].
    destruct (Matches sel _); [|by apply IH]. cbn [fmap list_fmap]. constructor; [|by apply IH]. rewrite list_elem_of_fmap in Hx |- *.
    intros (y & Ey & Hy). apply Hx. exists y. split; [done|]. rewrite list_elem_of_In, filter_In in Hy. rewrite list_elem_of_In. by destruct Hy.
Qed.

Definition ex_smc (name master rdma : string) : SpiderMultusConfig :=
  MkMultus (set_Labels {[AnnoPodResourceInject := "gpu"%string]} (plain_meta "kube-system" name ""))
    (MkMultusSpec (Some MacvlanCNI) (Some (MkMacvlan [master] None None None (Some rdma) (Some (MkPools None ["pool"%string] []))))
       None None None None None None None None None [] None).
Definition ex_smcs : list SpiderMultusConfig := [ex_smc "net1" "eth2" "spidernet.io/b"; ex_smc "net0" "eth1" "spidernet.io/a"].
Definition ex_reader : WebhookReader :=
  mem_reader {["default"%string := set_Annotations {[AnnoPodResourceInject := "gpu"%string]} (plain_meta "" "default" "")]} ex_smcs.
Definition ex_cfg : PodENIResourceInjectConfig := InitPodWebhook_config [MkENIConfig false false true true ""].
Definition ex_pod : PodObject Z := MkPodObject (plain_meta "default" "web-0" "") [MkContainer {["cpu"%string := 2]} ∅; MkContainer {["spidernet.io/a"%string := 4]} ∅].
#[local] Instance no_json : JSON (list (option NetworkSelectionElement)).
Proof. constructor; [exact (λ _, ""%string)|exact (λ _, None)]. Defined.
Definition ex_run (pod : PodObject Z) : outcome (PodObject Z) := PodWebhook_Default (MR := ordered_range) (R := ex_reader) id true ex_cfg pod.

(** The networks of the namespace are injected in the order of their masters; the resource that the
    second container limits is left, the other one goes to the first. *)
Definition ex_admitted : PodObject Z :=
  MkPodObject (set_Annotations {[MultusNetworkAttachmentAnnot := "kube-system/net0,kube-system/net1"%string]} (plain_meta "default" "web-0" ""))
    [MkContainer (<["spidernet.io/eth2-nic"%string := 1]> (<["spidernet.io/eth1-nic"%string := 1]> {["cpu"%string := 2; "spidernet.io/b"%string := 1]}))
       (<["spidernet.io/eth2-nic"%string := 1]> {["spidernet.io/eth1-nic"%string := 1]});
     MkContainer {["spidernet.io/a"%string := 4]} ∅].
Example ex_run_admitted : ex_run ex_pod = Ret ex_admitted.
Proof. vm_compute. reflexivity. Qed.

Lemma pod_webhook_keeps_witness : ex_run ex_pod = Ret ex_admitted ∧ grows (Containers ex_pod) (Containers ex_admitted).
Proof. split; [vm_compute; reflexivity|]. eapply (pod_webhook_keeps (MR := ordered_range) (R := ex_reader) id true ex_cfg ex_pod). vm_compute. reflexivity. Defined.

Lemma pod_webhook_idempotent_witness : ex_run ex_pod = Ret ex_admitted ∧ ex_run ex_admitted = Ret ex_admitted.
Proof. split; [vm_compute; reflexivity|]. apply (pod_webhook_idempotent (MR := ordered_range) (R := ex_reader) id true ex_cfg ex_pod). vm_compute. reflexivity. Defined.

Lemma pod_webhook_networks_witness : ex_run ex_pod = Ret ex_admitted ∧
  ∃ l, ListMultusConfigs (WebhookReader := ex_reader) [MkReq AnnoPodResourceInject In ["gpu"%string]] = Ret l ∧ length l = 2%nat ∧
    Annotations (po_meta ex_admitted) !! MultusNetworkAttachmentAnnot = Some (networks_value (sortMultusConfigs l)).
Proof.
  split; [vm_compute; reflexivity|]. assert (WebhookReaderLaws ex_reader) as L. { apply mem_reader_laws. apply (bool_decide_unpack _). vm_compute. exact I. }
  destruct (pod_webhook_networks (MR := ordered_range) (R := ex_reader) id true ex_cfg ex_pod ex_admitted AnnoPodResourceInject "gpu") as (l & Hl & _ & Ha & _).
  - left. split; [done|]. vm_compute. reflexivity.
  - vm_compute. reflexivity.
  - exists l. split_and!; [exact Hl| |exact Ha]. vm_compute in Hl. injection Hl as <-. reflexivity.
Defined.

Lemma pod_webhook_masters_witness : ex_run ex_pod = Ret ex_admitted ∧ podHasResource ex_admitted (master_resource "eth2") = true.
Proof.
  split; [vm_compute; reflexivity|].
  apply (pod_webhook_masters (MR := ordered_range) (R := ex_reader) id true ex_cfg ex_pod ex_admitted AnnoPodResourceInject "gpu" ex_smcs) with (mc := ex_smc "net1" "eth2" "spidernet.io/b").
  - reflexivity.
  - reflexivity.
  - done.
  - left. split; [done|]. vm_compute. reflexivity.
  - vm_compute. reflexivity.
  - repeat constructor; vm_compute; reflexivity.
  - intros mc Hmc. unfold ex_smcs in Hmc. repeat (apply elem_of_cons in Hmc as [->|Hmc]; [vm_compute; reflexivity|]). by apply elem_of_nil in Hmc.
  - vm_compute. reflexivity.
  - by left.
  - by left.
  - done.
Defined.
