(* ===== verification/CoordinatorConf.v ===== *)
(** * The configuration of the coordinator plugin

    cmd/coordinator/cmd/cni_types.go, with the handler of the agent that serves the configuration
    (cmd/spiderpool-agent/cmd/coordinator.go) and the validation of the message between the two
    (api/v1/agent/models/coordinator_config.go): the plugin completes the configuration of its CNI
    chain with the one that the agent reads from the SpiderCoordinator. *)

From S2P Require Import Prelude NetIP NetIPFacts IPAddr K8s Workload Selector NetPrefix Coordinator CoordinatorSync.
Local Open Scope Z_scope.
Local Open Scope go_scope.

(** ** The message of the agent *)

(** A required slice that is nil is not there. *)
Record APIConfig := MkAPIConfig {
  api_HijackCIDR : list string;
  api_HostRuleTable : Z;
  api_Mode : option string;
  api_OverlayPodCIDR : option (list string);
  api_PodDefaultRouteNIC : string;
  api_PodMACPrefix : string;
  api_PodRPFilter : Z;
  api_PolicyRoutes : list (option Route);
  api_ServiceCIDR : option (list string);
  api_TunePodRoutes : option bool;
  api_TxQueueLen : Z;
  api_VethLinkAddress : string;
  api_VethMTU : Z
}.

Definition required {A} (o : option A) : bool := match o with Some _ => true | None => false end.

(** [CoordinatorConfig.Validate]; a route has nothing to validate. *)
Definition Validate (c : APIConfig) : outcome unit :=
  check (required (api_Mode c) && required (api_OverlayPodCIDR c) && required (api_ServiceCIDR c) && required (api_TunePodRoutes c))
    (ErrOther "validation failure").

Definition AnnoDefaultRouteInterface : string := "ipam.spidernet.io/default-route-nic".

Definition agent_convertCoordinatorPolicyRoutes (routes : list Route) : list (option Route) := Some <$> routes.

(** The handler: the list of coordinators and the Pod are reads of the agent's caches. *)
Definition Handle (coordList : outcome (list SpiderCoordinator)) (get_pod : outcome Pod) : outcome APIConfig :=
  items ← coordList;
  match items with
  | [] => Fail (ErrOther "coordinator config not found")
  | coord :: _ =>
      let spec := coord_spec coord in
      let status := coord_status coord in
      _ ← check (Phase status == Synced) (ErrOther "spidercoordinator no ready");
      pod ← get_pod;
      let nic := default (default ""%string (cs_PodDefaultRouteNIC spec)) (Annotations (pod_meta pod) !! AnnoDefaultRouteInterface) in
      hostRuleTable ← deref (cs_HostRuleTable spec);
      podRPFilter ← deref (cs_PodRPFilter spec);
      txQueueLen ← deref (cs_TxQueueLen spec);
      let overlay := or_default [] (OverlayPodCIDR status) in
      (* the pod CIDRs are cleared where the service CIDRs were meant *)
      let overlay := if ServiceCIDR status == None then Some [] else overlay in
      Ret (MkAPIConfig (cs_HijackCIDR spec) hostRuleTable (cs_Mode spec) overlay nic (default ""%string (cs_PodMACPrefix spec)) podRPFilter
        (agent_convertCoordinatorPolicyRoutes (cs_PolicyRoutes spec)) (ServiceCIDR status) (cs_TunePodRoutes spec) txQueueLen
        (default ""%string (cs_VethLinkAddress spec)) (default 0 (cs_VethMTU spec)))
  end.

(** ** The configuration of the plugin *)

Definition defaultLogPath : string := "/var/log/spidernet/coordinator.log".
Definition defaultUnderlayVethName : string := "veth0".
Definition defaultUnderlayVethMTU : Z := 1500.
Definition defaultOverlayVethName : string := "eth0".
Definition defaultPodRuleTable : Z := 100.
Definition defaultHostRulePriority : Z := 1000.

Definition ModeUnderlay : string := "underlay".
Definition ModeOverlay : string := "overlay".
Definition ModeDisable : string := "disable".

Record LogOptions := MkLogOptions {
  LogLevel : string; LogFilePath : string; LogFileMaxSize : Z; LogFileMaxAge : Z; LogFileMaxCount : Z }.

Record Config := MkConfig {
  VethLinkAddress : string;
  VethMTU : option Z;
  MacPrefix : string;
  MultusNicPrefix : string;
  PodDefaultCniNic : string;
  conf_OverlayPodCIDR : list string;
  conf_ServiceCIDR : list string;
  conf_HijackCIDR : list string;
  PolicyRoutes : list Route;
  TunePodRoutes : option bool;
  PodDefaultRouteNIC : string;
  Mode : string;
  HostRuleTable : option Z;
  HostRPFilter : option Z;
  PodRPFilter : option Z;
  TxQueueLen : option Z;
  conf_LogOptions : option LogOptions
}.

(** [strings.EqualFold] of ASCII texts with a lower-case one. *)
Definition lower (c : ascii) : ascii := if is_upper c then ascii_of_nat (nat_of_ascii c + 32) else c.
Fixpoint ToLower (s : string) : string := match s with EmptyString => EmptyString | String c s => String (lower c) (ToLower s) end.
Definition ConvertLogLevel (level : string) : bool :=
  bool_decide (ToLower level ∈ ["debug"; "info"; "warn"; "error"; "fatal"; "panic"]%string).

(** The expression ^([a-fA-F0-9][a-fA-F,0,2-9][:-][a-fA-F0-9]{2})$; a comma within a class is a
    member of it. *)
Definition validateHwPrefix (prefix : string) : outcome unit :=
  match prefix with
  | EmptyString => Ret ()
  | String a (String b (String c (String d (String e EmptyString)))) =>
      check (is_hex a && (is_hex b && (b != "1"%char) || (b == ","%char)) && ((c == ":"%char) || (c == "-"%char)) && is_hex d && is_hex e)
        (ErrOther "mac_prefix format")
  | _ => Fail (ErrOther "mac_prefix format")
  end.

Definition or_list {A} (l d : list A) : list A := match l with [] => d | _ => l end.

Definition convertCoordinatorPolicyRoutes (routes : list (option Route)) : list Route := omap id routes.

Definition validateCoordinatorPolicyRoute (r : Route) : outcome Route :=
  match ParseIPOrCIDR (TrimSpace (Dst r)) with
  | None => Fail (ErrOther "invalid route dst")
  | Some dst =>
      let gw := net_ParseIP (TrimSpace (Gw r)) in
      _ ← check (negb (is_nil gw)) (ErrOther "invalid route gw");
      _ ← check (Is4 (pfx_addr dst) == negb (is_nil (To4 gw))) (ErrOther "route dst and gw must use the same IP family");
      Ret (MkRoute (prefix_string dst) (TrimSpace (Gw r)))
  end.
Definition validateCoordinatorPolicyRoutes (routes : list Route) : outcome (list Route) := map_indexed (λ _, validateCoordinatorPolicyRoute) 0 routes.

(** A trimmed copy is checked, the routes stay as they are. *)
Definition validateRoutes (routes : list string) : outcome unit :=
  for_each (λ route, check (bool_decide (is_Some (net_ParseCIDR route))) (ErrOther "invalid CIDR address")) (TrimSpace <$> routes).

(** The low 32 bits of a number as an [int32]. *)
Definition int32 (z : Z) : Z := (z + 2 ^ 31) mod 2 ^ 32 - 2 ^ 31.

Definition validateRPFilterConfig (rpfilter : option Z) (coordinatorConfig : Z) : outcome (option Z) :=
  let v := default (int32 coordinatorConfig) rpfilter in
  _ ← check (if 0 <=? v then bool_decide (v ∈ [0; 1; 2]) else true) (ErrOther "invalid rp_filter value");
  Ret (Some v).

(** [ValidateRoutes]: the lists of the message where the plugin has none, and their validation. *)
Definition ValidateRoutes (conf : Config) (api : APIConfig) : outcome (list string * list string * list string * list Route) :=
  let serviceCIDR := or_list (conf_ServiceCIDR conf) (default [] (api_ServiceCIDR api)) in
  let overlayPodCIDR := or_list (conf_OverlayPodCIDR conf) (default [] (api_OverlayPodCIDR api)) in
  let hijackCIDR := or_list (conf_HijackCIDR conf) (api_HijackCIDR api) in
  let policyRoutes := or_list (PolicyRoutes conf) (convertCoordinatorPolicyRoutes (api_PolicyRoutes api)) in
  _ ← validateRoutes serviceCIDR;
  _ ← validateRoutes overlayPodCIDR;
  _ ← validateRoutes hijackCIDR;
  policyRoutes ← validateCoordinatorPolicyRoutes policyRoutes;
  Ret (serviceCIDR, overlayPodCIDR, hijackCIDR, policyRoutes).

Definition or_text (s d : string) : string := if s == EmptyString then d else s.

(** [decoded] is the JSON of the plugin, [prev_ok] whether its previous result is parsed. *)
Definition ParseConfig (decoded : option Config) (prev_ok : bool) (api : APIConfig) : outcome Config :=
  match decoded with
  | None => Fail (ErrOther "failed to parse config")
  | Some conf =>
      _ ← check prev_ok (ErrOther "failed to parse prevResult");
      _ ← Validate api;
      let log := default (MkLogOptions "debug" "" 0 0 0) (conf_LogOptions conf) in
      _ ← check (ConvertLogLevel (LogLevel log)) (ErrOther "unsupported log level");
      let log := MkLogOptions (LogLevel log) (or_text (LogFilePath log) defaultLogPath) (LogFileMaxSize log) (LogFileMaxAge log) (LogFileMaxCount log) in
      let macPrefix := or_text (MacPrefix conf) (api_PodMACPrefix api) in
      _ ← validateHwPrefix macPrefix;
      '(serviceCIDR, overlayPodCIDR, hijackCIDR, policyRoutes) ← ValidateRoutes conf api;
      podRPFilter ← validateRPFilterConfig (PodRPFilter conf) (api_PodRPFilter api);
      mode ← (if Mode conf == EmptyString then deref (api_Mode api) else Ret (Mode conf));
      _ ← match VethMTU conf with Some mtu => check (negb (mtu <=? 0)) (ErrOther "vethMTU must be greater than 0") | None => Ret () end;
      Ret (MkConfig
        (or_text (VethLinkAddress conf) (api_VethLinkAddress api))
        (Some (default (if 0 <? api_VethMTU api then api_VethMTU api else defaultUnderlayVethMTU) (VethMTU conf)))
        macPrefix (MultusNicPrefix conf) (or_text (PodDefaultCniNic conf) defaultOverlayVethName)
        overlayPodCIDR serviceCIDR hijackCIDR policyRoutes
        (match TunePodRoutes conf with Some b => Some b | None => api_TunePodRoutes api end)
        (or_text (PodDefaultRouteNIC conf) (api_PodDefaultRouteNIC api)) mode
        (Some (default (if 0 <? api_HostRuleTable api then api_HostRuleTable api else 500) (HostRuleTable conf)))
        (HostRPFilter conf) podRPFilter (Some (default (api_TxQueueLen api) (TxQueueLen conf))) (Some log))
  end.

(** ** What a parsed configuration has *)

Lemma addr_string_no_slash a : wf_ip (addr_bytes a) → contains_char "/" (addr_string a) = false.
Proof.
  intros [Hwf Hl]. unfold addr_string, Is4. destruct (Nat.eqb_spec (length (addr_bytes a)) 4) as [H4|H4].
  - apply (string_forall_contains (hex_or ".")); [by apply string4_chars|done].
  - destruct Hl as [?|H16]; [done|]. case_bool_decide.
    + rewrite contains_char_app. cbn. apply (string_forall_contains (hex_or ".")); [by apply string4_chars, Forall_drop|done].
    + apply (string_forall_contains (hex_or ":")); [by apply string6_chars|done].
Qed.

Lemma dtoi_itoa n : 0 ≤ n ≤ 128 → dtoi (itoa n) = Some (n, EmptyString).
Proof.
  intros Hn. assert (∃ k, (k ≤ 128)%nat ∧ n = Z.of_nat k) as (k & Hk & ->) by (exists (Z.to_nat n); lia).
  assert (Forall (λ k, dtoi (itoa (Z.of_nat k)) = Some (Z.of_nat k, EmptyString)) (seq 0 129)) as Hall.
  { apply (bool_decide_unpack _). vm_compute. exact I. }
  rewrite Forall_forall in Hall. apply Hall, elem_of_seq. lia.
Qed.

(** [net.ParseCIDR] reads the prefixes that [netip] prints. *)
Lemma net_ParseCIDR_prefix p : wf_prefix_of p → is_Some (net_ParseCIDR (prefix_string p)).
Proof.
  intros (Hwf & Hz & Hb). unfold prefix_string, net_ParseCIDR. change ("/" +:+ ?s) with (String "/" s).
  rewrite cut_app by (by apply addr_string_no_slash). cbn [mbind option_bind]. rewrite ParseAddr_string by done. cbn [mbind option_bind].
  rewrite Hz, bool_decide_true by done. cbn [negb]. assert (BitLen (pfx_addr p) = 8 * Z.of_nat (length (addr_bytes (pfx_addr p)))) as HB.
  { unfold BitLen, Is6. destruct Hwf as [_ [-> | ->]]; done. }
  assert (BitLen (pfx_addr p) ≤ 128) by (unfold BitLen; case_match; lia).
  rewrite dtoi_itoa by lia. cbn [mbind option_bind]. rewrite bool_decide_true by done. cbn [negb orb]. rewrite <- HB.
  rewrite (proj2 (Z.ltb_ge _ _)) by lia. eauto.
Qed.

Record conf_ready (c : Config) : Prop := {
  ready_mtu : ∃ n, VethMTU c = Some n ∧ 0 < n;
  ready_filter : ∃ v, PodRPFilter c = Some v ∧ v ≤ 2;
  ready_numbers : is_Some (HostRuleTable c) ∧ is_Some (TxQueueLen c);
  ready_tune : is_Some (TunePodRoutes c);
  ready_nic : PodDefaultCniNic c ≠ EmptyString;
  ready_log : ∃ o, conf_LogOptions c = Some o ∧ ConvertLogLevel (LogLevel o) = true ∧ LogFilePath o ≠ EmptyString;
  ready_cidrs : Forall (λ cidr, is_Some (net_ParseCIDR (TrimSpace cidr))) (conf_OverlayPodCIDR c ++ conf_ServiceCIDR c ++ conf_HijackCIDR c);
  ready_routes : Forall (λ r, is_Some (net_ParseCIDR (Dst r)) ∧ net_ParseIP (Gw r) ≠ nilIP) (PolicyRoutes c)
}.

Lemma validateRoutes_Ret l : validateRoutes l = Ret () ↔ Forall (λ cidr, is_Some (net_ParseCIDR (TrimSpace cidr))) l.
Proof.
  unfold validateRoutes. rewrite for_each_Ret, Forall_fmap. apply Forall_iff. intros x. cbn. by rewrite check_Ret, bool_decide_eq_true.
Qed.

Lemma policy_routes_ready l l' : validateCoordinatorPolicyRoutes l = Ret l' →
  Forall (λ r, is_Some (net_ParseCIDR (Dst r)) ∧ net_ParseIP (Gw r) ≠ nilIP) l'.
Proof.
  intros H%map_indexed_Ret. eapply Forall2_Forall_r; [exact H|]. apply Forall_true. intros x y [_ Hx]. unfold validateCoordinatorPolicyRoute in Hx.
  destruct (ParseIPOrCIDR (TrimSpace (Dst x))) as [p|] eqn:E; [|done]. inv_ret. cbn. split; [by eapply net_ParseCIDR_prefix, ParseIPOrCIDR_wf|].
  match goal with H : negb (is_nil _) = true |- _ => apply negb_true_iff, bool_decide_eq_false in H end. done.
Qed.

Lemma or_text_nonempty s d : d ≠ EmptyString → or_text s d ≠ EmptyString.
Proof. unfold or_text. by case_bool_decide. Qed.

(** A configuration that the plugin parsed can be used without further checks: every optional
    number has a value within its bounds, the log level is known, every CIDR (once trimmed) parses,
    and every policy route has a destination that [net.ParseCIDR] reads and a gateway. *)
Theorem plugin_config_ready decoded prev_ok api c : ParseConfig decoded prev_ok api = Ret c → conf_ready c.
Proof.
  unfold ParseConfig. destruct decoded as [conf|]; [|done]. intros H. inv_ret. 
  match goal with H : ValidateRoutes _ _ = Ret ?x |- _ => destruct x as [[[service overlay] hijack] routes] end. inv_ret.
  unfold ValidateRoutes in *. inv_ret. unfold validateRPFilterConfig in *. inv_ret. unfold Validate in *. inv_ret.
  repeat match goal with H : validateRoutes _ = Ret _ |- _ => apply validateRoutes_Ret in H end.
  split; cbn [VethMTU PodRPFilter HostRuleTable TxQueueLen TunePodRoutes PodDefaultCniNic conf_LogOptions conf_OverlayPodCIDR conf_ServiceCIDR conf_HijackCIDR PolicyRoutes].
  - eexists. split; [done|]. destruct (VethMTU conf) as [n|]; cbn; [inv_ret; match goal with H : negb (n <=? 0) = true |- _ => apply negb_true_iff, Z.leb_gt in H end; done|].
    destruct (Z.ltb_spec 0 (api_VethMTU api)); [done|]. unfold defaultUnderlayVethMTU. lia.
  - eexists. split; [done|]. match goal with H : (if _ then _ else _) = true |- _ => revert H end. destruct (Z.leb_spec 0 (default (int32 (api_PodRPFilter api)) (PodRPFilter conf))); [|lia].
    rewrite bool_decide_eq_true. set_solver by lia.
  - split; eauto.
  - destruct (TunePodRoutes conf); [eauto|]. destruct (api_TunePodRoutes api); [eauto|]. match goal with H : _ && required None = true |- _ => by rewrite andb_false_r in H end.
  - by apply or_text_nonempty.
  - eexists. split; [done|]. cbn. split; [done|]. by apply or_text_nonempty.
  - by rewrite !Forall_app.
  - by eapply policy_routes_ready.
Qed.

(** ** From the coordinator to the plugin *)

Lemma join_split_go sep cur s : join (String sep EmptyString) (split_go sep cur s) = String.rev cur +:+ s.
Proof.
  revert cur. induction s as [|c s IH]; intros cur; cbn [split_go]; [by rewrite string_app_nil_r|]. case_bool_decide as E.
  - subst c. pose proof (IH EmptyString) as H. destruct (split_go sep EmptyString s) as [|x l] eqn:El; [by destruct (split_nonempty sep s)|].
    cbn [join] in *. rewrite H. done.
  - rewrite IH, string_rev_cons, string_app_assoc. done.
Qed.
Lemma join_split sep s : join (String sep EmptyString) (split sep s) = s.
Proof. apply join_split_go. Qed.

(** A text of two hexadecimal digits. *)
Lemma ParseInt16_two s n : String.length s = 2%nat → contains_char "+" s = false → contains_char "-" s = false → ParseInt16 s = Some n →
  ∃ a b va vb, s = String a (String b EmptyString) ∧ hex_val a = Some va ∧ hex_val b = Some vb ∧ n = va * 16 + vb.
Proof.
  intros Hl Hp Hm. destruct s as [|a [|b [|]]]; try done. cbn [contains_char] in *.
  apply orb_false_iff in Hp as [Hp _], Hm as [Hm _]. unfold ParseInt16. rewrite Hm, Hp. rewrite bool_decide_false by done.
  intros (z & Hz & H)%bind_Some. case_bool_decide; [|done]. injection H as <-. cbn [hex_digits] in Hz.
  apply bind_Some in Hz as (va & Ha & Hz). apply bind_Some in Hz as (vb & Hb & [= <-]). exists a, b, va, vb. by rewrite Z.mul_0_l, Z.add_0_l.
Qed.

Lemma is_hex_val c v : hex_val c = Some v → is_hex c = true.
Proof. intros H. unfold is_hex. rewrite H. by apply bool_decide_true. Qed.

(** A MAC prefix that the webhook admits is one that the plugin takes, unless it has a sign. *)
Lemma mac_prefix_taken p : p = EmptyString ∨ mac_prefix_ok p → contains_char "+" p = false → contains_char "-" p = false → validateHwPrefix p = Ret ().
Proof.
  intros [->|(p0 & p1 & fb & sb & Hs & L0 & L1 & F0 & F1 & He)] Hp Hm; [done|].
  assert (p = p0 +:+ ":" +:+ p1) as -> by (by rewrite <- (join_split ":" p), Hs). rewrite !contains_char_app in Hp, Hm.
  apply orb_false_iff in Hp as [P0 [_ P1]%orb_false_iff], Hm as [M0 [_ M1]%orb_false_iff].
  apply ParseInt16_two in F0 as (a & b & va & vb & -> & Ha & Hb & ->); [|done..]. apply ParseInt16_two in F1 as (c & d & vc & vd & -> & Hc & Hd & _); [|done..].
  cbn [String.append validateHwPrefix]. change (String a (String b EmptyString) +:+ ":" +:+ String c (String d EmptyString)) with (String a (String b (String ":" (String c (String d EmptyString))))).
  cbn [validateHwPrefix]. apply check_Ret. rewrite (is_hex_val a va), (is_hex_val b vb), (is_hex_val c vc), (is_hex_val d vd) by done.
  rewrite bool_decide_false; [done|]. intros ->. vm_compute in Hb. injection Hb as <-. rewrite Z.even_add, Z.even_mul in He. cbn in He. by rewrite orb_true_r in He.
Qed.

Lemma prefix_string_trimmed p : wf_prefix_of p → TrimSpace (prefix_string p) = prefix_string p.
Proof.
  intros (Hwf & Hz & Hb). apply TrimSpace_same. unfold prefix_string. rewrite !string_forall_app.
  assert (string_forall (negb ∘ is_space) (itoa (pfx_bits p)) = true) as ->.
  { assert (BitLen (pfx_addr p) ≤ 128) by (unfold BitLen; case_match; lia).
    assert (∃ k, (k ≤ 128)%nat ∧ pfx_bits p = Z.of_nat k) as (k & Hk & ->) by (exists (Z.to_nat (pfx_bits p)); lia).
    assert (Forall (λ k, string_forall (negb ∘ is_space) (itoa (Z.of_nat k)) = true) (seq 0 129)) as Hall by (apply (bool_decide_unpack _); vm_compute; exact I).
    rewrite Forall_forall in Hall. apply Hall, elem_of_seq. lia. }
  assert (string_forall (negb ∘ is_space) (addr_string (pfx_addr p)) = true) as ->; [|done].
  assert (∀ d, (d = "." ∨ d = ":")%char → ∀ c, hex_or d c = true → (negb ∘ is_space) c = true) as Hc.
  { intros d Hd c Hx. assert (Forall (λ n, hex_or d (ascii_of_nat n) = true → (negb ∘ is_space) (ascii_of_nat n) = true) (seq 0 256)) as Hall.
    { destruct Hd as [-> | ->]; apply (bool_decide_unpack _); vm_compute; exact I. }
    rewrite Forall_forall in Hall. rewrite <- (ascii_nat_embedding c) in *. apply Hall; [|done]. apply elem_of_seq. pose proof (nat_ascii_bounded c). lia. }
  destruct Hwf as [Hwf Hl]. unfold addr_string, Is4. destruct (Nat.eqb_spec (length (addr_bytes (pfx_addr p))) 4) as [H4|H4].
  - eapply string_forall_weaken; [apply (Hc "."%char); by left|]. by apply string4_chars.
  - destruct Hl as [?|H16]; [done|]. case_bool_decide.
    + rewrite string_forall_app. apply andb_true_iff. split; [done|]. eapply string_forall_weaken; [apply (Hc "."%char); by left|]. by apply string4_chars, Forall_drop.
    + eapply string_forall_weaken; [apply (Hc ":"%char); by right|]. by apply string6_chars.
Qed.

(** A gateway that [net.ParseIP] reads as it was written: no zone, and no IPv4 address in IPv6
    form. *)
Definition plain_gateway (g : string) : Prop :=
  TrimSpace g = g ∧ ∃ a, ParseAddr g = Some a ∧ addr_zone a = EmptyString ∧ take 12 (addr_bytes a) ≠ v4InV6Prefix.

Lemma plain_gateway_family g a : TrimSpace g = g → ParseAddr g = Some a → addr_zone a = EmptyString → take 12 (addr_bytes a) ≠ v4InV6Prefix →
  net_ParseIP g ≠ nilIP ∧ negb (is_nil (To4 (net_ParseIP g))) = Is4 a.
Proof.
  intros _ Ha Hz Hm. destruct (ParseAddr_wf _ _ Ha) as [Hwf Hl]. unfold net_ParseIP. rewrite Ha, bool_decide_true by done. unfold Is4, To16, To4, is_nil.
  destruct Hl as [Hl|Hl]; rewrite Hl; cbn [Nat.eqb].
  - split; [by destruct (addr_bytes a)|]. rewrite length_app, Hl. cbn. rewrite (bool_decide_true (_ = v4InV6Prefix)) by done. cbn [andb].
    rewrite bool_decide_false; [done|]. change (drop 12 (v4InV6Prefix ++ addr_bytes a) ≠ nilIP). rewrite (drop_app_length' v4InV6Prefix) by done. by destruct (addr_bytes a).
  - split; [by destruct (addr_bytes a)|]. rewrite Hl. cbn [Nat.eqb andb]. rewrite (bool_decide_false (_ = v4InV6Prefix)) by done. by rewrite bool_decide_true.
Qed.

(** The routes of an admitted coordinator pass the plugin unchanged. *)
Lemma admitted_routes_pass routes :
  Forall (λ r, ∃ p gw, ParsePrefix (Dst r) = Some p ∧ Dst r = prefix_string p ∧ ParseAddr (Gw r) = Some gw ∧ Is4 (pfx_addr p) = Is4 gw) routes →
  Forall (λ r, plain_gateway (Gw r)) routes → validateCoordinatorPolicyRoutes routes = Ret routes.
Proof.
  intros Hr Hg. unfold validateCoordinatorPolicyRoutes. generalize 0 as i. induction routes as [|r routes IH]; intros i; [done|].
  apply Forall_cons in Hr as [(p & gw & Hp & Hd & Ha & H4) Hr], Hg as [(Ht & a & Ha' & Hz & Hm) Hg]. cbn [map_indexed].
  assert (a = gw) as -> by congruence. destruct (plain_gateway_family _ _ Ht Ha Hz Hm) as [Hn Hf].
  pose proof (ParsePrefix_wf _ _ Hp) as Hwf. assert (validateCoordinatorPolicyRoute r = Ret r) as ->.
  { unfold validateCoordinatorPolicyRoute. rewrite Hd, prefix_string_trimmed, Ht by done.
    assert (ParseIPOrCIDR (prefix_string p) = Some p) as -> by (unfold ParseIPOrCIDR; rewrite prefix_string_slash; by apply ParsePrefix_string).
    assert (is_nil (net_ParseIP (Gw r)) = false) as -> by (by apply bool_decide_false). cbn [negb check mbind outcome_bind]. rewrite Hf, H4, bool_decide_true by done.
    cbn [check mbind outcome_bind]. rewrite <- Hd. by destruct r. }
  cbn [mbind outcome_bind]. by rewrite IH.
Qed.

(** The routes travel as they are. *)
Lemma policy_routes_converted l : convertCoordinatorPolicyRoutes (agent_convertCoordinatorPolicyRoutes l) = l.
Proof. unfold convertCoordinatorPolicyRoutes, agent_convertCoordinatorPolicyRoutes. induction l as [|r l IH]; [done|]. cbn. f_equal. exact IH. Qed.

(** The configuration of a chain that leaves everything to the coordinator. *)
Definition plain_conf : Config := MkConfig "" None "" "" "" [] [] [] [] None "" "" None None None None None.

(** C30: what the webhook admits works at the plugin, on the conditions that neither the webhook nor
    the controller ensures: for an admitted coordinator ([spec_ready]) whose status is synced with Pod
    and service CIDRs that are not nil ([nil_service_cidr]), whose CIDRs all parse, whose MAC prefix has
    no sign, whose gateways are plain (no space around, no zone, not IPv4-mapped, see
    [mapped_gateway_refused]) and whose reverse path filter fits its width, the agent serves a configuration, and a plugin whose own configuration is
    empty parses it, with the mode, the CIDRs and the policy routes of the coordinator. *)
Theorem coordinator_reaches_plugin coord rest pod reason overlay service :
  spec_ready (coord_spec coord) → coord_status coord = MkCoordinatorStatus Synced reason (Some overlay) (Some service) →
  Forall (λ cidr, is_Some (net_ParseCIDR (TrimSpace cidr))) (overlay ++ service ++ cs_HijackCIDR (coord_spec coord)) →
  (∀ p, cs_PodMACPrefix (coord_spec coord) = Some p → contains_char "+" p = false ∧ contains_char "-" p = false) →
  Forall (λ r, plain_gateway (Gw r)) (cs_PolicyRoutes (coord_spec coord)) →
  (∀ f, cs_PodRPFilter (coord_spec coord) = Some f → - 2 ^ 31 ≤ f) →
  ∃ api c, Handle (Ret (coord :: rest)) (Ret pod) = Ret api ∧ ParseConfig (Some plain_conf) true api = Ret c ∧
    Some (Mode c) = cs_Mode (coord_spec coord) ∧ conf_OverlayPodCIDR c = overlay ∧ conf_ServiceCIDR c = service ∧
    conf_HijackCIDR c = cs_HijackCIDR (coord_spec coord) ∧ PolicyRoutes c = cs_PolicyRoutes (coord_spec coord).
Proof.
  intros Hs Hst Hc Hmac Hgw Hf. destruct (ready_set _ Hs) as ([mode Em] & [tune Et] & [table Eh]).
  destruct (Coordinator.ready_filter _ Hs) as (f & Ef & Hf2), (ready_txqueue _ Hs) as (n & En & _). specialize (Hf f Ef).
  do 2 eexists. split.
  - unfold Handle. cbn [mbind outcome_bind]. rewrite Hst, Eh, Ef, En. reflexivity.
  - cbn [ServiceCIDR OverlayPodCIDR]. rewrite (bool_decide_false (Some service = None)) by done. unfold ParseConfig, plain_conf, Validate.
    cbn [api_Mode api_OverlayPodCIDR api_ServiceCIDR api_TunePodRoutes or_default default]. rewrite Em, Et. cbn [required andb check mbind outcome_bind].
    cbn [conf_LogOptions default LogLevel MacPrefix]. change (ConvertLogLevel "debug") with true. cbn [check mbind outcome_bind].
    rewrite mac_prefix_taken; [|destruct (cs_PodMACPrefix (coord_spec coord)) as [p|] eqn:Ep; [by apply (ready_mac _ Hs)|by left]|
      destruct (cs_PodMACPrefix (coord_spec coord)) as [p|] eqn:Ep; [by apply (Hmac p)|done]..].
    cbn [mbind outcome_bind]. unfold ValidateRoutes. cbn [conf_ServiceCIDR conf_OverlayPodCIDR conf_HijackCIDR PolicyRoutes or_list api_HijackCIDR api_PolicyRoutes api_ServiceCIDR api_OverlayPodCIDR default].
    rewrite !Forall_app in Hc. destruct Hc as (H1 & H2 & H3). rewrite !(proj2 (validateRoutes_Ret _)) by done. cbn [mbind outcome_bind].
    rewrite policy_routes_converted.
    rewrite (admitted_routes_pass _ (Coordinator.ready_routes _ Hs) Hgw). cbn [mbind outcome_bind]. unfold validateRPFilterConfig.
    cbn [PodRPFilter default api_PodRPFilter]. assert (int32 f = f) as ->. { unfold int32. rewrite Z.mod_small by lia. lia. }
    assert ((if 0 <=? f then bool_decide (f ∈ [0; 1; 2]) else true) = true) as ->.
    { destruct (Z.leb_spec 0 f); [|done]. apply bool_decide_true. set_solver by lia. }
    split; [reflexivity|]. cbn. split_and!; by rewrite ?Em.
Qed.

Definition ex_ready_spec : CoordinatorSpec :=
  MkCoordinatorSpec (Some ModeAuto) (Some cluster) ["169.254.20.10/32"]%string [MkRoute "fd00::/64" "fd00:1::ff"]
    (Some "0a:1b"%string) (Some true) None (Some 500) (Some 0) (Some 0) (Some ""%string) (Some 1500).
Definition ex_synced : SpiderCoordinator :=
  MkCoordinator (plain_meta "" "default" "uid-c") ex_ready_spec
    (MkCoordinatorStatus Synced "" (Some ["10.244.0.0/16"%string]) (Some ["10.96.0.0/12"%string])).
Definition ex_conf_pod : Pod := MkPod (plain_meta "default" "web-0" "uid-p") "node" RestartAlways PodRunning "".
Definition ex_api : APIConfig :=
  MkAPIConfig ["169.254.20.10/32"%string] 500 (Some ModeAuto) (Some ["10.244.0.0/16"%string]) "" "0a:1b" 0 [Some (MkRoute "fd00::/64" "fd00:1::ff")]
    (Some ["10.96.0.0/12"%string]) (Some true) 0 "" 1500.
Definition ex_parsed : Config :=
  MkConfig "" (Some 1500) "0a:1b" "" "eth0" ["10.244.0.0/16"]%string ["10.96.0.0/12"]%string ["169.254.20.10/32"]%string
    [MkRoute "fd00::/64" "fd00:1::ff"] (Some true) "" ModeAuto (Some 500) None (Some 0) (Some 0) (Some (MkLogOptions "debug" defaultLogPath 0 0 0)).

Lemma plugin_config_ready_witness : ParseConfig (Some plain_conf) true ex_api = Ret ex_parsed ∧ conf_ready ex_parsed.
Proof. split; [vm_compute; reflexivity|]. apply (plugin_config_ready (Some plain_conf) true ex_api). vm_compute. reflexivity. Defined.

Lemma ex_spec_ready : spec_ready ex_ready_spec.
Proof.
  split.
  - cbn. split_and!; by eexists.
  - exists cluster. split; [done|]. apply (bool_decide_unpack _). vm_compute. exact I.
  - constructor; [|constructor]. by eexists.
  - constructor; [|constructor]. do 2 eexists. split_and!; [reflexivity|vm_compute; reflexivity..].
  - intros p [= <-]. right. exists "0a"%string, "1b"%string, 10, 27. split_and!; vm_compute; reflexivity.
  - exists 0. split; [done|lia].
  - exists 0. split; [done|lia].
  - exists ""%string. split; [done|by left].
  - exists 1500. split; [done|lia].
Qed.

Lemma coordinator_reaches_plugin_witness : coord_status ex_synced = MkCoordinatorStatus Synced "" (Some ["10.244.0.0/16"%string]) (Some ["10.96.0.0/12"%string]) ∧
  ∃ api c, Handle (Ret [ex_synced]) (Ret ex_conf_pod) = Ret api ∧ ParseConfig (Some plain_conf) true api = Ret c ∧ Mode c = ModeAuto.
Proof.
  split; [reflexivity|].
  destruct (coordinator_reaches_plugin ex_synced [] ex_conf_pod "" ["10.244.0.0/16"%string] ["10.96.0.0/12"%string]) as (api & c & H1 & H2 & H3 & _).
  - exact ex_spec_ready.
  - reflexivity.
  - repeat constructor; by eexists.
  - intros p [= <-]. split; vm_compute; reflexivity.
  - repeat constructor. cbn [Gw]. eexists. split_and!; [vm_compute; reflexivity..|]. vm_compute. done.
  - intros f [= <-]. lia.
  - exists api, c. split_and!; [exact H1|exact H2|]. cbn in H3. by injection H3.
Defined.

(** ** Where the parts disagree *)

(** A coordinator without service CIDRs: the handler clears the Pod CIDRs, in place of the service
    CIDRs, and the plugin refuses the message. *)
Theorem nil_service_cidr coord rest pod api decoded : ServiceCIDR (coord_status coord) = None → Handle (Ret (coord :: rest)) (Ret pod) = Ret api →
  api_OverlayPodCIDR api = Some [] ∧ is_ret (ParseConfig decoded true api) = false.
Proof.
  intros Hn. unfold Handle. cbn [mbind outcome_bind]. intros H. rewrite Hn in H. inv_ret. rewrite bool_decide_true by done. split; [done|].
  unfold ParseConfig. destruct decoded; [|done]. unfold Validate. cbn [check mbind outcome_bind api_Mode api_OverlayPodCIDR api_ServiceCIDR api_TunePodRoutes required].
  by rewrite andb_false_r.
Qed.

(** Prefixes that pass although no MAC address has them: a comma, and a dash that is joined with
    colons; and one whose addresses are group addresses. *)
Theorem hw_prefix_too_wide :
  validateHwPrefix "0,:1b" = Ret () ∧ is_mac "0,:1b:0a:06:00:01" = false ∧ validateHwPrefix "0a-1b" = Ret () ∧ is_mac "0a-1b:0a:06:00:01" = false ∧
  validateHwPrefix "03:00" = Ret () ∧ validateHwPrefix "01:00" = Fail (ErrOther "mac_prefix format").
Proof. split_and!; vm_compute; reflexivity. Qed.

(** A CIDR with a space around it is accepted, and kept with its space. *)
Theorem spaced_cidr_accepted : validateRoutes [" 10.96.0.0/12"%string] = Ret () ∧ net_ParseCIDR " 10.96.0.0/12" = None.
Proof. split; vm_compute; reflexivity. Qed.

(** A gateway that the webhook admits and the plugin refuses. *)
Theorem mapped_gateway_refused :
  let r := MkRoute "fd00::/64" "::ffff:10.0.0.1" in
  Coordinator.validateCoordinatorPolicyRoutes [r] = Ret [r] ∧ is_ret (validateCoordinatorPolicyRoutes [r]) = false.
Proof. split; vm_compute; reflexivity. Qed.
