(* ===== verification/Networking.v ===== *)
(** * pkg/networking/networking: links, addresses, routes and rules

    route.go, ip.go and mac.go.  The two network namespaces that the coordinator works in, of the
    Pod and of the node, belong to the kernel; they are reached through netlink, a parameter: the
    class [Kernel], with what is relied on of routes in [KernelLaws]. *)

From S2P Require Import Prelude NetIP NetIPFacts K8s Retry Selector NetPrefix.
Local Open Scope Z_scope.
Local Open Scope go_scope.

(** What the runtime gives to a CNI plugin. *)
Record CmdArgs := MkCmdArgs { ContainerID : string; Netns : string; IfName : string; Args : string; StdinData : string }.

(** ** Netlink *)

Inductive netns := PodNS | HostNS.

Record NLink := MkNLink { nl_Name : string; nl_Index : Z; nl_Flags : Z; nl_ParentIndex : Z; nl_HwAddr : list Z }.
Record NAddr := MkNAddr { na_IP : IP; na_Net : IPNet }.
Record NextHop := MkHop { nh_LinkIndex : Z; nh_Gw : IP }.
Record NRoute := MkNRoute {
  r_LinkIndex : Z;
  r_Scope : Z;
  r_Dst : option IPNet;
  r_Src : IP;
  r_Gw : IP;
  r_Table : Z;
  r_MTU : Z;
  r_MultiPath : list NextHop
}.
(** The fields of a rule that are set here; -1 is unset. *)
Record NRule := MkNRule {
  rule_Table : Z; rule_Src : option IPNet; rule_Dst : option IPNet; rule_Mark : Z; rule_Family : Z; rule_Priority : Z }.
Record Neigh := MkNeigh { ne_LinkIndex : Z; ne_IP : IP; ne_HwAddr : list Z }.

#[export] Instance netns_eq_dec : EqDecision netns.
Proof. solve_decision. Defined.
#[export] Instance IPNet_eq_dec : EqDecision IPNet.
Proof. solve_decision. Defined.
#[export] Instance NextHop_eq_dec : EqDecision NextHop.
Proof. solve_decision. Defined.
#[export] Instance NRoute_eq_dec : EqDecision NRoute.
Proof. solve_decision. Defined.

#[export] Instance NRule_eq_dec : EqDecision NRule.
Proof. solve_decision. Defined.
#[export] Instance Neigh_eq_dec : EqDecision Neigh.
Proof. solve_decision. Defined.

Definition FAMILY_ALL : Z := 0.
Definition FAMILY_V4 : Z := 2.
Definition FAMILY_V6 : Z := 10.
Definition SCOPE_UNIVERSE : Z := 0.
Definition SCOPE_LINK : Z := 253.
Definition RT_TABLE_MAIN : Z := 254.
Definition FlagUp : Z := 1.
Definition FlagBroadcast : Z := 2.
Definition FlagMulticast : Z := 16.

Definition NewRule : NRule := MkNRule 0 None None (-1) 0 (-1).

(** [LinkNotFoundError], and the errors of [os.IsExist] and [os.IsNotExist]. *)
Definition LinkNotFound : error := ErrOther "Link not found".
Definition Exist : error := ErrOther "file exists".
Definition NotExist : error := ErrOther "no such file or directory".

Class Kernel (S : Type) := {
  LinkByName : netns → string → S → outcome NLink;
  LinkByIndex : netns → Z → S → outcome NLink;
  LinkList : netns → S → outcome (list NLink);
  AddrList : netns → NLink → Z → S → outcome (list NAddr);
  (* the routes of the main table, of a family *)
  RouteList : netns → Z → S → outcome (list NRoute);
  (* the routes of a table *)
  RouteListTable : netns → Z → Z → S → outcome (list NRoute);
  RouteGet : netns → IP → S → outcome (list NRoute);
  (* of all links, of a family *)
  NeighList : netns → Z → S → outcome (list Neigh);
  LinkSetUp : netns → NLink → cmd S unit;
  LinkDel : netns → NLink → cmd S unit;
  LinkSetTxQLen : netns → NLink → Z → cmd S unit;
  LinkSetHardwareAddr : netns → NLink → list Z → cmd S unit;
  AddrAdd : netns → NLink → IPNet → cmd S unit;
  RouteAdd : netns → NRoute → cmd S unit;
  RouteDel : netns → NRoute → cmd S unit;
  RuleAdd : netns → NRule → cmd S unit;
  RuleDel : netns → NRule → cmd S unit;
  NeighAdd : netns → Neigh → cmd S unit;
  NeighDel : netns → Neigh → cmd S unit
}.

(** [if err := ...; err != nil && !harmless(err) { return err }] *)
Definition unless_err {S} (harmless : error → bool) (m : cmd S unit) : cmd S unit := λ s,
  match m s with (Fail e, s') => if harmless e then (Ret (), s') else (Fail e, s') | r => r end.
Definition is_exist (e : error) : bool := (e == Exist).
Definition is_not_exist (e : error) : bool := (e == NotExist).

(** The loop [for _, x := range xs { if err := f(x); err != nil { return err } }] *)
Fixpoint each {S A} (f : A → cmd S unit) (xs : list A) : cmd S unit :=
  match xs with [] => mret () | x :: xs => _ ← f x; each f xs end.

Lemma evolves_unless {S} (R : S → S → Prop) h m : evolves R m → evolves R (unless_err h m).
Proof. intros Hm s. specialize (Hm s). unfold unless_err. destruct (m s) as [[] s1]; try done. by destruct (h _). Qed.
Lemma evolves_each {S A} (R : S → S → Prop) `{!PreOrder R} (f : A → cmd S unit) l : (∀ x, evolves R (f x)) → evolves R (each f l).
Proof. intros Hf. induction l as [|x l IH]; [by apply evolves_ret|]. by apply evolves_bind. Qed.

(** ** Addresses *)

Definition IsMulticast (ip : IP) : bool :=
  match To4 ip with
  | b :: _ => Z.land b 240 =? 224
  | [] => (length ip =? 16)%nat && (default 0 (head ip) =? 255)
  end.
Definition IsLinkLocalUnicast (ip : IP) : bool :=
  match To4 ip with
  | b0 :: b1 :: _ => (b0 =? 169) && (b1 =? 254)
  | _ => (length ip =? 16)%nat && (default 0 (head ip) =? 254) && (Z.land (default 0 (ip !! 1%nat)) 192 =? 128)
  end.
Definition is4 (ip : IP) : bool := negb (is_nil (To4 ip)).

Definition IPv4zero : IP := v4InV6Prefix ++ [0; 0; 0; 0].
Definition IPv6zero : IP := replicate 16 0.

Definition ConvertMaxMaskIPNet (nip : IP) : IPNet := if is4 nip then MkIPNet nip (CIDRMask 32 4) else MkIPNet nip (CIDRMask 128 16).

(** The sizes of masks that are prefixes, 0 for others. *)
Definition IPNetEqual (ipn1 ipn2 : option IPNet) : bool :=
  match ipn1, ipn2 with
  | Some a, Some b => (mask_ones (net_mask a) =? mask_ones (net_mask b)) && ip_equal (net_ip a) (net_ip b)
  | None, None => true
  | _, _ => false
  end.

(** The names that are left out: by a prefix, or exactly. *)
Inductive name_pattern := PPrefix (p : string) | PExact (n : string).
Definition MatchString (l : list name_pattern) (name : string) : bool :=
  existsb (λ p, match p with PPrefix q => String.prefix q name | PExact n => (n == name) end) l.

Section reads.
Context {S : Type} `{K : Kernel S}.

Definition getAdders (ns : netns) (link : NLink) (ipfamily : Z) (s : S) : outcome (list NAddr) :=
  address ← AddrList ns link ipfamily s;
  Ret (List.filter (λ addr,
    if IsMulticast (na_IP addr) || IsLinkLocalUnicast (na_IP addr) then false
    else if is4 (na_IP addr) then (ipfamily =? FAMILY_V4) || (ipfamily =? FAMILY_ALL)
    else (ipfamily =? FAMILY_V6) || (ipfamily =? FAMILY_ALL)) address).
Definition GetAddersByName (ns : netns) (iface : string) (ipfamily : Z) (s : S) : outcome (list NAddr) :=
  link ← LinkByName ns iface s; getAdders ns link ipfamily s.
Definition IPAddressByName (iface : string) (ipFamily : Z) (s : S) : outcome (list NAddr) := GetAddersByName PodNS iface ipFamily s.

Definition GetIPFamilyByIface (ifName : string) (s : S) : outcome Z :=
  _ ← check (ifName != EmptyString) (ErrOther "netns and ifName are required");
  addrs ← IPAddressByName ifName FAMILY_ALL s;
  let hasV4 := existsb (λ a, is4 (na_IP a)) addrs in
  let hasV6 := existsb (λ a, negb (is4 (na_IP a))) addrs in
  if hasV4 && hasV6 then Ret FAMILY_ALL
  else if hasV4 then Ret FAMILY_V4
  else if hasV6 then Ret FAMILY_V6
  else Fail (ErrOther "no usable IP addresses").

(** The source addresses of the routes to the addresses, the first of each family. *)
Fixpoint gateway_loop (addrs : list NAddr) (v4Gw v6Gw : IP) (s : S) : outcome (IP * IP) :=
  match addrs with
  | [] => Ret (v4Gw, v6Gw)
  | addr :: addrs =>
      routes ← RouteGet HostNS (na_IP addr) s;
      let '(v4Gw, v6Gw) :=
        match routes with
        | [] => (v4Gw, v6Gw)
        | r :: _ => (if is4 (na_IP addr) && is_nil v4Gw then r_Src r else v4Gw, if negb (is4 (na_IP addr)) && is_nil v6Gw then r_Src r else v6Gw)
        end in
      gateway_loop addrs v4Gw v6Gw s
  end.
Definition GetGatewayIP (addrs : list NAddr) (s : S) : outcome (IP * IP) := gateway_loop addrs nilIP nilIP s.

Fixpoint link_addresses (ns : netns) (ipFamily : Z) (links : list NLink) (s : S) : outcome (list NAddr) :=
  match links with
  | [] => Ret []
  | l :: links => a ← getAdders ns l ipFamily s; rest ← link_addresses ns ipFamily links s; Ret (a ++ rest)
  end.
Definition GetAllIPAddress (ns : netns) (ipFamily : Z) (excludeInterface : list name_pattern) (s : S) : outcome (list NAddr) :=
  links ← LinkList ns s;
  link_addresses ns ipFamily (List.filter (λ l, negb (MatchString excludeInterface (nl_Name l))) links) s.

Definition CheckInterfaceExist (ns : netns) (iface : string) (s : S) : outcome bool :=
  match LinkByName ns iface s with
  | Ret _ => Ret true
  | Fail e => if e == LinkNotFound then Ret false else Fail e
  | Panic => Panic
  | OutOfFuel => OutOfFuel
  end.

Definition flag (f : Z) (l : NLink) : bool := negb (Z.land (nl_Flags l) f =? 0).
Definition GetUPLinkList (s : S) : outcome (list NLink) :=
  links ← LinkList PodNS s; Ret (List.filter (λ l, flag FlagUp l && flag FlagBroadcast l && flag FlagMulticast l) links).

(** A route to everything: no destination, or the zero address (of whatever mask). *)
Definition zero_dst (d : option IPNet) : bool :=
  match d with None => true | Some n => ip_equal (net_ip n) IPv4zero || ip_equal (net_ip n) IPv6zero end.

(** [route.Dst.String()], of a nil pointer too. *)
Definition dst_string (d : option IPNet) : string := match d with None => "<nil>" | Some n => net_string n end.

Definition default_via (idx : Z) (r : NRoute) : bool :=
  if r_LinkIndex r =? idx then zero_dst (r_Dst r) else existsb (λ h, nh_LinkIndex h =? idx) (r_MultiPath r).

(** The first link, not lo and not the filtered one, that a default route goes through. *)
Definition GetDefaultRouteInterface (ipfamily : Z) (filterInterface : string) (s : S) : outcome string :=
  links ← LinkList PodNS s;
  routes ← RouteList PodNS ipfamily s;
  Ret match List.find (λ l, negb ((nl_Name l == "lo"%string) || (nl_Name l == filterInterface)) && existsb (default_via (nl_Index l)) routes) links with
      | Some l => nl_Name l
      | None => ""
      end.

Definition GetRoutesByName (ns : netns) (iface : string) (ipfamily : Z) (s : S) : outcome (list NRoute) :=
  if iface != EmptyString then
    link ← LinkByName ns iface s;
    routes ← RouteList ns ipfamily s; Ret (List.filter (λ r, r_LinkIndex r =? nl_Index link) routes)
  else RouteList ns ipfamily s.

(** The gateways of the default routes through a link. *)
Definition gateway_via (idx : Z) (r : NRoute) : option IP :=
  if r_LinkIndex r =? idx then if zero_dst (r_Dst r) then Some (r_Gw r) else None
  else nh_Gw <$> List.find (λ h, nh_LinkIndex h =? idx) (r_MultiPath r).
Definition GetDefaultGatewayByName (ns : netns) (iface : string) (ipfamily : Z) (s : S) : outcome (list IP) :=
  routes ← GetRoutesByName ns "" ipfamily s;
  link ← LinkByName ns iface s;
  Ret (omap (gateway_via (nl_Index link)) (routes : list NRoute)).
End reads.

(** ** Rules and routes *)

Section writes.
Context {S : Type} `{K : Kernel S}.

Definition AddToRuleTable (ns : netns) (dst : IPNet) (ruleTable : Z) : cmd S unit :=
  RuleAdd ns (MkNRule ruleTable None (Some dst) (-1) 0 (-1)).
Definition DelToRuleTable (ns : netns) (dst : IPNet) (ruleTable : Z) : cmd S unit :=
  RuleDel ns (MkNRule ruleTable None (Some dst) (-1) 0 (-1)).
Definition defaultRulePriority : Z := 1000.
Definition AddRuleTableWithMark (ns : netns) (mark ruleTable ipFamily : Z) : cmd S unit :=
  RuleAdd ns (MkNRule ruleTable None None mark ipFamily defaultRulePriority).
Definition AddFromRuleTable (ns : netns) (src : IPNet) (ruleTable : Z) : cmd S unit :=
  RuleAdd ns (MkNRule ruleTable (Some src) None (-1) 0 (-1)).
Definition DelFromRuleTable (ns : netns) (src : IPNet) (ruleTable : Z) : cmd S unit :=
  RuleDel ns (MkNRule ruleTable (Some src) None (-1) 0 (-1)).

(** The gateway of a route, by the family. *)
Definition route_gateway (ipFamily : Z) (dst : option IPNet) (v4Gw v6Gw : IP) : outcome IP :=
  if ipFamily =? FAMILY_V4 then Ret v4Gw
  else if ipFamily =? FAMILY_V6 then Ret v6Gw
  else if ipFamily =? FAMILY_ALL then
    Ret match dst with Some d => if is4 (net_ip d) then v4Gw else v6Gw | None => nilIP end
  else Fail (ErrOther "unknown ipFamily").

Definition AddRoute (ns : netns) (ruleTable ipFamily scope : Z) (iface : string) (src dst : option IPNet) (v4Gw v6Gw : IP) : cmd S unit :=
  link ← read (LinkByName ns iface);
  gw ← lift (route_gateway ipFamily dst v4Gw v6Gw);
  unless_err is_exist (RouteAdd ns
    (MkNRoute (nl_Index link) scope dst (match src with Some n => net_ip n | None => nilIP end) gw ruleTable 0 [])).

Definition GetLinkIndexAndRoutes (ns : netns) (iface : string) (ipfamily : Z) (s : S) : outcome (Z * list NRoute) :=
  link ← LinkByName ns iface s; routes ← RouteList ns ipfamily s; Ret (nl_Index link, routes).

(** One route: added to the other table, and taken out of its own when it is a default route that
    is to be moved. *)
Definition moveRouteTable (ns : netns) (linkIndex srcRuleTable dstRuleTable : Z) (onlyCopy : bool) (route : NRoute) : cmd S unit :=
  if r_LinkIndex route =? linkIndex then
    if zero_dst (r_Dst route) then
      let defaultRoute table := MkNRoute linkIndex (r_Scope route) (r_Dst route) nilIP (r_Gw route) table 0 [] in
      _ ← unless_err is_exist (RouteAdd ns (defaultRoute dstRuleTable));
      if onlyCopy then mret () else RouteDel ns (defaultRoute srcRuleTable)
    else if onlyCopy then mret ()
    else unless_err is_exist (RouteAdd ns (MkNRoute linkIndex (r_Scope route) (r_Dst route) (r_Src route) (r_Gw route) dstRuleTable 0 []))
  else
    match List.find (λ v, nh_LinkIndex v =? linkIndex) (r_MultiPath route) with
    | None => mret ()
    | Some v =>
        _ ← unless_err is_exist (RouteAdd ns (MkNRoute (nh_LinkIndex v) 0 None nilIP (nh_Gw v) dstRuleTable (r_MTU route) []));
        if onlyCopy then mret () else RouteDel ns (MkNRoute (nh_LinkIndex v) 0 None nilIP (nh_Gw v) srcRuleTable 0 [])
    end.

(** The loops of [CopyDefaultRoute] and [MoveRouteTable]. *)
Definition route_table_loop (ns : netns) (iface : string) (srcRuleTable dstRuleTable ipfamily : Z) (onlyCopy : bool) : cmd S unit :=
  '(linkIndex, routes) ← read (GetLinkIndexAndRoutes ns iface ipfamily);
  each (λ route,
    if r_Table route != srcRuleTable then mret ()
    else if dst_string (r_Dst route) == "fe80::/64"%string then mret ()
    else moveRouteTable ns linkIndex srcRuleTable dstRuleTable onlyCopy route) routes.
Definition CopyDefaultRoute (ns : netns) (iface : string) (srcRuleTable dstRuleTable ipfamily : Z) : cmd S unit :=
  route_table_loop ns iface srcRuleTable dstRuleTable ipfamily true.
Definition MoveRouteTable (ns : netns) (iface : string) (srcRuleTable dstRuleTable ipfamily : Z) : cmd S unit :=
  route_table_loop ns iface srcRuleTable dstRuleTable ipfamily false.

(** ** Hardware addresses *)

Definition hex_byte (b : Z) : string := String (digit_char (b / 16)) (String (digit_char (b mod 16)) EmptyString).
(** [hex.Encode] into a slice of zeros: the rest stays zero. *)
Fixpoint hex_code (l : list Z) : list ascii :=
  match l with [] => [] | b :: l => [digit_char (b / 16); digit_char (b mod 16)] ++ hex_code l end.
Definition encoded (size : nat) (l : list Z) : list ascii := let code := hex_code l in code ++ replicate (size - length code) "000"%char.

(** The first four matches of ".{2}", joined by colons; a dot does not match a line feed, which no
    code has. *)
Fixpoint pairs (n : nat) (l : list ascii) : list string :=
  match n, l with
  | Datatypes.S n, a :: b :: l => String a (String b EmptyString) :: pairs n l
  | _, _ => []
  end.
Definition convertHex2Mac (hexCode : list ascii) : string := join ":" (pairs 4 hexCode).

(** The number of the address is encoded without its leading zero bytes. *)
Definition inetAton (ip : Addr) : string :=
  let hexCode := encoded (Z.to_nat (2 * BitLen ip)) (int_bytes (be (addr_bytes ip))) in
  convertHex2Mac (if Is6 ip then drop 24 hexCode else hexCode).

(** The bytes of a hardware address; the code panics where [net.ParseMAC] fails. *)
Definition parseMac (s : string) : outcome (list Z) :=
  if is_mac s then
    Ret (omap (λ p, match p with String a (String b EmptyString) => va ← hex_val a; vb ← hex_val b; Some (va * 16 + vb) | _ => None end) (split ":" s))
  else Panic.

Definition OverwriteHwAddress (macPrefix iface : string) : cmd S string :=
  ips ← read (IPAddressByName iface FAMILY_ALL);
  first ← lift (index ips 0);
  match ParseAddr (ip_string (na_IP first)) with
  | None => lift (Fail (ErrOther "failed to ParseAddr"))
  | Some nAddr =>
      let hwAddr := macPrefix +:+ ":" +:+ inetAton nAddr in
      link ← read (LinkByName PodNS iface);
      hw ← lift (parseMac hwAddr);
      _ ← LinkSetHardwareAddr PodNS link hw;
      mret hwAddr
  end.

(** The host's and the Pod's. *)
Definition GetHwAddressByName (podVethPairName hostVethPairName : string) (s : S) : outcome (list Z * list Z) :=
  link ← LinkByName PodNS podVethPairName s;
  hostLink ← LinkByName HostNS hostVethPairName s;
  Ret (nl_HwAddr hostLink, nl_HwAddr link).

Definition GetHostVethName (podVethPairName : string) (s : S) : outcome string :=
  link ← LinkByName PodNS podVethPairName s;
  _ ← check (negb (nl_ParentIndex link <? 0)) (ErrOther "failed to get parentIndex");
  hostLink ← LinkByIndex HostNS (nl_ParentIndex link) s;
  Ret (nl_Name hostLink).

Definition AddStaticNeighborTable (ns : netns) (linkIndex : Z) (dstIP : IP) (hwAddress : list Z) : cmd S unit :=
  unless_err is_exist (NeighAdd ns (MkNeigh linkIndex dstIP hwAddress)).

Definition LinkSetTxqueueLen (ns : netns) (iface : string) (txQueneLen : Z) : cmd S unit :=
  link ← read (LinkByName ns iface); LinkSetTxQLen ns link txQueneLen.
End writes.

(** ** What the kernel guarantees of routes *)

(** The same destination: equal networks, or routes to everything, which have several forms. *)
Definition same_dst (d d' : option IPNet) : Prop := IPNetEqual d d' = true ∨ (zero_dst d = true ∧ zero_dst d' = true).

Definition plain_route (r : NRoute) : Prop := r_MultiPath r = [].

(** [routes] are the routes of a namespace, of all tables, and [rules] its rules.  A route that was
    added is there with the link, the table and the destination asked for; one that exists already is
    refused with [Exist].  A deletion takes nothing but a route of the table and the destination away;
    where no route has several hops it takes exactly one, of the link asked for.  The requests for a
    namespace leave the other one alone, and rules are apart from routes. *)
Class KernelLaws (S : Type) `{Kernel S} := {
  routes : netns → S → list NRoute;
  rules : netns → S → list NRule;
  in_family : Z → NRoute → bool;
  family_of_addresses : ∀ f r r', r_Dst r = r_Dst r' → r_Gw r = r_Gw r' → in_family f r = in_family f r';
  route_list : ∀ ns f s l, RouteList ns f s = Ret l →
    l ≡ₚ filter (λ r, r_Table r = RT_TABLE_MAIN ∧ in_family f r = true) (routes ns s);
  route_list_table : ∀ ns f t s l, RouteListTable ns f t s = Ret l → Forall (λ r, r_Table r = t) l;
  route_add : ∀ ns r s s', RouteAdd ns r s = (Ret (), s') → plain_route r →
    ∃ r', r_LinkIndex r' = r_LinkIndex r ∧ r_Table r' = r_Table r ∧ same_dst (r_Dst r) (r_Dst r') ∧ plain_route r' ∧
      routes ns s' ≡ₚ r' :: routes ns s;
  route_add_fails : ∀ ns r s e s', RouteAdd ns r s = (Fail e, s') → routes ns s' = routes ns s;
  route_add_exists : ∀ ns r s s', RouteAdd ns r s = (Fail Exist, s') →
    ∃ r', r' ∈ routes ns s ∧ r_Table r' = r_Table r ∧ same_dst (r_Dst r) (r_Dst r');
  route_add_frame : ∀ ns r s o s', RouteAdd ns r s = (o, s') →
    (∀ ns', ns' ≠ ns → routes ns' s' = routes ns' s) ∧ (∀ ns', rules ns' s' = rules ns' s) ∧
    (∀ ns' name, LinkByName ns' name s' = LinkByName ns' name s);
  route_del : ∀ ns r s s', RouteDel ns r s = (Ret (), s') → Forall plain_route (routes ns s) →
    ∃ r', r_LinkIndex r' = r_LinkIndex r ∧ r_Table r' = r_Table r ∧ same_dst (r_Dst r) (r_Dst r') ∧
      (∀ f, in_family f r' = in_family f r) ∧ routes ns s ≡ₚ r' :: routes ns s';
  route_del_only : ∀ ns r s o s', RouteDel ns r s = (o, s') →
    ∀ x, x ∈ routes ns s → x ∈ routes ns s' ∨ (r_Table x = r_Table r ∧ same_dst (r_Dst r) (r_Dst x));
  route_del_frame : ∀ ns r s o s', RouteDel ns r s = (o, s') →
    (∀ ns', ns' ≠ ns → routes ns' s' = routes ns' s) ∧ (∀ ns', rules ns' s' = rules ns' s);
  rule_add : ∀ ns r s s', RuleAdd ns r s = (Ret (), s') →
    ∃ r', rule_Table r' = rule_Table r ∧ rule_Src r' = rule_Src r ∧ rule_Dst r' = rule_Dst r ∧ rule_Mark r' = rule_Mark r ∧
      rules ns s' ≡ₚ r' :: rules ns s;
  rule_add_frame : ∀ ns r s o s', RuleAdd ns r s = (o, s') →
    (∀ ns', routes ns' s' = routes ns' s) ∧ (∀ ns' name, LinkByName ns' name s' = LinkByName ns' name s)
}.

(** Equal addresses, by the 16-byte form. *)
Definition ip_key (ip : IP) : IP := if (length ip =? 4)%nat then v4InV6Prefix ++ ip else ip.
Lemma ip_equal_key a b : ip_equal a b = true ↔ ip_key a = ip_key b.
Proof.
  unfold ip_equal, ip_key. destruct (Nat.eqb_spec (length a) (length b)) as [E|E].
  - rewrite bool_decide_eq_true, E. destruct (length b =? 4)%nat; [|done]. split; [by intros ->|apply app_inv_head].
  - destruct (Nat.eqb_spec (length a) 4) as [Ha|Ha], (Nat.eqb_spec (length b) 4) as [Hb|Hb]; cbn [andb]; [lia|..].
    + destruct (Nat.eqb_spec (length b) 16) as [Hb'|Hb']; cbn [andb].
      * rewrite andb_true_iff, !bool_decide_eq_true. split; [intros [H1 ->]; rewrite <- H1; apply take_drop|intros <-; done].
      * replace ((length a =? 16)%nat) with false by (symmetry; apply Nat.eqb_neq; lia). cbn [andb]. split; [done|].
        intros H. apply (f_equal length) in H. rewrite length_app in H. cbn in H. lia.
    + destruct (Nat.eqb_spec (length a) 16) as [Ha'|Ha']; cbn [andb].
      * rewrite andb_true_iff, !bool_decide_eq_true. split; [intros [H1 <-]; rewrite <- H1; symmetry; apply take_drop|intros ->; done].
      * split; [done|]. intros H. apply (f_equal length) in H. rewrite length_app in H. cbn in H. lia.
    + rewrite andb_false_r. split; [done|congruence].
Qed.

(** Equal networks, by the length of the mask and the address. *)
Definition net_key (d : option IPNet) : option (Z * IP) := (λ n, (mask_ones (net_mask n), ip_key (net_ip n))) <$> d.
Lemma IPNetEqual_key d d' : IPNetEqual d d' = true ↔ net_key d = net_key d'.
Proof.
  destruct d as [a|], d' as [b|]; cbn; [|done..]. rewrite andb_true_iff, Z.eqb_eq, ip_equal_key. split; [by intros [-> ->]|by intros [= -> ->]].
Qed.
Lemma zero_dst_key d d' : net_key d = net_key d' → zero_dst d = zero_dst d'.
Proof.
  destruct d as [a|], d' as [b|]; cbn; try done. intros [= _ E]. apply eq_true_iff_eq. by rewrite !orb_true_iff, !ip_equal_key, E.
Qed.
Lemma same_dst_zero d d' : same_dst d d' → zero_dst d = true → zero_dst d' = true.
Proof. intros [E%IPNetEqual_key%zero_dst_key|[_ ?]]; [by rewrite E|done]. Qed.

#[export] Instance same_dst_equiv : Equivalence same_dst.
Proof.
  split.
  - intros d. left. by apply IPNetEqual_key.
  - intros d d' [E%IPNetEqual_key|[? ?]]; [left; by apply IPNetEqual_key|by right].
  - intros d d' d'' H1 H2. destruct H1 as [E1|[Z1 Z2]]; [|right; split; [done|by eapply same_dst_zero]].
    destruct H2 as [E2|[Z1 Z2]]; [|right; split; [|done]; apply (same_dst_zero d'); [left; by apply IPNetEqual_key; apply IPNetEqual_key in E1|done]].
    apply IPNetEqual_key in E1, E2. left. apply IPNetEqual_key. congruence.
Qed.

(** A default route is not the route to the link-local network. *)
Lemma zero_not_link_local d : zero_dst d = true → dst_string d ≠ "fe80::/64"%string.
Proof.
  destruct d as [[ip mask]|]; [|done]. cbn [zero_dst dst_string net_ip]. intros Hz.
  assert (ip = [0; 0; 0; 0] ∨ ip = IPv4zero ∨ ip = IPv6zero) as Hip.
  { apply orb_true_iff in Hz as [Hz|Hz]; unfold ip_equal in Hz;
      change (length IPv4zero) with 16%nat in Hz; change (length IPv6zero) with 16%nat in Hz.
    - destruct (Nat.eqb_spec (length ip) 16); [apply bool_decide_eq_true in Hz; auto|]. destruct (Nat.eqb_spec (length ip) 4); cbn [andb] in Hz; [|done].
      apply andb_true_iff in Hz as [_ Hz%bool_decide_eq_true]. left. exact Hz.
    - destruct (Nat.eqb_spec (length ip) 16); [apply bool_decide_eq_true in Hz; auto|]. destruct (Nat.eqb_spec (length ip) 4); cbn [andb] in Hz; [|done].
      apply andb_true_iff in Hz as [Hz%bool_decide_eq_true _]. by vm_compute in Hz. }
  assert (∀ nn m, networkNumberAndMask (MkIPNet ip mask) = Some (nn, m) → nn = [0; 0; 0; 0] ∨ nn = IPv6zero) as Hnn.
  { intros nn m. unfold networkNumberAndMask. cbn [net_ip net_mask]. set (v4 := To4 ip). set (z := if is_nil v4 then ip else v4).
    assert (z = [0; 0; 0; 0] ∨ z = IPv6zero) as Hzz by (unfold z, v4; destruct Hip as [->|[->| ->]]; vm_compute; auto).
    destruct (is_nil v4 && _); [done|]. destruct (length mask =? 4)%nat, (length z =? 4)%nat; try done; [by intros [= <- _]|..];
      destruct (length mask =? 16)%nat; try done; by intros [= <- _]. }
  unfold net_string. destruct (networkNumberAndMask _) as [[nn m]|]; [|done].
  assert (∃ c t, ip_string nn = String c t ∧ c ≠ "f"%char) as (c & t & -> & Hc).
  { destruct (Hnn nn m eq_refl) as [-> | ->]; do 2 eexists; (split; [vm_compute; reflexivity|done]). }
  destruct (simpleMaskLength m); intros [= E _]; done.
Qed.

Lemma filter_Forall {A} (P : A → Prop) `{!∀ x, Decision (P x)} (l : list A) : Forall P l → filter P l = l.
Proof. induction 1 as [|x l Hx Hl IH]; [done|]. rewrite filter_cons_True by done. by rewrite IH. Qed.

Section routes.
Context {S : Type} `{K : Kernel S} `{KL : !KernelLaws S}.

(** An addition that tolerates an existing route: one route more or none, and a route with the table
    and the destination is there. *)
Lemma add_there ns r s s' : unless_err is_exist (RouteAdd ns r) s = (Ret (), s') → plain_route r →
  ∃ A, routes ns s' ≡ₚ A ++ routes ns s ∧ Forall (λ x, r_Table x = r_Table r ∧ plain_route x) A ∧
    ∃ r', r' ∈ routes ns s' ∧ r_Table r' = r_Table r ∧ same_dst (r_Dst r) (r_Dst r').
Proof.
  unfold unless_err. intros H Hp. destruct (RouteAdd ns r s) as [[[]|e| |] s1] eqn:E; [| |done..].
  - injection H as <-. destruct (route_add _ _ _ _ E Hp) as (r' & _ & Ht & Hd & Hp' & Hr). exists [r']. split; [done|]. split; [by repeat constructor|].
    exists r'. rewrite Hr. split; [by left|done].
  - unfold is_exist in H. case_bool_decide as Ee; [|done]. subst e. injection H as <-. destruct (route_add_exists _ _ _ _ E) as (r' & Hin & Ht & Hd).
    exists []. rewrite (route_add_fails _ _ _ _ _ E). split; [done|]. split; [constructor|]. eauto.
Qed.

Section move.
Context (ns : netns) (idx dst fam : Z) (Hdst : dst ≠ RT_TABLE_MAIN).

(** The default routes of the main table through the link. *)
Definition moved (r : NRoute) : Prop := r_Table r = RT_TABLE_MAIN ∧ r_LinkIndex r = idx ∧ zero_dst (r_Dst r) = true ∧ in_family fam r = true.
#[local] Instance moved_dec r : Decision (moved r).
Proof. unfold moved. apply _. Defined.

Definition copied (s : S) (r : NRoute) : Prop := ∃ r', r' ∈ routes ns s ∧ r_Table r' = dst ∧ same_dst (r_Dst r) (r_Dst r').

(** What a part of the loop did: routes [A] of the other table were added and default routes [D] of
    the link were taken out. *)
Definition shifted (D A : list NRoute) (s s' : S) : Prop :=
  A ++ routes ns s ≡ₚ D ++ routes ns s' ∧ Forall moved D ∧ Forall (λ r, r_Table r = dst ∧ plain_route r) A ∧ Forall plain_route (routes ns s').

Lemma shifted_refl s : Forall plain_route (routes ns s) → shifted [] [] s s.
Proof. intros. by split_and!; try constructor. Qed.
Lemma shifted_trans D A s1 D' A' s2 s3 : shifted D A s1 s2 → shifted D' A' s2 s3 → shifted (D ++ D') (A' ++ A) s1 s3.
Proof.
  intros (P1 & D1 & A1 & _) (P2 & D2 & A2 & F). split_and!; [|by apply Forall_app|by apply Forall_app|done].
  rewrite <- app_assoc, P1, app_assoc, (Permutation_app_comm A' D), <- !app_assoc, P2. done.
Qed.
Lemma shifted_copied D A s s' r : shifted D A s s' → copied s r → copied s' r.
Proof.
  intros (P & HD & _ & _) (r' & Hin & Ht & Hd). exists r'. split; [|done]. assert (r' ∈ A ++ routes ns s) as Hx by (apply elem_of_app; by right).
  rewrite P in Hx. apply elem_of_app in Hx as [Hx|Hx]; [|done]. rewrite Forall_forall in HD. destruct (HD _ Hx) as (Hm & _). congruence.
Qed.

Definition handled (r : NRoute) : Prop := r_LinkIndex r = idx ∧ dst_string (r_Dst r) ≠ "fe80::/64"%string.

Lemma move_one r s s' : r_Table r = RT_TABLE_MAIN → in_family fam r = true → plain_route r → Forall plain_route (routes ns s) →
  (if r_Table r != RT_TABLE_MAIN then mret ()
   else if dst_string (r_Dst r) == "fe80::/64"%string then mret ()
   else moveRouteTable ns idx RT_TABLE_MAIN dst false r) s = (Ret (), s') →
  ∃ D A, shifted D A s s' ∧ length D = (if decide (moved r) then 1%nat else 0%nat) ∧ (handled r → copied s' r).
Proof.
  intros Ht Hf Hp Hall H. rewrite bool_decide_true in H by done. cbn [negb] in H. destruct (decide (dst_string (r_Dst r) = "fe80::/64"%string)) as [Hl|Hl].
  { rewrite bool_decide_true in H by done. injection H as <-. exists [], []. split_and!; [by apply shifted_refl| |by intros [_ ?]].
    rewrite decide_False; [done|]. intros (_ & _ & Hz%zero_not_link_local & _). done. }
  rewrite bool_decide_false in H by done. unfold moveRouteTable in H. rewrite Hp in H. cbn [List.find] in H.
  destruct (Z.eqb_spec (r_LinkIndex r) idx) as [Hi|Hi].
  2:{ injection H as <-. exists [], []. split_and!; [by apply shifted_refl| |by intros [? _]]. by rewrite decide_False by (by intros (_ & ? & _)). }
  destruct (zero_dst (r_Dst r)) eqn:Hz.
  - apply cmd_bind_Ret in H as ([] & s1 & H1 & H2). apply add_there in H1 as (A & P1 & HA & r1 & Hr1 & Ht1 & Hd1); [|done]. cbn [r_Table r_Dst] in *.
    assert (Forall plain_route (routes ns s1)) as Hall1.
    { rewrite P1. apply Forall_app. split; [|done]. eapply Forall_impl; [exact HA|]. by intros ? [_ ?]. }
    apply route_del in H2 as (r' & Hl' & Ht' & Hd' & Hf' & P2); [|done]. cbn [r_LinkIndex r_Table r_Dst] in *.
    exists [r'], A. rewrite decide_True by done. split_and!; [|done|].
    + split_and!; [by rewrite <- P1|constructor; [|constructor]|done|]. { split_and!; [done..|by eapply same_dst_zero|]. rewrite Hf'. by rewrite <- Hf; apply family_of_addresses. }
      rewrite P2 in Hall1. by apply Forall_cons in Hall1 as [_ ?].
    + intros _. exists r1. split; [|done]. rewrite P2 in Hr1. apply elem_of_cons in Hr1 as [->|?]; [congruence|done].
  - apply add_there in H as (A & P1 & HA & r1 & Hr1 & Ht1 & Hd1); [|done]. cbn [r_Table r_Dst] in *. exists [], A.
    rewrite decide_False by (by intros (_ & _ & ? & _); congruence). split_and!; [|done|].
    + split_and!; [by rewrite P1|constructor|done|]. rewrite P1. apply Forall_app. split; [|done]. eapply Forall_impl; [exact HA|]. by intros ? [_ ?].
    + intros _. by exists r1.
Qed.

Lemma move_all l s s' : Forall (λ r, r_Table r = RT_TABLE_MAIN ∧ in_family fam r = true ∧ plain_route r) l → Forall plain_route (routes ns s) →
  each (λ r, if r_Table r != RT_TABLE_MAIN then mret ()
             else if dst_string (r_Dst r) == "fe80::/64"%string then mret ()
             else moveRouteTable ns idx RT_TABLE_MAIN dst false r) l s = (Ret (), s') →
  ∃ D A, shifted D A s s' ∧ length D = length (filter moved l) ∧ Forall (λ r, handled r → copied s' r) l.
Proof.
  revert s. induction l as [|r l IH]; intros s Hl Hall; cbn [each].
  { intros [= <-]. exists [], []. split_and!; [by apply shifted_refl|done|constructor]. }
  apply Forall_cons in Hl as [(Ht & Hf & Hp) Hl]. intros ([] & s1 & H1 & H2)%cmd_bind_Ret.
  apply move_one in H1 as (D1 & A1 & Hs1 & L1 & C1); [|done..]. apply IH in H2 as (D2 & A2 & Hs2 & L2 & C2); [|done|by destruct Hs1 as (_ & _ & _ & ?)].
  exists (D1 ++ D2), (A2 ++ A1). split_and!; [by eapply shifted_trans|rewrite length_app, L1, L2, filter_cons; by destruct (decide (moved r))|].
  constructor; [|done]. intros Hh. by eapply shifted_copied, C1.
Qed.

(** The count: as many default routes went as there were. *)
Lemma shifted_main D A s s' : shifted D A s s' → length D = length (filter moved (routes ns s)) →
  filter (λ r, r_Table r = RT_TABLE_MAIN) (routes ns s') ≡ₚ filter (λ r, r_Table r = RT_TABLE_MAIN ∧ ¬ moved r) (routes ns s).
Proof.
  intros (P & HD & HA & _) HL.
  assert (filter moved A = []) as FA by (apply filter_none; eapply Forall_impl; [exact HA|]; intros r [Hr _] (? & _); congruence).
  assert (filter moved D = D) as FD by (by apply filter_Forall).
  assert (filter moved (routes ns s') = []) as FS.
  { apply nil_length_inv. assert (length (filter moved (A ++ routes ns s)) = length (filter moved (D ++ routes ns s'))) as E by (by rewrite P).
    rewrite !filter_app, FA, FD, !length_app in E. cbn in E. lia. }
  assert (filter (λ r, r_Table r = RT_TABLE_MAIN ∧ ¬ moved r) (A ++ routes ns s) ≡ₚ filter (λ r, r_Table r = RT_TABLE_MAIN ∧ ¬ moved r) (D ++ routes ns s')) as E by (by rewrite P).
  rewrite !filter_app in E. rewrite (filter_none _ A), (filter_none _ D) in E.
  - cbn [app] in E. rewrite E. erewrite filter_agree; [done|]. apply Forall_forall. intros r Hr. split; [|by intros [? _]].
    intros Hm. split; [done|]. intros Hv. exact (filter_nil_not_elem_of moved _ _ FS Hv Hr).
  - eapply Forall_impl; [exact HD|]. by intros r Hr [_ ?].
  - eapply Forall_impl; [exact HA|]. intros r [Hr _] [? _]. congruence.
Qed.

(** *** Routes with several hops *)

(** A route of other interfaces with a hop over the link. *)
Definition hopping (r : NRoute) : Prop :=
  r_LinkIndex r ≠ idx ∧ dst_string (r_Dst r) ≠ "fe80::/64"%string ∧ ∃ v, List.find (λ v, nh_LinkIndex v =? idx) (r_MultiPath r) = Some v.
(** What is there of a route afterwards: its destination, or a default route for its hop. *)
Definition served (s : S) (r : NRoute) : Prop := (handled r → copied s r) ∧ (hopping r → ∃ r', r' ∈ routes ns s ∧ r_Table r' = dst ∧ zero_dst (r_Dst r') = true).
(** Only default routes of the main table are lost. *)
Definition spared (s s' : S) : Prop := ∀ r, r ∈ routes ns s → r ∈ routes ns s' ∨ (r_Table r = RT_TABLE_MAIN ∧ zero_dst (r_Dst r) = true).
#[local] Instance spared_preorder : PreOrder spared.
Proof. split; [by intros s r; left|]. intros s1 s2 s3 H1 H2 r Hr. destruct (H1 r Hr) as [Hr2|?]; [|by right]. by apply H2. Qed.
Lemma spared_served s s' r : spared s s' → served s r → served s' r.
Proof.
  intros Hs [Hc Hh]. split.
  - intros (r' & Hin & Ht & Hd)%Hc. exists r'. destruct (Hs _ Hin) as [?|[? _]]; [done|congruence].
  - intros (r' & Hin & Ht & Hd)%Hh. exists r'. destruct (Hs _ Hin) as [?|[? _]]; [done|congruence].
Qed.
Lemma add_spared r s s' : unless_err is_exist (RouteAdd ns r) s = (Ret (), s') → plain_route r → spared s s'.
Proof. intros H Hp. destruct (add_there _ _ _ _ H Hp) as (A & P & _). intros x Hx. left. rewrite P. apply elem_of_app. by right. Qed.
Lemma del_spared r s o s' : RouteDel ns r s = (o, s') → r_Table r = RT_TABLE_MAIN → zero_dst (r_Dst r) = true → spared s s'.
Proof.
  intros H Ht Hz x Hx. destruct (route_del_only _ _ _ _ _ H x Hx) as [?|[Htx Hd]]; [by left|]. right. split; [congruence|]. by eapply same_dst_zero.
Qed.

Lemma serve_one r s s' :
  (if r_Table r != RT_TABLE_MAIN then mret ()
   else if dst_string (r_Dst r) == "fe80::/64"%string then mret ()
   else moveRouteTable ns idx RT_TABLE_MAIN dst false r) s = (Ret (), s') → spared s s' ∧ (r_Table r = RT_TABLE_MAIN → served s' r).
Proof.
  intros H. destruct (decide (r_Table r = RT_TABLE_MAIN)) as [Ht|Ht]; [|rewrite (bool_decide_false (r_Table r = _)) in H by done; by injection H as <-].
  rewrite bool_decide_true in H by done. cbn [negb] in H. destruct (decide (dst_string (r_Dst r) = "fe80::/64"%string)) as [Hl|Hl].
  { rewrite bool_decide_true in H by done. injection H as <-. split; [done|]. intros _. split; [by intros [_ ?]|by intros (_ & ? & _)]. }
  rewrite bool_decide_false in H by done. unfold moveRouteTable in H. destruct (Z.eqb_spec (r_LinkIndex r) idx) as [Hi|Hi].
  - assert (spared s s' ∧ copied s' r) as [Hs Hc].
    { destruct (zero_dst (r_Dst r)) eqn:Hz.
      - apply cmd_bind_Ret in H as ([] & s1 & H1 & H2). pose proof (del_spared _ _ _ _ H2 eq_refl Hz) as Hs2. pose proof (add_spared _ _ _ H1 eq_refl) as Hs1.
        split; [by etrans|]. apply add_there in H1 as (_ & _ & _ & r1 & Hr1 & Ht1 & Hd1); [|done]. exists r1. destruct (Hs2 _ Hr1) as [?|[Hm _]]; [done|]. cbn in Ht1. congruence.
      - split; [by eapply add_spared|]. apply add_there in H as (_ & _ & _ & r1 & Hr1 & Ht1 & Hd1); [|done]. by exists r1. }
    split; [done|]. intros _. split; [done|by intros (? & _)].
  - destruct (List.find _ (r_MultiPath r)) as [v|] eqn:Ev; [|injection H as <-; split; [done|]; intros _; split; [by intros [? _]|]; intros (_ & _ & v & Hv); congruence].
    apply cmd_bind_Ret in H as ([] & s1 & H1 & H2). pose proof (del_spared _ _ _ _ H2 eq_refl eq_refl) as Hs2. pose proof (add_spared _ _ _ H1 eq_refl) as Hs1.
    split; [by etrans|]. intros _. split; [by intros [? _]|]. intros _. apply add_there in H1 as (_ & _ & _ & r1 & Hr1 & Ht1 & Hd1); [|done].
    exists r1. destruct (Hs2 _ Hr1) as [?|[Hm _]]; [|cbn in Ht1; congruence]. split_and!; [done..|]. by eapply same_dst_zero.
Qed.
Lemma serve_all l s s' :
  each (λ r, if r_Table r != RT_TABLE_MAIN then mret ()
             else if dst_string (r_Dst r) == "fe80::/64"%string then mret ()
             else moveRouteTable ns idx RT_TABLE_MAIN dst false r) l s = (Ret (), s') → spared s s' ∧ Forall (λ r, r_Table r = RT_TABLE_MAIN → served s' r) l.
Proof.
  revert s. induction l as [|r l IH]; intros s; cbn [each]; [by intros [= <-]|]. intros ([] & s1 & [H1 C1]%serve_one & [H2 C2]%IH)%cmd_bind_Ret.
  split; [by etrans|]. constructor; [|done]. intros Ht. by eapply spared_served, C1.
Qed.
End move.
#[local] Existing Instance moved_dec.

(** A move of the routes of an interface out of the main table: afterwards every route of the
    interface, except the link-local one, has its destination in the new table, a route of other
    interfaces with a hop over the interface is served there by a default route, and only default
    routes of the main table are lost; where no route has several hops, the main table holds
    exactly what it held, less the default routes through the interface. *)
Lemma MoveRouteTable_spec ns iface dst fam s s' : dst ≠ RT_TABLE_MAIN → MoveRouteTable ns iface RT_TABLE_MAIN dst fam s = (Ret (), s') →
  ∃ link, LinkByName ns iface s = Ret link ∧
    (Forall plain_route (routes ns s) →
     filter (λ r, r_Table r = RT_TABLE_MAIN) (routes ns s') ≡ₚ filter (λ r, r_Table r = RT_TABLE_MAIN ∧ ¬ moved (nl_Index link) fam r) (routes ns s)) ∧
    (∀ r, r ∈ routes ns s → r_Table r = RT_TABLE_MAIN → in_family fam r = true → served ns (nl_Index link) dst s' r) ∧
    spared ns s s'.
Proof.
  intros Hd ([i l] & s1 & [Hr ->]%read_Ret & H)%cmd_bind_Ret. unfold GetLinkIndexAndRoutes in Hr. apply bind_Ret in Hr as (link & Hlink & (l' & Hlist & [= <- <-])%bind_Ret).
  exists link. split; [done|]. pose proof (route_list _ _ _ _ Hlist) as Hperm. destruct (serve_all ns (nl_Index link) dst Hd l' s s' H) as [Hs Hv]. split_and!; [|..|done].
  - intros Hall. assert (Forall (λ r, r_Table r = RT_TABLE_MAIN ∧ in_family fam r = true ∧ plain_route r) l') as Hl.
    { rewrite Hperm. apply Forall_forall. intros r [[? ?] Hr]%list_elem_of_filter. rewrite Forall_forall in Hall. eauto. }
    destruct (move_all ns (nl_Index link) dst fam Hd l' s s' Hl Hall H) as (D & A & Hsh & HL & Hc).
    apply (shifted_main _ _ _ _ Hd D A); [done|]. rewrite HL, Hperm, list_filter_filter. apply f_equal, list_filter_iff. intros r. unfold moved. naive_solver.
  - intros r Hr Ht Hf. rewrite Forall_forall in Hv. apply Hv; [|done]. rewrite Hperm. by apply list_elem_of_filter.
Qed.
End routes.

(** ** Hardware addresses *)

(** The bytes of the number of an address, when the first byte is not zero. *)
Lemma int_bytes_be b l : is_byte b → b ≠ 0 → wf_bytes l → int_bytes (be (b :: l)) = b :: l.
Proof.
  intros Hb Hn Hl. rewrite (int_bytes_spec (length l)).
  - change (S (length l)) with (length (b :: l)). apply be_split_be. by constructor.
  - rewrite be_cons. pose proof (be_bound l Hl). unfold is_byte in Hb. rewrite Nat2Z.inj_succ, Z.pow_succ_r by lia. nia.
Qed.

(** The four bytes of an IPv4 address and the last four of an IPv6 address are what follows the
    prefix, provided the address does not start with a zero byte. *)
Theorem inetAton_suffix a b l : wf_ip (addr_bytes a) → addr_bytes a = b :: l → b ≠ 0 →
  inetAton a = join ":" (hex_byte <$> drop (length (addr_bytes a) - 4) (addr_bytes a)).
Proof.
  intros [Hwf Hlen] E Hb. unfold inetAton. rewrite E in *. apply Forall_cons in Hwf as [Hby Hwl]. rewrite int_bytes_be by done.
  unfold encoded, convertHex2Mac, Is6, BitLen. rewrite E.
  destruct Hlen as [H4|H16].
  - destruct l as [|b2 [|b3 [|b4 [|]]]]; done.
  - destruct l as [|b2 [|b3 [|b4 [|b5 [|b6 [|b7 [|b8 [|b9 [|b10 [|b11 [|b12 [|b13 [|b14 [|b15 [|b16 [|]]]]]]]]]]]]]]]]; done.
Qed.

(** An address that starts with a zero byte, as those of NAT64, loses it: the suffix is made of
    other bytes, and the last one is not even hexadecimal. *)
Theorem inetAton_leading_zero :
  match ParseAddr "64:ff9b::a06:1" with
  | Some a => inetAton a = "06:00:01:" +:+ String "000" (String "000" EmptyString) ∧ parseMac ("0a:1b:" +:+ inetAton a) = Panic
  | None => False
  end.
Proof. vm_compute. split; reflexivity. Qed.

(** ** A kernel in memory

    An instance of the laws: a namespace is its links, addresses, routes, rules and neighbours. *)

Record NsState := MkNs { ns_links : list NLink; ns_addrs : list (Z * NAddr); ns_routes : list NRoute; ns_rules : list NRule; ns_neighs : list Neigh }.
Record Mem := MkMem { mem_pod : NsState; mem_host : NsState }.
Definition ns_of (ns : netns) (m : Mem) : NsState := match ns with PodNS => mem_pod m | HostNS => mem_host m end.
Definition on_ns (ns : netns) (f : NsState → NsState) (m : Mem) : Mem :=
  match ns with PodNS => MkMem (f (mem_pod m)) (mem_host m) | HostNS => MkMem (mem_pod m) (f (mem_host m)) end.
Definition set_routes (l : list NRoute) (n : NsState) : NsState := MkNs (ns_links n) (ns_addrs n) l (ns_rules n) (ns_neighs n).
Definition set_rules (l : list NRule) (n : NsState) : NsState := MkNs (ns_links n) (ns_addrs n) (ns_routes n) l (ns_neighs n).
Definition set_links (l : list NLink) (n : NsState) : NsState := MkNs l (ns_addrs n) (ns_routes n) (ns_rules n) (ns_neighs n).
Definition set_addrs (l : list (Z * NAddr)) (n : NsState) : NsState := MkNs (ns_links n) l (ns_routes n) (ns_rules n) (ns_neighs n).
Definition set_neighs (l : list Neigh) (n : NsState) : NsState := MkNs (ns_links n) (ns_addrs n) (ns_routes n) (ns_rules n) l.
Definition change_link (i : Z) (f : NLink → NLink) (n : NsState) : NsState :=
  set_links ((λ l, if nl_Index l =? i then f l else l) <$> ns_links n) n.

Definition ip_family (ip : IP) : Z := if is4 ip then FAMILY_V4 else FAMILY_V6.
Definition route_family (d : option IPNet) (gw : IP) : Z := match d with Some n => ip_family (net_ip n) | None => ip_family gw end.
Definition family_matches (f : Z) (r : NRoute) : bool := (f =? FAMILY_ALL) || (f =? route_family (r_Dst r) (r_Gw r)).
Definition dst_matches (r r' : NRoute) : bool :=
  (r_Table r' =? r_Table r) && (route_family (r_Dst r') (r_Gw r') =? route_family (r_Dst r) (r_Gw r))
  && (IPNetEqual (r_Dst r) (r_Dst r') || (zero_dst (r_Dst r) && zero_dst (r_Dst r'))).

Fixpoint remove_first {A} (p : A → bool) (l : list A) : option (A * list A) :=
  match l with
  | [] => None
  | x :: l => if p x then Some (x, l) else '(y, l') ← remove_first p l; Some (y, x :: l')
  end.

Definition found {A} (o : option A) (e : error) : outcome A := match o with Some x => Ret x | None => Fail e end.
Definition mem_done (f : Mem → Mem) : cmd Mem unit := λ m, (Ret (), f m).

#[export] Instance mem_kernel : Kernel Mem := {
  LinkByName ns name m := found (List.find (λ l, nl_Name l == name) (ns_links (ns_of ns m))) LinkNotFound;
  LinkByIndex ns i m := found (List.find (λ l, nl_Index l =? i) (ns_links (ns_of ns m))) LinkNotFound;
  LinkList ns m := Ret (ns_links (ns_of ns m));
  AddrList ns link f m :=
    Ret (snd <$> List.filter (λ a, (a.1 =? nl_Index link) && ((f =? FAMILY_ALL) || (f =? ip_family (na_IP a.2)))) (ns_addrs (ns_of ns m)));
  RouteList ns f m := Ret (filter (λ r, r_Table r = RT_TABLE_MAIN ∧ family_matches f r = true) (ns_routes (ns_of ns m)));
  RouteListTable ns f t m := Ret (filter (λ r, r_Table r = t ∧ family_matches f r = true) (ns_routes (ns_of ns m)));
  RouteGet ns ip m := Ret (List.filter (λ r, match r_Dst r with Some n => net_contains n ip | None => ip_family ip =? route_family None (r_Gw r) end) (ns_routes (ns_of ns m)));
  NeighList ns f m := Ret (List.filter (λ n, (f =? FAMILY_ALL) || (f =? ip_family (ne_IP n))) (ns_neighs (ns_of ns m)));
  LinkSetUp ns link := mem_done (on_ns ns (change_link (nl_Index link) (λ l, MkNLink (nl_Name l) (nl_Index l) (Z.lor (nl_Flags l) FlagUp) (nl_ParentIndex l) (nl_HwAddr l))));
  LinkDel ns link := mem_done (on_ns ns (λ n, set_links (List.filter (λ l, negb (nl_Index l =? nl_Index link)) (ns_links n)) n));
  LinkSetTxQLen ns link len := mem_done id;
  LinkSetHardwareAddr ns link hw := mem_done (on_ns ns (change_link (nl_Index link) (λ l, MkNLink (nl_Name l) (nl_Index l) (nl_Flags l) (nl_ParentIndex l) hw)));
  AddrAdd ns link n := mem_done (on_ns ns (λ x, set_addrs (ns_addrs x ++ [(nl_Index link, MkNAddr (net_ip n) n)]) x));
  RouteAdd ns r m :=
    if existsb (dst_matches r) (ns_routes (ns_of ns m)) then (Fail Exist, m)
    else (Ret (), on_ns ns (λ n, set_routes (ns_routes n ++ [r]) n) m);
  RouteDel ns r m :=
    match remove_first (λ r', (r_LinkIndex r' =? r_LinkIndex r) && dst_matches r r') (ns_routes (ns_of ns m)) with
    | Some (_, l) => (Ret (), on_ns ns (set_routes l) m)
    | None => (Fail (ErrOther "no such process"), m)
    end;
  RuleAdd ns r := mem_done (on_ns ns (λ n, set_rules (ns_rules n ++ [r]) n));
  RuleDel ns r := mem_done (on_ns ns (λ n, set_rules (List.filter (λ x, negb (x == r)) (ns_rules n)) n));
  NeighAdd ns x := mem_done (on_ns ns (λ n, set_neighs (ns_neighs n ++ [x]) n));
  NeighDel ns x := mem_done (on_ns ns (λ n, set_neighs (List.filter (λ y, negb (y == x)) (ns_neighs n)) n))
}.

Lemma remove_first_some {A} (p : A → bool) l x l' : remove_first p l = Some (x, l') → p x = true ∧ l ≡ₚ x :: l'.
Proof.
  revert l'. induction l as [|y l IH]; intros l' H; [done|]. cbn [remove_first] in H. destruct (p y) eqn:E; [by injection H as <- <-|].
  destruct (remove_first p l) as [[z l2]|]; [|done]. injection H as <- <-. destruct (IH _ eq_refl) as [? ->]. split; [done|]. constructor.
Qed.
Lemma dst_matches_spec r r' : dst_matches r r' = true →
  r_Table r' = r_Table r ∧ route_family (r_Dst r') (r_Gw r') = route_family (r_Dst r) (r_Gw r) ∧ same_dst (r_Dst r) (r_Dst r').
Proof.
  unfold dst_matches. intros [[Ht%Z.eqb_eq Hf%Z.eqb_eq]%andb_true_iff H]%andb_true_iff. split_and!; [done..|].
  apply orb_true_iff in H as [H|H%andb_true_iff]; [by left|by right].
Qed.
Lemma ns_of_on ns f m : ns_of ns (on_ns ns f m) = f (ns_of ns m).
Proof. by destruct ns. Qed.
Lemma ns_of_other ns ns' f m : ns' ≠ ns → ns_of ns' (on_ns ns f m) = ns_of ns' m.
Proof. by destruct ns, ns'. Qed.
Lemma on_ns_same {A} (g : NsState → A) ns ns' f m : (∀ n, g (f n) = g n) → g (ns_of ns' (on_ns ns f m)) = g (ns_of ns' m).
Proof. intros Hg. destruct ns, ns'; cbn; by rewrite ?Hg. Qed.

#[export] Instance mem_laws : KernelLaws Mem.
Proof.
  refine {| routes ns m := ns_routes (ns_of ns m); rules ns m := ns_rules (ns_of ns m); in_family := family_matches |}.
  - intros f r r' Hd Hg. unfold family_matches. by rewrite Hd, Hg.
  - intros ns f s l [= <-]. done.
  - intros ns f t s l [= <-]. apply Forall_forall. by intros r [[? _] _]%list_elem_of_filter.
  - intros ns r s s' H Hp. cbn in H. destruct (existsb _ _); [done|]. injection H as <-. exists r. split_and!; [done..| |done|].
    + reflexivity.
    + rewrite ns_of_on. cbn. by rewrite Permutation_app_comm.
  - intros ns r s e s' H. cbn in H. destruct (existsb _ _); [by injection H as _ <-|done].
  - intros ns r s s' H. cbn in H. destruct (existsb _ _) eqn:E; [|done]. apply existsb_exists in E as (r' & Hin & (Ht & _ & Hd)%dst_matches_spec).
    exists r'. split; [by apply list_elem_of_In|done].
  - intros ns r s o s' H. cbn in H. destruct (existsb _ _); injection H as _ <-; [done|]. split_and!; intros ns' **; [by rewrite ns_of_other|by apply (on_ns_same ns_rules)|].
    unfold LinkByName, mem_kernel. by rewrite (on_ns_same ns_links).
  - intros ns r s s' H _. cbn in H. destruct (remove_first _ _) as [[r' l]|] eqn:E; [|done]. injection H as <-.
    apply remove_first_some in E as [[Hl%Z.eqb_eq (Ht & Hf & Hd)%dst_matches_spec]%andb_true_iff Hp]. exists r'. split_and!; try done.
    + intros f. unfold family_matches. by rewrite Hf.
    + rewrite ns_of_on. exact Hp.
  - intros ns r s o s' H x Hx. cbn in H. destruct (remove_first _ _) as [[r' l]|] eqn:E; injection H as _ <-; [|by left].
    apply remove_first_some in E as [[_ (Ht & _ & Hd)%dst_matches_spec]%andb_true_iff Hp]. rewrite ns_of_on. cbn.
    rewrite Hp in Hx. apply elem_of_cons in Hx as [->|?]; auto.
  - intros ns r s o s' H. cbn in H. destruct (remove_first _ _) as [[r' l]|]; injection H as _ <-; [|done].
    split; intros ns' **; [by rewrite ns_of_other|by apply (on_ns_same ns_rules)].
  - intros ns r s s' [= <-]. exists r. split_and!; try done. rewrite ns_of_on. cbn. by rewrite Permutation_app_comm.
  - intros ns r s o s' [= _ <-]. split; intros ns'; [by apply (on_ns_same ns_routes)|]. intros name. unfold LinkByName, mem_kernel. by rewrite (on_ns_same ns_links).
Defined.

(** A Pod with eth0 and net1, whose main table has a default route through each. *)
Definition demo_net : Mem :=
  let v4 a b c d := [a; b; c; d] in
  MkMem (MkNs [MkNLink "lo" 1 9 0 []; MkNLink "eth0" 2 19 0 [2; 0; 0; 0; 0; 1]; MkNLink "net1" 3 19 0 [2; 0; 0; 0; 0; 2]]
    [(2, MkNAddr (v4 10 6 0 2) (MkIPNet (v4 10 6 0 2) (CIDRMask 16 4))); (3, MkNAddr (v4 10 7 0 2) (MkIPNet (v4 10 7 0 2) (CIDRMask 16 4)))]
    [MkNRoute 2 0 (Some (MkIPNet (v4 0 0 0 0) (CIDRMask 0 4))) nilIP (v4 10 6 0 1) RT_TABLE_MAIN 0 [];
     MkNRoute 2 253 (Some (MkIPNet (v4 10 6 0 0) (CIDRMask 16 4))) (v4 10 6 0 2) nilIP RT_TABLE_MAIN 0 [];
     MkNRoute 3 253 (Some (MkIPNet (v4 10 7 0 0) (CIDRMask 16 4))) (v4 10 7 0 2) nilIP RT_TABLE_MAIN 0 []]
    [] []) (MkNs [] [] [] [] []).
