(* ===== verification/Detection.v ===== *)
(** * pkg/networking/networking: conflict and gateway detection

    packet.go and ipam_detection.go, with the group of goroutines of pkg/errgroup: before a Pod gets
    an address, the plugin asks the network whether another host has it and whether the gateway
    answers, by ARP for IPv4 and by NDP for IPv6.  The sockets and the clock are a parameter, the
    class [NetIO]: a read ends with a packet, a timeout or another error, and a context is done once
    the clock has reached its deadline.  Durations are in nanoseconds. *)

From S2P Require Import Prelude NetIP NetIPFacts K8s Retry NetPrefix Convert Networking.
Local Open Scope Z_scope.
Local Open Scope go_scope.

Definition ErrIPConflict : error := ErrOther "ip conflict".
Definition ErrGatewayUnreachable : error := ErrOther "unreachable".
(** A [net.Error] whose [Timeout] is true, and the error of a context that is done. *)
Definition Timeout : error := ErrOther "i/o timeout".
Definition DeadlineExceeded : error := ErrOther "context deadline exceeded".

(** ** Packets *)

(** [htons] on 16 bits. *)
Definition htons (i : Z) : Z := Z.lor (Z.land (Z.shiftl i 8 mod 2 ^ 16) 65280) (Z.shiftr i 8).

Definition ETH_P_IP : Z := 2048.
Definition ETH_P_ARP : Z := 2054.
(** The payload that [SendARPReuqest] writes. *)
Definition arp_payload (hw : list Z) (srcIP dstIP : IP) : list Z :=
  be_split 2 1 ++ be_split 2 ETH_P_IP ++ [6] ++ [4] ++ be_split 2 1 ++ hw ++ To4 srcIP ++ replicate 6 255 ++ To4 dstIP.

Record SockaddrLinklayer := MkSockaddr { sa_Protocol : Z; sa_Ifindex : Z; sa_Hatype : Z; sa_Halen : Z; sa_Addr : list Z }.
Definition arp_sockaddr (ifindex : Z) : SockaddrLinklayer := MkSockaddr (htons ETH_P_ARP) ifindex 1 6 (replicate 8 255).

(** An ARP packet that was read: the operation and the address of the sender. *)
Record ArpPacket := MkArp { arp_Operation : Z; arp_SenderIP : IP }.
Definition OperationReply : Z := 2.

(** The messages of NDP. *)
Inductive ndp_option := LinkLayerAddress (addr : list Z) | OtherOption.
Record NeighborSolicitation := MkNS { ns_TargetAddress : Addr; ns_Options : list ndp_option }.
Inductive ndp_message := NeighborAdvertisement (target : Addr) (options : list ndp_option) | OtherMessage.

Class NetIO (S : Type) := {
  (* the hardware address of an interface of the Pod *)
  InterfaceByName : string → S → outcome (list Z);
  Socket : cmd S unit;
  Sendto : list Z → SockaddrLinklayer → cmd S unit;
  Dial : cmd S unit;
  SetReadDeadline : Z → cmd S unit;
  Read : cmd S ArpPacket;
  Listen : string → cmd S unit;
  ndp_SetReadDeadline : Z → cmd S unit;
  SolicitedNodeMulticast : Addr → outcome Addr;
  WriteTo : NeighborSolicitation → Addr → cmd S unit;
  ReadFrom : cmd S ndp_message;
  (* time.Now *)
  Now : S → Z;
  (* the thread of the goroutine enters a namespace *)
  Set_ns : netns → cmd S unit
}.

Section detect.
Context {S : Type} `{K : Kernel S} `{N : NetIO S}.

Definition SendARPReuqest (l : NLink) (srcIP dstIP : IP) : cmd S unit :=
  _ ← Socket; Sendto (arp_payload (nl_HwAddr l) srcIP dstIP) (arp_sockaddr (nl_Index l)).

(** Despite its name, a solicitation. *)
Definition SendUnsolicitedNeighborAdvertisement (dstIP : IP) (hw : list Z) : cmd S unit :=
  nDstIP ← lift (deref (ParseAddr (ip_string dstIP)));
  snm ← lift (SolicitedNodeMulticast nDstIP);
  WriteTo (MkNS nDstIP [LinkLayerAddress hw]) snm.

Definition announce_ip (l : NLink) (iface : string) (addr : IP) : cmd S unit :=
  if is4 addr then unless_err (λ _, true) (SendARPReuqest l addr addr)
  else
    hw ← read (InterfaceByName iface);
    _ ← Listen iface;
    unless_err (λ _, true) (SendUnsolicitedNeighborAdvertisement addr hw).
Definition AnnounceIPs (iface : string) (ips : list IP) : cmd S unit :=
  l ← read (LinkByName PodNS iface); each (announce_ip l iface) ips.

(** ** The detector *)

Record Detector := MkDetector {
  enableIPv4ConflictDetection : bool;
  enableIPv6ConflictDetection : bool;
  enableIPv4GatewayReachableDetection : bool;
  enableIPv6GatewayReachableDetection : bool;
  retries : nat;
  iface : string;
  timeout : Z;
  ip4 : IP;
  ip6 : IP;
  v4Gw : IP;
  v6Gw : IP
}.
Definition retryNum : nat := 3.
Definition timeOut : Z := 100 * 10 ^ 6.

(** [context.WithTimeout] makes a deadline, and the context is done when it has come. *)
Definition WithTimeout (d : Z) : cmd S Z := read (λ s, Ret (Now s + d)).
Definition ctx_done (ctx : Z) (s : S) : bool := ctx <=? Now s.

(** What a round of reads ends with: the answer that was waited for, silence until the deadline, or
    another error. *)
Inductive reading := Answered | Silent | Broken.

Definition is_answer (ip : IP) (p : ArpPacket) : bool := (arp_Operation p =? OperationReply) && ip_equal (arp_SenderIP p) ip.

(** The loop over [arpClient.Read] in the context [ctx]; [fuel] bounds the packets. *)
Fixpoint read_arp (fuel : nat) (ctx : Z) (ip : IP) : cmd S reading := λ s,
  match fuel with
  | O => (OutOfFuel, s)
  | Datatypes.S n =>
      if ctx_done ctx s then (Fail DeadlineExceeded, s)
      else
        match Read s with
        | (Ret p, s') => if is_answer ip p then (Ret Answered, s') else read_arp n ctx ip s'
        | (Fail e, s') => (Ret (if e == Timeout then Silent else Broken), s')
        | (Panic, s') => (Panic, s')
        | (OutOfFuel, s') => (OutOfFuel, s')
        end
  end.

(** One attempt of the loops over [retries]: [None] stands for continue. *)
Definition probe (fuel : nat) (d : Detector) (ctx : Z) (l : NLink) (src dst : IP) : cmd S (option reading) := λ s,
  match SetReadDeadline (Now s + timeout d) s with
  | (Fail _, s') => (Ret None, s')
  | (Ret _, s') =>
      match SendARPReuqest l src dst s' with
      | (Fail _, s'') => (Ret None, s'')
      | (Ret _, s'') => (r ← read_arp fuel ctx dst; mret match r with Broken => None | r => Some r end) s''
      | (Panic, s'') => (Panic, s'')
      | (OutOfFuel, s'') => (OutOfFuel, s'')
      end
  | (Panic, s') => (Panic, s')
  | (OutOfFuel, s') => (OutOfFuel, s')
  end.
Fixpoint probes (fuel n : nat) (d : Detector) (ctx : Z) (l : NLink) (src dst : IP) : cmd S reading :=
  match n with
  | O => lift (Fail (ErrOther "failed to detect after retries"))
  | Datatypes.S n => r ← probe fuel d ctx l src dst; match r with Some r => mret r | None => probes fuel n d ctx l src dst end
  end.

Definition detectIP4Conflicting (fuel : nat) (d : Detector) (l : NLink) : cmd S unit :=
  _ ← Dial;
  ctx ← WithTimeout (timeout d * 10);
  r ← probes fuel (retries d) d ctx l IPv4zero (ip4 d);
  match r with Answered => lift (Fail ErrIPConflict) | _ => mret () end.
Definition detectGateway4Reachable (fuel : nat) (d : Detector) (l : NLink) : cmd S unit :=
  _ ← Dial;
  ctx ← WithTimeout (timeout d * 5);
  r ← probes fuel (retries d) d ctx l (ip4 d) (v4Gw d);
  match r with Answered => mret () | _ => lift (Fail ErrGatewayUnreachable) end.

Definition ARPDetect (fuel : nat) (d : Detector) : cmd S unit :=
  l ← read (LinkByName PodNS (iface d));
  _ ← read (InterfaceByName (iface d));
  _ ← (if enableIPv4ConflictDetection d then detectIP4Conflicting fuel d l else mret ());
  if enableIPv4GatewayReachableDetection d then detectGateway4Reachable fuel d l else mret ().

(** *** NDP *)

Definition is_advertisement (ip : IP) (m : ndp_message) : bool :=
  match m with
  | NeighborAdvertisement target [LinkLayerAddress _] => (addr_string target == ip_string ip)
  | _ => false
  end.

(** The loop over [ndpClient.ReadFrom] ends with the answer or the deadline only; an error that is
    not the deadline is read over. *)
Fixpoint read_ndp (fuel : nat) (ip : IP) : cmd S reading := λ s,
  match fuel with
  | O => (OutOfFuel, s)
  | Datatypes.S n =>
      match ReadFrom s with
      | (Ret m, s') => if is_advertisement ip m then (Ret Answered, s') else read_ndp n ip s'
      | (Fail e, s') => if e == Timeout then (Ret Silent, s') else read_ndp n ip s'
      | (Panic, s') => (Panic, s')
      | (OutOfFuel, s') => (OutOfFuel, s')
      end
  end.

(** The attempts: only a failure to send is tried again, and the last such error is returned. *)
Fixpoint solicit (fuel n : nat) (ip : IP) (hw : list Z) (last : option error) : cmd S reading := λ s,
  match n with
  | O => (match last with Some e => Fail e | None => Ret Broken end, s)
  | Datatypes.S n =>
      match SendUnsolicitedNeighborAdvertisement ip hw s with
      | (Fail e, s') => solicit fuel n ip hw (Some e) s'
      | (Ret _, s') => read_ndp fuel ip s'
      | (Panic, s') => (Panic, s')
      | (OutOfFuel, s') => (OutOfFuel, s')
      end
  end.

Definition detectIP6Conflicting (fuel : nat) (d : Detector) (hw : list Z) : cmd S unit :=
  now ← read (λ s, Ret (Now s));
  _ ← unless_err (λ _, true) (ndp_SetReadDeadline (now + timeout d));
  r ← solicit fuel (retries d) (ip6 d) hw None;
  match r with Answered => lift (Fail ErrIPConflict) | _ => mret () end.
(** Falling out of the loop without an error, which needs no retries at all, is a success. *)
Definition detectGateway6Reachable (fuel : nat) (d : Detector) (hw : list Z) : cmd S unit :=
  now ← read (λ s, Ret (Now s));
  _ ← unless_err (λ _, true) (ndp_SetReadDeadline (now + timeout d));
  r ← solicit fuel (retries d) (v6Gw d) hw None;
  match r with Silent => lift (Fail ErrGatewayUnreachable) | _ => mret () end.

(** The link-local address may take a while to be ready, 10 s at most. *)
Fixpoint listen (fuel : nat) (ctx : Z) (iface : string) : cmd S unit := λ s,
  match fuel with
  | O => (OutOfFuel, s)
  | Datatypes.S n =>
      if ctx_done ctx s then (Fail (ErrOther "the state of the local link address is still not READY"), s)
      else match Listen iface s with (Fail _, s') => listen n ctx iface s' | r => r end
  end.
Definition NDPDetect (fuel : nat) (d : Detector) : cmd S unit :=
  hw ← read (InterfaceByName (iface d));
  ctx ← WithTimeout (10 * 10 ^ 9);
  _ ← listen fuel ctx (iface d);
  _ ← (if enableIPv6ConflictDetection d then detectIP6Conflicting fuel d hw else mret ());
  if enableIPv6GatewayReachableDetection d then detectGateway6Reachable fuel d hw else mret ().

(** *** The group *)

(** [Group.Go]: the function runs even where the namespace could not be entered; the first error of
    the group is kept. *)
Definition first_error (o : option error) (e : error) : option error := match o with Some e' => Some e' | None => Some e end.
Definition Go (f : cmd S unit) (err : option error) : cmd S (option error) := λ s,
  let '(err, s) := match Set_ns PodNS s with (Fail e, s') => (first_error err e, s') | (_, s') => (err, s') end in
  match f s with
  | (Ret _, s') => (Ret err, (Set_ns HostNS s').2)
  | (Fail e, s') => (Ret (first_error err e), (Set_ns HostNS s').2)
  | (Panic, s') => (Panic, s')
  | (OutOfFuel, s') => (OutOfFuel, s')
  end.
Fixpoint run_group (fs : list (cmd S unit)) (err : option error) : cmd S (option error) :=
  match fs with [] => mret err | f :: fs => err ← Go f err; run_group fs err end.
(** [Group.Wait] after the goroutines, in the order of the scheduler. *)
Definition Wait `{!Schedule} (fs : list (cmd S unit)) : cmd S unit :=
  err ← run_group (reorder fs) None; match err with Some e => lift (Fail e) | None => mret () end.

Definition new_detector (ifname : string) : Detector := MkDetector false false false false retryNum ifname timeOut nilIP nilIP nilIP nilIP.
Definition set_v4 (ip : IP) (c : IPConfig) (d : Detector) : Detector :=
  MkDetector (EnableIPConflictDetection c) (enableIPv6ConflictDetection d)
    (if Gateway c == EmptyString then enableIPv4GatewayReachableDetection d else EnableGatewayDetection c) (enableIPv6GatewayReachableDetection d)
    (retries d) (iface d) (timeout d) ip (ip6 d) (if Gateway c == EmptyString then v4Gw d else net_ParseIP (Gateway c)) (v6Gw d).
Definition set_v6 (ip : IP) (c : IPConfig) (d : Detector) : Detector :=
  MkDetector (enableIPv4ConflictDetection d) (EnableIPConflictDetection c)
    (enableIPv4GatewayReachableDetection d) (if Gateway c == EmptyString then enableIPv6GatewayReachableDetection d else EnableGatewayDetection c)
    (retries d) (iface d) (timeout d) (ip4 d) ip (v4Gw d) (if Gateway c == EmptyString then v6Gw d else net_ParseIP (Gateway c)).

(** The loop that fills the detector and starts the goroutines; they share the detector. *)
Inductive task := ARPTask | NDPTask.
Fixpoint start_tasks (configs : list IPConfig) (d : Detector) : outcome (Detector * list task) :=
  match configs with
  | [] => Ret (d, [])
  | c :: configs =>
      match net_ParseCIDR (Address c) with
      | None => Fail (ErrOther "failed to parse ipaddress")
      | Some (ip, _) =>
          let '(d, t) :=
            if Version c =? 4 then
              let d := set_v4 ip c d in (d, if enableIPv4ConflictDetection d || enableIPv4GatewayReachableDetection d then [ARPTask] else [])
            else if Version c =? 6 then
              let d := set_v6 ip c d in (d, if enableIPv6ConflictDetection d || enableIPv6GatewayReachableDetection d then [NDPTask] else [])
            else (d, []) in
          '(d, ts) ← start_tasks configs d;
          Ret (d, t ++ ts)
      end
  end.
Definition run_task (fuel : nat) (d : Detector) (t : task) : cmd S unit := match t with ARPTask => ARPDetect fuel d | NDPTask => NDPDetect fuel d end.

Definition to_detect (ifname : string) (c : IPConfig) : bool := (Nic c == ifname) && (EnableGatewayDetection c || EnableIPConflictDetection c).
(** The goroutines are run once the loop has filled the detector. *)
Definition DetectIPConflictAndGatewayReachable `{!Schedule} (fuel : nat) (ifname : string) (ipconfigs : list IPConfig) : cmd S unit :=
  let dectectIPs := List.filter (to_detect ifname) ipconfigs in
  if (length dectectIPs =? 0)%nat then mret ()
  else
    l ← read (LinkByName PodNS ifname);
    _ ← LinkSetUp PodNS l;
    '(d, tasks) ← lift (start_tasks dectectIPs (new_detector ifname));
    Wait (run_task fuel d <$> tasks).
End detect.

(** ** What the packets are *)

(** The layout of an ARP request on Ethernet (RFC 826), read back. *)
Definition arp_fields (l : list Z) : option (Z * list Z * list Z * list Z) :=
  if bool_decide (length l = 28%nat) && bool_decide (take 6 l = [0; 1; 8; 0; 6; 4]) then
    Some (be (take 2 (drop 6 l)), take 6 (drop 8 l), take 4 (drop 14 l), take 4 (drop 24 l))
  else None.
Theorem arp_payload_fields hw src dst : length hw = 6%nat → length (To4 src) = 4%nat → length (To4 dst) = 4%nat →
  arp_fields (arp_payload hw src dst) = Some (1, hw, To4 src, To4 dst).
Proof.
  unfold arp_payload. generalize (To4 src), (To4 dst). intros a b Hh Ha Hb.
  destruct hw as [|? [|? [|? [|? [|? [|? [|]]]]]]]; try discriminate Hh. destruct a as [|? [|? [|? [|? [|]]]]]; try discriminate Ha.
  destruct b as [|? [|? [|? [|? [|]]]]]; try discriminate Hb. reflexivity.
Qed.

(** [htons] swaps the two bytes, so it is its own inverse. *)
Theorem htons_involutive i : 0 ≤ i < 2 ^ 16 → htons (htons i) = i.
Proof.
  intros Hi. set (bytes := Z.of_nat <$> seq 0 256).
  assert (forallb (λ a, forallb (λ b, htons (htons (256 * a + b)) =? 256 * a + b) bytes) bytes = true) as Hall by (vm_compute; reflexivity).
  assert (∀ a, 0 ≤ a < 256 → In a bytes) as Hin.
  { intros a Ha. apply list_elem_of_In, list_elem_of_fmap. exists (Z.to_nat a). split; [lia|]. apply elem_of_seq. lia. }
  assert (0 ≤ i / 256 < 256 ∧ 0 ≤ i mod 256 < 256) as [H1 H2].
  { change (2 ^ 16) with 65536 in Hi. split; [split; [apply Z.div_pos; lia|apply Z.div_lt_upper_bound; lia]|by apply Z.mod_pos_bound]. }
  rewrite forallb_forall in Hall. specialize (Hall (i / 256) (Hin _ H1)). rewrite forallb_forall in Hall.
  specialize (Hall (i mod 256) (Hin _ H2)). apply Z.eqb_eq in Hall. by rewrite <- Z.div_mod in Hall by lia.
Qed.

(** ** What a detection leaves alone

    A relation that the calls on the network keep is kept by the whole detection. *)

Class NetFrame (S : Type) `{Kernel S} `{NetIO S} (R : S → S → Prop) := {
  frame_up : ∀ ns l, evolves R (LinkSetUp ns l);
  frame_socket : evolves R Socket;
  frame_send : ∀ b a, evolves R (Sendto b a);
  frame_dial : evolves R Dial;
  frame_deadline : ∀ t, evolves R (SetReadDeadline t);
  frame_read : evolves R Read;
  frame_listen : ∀ name, evolves R (Listen name);
  frame_ndp_deadline : ∀ t, evolves R (ndp_SetReadDeadline t);
  frame_write : ∀ m a, evolves R (WriteTo m a);
  frame_read_from : evolves R ReadFrom;
  frame_set_ns : ∀ ns, evolves R (Set_ns ns)
}.

Section frame.
Context {S : Type} `{K : Kernel S} `{N : NetIO S} (R : S → S → Prop) `{P : !PreOrder R} `{F : !NetFrame S R}.

(** A command that is continued according to its outcome. *)
Lemma evolves_then {A B} (m : cmd S A) (f : A → cmd S B) (g : error → cmd S B) : evolves R m → (∀ a, evolves R (f a)) → (∀ e, evolves R (g e)) →
  ∀ s, R s (match m s with (Ret a, s') => f a s' | (Fail e, s') => g e s' | (Panic, s') => (Panic, s') | (OutOfFuel, s') => (OutOfFuel, s') end).2.
Proof. intros Hm Hf Hg s. specialize (Hm s). destruct (m s) as [[a|e| |] s']; cbn in *; [| |done..]; etrans; try exact Hm; [apply Hf|apply Hg]. Qed.

Lemma SendARP_evolves l src dst : evolves R (SendARPReuqest l src dst).
Proof. apply evolves_bind; [done|apply frame_socket|intros _; apply frame_send]. Qed.
Lemma SendNS_evolves dst hw : evolves R (SendUnsolicitedNeighborAdvertisement dst hw).
Proof.
  apply evolves_bind; [done|by apply evolves_lift|]. intros a. apply evolves_bind; [done|by apply evolves_lift|]. intros b. apply frame_write.
Qed.
Lemma AnnounceIPs_evolves name ips : evolves R (AnnounceIPs name ips).
Proof.
  apply evolves_bind; [done|by apply evolves_read|]. intros l. apply evolves_each; [done|]. intros ip. apply evolves_if; [apply evolves_unless, SendARP_evolves|].
  apply evolves_bind; [done|by apply evolves_read|]. intros hw. apply evolves_bind; [done|apply frame_listen|intros _; apply evolves_unless, SendNS_evolves].
Qed.

Lemma read_arp_evolves fuel ctx ip : evolves R (read_arp fuel ctx ip).
Proof.
  induction fuel as [|n IH]; intros s; cbn [read_arp]; [done|]. destruct (ctx_done ctx s); [done|].
  apply (evolves_then Read (λ p s', if is_answer ip p then (Ret Answered, s') else read_arp n ctx ip s') (λ e s', (Ret (if e == Timeout then Silent else Broken), s'))).
  - apply frame_read.
  - intros p s1. by destruct (is_answer ip p).
  - by intros e s1.
Qed.
Lemma probe_evolves fuel d ctx l src dst : evolves R (probe fuel d ctx l src dst).
Proof.
  intros s. unfold probe.
  apply (evolves_then (SetReadDeadline (Now s + timeout d)) (λ _ s', match SendARPReuqest l src dst s' with
    | (Fail _, s'') => (Ret None, s'')
    | (Ret _, s'') => (r ← read_arp fuel ctx dst; mret match r with Broken => None | r => Some r end) s''
    | (Panic, s'') => (Panic, s'') | (OutOfFuel, s'') => (OutOfFuel, s'') end) (λ _ s', (Ret None, s'))).
  - apply frame_deadline.
  - intros _ s1. apply (evolves_then (SendARPReuqest l src dst) (λ _, r ← read_arp fuel ctx dst; mret match r with Broken => None | r => Some r end) (λ _ s', (Ret None, s'))).
    + apply SendARP_evolves.
    + intros _. apply evolves_bind; [done|apply read_arp_evolves|]. intros r. by apply evolves_ret.
    + by intros e s2.
  - by intros e s2.
Qed.
Lemma probes_evolves fuel n d ctx l src dst : evolves R (probes fuel n d ctx l src dst).
Proof.
  induction n as [|n IH]; cbn [probes]; [by apply evolves_lift|]. apply evolves_bind; [done|apply probe_evolves|]. intros [r|]; [by apply evolves_ret|done].
Qed.
Lemma read_ndp_evolves fuel ip : evolves R (read_ndp fuel ip).
Proof.
  induction fuel as [|n IH]; intros s; cbn [read_ndp]; [done|].
  apply (evolves_then ReadFrom (λ m s', if is_advertisement ip m then (Ret Answered, s') else read_ndp n ip s')
    (λ e s', if e == Timeout then (Ret Silent, s') else read_ndp n ip s')).
  - apply frame_read_from.
  - intros m s1. by destruct (is_advertisement ip m).
  - intros e s1. by destruct (bool_decide _).
Qed.
Lemma solicit_evolves fuel n ip hw last : evolves R (solicit fuel n ip hw last).
Proof.
  revert last. induction n as [|n IH]; intros last s; cbn [solicit]; [done|].
  apply (evolves_then (SendUnsolicitedNeighborAdvertisement ip hw) (λ _, read_ndp fuel ip) (λ e, solicit fuel n ip hw (Some e))).
  - apply SendNS_evolves.
  - intros _. apply read_ndp_evolves.
  - intros e. apply IH.
Qed.
Lemma listen_evolves fuel ctx name : evolves R (listen fuel ctx name).
Proof.
  induction fuel as [|n IH]; intros s; cbn [listen]; [done|]. destruct (ctx_done ctx s); [done|]. pose proof (frame_listen name s) as Hl.
  destruct (Listen name s) as [[]s1]; try done. etrans; [exact Hl|apply IH].
Qed.

Lemma arp_evolves fuel n d dt l src dst (k : reading → cmd S unit) :
  (∀ r, evolves R (k r)) → evolves R (_ ← Dial; ctx ← WithTimeout dt; r ← probes fuel n d ctx l src dst; k r).
Proof.
  intros Hk. apply evolves_bind; [done|apply frame_dial|]. intros _. apply evolves_bind; [done|by apply evolves_read|]. intros ctx.
  apply evolves_bind; [done|apply probes_evolves|done].
Qed.
Lemma ndp_evolves fuel n t ip hw (k : reading → cmd S unit) : (∀ r, evolves R (k r)) →
  evolves R (now ← read (λ s, Ret (Now s)); _ ← unless_err (λ _, true) (ndp_SetReadDeadline (now + t)); r ← solicit fuel n ip hw None; k r).
Proof.
  intros Hk. apply evolves_bind; [done|by apply evolves_read|]. intros now. apply evolves_bind; [done|apply evolves_unless, frame_ndp_deadline|]. intros _.
  apply evolves_bind; [done|apply solicit_evolves|done].
Qed.
Lemma conflict4_evolves fuel d l : evolves R (detectIP4Conflicting fuel d l).
Proof. apply arp_evolves. intros []; first [by apply evolves_ret|by apply evolves_lift]. Qed.
Lemma gateway4_evolves fuel d l : evolves R (detectGateway4Reachable fuel d l).
Proof. apply arp_evolves. intros []; first [by apply evolves_ret|by apply evolves_lift]. Qed.
Lemma conflict6_evolves fuel d hw : evolves R (detectIP6Conflicting fuel d hw).
Proof. apply ndp_evolves. intros []; first [by apply evolves_ret|by apply evolves_lift]. Qed.
Lemma gateway6_evolves fuel d hw : evolves R (detectGateway6Reachable fuel d hw).
Proof. apply ndp_evolves. intros []; first [by apply evolves_ret|by apply evolves_lift]. Qed.
Lemma if_evolves (b : bool) (m : cmd S unit) : evolves R m → evolves R (if b then m else mret ()).
Proof. intros Hm. apply evolves_if; [done|by apply evolves_ret]. Qed.

Lemma run_task_evolves fuel d t : evolves R (run_task fuel d t).
Proof.
  destruct t.
  - apply evolves_bind; [done|by apply evolves_read|]. intros l. apply evolves_bind; [done|by apply evolves_read|]. intros hw.
    apply evolves_bind; [done|apply if_evolves, conflict4_evolves|intros _; apply if_evolves, gateway4_evolves].
  - apply evolves_bind; [done|by apply evolves_read|]. intros hw. apply evolves_bind; [done|by apply evolves_read|]. intros ctx.
    apply evolves_bind; [done|apply listen_evolves|]. intros _.
    apply evolves_bind; [done|apply if_evolves, conflict6_evolves|intros _; apply if_evolves, gateway6_evolves].
Qed.
Lemma Go_evolves f err : evolves R f → evolves R (Go f err).
Proof.
  intros Hf s. unfold Go. pose proof (frame_set_ns PodNS s) as Hs.
  assert (∃ err1 s1, match Set_ns PodNS s with (Fail e, s') => (first_error err e, s') | (_, s') => (err, s') end = (err1, s1) ∧ R s s1) as (err1 & s1 & -> & H1).
  { destruct (Set_ns PodNS s) as [[]s1]; cbn in Hs; eauto. }
  specialize (Hf s1). destruct (f s1) as [[[]|e| |] s2]; cbn in *; (etrans; [exact H1|]); (etrans; [exact Hf|]); first [reflexivity|apply frame_set_ns].
Qed.
Lemma run_group_evolves fs err : Forall (evolves R) fs → evolves R (run_group fs err).
Proof.
  intros Hfs. revert err. induction Hfs as [|f fs Hf Hfs IH]; intros err; cbn [run_group]; [by apply evolves_ret|].
  apply evolves_bind; [done|by apply Go_evolves|]. intros err'. apply IH.
Qed.
Lemma Detect_evolves `{!Schedule} fuel name configs : evolves R (DetectIPConflictAndGatewayReachable fuel name configs).
Proof.
  unfold DetectIPConflictAndGatewayReachable. apply evolves_if; [by apply evolves_ret|]. apply evolves_bind; [done|by apply evolves_read|]. intros l.
  apply evolves_bind; [done|apply frame_up|]. intros _. apply evolves_bind; [done|by apply evolves_lift|]. intros [d ts].
  apply evolves_bind; [done| |intros [e|]; [by apply evolves_lift|by apply evolves_ret]].
  apply run_group_evolves. rewrite reorder_perm. apply Forall_fmap, Forall_true. intros t. apply run_task_evolves.
Qed.
End frame.

(** ** What a detection has seen *)

Section facts.
Context {S : Type} `{K : Kernel S} `{N : NetIO S}.

(** The calls on the network.  The states between the start and the end of a detection are linked by
    them: a state that keeps a log of its calls tells which they were. *)
Inductive net_step : S → S → Prop :=
  | calls_up ns l s : net_step s (LinkSetUp ns l s).2
  | calls_socket s : net_step s (Socket s).2
  | calls_send b a s : net_step s (Sendto b a s).2
  | calls_dial s : net_step s (Dial s).2
  | calls_deadline t s : net_step s (SetReadDeadline t s).2
  | calls_read s : net_step s (Read s).2
  | calls_listen name s : net_step s (Listen name s).2
  | calls_ndp_deadline t s : net_step s (ndp_SetReadDeadline t s).2
  | calls_write m a s : net_step s (WriteTo m a s).2
  | calls_read_from s : net_step s (ReadFrom s).2
  | calls_set_ns ns s : net_step s (Set_ns ns s).2.
Local Abbreviation path := (rtc net_step).
#[export] Instance net_frame : NetFrame S path.
Proof. split; intros; intros s; apply rtc_once; constructor. Qed.
Lemma path_of {A} (m : cmd S A) s o s' : evolves path m → m s = (o, s') → path s s'.
Proof. intros Hm E. specialize (Hm s). by rewrite E in Hm. Qed.

(** Packets that are read and are not the answer. *)
Inductive ignored (ip : IP) : S → S → Prop :=
  | ignored_none s : ignored ip s s
  | ignored_one s p s1 s2 : Read s = (Ret p, s1) → is_answer ip p = false → ignored ip s1 s2 → ignored ip s s2.
Inductive ndp_ignored (ip : IP) : S → S → Prop :=
  | ndp_none s : ndp_ignored ip s s
  | ndp_one s m s1 s2 : ReadFrom s = (Ret m, s1) → is_advertisement ip m = false → ndp_ignored ip s1 s2 → ndp_ignored ip s s2
  | ndp_error s e s1 s2 : ReadFrom s = (Fail e, s1) → e ≠ Timeout → ndp_ignored ip s1 s2 → ndp_ignored ip s s2.

Definition arp_end (ip : IP) (r : reading) (s s' : S) : Prop :=
  match r with
  | Answered => ∃ p, Read s = (Ret p, s') ∧ is_answer ip p = true
  | Silent => Read s = (Fail Timeout, s')
  | Broken => ∃ e, Read s = (Fail e, s') ∧ e ≠ Timeout
  end.
Definition ndp_end (ip : IP) (r : reading) (s s' : S) : Prop :=
  match r with
  | Answered => ∃ m, ReadFrom s = (Ret m, s') ∧ is_advertisement ip m = true
  | Silent => ReadFrom s = (Fail Timeout, s')
  | Broken => False
  end.

(** Between [s] and [s'], the address was asked for from a link, and what came first was an answer or
    the deadline. *)
Definition asked (l : NLink) (src dst : IP) (r : reading) (s s' : S) : Prop :=
  ∃ t t1 t2 t', path s t ∧ SendARPReuqest l src dst t = (Ret (), t1) ∧ ignored dst t1 t2 ∧ arp_end dst r t2 t' ∧ path t' s'.
Definition solicited (hw : list Z) (dst : IP) (r : reading) (s s' : S) : Prop :=
  ∃ t t1 t2 t', path s t ∧ SendUnsolicitedNeighborAdvertisement dst hw t = (Ret (), t1) ∧ ndp_ignored dst t1 t2 ∧ ndp_end dst r t2 t' ∧ path t' s'.
Lemma asked_within l src dst r s0 s s' s1 : path s0 s → asked l src dst r s s' → path s' s1 → asked l src dst r s0 s1.
Proof. intros H0 (t & t1 & t2 & t' & H1 & Hs & Hi & He & H2) H3. exists t, t1, t2, t'. split_and!; [by etrans|done..|by etrans]. Qed.
Lemma solicited_within hw dst r s0 s s' s1 : path s0 s → solicited hw dst r s s' → path s' s1 → solicited hw dst r s0 s1.
Proof. intros H0 (t & t1 & t2 & t' & H1 & Hs & Hi & He & H2) H3. exists t, t1, t2, t'. split_and!; [by etrans|done..|by etrans]. Qed.

Lemma read_arp_spec fuel ctx ip s r s' : read_arp fuel ctx ip s = (Ret r, s') → ∃ s1, ignored ip s s1 ∧ arp_end ip r s1 s'.
Proof.
  revert s. induction fuel as [|n IH]; intros s; [done|]. cbn [read_arp]. destruct (ctx_done ctx s) eqn:Hc; [done|].
  destruct (Read s) as [[p|e| |] s1] eqn:Hr; [| |done..].
  - destruct (is_answer ip p) eqn:Ha; [intros [= <- <-]; exists s; split; [constructor|by exists p]|].
    intros (s2 & Hi & He)%IH. exists s2. split; [by econstructor|done].
  - intros [= <- <-]. exists s. split; [constructor|]. case_bool_decide; [by subst e|by exists e].
Qed.
Lemma probe_spec fuel d ctx l src dst s r s' : probe fuel d ctx l src dst s = (Ret (Some r), s') → r ≠ Broken ∧ asked l src dst r s s'.
Proof.
  unfold probe. destruct (SetReadDeadline _ s) as [[[]|e| |] s1] eqn:Hd; try done. destruct (SendARPReuqest l src dst s1) as [[[]|e| |] s2] eqn:Hs; try done.
  assert (path s s1) as H1 by (eapply path_of; [|exact Hd]; apply frame_deadline).
  intros (r' & s3 & (s4 & Hi & He)%read_arp_spec & Hr)%cmd_bind_Ret. destruct r'; try done; injection Hr as <- <-; (split; [done|]); by exists s1, s2, s4, s3.
Qed.
Lemma probes_spec fuel n d ctx l src dst s r s' : probes fuel n d ctx l src dst s = (Ret r, s') → r ≠ Broken ∧ asked l src dst r s s'.
Proof.
  revert s. induction n as [|n IH]; intros s; cbn [probes]; [done|]. intros ([r'|] & s1 & Hp & Hr)%cmd_bind_Ret.
  - injection Hr as <- <-. by eapply probe_spec.
  - apply IH in Hr as [Hb Ha]. split; [done|]. eapply asked_within; [eapply path_of; [|exact Hp]; apply (probe_evolves path)|exact Ha|done].
Qed.
Lemma read_ndp_spec fuel ip s r s' : read_ndp fuel ip s = (Ret r, s') → r ≠ Broken ∧ ∃ s1, ndp_ignored ip s s1 ∧ ndp_end ip r s1 s'.
Proof.
  revert s. induction fuel as [|n IH]; intros s; [done|]. cbn [read_ndp]. destruct (ReadFrom s) as [[m|e| |] s1] eqn:Hr; [| |done..].
  - destruct (is_advertisement ip m) eqn:Ha; [intros [= <- <-]; split; [done|]; exists s; split; [constructor|by exists m]|].
    intros (Hb & s2 & Hi & He)%IH. split; [done|]. exists s2. split; [by eapply ndp_one|done].
  - case_bool_decide as Ee; [subst e; intros [= <- <-]; split; [done|]; exists s; by split; [constructor|]|].
    intros (Hb & s2 & Hi & He)%IH. split; [done|]. exists s2. split; [by eapply ndp_error|done].
Qed.
Lemma solicit_spec fuel n ip hw last s r s' : solicit fuel n ip hw last s = (Ret r, s') → (n ≠ 0%nat ∨ last ≠ None) → r ≠ Broken ∧ solicited hw ip r s s'.
Proof.
  revert last s. induction n as [|n IH]; intros last s; cbn [solicit]; [destruct last; [done|]; by intros _ [?|?]|].
  destruct (SendUnsolicitedNeighborAdvertisement ip hw s) as [[[]|e| |] s1] eqn:Hs; [| |done..].
  - intros (Hb & s2 & Hi & He)%read_ndp_spec _. split; [done|]. by exists s, s1, s2, s'.
  - intros Hr _. assert (r ≠ Broken ∧ solicited hw ip r s1 s') as [Hb Ha] by (eapply IH; [exact Hr|by right]).
    split; [done|]. eapply solicited_within; [eapply path_of; [|exact Hs]; apply (SendNS_evolves path)|exact Ha|done].
Qed.

(** What the four detections promise when they succeed. *)
Lemma conflict4_spec fuel d l s s' : detectIP4Conflicting fuel d l s = (Ret (), s') → asked l IPv4zero (ip4 d) Silent s s'.
Proof.
  intros ([] & s1 & Hd & (ctx & s2 & [_ ->]%read_Ret & (r & s3 & [Hb Ha]%probes_spec & Hr)%cmd_bind_Ret)%cmd_bind_Ret)%cmd_bind_Ret.
  destruct r; try done. injection Hr as <-. eapply asked_within; [eapply path_of; [|exact Hd]; apply frame_dial|exact Ha|done].
Qed.
Lemma gateway4_spec fuel d l s s' : detectGateway4Reachable fuel d l s = (Ret (), s') → asked l (ip4 d) (v4Gw d) Answered s s'.
Proof.
  intros ([] & s1 & Hd & (ctx & s2 & [_ ->]%read_Ret & (r & s3 & [Hb Ha]%probes_spec & Hr)%cmd_bind_Ret)%cmd_bind_Ret)%cmd_bind_Ret.
  destruct r; try done. injection Hr as <-. eapply asked_within; [eapply path_of; [|exact Hd]; apply frame_dial|exact Ha|done].
Qed.
Lemma ndp_deadline_path t s o s' : unless_err (λ _, true) (ndp_SetReadDeadline t) s = (o, s') → path s s'.
Proof. apply path_of, evolves_unless, frame_ndp_deadline. Qed.
Lemma conflict6_spec fuel d hw s s' : retries d ≠ 0%nat → detectIP6Conflicting fuel d hw s = (Ret (), s') → solicited hw (ip6 d) Silent s s'.
Proof.
  intros Hn (now & s0 & [_ ->]%read_Ret & ([] & s1 & Hd%ndp_deadline_path & (r & s2 & Hs & Hr)%cmd_bind_Ret)%cmd_bind_Ret)%cmd_bind_Ret.
  apply solicit_spec in Hs as [Hb Ha]; [|by left]. destruct r; try done. injection Hr as <-. by eapply solicited_within; [exact Hd|exact Ha|].
Qed.
Lemma gateway6_spec fuel d hw s s' : retries d ≠ 0%nat → detectGateway6Reachable fuel d hw s = (Ret (), s') → solicited hw (v6Gw d) Answered s s'.
Proof.
  intros Hn (now & s0 & [_ ->]%read_Ret & ([] & s1 & Hd%ndp_deadline_path & (r & s2 & Hs & Hr)%cmd_bind_Ret)%cmd_bind_Ret)%cmd_bind_Ret.
  apply solicit_spec in Hs as [Hb Ha]; [|by left]. destruct r; try done. injection Hr as <-. by eapply solicited_within; [exact Hd|exact Ha|].
Qed.

Lemma ARPDetect_spec fuel d s s' : ARPDetect fuel d s = (Ret (), s') → ∃ l, LinkByName PodNS (iface d) s = Ret l ∧
  (enableIPv4ConflictDetection d = true → asked l IPv4zero (ip4 d) Silent s s') ∧
  (enableIPv4GatewayReachableDetection d = true → asked l (ip4 d) (v4Gw d) Answered s s').
Proof.
  intros (l & s1 & [Hl ->]%read_Ret & (hw & s2 & [_ ->]%read_Ret & ([] & s3 & Hc & Hg)%cmd_bind_Ret)%cmd_bind_Ret)%cmd_bind_Ret. exists l. split; [done|].
  assert (path s s3) as H1 by (eapply path_of; [|exact Hc]; apply (if_evolves path), (conflict4_evolves path)).
  assert (path s3 s') as H2 by (eapply path_of; [|exact Hg]; apply (if_evolves path), (gateway4_evolves path)).
  split; intros Hf; rewrite Hf in *; [by eapply asked_within; [|by eapply conflict4_spec|]|by eapply asked_within; [exact H1|by eapply gateway4_spec|]].
Qed.
Lemma NDPDetect_spec fuel d s s' : retries d ≠ 0%nat → NDPDetect fuel d s = (Ret (), s') → ∃ hw, InterfaceByName (iface d) s = Ret hw ∧
  (enableIPv6ConflictDetection d = true → solicited hw (ip6 d) Silent s s') ∧
  (enableIPv6GatewayReachableDetection d = true → solicited hw (v6Gw d) Answered s s').
Proof.
  intros Hn (hw & s1 & [Hw ->]%read_Ret & (ctx & s2 & [_ ->]%read_Ret & ([] & s3 & Hl & ([] & s4 & Hc & Hg)%cmd_bind_Ret)%cmd_bind_Ret)%cmd_bind_Ret)%cmd_bind_Ret.
  exists hw. split; [done|]. assert (path s s3) as H0 by (eapply path_of; [|exact Hl]; apply (listen_evolves path)).
  assert (path s3 s4) as H1 by (eapply path_of; [|exact Hc]; apply (if_evolves path), (conflict6_evolves path)).
  assert (path s4 s') as H2 by (eapply path_of; [|exact Hg]; apply (if_evolves path), (gateway6_evolves path)).
  split; intros Hf; rewrite Hf in *; [by eapply solicited_within; [exact H0|by eapply conflict6_spec|]|].
  eapply solicited_within; [by etrans; [exact H0|exact H1]|by eapply gateway6_spec|done].
Qed.

(** A group without an error has run all its functions to their end. *)
Lemma run_group_None fs err s s' : Forall (evolves path) fs → run_group fs err s = (Ret None, s') →
  err = None ∧ ∀ f, f ∈ fs → ∃ s1 s2, path s s1 ∧ f s1 = (Ret (), s2) ∧ path s2 s'.
Proof.
  revert err s. induction fs as [|f fs IH]; intros err s; cbn [run_group].
  { intros _ [= -> _]. split; [done|]. by intros f ?%not_elem_of_nil. }
  intros [He Hev]%Forall_cons (err1 & s1 & Hg & Hrest)%cmd_bind_Ret.
  assert (path s1 s') as Hp1 by (eapply path_of; [|exact Hrest]; by apply (run_group_evolves path)). apply IH in Hrest as [-> Hrest]; [|done].
  assert (path s s1) as Hp0 by (eapply path_of; [|exact Hg]; by apply (Go_evolves path)). unfold Go in Hg. pose proof (frame_set_ns (R := path) PodNS s) as Hns.
  assert (∃ o t, path s t ∧ f t = (Ret (), o) ∧ path o s1 ∧ err = None) as (o & t & Hst & Hf & Hos & ->).
  { destruct (Set_ns PodNS s) as [[?|e0| |] t]; cbn in Hg, Hns; destruct (f t) as [[[]|e1| |] o] eqn:Hf; try done; injection Hg as Hg <-; destruct err; try done;
      (exists o, t; split_and!; [done..| |done]; apply (frame_set_ns (R := path) HostNS o)). }
  split; [done|]. intros g [->|Hg']%elem_of_cons; [exists t, o; split_and!; [done..|by etrans]|].
  destruct (Hrest g Hg') as (a & b & Ha & Hgf & Hb). exists a, b. split_and!; [by etrans; [exact Hp0|]|done..].
Qed.

(** The configuration of the address of a family in the detector. *)
Definition v4_of (c : IPConfig) (d : Detector) : Prop :=
  (∃ n, net_ParseCIDR (Address c) = Some (ip4 d, n)) ∧ enableIPv4ConflictDetection d = EnableIPConflictDetection c ∧
  (Gateway c ≠ EmptyString → enableIPv4GatewayReachableDetection d = EnableGatewayDetection c ∧ v4Gw d = net_ParseIP (Gateway c)).
Definition v6_of (c : IPConfig) (d : Detector) : Prop :=
  (∃ n, net_ParseCIDR (Address c) = Some (ip6 d, n)) ∧ enableIPv6ConflictDetection d = EnableIPConflictDetection c ∧
  (Gateway c ≠ EmptyString → enableIPv6GatewayReachableDetection d = EnableGatewayDetection c ∧ v6Gw d = net_ParseIP (Gateway c)).

Lemma start_tasks_same configs d d' ts : start_tasks configs d = Ret (d', ts) → retries d' = retries d ∧ iface d' = iface d.
Proof.
  revert d d' ts. induction configs as [|c configs IH]; intros d d' ts; cbn [start_tasks]; [by intros [= <- <-]|].
  destruct (net_ParseCIDR (Address c)) as [[ip n]|]; [|done]. destruct (Version c =? 4); [|destruct (Version c =? 6)];
    intros ([d1 ts1] & [H1 H2]%IH & [= <- <-])%bind_Ret; by rewrite H1, H2.
Qed.
(** Where no further address of the family comes, the detector stays. *)
Lemma start_tasks_v4 configs d d' ts c0 : start_tasks configs d = Ret (d', ts) → Forall (λ c, Version c ≠ 4) configs → v4_of c0 d → v4_of c0 d'.
Proof.
  revert d d' ts. induction configs as [|c configs IH]; intros d d' ts; cbn [start_tasks]; [by intros [= <- <-]|].
  destruct (net_ParseCIDR (Address c)) as [[ip n]|]; [|done]. intros H [Hc Hl]%Forall_cons Hv. rewrite (proj2 (Z.eqb_neq _ _) Hc) in H.
  destruct (Version c =? 6); apply bind_Ret in H as ([d1 ts1] & H1%IH & [= <- <-]); done.
Qed.
Lemma start_tasks_v6 configs d d' ts c0 : start_tasks configs d = Ret (d', ts) → Forall (λ c, Version c ≠ 6) configs → v6_of c0 d → v6_of c0 d'.
Proof.
  revert d d' ts. induction configs as [|c configs IH]; intros d d' ts; cbn [start_tasks]; [by intros [= <- <-]|].
  destruct (net_ParseCIDR (Address c)) as [[ip n]|]; [|done]. intros H [Hc Hl]%Forall_cons Hv. rewrite (proj2 (Z.eqb_neq _ _) Hc) in H.
  destruct (Version c =? 4); apply bind_Ret in H as ([d1 ts1] & H1%IH & [= <- <-]); done.
Qed.

(** Something is to be detected for the address. *)
Definition wanted (c : IPConfig) : Prop := EnableIPConflictDetection c = true ∨ (Gateway c ≠ EmptyString ∧ EnableGatewayDetection c = true).
Lemma wanted_set_v4 ip n c d : net_ParseCIDR (Address c) = Some (ip, n) → let d' := set_v4 ip c d in
  v4_of c d' ∧ (wanted c → enableIPv4ConflictDetection d' || enableIPv4GatewayReachableDetection d' = true).
Proof.
  intros Hp. cbn. split.
  - split; [by exists n|]. split; [done|]. intros Hg. cbn. by rewrite !bool_decide_false by done.
  - intros [->|[Hg ->]]; [done|]. rewrite bool_decide_false by done. apply orb_true_r.
Qed.
Lemma wanted_set_v6 ip n c d : net_ParseCIDR (Address c) = Some (ip, n) → let d' := set_v6 ip c d in
  v6_of c d' ∧ (wanted c → enableIPv6ConflictDetection d' || enableIPv6GatewayReachableDetection d' = true).
Proof.
  intros Hp. cbn. split.
  - split; [by exists n|]. split; [done|]. intros Hg. cbn. by rewrite !bool_decide_false by done.
  - intros [->|[Hg ->]]; [done|]. rewrite bool_decide_false by done. apply orb_true_r.
Qed.

Lemma start_tasks_spec configs d d' ts : start_tasks configs d = Ret (d', ts) → NoDup (Version <$> configs) →
  ∀ c, c ∈ configs → (∃ ip n, net_ParseCIDR (Address c) = Some (ip, n)) ∧
    (Version c = 4 → v4_of c d' ∧ (wanted c → ARPTask ∈ ts)) ∧ (Version c = 6 → v6_of c d' ∧ (wanted c → NDPTask ∈ ts)).
Proof.
  revert d d' ts. induction configs as [|c0 configs IH]; intros d d' ts; cbn [start_tasks]; [by intros _ _ c ?%not_elem_of_nil|].
  destruct (net_ParseCIDR (Address c0)) as [[ip n]|] eqn:Hp; [|done]. intros H [Hn Hnd]%NoDup_cons c Hc.
  assert (∀ v, Version c0 = v → Forall (λ c, Version c ≠ v) configs) as Hrest.
  { intros v Hv. apply Forall_forall. intros c' Hc' E. apply Hn. rewrite Hv, <- E. by apply list_elem_of_fmap_2. }
  set (dt := if Version c0 =? 4 then _ else _) in H. destruct dt as [d0 t] eqn:Edt. apply bind_Ret in H as ([d1 ts1] & H1 & [= <- <-]).
  apply elem_of_cons in Hc as [->|Hc].
  - split; [by exists ip, n|]. split; intros Hv.
    + unfold dt in Edt. rewrite Hv in Edt. cbn in Edt. injection Edt as <- <-. destruct (wanted_set_v4 ip n c0 d Hp) as [Ho Hw].
      split; [by eapply start_tasks_v4; [exact H1|apply Hrest|]|]. intros Hx. apply elem_of_app. left. specialize (Hw Hx). cbn in Hw. rewrite Hw. by left.
    + unfold dt in Edt. rewrite Hv in Edt. cbn in Edt. injection Edt as <- <-. destruct (wanted_set_v6 ip n c0 d Hp) as [Ho Hw].
      split; [by eapply start_tasks_v6; [exact H1|apply Hrest|]|]. intros Hx. apply elem_of_app. left. specialize (Hw Hx). cbn in Hw. rewrite Hw. by left.
  - destruct (IH _ _ _ H1 Hnd c Hc) as (Hpc & H4 & H6). split; [done|].
    split; intros Hv; [destruct (H4 Hv) as [? Hw]|destruct (H6 Hv) as [? Hw]]; (split; [done|]); intros Hx; apply elem_of_app; right; by apply Hw.
Qed.

(** What was seen for an address between [s] and [s'], on the interface. *)
Definition seen4 (nic : string) (src dst : IP) (r : reading) (s s' : S) : Prop :=
  ∃ l t t', path s t ∧ LinkByName PodNS nic t = Ret l ∧ asked l src dst r t t' ∧ path t' s'.
Definition seen6 (nic : string) (dst : IP) (r : reading) (s s' : S) : Prop :=
  ∃ hw t t', path s t ∧ InterfaceByName nic t = Ret hw ∧ solicited hw dst r t t' ∧ path t' s'.
Definition seen (nic : string) (c : IPConfig) (s s' : S) : Prop :=
  ∃ ip n, net_ParseCIDR (Address c) = Some (ip, n) ∧
    (Version c = 4 → (EnableIPConflictDetection c = true → seen4 nic IPv4zero ip Silent s s') ∧
       (EnableGatewayDetection c = true → Gateway c ≠ EmptyString → seen4 nic ip (net_ParseIP (Gateway c)) Answered s s')) ∧
    (Version c = 6 → (EnableIPConflictDetection c = true → seen6 nic ip Silent s s') ∧
       (EnableGatewayDetection c = true → Gateway c ≠ EmptyString → seen6 nic (net_ParseIP (Gateway c)) Answered s s')).

(** The tasks that are run see what the detector asks for. *)
Lemma arp_task_sees fuel d s s1 s2 s' : path s s1 → run_task fuel d ARPTask s1 = (Ret (), s2) → path s2 s' →
  (enableIPv4ConflictDetection d = true → seen4 (iface d) IPv4zero (ip4 d) Silent s s') ∧
  (enableIPv4GatewayReachableDetection d = true → seen4 (iface d) (ip4 d) (v4Gw d) Answered s s').
Proof. intros H1 (l & Hl & Hc & Hg)%ARPDetect_spec H2. split; intros Hf; exists l, s1, s2; auto. Qed.
Lemma ndp_task_sees fuel d s s1 s2 s' : retries d ≠ 0%nat → path s s1 → run_task fuel d NDPTask s1 = (Ret (), s2) → path s2 s' →
  (enableIPv6ConflictDetection d = true → seen6 (iface d) (ip6 d) Silent s s') ∧
  (enableIPv6GatewayReachableDetection d = true → seen6 (iface d) (v6Gw d) Answered s s').
Proof. intros Hn H1 (l & Hl & Hc & Hg)%NDPDetect_spec H2; [|done]. split; intros Hf; exists l, s1, s2; auto. Qed.

Lemma detection_sees `{!Schedule} fuel nic configs s s' : NoDup (Version <$> List.filter (to_detect nic) configs) →
  DetectIPConflictAndGatewayReachable fuel nic configs s = (Ret (), s') → ∀ c, c ∈ configs → to_detect nic c = true → seen nic c s s'.
Proof.
  unfold DetectIPConflictAndGatewayReachable. set (cs := List.filter (to_detect nic) configs). intros Hnd Hd c Hc Ht.
  assert (c ∈ cs) as Hin by (apply list_elem_of_In, List.filter_In; split; [by apply list_elem_of_In|done]).
  destruct (length cs =? 0)%nat eqn:Hl; [apply Nat.eqb_eq, nil_length_inv in Hl; rewrite Hl in Hin; by apply not_elem_of_nil in Hin|].
  apply cmd_bind_Ret in Hd as (l & s1 & [_ ->]%read_Ret & ([] & s2 & Hup & ([d ts] & s3 & [Hst ->]%lift_Ret & (err & s4 & Hg & He)%cmd_bind_Ret)%cmd_bind_Ret)%cmd_bind_Ret).
  destruct err as [e|]; [done|]. injection He as ->. apply run_group_None in Hg as [_ Hrun];
    [|rewrite reorder_perm; apply Forall_fmap, Forall_true; intros t; apply (run_task_evolves path)].
  destruct (start_tasks_same _ _ _ _ Hst) as [Er Ei]. assert (retries d ≠ 0%nat) as Hr by by rewrite Er.
  assert (path s s2) as Hp2 by (eapply path_of; [|exact Hup]; apply frame_up).
  assert (∀ t, t ∈ ts → ∃ a b, path s a ∧ run_task fuel d t a = (Ret (), b) ∧ path b s') as Htask.
  { intros t Hin'. destruct (Hrun (run_task fuel d t)) as (a & b & Ha & Hf & Hb); [rewrite reorder_perm; by apply list_elem_of_fmap_2|]. exists a, b. split_and!; [by etrans|done..]. }
  destruct (start_tasks_spec _ _ _ _ Hst Hnd c Hin) as ((ip & n & Hp) & H4 & H6). exists ip, n. split; [done|]. split; intros Hv.
  - destruct (H4 Hv) as [([n' Ho] & Hcf & Hgw) Hw]. rewrite Hp in Ho. injection Ho as Eip _. split.
    + intros Hx. destruct (Htask _ (Hw (or_introl Hx))) as (a & b & Ha & Hf & Hb). destruct (arp_task_sees _ _ _ _ _ _ Ha Hf Hb) as [Hc4 _]. rewrite Ei in Hc4. rewrite Eip. apply Hc4. by rewrite Hcf.
    + intros Hx Hg. destruct (Htask _ (Hw (or_intror (conj Hg Hx)))) as (a & b & Ha & Hf & Hb). destruct (arp_task_sees _ _ _ _ _ _ Ha Hf Hb) as [_ Hg4]. rewrite Ei in Hg4.
      destruct (Hgw Hg) as [E1 E2]. rewrite Eip, <- E2. apply Hg4. by rewrite E1.
  - destruct (H6 Hv) as [([n' Ho] & Hcf & Hgw) Hw]. rewrite Hp in Ho. injection Ho as Eip _. split.
    + intros Hx. destruct (Htask _ (Hw (or_introl Hx))) as (a & b & Ha & Hf & Hb). destruct (ndp_task_sees _ _ _ _ _ _ Hr Ha Hf Hb) as [Hc6 _]. rewrite Ei in Hc6. rewrite Eip. apply Hc6. by rewrite Hcf.
    + intros Hx Hg. destruct (Htask _ (Hw (or_intror (conj Hg Hx)))) as (a & b & Ha & Hf & Hb). destruct (ndp_task_sees _ _ _ _ _ _ Hr Ha Hf Hb) as [_ Hg6]. rewrite Ei in Hg6.
      destruct (Hgw Hg) as [E1 E2]. rewrite <- E2. apply Hg6. by rewrite E1.
Qed.
End facts.

(** ** The end of a detection *)

Definition returns {S A} (m : cmd S A) : Prop := ∀ s, (m s).1 ≠ OutOfFuel.
Lemma returns_ret {S A} (a : A) : returns (mret a : cmd S A).
Proof. done. Qed.
Lemma returns_lift {S A} (o : outcome A) : o ≠ OutOfFuel → returns (lift o : cmd S A).
Proof. intros H s. exact H. Qed.
Lemma returns_read {S A} (f : S → outcome A) : (∀ s, f s ≠ OutOfFuel) → returns (read f).
Proof. intros H s. exact (H s). Qed.
Lemma returns_bind {S A B} (m : cmd S A) (f : A → cmd S B) : returns m → (∀ a, returns (f a)) → returns (m ≫= f).
Proof. intros Hm Hf s. specialize (Hm s). unfold mbind, cmd_bind. destruct (m s) as [[a|e| |] s']; cbn in *; [apply Hf|done..]. Qed.
Lemma returns_if {S A} (b : bool) (m n : cmd S A) : returns m → returns n → returns (if b then m else n).
Proof. by destruct b. Qed.
Create HintDb returns.
#[export] Hint Resolve returns_ret returns_lift returns_read returns_bind returns_if : returns.

(** What is known of the sockets and of time: a read on a socket that has a deadline returns, one on a
    socket without it may block for ever; reading a packet takes its time, at least [tick], and no
    call turns the clock back; the other calls return. *)
Class Timely (S : Type) `{Kernel S} `{NetIO S} := {
  tick : Z;
  tick_pos : 0 < tick;
  has_deadline : S → Prop;
  deadline_set : ∀ t s s', SetReadDeadline t s = (Ret (), s') → has_deadline s';
  deadline_socket : ∀ s, has_deadline s → has_deadline (Socket s).2;
  deadline_send : ∀ b a s, has_deadline s → has_deadline (Sendto b a s).2;
  deadline_read : ∀ s, has_deadline s → has_deadline (Read s).2;
  read_returns : ∀ s, has_deadline s → (Read s).1 ≠ OutOfFuel;
  read_takes : ∀ s p s', Read s = (Ret p, s') → Now s + tick ≤ Now s';
  clock_read : ∀ s, Now s ≤ Now (Read s).2;
  clock_deadline : ∀ t s, Now s ≤ Now (SetReadDeadline t s).2;
  clock_socket : ∀ s, Now s ≤ Now (Socket s).2;
  clock_send : ∀ b a s, Now s ≤ Now (Sendto b a s).2;
  link_returns : ∀ ns name s, LinkByName ns name s ≠ OutOfFuel;
  interface_returns : ∀ name s, InterfaceByName name s ≠ OutOfFuel;
  socket_returns : returns Socket;
  send_returns : ∀ b a, returns (Sendto b a);
  dial_returns : returns Dial;
  deadline_returns : ∀ t, returns (SetReadDeadline t)
}.

Section ends.
Context {S : Type} `{K : Kernel S} `{N : NetIO S} `{T : !Timely S}.

(** Enough fuel for the packets that fit into the time up to a deadline. *)
Definition enough (fuel : nat) (d : Z) : Prop := d ≤ tick * (Z.of_nat fuel - 1) ∧ (1 ≤ fuel)%nat.

Lemma read_arp_returns fuel ctx ip s : has_deadline s → enough fuel (ctx - Now s) → (read_arp fuel ctx ip s).1 ≠ OutOfFuel.
Proof.
  unfold enough. revert s. induction fuel as [|n IH]; intros s Hd [Hn H1]; [lia|]. cbn [read_arp]. unfold ctx_done. destruct (ctx <=? Now s) eqn:Hc; [done|].
  apply Z.leb_gt in Hc. pose proof (read_returns s Hd) as Hr. pose proof (deadline_read s Hd) as Hd'. destruct (Read s) as [[p|e| |] s1] eqn:E; try done.
  destruct (is_answer ip p); [done|]. apply IH; [done|]. pose proof (read_takes _ _ _ E). pose proof tick_pos.
  rewrite Nat2Z.inj_succ in Hn. split; [nia|]. destruct n; [lia|lia].
Qed.
Lemma read_arp_clock fuel ctx ip s : Now s ≤ Now (read_arp fuel ctx ip s).2.
Proof.
  revert s. induction fuel as [|n IH]; intros s; cbn [read_arp]; [cbn; lia|]. destruct (ctx_done ctx s); [cbn; lia|]. pose proof (clock_read s) as Hr.
  destruct (Read s) as [[p|e| |] s1]; cbn in *; try lia. destruct (is_answer ip p); cbn; [lia|]. specialize (IH s1). lia.
Qed.
Lemma SendARP_returns l src dst : returns (SendARPReuqest l src dst).
Proof. apply returns_bind; [apply socket_returns|intros _; apply send_returns]. Qed.
Lemma SendARP_deadline l src dst s : has_deadline s → has_deadline (SendARPReuqest l src dst s).2 ∧ Now s ≤ Now (SendARPReuqest l src dst s).2.
Proof.
  intros Hd. unfold SendARPReuqest, mbind, cmd_bind. pose proof (deadline_socket s Hd) as H1. pose proof (clock_socket s) as H2.
  destruct (Socket s) as [[[]|e| |] s1]; cbn in *; try done. split; [by apply deadline_send|]. etrans; [exact H2|apply clock_send].
Qed.
(** An attempt returns, and leaves no more time than there was. *)
Lemma probe_returns fuel d ctx l src dst s : enough fuel (ctx - Now s) →
  (probe fuel d ctx l src dst s).1 ≠ OutOfFuel ∧ Now s ≤ Now (probe fuel d ctx l src dst s).2.
Proof.
  intros Hf. unfold probe. pose proof (deadline_returns (Now s + timeout d) s) as Hd. pose proof (deadline_set (Now s + timeout d) s) as Ha. pose proof (clock_deadline (Now s + timeout d) s) as Hc.
  destruct (SetReadDeadline _ s) as [[[]|e| |] s1]; cbn in *; try done. specialize (Ha s1 eq_refl).
  pose proof (SendARP_returns l src dst s1) as Hs. pose proof (SendARP_deadline l src dst s1 Ha) as [Ha2 Hc2]. destruct (SendARPReuqest l src dst s1) as [[[]|e| |] s2]; cbn in *; try (split; [done|lia]).
  assert (enough fuel (ctx - Now s2)) as Hf2 by (unfold enough in *; lia). pose proof (read_arp_returns fuel ctx dst s2 Ha2 Hf2) as Hr. pose proof (read_arp_clock fuel ctx dst s2) as Hc3.
  unfold mbind, cmd_bind. destruct (read_arp fuel ctx dst s2) as [[r|e| |] s3]; cbn in *; (split; [done|lia]).
Qed.
Lemma probes_returns fuel n d ctx l src dst s : enough fuel (ctx - Now s) → (probes fuel n d ctx l src dst s).1 ≠ OutOfFuel.
Proof.
  revert s. induction n as [|n IH]; intros s Hf; cbn [probes]; [done|]. pose proof (probe_returns fuel d ctx l src dst s Hf) as [Hp Hc]. unfold mbind, cmd_bind.
  destruct (probe fuel d ctx l src dst s) as [[[r|]|e| |] s1]; try done. apply IH. cbn in Hc. unfold enough in *. lia.
Qed.
Lemma arp_returns fuel d dt l src dst (k : reading → cmd S unit) : enough fuel dt → (∀ r, returns (k r)) →
  returns (_ ← Dial; ctx ← WithTimeout dt; r ← probes fuel (retries d) d ctx l src dst; k r).
Proof.
  intros Hf Hk. apply returns_bind; [apply dial_returns|]. intros _ s. unfold WithTimeout, read, mbind, cmd_bind.
  pose proof (probes_returns fuel (retries d) d (Now s + dt) l src dst s) as Hp.
  replace (Now s + dt - Now s) with dt in Hp by lia. specialize (Hp Hf). destruct (probes _ _ _ _ _ _ _ s) as [[r|e| |] s1]; try done. apply Hk.
Qed.

(** C34: the detection for an IPv4 address ends, whatever answers and however often: a read returns
    because each attempt has set the deadline of the socket; foreign packets cannot keep the loop
    going since it looks at its context, whose time (ten or five timeouts) is used up by them; and
    after [retries] attempts it gives up.  The fuel covers the packets that fit into the context at
    one per [tick] at most. *)
Theorem arp_detection_ends fuel d s : 0 ≤ timeout d → timeout d * 10 ≤ tick * (Z.of_nat fuel - 1) → (ARPDetect fuel d s).1 ≠ OutOfFuel.
Proof.
  intros Ht Hf. revert s. change (returns (ARPDetect fuel d)). pose proof tick_pos as Hpos.
  assert (enough fuel (timeout d * 10) ∧ enough fuel (timeout d * 5)) as [H10 H5] by (unfold enough; nia).
  apply returns_bind; [apply returns_read, link_returns|]. intros l. apply returns_bind; [apply returns_read, interface_returns|]. intros hw.
  apply returns_bind; [|intros _]; (apply returns_if; [|auto with returns]); (apply arp_returns; [done|]); intros []; auto with returns; by apply returns_lift.
Qed.

(** An error of NDP that comes again keeps the detection for IPv6 reading for ever. *)
Theorem ndp_never_ends ip : (∀ s, ∃ e s', ReadFrom s = (Fail e, s') ∧ e ≠ Timeout) → ∀ fuel s, (read_ndp fuel ip s).1 = OutOfFuel.
Proof.
  intros He fuel. induction fuel as [|n IH]; intros s; [done|]. cbn [read_ndp]. destruct (He s) as (e & s' & -> & Hn). by rewrite bool_decide_false.
Qed.

(** A goroutine runs in the namespace of the node if it cannot enter that of the Pod; its error is
    reported, but what it does is done. *)
Theorem group_runs_anyway (f : cmd S unit) s e s1 s2 : Set_ns PodNS s = (Fail e, s1) → f s1 = (Ret (), s2) → ∃ s3, Go f None s = (Ret (Some e), s3).
Proof. intros H1 H2. unfold Go. rewrite H1, H2. eauto. Qed.
End ends.

(** ** A silent network

    Everything that is sent is lost, and every read ends at its deadline. *)
#[export] Instance silent_network : NetIO Mem := {
  InterfaceByName name m := l ← LinkByName PodNS name m; Ret (nl_HwAddr l);
  Socket := mret ();
  Sendto _ _ := mret ();
  Dial := mret ();
  SetReadDeadline _ := mret ();
  Read := lift (Fail Timeout);
  Listen _ := mret ();
  ndp_SetReadDeadline _ := mret ();
  SolicitedNodeMulticast a := if Is6 a then Ret a else Fail (ErrOther "not an IPv6 address");
  WriteTo _ _ := mret ();
  ReadFrom := lift (Fail Timeout);
  Now _ := 0;
  Set_ns _ := mret ()
}.

(** ** A flooded network

    Every read brings a foreign request after the time of a read deadline; the neighbours of the node
    count them. *)
Definition flood_network : NetIO Mem := {|
  InterfaceByName name m := l ← LinkByName PodNS name m; Ret (nl_HwAddr l);
  Socket := mret ();
  Sendto _ _ := mret ();
  Dial := mret ();
  SetReadDeadline _ := mret ();
  Read m := (Ret (MkArp 1 [10; 7; 0; 9]), on_ns HostNS (λ n, set_neighs (MkNeigh 3 [10; 7; 0; 9] [] :: ns_neighs n) n) m);
  Listen _ := mret ();
  ndp_SetReadDeadline _ := mret ();
  SolicitedNodeMulticast a := Ret a;
  WriteTo _ _ := mret ();
  ReadFrom := lift (Fail Timeout);
  Now m := timeOut * Z.of_nat (length (ns_neighs (mem_host m)));
  Set_ns _ := mret ()
|}.
Definition flood_timely : Timely (H0 := flood_network) Mem.
Proof.
  refine {| tick := timeOut; has_deadline _ := True |}; try done; try (intros; cbn; lia).
  - intros s p s' Hr. cbn [Read flood_network] in Hr. injection Hr as <- <-. cbn [Now flood_network on_ns mem_host set_neighs ns_neighs length]. lia.
  - intros s. cbn [Now Read snd flood_network on_ns mem_host set_neighs ns_neighs length]. unfold timeOut. lia.
  - intros ns name s. cbn. by destruct (List.find _ _).
  - intros name s. cbn. by destruct (List.find _ _).
Defined.

Lemma arp_detection_ends_witness :
  let d := set_v4 [10; 7; 0; 2] (MkIPConfig "10.7.0.2/16" true true "10.7.0.1" "" "" "net1" 4 0) (new_detector "net1") in
  (ARPDetect (N := flood_network) 11 d demo_net).1 ≠ OutOfFuel ∧ (ARPDetect (N := flood_network) 11 d demo_net).1 = Fail DeadlineExceeded ∧
  (ARPDetect 1 d demo_net).1 = Fail ErrGatewayUnreachable.
Proof.
  intros d. split; [|split; vm_compute; reflexivity].
  apply (arp_detection_ends (T := flood_timely) 11 d demo_net); vm_compute; discriminate.
Defined.
