(* ===== verification/CoordinatorPlugin.v ===== *)
(** * cmd/coordinator: the coordinator plugin

    utils.go, command_add.go and command_del.go of cmd/coordinator/cmd, and the kernel settings of
    pkg/networking/sysctl that they use.  The plugin is called once per interface of a Pod; it tunes
    the routes, rules and neighbours of the two namespaces so that the Pod reaches the cluster and
    its node, and the node the Pod.  The [coordinator] is passed along; the namespaces are those of
    [Networking], and what else the plugin calls is the class [PluginHost]. *)

From S2P Require Import Prelude NetIP NetIPFacts K8s Retry Selector NetPrefix Coordinator CoordinatorConf Networking Detection.
Local Open Scope Z_scope.
Local Open Scope go_scope.

(** The error of [ns.GetNS] where the path is gone. *)
Definition NSPathNotExist : error := ErrOther "no such netns path".

(** What the plugin calls: the CNI library, the agent, the veth pairs of the CNI plugins, iptables,
    and the files of /proc/sys. *)
Class PluginHost (S : Type) := {
  LoadArgs : string → outcome (string * string);
  decode_conf : string → option Config;
  parse_prev : string → bool;
  GetResult : string → outcome unit;
  PrintResult : string → cmd S unit;
  GetCoordinatorConfig : string → string → S → outcome APIConfig;
  SetupFileLogging : LogOptions → cmd S unit;
  GetNS : string → S → outcome unit;
  GetCurrentNS : S → outcome unit;
  GenerateRandMAC : cmd S (list Z);
  (* the name of the end in the Pod *)
  SetupVethWithName : string → string → Z → string → cmd S string;
  (* the address family of the tool, the table, the chain and the rule *)
  EnsureRule : Z → string → string → list string → cmd S unit;
  Stat : netns → string → S → outcome unit;
  Sysctl : netns → string → string → cmd S unit
}.

Record coordinator := MkCoordinator {
  firstInvoke : bool;
  ipFamily : Z;
  currentRuleTable : Z;
  hostRuleTable : Z;
  tuneMode : string;
  hostVethName : string;
  podVethName : string;
  vethLinkAddress : string;
  currentInterface : string;
  vethMTU : Z;
  v4HijackRouteGw : IP;
  v6HijackRouteGw : IP;
  HijackCIDR : list string;
  Routes : list Route;
  hostVethHwAddress : list Z;
  podVethHwAddress : list Z;
  currentAddress : list NAddr;
  v4PodOverlayNicAddr : option IPNet;
  v6PodOverlayNicAddr : option IPNet;
  hostIPRouteForPod : list IP
}.

(** The assignments of the code. *)
Definition set_family (f : Z) (c : coordinator) : coordinator :=
  MkCoordinator (firstInvoke c) f (currentRuleTable c) (hostRuleTable c) (tuneMode c) (hostVethName c) (podVethName c) (vethLinkAddress c)
    (currentInterface c) (vethMTU c) (v4HijackRouteGw c) (v6HijackRouteGw c) (HijackCIDR c) (Routes c) (hostVethHwAddress c) (podVethHwAddress c)
    (currentAddress c) (v4PodOverlayNicAddr c) (v6PodOverlayNicAddr c) (hostIPRouteForPod c).
Definition set_mode (m : string) (c : coordinator) : coordinator :=
  MkCoordinator (firstInvoke c) (ipFamily c) (currentRuleTable c) (hostRuleTable c) m (hostVethName c) (podVethName c) (vethLinkAddress c)
    (currentInterface c) (vethMTU c) (v4HijackRouteGw c) (v6HijackRouteGw c) (HijackCIDR c) (Routes c) (hostVethHwAddress c) (podVethHwAddress c)
    (currentAddress c) (v4PodOverlayNicAddr c) (v6PodOverlayNicAddr c) (hostIPRouteForPod c).
Definition set_first (b : bool) (table : Z) (c : coordinator) : coordinator :=
  MkCoordinator b (ipFamily c) table (hostRuleTable c) (tuneMode c) (hostVethName c) (podVethName c) (vethLinkAddress c)
    (currentInterface c) (vethMTU c) (v4HijackRouteGw c) (v6HijackRouteGw c) (HijackCIDR c) (Routes c) (hostVethHwAddress c) (podVethHwAddress c)
    (currentAddress c) (v4PodOverlayNicAddr c) (v6PodOverlayNicAddr c) (hostIPRouteForPod c).
Definition set_veth (pod host : string) (c : coordinator) : coordinator :=
  MkCoordinator (firstInvoke c) (ipFamily c) (currentRuleTable c) (hostRuleTable c) (tuneMode c) host pod (vethLinkAddress c)
    (currentInterface c) (vethMTU c) (v4HijackRouteGw c) (v6HijackRouteGw c) (HijackCIDR c) (Routes c) (hostVethHwAddress c) (podVethHwAddress c)
    (currentAddress c) (v4PodOverlayNicAddr c) (v6PodOverlayNicAddr c) (hostIPRouteForPod c).
Definition set_hw (host pod : list Z) (c : coordinator) : coordinator :=
  MkCoordinator (firstInvoke c) (ipFamily c) (currentRuleTable c) (hostRuleTable c) (tuneMode c) (hostVethName c) (podVethName c) (vethLinkAddress c)
    (currentInterface c) (vethMTU c) (v4HijackRouteGw c) (v6HijackRouteGw c) (HijackCIDR c) (Routes c) host pod
    (currentAddress c) (v4PodOverlayNicAddr c) (v6PodOverlayNicAddr c) (hostIPRouteForPod c).
Definition set_address (l : list NAddr) (c : coordinator) : coordinator :=
  MkCoordinator (firstInvoke c) (ipFamily c) (currentRuleTable c) (hostRuleTable c) (tuneMode c) (hostVethName c) (podVethName c) (vethLinkAddress c)
    (currentInterface c) (vethMTU c) (v4HijackRouteGw c) (v6HijackRouteGw c) (HijackCIDR c) (Routes c) (hostVethHwAddress c) (podVethHwAddress c)
    l (v4PodOverlayNicAddr c) (v6PodOverlayNicAddr c) (hostIPRouteForPod c).
Definition set_nic (v4 v6 : option IPNet) (c : coordinator) : coordinator :=
  MkCoordinator (firstInvoke c) (ipFamily c) (currentRuleTable c) (hostRuleTable c) (tuneMode c) (hostVethName c) (podVethName c) (vethLinkAddress c)
    (currentInterface c) (vethMTU c) (v4HijackRouteGw c) (v6HijackRouteGw c) (HijackCIDR c) (Routes c) (hostVethHwAddress c) (podVethHwAddress c)
    (currentAddress c) v4 v6 (hostIPRouteForPod c).
Definition set_gw (v4 v6 : IP) (c : coordinator) : coordinator :=
  MkCoordinator (firstInvoke c) (ipFamily c) (currentRuleTable c) (hostRuleTable c) (tuneMode c) (hostVethName c) (podVethName c) (vethLinkAddress c)
    (currentInterface c) (vethMTU c) v4 v6 (HijackCIDR c) (Routes c) (hostVethHwAddress c) (podVethHwAddress c)
    (currentAddress c) (v4PodOverlayNicAddr c) (v6PodOverlayNicAddr c) (hostIPRouteForPod c).
Definition set_host_ips (l : list IP) (c : coordinator) : coordinator :=
  MkCoordinator (firstInvoke c) (ipFamily c) (currentRuleTable c) (hostRuleTable c) (tuneMode c) (hostVethName c) (podVethName c) (vethLinkAddress c)
    (currentInterface c) (vethMTU c) (v4HijackRouteGw c) (v6HijackRouteGw c) (HijackCIDR c) (Routes c) (hostVethHwAddress c) (podVethHwAddress c)
    (currentAddress c) (v4PodOverlayNicAddr c) (v6PodOverlayNicAddr c) l.

(** ** The mode *)

Definition autoModeToSpecificMode (mode podFirstInterface : string) (vethExist : bool) (c : coordinator) : coordinator :=
  if mode != ModeAuto then c
  else if currentInterface c == podFirstInterface then set_mode ModeUnderlay c
  else if vethExist then set_mode ModeUnderlay c
  else set_mode ModeOverlay c.

(** The name of a veth of the host: the first 11 characters of the container's id. *)
Definition min (len : nat) : nat := if (11 <? len)%nat then 11%nat else len.
Definition getHostVethName (containerID : string) : string := "veth" +:+ String.substring 0 (min (String.length containerID)) containerID.

Definition defaultMarkBit : Z := 0.
Definition getMarkInt (markBit : Z) : Z := Z.shiftl 1 markBit.
(** "%#08x": eight digits at least, after the prefix. *)
Fixpoint hex_number (fuel : nat) (z : Z) (acc : string) : string :=
  match fuel with
  | O => acc
  | S n => if (z =? 0) && (8 <=? String.length acc)%nat then acc else hex_number n (z / 16) (String (digit_char (z mod 16)) acc)
  end.
Definition getMarkString (mark : Z) : string := "0x" +:+ hex_number 16 mark "".
Definition mac_string (hw : list Z) : string := join ":" (hex_byte <$> hw).

Definition routeMatchesIPFamily (dst : IPNet) (family : Z) : bool :=
  if family =? FAMILY_V4 then is4 (net_ip dst)
  else if family =? FAMILY_V6 then negb (is4 (net_ip dst))
  else family =? FAMILY_ALL.

Section plugin.
Context {S : Type} `{K : Kernel S} `{N : NetIO S} `{H : PluginHost S}.

Definition no_error (m : cmd S unit) : cmd S unit := unless_err (λ _, true) m.
(** A value that is nil where the call failed. *)
Definition or_nil {A} (f : S → outcome (list A)) (s : S) : outcome (list A) := ignore_err [] (f s).

Definition coordinatorModeAndFirstInvoke (podFirstInterface : string) (c : coordinator) (s : S) : outcome coordinator :=
  vethExist ← CheckInterfaceExist PodNS defaultUnderlayVethName s;
  links ← GetUPLinkList s;
  let c := if tuneMode c == ModeAuto then autoModeToSpecificMode ModeAuto podFirstInterface vethExist c else c in
  let first := (currentInterface c == podFirstInterface) in
  if tuneMode c == ModeUnderlay then
    _ ← check (first || vethExist) (ErrOther "the auxiliary interface was not created by previous interface");
    Ret (set_first first (if first then defaultPodRuleTable + 1 else Z.of_nat (length links) + 98) c)
  else if tuneMode c == ModeOverlay then
    _ ← check (negb first) (ErrOther "the current interface is first interface");
    _ ← check (negb vethExist) (ErrOther "the auxiliary interface of underlay mode exists");
    let first := (length links =? 2)%nat in
    Ret (set_first first (if first then defaultPodRuleTable + 1 else 99 + Z.of_nat (length links)) c)
  else if tuneMode c == ModeDisable then Ret c
  else Fail (ErrOther "unknown tuneMode").

Definition checkNICState (iface : string) : cmd S unit :=
  link ← read (LinkByName PodNS iface);
  if negb (nl_Flags link =? FlagUp) then LinkSetUp PodNS link else mret ().

(** The part of [setupVeth] that runs in the Pod. *)
Definition pod_veth (hostVethName : string) (podVethMAC : list Z) (c : coordinator) : cmd S unit :=
  name ← SetupVethWithName (podVethName c) hostVethName (vethMTU c) (mac_string podVethMAC);
  link ← read (LinkByName PodNS name);
  _ ← LinkSetUp PodNS link;
  if ipFamily c =? FAMILY_V6 then mret ()
  else if vethLinkAddress c == EmptyString then mret ()
  else AddrAdd PodNS link (MkIPNet (net_ParseIP (vethLinkAddress c)) (CIDRMask 32 4)).

(** The error of the part in the Pod is overwritten by the next one. *)
Definition setupVeth (containerID : string) (c : coordinator) : cmd S unit :=
  podVethMAC ← GenerateRandMAC;
  hostVethMac ← GenerateRandMAC;
  let hostVethName := getHostVethName containerID in
  _ ← no_error (pod_veth hostVethName podVethMAC c);
  hostVethLink ← read (LinkByName HostNS hostVethName);
  LinkSetHardwareAddr HostNS hostVethLink hostVethMac.

(** Entries for an address of the interface, whatever their link, are removed first. *)
Definition setupNeighborhood (c : coordinator) : cmd S coordinator :=
  '(hostHw, podHw) ← read (GetHwAddressByName (podVethName c) (hostVethName c));
  let c := set_hw hostHw podHw c in
  nList ← read (or_nil (NeighList HostNS (ipFamily c)));
  hostVethlink ← read (LinkByName HostNS (hostVethName c));
  _ ← each (λ n, if existsb (λ a, ip_equal (ne_IP n) (na_IP a)) (currentAddress c) then no_error (NeighDel HostNS n) else mret ()) nList;
  _ ← each (λ a, AddStaticNeighborTable HostNS (nl_Index hostVethlink) (na_IP a) (podVethHwAddress c)) (currentAddress c);
  if negb (firstInvoke c) then mret c
  else
    podVethlink ← read (LinkByName PodNS (podVethName c));
    _ ← each (λ ip, AddStaticNeighborTable PodNS (nl_Index podVethlink) ip (hostVethHwAddress c)) (hostIPRouteForPod c);
    mret c.

(** The table of the routes to the cluster. *)
Definition hijack_table (c : coordinator) (ruleTable : Z) : Z := if firstInvoke c then RT_TABLE_MAIN else ruleTable.
Definition setupHijackRoutes (ruleTable : Z) (c : coordinator) : cmd S unit :=
  each (λ hijack,
    match net_ParseCIDR hijack with
    | None => lift (Fail (ErrOther "invalid CIDR address"))
    | Some (nip, ipNet) =>
        if is4 nip && is_nil (v4HijackRouteGw c) then mret ()
        else if negb (is4 nip) && is_nil (v6HijackRouteGw c) then mret ()
        else
          let src := if is4 nip then v4PodOverlayNicAddr c else v6PodOverlayNicAddr c in
          AddRoute PodNS (hijack_table c ruleTable) (ipFamily c) SCOPE_UNIVERSE (podVethName c) src (Some ipNet) (v4HijackRouteGw c) (v6HijackRouteGw c)
    end) (HijackCIDR c).

Definition policy_table (c : coordinator) : Z :=
  if (tuneMode c == ModeUnderlay) && firstInvoke c then RT_TABLE_MAIN else currentRuleTable c.
Definition setupPolicyRoutes (c : coordinator) : cmd S unit :=
  if (length (Routes c) =? 0)%nat then mret ()
  else if tuneMode c == ModeDisable then mret ()
  else
    each (λ route,
      match net_ParseCIDR (Dst route) with
      | None => lift (Fail (ErrOther "invalid CIDR address"))
      | Some (_, dst) =>
          if negb (routeMatchesIPFamily dst (ipFamily c)) then mret ()
          else
            let gw := net_ParseIP (Gw route) in
            if is_nil gw then lift (Fail (ErrOther "invalid route gateway"))
            else
              AddRoute PodNS (policy_table c) (ipFamily c) SCOPE_UNIVERSE (currentInterface c) None (Some dst)
                (if is4 gw then gw else nilIP) (if is4 gw then nilIP else gw)
      end) (Routes c).

(** ** Routes between the Pod and its node *)

Definition pod_host_route (c : coordinator) (hostAddress : IP) : cmd S unit :=
  let ipNet := ConvertMaxMaskIPNet hostAddress in
  let src := if is4 hostAddress then v4PodOverlayNicAddr c else v6PodOverlayNicAddr c in
  _ ← AddRoute PodNS (currentRuleTable c) (ipFamily c) SCOPE_LINK (podVethName c) src (Some ipNet) nilIP nilIP;
  if firstInvoke c then AddRoute PodNS RT_TABLE_MAIN (ipFamily c) SCOPE_LINK (podVethName c) src (Some ipNet) nilIP nilIP else mret ().

(** Routes to the address that are there are removed first, as far as that works. *)
Definition host_pod_route (c : coordinator) (addr : NAddr) : cmd S unit :=
  let ipNet := ConvertMaxMaskIPNet (na_IP addr) in
  filterRoutes ← read (or_nil (RouteListTable HostNS (ipFamily c) (hostRuleTable c)));
  _ ← each (λ r, if IPNetEqual (r_Dst r) (Some ipNet) then no_error (RouteDel HostNS r) else mret ()) filterRoutes;
  AddRoute HostNS (hostRuleTable c) (ipFamily c) SCOPE_LINK (hostVethName c) None (Some ipNet) nilIP nilIP.

Definition ip_families (c : coordinator) : list Z := if ipFamily c =? FAMILY_ALL then [FAMILY_V4; FAMILY_V6] else [ipFamily c].
Definition setupHostRoutes (c : coordinator) : cmd S unit :=
  _ ← each (pod_host_route c) (hostIPRouteForPod c);
  _ ← each (λ family, unless_err is_exist (RuleAdd HostNS (MkNRule (hostRuleTable c) None None (-1) family defaultHostRulePriority))) (ip_families c);
  each (host_pod_route c) (currentAddress c).

(** ** The default route *)

(** The rules and routes of one interface in the table of the current one. *)
Definition from_rules (addrs : list NAddr) (table : Z) : cmd S unit :=
  each (λ a, AddFromRuleTable PodNS (ConvertMaxMaskIPNet (na_IP a)) table) addrs.

Definition tunePodRoutes (configDefaultRouteNIC : string) (c : coordinator) : cmd S unit :=
  podDefaultRouteNIC ← read (GetDefaultRouteInterface (ipFamily c) (currentInterface c));
  if podDefaultRouteNIC == EmptyString then mret ()
  else
    '(configDefaultRouteNIC, moveRouteInterface) ←
      (if (configDefaultRouteNIC == EmptyString) || (configDefaultRouteNIC == podDefaultRouteNIC) then mret (podDefaultRouteNIC, currentInterface c)
       else
         exist ← read (CheckInterfaceExist PodNS configDefaultRouteNIC);
         _ ← lift (check exist (ErrOther "podDefaultRouteNIC don't exist in pod"));
         mret (configDefaultRouteNIC, podDefaultRouteNIC));
    defaultInterfaceAddress ← read (GetAddersByName PodNS podDefaultRouteNIC (ipFamily c));
    _ ← (if configDefaultRouteNIC == currentInterface c then from_rules defaultInterfaceAddress (currentRuleTable c)
         else
           _ ← from_rules (currentAddress c) (currentRuleTable c);
           if (tuneMode c == ModeOverlay) && firstInvoke c then
             _ ← from_rules defaultInterfaceAddress defaultPodRuleTable;
             CopyDefaultRoute PodNS defaultOverlayVethName RT_TABLE_MAIN defaultPodRuleTable (ipFamily c)
           else mret ());
    MoveRouteTable PodNS moveRouteInterface RT_TABLE_MAIN (currentRuleTable c) (ipFamily c).

(** ** Replies through the veth *)

Definition mark_rules (markStr : string) : list (string * list string) :=
  [ ("PREROUTING", ["-i"; defaultUnderlayVethName; "-m"; "conntrack"; "--ctstate"; "NEW"; "-j"; "MARK"; "--set-xmark"; markStr]);
    ("PREROUTING", ["-m"; "mark"; "--mark"; markStr; "-j"; "CONNMARK"; "--save-mark"]);
    ("OUTPUT", ["-j"; "CONNMARK"; "--restore-mark"]) ]%string.
Definition ensureIPtablesRule (protocols : list Z) : cmd S unit :=
  let markStr := getMarkString (getMarkInt 0) in
  each (λ proto, each (λ '(chain, rule), EnsureRule proto "mangle" chain rule) (mark_rules markStr)) protocols.

Definition reply_families (c : coordinator) : list Z :=
  if ipFamily c =? FAMILY_V4 then [FAMILY_V4]
  else if ipFamily c =? FAMILY_V6 then [FAMILY_V6]
  else if ipFamily c =? FAMILY_ALL then [FAMILY_V4; FAMILY_V6] else [].
Definition makeReplyPacketViaVeth (c : coordinator) : cmd S unit :=
  let markInt := getMarkInt defaultMarkBit in
  _ ← ensureIPtablesRule (reply_families c);
  each (λ family,
    _ ← unless_err is_exist (AddRuleTableWithMark PodNS markInt defaultPodRuleTable family);
    let src := if family =? FAMILY_V4 then v4PodOverlayNicAddr c else v6PodOverlayNicAddr c in
    AddRoute PodNS defaultPodRuleTable family SCOPE_UNIVERSE (podVethName c) src None (v4HijackRouteGw c) (v6HijackRouteGw c)) (reply_families c).

(** ** The addresses of the node *)

Definition excluded_interfaces : list name_pattern :=
  [PPrefix "docker"; PPrefix "cbr"; PPrefix "dummy"; PPrefix "virbr"; PPrefix "lxcbr"; PPrefix "veth"; PExact "lo"; PPrefix "cali";
   PPrefix "flannel"; PPrefix "kube-ipvs"; PPrefix "cni"; PPrefix "vx-submariner"; PPrefix "ciliu"].

Definition family_has (f g : Z) : bool := (f =? g) || (f =? FAMILY_ALL).
(** Each address unless an equal one is there. *)
Definition add_ip (l : list IP) (t : IP) : list IP := if existsb (λ k, ip_equal k t) l then l else l ++ [t].

Fixpoint node_ips_to (family : Z) (allPodIP : list NAddr) (l : list IP) (s : S) : outcome (list IP) :=
  match allPodIP with
  | [] => Ret l
  | item :: rest =>
      '(v4Gw, v6Gw) ← GetGatewayIP [item] s;
      let t :=
        if (0 <? length v4Gw)%nat && family_has family FAMILY_V4 then v4Gw
        else if (0 <? length v6Gw)%nat && family_has family FAMILY_V6 then v6Gw
        else nilIP in
      node_ips_to family rest (add_ip l t) s
  end.
Definition add_node_ip (family : Z) (l : list IP) (t : NAddr) : list IP :=
  if (length (na_IP t) =? 0)%nat then l
  else if family_has family (if is4 (na_IP t) then FAMILY_V4 else FAMILY_V6) then add_ip l (na_IP t) else l.
Definition GetAllHostIPRouteForPod (family : Z) (allPodIP : list NAddr) (s : S) : outcome (list IP) :=
  l ← node_ips_to family allPodIP [] s;
  additionalIP ← GetAllIPAddress HostNS family excluded_interfaces s;
  Ret (fold_left (add_node_ip family) additionalIP l).

(** Only the failures before sending are returned. *)
Definition AnnounceIPs (c : coordinator) : cmd S unit :=
  l ← read (LinkByName PodNS (currentInterface c));
  each (λ addr, announce_ip l (currentInterface c) (na_IP addr)) (currentAddress c).

(** pkg/networking/sysctl *)
Definition SysctlRPFilter : string := "net/ipv4/conf/all/rp_filter".
Definition SysctlEnableIPv6 : string := "net/ipv6/conf/all/disable_ipv6".
Definition SetSysctl (ns : netns) (sysConfig value : string) : cmd S unit :=
  _ ← read (Stat ns sysConfig); Sysctl ns sysConfig value.
Definition int_string (z : Z) : string := if z <? 0 then "-" +:+ itoa (- z) else itoa z.
Definition SetSysctlRPFilter (value : Z) : cmd S unit := SetSysctl PodNS SysctlRPFilter (int_string value).
Definition EnableIpv6Sysctl (value : Z) : cmd S unit := SetSysctl PodNS SysctlEnableIPv6 (int_string value).

(** ** ADD *)

Definition load_config (args : CmdArgs) : cmd S Config :=
  '(podName, podNamespace) ← lift (LoadArgs (Args args));
  api ← read (GetCoordinatorConfig podName podNamespace);
  lift (ParseConfig (decode_conf (StdinData args)) (parse_prev (StdinData args)) api).

Definition new_coordinator (args : CmdArgs) (conf : Config) (table mtu : Z) : coordinator :=
  MkCoordinator false 0 0 table (Mode conf) "" "" (VethLinkAddress conf) (IfName args) mtu nilIP nilIP
    (conf_OverlayPodCIDR conf ++ conf_ServiceCIDR conf ++ conf_HijackCIDR conf) (PolicyRoutes conf) [] [] [] None None [].

(** What the plugin finds: the family of the interface, the mode, the addresses of the Pod and of
    the node. *)
Definition inspect (args : CmdArgs) (conf : Config) : cmd S coordinator :=
  table ← lift (deref (HostRuleTable conf));
  mtu ← lift (deref (VethMTU conf));
  let c := new_coordinator args conf table mtu in
  _ ← read (GetNS (Netns args));
  family ← read (GetIPFamilyByIface (IfName args));
  let c := set_family family c in
  _ ← read GetCurrentNS;
  _ ← checkNICState (IfName args);
  c ← read (coordinatorModeAndFirstInvoke (PodDefaultCniNic conf) c);
  allPodIP ← read (GetAllIPAddress PodNS family [PExact "lo"]);
  hostIPs ← read (GetAllHostIPRouteForPod family allPodIP);
  mret (set_host_ips hostIPs c).

(** The veth pair of the mode; nothing in the mode disable. *)
Definition choose_veth (args : CmdArgs) (c : coordinator) : cmd S (option coordinator) :=
  if tuneMode c == ModeUnderlay then
    let c := set_veth defaultUnderlayVethName (getHostVethName (ContainerID args)) c in
    _ ← (if firstInvoke c then setupVeth (ContainerID args) c else mret ());
    mret (Some c)
  else if tuneMode c == ModeOverlay then
    host ← read (GetHostVethName defaultOverlayVethName);
    mret (Some (set_veth defaultOverlayVethName host c))
  else if tuneMode c == ModeDisable then mret None
  else lift (Fail (ErrOther "unknown tuneMode")).

(** The address of eth0 that routes get as source; that of IPv6 stays nil. *)
Definition overlay_nic_addr (addrs : list NAddr) : option IPNet := na_Net <$> List.find (λ a, is4 (na_IP a)) addrs.

(** The interface itself: its addresses, hardware address, queue and settings, and neighbours.  The
    length of the queue is set in the namespace that the plugin runs in, that of the node. *)
Definition setup_interface (args : CmdArgs) (conf : Config) (c : coordinator) : cmd S coordinator :=
  addrs ← read (IPAddressByName (IfName args) (ipFamily c));
  let c := set_address addrs c in
  _ ← (if MacPrefix conf == EmptyString then mret ()
       else _ ← OverwriteHwAddress (MacPrefix conf) (IfName args); no_error (AnnounceIPs c));
  _ ← match TxQueueLen conf with
      | Some len => if 0 <? len then LinkSetTxqueueLen HostNS (IfName args) len else mret ()
      | None => mret ()
      end;
  _ ← (if negb (ipFamily c =? FAMILY_V4) then EnableIpv6Sysctl 0 else mret ());
  rp ← lift (deref (PodRPFilter conf));
  _ ← (if negb (rp =? -1) then SetSysctlRPFilter rp else mret ());
  c ← setupNeighborhood c;
  allPodVethAddrs ← read (IPAddressByName defaultOverlayVethName (ipFamily c));
  mret (set_nic (overlay_nic_addr allPodVethAddrs) None c).

(** The gateways of the routes to the cluster: the first address of the node of each family. *)
Definition hijack_gateways (c : coordinator) : coordinator :=
  let v4 := List.find is4 (hostIPRouteForPod c) in
  let v6 := List.find (λ ip, negb (is4 ip) && negb (is_nil ip)) (hostIPRouteForPod c) in
  set_gw (if ipFamily c =? FAMILY_V6 then nilIP else default nilIP v4) (if ipFamily c =? FAMILY_V4 then nilIP else default nilIP v6) c.

Definition setup_routes (conf : Config) (c : coordinator) : cmd S coordinator :=
  _ ← setupHostRoutes c;
  let c := hijack_gateways c in
  _ ← setupHijackRoutes (currentRuleTable c) c;
  _ ← (if (tuneMode c == ModeUnderlay) && firstInvoke c then makeReplyPacketViaVeth c else mret ());
  _ ← (if default false (TunePodRoutes conf) && (negb (firstInvoke c) || (tuneMode c == ModeOverlay)) then tunePodRoutes (PodDefaultRouteNIC conf) c
       else mret ());
  _ ← setupPolicyRoutes c;
  mret c.

Definition CmdAdd (args : CmdArgs) : cmd S unit :=
  conf ← load_config args;
  if Mode conf == ModeDisable then PrintResult (StdinData args)
  else
    log ← lift (deref (conf_LogOptions conf));
    _ ← SetupFileLogging log;
    _ ← lift (GetResult (StdinData args));
    c ← inspect args conf;
    chosen ← choose_veth args c;
    match chosen with
    | None => PrintResult (StdinData args)
    | Some c =>
        c ← setup_interface args conf c;
        _ ← setup_routes conf c;
        PrintResult (StdinData args)
    end.

(** ** DEL *)

(** Nothing is left to do where the namespace of the Pod is gone. *)
Definition unless_gone (path : string) (m : cmd S unit) : cmd S unit := λ s,
  match GetNS path s with
  | Ret _ => m s
  | Fail e => if e == NSPathNotExist then (Ret (), s) else (Fail e, s)
  | Panic => (Panic, s)
  | OutOfFuel => (OutOfFuel, s)
  end.
Definition del_host_veth (hostVeth : string) : cmd S unit := λ s,
  match LinkByName HostNS hostVeth s with
  | Ret vethLink => LinkDel HostNS vethLink s
  | Fail e => if e == LinkNotFound then (Ret (), s) else (Fail e, s)
  | Panic => (Panic, s)
  | OutOfFuel => (OutOfFuel, s)
  end.

Definition CmdDel (args : CmdArgs) : cmd S unit :=
  conf ← load_config args;
  if Mode conf == ModeDisable then mret ()
  else
    log ← lift (deref (conf_LogOptions conf));
    _ ← SetupFileLogging log;
    table ← lift (deref (HostRuleTable conf));
    unless_gone (Netns args)
      (_ ← del_host_veth (getHostVethName (ContainerID args));
       currentAddress ← read (or_nil (GetAddersByName PodNS (IfName args) FAMILY_ALL));
       each (λ a, unless_err is_not_exist (DelToRuleTable HostNS (ConvertMaxMaskIPNet (na_IP a)) table)) currentAddress).
End plugin.

(** ** Routes that stay *)

(** Neither iptables nor the answer to the caller touches routes. *)
Class PluginLaws (S : Type) `{K : Kernel S} `{!KernelLaws S} `{!PluginHost S} := {
  ensure_rule_routes : ∀ p t chain rule ns (s : S), routes ns (EnsureRule p t chain rule s).2 = routes ns s;
  print_result_routes : ∀ stdin ns (s : S), routes ns (PrintResult stdin s).2 = routes ns s
}.

Section facts.
Context {S : Type} `{K : Kernel S} `{KL : !KernelLaws S} `{N : NetIO S} `{H : !PluginHost S} `{PL : !PluginLaws S}.

(** A route of the table to the destination. *)
Definition has (ns : netns) (t : Z) (d : option IPNet) (s : S) : Prop := ∃ r, r ∈ routes ns s ∧ r_Table r = t ∧ same_dst d (r_Dst r).

Lemma has_same ns t d d' s : same_dst d d' → has ns t d s → has ns t d' s.
Proof. intros E (r & Hr & Ht & Hd). exists r. split_and!; [done..|]. by rewrite <- E. Qed.

(** No destination is lost, except perhaps that of default routes. *)
Definition kept (s s' : S) : Prop := ∀ ns t d, zero_dst d = false → has ns t d s → has ns t d s'.
#[local] Instance kept_preorder : PreOrder kept.
Proof. split; [by intros s ns t d|]. intros s1 s2 s3 H1 H2 ns t d Hz Hh. by apply H2, H1. Qed.
Lemma kept_routes s s' : (∀ ns, routes ns s' = routes ns s) → kept s s'.
Proof. intros E ns t d _ (r & Hr & ?). exists r. by rewrite E. Qed.

Definition keeps {A} (m : cmd S A) : Prop := ∀ s a s', m s = (Ret a, s') → kept s s'.
Lemma keeps_ret {A} (a : A) : keeps (mret a : cmd S A).
Proof. by intros s b s' [= _ <-]. Qed.
Lemma keeps_lift {A} (o : outcome A) : keeps (lift o).
Proof. by intros s b s' [_ ->]%lift_Ret. Qed.
Lemma keeps_read {A} (f : S → outcome A) : keeps (read f).
Proof. by intros s b s' [_ ->]%read_Ret. Qed.
Lemma keeps_bind {A B} (m : cmd S A) (f : A → cmd S B) : keeps m → (∀ a, keeps (f a)) → keeps (m ≫= f).
Proof. intros Hm Hf s b s' (a & s1 & H1 & H2)%cmd_bind_Ret. etrans; [by eapply Hm|by eapply Hf]. Qed.
Lemma keeps_if {A} (b : bool) (m n : cmd S A) : keeps m → keeps n → keeps (if b then m else n).
Proof. by destruct b. Qed.
Lemma keeps_each {A} (f : A → cmd S unit) l : (∀ x, keeps (f x)) → keeps (each f l).
Proof. intros Hf. induction l as [|x l IH]; [apply keeps_ret|]. by apply keeps_bind. Qed.

Lemma keeps_rule_add h ns r : keeps (unless_err h (RuleAdd ns r)).
Proof.
  intros s [] s' E. apply kept_routes. intros ns'. unfold unless_err in E. destruct (RuleAdd ns r s) as [o s1] eqn:Er.
  destruct (rule_add_frame _ _ _ _ _ Er) as [Hr _]. destruct o; [..|done|done]; [by injection E as _ <-|]. destruct (h _); [by injection E as <-|done].
Qed.
Lemma keeps_rule ns r : keeps (RuleAdd ns r).
Proof. intros s [] s' E. apply kept_routes. intros ns'. by destruct (rule_add_frame _ _ _ _ _ E) as [Hr _]. Qed.
Lemma keeps_route_add ns r : plain_route r → keeps (unless_err is_exist (RouteAdd ns r)).
Proof.
  intros Hp s [] s' E. pose proof (add_there _ _ _ _ E Hp) as (A & HA & _). intros ns' t d _ (x & Hx & ?). exists x. split; [|done].
  destruct (decide (ns' = ns)) as [->|Hn]; [rewrite HA; apply elem_of_app; by right|]. unfold unless_err in E.
  destruct (RouteAdd ns r s) as [o s1] eqn:Er. destruct (route_add_frame _ _ _ _ _ Er) as [Hf _].
  destruct o; [..|done|done]; [injection E as _ <-; by rewrite Hf|]. destruct (is_exist _); [injection E as <-; by rewrite Hf|done].
Qed.
(** A deletion can only lose the destination asked for. *)
Lemma route_del_has ns r s o s' ns' t d : RouteDel ns r s = (o, s') → has ns' t d s → has ns' t d s' ∨ (ns' = ns ∧ t = r_Table r ∧ same_dst d (r_Dst r)).
Proof.
  intros E (x & Hx & Ht & Hd). destruct (decide (ns' = ns)) as [->|Hn].
  - destruct (route_del_only _ _ _ _ _ E x Hx) as [?|[Htx Hdx]]; [left; by exists x|]. right. split_and!; [done|congruence|]. by rewrite Hd.
  - destruct (route_del_frame _ _ _ _ _ E) as [Hf _]. left. exists x. by rewrite Hf.
Qed.
Lemma keeps_route_del ns r : zero_dst (r_Dst r) = true → keeps (RouteDel ns r).
Proof.
  intros Hz s [] s' E ns' t d Hd Hh. destruct (route_del_has _ _ _ _ _ _ _ _ E Hh) as [?|(_ & _ & Hs)]; [done|].
  symmetry in Hs. rewrite (same_dst_zero _ _ Hs Hz) in Hd. done.
Qed.

Lemma keeps_AddRoute ns table family scope iface src dst v4 v6 : keeps (AddRoute ns table family scope iface src dst v4 v6).
Proof. apply keeps_bind; [apply keeps_read|]. intros link. apply keeps_bind; [apply keeps_lift|]. intros gw. by apply keeps_route_add. Qed.
Lemma AddRoute_has ns table family scope iface src dst v4 v6 s s' : AddRoute ns table family scope iface src dst v4 v6 s = (Ret (), s') → has ns table dst s'.
Proof. intros (link & s1 & _ & (gw & s2 & _ & E)%cmd_bind_Ret)%cmd_bind_Ret. apply add_there in E as (_ & _ & _ & r & Hr & Ht & Hd); [|done]. by exists r. Qed.

Lemma keeps_moveRouteTable ns i t t' onlyCopy r : keeps (moveRouteTable ns i t t' onlyCopy r).
Proof.
  unfold moveRouteTable. destruct (_ =? _).
  - destruct (zero_dst (r_Dst r)) eqn:Hz.
    + apply keeps_bind; [by apply keeps_route_add|]. intros _. apply keeps_if; [apply keeps_ret|by apply keeps_route_del].
    + apply keeps_if; [apply keeps_ret|by apply keeps_route_add].
  - destruct (List.find _ _) as [h|]; [|apply keeps_ret]. apply keeps_bind; [by apply keeps_route_add|].
    intros _. apply keeps_if; [apply keeps_ret|by apply keeps_route_del].
Qed.
Lemma keeps_table_loop ns iface t t' f onlyCopy : keeps (route_table_loop ns iface t t' f onlyCopy).
Proof.
  apply keeps_bind; [apply keeps_read|]. intros [i l]. apply keeps_each. intros r. apply keeps_if; [apply keeps_ret|].
  apply keeps_if; [apply keeps_ret|apply keeps_moveRouteTable].
Qed.
End facts.
Create HintDb keeps.
#[export] Hint Resolve keeps_ret keeps_lift keeps_read keeps_bind keeps_if keeps_each keeps_rule_add keeps_rule keeps_AddRoute keeps_table_loop : keeps.

Section wired.
Context {S : Type} `{K : Kernel S} `{KL : !KernelLaws S} `{N : NetIO S} `{H : !PluginHost S} `{PL : !PluginLaws S}.
#[local] Existing Instance kept_preorder.

(** A loop over which what each round sets up lasts. *)
Lemma each_sets {A} (f : A → cmd S unit) (P : A → S → Prop) l s s' :
  (∀ x s s', f x s = (Ret (), s') → P x s') → (∀ x y s s', f y s = (Ret (), s') → P x s → P x s') →
  each f l s = (Ret (), s') → Forall (λ x, P x s') l.
Proof.
  intros Hset Hlast. assert (∀ x l s s', each f l s = (Ret (), s') → P x s → P x s') as Hrest.
  { intros x l'. induction l' as [|y l' IH]; intros t t'; cbn [each]; [by intros [= <-]|]. intros ([] & t1 & H1 & H2)%cmd_bind_Ret HP. eauto. }
  revert s. induction l as [|x l IH]; intros s; cbn [each]; [constructor|]. intros ([] & s1 & H1 & H2)%cmd_bind_Ret. constructor; eauto.
Qed.

Definition there (ns : netns) (t : Z) (n : IPNet) (s : S) : Prop := zero_dst (Some n) = false → has ns t (Some n) s.
Lemma there_kept ns t n s s' : kept s s' → there ns t n s → there ns t n s'.
Proof. intros Hk Ht Hz. by apply Hk, Ht. Qed.

(** *** The node *)

Lemma keeps_pod_host_route c ip : keeps (pod_host_route c ip).
Proof. unfold pod_host_route. auto with keeps. Qed.

(** Stale routes to an address are replaced by that of the Pod. *)
Lemma clean_has c n l s s' : Forall (λ r, r_Table r = hostRuleTable c) l →
  each (λ r, if IPNetEqual (r_Dst r) (Some n) then no_error (RouteDel HostNS r) else mret ()) l s = (Ret (), s') →
  ∀ ns t d, has ns t d s → has ns t d s' ∨ (ns = HostNS ∧ t = hostRuleTable c ∧ same_dst d (Some n)).
Proof.
  intros Hl. revert s. induction Hl as [|r l Hr Hl IH]; intros s; cbn [each]; [intros [= <-]; auto|].
  intros ([] & s1 & H1 & H2)%cmd_bind_Ret ns t d Hh. destruct (IPNetEqual (r_Dst r) (Some n)) eqn:E; [|injection H1 as <-; by eapply IH].
  assert (∃ o, RouteDel HostNS r s = (o, s1)) as [o Ho].
  { unfold no_error, unless_err in H1. destruct (RouteDel HostNS r s) as [[]?]; try done; injection H1; intros; subst; eauto. }
  destruct (route_del_has _ _ _ _ _ _ _ _ Ho Hh) as [Hh1|(-> & -> & Hd)]; [by eapply IH|]. right. split_and!; [done..|]. rewrite Hd. by left.
Qed.
Lemma keeps_host_pod_route c a : keeps (host_pod_route c a).
Proof.
  intros s [] s' (l & s0 & [Hl ->]%read_Ret & ([] & s1 & H1 & H2)%cmd_bind_Ret)%cmd_bind_Ret ns t d Hz Hh.
  assert (Forall (λ r, r_Table r = hostRuleTable c) l) as Ht.
  { unfold or_nil, ignore_err in Hl. destruct (RouteListTable _ _ _ _) as [x|e| |] eqn:E; try done; injection Hl as <-; [by eapply route_list_table|constructor]. }
  destruct (clean_has _ _ _ _ _ Ht H1 ns t d Hh) as [Hh1|(-> & -> & Hd)]; [by eapply keeps_AddRoute|].
  symmetry in Hd. eapply has_same; [exact Hd|]. by eapply AddRoute_has.
Qed.
Lemma host_pod_route_has c a s s' : host_pod_route c a s = (Ret (), s') → has HostNS (hostRuleTable c) (Some (ConvertMaxMaskIPNet (na_IP a))) s'.
Proof. intros (l & s0 & _ & ([] & s1 & _ & H2)%cmd_bind_Ret)%cmd_bind_Ret. by eapply AddRoute_has. Qed.

(** What is installed for an address of the interface, and for an address of the node. *)
Definition pod_there (c : coordinator) (a : NAddr) (s : S) : Prop := there HostNS (hostRuleTable c) (ConvertMaxMaskIPNet (na_IP a)) s.
Definition node_there (c : coordinator) (ip : IP) (s : S) : Prop :=
  there PodNS (currentRuleTable c) (ConvertMaxMaskIPNet ip) s ∧ (firstInvoke c = true → there PodNS RT_TABLE_MAIN (ConvertMaxMaskIPNet ip) s).
Lemma node_there_kept c ip s s' : kept s s' → node_there c ip s → node_there c ip s'.
Proof. intros Hk [Ha Hb]. split; [by eapply there_kept|]. intros Hf. eapply there_kept; eauto. Qed.

Lemma setupHostRoutes_spec c s s' : setupHostRoutes c s = (Ret (), s') →
  Forall (λ a, pod_there c a s') (currentAddress c) ∧ Forall (λ ip, node_there c ip s') (hostIPRouteForPod c).
Proof.
  intros ([] & s1 & H1 & ([] & s2 & H2 & H3)%cmd_bind_Ret)%cmd_bind_Ret. split.
  - eapply (each_sets _ (pod_there c)); [..|exact H3]; [intros a t t' Ha _; by eapply host_pod_route_has|].
    intros a b t t' Hb. apply there_kept. by eapply keeps_host_pod_route.
  - assert (kept s1 s') as Hk.
    { etrans; [eapply keeps_each; [|exact H2]; intros ?; apply keeps_rule_add|eapply keeps_each; [|exact H3]; apply keeps_host_pod_route]. }
    assert (Forall (λ ip, node_there c ip s1) (hostIPRouteForPod c)) as Hp.
    { eapply (each_sets _ (node_there c)); [..|exact H1]; [|intros ip ip' t t' Hy%keeps_pod_host_route; by apply node_there_kept].
      intros ip t t' ([] & t1 & Ha & Hb)%cmd_bind_Ret. split; [|intros Hf _; rewrite Hf in Hb; by eapply AddRoute_has].
      intros Hz. assert (kept t1 t') as Hk1 by (destruct (firstInvoke c); [by eapply keeps_AddRoute|by injection Hb as <-]). apply Hk1; [done|by eapply AddRoute_has]. }
    eapply Forall_impl; [exact Hp|]. intros ip. by apply node_there_kept.
Qed.

(** *** The cluster, and the configured routes *)

Definition hijack_gw (c : coordinator) (ip : IP) : IP := if is4 ip then v4HijackRouteGw c else v6HijackRouteGw c.
Definition cluster_there (c : coordinator) (cidr : string) (s : S) : Prop :=
  ∃ ip n, net_ParseCIDR cidr = Some (ip, n) ∧ (is_nil (hijack_gw c ip) = false → there PodNS (hijack_table c (currentRuleTable c)) n s).
Definition policy_there (c : coordinator) (r : Route) (s : S) : Prop :=
  ∃ ip n, net_ParseCIDR (Dst r) = Some (ip, n) ∧ (routeMatchesIPFamily n (ipFamily c) = true → there PodNS (policy_table c) n s).
Lemma cluster_there_kept c cidr s s' : kept s s' → cluster_there c cidr s → cluster_there c cidr s'.
Proof. intros Hk (ip & n & Hp & Ht). exists ip, n. split; [done|]. intros Hg. eapply there_kept; eauto. Qed.
Lemma policy_there_kept c r s s' : kept s s' → policy_there c r s → policy_there c r s'.
Proof. intros Hk (ip & n & Hp & Ht). exists ip, n. split; [done|]. intros Hg. eapply there_kept; eauto. Qed.

Lemma keeps_setupHijackRoutes t c : keeps (setupHijackRoutes t c).
Proof. apply keeps_each. intros cidr. destruct (net_ParseCIDR cidr) as [[ip n]|]; auto with keeps. Qed.
Lemma setupHijackRoutes_spec c s s' : setupHijackRoutes (currentRuleTable c) c s = (Ret (), s') →
  Forall (λ cidr, cluster_there c cidr s') (HijackCIDR c).
Proof.
  intros Hr. eapply (each_sets _ (cluster_there c)); [..|exact Hr].
  - intros cidr t t' Hx. cbn beta in Hx. unfold cluster_there. destruct (net_ParseCIDR cidr) as [[ip n]|]; [|by apply lift_Ret in Hx as [? _]]. exists ip, n. split; [done|]. unfold hijack_gw. intros Hg _.
    destruct (is4 ip); cbn [andb negb] in Hx; rewrite Hg in Hx; by eapply AddRoute_has.
  - intros cidr cidr' t t' Hx. cbn beta in Hx. apply cluster_there_kept. destruct (net_ParseCIDR cidr') as [[ip' n']|]; [|by apply lift_Ret in Hx as [? _]].
    eapply keeps_if; [..|exact Hx]; auto with keeps.
Qed.

Lemma setupPolicyRoutes_spec c s s' : tuneMode c ≠ ModeDisable → setupPolicyRoutes c s = (Ret (), s') →
  Forall (λ r, policy_there c r s') (Routes c) ∧ kept s s'.
Proof.
  intros Hm. unfold setupPolicyRoutes. destruct (length (Routes c) =? 0)%nat eqn:Hl.
  { intros [= <-]. apply Nat.eqb_eq, nil_length_inv in Hl. rewrite Hl. by split; [constructor|]. }
  rewrite bool_decide_false by done. intros Hr. set (f := λ route, _) in Hr. assert (∀ r, keeps (f r)) as Hk.
  { intros r. unfold f. destruct (net_ParseCIDR (Dst r)) as [[ip n]|]; auto 6 with keeps. }
  split; [|by eapply keeps_each]. eapply (each_sets f (policy_there c)); [..|exact Hr].
  - intros r t t' Hx. unfold f in Hx. unfold policy_there. destruct (net_ParseCIDR (Dst r)) as [[ip n]|]; [|by apply lift_Ret in Hx as [? _]]. exists ip, n. split; [done|]. intros Hf _.
    rewrite Hf in Hx. cbn [negb] in Hx. destruct (is_nil _); [done|]. by eapply AddRoute_has.
  - intros r r' t t' Hx%Hk. by apply policy_there_kept.
Qed.

Lemma keeps_makeReply c : keeps (makeReplyPacketViaVeth c).
Proof.
  apply keeps_bind.
  - apply keeps_each. intros p. apply keeps_each. intros [chain rule] s [] s' E. apply kept_routes. intros ns.
    pose proof (ensure_rule_routes p "mangle" chain rule ns s) as Hr. by rewrite E in Hr.
  - intros _. apply keeps_each. unfold AddRuleTableWithMark. auto with keeps.
Qed.
Lemma keeps_from_rules l t : keeps (from_rules l t).
Proof. apply keeps_each. intros a. apply keeps_rule. Qed.
Lemma keeps_tunePodRoutes nic c : keeps (tunePodRoutes nic c).
Proof.
  apply keeps_bind; [auto with keeps|]. intros n. apply keeps_if; [auto with keeps|]. apply keeps_bind; [auto 6 with keeps|]. intros [a b].
  apply keeps_bind; [auto with keeps|]. intros l. apply keeps_bind; [|intros _; apply keeps_table_loop].
  pose proof keeps_from_rules. apply keeps_if; [done|]. apply keeps_bind; [done|]. intros _. apply keeps_if; [|auto with keeps].
  apply keeps_bind; [done|]. intros _. apply keeps_table_loop.
Qed.

(** *** The whole call *)

(** What the coordinator has from its arguments and its configuration. *)
Record from_conf (args : CmdArgs) (conf : Config) (c : coordinator) : Prop := {
  from_interface : currentInterface c = IfName args;
  from_table : HostRuleTable conf = Some (hostRuleTable c);
  from_cidrs : HijackCIDR c = conf_OverlayPodCIDR conf ++ conf_ServiceCIDR conf ++ conf_HijackCIDR conf;
  from_routes : Routes c = PolicyRoutes conf;
  from_mode : tuneMode c = ModeDisable → Mode conf = ModeDisable
}.
Lemma from_conf_fields args conf c c' : currentInterface c' = currentInterface c → hostRuleTable c' = hostRuleTable c → HijackCIDR c' = HijackCIDR c →
  Routes c' = Routes c → (tuneMode c' = ModeDisable → tuneMode c = ModeDisable) → from_conf args conf c → from_conf args conf c'.
Proof. intros E1 E2 E3 E4 E5 [? ? ? ? ?]. constructor; [by rewrite E1|by rewrite E2|by rewrite E3|by rewrite E4|by auto]. Qed.

Lemma mode_from_conf args conf nic c s c' : coordinatorModeAndFirstInvoke nic c s = Ret c' → from_conf args conf c → from_conf args conf c'.
Proof.
  intros (veth & _ & (links & _ & Hc)%bind_Ret)%bind_Ret. cbv zeta in Hc. revert Hc. set (c0 := if tuneMode c == ModeAuto then _ else c).
  assert (from_conf args conf c → from_conf args conf c0) as H0.
  { unfold c0, autoModeToSpecificMode. repeat case_match; try done; by apply from_conf_fields. }
  intros Hc Hf. specialize (H0 Hf). clearbody c0.
  destruct (decide (tuneMode c0 = ModeUnderlay)) as [E|E]; [rewrite bool_decide_true in Hc by done; inv_ret; by apply (from_conf_fields _ _ c0)|].
  rewrite bool_decide_false in Hc by done.
  destruct (decide (tuneMode c0 = ModeOverlay)) as [E'|E']; [rewrite bool_decide_true in Hc by done; inv_ret; by apply (from_conf_fields _ _ c0)|].
  rewrite bool_decide_false in Hc by done. case_bool_decide; [by inv_ret|done].
Qed.
(** The mode, the order of the call and the table of the interface, from the links that are up in the
    Pod and from whether it has the veth of the mode underlay. *)
Definition mode_found (args : CmdArgs) (conf : Config) (veth : bool) (links : list NLink) (c : coordinator) : Prop :=
  let first := (IfName args == PodDefaultCniNic conf) in
  (tuneMode c = Mode conf ∨ (Mode conf = ModeAuto ∧ tuneMode c = if first || veth then ModeUnderlay else ModeOverlay)) ∧
  ((tuneMode c = ModeUnderlay ∧ first || veth = true ∧ firstInvoke c = first ∧
      currentRuleTable c = if first then 101 else Z.of_nat (length links) + 98) ∨
   (tuneMode c = ModeOverlay ∧ first = false ∧ veth = false ∧ firstInvoke c = (length links =? 2)%nat ∧
      currentRuleTable c = if (length links =? 2)%nat then 101 else 99 + Z.of_nat (length links))).
Lemma mode_is_found args conf c s c' : coordinatorModeAndFirstInvoke (PodDefaultCniNic conf) c s = Ret c' →
  currentInterface c = IfName args → tuneMode c = Mode conf → Mode conf ≠ ModeDisable →
  ∃ veth links, CheckInterfaceExist PodNS defaultUnderlayVethName s = Ret veth ∧ GetUPLinkList s = Ret links ∧ mode_found args conf veth links c'.
Proof.
  intros (veth & Hv & (links & Hl & Hc)%bind_Ret)%bind_Ret Ei Em Hd. exists veth, links. split_and!; [done..|]. cbv zeta in Hc.
  revert Hc. set (c0 := if tuneMode c == ModeAuto then _ else c).
  assert (currentInterface c0 = IfName args) as Ei0 by (unfold c0, autoModeToSpecificMode; by repeat case_match).
  assert (tuneMode c0 = Mode conf ∨ (Mode conf = ModeAuto ∧ tuneMode c0 = if (IfName args == PodDefaultCniNic conf) || veth then ModeUnderlay else ModeOverlay)) as Em0.
  { unfold c0. rewrite Em. case_bool_decide as Ea; [right; split; [done|]|by left]. unfold autoModeToSpecificMode. rewrite (bool_decide_true (ModeAuto = ModeAuto)) by done.
    cbn [negb]. rewrite Ei. case_bool_decide; [done|]. by destruct veth. }
  clearbody c0. rewrite Ei0. unfold mode_found. intros Hc.
  destruct (decide (tuneMode c0 = ModeUnderlay)) as [E|E].
  { rewrite bool_decide_true in Hc by done. apply bind_Ret in Hc as ([] & Hk%check_Ret & [= <-]). split; [done|]. left. split_and!; [done..|]. by case_bool_decide. }
  rewrite bool_decide_false in Hc by done. destruct (decide (tuneMode c0 = ModeOverlay)) as [E'|E'].
  { rewrite bool_decide_true in Hc by done. apply bind_Ret in Hc as ([] & Hk%check_Ret%negb_true_iff & ([] & Hk'%check_Ret%negb_true_iff & [= <-])%bind_Ret).
    split; [done|]. right. split_and!; [done..|]. by destruct (length links =? 2)%nat. }
  rewrite bool_decide_false in Hc by done. case_bool_decide as E''; [|done]. exfalso. destruct Em0 as [?|[_ Em0]]; [congruence|].
  rewrite Em0 in E. destruct (_ || _); [by apply E|]. by apply E'.
Qed.

(** What [inspect] finds, in the state that [checkNICState] leaves. *)
Definition inspected (args : CmdArgs) (conf : Config) (c : coordinator) (s s' : S) : Prop :=
  checkNICState (IfName args) s = (Ret (), s') ∧ GetIPFamilyByIface (IfName args) s = Ret (ipFamily c) ∧
  (∃ veth links, CheckInterfaceExist PodNS defaultUnderlayVethName s' = Ret veth ∧ GetUPLinkList s' = Ret links ∧ mode_found args conf veth links c) ∧
  (∃ podIPs, GetAllIPAddress PodNS (ipFamily c) [PExact "lo"] s' = Ret podIPs ∧ GetAllHostIPRouteForPod (ipFamily c) podIPs s' = Ret (hostIPRouteForPod c)).
Lemma mode_same_family nic c s c' : coordinatorModeAndFirstInvoke nic c s = Ret c' → ipFamily c' = ipFamily c.
Proof.
  intros (veth & _ & (links & _ & Hc)%bind_Ret)%bind_Ret. cbv zeta in Hc. revert Hc. set (c0 := if tuneMode c == ModeAuto then _ else c).
  assert (ipFamily c0 = ipFamily c) as E0 by (unfold c0, autoModeToSpecificMode; by repeat case_match). clearbody c0. intros Hc.
  destruct (bool_decide (tuneMode c0 = ModeUnderlay)); [by inv_ret|]. destruct (bool_decide (tuneMode c0 = ModeOverlay)); [by inv_ret|].
  case_bool_decide; [by inv_ret|done].
Qed.
Lemma inspect_spec args conf s c s' : Mode conf ≠ ModeDisable → inspect args conf s = (Ret c, s') → from_conf args conf c ∧ inspected args conf c s s'.
Proof.
  intros Hd (table & s1 & [Ht ->]%lift_Ret & (mtu & s2 & [_ ->]%lift_Ret & Hi)%cmd_bind_Ret)%cmd_bind_Ret. apply deref_Ret in Ht.
  apply cmd_bind_Ret in Hi as ([] & s3 & [_ ->]%read_Ret & (family & s4 & [Hf ->]%read_Ret & ([] & s5 & [_ ->]%read_Ret & ([] & s6 & Hn & Hi)%cmd_bind_Ret)%cmd_bind_Ret)%cmd_bind_Ret).
  apply cmd_bind_Ret in Hi as (c1 & s7 & [Hm ->]%read_Ret & (l & s8 & [Hl ->]%read_Ret & (ips & s9 & [Hh ->]%read_Ret & [= <- <-])%cmd_bind_Ret)%cmd_bind_Ret).
  pose proof (mode_same_family _ _ _ _ Hm) as Ef. cbn in Ef. split.
  - apply (from_conf_fields _ _ c1); [done..|]. by apply (mode_from_conf _ _ _ _ _ _ Hm).
  - unfold inspected. cbn [set_host_ips ipFamily hostIPRouteForPod]. rewrite Ef. split_and!; [done..| |by exists l].
    exact (mode_is_found args conf _ _ _ Hm eq_refl eq_refl Hd).
Qed.

(** The veth of the first interface is made in the mode underlay. *)
Definition veth_made (args : CmdArgs) (c : coordinator) (s s' : S) : Prop :=
  (if (tuneMode c == ModeUnderlay) && firstInvoke c then setupVeth (ContainerID args) c else mret ()) s = (Ret (), s').
Lemma choose_veth_spec args conf c s o s' : choose_veth args c s = (Ret o, s') → from_conf args conf c →
  match o with
  | Some c' => (∃ pod host, c' = set_veth pod host c) ∧ veth_made args c' s s' ∧ (tuneMode c' = ModeUnderlay ∨ tuneMode c' = ModeOverlay)
  | None => Mode conf = ModeDisable
  end.
Proof.
  unfold choose_veth, veth_made. intros Hc Hf. destruct (decide (tuneMode c = ModeUnderlay)) as [E|E].
  { rewrite bool_decide_true in Hc by done. apply cmd_bind_Ret in Hc as ([] & s1 & Hv & [= <- <-]). split; [eauto|]. split; [|by left].
    cbn [tuneMode set_veth]. by rewrite bool_decide_true by done. }
  rewrite bool_decide_false in Hc by done. destruct (decide (tuneMode c = ModeOverlay)) as [E'|E'].
  { rewrite bool_decide_true in Hc by done. apply cmd_bind_Ret in Hc as (host & s1 & [_ ->]%read_Ret & [= <- <-]). split; [eauto|]. split; [|by right].
    cbn [tuneMode set_veth]. by rewrite bool_decide_false by done. }
  rewrite bool_decide_false in Hc by done. case_bool_decide as Ed; [|done]. injection Hc as <- _. by apply (from_mode _ _ _ Hf).
Qed.
Lemma setupNeighborhood_fields c s c' s' : setupNeighborhood c s = (Ret c', s') → ∃ a b, c' = set_hw a b c.
Proof.
  intros ([a b] & s1 & _ & (l & s2 & _ & (link & s3 & _ & ([] & s4 & _ & ([] & s5 & _ & Hn)%cmd_bind_Ret)%cmd_bind_Ret)%cmd_bind_Ret)%cmd_bind_Ret)%cmd_bind_Ret.
  exists a, b. destruct (negb _); [by injection Hn as <- _|]. by apply cmd_bind_Ret in Hn as (? & ? & _ & ([] & ? & _ & [= <- _])%cmd_bind_Ret).
Qed.
Lemma setup_interface_spec args conf c s c' s' : setup_interface args conf c s = (Ret c', s') →
  ∃ addrs a b v4, IPAddressByName (IfName args) (ipFamily c) s = Ret addrs ∧ c' = set_nic v4 None (set_hw a b (set_address addrs c)).
Proof.
  intros (addrs & s1 & [Ha ->]%read_Ret & ([] & s2 & _ & ([] & s3 & _ & ([] & s4 & _ & Hi)%cmd_bind_Ret)%cmd_bind_Ret)%cmd_bind_Ret)%cmd_bind_Ret.
  apply cmd_bind_Ret in Hi as (rp & s5 & _ & ([] & s6 & _ & (c1 & s7 & (a & b & ->)%setupNeighborhood_fields & (l & s8 & _ & [= <- _])%cmd_bind_Ret)%cmd_bind_Ret)%cmd_bind_Ret).
  eauto 6.
Qed.

(** What the coordinator of a call holds: its interface, CIDRs, routes and table from the
    configuration, and the rest from the states that the call meets - the family, the mode and the
    addresses of the node once logging is set up and the interface is up, the addresses of the
    interface once the veth is there; the gateways to the cluster are the first addresses of the node
    of the families. *)
Definition observed (args : CmdArgs) (conf : Config) (c : coordinator) (s : S) : Prop :=
  from_conf args conf c ∧
  (∃ log t0 t1 t2, conf_LogOptions conf = Some log ∧ SetupFileLogging log s = (Ret (), t0) ∧ inspected args conf c t0 t1 ∧
     veth_made args c t1 t2 ∧ IPAddressByName (IfName args) (ipFamily c) t2 = Ret (currentAddress c)) ∧
  v4HijackRouteGw c = (if ipFamily c =? FAMILY_V6 then nilIP else default nilIP (List.find is4 (hostIPRouteForPod c))) ∧
  v6HijackRouteGw c = (if ipFamily c =? FAMILY_V4 then nilIP else default nilIP (List.find (λ ip, negb (is4 ip) && negb (is_nil ip)) (hostIPRouteForPod c))).

(** The routes of the Pod and the node after a call. *)
Record wired (c : coordinator) (s : S) : Prop := {
  wired_pod : Forall (λ a, pod_there c a s) (currentAddress c);
  wired_node : Forall (λ ip, node_there c ip s) (hostIPRouteForPod c);
  wired_cluster : Forall (λ cidr, cluster_there c cidr s) (HijackCIDR c);
  wired_policy : Forall (λ r, policy_there c r s) (Routes c)
}.

Lemma setup_routes_spec conf c s c' s' : setup_routes conf c s = (Ret c', s') →
  tuneMode c = ModeUnderlay ∨ tuneMode c = ModeOverlay → c' = hijack_gateways c ∧ wired c' s'.
Proof.
  intros ([] & s1 & H1%setupHostRoutes_spec & ([] & s2 & H2 & ([] & s3 & H3 & ([] & s4 & H4 & ([] & s5 & H5 & [= <- <-])%cmd_bind_Ret)%cmd_bind_Ret)%cmd_bind_Ret)%cmd_bind_Ret)%cmd_bind_Ret Hm. split; [done|].
  set (c2 := hijack_gateways c) in *. apply setupPolicyRoutes_spec in H5 as [H5 K5]; [|change (tuneMode c2) with (tuneMode c); by destruct Hm as [-> | ->]].
  assert (kept s2 s5) as K2.
  { etrans; [|exact K5]. etrans; [eapply (keeps_if _ _ _ (keeps_makeReply c2) (keeps_ret ())); exact H3|].
    eapply (keeps_if _ _ _ (keeps_tunePodRoutes _ c2) (keeps_ret ())). exact H4. }
  assert (kept s1 s5) as K1 by (etrans; [by eapply keeps_setupHijackRoutes|done]). destruct H1 as [Ha Hn]. constructor.
  - eapply Forall_impl; [exact Ha|]. intros a. by apply there_kept.
  - eapply Forall_impl; [exact Hn|]. intros ip. exact (node_there_kept c ip _ _ K1).
  - apply setupHijackRoutes_spec in H2. eapply Forall_impl; [exact H2|]. intros cidr. by apply cluster_there_kept.
  - done.
Qed.

Lemma wired_kept c s s' : kept s s' → wired c s → wired c s'.
Proof.
  intros Hk [Ha Hn Hc Hp]. constructor; try done; (eapply Forall_impl; [eassumption|]); intros x;
    [by apply there_kept|by apply node_there_kept|by apply cluster_there_kept|by apply policy_there_kept].
Qed.

(** C14: an ADD of the coordinator plugin that succeeds leaves the Pod and its node wired, unless the
    mode is disable.  Of what the call has observed - the addresses of the interface and of the node,
    the family, the mode and whether it is the first call, and with them the tables and the gateways -
    this holds in the end: the table of the node has a route to every address of the interface; in the
    Pod, the table of the interface (and the main one, for the first call) has a route to every
    address of the node, the table for the cluster one to every overlay, service and configured CIDR
    whose family has a gateway, and the table for policies one to every configured destination of
    the family.  In particular, nothing that the plugin sets up is undone by its later steps, the
    move of the default routes included.  (A route is one of the table to the destination;
    destinations that are zero are not counted.) *)
Theorem coordinator_wires_pod args s s' : CmdAdd args s = (Ret (), s') →
  ∃ conf, load_config args s = (Ret conf, s) ∧ (Mode conf = ModeDisable ∨ ∃ c, observed args conf c s ∧ wired c s').
Proof.
  intros (conf & s0 & Hl & Ha)%cmd_bind_Ret. assert (s0 = s) as ->.
  { unfold load_config in Hl. apply cmd_bind_Ret in Hl as ([pod ns] & t & [_ ->]%lift_Ret & (api & t & [_ ->]%read_Ret & [_ ->]%lift_Ret)%cmd_bind_Ret). done. }
  exists conf. split; [done|]. destruct (decide (Mode conf = ModeDisable)) as [Hd|Hd]; [by left|]. right. rewrite bool_decide_false in Ha by done.
  apply cmd_bind_Ret in Ha as (log & s1 & [Hlog%deref_Ret ->]%lift_Ret & ([] & s2 & Hset & ([] & s3 & [_ ->]%lift_Ret & (c & s4 & Hi & Ha)%cmd_bind_Ret)%cmd_bind_Ret)%cmd_bind_Ret).
  apply inspect_spec in Hi as [Hf Hi]; [|done].
  apply cmd_bind_Ret in Ha as (o & s5 & Ho & Ha). apply (choose_veth_spec _ conf) in Ho; [|done]. destruct o as [c1|]; [|done].
  destruct Ho as ((pod & host & ->) & Hv & Hm).
  apply cmd_bind_Ret in Ha as (c2 & s6 & (addrs & a & b & v4 & Haddr & ->)%setup_interface_spec & (c3 & s7 & Hs & Hp)%cmd_bind_Ret).
  apply setup_routes_spec in Hs as [-> Hw]; [|done]. exists (hijack_gateways (set_nic v4 None (set_hw a b (set_address addrs (set_veth pod host c))))). split.
  - split; [by apply (from_conf_fields _ _ c)|]. split; [|split; reflexivity]. exists log, s2, s4, s5. by split_and!.
  - eapply wired_kept; [|exact Hw]. apply kept_routes. intros ns. pose proof (print_result_routes (StdinData args) ns s7) as Hr. by rewrite Hp in Hr.
Qed.
End wired.

(** ** Policy routing *)

Section tuning.
Context {S : Type} `{K : Kernel S} `{KL : !KernelLaws S}.


(** Rules and routes of a table were added to the Pod, and links stayed. *)
Definition grown (t : Z) (s s' : S) : Prop :=
  (∃ A, routes PodNS s' ≡ₚ A ++ routes PodNS s ∧ Forall (λ r, r_Table r = t ∧ plain_route r) A) ∧
  (∀ r, r ∈ rules PodNS s → r ∈ rules PodNS s') ∧
  (∀ name, LinkByName PodNS name s' = LinkByName PodNS name s).
#[local] Instance grown_preorder t : PreOrder (grown t).
Proof.
  split.
  - intros s. split_and!; [|done..]. exists []. by split; [|constructor].
  - intros s1 s2 s3 ((A & P1 & F1) & R1 & L1) ((B & P2 & F2) & R2 & L2). split_and!; [|by auto|intros n; by rewrite L2].
    exists (B ++ A). split; [by rewrite P2, P1, app_assoc|by apply Forall_app].
Qed.



(** A move leaves the rules alone. *)
Definition same_rules (s s' : S) : Prop := rules PodNS s' = rules PodNS s.
#[local] Instance same_rules_preorder : PreOrder same_rules.
Proof. split; [done|]. unfold same_rules. congruence. Qed.
Lemma route_add_rules r : evolves same_rules (RouteAdd PodNS r).
Proof. intros s. destruct (RouteAdd PodNS r s) as [o s1] eqn:E. destruct (route_add_frame _ _ _ _ _ E) as (_ & Hr & _). apply Hr. Qed.
Lemma route_del_rules r : evolves same_rules (RouteDel PodNS r).
Proof. intros s. destruct (RouteDel PodNS r s) as [o s1] eqn:E. destruct (route_del_frame _ _ _ _ _ E) as (_ & Hr). apply Hr. Qed.
#[local] Hint Resolve evolves_unless route_add_rules route_del_rules : evolves.

#[local] Existing Instance moved_dec.


End tuning.

(** ** Modes *)

Section modes.
Context {S : Type} `{K : Kernel S}.

(** The mode that auto stands for. *)
Definition specific_mode (mode : string) (first veth : bool) : string :=
  if mode == ModeAuto then if first || veth then ModeUnderlay else ModeOverlay else mode.

Lemma specific_mode_spec nic veth c :
  let c' := if tuneMode c == ModeAuto then autoModeToSpecificMode ModeAuto nic veth c else c in
  c' = set_mode (specific_mode (tuneMode c) (currentInterface c == nic) veth) c.
Proof.
  unfold specific_mode, autoModeToSpecificMode. destruct (decide (tuneMode c = ModeAuto)) as [E|E].
  - rewrite !bool_decide_true by done. cbn [negb]. by destruct (bool_decide (currentInterface c = nic)), veth.
  - rewrite !bool_decide_false by done. by destruct c.
Qed.

(** Comparisons of the names of modes. *)
Ltac decide_modes :=
  repeat match goal with
  | |- context [@bool_decide ?P ?D] =>
      let v := eval vm_compute in (@bool_decide P D) in
      match v with true => change (@bool_decide P D) with true | false => change (@bool_decide P D) with false end
  end.

(** The modes that an interface is accepted in.  Auto always is, whatever the Pod has; underlay
    where the interface is the first one or the auxiliary veth is there; overlay where neither is;
    disable always; no other name.  The tables of the interfaces are counted from the interfaces
    that are up: in overlay mode the one of the k-th is 99 + k, in underlay mode 98 + k, where the
    first interface has 101. *)
Theorem mode_accepted nic c s veth links : CheckInterfaceExist PodNS defaultUnderlayVethName s = Ret veth → GetUPLinkList s = Ret links →
  let first := (currentInterface c == nic) in
  let mode := specific_mode (tuneMode c) first veth in
  ((∃ c', coordinatorModeAndFirstInvoke nic c s = Ret c') ↔
     tuneMode c = ModeAuto ∨ tuneMode c = ModeDisable ∨ (tuneMode c = ModeUnderlay ∧ first || veth = true) ∨ (tuneMode c = ModeOverlay ∧ first || veth = false)) ∧
  ∀ c', coordinatorModeAndFirstInvoke nic c s = Ret c' → tuneMode c' = mode ∧
    (mode = ModeUnderlay → firstInvoke c' = first ∧ currentRuleTable c' = if first then 101 else 98 + Z.of_nat (length links)) ∧
    (mode = ModeOverlay → firstInvoke c' = (length links =? 2)%nat ∧ currentRuleTable c' = 99 + Z.of_nat (length links)).
Proof.
  intros Hv Hl first mode. unfold coordinatorModeAndFirstInvoke. rewrite Hv, Hl. cbn [mbind outcome_bind]. cbv zeta. rewrite specific_mode_spec.
  change (specific_mode (tuneMode c) (currentInterface c == nic) veth) with mode. change (currentInterface (set_mode mode c) == nic) with first.
  change (tuneMode (set_mode mode c)) with mode. set (c0 := set_mode mode c). assert (tuneMode c0 = mode) as E0 by done. clearbody c0 first.
  revert E0. subst mode. unfold specific_mode.
  destruct (decide (tuneMode c = ModeAuto)) as [Ea|Ea]; [|destruct (decide (tuneMode c = ModeUnderlay)) as [Eu|Eu];
    [|destruct (decide (tuneMode c = ModeOverlay)) as [Eo|Eo]; [|destruct (decide (tuneMode c = ModeDisable)) as [Ed|Ed]]]].
  1: rewrite !Ea. 2: rewrite !Eu. 3: rewrite !Eo. 4: rewrite !Ed. 5: rewrite !(bool_decide_false (tuneMode c = _)) by done.
  5: { intros _. split; [|done]. split; [by intros [? ?]|]. intuition congruence. }
  all: destruct first, veth; cbn [orb negb]; decide_modes; cbn [check mbind outcome_bind]; intros E0; (split; [split; [by intros [? ?]; auto 6|]|]).
  all: try (by eauto); try (by intros [?|[?|[[? ?]|[? ?]]]]; discriminate).
  all: intros c' [= <-]; split_and!; try done; intros _; split; try done; cbn; try lia; destruct (Nat.eqb_spec (length links) 2) as [-> | _]; done.
Qed.
End modes.

(** ** Where the code does less than it means to *)

Section gaps.
Context {S : Type} `{K : Kernel S} `{N : NetIO S} `{H : PluginHost S}.

(** The veth of the Pod may fail to get its address, or even to come up: the error is lost, and the
    setup succeeds. *)
Theorem veth_error_dropped containerID c s m1 s1 m2 s2 e s3 link s4 :
  GenerateRandMAC s = (Ret m1, s1) → GenerateRandMAC s1 = (Ret m2, s2) →
  pod_veth (getHostVethName containerID) m1 c s2 = (Fail e, s3) →
  LinkByName HostNS (getHostVethName containerID) s3 = Ret link → LinkSetHardwareAddr HostNS link m2 s3 = (Ret (), s4) →
  setupVeth containerID c s = (Ret (), s4).
Proof.
  intros H1 H2 H3 H4 H5. unfold setupVeth, mbind, cmd_bind, no_error, unless_err, read. by rewrite H1, H2, H3, H4, H5.
Qed.

(** A length of the queue is looked for among the interfaces of the node. *)
Theorem queue_of_node args conf c s n addrs : TxQueueLen conf = Some n → 0 < n → MacPrefix conf = EmptyString →
  IPAddressByName (IfName args) (ipFamily c) s = Ret addrs → LinkByName HostNS (IfName args) s = Fail LinkNotFound →
  setup_interface args conf c s = (Fail LinkNotFound, s).
Proof.
  intros Ht Hn Hm Ha Hl. unfold setup_interface, LinkSetTxqueueLen, mbind, cmd_bind, read. rewrite Ha, Hm, Ht, bool_decide_true by done.
  rewrite (proj2 (Z.ltb_lt _ _) Hn). cbn. by rewrite Hl.
Qed.

(** An interface that is to have the default route must be there when the first one after eth0 is
    set up. *)
Theorem later_nic_refused nic c s dflt : nic ≠ EmptyString → dflt ≠ EmptyString → nic ≠ dflt →
  GetDefaultRouteInterface (ipFamily c) (currentInterface c) s = Ret dflt → LinkByName PodNS nic s = Fail LinkNotFound →
  tunePodRoutes nic c s = (Fail (ErrOther "podDefaultRouteNIC don't exist in pod"), s).
Proof.
  intros Hn Hd Hnd Hg Hl. unfold tunePodRoutes, mbind, cmd_bind, read. rewrite Hg, (bool_decide_false (dflt = _)), !(bool_decide_false (nic = _)) by done.
  cbn [orb]. unfold CheckInterfaceExist. by rewrite Hl.
Qed.

(** Where the route to a Pod has no source address, nil is one of the addresses of the node. *)
Theorem nil_host_address a s r rest : RouteGet HostNS (na_IP a) s = Ret (r :: rest) → r_Src r = nilIP →
  node_ips_to FAMILY_ALL [a] [] s = Ret [nilIP].
Proof.
  intros Hr Hs. unfold node_ips_to, GetGatewayIP, gateway_loop. rewrite Hr. cbn [mbind outcome_bind]. rewrite Hs. by destruct (is4 (na_IP a)).
Qed.

(** The mode that the resource calls disabled is not known to the plugin. *)
Theorem disabled_unknown nic c s veth links : tuneMode c = "disabled"%string →
  CheckInterfaceExist PodNS defaultUnderlayVethName s = Ret veth → GetUPLinkList s = Ret links →
  coordinatorModeAndFirstInvoke nic c s = Fail (ErrOther "unknown tuneMode").
Proof.
  intros Hm Hv Hl. unfold coordinatorModeAndFirstInvoke. rewrite Hv, Hl. cbn [mbind outcome_bind]. cbv zeta.
  rewrite !(bool_decide_false (tuneMode c = _)) by (by rewrite Hm). done.
Qed.

(** In underlay mode the first interface and the second one share a table. *)
Theorem underlay_tables_shared nic c c' s s' links links' veth : currentInterface c = nic → currentInterface c' ≠ nic →
  tuneMode c = ModeUnderlay → tuneMode c' = ModeUnderlay →
  CheckInterfaceExist PodNS defaultUnderlayVethName s = Ret veth → GetUPLinkList s = Ret links →
  CheckInterfaceExist PodNS defaultUnderlayVethName s' = Ret true → GetUPLinkList s' = Ret links' → length links' = 3%nat →
  ∃ d d', coordinatorModeAndFirstInvoke nic c s = Ret d ∧ coordinatorModeAndFirstInvoke nic c' s' = Ret d' ∧ currentRuleTable d = currentRuleTable d'.
Proof.
  intros Hi Hi' Hm Hm' Hv Hl Hv' Hl' Hn. unfold coordinatorModeAndFirstInvoke. rewrite Hv, Hl, Hv', Hl'. cbn [mbind outcome_bind]. cbv zeta.
  rewrite Hm, Hm'. rewrite !(bool_decide_false (ModeUnderlay = ModeAuto)) by done. rewrite Hm, Hm', !(bool_decide_true (ModeUnderlay = _)) by done.
  rewrite (bool_decide_true (currentInterface c = nic)), (bool_decide_false (currentInterface c' = nic)) by done. cbn [orb check].
  do 2 eexists. split_and!; [done..|]. cbn. by rewrite Hn.
Qed.
End gaps.

(** ** A Pod and its node *)

(** A host on which the other calls work and do nothing, and the agent serves one configuration. *)
#[export] Instance mem_host_calls : PluginHost Mem := {
  LoadArgs _ := Ret ("web-0", "default")%string;
  decode_conf _ := Some plain_conf;
  parse_prev _ := true;
  GetResult _ := Ret ();
  PrintResult _ := mem_done id;
  GetCoordinatorConfig _ _ _ := Ret ex_api;
  SetupFileLogging _ := mem_done id;
  GetNS _ _ := Ret ();
  GetCurrentNS _ := Ret ();
  GenerateRandMAC := mret [2; 0; 0; 0; 0; 9];
  SetupVethWithName _ _ _ _ := lift (Fail (ErrOther "not supported"));
  EnsureRule _ _ _ _ := mem_done id;
  Stat _ _ _ := Ret ();
  Sysctl _ _ _ := mem_done id
}.
#[export] Instance mem_host_laws : PluginLaws Mem.
Proof. by split. Qed.

(** The Pod of [demo_net] on a node with one address; eth0 is one end of a veth, and net1 has a
    default route as well. *)
Definition demo_pair : Mem :=
  let zero := Some (MkIPNet [0; 0; 0; 0] (CIDRMask 0 4)) in
  let net a b := Some (MkIPNet [a; b; 0; 0] (CIDRMask 16 4)) in
  MkMem (MkNs [MkNLink "lo" 1 9 0 []; MkNLink "eth0" 2 19 7 [2; 0; 0; 0; 0; 1]; MkNLink "net1" 3 19 5 [2; 0; 0; 0; 0; 2]]
      (ns_addrs (mem_pod demo_net))
      [MkNRoute 2 0 zero nilIP [10; 6; 0; 1] RT_TABLE_MAIN 0 []; MkNRoute 3 253 (net 10 7) [10; 7; 0; 2] nilIP RT_TABLE_MAIN 0 []] [] [])
    (MkNs [MkNLink "lo" 1 9 0 []; MkNLink "ens1" 5 19 0 [2; 0; 0; 0; 0; 3]; MkNLink "lxc7" 7 19 0 [2; 0; 0; 0; 0; 4]]
      [(5, MkNAddr [10; 7; 0; 9] (MkIPNet [10; 7; 0; 9] (CIDRMask 16 4)))]
      [MkNRoute 5 253 (net 10 7) [10; 7; 0; 9] nilIP RT_TABLE_MAIN 0 []; MkNRoute 7 253 (net 10 6) [10; 7; 0; 9] nilIP RT_TABLE_MAIN 0 []] [] []).
Definition demo_args : CmdArgs := MkCmdArgs "0123456789abcdef" "/proc/1/ns/net" "net1" "" "".

Definition demo_wired : Mem := (CmdAdd demo_args demo_pair).2.
Lemma coordinator_wires_pod_witness : CmdAdd demo_args demo_pair = (Ret (), demo_wired) ∧
  ∃ c, observed demo_args ex_parsed c demo_pair ∧ wired c demo_wired ∧ na_IP <$> currentAddress c = [[10; 7; 0; 2]] ∧ hostIPRouteForPod c = [[10; 7; 0; 9]].
Proof.
  assert (CmdAdd demo_args demo_pair = (Ret (), demo_wired)) as E by (vm_compute; reflexivity). split; [exact E|].
  destruct (coordinator_wires_pod demo_args demo_pair demo_wired E) as (conf & Hl & Hw).
  assert (load_config demo_args demo_pair = (Ret ex_parsed, demo_pair)) as El by (vm_compute; reflexivity).
  rewrite El in Hl. injection Hl as <-. destruct Hw as [Hm|(c & Ho & Hw)]; [discriminate Hm|]. exists c. split; [exact Ho|]. split; [exact Hw|].
  destruct Ho as (_ & (log & t0 & t1 & t2 & Elog & Et0 & (Et1 & Ef & (veth & links & Ev & Elk & Em) & podIPs & Ep & Eh) & Ev2 & Ea) & _). injection Elog as <-.
  injection Et0 as <-. assert (t1 = demo_pair) as -> by (vm_compute in Et1; by injection Et1 as <-).
  assert (ipFamily c = FAMILY_V4) as E4 by (vm_compute in Ef; injection Ef as Ef; exact (eq_sym Ef)). rewrite E4 in *.
  assert (veth = false) as -> by (vm_compute in Ev; injection Ev as Ev; exact (eq_sym Ev)).
  assert (podIPs = match GetAllIPAddress PodNS FAMILY_V4 [PExact "lo"] demo_pair with Ret l => l | _ => [] end) as -> by (rewrite Ep; reflexivity).
  destruct Em as [_ [(_ & Hfirst & _)|(Eo & _)]]; [vm_compute in Hfirst; discriminate Hfirst|]. unfold veth_made in Ev2. rewrite Eo in Ev2.
  injection Ev2 as <-. split.
  - assert (IPAddressByName (IfName demo_args) FAMILY_V4 demo_pair = Ret [MkNAddr [10; 7; 0; 2] (MkIPNet [10; 7; 0; 2] (CIDRMask 16 4))]) as Ea' by (vm_compute; reflexivity).
    rewrite Ea' in Ea. injection Ea as <-. reflexivity.
  - vm_compute in Eh. injection Eh as Eh. exact (eq_sym Eh).
Defined.

Definition demo_coordinator : coordinator :=
  MkCoordinator true FAMILY_V4 101 500 ModeOverlay "lxc7" "eth0" "" "net1" 1500 nilIP nilIP [] [] [] []
    [MkNAddr [10; 7; 0; 2] (MkIPNet [10; 7; 0; 2] (CIDRMask 16 4))] None None [].

Lemma mode_accepted_witness : ∃ c', coordinatorModeAndFirstInvoke "eth0" (set_mode ModeAuto demo_coordinator) demo_pair = Ret c' ∧
  tuneMode c' = ModeOverlay ∧ currentRuleTable c' = 101.
Proof.
  edestruct (mode_accepted "eth0" (set_mode ModeAuto demo_coordinator) demo_pair) as [[_ Hok] Hc]; [vm_compute; reflexivity..|].
  destruct Hok as [c' E]; [by left|]. exists c'. split; [exact E|]. destruct (Hc c' E) as (Hm & _ & Ho).
  split; [rewrite Hm; reflexivity|]. destruct Ho as [_ ->]; reflexivity.
Defined.
