(* ===== verification/IPAMPlugin.v ===== *)
(** * cmd/spiderpool: the IPAM plugin, and the handlers of the agent behind it

    command_add.go, command_delete.go, cni_types.go and utils.go of cmd/spiderpool/cmd, and
    cmd/spiderpool-agent/cmd/ipam.go: the plugin asks the agent for the addresses of a Pod, makes
    sure that nobody else has them, announces them and prints the result; the agent serves the
    requests with the IPAM.  The plugin is written against the class [AgentAPI]; the handlers of the
    agent are an instance of it. *)

From S2P Require Import Prelude NetIP NetIPFacts IPAddr Cidr K8s Retry Convert IPPoolManager PoolLease Workload Endpoint IPAMRelease Selector PoolSelection IPAMAllocate NetPrefix MultusConfig CoordinatorConf Networking Detection.
Local Open Scope Z_scope.
Local Open Scope go_scope.

Definition ErrAgentHealthCheck : error := ErrOther "unhealthy spiderpool-agent backend".
Definition ErrPostIPAM : error := ErrOther "spiderpool IP allocation error".

(** ** Configuration *)

Record PluginIPAM := MkPluginIPAM {
  plugin_Type : string;
  plugin_LogLevel : string;
  plugin_LogFilePath : string;
  plugin_LogFileMaxSize : Z;
  plugin_LogFileMaxAge : Z;
  plugin_LogFileMaxCount : Z;
  plugin_DefaultIPv4IPPool : list string;
  plugin_DefaultIPv6IPPool : list string;
  plugin_CleanGateway : bool;
  plugin_MatchMasterSubnet : bool;
  IPAMUnixSocketPath : string
}.
Record NetConf := MkNetConf { nc_Name : string; CNIVersion : string; nc_IPAM : PluginIPAM }.
Definition DefaultLogLevelStr : string := "debug".
Definition DefaultIPAMUnixSocketPath : string := "/var/run/spidernet/spiderpool.sock".

(** [decoded] is the JSON of the configuration. *)
Definition LoadNetConf (decoded : option NetConf) : outcome NetConf :=
  match decoded with
  | None => Fail (ErrOther "failed to parse CNI network configuration")
  | Some c =>
      let i := nc_IPAM c in
      let i := MkPluginIPAM (plugin_Type i) (or_text (plugin_LogLevel i) DefaultLogLevelStr) (plugin_LogFilePath i) (plugin_LogFileMaxSize i)
                 (plugin_LogFileMaxAge i) (plugin_LogFileMaxCount i) (plugin_DefaultIPv4IPPool i) (plugin_DefaultIPv6IPPool i) (plugin_CleanGateway i) (plugin_MatchMasterSubnet i) (or_text (IPAMUnixSocketPath i) DefaultIPAMUnixSocketPath) in
      if existsb (λ v, CNIVersion c == v) SupportCNIVersions then Ret (MkNetConf (nc_Name c) (CNIVersion c) i)
      else Fail (ErrOther "unsupported specified CNI version")
  end.

Record K8sArgs := MkK8sArgs { K8S_POD_NAME : string; K8S_POD_NAMESPACE : string; K8S_POD_UID : string }.

(** ** The result *)

Record CNIIP := MkCNIIP { ci_Address : IPNet; ci_Gateway : IP }.
Record CNIRoute := MkCNIRoute { cr_Dst : IPNet; cr_GW : IP }.
Record CNIResult := MkCNIResult { cres_Version : string; cres_Routes : list CNIRoute; cres_IPs : list CNIIP }.

(** The routes and addresses of the interface, in order; a nil route is a panic. *)
Fixpoint assemble_routes (ifName : string) (routes : list (option OAIRoute)) : outcome (list CNIRoute) :=
  match routes with
  | [] => Ret []
  | route :: routes =>
      r ← deref route;
      if Convert.IfName r == ifName then
        match net_ParseCIDR (oai_Dst r) with
        | None => Fail (ErrOther "invalid CIDR address")
        | Some (_, dst) => rest ← assemble_routes ifName routes; Ret (MkCNIRoute dst (net_ParseIP (oai_Gw r)) :: rest)
        end
      else assemble_routes ifName routes
  end.
Fixpoint assemble_ips (ifName : string) (ips : list IPConfig) : outcome (list CNIIP) :=
  match ips with
  | [] => Ret []
  | ip :: ips =>
      if Nic ip == ifName then
        address ← ParseIP (Version ip) (Address ip) true;
        rest ← assemble_ips ifName ips;
        Ret (MkCNIIP address (net_ParseIP (Gateway ip)) :: rest)
      else assemble_ips ifName ips
  end.
(** The answer of the agent has no DNS. *)
Definition assembleResult (cniVersion ifName : string) (ipamResponse : IpamAddResponse) : outcome CNIResult :=
  routes ← assemble_routes ifName ipamResponse.2;
  ips ← assemble_ips ifName ipamResponse.1;
  _ ← check (negb (length ips =? 0)%nat) (ErrOther "no Interface IP allocation found");
  Ret (MkCNIResult cniVersion routes ips).

(** The validation of the generated models: the enumeration of the version and the pattern of the
    hardware address. *)
Definition mac_pattern (s : string) : bool := let l := split ":" s in (length l =? 6)%nat && forallb (hex_string_of_length 2) l.
Definition valid_config (c : IPConfig) : bool :=
  ((Version c =? 4) || (Version c =? 6)) && ((Mac c == EmptyString) || mac_pattern (Mac c)).
Definition validate_response (r : IpamAddResponse) : outcome unit := check (forallb valid_config r.1) ErrPostIPAM.

(** ** The plugin *)

(** The API of the agent. *)
Class AgentAPI (S : Type) := {
  NewAgentOpenAPIUnixClient : string → outcome unit;
  GetIpamHealthy : cmd S unit;
  PostIpamIP : IpamAddArgs → cmd S IpamAddResponse;
  DeleteIpamIP : IpamDelArgs → cmd S unit;
  DeleteIpamIps : IpamBatchDelArgs → cmd S unit
}.
(** What else the plugin calls. *)
Class IPAMHost (S : Type) := {
  decode_net_conf : string → option NetConf;
  load_args : string → outcome K8sArgs;
  InitFileLogger : LogOptions → cmd S unit;
  open_ns : string → S → outcome unit;
  current_ns : S → outcome unit;
  print_result : CNIResult → cmd S unit
}.

Section plugin.
Context {S : Type} `{K : Kernel S} `{N : NetIO S} `{A : AgentAPI S} `{H : IPAMHost S} `{SC : Schedule}.
(** The number of packets that are read at most. *)
Context (fuel : nat).

Definition SetupFileLogging (conf : NetConf) : cmd S unit :=
  let i := nc_IPAM conf in
  if ConvertLogLevel (plugin_LogLevel i) then
    InitFileLogger (MkLogOptions (plugin_LogLevel i) (plugin_LogFilePath i) (plugin_LogFileMaxSize i) (plugin_LogFileMaxAge i) (plugin_LogFileMaxCount i))
  else lift (Fail (ErrOther "unsupported log level")).

(** The flag for conflicts is not set. *)
Definition deleteIpamIps (k8sArgs : K8sArgs) : cmd S unit :=
  DeleteIpamIps (MkBatchDelArgs (K8S_POD_NAMESPACE k8sArgs) (K8S_POD_NAME k8sArgs) (K8S_POD_UID k8sArgs) false).

(** The deferred function recovers from a panic of its goroutine, logs it, and returns what [err]
    was. *)
Definition recover {B} (err : option error) (m : cmd S B) (k : B → cmd S unit) : cmd S unit := λ s,
  match m s with
  | (Ret b, s') => k b s'
  | (Fail e, s') => (Fail e, s')
  | (Panic, s') => (match err with Some e => Fail e | None => Ret () end, s')
  | (OutOfFuel, s') => (OutOfFuel, s')
  end.

Definition connect (socket : string) : cmd S unit :=
  _ ← lift (NewAgentOpenAPIUnixClient socket);
  map_error (λ _, ErrAgentHealthCheck) GetIpamHealthy.

(** The parsed configuration and arguments, and the answer of the agent. *)
Definition request (args : CmdArgs) : cmd S (NetConf * K8sArgs * IpamAddResponse) :=
  conf ← lift (LoadNetConf (decode_net_conf (StdinData args)));
  _ ← read (open_ns (Netns args));
  _ ← SetupFileLogging conf;
  _ ← read current_ns;
  k8sArgs ← lift (load_args (Args args));
  _ ← connect (IPAMUnixSocketPath (nc_IPAM conf));
  let i := nc_IPAM conf in
  resp ← map_error (λ _, ErrPostIPAM) (PostIpamIP (MkAddArgs (K8S_POD_NAMESPACE k8sArgs) (K8S_POD_NAME k8sArgs) (IfName args) (plugin_CleanGateway i)
           (plugin_DefaultIPv4IPPool i) (plugin_DefaultIPv6IPPool i) (Some (Netns args)) (plugin_MatchMasterSubnet i)));
  _ ← lift (validate_response resp);
  mret (conf, k8sArgs, resp).

Definition cleanable (e : error) : bool := (e == ErrIPConflict) || (e == ErrGatewayUnreachable).
(** Where an address has a conflict or the gateway does not answer, all addresses of the Pod are
    given back.  A panic in one of the goroutines of the detection ends the process. *)
Definition detect (args : CmdArgs) (k8sArgs : K8sArgs) (ips : list IPConfig) : cmd S unit := λ s,
  match DetectIPConflictAndGatewayReachable fuel (IfName args) ips s with
  | (Fail e, s') =>
      if cleanable e then
        match deleteIpamIps k8sArgs s' with
        | (Fail e', s'') => (Fail (ErrAppend e e'), s'')
        | (Ret _, s'') => (Fail e, s'')
        | (Panic, s'') => (Fail e, s'')
        | (OutOfFuel, s'') => (OutOfFuel, s'')
        end
      else (Fail e, s')
  | r => r
  end.

(** The addresses that parse, of all interfaces. *)
Definition announced (ips : list IPConfig) : list IP :=
  omap (λ i, if Address i == EmptyString then None else fst <$> net_ParseCIDR (Address i)) ips.

(** The error of the announcement is kept, for a panic that may follow, and then forgotten. *)
Definition finish (args : CmdArgs) (conf : NetConf) (resp : IpamAddResponse) : cmd S unit := λ s,
  let result := map_error (λ _, ErrPostIPAM) (lift (assembleResult (CNIVersion conf) (IfName args) resp)) in
  match AnnounceIPs (IfName args) (announced resp.1) s with
  | (Ret _, s') => recover None result print_result s'
  | (Fail e, s') => recover (Some e) result print_result s'
  | (Panic, s') => (Panic, s')
  | (OutOfFuel, s') => (OutOfFuel, s')
  end.

Definition CmdAdd (args : CmdArgs) : cmd S unit :=
  recover None (request args) (λ '(conf, k8sArgs, resp), _ ← detect args k8sArgs resp.1; finish args conf resp).

(** A failure of the agent is logged only. *)
Definition CmdDel (args : CmdArgs) : cmd S unit :=
  recover None (
    conf ← lift (LoadNetConf (decode_net_conf (StdinData args)));
    _ ← SetupFileLogging conf;
    k8sArgs ← lift (load_args (Args args));
    _ ← connect (IPAMUnixSocketPath (nc_IPAM conf));
    unless_err (λ _, true)
      (DeleteIpamIP (MkDelArgs (K8S_POD_NAMESPACE k8sArgs) (K8S_POD_NAME k8sArgs) (K8S_POD_UID k8sArgs) (IfName args)))) mret.
End plugin.

(** ** What the plugin promises *)

Section facts.
Context {S : Type} `{K : Kernel S} `{N : NetIO S} `{A : AgentAPI S} `{H : IPAMHost S} `{SC : Schedule}.
Context (fuel : nat).

(** The address of the result that comes from one of the answer. *)
Definition cni_ip (c : IPConfig) (r : CNIIP) : Prop := ParseIP (Version c) (Address c) true = Ret (ci_Address r) ∧ ci_Gateway r = net_ParseIP (Gateway c).
Lemma assemble_ips_spec ifName ips l : assemble_ips ifName ips = Ret l → Forall2 cni_ip (List.filter (λ c, Nic c == ifName) ips) l.
Proof.
  revert l. induction ips as [|c ips IH]; intros l; cbn [assemble_ips List.filter]; [intros [= <-]; constructor|].
  case_bool_decide; [|apply IH]. intros (a & Ha & (rest & Hr & [= <-])%bind_Ret)%bind_Ret. constructor; [done|by apply IH].
Qed.
Definition cni_route (r : option OAIRoute) (c : CNIRoute) : Prop :=
  ∃ o ip, r = Some o ∧ net_ParseCIDR (oai_Dst o) = Some (ip, cr_Dst c) ∧ cr_GW c = net_ParseIP (oai_Gw o).
Lemma assemble_routes_spec ifName rs l : assemble_routes ifName rs = Ret l →
  Forall (λ r, is_Some r) rs ∧ Forall2 cni_route (List.filter (λ r, match r with Some o => Convert.IfName o == ifName | None => false end) rs) l.
Proof.
  revert l. induction rs as [|r rs IH]; intros l; cbn [assemble_routes List.filter]; [intros [= <-]; split; constructor|].
  intros (o & Ho%deref_Ret & Hr)%bind_Ret. subst r. case_bool_decide.
  - destruct (net_ParseCIDR (oai_Dst o)) as [[ip n]|] eqn:E; [|done]. apply bind_Ret in Hr as (rest & Hr & [= <-]). apply IH in Hr as [H1 H2].
    split; [by constructor|]. constructor; [by exists o, ip|done].
  - apply IH in Hr as [H1 H2]. split; [by constructor|done].
Qed.

(** The panics that end in a result: none, where there are no nil routes. *)
Lemma assemble_routes_total ifName rs : Forall (λ r, is_Some r) rs → assemble_routes ifName rs ≠ Panic.
Proof.
  induction 1 as [|r rs [o ->] Hrs IH]; cbn [assemble_routes]; [done|]. cbn [deref mbind outcome_bind]. case_bool_decide; [|done].
  destruct (net_ParseCIDR (oai_Dst o)) as [[ip n]|]; [|done]. by destruct (assemble_routes ifName rs).
Qed.
Lemma assemble_ips_total ifName ips : assemble_ips ifName ips ≠ Panic.
Proof.
  induction ips as [|c ips IH]; cbn [assemble_ips]; [done|]. case_bool_decide; [|done]. unfold ParseIP.
  destruct (IsCIDR (Version c) (Address c)) as [[]|e| |] eqn:Hp; try done.
  - apply IsCIDR_parsed in Hp as (ip & net & ->). cbn. by destruct (assemble_ips ifName ips).
  - unfold IsCIDR, IsIPVersion in Hp. repeat case_match; done.
Qed.
Lemma assembleResult_total v ifName resp : Forall (λ r, is_Some r) resp.2 → assembleResult v ifName resp ≠ Panic.
Proof.
  intros Hn. unfold assembleResult. pose proof (assemble_routes_total ifName resp.2 Hn) as H1. pose proof (assemble_ips_total ifName resp.1) as H2.
  destruct (assemble_routes _ _); try done. cbn. destruct (assemble_ips _ _); try done. cbn. by destruct (negb _).
Qed.

(** C8: an ADD that ends well, after an answer of the agent without nil routes in which each family
    comes once at most among the addresses of the interface that are to be detected, has checked and
    printed what it was given.  On the way from the answer to the end of the detection, every such
    address was asked for on the interface, with silence until the deadline, and its gateway, where
    that is to be detected, was asked for and answered; and from there to the end the result is
    printed, with exactly the addresses and the routes of the interface in the answer, in order, and
    at least one address. *)
Theorem cni_add_sound args s conf k8sArgs resp s1 s' :
  request args s = (Ret (conf, k8sArgs, resp), s1) → Forall (λ r, is_Some r) resp.2 →
  NoDup (Version <$> List.filter (to_detect (IfName args)) resp.1) → CmdAdd fuel args s = (Ret (), s') →
  ∃ s2 result s3,
    (∀ c, c ∈ resp.1 → to_detect (IfName args) c = true → seen (IfName args) c s1 s2) ∧
    rtc net_step s2 s3 ∧ print_result result s3 = (Ret (), s') ∧ cres_Version result = CNIVersion conf ∧ cres_IPs result ≠ [] ∧
    Forall2 cni_ip (List.filter (λ c, Nic c == IfName args) resp.1) (cres_IPs result) ∧
    Forall2 cni_route (List.filter (λ r, match r with Some o => Convert.IfName o == IfName args | None => false end) resp.2) (cres_Routes result).
Proof.
  intros Hq Hnil Hnd. unfold CmdAdd, recover. rewrite Hq. intros ([] & s2 & Hd & Hf)%cmd_bind_Ret. exists s2.
  assert (∃ result s3, assembleResult (CNIVersion conf) (IfName args) resp = Ret result ∧ print_result result s3 = (Ret (), s') ∧ rtc net_step s2 s3) as (result & s3 & Ha & Hp & Hpath).
  { pose proof (assembleResult_total (CNIVersion conf) (IfName args) resp Hnil) as Hnp. unfold finish, recover, map_error, lift in Hf.
    pose proof (AnnounceIPs_evolves (rtc net_step) (IfName args) (announced resp.1) s2) as Hpath.
    destruct (assembleResult _ _ _) as [result|e| |]; destruct (AnnounceIPs _ _ _) as [[[]|e'| |] s3]; try done; by exists result, s3. }
  exists result, s3. unfold assembleResult in Ha. apply bind_Ret in Ha as (routes & Hr & (ips & Hi & ([] & Hc & [= <-])%bind_Ret)%bind_Ret).
  apply check_Ret, negb_true_iff, Nat.eqb_neq in Hc. split_and!; [|done|done|done|cbn; by intros ->|by apply assemble_ips_spec|by apply assemble_routes_spec in Hr as [_ ?]].
  unfold detect in Hd. destruct (DetectIPConflictAndGatewayReachable _ _ _ _) as [[[]|e| |] s4] eqn:Hdd; try done.
  - injection Hd as <-. by eapply detection_sees.
  - destruct (cleanable e); [|done]. by destruct (deleteIpamIps k8sArgs s4) as [[]].
Qed.

(** C13: an ADD that finds a conflict or no gateway gives back the addresses of the Pod, with a
    request of the Pod's name and UID, and fails with what it found. *)
Theorem cni_add_cleans args s conf k8sArgs resp s1 e s2 o s3 :
  request args s = (Ret (conf, k8sArgs, resp), s1) → DetectIPConflictAndGatewayReachable fuel (IfName args) resp.1 s1 = (Fail e, s2) →
  e = ErrIPConflict ∨ e = ErrGatewayUnreachable →
  DeleteIpamIps (MkBatchDelArgs (K8S_POD_NAMESPACE k8sArgs) (K8S_POD_NAME k8sArgs) (K8S_POD_UID k8sArgs) false) s2 = (o, s3) → o ≠ OutOfFuel →
  ∃ e', CmdAdd fuel args s = (Fail e', s3) ∧ (e' = e ∨ ∃ e2, o = Fail e2 ∧ e' = ErrAppend e e2).
Proof.
  intros Hq Hd He Hdel Ho. unfold CmdAdd, recover. rewrite Hq. unfold mbind, cmd_bind, detect, deleteIpamIps. rewrite Hd.
  assert (cleanable e = true) as -> by (by destruct He as [-> | ->]). rewrite Hdel. destruct o as [[]|e2| |]; try done; (eexists; split; [done|]); [by left|right; by exists e2|by left].
Qed.

(** A nil route in the answer makes the plugin report success without a result. *)
Theorem panic_reports_success args s conf k8sArgs resp s1 s2 s3 rest : request args s = (Ret (conf, k8sArgs, resp), s1) → resp.2 = None :: rest →
  detect fuel args k8sArgs resp.1 s1 = (Ret (), s2) → AnnounceIPs (IfName args) (announced resp.1) s2 = (Ret (), s3) →
  CmdAdd fuel args s = (Ret (), s3).
Proof.
  intros Hq Hr Hd Ha. unfold CmdAdd, recover. rewrite Hq. unfold mbind, cmd_bind. rewrite Hd. unfold finish. rewrite Ha.
  unfold recover, map_error, lift, assembleResult. by rewrite Hr.
Qed.
End facts.

(** ** The handlers of the agent *)

(** The interface of the IPAM. *)
Class IPAMService (W : Type) := {
  ipam_Allocate : IpamAddArgs → cmd W IpamAddResponse;
  ipam_Release : IpamDelArgs → cmd W unit;
  ipam_ReleaseIPs : IpamBatchDelArgs → cmd W unit
}.

(** What an IPAM promises to its clients, for the Pod of a request and from the state [w] in which the
    request meets it: whatever the calls return, an allocation and the release after a conflict
    change the state along [R], and a release along [D]. *)
Class IPAMPromise (W : Type) `{IPAMService W} (k : K8sArgs) (w : W) (R D : W → W → Prop) := {
  promise_allocate : ∀ args, aa_PodNamespace args = K8S_POD_NAMESPACE k → aa_PodName args = K8S_POD_NAME k → R w (ipam_Allocate args w).2;
  promise_release_ips : evolves R (ipam_ReleaseIPs (MkBatchDelArgs (K8S_POD_NAMESPACE k) (K8S_POD_NAME k) (K8S_POD_UID k) false));
  promise_release : ∀ nic, evolves D (ipam_Release (MkDelArgs (K8S_POD_NAMESPACE k) (K8S_POD_NAME k) (K8S_POD_UID k) nic))
}.

Inductive Responder (A : Type) := RespOK (a : A) | RespFailure (e : error) | RespStatus521 (e : error) | RespStatus522 (e : error).
Arguments RespOK {A} a.
Arguments RespFailure {A} e.
Arguments RespStatus521 {A} e.
Arguments RespStatus522 {A} e.

(** [errors.Is] on the errors of the model. *)
Fixpoint errors_Is (e target : error) : bool :=
  match e with ErrAppend a b => errors_Is a target || errors_Is b target | _ => (e == target) end.
Definition filteredErrResponder (e : error) : Responder unit :=
  if errors_Is e ErrForbidReleasingStatelessWorkload then RespStatus521 e
  else if errors_Is e ErrForbidReleasingStatefulWorkload then RespStatus522 e
  else RespFailure e.

(** The counters that a failure adds to. *)
Definition gatherIPAMAllocationErrMetric (e : error) : list string :=
  let known :=
    (if errors_Is e ErrWrongInput then ["retries_exhausted"] else []) ++
    (if errors_Is e ErrNoAvailablePool then ["no_available_pool"] else []) ++
    (if errors_Is e ErrRetriesExhausted then ["retries_exhausted"] else []) ++
    (if errors_Is e ErrIPUsedOut then ["ip_used_out"] else []) in
  known ++ (if bool_decide (known = []) then ["internal"%string] else []).
Definition gatherIPAMReleasingErrMetric (e : error) : list string :=
  if errors_Is e ErrRetriesExhausted then ["retries_exhausted"%string] else ["internal"%string].

Section handlers.
Context {W : Type} `{I : IPAMService W}.

(** Required fields are never nil in the values that the plugin sends. *)
Definition answer {A B} (m : cmd W A) (ok : A → B) (fail : error → Responder B) : cmd W (Responder B) := λ w,
  match m w with
  | (Ret a, w') => (Ret (RespOK (ok a)), w')
  | (Fail e, w') => (Ret (fail e), w')
  | (Panic, w') => (Panic, w')
  | (OutOfFuel, w') => (OutOfFuel, w')
  end.
Definition PostAgentIpamIP_Handle (args : IpamAddArgs) : cmd W (Responder IpamAddResponse) := answer (ipam_Allocate args) id RespFailure.
Definition DeleteAgentIpamIP_Handle (args : IpamDelArgs) : cmd W (Responder unit) := answer (ipam_Release args) id RespFailure.
Definition PostAgentIpamIps_Handle : cmd W (Responder unit) := mret (RespOK ()).
Definition DeleteAgentIpamIps_Handle (args : IpamBatchDelArgs) : cmd W (Responder unit) := answer (ipam_ReleaseIPs args) id filteredErrResponder.

(** The client: every answer but OK is an error; a handler that panics closes the connection. *)
Definition call {A} (m : cmd W (Responder A)) : cmd W A := λ w,
  match m w with
  | (Ret (RespOK a), w') => (Ret a, w')
  | (Ret (RespFailure e), w') | (Ret (RespStatus521 e), w') | (Ret (RespStatus522 e), w') => (Fail e, w')
  | (Fail e, w') => (Fail e, w')
  | (Panic, w') => (Fail (ErrOther "EOF"), w')
  | (OutOfFuel, w') => (OutOfFuel, w')
  end.
Lemma call_answer_state {A B} (m : cmd W A) (ok : A → B) fail w : (call (answer m ok fail) w).2 = (m w).2.
Proof. unfold call, answer. destruct (m w) as [[a|e| |] w']; cbn; [done| |done..]. by destruct (fail e). Qed.
End handlers.

(** *** The endpoint of a workload *)

Record InterfaceDetail := MkInterface {
  id_Interface : string; id_IPV4 : string; id_IPV6 : string; id_IPV4Pool : string; id_IPV6Pool : string; id_IPV4Gateway : string; id_IPV6Gateway : string;
  id_Mac : string; id_Vlan : Z; id_Routes : list Route }.
Record WorkloadStatus := MkWorkloadStatus { wl_Namespace : string; wl_Name : string; wl_UID : string; wl_Node : string; wl_Interfaces : list InterfaceDetail }.
Definition strPtrOrEmpty (s : option string) : string := default EmptyString s.
Definition transformEndpointToResponse (endpoint : SpiderEndpoint) : WorkloadStatus :=
  let status := current_of endpoint in
  MkWorkloadStatus (Namespace (ep_meta endpoint)) (Name (ep_meta endpoint)) (ep_UID status) (ep_Node status)
    ((λ ip, MkInterface (NIC ip) (strPtrOrEmpty (d_IPv4 ip)) (strPtrOrEmpty (d_IPv6 ip)) (strPtrOrEmpty (IPv4Pool ip)) (strPtrOrEmpty (IPv6Pool ip))
       (strPtrOrEmpty (IPv4Gateway ip)) (strPtrOrEmpty (IPv6Gateway ip)) (strPtrOrEmpty (MAC ip)) (default 0 (Vlan ip)) (d_Routes ip)) <$> ep_IPs status).
(** 404 where the endpoint is not there, 500 for other errors. *)
Inductive EndpointResponder := EndpointOK (s : WorkloadStatus) | EndpointNotFound | EndpointInternal (e : error).
Definition GetWorkloadendpoint_Handle {E} `{EndpointStore E} (podNamespace podName : string) (s : E) : outcome EndpointResponder :=
  match (GetEndpointByName podNamespace podName true s).1 with
  | Ret endpoint => Ret (EndpointOK (transformEndpointToResponse endpoint))
  | Fail e => Ret (if e == APINotFound then EndpointNotFound else EndpointInternal e)
  | Panic => Panic
  | OutOfFuel => OutOfFuel
  end.

(** ** The plugin against the agent

    The state of the node and that of the agent side by side: what the plugin does on the node leaves
    the state of the agent alone, and its requests are served by the handlers. *)

Section pair.
Context {S W : Type} `{K : Kernel S} `{N : NetIO S} `{H : IPAMHost S} `{I : IPAMService W}.

Definition on_node {A} (m : cmd S A) : cmd (S * W) A := λ p, let '(o, s') := m p.1 in (o, (s', p.2)).
Definition on_agent {A} (m : cmd W A) : cmd (S * W) A := λ p, let '(o, w') := m p.2 in (o, (p.1, w')).

Definition pair_kernel : Kernel (S * W) := {|
  LinkByName ns n p := LinkByName ns n p.1;
  LinkByIndex ns i p := LinkByIndex ns i p.1;
  LinkList ns p := LinkList ns p.1;
  AddrList ns l f p := AddrList ns l f p.1;
  RouteList ns f p := RouteList ns f p.1;
  RouteListTable ns f t p := RouteListTable ns f t p.1;
  RouteGet ns ip p := RouteGet ns ip p.1;
  NeighList ns f p := NeighList ns f p.1;
  LinkSetUp ns l := on_node (LinkSetUp ns l);
  LinkDel ns l := on_node (LinkDel ns l);
  LinkSetTxQLen ns l n := on_node (LinkSetTxQLen ns l n);
  LinkSetHardwareAddr ns l hw := on_node (LinkSetHardwareAddr ns l hw);
  AddrAdd ns l n := on_node (AddrAdd ns l n);
  RouteAdd ns r := on_node (RouteAdd ns r);
  RouteDel ns r := on_node (RouteDel ns r);
  RuleAdd ns r := on_node (RuleAdd ns r);
  RuleDel ns r := on_node (RuleDel ns r);
  NeighAdd ns n := on_node (NeighAdd ns n);
  NeighDel ns n := on_node (NeighDel ns n)
|}.
Definition pair_net : NetIO (S * W) := {|
  InterfaceByName n p := InterfaceByName n p.1;
  Socket := on_node Socket;
  Sendto b a := on_node (Sendto b a);
  Dial := on_node Dial;
  SetReadDeadline t := on_node (SetReadDeadline t);
  Read := on_node Read;
  Listen n := on_node (Listen n);
  ndp_SetReadDeadline t := on_node (ndp_SetReadDeadline t);
  SolicitedNodeMulticast := SolicitedNodeMulticast;
  WriteTo m a := on_node (WriteTo m a);
  ReadFrom := on_node ReadFrom;
  Now p := Now p.1;
  Set_ns ns := on_node (Set_ns ns)
|}.
Definition pair_host : IPAMHost (S * W) := {|
  decode_net_conf := decode_net_conf;
  load_args := load_args;
  InitFileLogger o := on_node (InitFileLogger o);
  open_ns path p := open_ns path p.1;
  current_ns p := current_ns p.1;
  print_result r := on_node (print_result r)
|}.
(** The agent is reached and healthy. *)
Definition pair_agent : AgentAPI (S * W) := {|
  NewAgentOpenAPIUnixClient _ := Ret ();
  GetIpamHealthy := mret ();
  PostIpamIP args := on_agent (call (PostAgentIpamIP_Handle args));
  DeleteIpamIP args := on_agent (call (DeleteAgentIpamIP_Handle args));
  DeleteIpamIps args := on_agent (call (DeleteAgentIpamIps_Handle args))
|}.
#[local] Existing Instance pair_kernel.
#[local] Existing Instance pair_net.
#[local] Existing Instance pair_host.
#[local] Existing Instance pair_agent.

Section evolves.
Context (R : W → W → Prop) `{P : !PreOrder R}.
Definition agent_rel (p p' : S * W) : Prop := R p.2 p'.2.
#[local] Instance agent_rel_preorder : PreOrder agent_rel.
Proof. unfold agent_rel. split; [intros p; reflexivity|]. intros p1 p2 p3. apply P. Qed.
Lemma on_node_evolves {A} (m : cmd S A) : evolves agent_rel (on_node m).
Proof. intros p. unfold on_node, agent_rel. destruct (m p.1). cbn. reflexivity. Qed.
#[local] Instance node_frame : NetFrame (S * W) agent_rel.
Proof. split; intros; apply on_node_evolves. Qed.
Lemma on_agent_state {A B} (m : cmd W A) (ok : A → B) fail p : (on_agent (call (answer m ok fail)) p).2.2 = (m p.2).2.
Proof. unfold on_agent. rewrite <- (call_answer_state m ok fail). by destruct (call _ p.2). Qed.
Lemma on_agent_evolves {A B} (m : cmd W A) (ok : A → B) fail : evolves R m → evolves agent_rel (on_agent (call (answer m ok fail))).
Proof. intros Hm p. unfold agent_rel. rewrite on_agent_state. apply Hm. Qed.

Ltac ev := first [apply (evolves_lift agent_rel)|apply (evolves_read agent_rel)|apply (evolves_ret agent_rel)].

Lemma recover_evolves {B} err (m : cmd (S * W) B) k : evolves agent_rel m → (∀ b, evolves agent_rel (k b)) → evolves agent_rel (recover err m k).
Proof.
  intros Hm Hk p. specialize (Hm p). unfold recover. destruct (m p) as [[b|e| |] p']; cbn in *; [|done..]. etrans; [exact Hm|apply Hk].
Qed.
Lemma logging_evolves conf : evolves agent_rel (SetupFileLogging conf).
Proof. unfold SetupFileLogging. apply evolves_if; [apply on_node_evolves|ev]. Qed.
Lemma connect_evolves socket : evolves agent_rel (connect socket).
Proof. apply evolves_bind; [apply _|ev|intros _]. apply evolves_map_error. ev. Qed.
Lemma detect_evolves `{!Schedule} fuel args k ips :
  evolves R (ipam_ReleaseIPs (MkBatchDelArgs (K8S_POD_NAMESPACE k) (K8S_POD_NAME k) (K8S_POD_UID k) false)) → evolves agent_rel (detect fuel args k ips).
Proof.
  intros Hrel p. pose proof (Detect_evolves agent_rel fuel (IfName args) ips p) as Hd. unfold detect.
  destruct (DetectIPConflictAndGatewayReachable _ _ _ p) as [[[]|e| |] p']; try exact Hd. destruct (cleanable e); [|exact Hd].
  assert (evolves agent_rel (deleteIpamIps k)) as Hi by by apply on_agent_evolves. specialize (Hi p'). cbn in Hd.
  destruct (deleteIpamIps k p') as [[[]|e'| |] p2]; cbn in *; by etrans.
Qed.
Lemma finish_evolves args conf resp : evolves agent_rel (finish args conf resp).
Proof.
  intros p. pose proof (AnnounceIPs_evolves agent_rel (IfName args) (announced resp.1) p) as Ha. unfold finish. cbv zeta.
  assert (∀ err, evolves agent_rel (recover err (map_error (λ _, ErrPostIPAM) (lift (assembleResult (CNIVersion conf) (IfName args) resp))) print_result)) as Hr.
  { intros err. apply recover_evolves; [apply evolves_map_error; ev|]. intros r. apply on_node_evolves. }
  destruct (AnnounceIPs _ _ p) as [[[]|e| |] p']; cbn in Ha; try exact Ha; (etrans; [exact Ha|apply Hr]).
Qed.

Lemma map_error_state {B} f (m : cmd (S * W) B) p : (map_error f m p).2 = (m p).2.
Proof. unfold map_error. by destruct (m p) as [[]]. Qed.
(** What holds of a command that meets the agent in the state [w], since nothing before it has
    changed that. *)
Definition meets {B} (w : W) (m : cmd (S * W) B) : Prop := ∀ s, R w (m (s, w)).2.2.
Definition untouched (w : W) {B} (m : cmd (S * W) B) : Prop := ∀ s, (m (s, w)).2.2 = w.
Lemma meets_evolves {B} w (m : cmd (S * W) B) : evolves agent_rel m → meets w m.
Proof. intros Hm s. apply (Hm (s, w)). Qed.
Lemma meets_after {B C} w (m : cmd (S * W) B) (f : B → cmd (S * W) C) : untouched w m → (∀ b, (∃ s, (m (s, w)).1 = Ret b) → meets w (f b)) → meets w (m ≫= f).
Proof.
  intros Hu Hf s. specialize (Hu s). unfold mbind, cmd_bind. destruct (m (s, w)) as [[b|e| |] [s' w']] eqn:E; cbn in *; subst w'; [|reflexivity..].
  apply Hf. exists s. by rewrite E.
Qed.
Lemma meets_bind {B C} w (m : cmd (S * W) B) (f : B → cmd (S * W) C) : meets w m → (∀ b, evolves agent_rel (f b)) → meets w (m ≫= f).
Proof.
  intros Hm Hf s. specialize (Hm s). unfold mbind, cmd_bind. destruct (m (s, w)) as [[b|e| |] p']; cbn in *; [|done..].
  etrans; [exact Hm|apply (Hf b)].
Qed.
End evolves.

Lemma untouched_eq {B} (w : W) (m : cmd (S * W) B) : evolves (agent_rel eq) m → untouched w m.
Proof. intros Hm s. symmetry. apply (Hm (s, w)). Qed.

Section served.
Context (R D : W → W → Prop) `{PR : !PreOrder R} `{PD : !PreOrder D} (k : K8sArgs) (w : W) `{IP : !IPAMPromise W k w R D}.

#[local] Existing Instance agent_rel_preorder.
Ltac still := first [apply evolves_lift; apply _|apply evolves_read; apply _|apply evolves_ret; apply _|apply logging_evolves; apply _|apply connect_evolves; apply _].

Lemma request_meets args : load_args (S := S) (Args args) = Ret k → meets R w (request args).
Proof.
  intros Hk. unfold request. do 4 (apply meets_after; [done|apply untouched_eq; still|intros ? _]).
  apply meets_after; [done|apply untouched_eq; still|]. intros k' [s Hk']. cbn in Hk'. rewrite Hk in Hk'. injection Hk' as <-.
  apply meets_after; [done|apply untouched_eq; still|intros _ _]. cbv zeta. apply meets_bind; [done| |].
  - intros s'. rewrite map_error_state. cbn [PostIpamIP pair_agent]. unfold PostAgentIpamIP_Handle. rewrite on_agent_state. by apply promise_allocate.
  - intros resp. apply evolves_bind; [apply _|still|intros _]. still.
Qed.
Lemma request_args args p conf k' resp p' : load_args (S := S) (Args args) = Ret k → request args p = (Ret (conf, k', resp), p') → k' = k.
Proof.
  intros Hk (c & s1 & _ & (u1 & s2 & _ & (u2 & s3 & _ & (u3 & s4 & _ & (k0 & s5 & [Hk0 _]%lift_Ret & (u4 & s6 & _ & Hr)%cmd_bind_Ret)%cmd_bind_Ret)%cmd_bind_Ret)%cmd_bind_Ret)%cmd_bind_Ret)%cmd_bind_Ret.
  cbv zeta in Hr. apply cmd_bind_Ret in Hr as (r & s7 & _ & (u5 & s8 & _ & [= _ <- _ _])%cmd_bind_Ret). cbn in Hk0. congruence.
Qed.
(** What an ADD and a DEL of the plugin change at the agent. *)
Lemma plugin_meets `{!Schedule} fuel args : load_args (S := S) (Args args) = Ret k → meets R w (CmdAdd fuel args) ∧ meets D w (CmdDel args).
Proof.
  intros Hk. split; intros s.
  - pose proof (request_meets args Hk s) as Hr. unfold CmdAdd, recover. destruct (request args (s, w)) as [[[[conf k'] resp]|e| |] p'] eqn:E; [|done..].
    assert (k' = k) as -> by by eapply request_args. cbn in Hr. etrans; [exact Hr|].
    refine (evolves_bind (agent_rel R) _ _ _ _ p'); [by apply detect_evolves, promise_release_ips|intros _; by apply finish_evolves].
  - assert (evolves (agent_rel D) (CmdDel args)) as Hd; [|apply (Hd (s, w))]. apply recover_evolves; [done| |intros ?; still].
    do 2 (apply evolves_bind; [apply _|still|intros ?]). cbn [load_args pair_host]. rewrite Hk.
    apply evolves_lift_bind; [apply _|]. intros k' [= <-].
    apply evolves_bind; [apply _|still|intros _]. apply evolves_unless. by apply on_agent_evolves, promise_release.
Qed.
End served.
End pair.

(** ** From the runtime to the pools *)

Section whole.
Context `{MR : MapRange} `{SC : Schedule} `{J : JSON PoolIPAllocations} `{JLaws : !JSONLaws PoolIPAllocations}.
Context `{JI : JSON (list AnnoIPPoolItem)} `{JP : JSON AnnoPodIPPoolValue} `{JL : JSON (list string)}.
Context `{JN : JSON (list (option NetworkSelectionElement))} `{JR : JSON (list (string * string))}.
Context {S E : Type} `{KS : KubeStore S SpiderIPPool} `{KL : !KubeStoreLaws S SpiderIPPool} `{ES : EndpointStore E}.
Context (config : IPAMConfig) (pconfig : IPPoolManagerConfig) (em : EndpointConfig).
Context (rIPs : string → string → nat → list SpiderReservedIP) (env : string → string → nat → S → S) (cancelled : nat → bool).
Context (acquire : list string → outcome unit).
Context (get_pod : string → string → outcome Pod) (get_controller : string → string → string → outcome ObjectMeta).
Context (listed : Z → outcome (list SpiderIPPool)) (default_pools : outcome (list SpiderIPPool)).
Context (cached_pool : string → outcome SpiderIPPool) (get_node get_ns : string → outcome ObjectMeta).
Context (get_vmim : string → string → outcome unit) (pf_addrs : string → string → outcome (list IP)).
Context (from_subnet_anno : Pod → string → bool → PodTopController → cmd (world S E) (option ToBeAllocated)).
Context (callIaaSAllocate : Pod → list AllocationResult → outcome (list AllocationResult)).
Context (get_sts : string → string → outcome StatefulSet) (get_vmi get_vm : string → string → outcome ObjectMeta).
Context (callIaaSRelease : SpiderEndpoint → outcome unit).

(** The IPAM of the agent. *)
Definition ipam_service : IPAMService (world S E) := {|
  ipam_Allocate := Allocate config pconfig em rIPs env cancelled acquire get_pod get_controller listed default_pools
    cached_pool get_node get_ns get_vmim pf_addrs from_subnet_anno callIaaSAllocate;
  ipam_Release := Release config (env "") cancelled acquire get_pod get_sts get_vmi get_vm callIaaSRelease;
  ipam_ReleaseIPs := ReleaseIPs config (env "") cancelled acquire get_pod get_controller
|}.

(** The UID under which the addresses are given back after a conflict, and that of a DEL: the one the
    runtime gives, or that of the Pod; and the other way round. *)
Definition conflict_uid (k : K8sArgs) (pod : Pod) : string := if K8S_POD_UID k == EmptyString then UID (pod_meta pod) else K8S_POD_UID k.
Definition deleted_uid (k : K8sArgs) (u : string) : Prop :=
  ∃ pod, find_pod get_pod (K8S_POD_NAMESPACE k) (K8S_POD_NAME k) = Ret pod ∧ u = pod_uid (K8S_POD_UID k) pod.

Section refines.
Context (others : lease_table → lease_table → Prop).
Context (Henv : ∀ nic pool i s, guaranteed others s (env nic pool i s)).
Context (Hsub : ∀ pod nic clean top, evolves (guaranteed_world (E := E) others) (from_subnet_anno pod nic clean top)).

#[local] Instance steps_preorder U N Gr : PreOrder (guaranteed_world (E := E) (rtc (beside others (lease_step U N Gr)))).
Proof. exact (guaranteed_world_preorder (U := U) (N := N) (Gr := Gr) _). Qed.

Lemma ipam_promise k w pod top : get_pod (K8S_POD_NAMESPACE k) (K8S_POD_NAME k) = Ret pod → GetPodTopController get_controller pod = Ret top →
  IPAMPromise (world S E) (H := ipam_service) k w (guaranteed_world (E := E) (rtc (beside others (add_step (λ u, u = conflict_uid k pod) w pod top))))
    (guaranteed_world (E := E) (rtc (beside others (del_step (deleted_uid k))))).
Proof.
  intros Hp Ht. split.
  - intros args E1 E2. apply Allocate_add_steps; [by rewrite E1, E2|done|intros; by apply guaranteed_beside|].
    intros pod' nic clean top' w'. apply guaranteed_beside, Hsub.
  - refine (ReleaseIPs_guaranteed config (env "") cancelled acquire get_pod get_controller _ _ _ _); [intros; by apply guaranteed_beside|].
    intros pod'. cbn. unfold find_pod. rewrite Hp. intros Hpod'. left. unfold conflict_uid. case_bool_decide; by injection Hpod' as <-.
  - intros nic. refine (Release_guaranteed config (env "") cancelled acquire get_pod get_sts get_vmi get_vm callIaaSRelease _ _ _ _); [intros; by apply guaranteed_beside|].
    intros pod' Hpod'. by exists pod'.
Qed.

Lemma del_promise k w : IPAMPromise (world S E) (H := ipam_service) k w (λ _ _, True) (guaranteed_world (E := E) (rtc (beside others (del_step (deleted_uid k))))).
Proof.
  split; [done..|]. intros nic. refine (Release_guaranteed config (env "") cancelled acquire get_pod get_sts get_vmi get_vm callIaaSRelease _ _ _ _); [intros; by apply guaranteed_beside|].
  intros pod' Hpod'. by exists pod'.
Qed.
End refines.

(** C6: from the runtime to the pools, the leases of addresses are refined, whatever the network
    answers, whatever the other clients do and however the calls end, retries and clean-up included.
    Between the changes of other clients, an ADD for a Pod that is found with its controller does
    nothing to the pools but: grant free addresses under the UID of that Pod; renew, under that UID,
    what is recorded for the name of the Pod's endpoint; and revoke what is recorded under the UID of
    that endpoint or, after a conflict, under the UID of the request.  A DEL only revokes, under the
    UID of the Pod or, where that is gone, of the request.  (The pools that the subnet annotations
    create count as changes of others.) *)
Theorem cni_refines_leases {M} `{K : Kernel M} `{N : NetIO M} `{H : IPAMHost M} (others : lease_table → lease_table → Prop) fuel args k m w :
  (∀ nic pool i s, guaranteed others s (env nic pool i s)) →
  (∀ pod nic clean top, evolves (guaranteed_world (E := E) others) (from_subnet_anno pod nic clean top)) →
  valid (w_pools w) → load_args (S := M) (Args args) = Ret k →
  let L := leases (w_pools w) in
  let agent := pair_agent (S := M) (I := ipam_service) in
  (∀ pod top, get_pod (K8S_POD_NAMESPACE k) (K8S_POD_NAME k) = Ret pod → GetPodTopController get_controller pod = Ret top →
   rtc (beside others (add_step (λ u, u = conflict_uid k pod) w pod top)) L
     (leases (w_pools (CmdAdd (K := pair_kernel) (N := pair_net) (A := agent) (H := pair_host) fuel args (m, w)).2.2))) ∧
  rtc (beside others (del_step (deleted_uid k))) L (leases (w_pools (CmdDel (A := agent) (H := pair_host) args (m, w)).2.2)).
Proof.
  intros Henv Hsub Hv Hk L agent. pose proof (steps_preorder others) as Hpre. split.
  - intros pod top Hp Ht. pose proof (ipam_promise others Henv Hsub k w pod top Hp Ht) as HP.
    destruct (plugin_meets (S := M) (I := ipam_service) _ _ k w fuel args Hk) as [Ha _]. by apply (Ha m).
  - pose proof (del_promise others Henv k w) as HP. assert (PreOrder (λ _ _ : world S E, True)) as HT by done.
    destruct (plugin_meets (S := M) (I := ipam_service) (λ _ _, True) _ k w fuel args Hk) as [_ Hd]. by apply (Hd m).
Qed.
End whole.

(** ** Where the code does less than it means to *)

(** The plugin never says that it releases conflicting addresses, so the check for them, which would
    spare stateful workloads, is always passed. *)
Theorem conflict_check_passed config get_pod get_controller k8sArgs pod :
  check_release_conflict config get_pod get_controller
    (MkBatchDelArgs (K8S_POD_NAMESPACE k8sArgs) (K8S_POD_NAME k8sArgs) (K8S_POD_UID k8sArgs) false) pod = Ret ().
Proof. done. Qed.

(** A wrong input is counted as exhausted retries. *)
Theorem wrong_input_counted : gatherIPAMAllocationErrMetric ErrWrongInput = gatherIPAMAllocationErrMetric ErrRetriesExhausted.
Proof. vm_compute. reflexivity. Qed.

(** ** Examples *)

Definition demo_conf : NetConf := MkNetConf "net" "0.3.1" (MkPluginIPAM "spiderpool" "" "" 0 0 0 [] [] false false "").
#[export] Instance demo_ipam_host : IPAMHost Mem := {
  decode_net_conf _ := Some demo_conf;
  load_args _ := Ret (MkK8sArgs "web-1" "default" "uid-1");
  InitFileLogger _ := mem_done id;
  open_ns _ _ := Ret ();
  current_ns _ := Ret ();
  print_result _ := mem_done id
}.
Definition demo_config (gwdetect : bool) : IPConfig := MkIPConfig "10.7.0.2/16" gwdetect true "10.7.0.1" "p1" "" "net1" 4 0.
Definition demo_agent (gwdetect : bool) : AgentAPI Mem := {|
  NewAgentOpenAPIUnixClient _ := Ret ();
  GetIpamHealthy := mret ();
  PostIpamIP _ := mret ([demo_config gwdetect], []);
  DeleteIpamIP _ := mret ();
  DeleteIpamIps _ := mem_done (on_ns HostNS (set_links []))
|}.
Definition demo_add_args : CmdArgs := MkCmdArgs "0123456789abcdef" "/proc/1/ns/net" "net1" "" "".

Lemma cni_add_sound_witness :
  let run := CmdAdd (A := demo_agent false) (SC := in_order) 1 demo_add_args demo_net in
  run.1 = Ret () ∧ ∃ s2, seen "net1" (demo_config false) demo_net s2.
Proof.
  assert (CmdAdd (A := demo_agent false) (SC := in_order) 1 demo_add_args demo_net = (Ret (), (CmdAdd (A := demo_agent false) (SC := in_order) 1 demo_add_args demo_net).2)) as E by (vm_compute; reflexivity).
  split; [vm_compute; reflexivity|].
  destruct (cni_add_sound (A := demo_agent false) (SC := in_order) 1 demo_add_args demo_net (match LoadNetConf (Some demo_conf) with Ret c => c | _ => demo_conf end)
    (MkK8sArgs "web-1" "default" "uid-1") ([demo_config false], []) demo_net (CmdAdd (A := demo_agent false) (SC := in_order) 1 demo_add_args demo_net).2) as (s2 & result & s3 & Hs & _); [vm_compute; reflexivity|apply Forall_nil; exact I| |exact E|].
  - apply (bool_decide_unpack _). vm_compute. exact I.
  - exists s2. apply Hs; [apply list_elem_of_here|vm_compute; reflexivity].
Defined.

Lemma cni_add_cleans_witness : let args := demo_add_args in
  ∃ e', CmdAdd (A := demo_agent true) (SC := in_order) 1 args demo_net = (Fail e', on_ns HostNS (set_links []) demo_net) ∧ e' = ErrGatewayUnreachable.
Proof.
  intros args. edestruct (cni_add_cleans (A := demo_agent true) (SC := in_order) 1 args demo_net) as (e' & E & Ho).
  - vm_compute. reflexivity.
  - vm_compute. reflexivity.
  - right. vm_compute. reflexivity.
  - vm_compute. reflexivity.
  - discriminate.
  - exists e'. split; [exact E|]. destruct Ho as [->|(e2 & Ho & _)]; [reflexivity|discriminate Ho].
Defined.

Definition demo_top : PodTopController := MkTopController (MkApp "v1" "Pod" "default" "web-1") "uid-1".
Lemma cni_refines_leases_witness :
  let L := leases (J := ex_json) (KL := mem_pools) (w_pools ex_served) in
  let agent := pair_agent (S := Mem) (I := ipam_service (MR := ordered_range) (SC := in_order) (J := ex_json) (JI := countable_json)
    (JP := countable_json) (JL := countable_json) (JN := ex_nse_json) (JR := countable_json)
    ex_sel_config ex_config (MkEndpointConfig true false) (λ _ _ _, []) (λ _ _ _ s, s) (λ _, false) (λ _, Ret ()) (λ _ _, Ret ex_pod1)
    (λ _ _ _, Ret (plain_meta "default" "web" "uid-sts")) (λ _, Ret ex_pools) (Ret ex_pools) ex_find ex_meta ex_meta
    (λ _ _, Fail APINotFound) (λ _ _, Ret []) (λ _ _ _ _, mret None) ex_iaas (λ _ _, Fail APINotFound) ex_gone ex_gone (λ _, Ret ())) in
  let p := (CmdAdd (K := pair_kernel) (N := pair_net) (A := agent) (H := pair_host) (SC := in_order) 1
    (MkCmdArgs "c" "" "eth0" "" "") (demo_net, ex_served)) in
  let k := MkK8sArgs "web-1" "default" "uid-1" in
  rtc (beside eq (add_step (λ u, u = conflict_uid k ex_pod1) ex_served ex_pod1 demo_top)) L (leases (J := ex_json) (KL := mem_pools) (w_pools p.2.2)) ∧ p.1 = Ret () ∧
  size <$> leases (J := ex_json) (KL := mem_pools) (w_pools p.2.2) !! "p1"%string = Some 2%nat.
Proof.
  intros L agent p k. split; [|split; vm_compute; reflexivity].
  refine (proj1 (cni_refines_leases (MR := ordered_range) (SC := in_order) (J := ex_json) (JLaws := ex_json_laws) (JI := countable_json)
    (JP := countable_json) (JL := countable_json) (JN := ex_nse_json) (JR := countable_json) (KL := mem_pools)
    ex_sel_config ex_config (MkEndpointConfig true false) (λ _ _ _, []) (λ _ _ _ s, s) (λ _, false) (λ _, Ret ()) (λ _ _, Ret ex_pod1)
    (λ _ _ _, Ret (plain_meta "default" "web" "uid-sts")) (λ _, Ret ex_pools) (Ret ex_pools) ex_find ex_meta ex_meta
    (λ _ _, Fail APINotFound) (λ _ _, Ret []) (λ _ _ _ _, mret None) ex_iaas (λ _ _, Fail APINotFound) ex_gone ex_gone (λ _, Ret ())
    eq 1 (MkCmdArgs "c" "" "eth0" "" "") k demo_net ex_served _ _ ex_served_valid eq_refl) ex_pod1 demo_top _ _); [| |reflexivity|vm_compute; reflexivity].
  - intros _ _ _ s V. split_and!; [exact V|reflexivity..].
  - intros _ _ _ _ w V. split_and!; [exact V|reflexivity..].
Defined.
