(* ===== verification/IaaS.v ===== *)
(** * pkg/iaas and pkg/ipam/iaas.go: addresses of an IaaS provider

    Where the nodes are machines of a provider, the addresses of networks with automatic VLANs are
    registered with it: pkg/iaas/client/client.go calls its API, pkg/iaas/utils/multus.go finds the
    Multus network of a NIC, and pkg/ipam/iaas.go decides which addresses to register, under which
    parent NIC, and completes the results of an allocation with the MAC address and the VLAN that
    the provider chose.  The client keeps the MAC addresses of parent NICs in a cache, which is part
    of the state here.  The provider, the clock and the links of the node are a parameter. *)

From S2P Require Import Prelude NetIP NetIPFacts IPAddr Cidr K8s Retry Convert Workload Endpoint IPAMRelease Selector PoolSelection WorkQueue MultusConfig CoordinatorSync Networking CoordinatorPlugin.
Local Open Scope Z_scope.
Local Open Scope go_scope.

(** ** pkg/iaas/client/types.go *)

Record IaaSIPAllocationItem := MkItem { it_IPAddress : string; it_Subnet : string; it_ParentNicMac : string }.
Record AllocateIPRequest := MkAllocateReq {
  aq_PodName : string; aq_PodNamespace : string; aq_PodUID : string; aq_NodeName : string;
  IaaSIPsAllocationRequest : list IaaSIPAllocationItem }.
Record IaaSIPAllocationResult := MkAllocated {
  al_ParentNicMac : string; al_Subnet : string; al_IPAddress : string; MacAddress : string; al_VlanID : Z }.
Record AllocateIPResponse := MkAllocateResp {
  ap_PodName : string; ap_PodNamespace : string; ap_NodeName : string;
  IaaSIPsAllocationResponse : list IaaSIPAllocationResult }.
Record ReleaseIPRequest := MkReleaseReq {
  rq_PodName : string; rq_PodNamespace : string; rq_PodUID : string; rq_NodeName : string;
  rq_ParentNicMac : string; rq_Subnet : string; rq_IPAddress : string }.

#[export] Instance Item_eq_dec : EqDecision IaaSIPAllocationItem.
Proof. solve_decision. Defined.
#[export] Instance AllocateIPRequest_eq_dec : EqDecision AllocateIPRequest.
Proof. solve_decision. Defined.
#[export] Instance Allocated_eq_dec : EqDecision IaaSIPAllocationResult.
Proof. solve_decision. Defined.
#[export] Instance AllocateIPResponse_eq_dec : EqDecision AllocateIPResponse.
Proof. solve_decision. Defined.
#[export] Instance ReleaseIPRequest_eq_dec : EqDecision ReleaseIPRequest.
Proof. solve_decision. Defined.

(** ** pkg/constant/timeout.go, in nanoseconds *)

Definition Millisecond : Z := 1000000.
Definition Second : Z := 1000 * Millisecond.
Definition IaaSProviderRateLimitWait : Z := 30 * Second.
Definition IaaSProviderCloudAPITimeout : Z := 16 * Second.
Definition IaaSProviderWorstCase : Z := IaaSProviderRateLimitWait + IaaSProviderCloudAPITimeout + 2 * Second.
Definition DefaultIaaSProviderTimeout : Z := 50 * Second.

(** ** pkg/iaas/client/client.go *)

Definition allocateAPIPath : string := "/v1/apis/network.iaas.io/ipam/allocate-ips".
Definition releaseAPIPath : string := "/v1/apis/network.iaas.io/ipam/release-ip".

(** A POST with a JSON body and, where the context has a deadline, the header with the time left. *)
Record HTTPRequest := MkHTTP { http_URL : string; http_Body : string; RequestTimeoutMs : option Z }.
Record HTTPResponse := MkHTTPResponse { StatusCode : Z; http_ReadAll : outcome string }.

(** The provider, the clock, which may go on whenever it is read, and the links of the node
    ([netlink.LinkByName]). *)
Class Provider (P : Type) := {
  now : cmd P Z;
  http_Do : HTTPRequest → cmd P HTTPResponse;
  node_link : string → P → outcome NLink
}.
(** Neither the clock nor the provider changes the links. *)
Class ProviderFrame (P : Type) `{Provider P} := {
  now_links : ∀ p iface, node_link iface (now p).2 = node_link iface p;
  http_links : ∀ req p iface, node_link iface (http_Do req p).2 = node_link iface p
}.

(** The client: its configuration does not change, its cache does. *)
Record IaaSClient := MkIaaSClient { baseURL : string; httpTimeout : Z }.
Record client_state (P : Type) := MkClient { parentNicMacCache : gmap string string; provider : P }.
Arguments MkClient {P}.
Arguments parentNicMacCache {P}.
Arguments provider {P}.

Section client.
Context {P : Type} `{PR : Provider P}.
Context `{JQ : JSON AllocateIPRequest} `{JP : JSON AllocateIPResponse} `{JR : JSON ReleaseIPRequest}.
(** The text of an error, and [url.JoinPath]. *)
Context (Error : error → string) (url_JoinPath : string → string → outcome string).
Context (c : IaaSClient).
Abbreviation C := (client_state P).

Definition on_provider {A} (m : cmd P A) : cmd C A := λ s,
  let '(o, p) := m (provider s) in (o, MkClient (parentNicMacCache s) p).

Definition GetCachedParentNicMac (key : string) (s : C) : option string := parentNicMacCache s !! key.
Definition CacheParentNicMac (key mac : string) : cmd C unit := modify (λ s, MkClient (<[key := mac]> (parentNicMacCache s)) (provider s)).

Definition isTimeoutError (e : error) : bool := Contains (Error e) "timeout" || Contains (Error e) "deadline exceeded".

(** The time that is left, rounded up to milliseconds. *)
Definition setRequestTimeoutHeader (remaining : Z) : option Z :=
  if remaining <=? 0 then None else Some ((remaining + Millisecond - 1) / Millisecond).

(** The guard at the beginning of both calls. *)
Definition enough_budget (deadline : option Z) : cmd P unit :=
  match deadline with
  | None => mret ()
  | Some d => t ← now; lift (check (negb (d - t <? IaaSProviderWorstCase)) (ErrOther "parent budget insufficient"))
  end.
(** The deadline of [context.WithTimeout]. *)
Definition with_timeout (deadline : option Z) : cmd P Z :=
  t ← now;
  mret match deadline with Some d => Z.min d (t + httpTimeout c) | None => t + httpTimeout c end.
Definition post (url body : string) (reqDeadline : Z) : cmd P HTTPResponse :=
  t ← now;
  http_Do (MkHTTP url body (setRequestTimeoutHeader (reqDeadline - t))).

Definition is_success (resp : HTTPResponse) : bool := negb ((StatusCode resp <? 200) || (300 <=? StatusCode resp)).

(** What a failed allocation call is reported as: the contexts are over when their deadlines are. *)
Definition allocate_failure (deadline : option Z) (reqDeadline : Z) (e : error) : cmd P AllocateIPResponse :=
  t ← now;
  if (reqDeadline <=? t) || isTimeoutError e then
    t ← now;
    lift (Fail (ErrOther (if match deadline with Some d => d <=? t | None => false end then "parent budget exhausted" else "provider-interaction timeout")))
  else lift (Fail (ErrOther "iaas allocate API call failed")).

(** From the call to the decoded answer. *)
Definition send_allocate (deadline : option Z) (reqDeadline : Z) (reqURL : string) (req : AllocateIPRequest) : cmd P AllocateIPResponse := λ p,
  match post reqURL (json_marshal req) reqDeadline p with
  | (Fail e, p') => allocate_failure deadline reqDeadline e p'
  | (Ret resp, p') =>
      lift (respBody ← http_ReadAll resp;
            _ ← check (is_success resp) (ErrOther "iaas allocate API returned status");
            match json_unmarshal respBody with
            | Some r => Ret r
            | None => Fail (ErrOther "failed to unmarshal allocate response")
            end) p'
  | (Panic, p') => (Panic, p')
  | (OutOfFuel, p') => (OutOfFuel, p')
  end.
Definition AllocateIPs (deadline : option Z) (req : AllocateIPRequest) : cmd P AllocateIPResponse :=
  _ ← enough_budget deadline;
  reqDeadline ← with_timeout deadline;
  reqURL ← lift (url_JoinPath (baseURL c) allocateAPIPath);
  send_allocate deadline reqDeadline reqURL req.

Definition releaseSingleIP (deadline : option Z) (reqURL : string) (req : ReleaseIPRequest) : cmd P unit :=
  _ ← enough_budget deadline;
  reqDeadline ← with_timeout deadline;
  resp ← post reqURL (json_marshal req) reqDeadline;
  _ ← lift (http_ReadAll resp);
  lift (check (is_success resp) (ErrOther "iaas release API returned status")).
Definition ReleaseIP (deadline : option Z) (req : ReleaseIPRequest) : cmd P unit :=
  reqURL ← lift (url_JoinPath (baseURL c) releaseAPIPath);
  releaseSingleIP deadline reqURL req.
End client.

(** ** pkg/iaas/utils/multus.go *)

Section networks.
Context `{JN : JSON (list (option NetworkSelectionElement))}.

Definition getDefaultMultusNetwork (podAnno : gmap string string) (agentNamespace : string) (clusterNetwork : option string) : outcome (string * string) :=
  let defaultMultusObj := default ""%string (podAnno !! MultusDefaultNetAnnot) in
  defaultMultusObj ←
    (if (String.length defaultMultusObj =? 0)%nat then
       match clusterNetwork with None => Fail (ErrOther "no default multus network configured") | Some n => Ret n end
     else Ret defaultMultusObj);
  networks ← ParsePodNetworkAnnotation defaultMultusObj agentNamespace;
  match networks with
  | [] => Fail (ErrOther "empty default network annotation")
  | n :: _ => Ret (or_else (nse_Namespace n) agentNamespace, nse_Name n)
  end.

Definition getAdditionalMultusNetwork (podAnno : gmap string string) (podNamespace nic : string) : outcome (string * string) :=
  let annotation := default ""%string (podAnno !! MultusNetworkAttachmentAnnot) in
  if annotation == EmptyString then Fail (ErrOther "no multus network attachment annotation found")
  else
    networks ← ParsePodNetworkAnnotation annotation podNamespace;
    match find_network nic 0 networks with
    | None => Fail (ErrOther "no matching multus network found for NIC")
    | Some n => Ret (or_else (nse_Namespace n) podNamespace, nse_Name n)
    end.

(** The namespace and name of the network, as [MultusNetworkInfo]. *)
Definition GetMultusNetworkForNIC (pod : Pod) (nic agentNamespace : string) (clusterNetwork : option string) : outcome (string * string) :=
  let podAnno := Annotations (pod_meta pod) in
  if (nic == ClusterDefaultInterfaceName) || (nic == itoa 0) then getDefaultMultusNetwork podAnno agentNamespace clusterNetwork
  else getAdditionalMultusNetwork podAnno (Namespace (pod_meta pod)) nic.

(** The selection of pools and the registration agree on the network of a NIC. *)
Theorem multus_network_agrees config pod nic n :
  GetMultusNetworkForNIC pod nic (AgentNamespace config) (MultusClusterNetwork config) = Ret n ↔ multus_of config pod nic = Ret n.
Proof.
  unfold GetMultusNetworkForNIC, multus_of, getDefaultMultusNetwork, getAdditionalMultusNetwork. case_match.
  - assert (∀ obj (e e' : error), (networks ← ParsePodNetworkAnnotation obj (AgentNamespace config);
              match networks with [] => Fail e | n :: _ => Ret (or_else (nse_Namespace n) (AgentNamespace config), nse_Name n) end) = Ret n ↔
            (networks ← ParsePodNetworkAnnotation obj (AgentNamespace config);
              match networks with [] => Fail e' | n :: _ => Ret (or_else (nse_Namespace n) (AgentNamespace config), nse_Name n) end) = Ret n) as Hp.
    { intros obj e e'. destruct (ParsePodNetworkAnnotation _ _) as [[|]|e1| |]; cbn; naive_solver. }
    destruct (default _ _) as [|a s]; cbn [String.length Nat.eqb]; [|apply Hp]. destruct (MultusClusterNetwork config); [apply Hp|]. by split; intros [=].
  - case_match eqn:E.
    + apply bool_decide_eq_true in E. rewrite E. by split; intros [=].
    + destruct (ParsePodNetworkAnnotation _ _); cbn; [|reflexivity..]. destruct (find_network _ _ _); [reflexivity|]. by split; intros [=].
Qed.
End networks.

(** ** pkg/ipam/iaas.go *)

(** [APIReader], for the configurations. *)
Record SMCReader := MkReader { get_smc : string → string → outcome SpiderMultusConfig; list_smc : outcome (list SpiderMultusConfig) }.

Definition isProviderVLANSpiderMultusConfig (smc : SpiderMultusConfig) : bool :=
  (CniType (smc_spec smc) == Some VlanCNI) &&
  match VlanConfig (smc_spec smc) with Some v => (vl_VlanMode v == Some VlanModeAuto) | None => false end.

(** The master, or the bond of two. *)
Definition getMasterIfaceFromMultusConfig (smc : SpiderMultusConfig) : outcome string :=
  match CniType (smc_spec smc) with
  | None => Fail (ErrOther "CniType is nil")
  | Some t =>
      if t == VlanCNI then
        match VlanConfig (smc_spec smc) with
        | Some v =>
            match vl_Master v, vl_Bond v with
            | [m], _ => Ret m
            | [_; _], Some b => Ret (bond_Name b)
            | _, _ => Fail (ErrOther "no master interface found for CniType")
            end
        | None => Fail (ErrOther "no master interface found for CniType")
        end
      else Fail (ErrOther "unsupported CniType")
  end.

Definition smc_key (namespace name : string) : string := namespace +:+ "/" +:+ name.

(** The fields of a result that the provider chooses. *)
Definition set_mac (mac : string) (r : AllocationResult) : AllocationResult :=
  let i := res_IP r in
  MkResult (MkIPConfig (Address i) (EnableGatewayDetection i) (EnableIPConflictDetection i) (Gateway i) (cfg_IPPool i) mac (Nic i) (Version i) (cfg_Vlan i))
    (res_Routes r) (res_CleanGateway r).
Definition set_vlan (vlan : Z) (r : AllocationResult) : AllocationResult :=
  let i := res_IP r in
  MkResult (MkIPConfig (Address i) (EnableGatewayDetection i) (EnableIPConflictDetection i) (Gateway i) (cfg_IPPool i) (Mac i) (Nic i) (Version i) vlan)
    (res_Routes r) (res_CleanGateway r).
Definition apply_allocated (a : IaaSIPAllocationResult) (r : AllocationResult) : AllocationResult :=
  let r := if MacAddress a != EmptyString then set_mac (MacAddress a) r else r in
  if al_VlanID a != 0 then set_vlan (al_VlanID a) r else r.

(** The answers of the provider, each put into the result (by its position) that was asked for. *)
Fixpoint merge_allocated (answers : list IaaSIPAllocationResult) (ipToResult : gmap string nat) (results : list AllocationResult)
    : outcome (list AllocationResult) :=
  match answers with
  | [] => Ret results
  | a :: answers =>
      match ipToResult !! al_IPAddress a with
      | None => Fail (ErrOther "iaas response contains unknown IP")
      | Some i => merge_allocated answers ipToResult (alter (apply_allocated a) i results)
      end
  end.

Section ipam.
Context {P : Type} `{PR : Provider P}.
Context `{JQ : JSON AllocateIPRequest} `{JP : JSON AllocateIPResponse} `{JR : JSON ReleaseIPRequest}.
Context `{JN : JSON (list (option NetworkSelectionElement))}.
Context (Error : error → string) (url_JoinPath : string → string → outcome string).
Context (config : IPAMConfig) (reader : option SMCReader) (c : IaaSClient) (deadline : option Z).
Context (get_pod : string → string → outcome Pod).
Abbreviation C := (client_state P).

(** [i.config.IaaSClient.CacheParentNicMac(subnet, ...)] if there is a subnet. *)
Definition cache_subnet (subnet mac : string) : cmd C unit := if subnet != EmptyString then CacheParentNicMac subnet mac else mret ().

(** The MAC address of a link of the node. *)
Definition link_mac (iface : string) : cmd C string :=
  link ← read (λ s, node_link iface (provider s));
  mret (mac_string (nl_HwAddr link)).

(** From the cache, or from the link of the master. *)
Definition resolve_parent (smc : SpiderMultusConfig) (cacheKey subnet : string) : cmd C string := λ s,
  match (if subnet != EmptyString then GetCachedParentNicMac subnet s else None) with
  | Some cached => (Ret cached, s)
  | None =>
      match GetCachedParentNicMac cacheKey s with
      | Some cached => (_ ← cache_subnet subnet cached; mret cached) s
      | None =>
          (masterIface ← lift (getMasterIfaceFromMultusConfig smc);
           mac ← link_mac masterIface;
           _ ← cache_subnet subnet mac;
           _ ← CacheParentNicMac cacheKey mac;
           mret mac) s
      end
  end.

(** [None] stands for a network that is not eligible. *)
Definition getProviderParentNicMacFromMultus (pod : Pod) (nic subnet : string) : cmd C (option string) :=
  match reader with
  | None => lift (Fail (ErrOther "APIReader is not configured"))
  | Some rd =>
      '(namespace, name) ← lift (GetMultusNetworkForNIC pod nic (AgentNamespace config) (MultusClusterNetwork config));
      match get_smc rd namespace name with
      | Fail e => if not_found e then mret None else lift (Fail e)
      | Panic => lift Panic
      | OutOfFuel => lift OutOfFuel
      | Ret smc =>
          if negb (isProviderVLANSpiderMultusConfig smc) then mret None
          else mac ← resolve_parent smc (smc_key namespace name) subnet; mret (Some mac)
      end
  end.

(** The loop that builds the request and the index of the results. *)
Fixpoint request_items (pod : Pod) (results : list AllocationResult) (idx : nat) (ipToResult : gmap string nat) (items : list IaaSIPAllocationItem)
    : cmd C (gmap string nat * list IaaSIPAllocationItem) :=
  match results with
  | [] => mret (ipToResult, items)
  | result :: results =>
      match net_ParseCIDR (Address (res_IP result)) with
      | None => lift (Fail (ErrOther "failed to parse IP address"))
      | Some (ip, ipNet) =>
          let subnet := net_string ipNet in
          parent ← getProviderParentNicMacFromMultus pod (Nic (res_IP result)) subnet;
          match parent with
          | None => request_items pod results (Datatypes.S idx) ipToResult items
          | Some parentMac =>
              request_items pod results (Datatypes.S idx) (<[ip_string ip := idx]> ipToResult) (items ++ [MkItem (ip_string ip) subnet parentMac])
          end
      end
  end.

(** The second component is the results, which the code changes in place.  Results of an allocation
    have an address and a NIC. *)
Definition callIaaSAllocate (pod : Pod) (results : list AllocationResult) : cmd C (option AllocateIPResponse * list AllocationResult) :=
  if negb (has_IaaSClient config) then mret (None, results)
  else
    '(ipToResult, items) ← request_items pod results 0 ∅ [];
    if (length items =? 0)%nat then mret (None, results)
    else
      let req := MkAllocateReq (Name (pod_meta pod)) (Namespace (pod_meta pod)) (UID (pod_meta pod)) (NodeName pod) items in
      resp ← on_provider (AllocateIPs Error url_JoinPath c deadline req);
      results ← lift (merge_allocated (IaaSIPsAllocationResponse resp) ipToResult results);
      mret (Some resp, results).

(** The parent NIC of an address that is released: [inl] an error to report, [inr None] to skip; the
    Pod is read once, when the cache does not have the subnet. *)
Definition release_parent (endpoint : SpiderEndpoint) (nic subnet : string) (pod : option Pod) : cmd C (option Pod * (error + option string)) := λ s,
  match GetCachedParentNicMac subnet s with
  | Some cached => (Ret (pod, inr (Some cached)), s)
  | None =>
      match (match pod with Some pod => Ret pod | None => get_pod (Namespace (ep_meta endpoint)) (Name (ep_meta endpoint)) end) with
      | Fail e => (Ret (None, inl e), s)
      | Panic => (Panic, s)
      | OutOfFuel => (OutOfFuel, s)
      | Ret p =>
          match getProviderParentNicMacFromMultus p nic subnet s with
          | (Ret parent, s') => (Ret (Some p, inr parent), s')
          | (Fail _, s') => (Ret (Some p, inr None), s')
          | (Panic, s') => (Panic, s')
          | (OutOfFuel, s') => (OutOfFuel, s')
          end
      end
  end.

(** [errs = append(errs, err)] *)
Definition try_release (req : ReleaseIPRequest) : cmd C (list error) := λ s,
  match on_provider (ReleaseIP url_JoinPath c deadline req) s with
  | (Ret _, s') => (Ret [], s')
  | (Fail e, s') => (Ret [e], s')
  | (Panic, s') => (Panic, s')
  | (OutOfFuel, s') => (OutOfFuel, s')
  end.

Fixpoint release_details (endpoint : SpiderEndpoint) (details : list IPAllocationDetail) (pod : option Pod) (errs : list error) : cmd C (list error) :=
  match details with
  | [] => mret errs
  | detail :: details =>
      match d_IPv4 detail with
      | None => release_details endpoint details pod errs
      | Some v4 =>
          match net_ParseCIDR v4 with
          | None => release_details endpoint details pod (errs ++ [ErrOther "failed to parse CIDR"])
          | Some (ip, subnetCIDR) =>
              let subnet := net_string subnetCIDR in
              '(pod, parent) ← release_parent endpoint (NIC detail) subnet pod;
              match parent with
              | inl e => release_details endpoint details pod (errs ++ [e])
              | inr None => release_details endpoint details pod errs
              | inr (Some parentNicMac) =>
                  es ← try_release (MkReleaseReq (Name (ep_meta endpoint)) (Namespace (ep_meta endpoint)) (ep_UID (current_of endpoint))
                                      (ep_Node (current_of endpoint)) parentNicMac subnet (ip_string ip));
                  release_details endpoint details pod (errs ++ es)
              end
          end
      end
  end.
Definition callIaaSRelease (endpoint : SpiderEndpoint) : cmd C unit :=
  if negb (has_IaaSClient config) then mret ()
  else
    errs ← release_details endpoint (ep_IPs (current_of endpoint)) None [];
    lift (check (length errs =? 0)%nat (ErrOther "iaas release failed")).

(** One configuration at start-up; what cannot be resolved is left out. *)
Definition prewarm_one (smc : SpiderMultusConfig) : cmd C unit := λ s,
  if negb (isProviderVLANSpiderMultusConfig smc) then (Ret (), s)
  else
    match getMasterIfaceFromMultusConfig smc with
    | Ret masterIface =>
        let cacheKey := smc_key (Namespace (smc_meta smc)) (Name (smc_meta smc)) in
        match GetCachedParentNicMac cacheKey s with
        | Some _ => (Ret (), s)
        | None => unless_err (λ _, true) (mac ← link_mac masterIface; CacheParentNicMac cacheKey mac) s
        end
    | _ => (Ret (), s)
    end.
Definition prewarmParentNicMacCache : cmd C unit :=
  match reader with
  | None => mret ()
  | Some rd => match list_smc rd with Ret items => each prewarm_one items | Fail _ => mret () | Panic => lift Panic | OutOfFuel => lift OutOfFuel end
  end.
End ipam.

(** ** What is registered *)

Section facts.
Context {P : Type} `{PR : Provider P} `{PF : !ProviderFrame P}.
Context `{JQ : JSON AllocateIPRequest} `{JP : JSON AllocateIPResponse} `{JR : JSON ReleaseIPRequest}.
Context `{JN : JSON (list (option NetworkSelectionElement))}.
Context (Error : error → string) (url_JoinPath : string → string → outcome string).
Context (config : IPAMConfig) (rd : SMCReader) (c : IaaSClient) (deadline : option Z).
Context (get_pod : string → string → outcome Pod).
Abbreviation C := (client_state P).
Abbreviation parent_of := (getProviderParentNicMacFromMultus config (Some rd)).
Abbreviation allocate := (callIaaSAllocate Error url_JoinPath config (Some rd) c deadline).
Abbreviation release := (callIaaSRelease url_JoinPath config (Some rd) c deadline get_pod).

(** The address of the master of a network with automatic VLANs. *)
Definition provider_mac (p : P) (mac : string) : Prop :=
  ∃ ns name smc iface link, get_smc rd ns name = Ret smc ∧ isProviderVLANSpiderMultusConfig smc = true ∧
    getMasterIfaceFromMultusConfig smc = Ret iface ∧ node_link iface p = Ret link ∧ mac = mac_string (nl_HwAddr link).
Definition cache_ok (s : C) : Prop := ∀ key mac, parentNicMacCache s !! key = Some mac → provider_mac (provider s) mac.

(** The NIC has a network with automatic VLANs. *)
Definition eligible (pod : Pod) (nic : string) : bool :=
  match GetMultusNetworkForNIC pod nic (AgentNamespace config) (MultusClusterNetwork config) with
  | Ret (ns, name) => match get_smc rd ns name with Ret smc => isProviderVLANSpiderMultusConfig smc | _ => false end
  | _ => false
  end.

(** The links stay, and the cache stays good. *)
Definition links_kept (p p' : P) : Prop := ∀ iface, node_link iface p' = node_link iface p.
Definition cache_kept (s s' : C) : Prop := cache_ok s → links_kept (provider s) (provider s') ∧ cache_ok s'.
#[local] Instance links_kept_preorder : PreOrder links_kept.
Proof. split; [done|]. intros a b d H1 H2 iface. by rewrite H2. Qed.
#[local] Instance cache_kept_preorder : PreOrder cache_kept.
Proof. split; [done|]. intros a b d H1 H2 Ha. destruct (H1 Ha) as [H3 Hb]. destruct (H2 Hb) as [H4 Hd]. split; [by etrans|done]. Qed.

Lemma links_kept_mac p p' mac : links_kept p p' → provider_mac p mac → provider_mac p' mac.
Proof. intros Hk (ns & name & smc & iface & link & ? & ? & ? & Hl & ->). exists ns, name, smc, iface, link. by rewrite Hk. Qed.

Lemma on_provider_kept {A} (m : cmd P A) : evolves links_kept m → evolves cache_kept (on_provider m).
Proof.
  intros Hm s. unfold on_provider. specialize (Hm (provider s)). destruct (m (provider s)) as [o p]. cbn in *. intros Hc. split; [done|].
  intros key mac Hk. eapply links_kept_mac; [done|]. by eapply Hc.
Qed.
Lemma cache_added key mac s : provider_mac (provider s) mac → cache_kept s (CacheParentNicMac key mac s).2.
Proof.
  intros Hm Hc. split; [done|]. intros k m. cbn. destruct (decide (k = key)) as [->|Hn].
  - rewrite lookup_insert_eq. by intros [= <-].
  - rewrite lookup_insert_ne by done. apply Hc.
Qed.

(** A command that leaves the provider alone and keeps the cache good; [Q] holds of what it returns. *)
Definition resolves {A} (Q : A → Prop) (m : cmd C A) (s : C) : Prop :=
  cache_ok s → provider (m s).2 = provider s ∧ cache_ok (m s).2 ∧ ∀ a, (m s).1 = Ret a → Q a.

Lemma resolves_lift {A} (Q : A → Prop) o s : (∀ a, o = Ret a → Q a) → resolves Q (lift o) s.
Proof. intros HQ Hc. done. Qed.
Lemma resolves_bind {A B} (Q : A → Prop) (Q' : B → Prop) m (f : A → cmd C B) s :
  resolves Q m s → (∀ a s', provider s' = provider s → Q a → resolves Q' (f a) s') → resolves Q' (m ≫= f) s.
Proof.
  intros Hm Hf Hc. destruct (Hm Hc) as (Hp & Hc' & HQ). unfold mbind, cmd_bind. destruct (m s) as [[a|e| |] s1]; cbn in *; [|done..].
  destruct (Hf a s1 Hp (HQ a eq_refl) Hc') as (Hp' & Hc'' & HQ'). split_and!; [congruence|done..].
Qed.
Lemma resolves_cache Q key mac s : provider_mac (provider s) mac → Q () → resolves Q (CacheParentNicMac key mac) s.
Proof. intros Hm HQ Hc. split_and!; [done|by apply cache_added|by intros []]. Qed.
Lemma resolves_subnet subnet mac s : provider_mac (provider s) mac → resolves (λ _, True) (cache_subnet subnet mac) s.
Proof. intros Hm. unfold cache_subnet. destruct (subnet != EmptyString); [by apply resolves_cache|by apply resolves_lift]. Qed.
Lemma resolves_link_mac smc ns name iface s : get_smc rd ns name = Ret smc → isProviderVLANSpiderMultusConfig smc = true →
  getMasterIfaceFromMultusConfig smc = Ret iface → resolves (provider_mac (provider s)) (link_mac iface) s.
Proof.
  intros Hg Hi Hm. unfold link_mac. apply (resolves_bind (λ link, node_link iface (provider s) = Ret link)); [done|].
  intros link s' Hp Hl. apply (resolves_lift _ (Ret _)). intros mac [= <-]. by exists ns, name, smc, iface, link.
Qed.

Lemma resolve_parent_spec smc ns name key subnet s : get_smc rd ns name = Ret smc → isProviderVLANSpiderMultusConfig smc = true →
  resolves (provider_mac (provider s)) (resolve_parent smc key subnet) s.
Proof.
  intros Hg Hi Hc. revert Hc. unfold resolve_parent. destruct (if subnet != EmptyString then _ else None) as [mac|] eqn:E1.
  - intros Hc. split_and!; [done..|]. intros a [= <-]. apply (Hc subnet). destruct (subnet != EmptyString); [done|discriminate E1].
  - destruct (GetCachedParentNicMac key s) as [mac|] eqn:E2; intros Hc.
    + assert (provider_mac (provider s) mac) as Hm by by apply (Hc key).
      apply (resolves_bind (λ _, True)); [by apply resolves_subnet| |done]. intros _ s' _ _. apply (resolves_lift _ (Ret _)). by intros a [= <-].
    + destruct (getMasterIfaceFromMultusConfig smc) as [iface|e| |] eqn:E3; [|done..].
      apply (resolves_bind (λ a, a = iface)); [by apply resolves_lift; intros a [= <-]| |done]. intros i s0 H0 ->.
      apply (resolves_bind (provider_mac (provider s0))); [by eapply resolves_link_mac|]. intros mac s1 H1 Hm.
      apply (resolves_bind (λ _, True)); [apply resolves_subnet; by rewrite H1|]. intros [] s2 H2 _.
      apply (resolves_bind (λ _, True)); [apply resolves_cache; [by rewrite H2, H1|done]|]. intros [] s3 H3 _. apply (resolves_lift _ (Ret _)). intros a [= <-]. by rewrite <- H0.
Qed.

(** Eligibility is decided by the network alone. *)
Lemma parent_of_spec pod nic subnet s :
  resolves (λ o, match o with Some mac => eligible pod nic = true ∧ provider_mac (provider s) mac | None => eligible pod nic = false end) (parent_of pod nic subnet) s.
Proof.
  unfold getProviderParentNicMacFromMultus, eligible. destruct (GetMultusNetworkForNIC _ _ _ _) as [[ns name]|e| |]; [|done..].
  apply (resolves_bind (λ a, a = (ns, name))); [by apply resolves_lift; intros a [= <-]|]. intros [ns' name'] s0 Hp [= -> ->].
  destruct (get_smc rd ns name) as [smc|e| |] eqn:Hg; [| |done..].
  2:{ destruct (not_found e); apply resolves_lift; [by intros a [= <-]|done]. }
  destruct (isProviderVLANSpiderMultusConfig smc) eqn:Hi; cbn [negb]; [|by apply (resolves_lift _ (Ret None)); intros a [= <-]].
  apply (resolves_bind (provider_mac (provider s0))); [by eapply resolve_parent_spec|]. intros mac s1 H1 Hm.
  apply (resolves_lift _ (Ret _)). intros a [= <-]. split; [done|]. by rewrite <- Hp.
Qed.

(** The address of a result, and its item in the request. *)
Definition has_address (r : AllocationResult) (ip : string) : Prop := ∃ a net, net_ParseCIDR (Address (res_IP r)) = Some (a, net) ∧ ip_string a = ip.
Definition item_for (p : P) (r : AllocationResult) (it : IaaSIPAllocationItem) : Prop :=
  ∃ a net, net_ParseCIDR (Address (res_IP r)) = Some (a, net) ∧ it_IPAddress it = ip_string a ∧ it_Subnet it = net_string net ∧ provider_mac p (it_ParentNicMac it).
Abbreviation wanted := (λ pod, List.filter (λ r, eligible pod (Nic (res_IP r)))).

Lemma request_items_spec pod results idx m items s :
  resolves (λ '(m', items'), (∃ new, items' = items ++ new ∧ Forall2 (item_for (provider s)) (wanted pod results) new) ∧
      ∀ ip i, m' !! ip = Some i → m !! ip = Some i ∨ ∃ j r, i = (idx + j)%nat ∧ results !! j = Some r ∧ eligible pod (Nic (res_IP r)) = true ∧ has_address r ip)
    (request_items config (Some rd) pod results idx m items) s.
Proof.
  revert idx m items s. induction results as [|r results IH]; intros idx m items s; cbn [request_items List.filter].
  { apply (resolves_lift _ (Ret _)). intros [m' items'] [= <- <-]. split; [exists []; by rewrite app_nil_r|eauto]. }
  destruct (net_ParseCIDR (Address (res_IP r))) as [[a net]|] eqn:Ha; [|done].
  eapply resolves_bind; [apply parent_of_spec|]. intros [mac|] s1 H1 He; cbn beta match in He.
  - destruct He as [He Hm]. rewrite He. intros Hc. destruct (IH (Datatypes.S idx) (<[ip_string a := idx]> m) (items ++ [MkItem (ip_string a) (net_string net) mac]) s1 Hc) as (Hp & Hc' & HQ).
    split_and!; [done..|]. intros [m' items'] Hr. destruct (HQ _ Hr) as [(new & -> & Hn) Hi]. split.
    + exists (MkItem (ip_string a) (net_string net) mac :: new). split; [by rewrite <- app_assoc|]. constructor; [by exists a, net|by rewrite <- H1].
    + intros ip i Hl. destruct (Hi _ _ Hl) as [Hm'|(j & r' & -> & Hj & ? & ?)]; [|right; exists (Datatypes.S j), r'; split_and!; try done; lia].
      destruct (decide (ip = ip_string a)) as [->|Hd]; [|rewrite lookup_insert_ne in Hm' by done; by left].
      rewrite lookup_insert_eq in Hm'. injection Hm' as <-. right. exists 0%nat, r. split_and!; [lia|done..|by exists a, net].
  - rewrite He. intros Hc. destruct (IH (Datatypes.S idx) m items s1 Hc) as (Hp & Hc' & HQ). split_and!; [done..|]. intros [m' items'] Hr. destruct (HQ _ Hr) as [(new & -> & Hn) Hi].
    split; [exists new; by rewrite <- H1|]. intros ip i Hl. destruct (Hi _ _ Hl) as [Hm'|(j & r' & -> & Hj & ? & ?)]; [by left|].
    right. exists (Datatypes.S j), r'. split_and!; try done; lia.
Qed.

(** *** The answers *)

(** What the answers make of the result at a position. *)
Definition merged (m : gmap string nat) (j : nat) (answers : list IaaSIPAllocationResult) (r : AllocationResult) : AllocationResult :=
  foldl (λ r a, if decide (m !! al_IPAddress a = Some j) then apply_allocated a r else r) r answers.
Lemma merge_allocated_spec answers m results results' : merge_allocated answers m results = Ret results' →
  Forall (λ a, is_Some (m !! al_IPAddress a)) answers ∧ ∀ j, results' !! j = merged m j answers <$> results !! j.
Proof.
  revert results. induction answers as [|a answers IH]; intros results; cbn [merge_allocated merged foldl].
  { intros [= <-]. split; [constructor|]. intros j. by destruct (results !! j). }
  destruct (m !! al_IPAddress a) as [i|] eqn:Hi; [|done]. intros (Hf & Hl)%IH. split; [constructor; [done|exact Hf]|]. intros j. rewrite Hl.
  destruct (decide (i = j)) as [->|Hn].
  - rewrite list_lookup_alter_eq. destruct (results !! j); cbn; [|done]. by rewrite decide_True.
  - rewrite list_lookup_alter_ne by done. destruct (results !! j); cbn; [|done]. rewrite decide_False; [done|]. intros [=]. congruence.
Qed.

(** Only the MAC address and the VLAN may differ. *)
Definition same_address (r r' : AllocationResult) : Prop :=
  ∃ mac vlan, r' = MkResult (MkIPConfig (Address (res_IP r)) (EnableGatewayDetection (res_IP r)) (EnableIPConflictDetection (res_IP r)) (Gateway (res_IP r))
    (cfg_IPPool (res_IP r)) mac (Nic (res_IP r)) (Version (res_IP r)) vlan) (res_Routes r) (res_CleanGateway r).
Lemma same_address_refl r : same_address r r.
Proof. destruct r as [[] ??]. by eexists _, _. Qed.
Lemma apply_allocated_same a r0 r : same_address r0 r → same_address r0 (apply_allocated a r).
Proof. intros (mac & vlan & ->). unfold apply_allocated. destruct (MacAddress a != EmptyString), (al_VlanID a != 0); by eexists _, _. Qed.
Lemma merged_same m j answers r0 r : same_address r0 r → same_address r0 (merged m j answers r).
Proof.
  revert r. induction answers as [|a answers IH]; intros r Hr; cbn; [done|]. apply IH. case_decide; [by apply apply_allocated_same|done].
Qed.
Lemma merged_none m j answers r : (∀ a, a ∈ answers → m !! al_IPAddress a ≠ Some j) → merged m j answers r = r.
Proof.
  induction answers as [|a answers IH]; intros Hn; cbn; [done|]. rewrite decide_False; [|by apply Hn; left]. apply IH. intros b Hb. apply Hn. by right.
Qed.
Lemma merged_one m j answers a r : a ∈ answers → m !! al_IPAddress a = Some j → NoDup (al_IPAddress <$> answers) →
  (∀ b, b ∈ answers → m !! al_IPAddress b = Some j → al_IPAddress b = al_IPAddress a) → merged m j answers r = apply_allocated a r.
Proof.
  revert r. induction answers as [|b answers IH]; intros r Ha Hj Hnd Hu; [by apply not_elem_of_nil in Ha|]. cbn in Hnd. apply NoDup_cons in Hnd as [Hnb Hnd].
  apply elem_of_cons in Ha as [->|Ha]; cbn.
  - rewrite decide_True by done. apply merged_none. intros x Hx Hm. apply Hnb. rewrite <- (Hu x); [|by right|done]. by apply list_elem_of_fmap_2.
  - rewrite decide_False; [apply IH; try done; intros; apply Hu; [by right|done]|]. intros Hm. apply Hnb. rewrite (Hu b); [|by left|done]. by apply list_elem_of_fmap_2.
Qed.

(** *** The calls *)

(** The provider was sent the request and accepted it with the answer. *)
Definition accepted (req : AllocateIPRequest) (resp : AllocateIPResponse) : Prop :=
  ∃ url ms p p' status body, http_Do (MkHTTP url (json_marshal req) ms) p = (Ret (MkHTTPResponse status (Ret body)), p') ∧
    200 ≤ status < 300 ∧ json_unmarshal body = Some resp.
Lemma AllocateIPs_accepted req p resp p' : AllocateIPs Error url_JoinPath c deadline req p = (Ret resp, p') → accepted req resp.
Proof.
  intros (_ & p1 & _ & (d & p2 & _ & (url & p3 & _ & H)%cmd_bind_Ret)%cmd_bind_Ret)%cmd_bind_Ret. unfold send_allocate in H.
  destruct (post _ _ _ _) as [[r|e| |] p4] eqn:Hp; [| |done..].
  2:{ apply cmd_bind_Ret in H as (t & p5 & _ & H). revert H. case_match; [|by intros [=]]. by intros (? & ? & _ & [=])%cmd_bind_Ret. }
  apply cmd_bind_Ret in Hp as (t & p5 & _ & Hp). apply lift_Ret in H as [H _]. apply bind_Ret in H as (body & Hb & ([] & Hs%check_Ret & Hj)%bind_Ret).
  destruct (json_unmarshal body) as [r'|] eqn:Hu; [injection Hj as ->|done]. destruct r as [status rb]. cbn in Hb. subst rb.
  exists url, (setRequestTimeoutHeader (d - t)), p5, p4, status, body. split_and!; try done; unfold is_success in Hs; cbn in Hs; lia.
Qed.

(** What the answers do to the results: each belongs to a result that was asked for and, if no
    address is answered twice, is all that this result is completed with; the other results stay. *)
Definition completed (pod : Pod) (answers : list IaaSIPAllocationResult) (results results' : list AllocationResult) : Prop :=
  Forall2 same_address results results' ∧
  (∀ a, a ∈ answers → ∃ j r r', results !! j = Some r ∧ results' !! j = Some r' ∧ eligible pod (Nic (res_IP r)) = true ∧ has_address r (al_IPAddress a) ∧
     (NoDup (al_IPAddress <$> answers) → r' = apply_allocated a r)) ∧
  (∀ j r r', results !! j = Some r → results' !! j = Some r' → r' ≠ r → eligible pod (Nic (res_IP r)) = true ∧ ∃ a, a ∈ answers ∧ has_address r (al_IPAddress a)).
Lemma has_address_inj r ip ip' : has_address r ip → has_address r ip' → ip = ip'.
Proof. intros (a & net & Ha & <-) (b & net' & Hb & <-). congruence. Qed.

Lemma merge_completed pod answers m results results' :
  (∀ ip i, m !! ip = Some i → ∃ r, results !! i = Some r ∧ eligible pod (Nic (res_IP r)) = true ∧ has_address r ip) →
  merge_allocated answers m results = Ret results' → completed pod answers results results'.
Proof.
  intros Hm (Hall & Hl)%merge_allocated_spec. split_and!.
  - apply Forall2_lookup. intros j. rewrite Hl. destruct (results !! j); constructor. apply merged_same, same_address_refl.
  - intros a Ha. rewrite Forall_forall in Hall. destruct (Hall a Ha) as [j Hj]. destruct (Hm _ _ Hj) as (r & Hr & He & Hip).
    exists j, r, (merged m j answers r). rewrite Hl, Hr. split_and!; try done. intros Hnd. apply merged_one; try done.
    intros b Hb Hbj. destruct (Hm _ _ Hbj) as (r1 & Hr1 & _ & Hip1). rewrite Hr in Hr1. injection Hr1 as <-. by eapply has_address_inj.
  - intros j r r' Hr Hr' Hd. rewrite Hl, Hr in Hr'. injection Hr' as <-.
    destruct (decide (List.Exists (λ a, m !! al_IPAddress a = Some j) answers)) as [(a & Ha & Haj)%Exists_exists|Hn].
    + destruct (Hm _ _ Haj) as (r1 & Hr1 & He & Hip). rewrite Hr in Hr1. injection Hr1 as <-. eauto.
    + destruct Hd. apply merged_none. intros a Ha Haj. apply Hn, Exists_exists. eauto.
Qed.

(** C12: an allocation registers with the provider exactly the addresses of the NICs that have a
    network with automatic VLANs, each with its subnet and the MAC address of the master of such a
    network, whatever the cache holds (as long as it is good); nothing is sent when there is none.
    The answer changes the MAC address and the VLAN of results that were sent and nothing else, and
    every address it names was sent. *)
Theorem iaas_allocate_completes pod results s resp results' s' :
  has_IaaSClient config = true → cache_ok s → allocate pod results s = (Ret (resp, results'), s') →
  ∃ items, Forall2 (item_for (provider s)) (wanted pod results) items ∧
    ((items = [] ∧ resp = None ∧ results' = results) ∨
     ∃ answer, items ≠ [] ∧ resp = Some answer ∧
       accepted (MkAllocateReq (Name (pod_meta pod)) (Namespace (pod_meta pod)) (UID (pod_meta pod)) (NodeName pod) items) answer ∧
       completed pod (IaaSIPsAllocationResponse answer) results results').
Proof.
  intros Hi Hc. unfold callIaaSAllocate. rewrite Hi. cbn [negb]. intros ([m items] & s1 & Hr & H)%cmd_bind_Ret.
  destruct (request_items_spec pod results 0 ∅ [] s Hc) as (Hp & _ & HQ). rewrite Hr in HQ. destruct (HQ _ eq_refl) as [(new & Hn & Hf) Hm]. cbn [app] in Hn. subst new.
  exists items. split; [done|]. destruct items as [|it items]; cbn [length Nat.eqb] in H; [injection H as <- <- _; by left|].
  apply cmd_bind_Ret in H as (answer & s2 & Ha & (rs & s3 & [Hg _]%lift_Ret & [= <- <- _])%cmd_bind_Ret). right. exists answer. split_and!; try done.
  - unfold on_provider in Ha. destruct (AllocateIPs _ _ _ _ _ _) as [o p] eqn:E. injection Ha as -> _. by eapply AllocateIPs_accepted.
  - eapply merge_completed; [|exact Hg]. intros ip i Hl. destruct (Hm _ _ Hl) as [?|(j & r & -> & ? & ? & ?)]; [by rewrite lookup_empty in *|]. eauto.
Qed.

(** *** The cache *)

Lemma resolves_kept {A} (Q : C → A → Prop) m : (∀ s, resolves (Q s) m s) → evolves cache_kept m.
Proof. intros Hm s Hc. destruct (Hm s Hc) as (Hp & Hc' & _). split; [by intros iface; rewrite Hp|done]. Qed.
Lemma now_kept : evolves links_kept now.
Proof. intros p iface. apply now_links. Qed.
Lemma post_kept url body d : evolves links_kept (post url body d).
Proof. apply evolves_bind; [apply _|apply now_kept|]. intros t p iface. apply http_links. Qed.
Lemma budget_kept d : evolves links_kept (enough_budget d).
Proof. destruct d; [|apply evolves_ret, _]. apply evolves_bind; [apply _|apply now_kept|]. intros t. apply evolves_lift, _. Qed.
Lemma with_timeout_kept d : evolves links_kept (with_timeout c d).
Proof. apply evolves_bind; [apply _|apply now_kept|]. intros t. apply evolves_ret, _. Qed.
Lemma send_allocate_kept d rd' url req : evolves links_kept (send_allocate Error d rd' url req).
Proof.
  intros p. unfold send_allocate. pose proof (post_kept url (json_marshal req) rd' p) as Hp. destruct (post _ _ _ p) as [[r|e| |] p1]; cbn in *; [done| |done..].
  etrans; [exact Hp|]. apply (evolves_bind links_kept); [apply now_kept|]. intros t. case_match; [|apply evolves_lift, _].
  apply evolves_bind; [apply _|apply now_kept|]. intros t'. apply evolves_lift, _.
Qed.
Lemma AllocateIPs_kept d req : evolves links_kept (AllocateIPs Error url_JoinPath c d req).
Proof.
  apply evolves_bind; [apply _|apply budget_kept|]. intros _. apply evolves_bind; [apply _|apply with_timeout_kept|]. intros rd'.
  apply evolves_bind; [apply _|apply evolves_lift, _|]. intros url. apply send_allocate_kept.
Qed.
Lemma ReleaseIP_kept d req : evolves links_kept (ReleaseIP url_JoinPath c d req).
Proof.
  apply evolves_bind; [apply _|apply evolves_lift, _|]. intros url. apply evolves_bind; [apply _|apply budget_kept|]. intros _.
  apply evolves_bind; [apply _|apply with_timeout_kept|]. intros rd'. apply evolves_bind; [apply _|apply post_kept|]. intros resp.
  apply evolves_bind; [apply _|apply evolves_lift, _|]. intros body. apply evolves_lift, _.
Qed.

Lemma release_parent_kept ep nic subnet pod : evolves cache_kept (release_parent config (Some rd) get_pod ep nic subnet pod).
Proof.
  intros s. unfold release_parent. destruct (GetCachedParentNicMac subnet s); [reflexivity|]. destruct (match pod with Some _ => _ | None => _ end) as [p|e| |]; [|reflexivity..].
  pose proof (resolves_kept _ _ (λ s, parent_of_spec p nic subnet s) s) as Hk. by destruct (parent_of p nic subnet s) as [[] s1].
Qed.
Lemma try_release_kept req : evolves cache_kept (try_release url_JoinPath c deadline req).
Proof.
  intros s. unfold try_release. pose proof (on_provider_kept _ (ReleaseIP_kept deadline req) s) as Hk. by destruct (on_provider _ s) as [[] s1].
Qed.
Lemma release_details_kept ep details pod errs : evolves cache_kept (release_details url_JoinPath config (Some rd) c deadline get_pod ep details pod errs).
Proof.
  revert pod errs. induction details as [|d details IH]; intros pod errs; cbn [release_details]; [by apply evolves_ret, _|].
  destruct (d_IPv4 d) as [v4|]; [|apply IH]. destruct (net_ParseCIDR v4) as [[ip net]|]; [|apply IH].
  apply evolves_bind; [apply _|apply release_parent_kept|]. intros [pod' [e|[mac|]]]; [apply IH| |apply IH].
  apply evolves_bind; [apply _|apply try_release_kept|]. intros es. apply IH.
Qed.
Lemma release_kept ep : evolves cache_kept (release ep).
Proof.
  unfold callIaaSRelease. destruct (negb (has_IaaSClient config)); [apply evolves_ret, _|]. apply evolves_bind; [apply _|apply release_details_kept|]. intros errs. apply evolves_lift, _.
Qed.
Lemma allocate_kept pod results : evolves cache_kept (allocate pod results).
Proof.
  unfold callIaaSAllocate. destruct (negb (has_IaaSClient config)); [apply evolves_ret, _|].
  apply evolves_bind; [apply _|eapply resolves_kept; intros s; apply request_items_spec|]. intros [m items]. destruct (length items =? 0)%nat; [apply evolves_ret, _|].
  apply evolves_bind; [apply _|apply on_provider_kept, AllocateIPs_kept|]. intros resp. apply evolves_bind; [apply _|apply evolves_lift, _|]. intros rs. apply evolves_ret, _.
Qed.
(** A listing of what the reader has. *)
Definition lists_same (items : list SpiderMultusConfig) : Prop := Forall (λ smc, get_smc rd (Namespace (smc_meta smc)) (Name (smc_meta smc)) = Ret smc) items.
Lemma prewarm_kept : (∀ items, list_smc rd = Ret items → lists_same items) → evolves cache_kept (prewarmParentNicMacCache (P := P) (Some rd)).
Proof.
  intros Hl. unfold prewarmParentNicMacCache. destruct (list_smc rd) as [items|e| |]; [|apply evolves_ret, _|apply evolves_lift, _..].
  specialize (Hl items eq_refl). clear -Hl. induction Hl as [|smc items Hg Hl IH]; cbn [each]; [apply evolves_ret, _|]. apply evolves_bind; [apply _| |by intros _].
  intros s. unfold prewarm_one. destruct (isProviderVLANSpiderMultusConfig smc) eqn:Hi; cbn [negb]; [|reflexivity].
  destruct (getMasterIfaceFromMultusConfig smc) as [iface|e| |] eqn:Hm; [|reflexivity..]. destruct (GetCachedParentNicMac _ s); [reflexivity|].
  apply evolves_unless. eapply (resolves_kept (λ _ _, True)). intros s0. eapply resolves_bind; [by eapply resolves_link_mac|]. intros mac s1 H1 Hmac. apply resolves_cache; [by rewrite H1|done].
Qed.

(** What happens to the client: its start, allocations and releases, and the time that goes by. *)
Inductive iaas_step : C → C → Prop :=
  | step_prewarm s : iaas_step s (prewarmParentNicMacCache (Some rd) s).2
  | step_allocate pod results s : iaas_step s (allocate pod results s).2
  | step_release ep s : iaas_step s (release ep s).2
  | step_elapse s p : links_kept (provider s) p → iaas_step s (MkClient (parentNicMacCache s) p).

(** C22: however the start-up, allocations and releases follow each other, and whatever the provider
    answers, every MAC address in the cache of the client is that of the master of a network with
    automatic VLANs, so no request names another parent NIC. *)
Theorem iaas_cache_invariant p s : (∀ items, list_smc rd = Ret items → lists_same items) → rtc iaas_step (MkClient ∅ p) s → cache_ok s.
Proof.
  intros Hl Hr. assert (cache_ok (MkClient ∅ p)) as H0. { intros k m H. cbn in H. by rewrite lookup_empty in H. } revert H0.
  induction Hr as [s|s s1 s2 Hs _ IH]; [done|]. intros Hc. apply IH. destruct Hs as [s|pod results s|ep s|s p' Hk].
  - by apply prewarm_kept. - by apply allocate_kept. - by apply release_kept. - intros k m Hm. eapply links_kept_mac; [done|]. by eapply Hc.
Qed.
End facts.

(** A call without the time that the provider may need is not made. *)
Theorem late_request_not_sent {P} `{PR : Provider P} `{JQ : JSON AllocateIPRequest} `{JP : JSON AllocateIPResponse} `{JR : JSON ReleaseIPRequest}
    Error url_JoinPath c d (p p1 : P) t : now p = (Ret t, p1) → d - t < IaaSProviderWorstCase →
  (∀ req, AllocateIPs Error url_JoinPath c (Some d) req p = (Fail (ErrOther "parent budget insufficient"), p1)) ∧
  (∀ url req, releaseSingleIP c (Some d) url req p = (Fail (ErrOther "parent budget insufficient"), p1)).
Proof.
  intros Hn Hd. assert (enough_budget (Some d) p = (Fail (ErrOther "parent budget insufficient"), p1)) as He.
  { unfold enough_budget, mbind, cmd_bind. rewrite Hn. unfold lift. by rewrite (proj2 (Z.ltb_lt _ _) Hd). }
  split; intros *; [unfold AllocateIPs|unfold releaseSingleIP]; unfold mbind at 1; unfold cmd_bind at 1; by rewrite He.
Qed.
(** The header is the time that is left in milliseconds, rounded up, and never 0. *)
Theorem timeout_header_rounds_up remaining : 0 < remaining →
  ∃ ms, setRequestTimeoutHeader remaining = Some ms ∧ 1 ≤ ms ∧ (ms - 1) * Millisecond < remaining ≤ ms * Millisecond.
Proof.
  intros Hr. unfold setRequestTimeoutHeader. rewrite (proj2 (Z.leb_gt _ _)) by lia. eexists. split; [reflexivity|]. unfold Millisecond.
  pose proof (Z.div_mod (remaining + 1000000 - 1) 1000000 ltac:(lia)). pose proof (Z.mod_pos_bound (remaining + 1000000 - 1) 1000000 ltac:(lia)). lia.
Qed.

(** Addresses of IPv6 are registered by an allocation, but no release names one. *)
Theorem v6_never_released {P} `{PR : Provider P} `{JQ : JSON AllocateIPRequest} `{JP : JSON AllocateIPResponse} `{JR : JSON ReleaseIPRequest}
    `{JN : JSON (list (option NetworkSelectionElement))} url_JoinPath config reader c deadline get_pod ep (s : client_state P) :
  Forall (λ d, d_IPv4 d = None) (ep_IPs (current_of ep)) → callIaaSRelease url_JoinPath config reader c deadline get_pod ep s = (Ret (), s).
Proof.
  intros Hd. unfold callIaaSRelease. destruct (negb (has_IaaSClient config)); [done|]. generalize (@None Pod). revert Hd. generalize (ep_IPs (current_of ep)).
  induction 1 as [|d details Hd Hds IH]; intros pod; [done|]. cbn [release_details]. rewrite Hd. apply IH.
Qed.

(** ** A provider that accepts *)

Module Demo.
#[export] Instance item_countable : Countable IaaSIPAllocationItem.
Proof. by refine (inj_countable' (λ i, (it_IPAddress i, it_Subnet i, it_ParentNicMac i)) (λ '(a, b, c), MkItem a b c) _); intros []. Defined.
#[export] Instance allocated_countable : Countable IaaSIPAllocationResult.
Proof.
  by refine (inj_countable' (λ r, (al_ParentNicMac r, al_Subnet r, al_IPAddress r, MacAddress r, al_VlanID r)) (λ '(a, b, c, d, e), MkAllocated a b c d e) _); intros [].
Defined.
#[export] Instance request_countable : Countable AllocateIPRequest.
Proof.
  by refine (inj_countable' (λ r, (aq_PodName r, aq_PodNamespace r, aq_PodUID r, aq_NodeName r, IaaSIPsAllocationRequest r))
    (λ '(a, b, c, d, e), MkAllocateReq a b c d e) _); intros [].
Defined.
#[export] Instance response_countable : Countable AllocateIPResponse.
Proof.
  by refine (inj_countable' (λ r, (ap_PodName r, ap_PodNamespace r, ap_NodeName r, IaaSIPsAllocationResponse r)) (λ '(a, b, c, d), MkAllocateResp a b c d) _); intros [].
Defined.
#[export] Instance release_countable : Countable ReleaseIPRequest.
Proof.
  by refine (inj_countable' (λ r, (rq_PodName r, rq_PodNamespace r, rq_PodUID r, rq_NodeName r, rq_ParentNicMac r, rq_Subnet r, rq_IPAddress r))
    (λ '(a, b, c, d, e, f, g), MkReleaseReq a b c d e f g) _); intros [].
Defined.
#[export] Instance request_json : JSON AllocateIPRequest := countable_json.
#[export] Instance response_json : JSON AllocateIPResponse := countable_json.
#[export] Instance release_json : JSON ReleaseIPRequest := countable_json.
#[export] Existing Instance ex_nse_json.

(** The provider gives every address the same MAC prefix and VLAN 100; what it was sent is kept. *)
Record provider_mem := MkProviderMem { pm_clock : Z; pm_log : list HTTPRequest }.
Definition answer_item (i : IaaSIPAllocationItem) : IaaSIPAllocationResult :=
  MkAllocated (it_ParentNicMac i) (it_Subnet i) (it_IPAddress i) ("mac-of-" +:+ it_IPAddress i) 100.
Definition answer (req : HTTPRequest) : HTTPResponse :=
  match json_unmarshal (http_Body req) : option AllocateIPRequest with
  | Some r => MkHTTPResponse 200 (Ret (json_marshal (MkAllocateResp (aq_PodName r) (aq_PodNamespace r) (aq_NodeName r) (answer_item <$> IaaSIPsAllocationRequest r))))
  | None => MkHTTPResponse 200 (Ret ""%string)
  end.
Definition links (iface : string) : outcome NLink :=
  if iface == "ens1"%string then Ret (MkNLink "ens1" 1 FlagUp 0 [2; 0; 0; 0; 0; 1])
  else if iface == "ens2"%string then Ret (MkNLink "ens2" 2 FlagUp 0 [2; 0; 0; 0; 0; 2]) else Fail LinkNotFound.
#[export] Instance mem_provider : Provider provider_mem := {
  now p := (Ret (pm_clock p), MkProviderMem (pm_clock p + Millisecond) (pm_log p));
  http_Do req p := (Ret (answer req), MkProviderMem (pm_clock p + Second) (pm_log p ++ [req]));
  node_link iface p := links iface
}.
#[export] Instance mem_frame : ProviderFrame provider_mem.
Proof. split; done. Qed.

Definition vlan_smc (ns name master : string) : SpiderMultusConfig :=
  MkMultus (plain_meta ns name "") (MkMultusSpec (Some VlanCNI) None None (Some (MkVlan [master] None (Some VlanModeAuto) None None None None)) None None None None None None None [] None).
Definition macvlan_smc : SpiderMultusConfig :=
  MkMultus (plain_meta "default" "plain" "") (MkMultusSpec (Some MacvlanCNI) None None None None None None None None None None [] None).
Definition smcs : list SpiderMultusConfig := [vlan_smc "kube-system" "vlan-a" "ens1"; vlan_smc "default" "vlan-b" "ens2"; macvlan_smc].
Definition reader : SMCReader := MkReader
  (λ ns name, match List.find (λ smc, (Namespace (smc_meta smc) == ns) && (Name (smc_meta smc) == name)) smcs with Some smc => Ret smc | None => Fail APINotFound end)
  (Ret smcs).
Definition cfg : IPAMConfig := MkIPAMConfig true false false false true false true false false 5 (Some "vlan-a"%string) "kube-system" true.
Definition pod_on (name networks : string) : Pod :=
  MkPod (MkMeta name "default" "uid" 0 ∅ {[MultusNetworkAttachmentAnnot := networks]} [] [] None) "node1" RestartAlways PodRunning "".
Definition result_of (nic address : string) : AllocationResult := MkResult (MkIPConfig address false false "" "p" "" nic 4 0) [] false.
Definition client : IaaSClient := MkIaaSClient "https://iaas" DefaultIaaSProviderTimeout.
Definition fresh : client_state provider_mem := MkClient ∅ (MkProviderMem 0 []).
Definition run_allocate (pod : Pod) (results : list AllocationResult) :=
  callIaaSAllocate (λ _, "error"%string) (λ a b, Ret (a +:+ b)) cfg (Some reader) client (Some (100 * Second)) pod results.
Definition run_release (get_pod : string → string → outcome Pod) :=
  callIaaSRelease (λ a b, Ret (a +:+ b)) cfg (Some reader) client (Some (100 * Second)) get_pod.
End Demo.
Import Demo.

Definition demo_results : list AllocationResult := [result_of "eth0" "10.6.0.5/16"; result_of "net1" "10.7.0.9/16"].
Definition demo_completed : list AllocationResult :=
  [MkResult (MkIPConfig "10.6.0.5/16" false false "" "p" "mac-of-10.6.0.5" "eth0" 4 100) [] false; result_of "net1" "10.7.0.9/16"].
Definition demo_answer : AllocateIPResponse :=
  MkAllocateResp "web" "default" "node1" [MkAllocated "02:00:00:00:00:01" "10.6.0.0/16" "10.6.0.5" "mac-of-10.6.0.5" 100].
Definition demo_after : client_state provider_mem := (run_allocate (pod_on "web" "plain") demo_results fresh).2.

Lemma iaas_allocate_completes_witness :
  run_allocate (pod_on "web" "plain") demo_results fresh = (Ret (Some demo_answer, demo_completed), demo_after) ∧
  ∃ items, Forall2 (item_for reader (provider fresh)) (List.filter (λ r, eligible cfg reader (pod_on "web" "plain") (Nic (res_IP r))) demo_results) items ∧
    ((items = [] ∧ Some demo_answer = None ∧ demo_completed = demo_results) ∨
     ∃ a, items ≠ [] ∧ Some demo_answer = Some a ∧ accepted (P := provider_mem) (MkAllocateReq "web" "default" "uid" "node1" items) a ∧
       completed cfg reader (pod_on "web" "plain") (IaaSIPsAllocationResponse a) demo_results demo_completed).
Proof.
  assert (run_allocate (pod_on "web" "plain") demo_results fresh = (Ret (Some demo_answer, demo_completed), demo_after)) as H by (vm_compute; reflexivity).
  split; [exact H|]. assert (cache_ok reader fresh) as Hc by (intros k m Hk; cbn in Hk; by rewrite lookup_empty in Hk).
  exact (iaas_allocate_completes _ _ cfg reader client _ (pod_on "web" "plain") demo_results fresh _ _ _ eq_refl Hc H).
Defined.

Lemma iaas_cache_invariant_witness :
  parentNicMacCache demo_after !! "10.6.0.0/16"%string = Some "02:00:00:00:00:01"%string ∧ cache_ok reader demo_after.
Proof.
  split; [vm_compute; reflexivity|].
  apply (iaas_cache_invariant (λ _, "error"%string) (λ a b, Ret (a +:+ b)) cfg reader client (Some (100 * Second)) (λ _ _, Fail APINotFound) (MkProviderMem 0 [])).
  - intros items [= <-]. repeat constructor.
  - apply rtc_once. apply (step_allocate _ _ _ _ _ _ _ (pod_on "web" "plain") demo_results fresh).
Defined.

(** The cache by subnets is consulted before the network of the NIC, when an address is released:
    the address of a network that is not of the provider is reported to it as soon as a network of
    the provider has the same subnet. *)
Theorem release_ignores_network :
  let pod := pod_on "other" "plain" in
  let ep := MkEndpoint (plain_meta "default" "other" "") (MkEndpointStatus (MkPodIPAllocation "uid" "node1"
              [MkDetail "net1" (Some "10.6.0.9/16"%string) None None None None None None None [] None]) "" "") in
  eligible cfg reader pod "net1" = false ∧
  (run_release (λ _ _, Ret pod) ep fresh).2 = fresh ∧
  length (pm_log (provider (run_release (λ _ _, Ret pod) ep demo_after).2)) = 2%nat.
Proof. vm_compute. done. Qed.

(** Two networks of the provider with the same subnet and different masters: the second one is
    registered under the master of the first. *)
Theorem shared_subnet_one_parent :
  let run := run_allocate (pod_on "web" "vlan-b") [result_of "eth0" "10.6.0.5/16"; result_of "net1" "10.6.0.6/16"] fresh in
  getMasterIfaceFromMultusConfig (vlan_smc "default" "vlan-b" "ens2") = Ret "ens2"%string ∧
  ∃ resp results, run.1 = Ret (Some resp, results) ∧ (al_ParentNicMac <$> IaaSIPsAllocationResponse resp) = ["02:00:00:00:00:01"; "02:00:00:00:00:01"]%string.
Proof. split; [reflexivity|]. eexists _, _. split; vm_compute; reflexivity. Qed.
