(* ===== verification/NodeResources.v ===== *)
(** * pkg/networkresourceplugin: the network resources of a node

    The agent advertises, through kubelet's device plugin API, slots for secondary interfaces and a
    resource for every master interface that the rules of the configuration select.  The scheduler
    counts them for the Pods that the webhook (PodWebhook.v) made ask for them.  Modelled are the
    configuration (config.go), the selection (discovery.go, node_reconcile.go), the devices
    (devices.go), the server that kubelet watches (server.go), the names of the sockets
    (register.go) and a round of the manager (manager.go). *)

From S2P Require Import Prelude NetIP NetIPFacts IPAddr K8s PoolSelection Selector PoolUtils CoordinatorSync PodWebhook.
Local Open Scope Z_scope.
Local Open Scope go_scope.

(** ** config.go *)

Definition DefaultKubeletRootDir : string := "/var/lib/kubelet".
Definition DefaultMasterNICMaxCount : Z := 10000.

Record SubENIRuleConfig := MkSubENIRule { sub_ResourceName : string; sub_DefaultMaxCount : Z; sub_NodeSelector : LabelSelector }.
Record MasterNICRuleConfig := MkMasterRule {
  nic_NodeSelector : LabelSelector; nic_DefaultMaxCount : Z; IncludeInterfaces : list string; ExcludeInterfaces : list string }.
(** The section of the ConfigMap has the same fields. *)
Record Config := MkConfig {
  Enabled : bool;
  KubeletRootDir : string;
  AffinitySelector : LabelSelector;
  SubENIRules : list SubENIRuleConfig;
  MasterNICRules : list MasterNICRuleConfig
}.
Definition everything : LabelSelector := MkSelector ∅ [].

Definition defaultConfig : Config := MkConfig false DefaultKubeletRootDir everything [] [].

Definition or_slot_resource (name : string) : string := if name == EmptyString then DefaultENISlotResourceName else name.
Definition default_sub_rule (r : SubENIRuleConfig) : SubENIRuleConfig :=
  MkSubENIRule (or_slot_resource (sub_ResourceName r)) (sub_DefaultMaxCount r) (sub_NodeSelector r).
Definition applyConfigmap (result nrp : Config) : Config :=
  MkConfig (Enabled nrp) (if KubeletRootDir nrp != EmptyString then KubeletRootDir nrp else KubeletRootDir result) (AffinitySelector nrp)
    (default_sub_rule <$> SubENIRules nrp) (MasterNICRules nrp).

(** [filepath.Clean]: the elements of the path, with ".." taking the one before it away. *)
Definition clean_step (rooted : bool) (stack : list string) (e : string) : list string :=
  if (e == EmptyString) || (e == "."%string) then stack
  else if e == ".."%string then
    match stack with
    | top :: rest => if top == ".."%string then e :: stack else rest
    | [] => if rooted then [] else [e]
    end
  else e :: stack.
Definition IsAbs (path : string) : bool := match path with String c _ => (c == "/"%char) | EmptyString => false end.
Definition filepath_Clean (path : string) : string :=
  let rooted := IsAbs path in
  let elements := rev (foldl (clean_step rooted) [] (split "/" path)) in
  if rooted then "/" +:+ join "/" elements
  else match elements with [] => "."%string | _ => join "/" elements end.

Section resources.
Context `{MR : MapRange}.

Definition validate_sub_rule (r : SubENIRuleConfig) : outcome SubENIRuleConfig :=
  let r := default_sub_rule r in
  _ ← check (IsQualifiedName (sub_ResourceName r)) (ErrOther "resourceName is invalid");
  _ ← check (negb (sub_DefaultMaxCount r <? 0)) (ErrOther "defaultMaxCount must be greater than or equal to 0");
  _ ← LabelSelectorAsSelector (sub_NodeSelector r);
  Ret r.
Definition validate_master_rule (r : MasterNICRuleConfig) : outcome MasterNICRuleConfig :=
  _ ← check (negb (nic_DefaultMaxCount r <? 0)) (ErrOther "defaultMaxCount must be greater than or equal to 0");
  let count := if nic_DefaultMaxCount r =? 0 then DefaultMasterNICMaxCount else nic_DefaultMaxCount r in
  _ ← LabelSelectorAsSelector (nic_NodeSelector r);
  _ ← for_each (λ pattern, _ ← filepath_Match pattern "eth0"; Ret ()) (IncludeInterfaces r ++ ExcludeInterfaces r);
  Ret (MkMasterRule (nic_NodeSelector r) count (IncludeInterfaces r) (ExcludeInterfaces r)).
Definition validate (cfg : Config) : outcome Config :=
  let root := filepath_Clean (if KubeletRootDir cfg == EmptyString then DefaultKubeletRootDir else KubeletRootDir cfg) in
  _ ← check (IsAbs root) (ErrOther "kubeletRootDir must be an absolute path");
  _ ← LabelSelectorAsSelector (AffinitySelector cfg);
  subs ← map_m validate_sub_rule (SubENIRules cfg);
  nics ← map_m validate_master_rule (MasterNICRules cfg);
  Ret (MkConfig (Enabled cfg) root (AffinitySelector cfg) subs nics).
Definition ApplyDefaultsAndValidate (cfg : option Config) : outcome Config :=
  validate match cfg with Some nrp => applyConfigmap defaultConfig nrp | None => defaultConfig end.

(** ** discovery.go *)

Definition FlagLoopback : Z := 4.
(** A network interface of the node; [hasPhysicalDevice] looks into sysfs. *)
Record NetInterface := MkNetIf { if_Name : string; if_Flags : Z; hasPhysicalDevice : bool }.
Definition isMasterInterfaceCandidate (name : string) (flags : Z) : bool :=
  if (name == EmptyString) || (Z.land flags FlagLoopback != 0) then false
  else negb (existsb (λ p, bool_decide (is_Some (strip_prefix p name))) ["cni"; "flannel"; "veth"; "docker"; "br-"; "virbr"; "tun"; "tap"]%string).
Definition Interfaces (ifaces : outcome (list NetInterface)) (includeVirtual : bool) : outcome (list string) :=
  ifaces ← ifaces;
  Ret (merge_sort String.le (if_Name <$> List.filter (λ i, isMasterInterfaceCandidate (if_Name i) (if_Flags i) && (includeVirtual || hasPhysicalDevice i)) ifaces)).

Definition masterNICRulesUseExplicitIncludes (rules : list MasterNICRuleConfig) : bool := existsb (λ r, negb (length (IncludeInterfaces r) =? 0)%nat) rules.

(** The labels of the node; without one there are none. *)
Definition nodeSelectorMatches (node : option (gmap string string)) (selector : LabelSelector) : outcome bool :=
  compiled ← LabelSelectorAsSelector selector;
  Ret (Matches compiled (default ∅ node)).

(** Errors of a pattern are ignored. *)
Definition matchAny (patterns : list string) (name : string) : bool :=
  existsb (λ pattern, match filepath_Match pattern name with Ret ok => ok | _ => false end) patterns.

Record MasterNICSelection := MkSelection { sel_Interface : string; sel_Devices : Z }.

Definition raise_count (count : Z) (selected : gmap string Z) (iface : string) : gmap string Z :=
  if default 0 (selected !! iface) <? count then <[iface := count]> selected else selected.
Definition rule_count (rule : MasterNICRuleConfig) : Z := if nic_DefaultMaxCount rule =? 0 then DefaultMasterNICMaxCount else nic_DefaultMaxCount rule.
Definition apply_rule (interfaces : list string) (selected : gmap string Z) (rule : MasterNICRuleConfig) : gmap string Z :=
  let included := foldl (λ m iface, if (length (IncludeInterfaces rule) =? 0)%nat || matchAny (IncludeInterfaces rule) iface then <[iface := ()]> m else m) (∅ : gmap string unit) interfaces in
  foldl (λ selected iface, if matchAny (ExcludeInterfaces rule) iface then selected else raise_count (rule_count rule) selected iface)
    selected (range_keys included).
(** The loop over the rules; whether one has matched does not matter for the result, as nothing is
    selected without. *)
Fixpoint select_loop (node : option (gmap string string)) (interfaces : list string) (rules : list MasterNICRuleConfig) (selected : gmap string Z) : outcome (gmap string Z) :=
  match rules with
  | [] => Ret selected
  | rule :: rules =>
      nodeMatched ← nodeSelectorMatches node (nic_NodeSelector rule);
      select_loop node interfaces rules (if nodeMatched : bool then apply_rule interfaces selected rule else selected)
  end.
Definition selectMasterNICs (node : option (gmap string string)) (interfaces : list string) (rules : list MasterNICRuleConfig) : outcome (list MasterNICSelection) :=
  selected ← select_loop node interfaces rules ∅;
  Ret ((λ iface, MkSelection iface (default 0 (selected !! iface))) <$> merge_sort String.le (range_keys selected)).

Definition masterNICResourceName (iface : string) : string := SpiderpoolResourceDomain +:+ "/" +:+ iface +:+ MasterNICResourceSuffix.

(** ** node_reconcile.go *)

Record DesiredResource := MkDesired { des_ResourceName : string; Devices : Z; des_Interface : string }.

Fixpoint sub_resources (node : option (gmap string string)) (rules : list SubENIRuleConfig) (seen : gmap string unit) : outcome (list DesiredResource) :=
  match rules with
  | [] => Ret []
  | entry :: rules =>
      matched ← nodeSelectorMatches node (sub_NodeSelector entry);
      if negb matched || bool_decide (is_Some (seen !! sub_ResourceName entry)) then sub_resources node rules seen
      else
        rest ← sub_resources node rules (<[sub_ResourceName entry := ()]> seen);
        Ret (MkDesired (sub_ResourceName entry) (sub_DefaultMaxCount entry) "" :: rest)
  end.
Definition ComputeDesiredResources (providerEnabled : bool) (node : option (gmap string string)) (interfaces : list string) (cfg : Config) : outcome (list DesiredResource) :=
  if negb (Enabled cfg) then Ret []
  else
    matched ← nodeSelectorMatches node (AffinitySelector cfg);
    if negb matched then Ret []
    else
      subs ← (if providerEnabled then sub_resources node (SubENIRules cfg) ∅ else Ret []);
      nics ← selectMasterNICs node interfaces (MasterNICRules cfg);
      Ret (subs ++ ((λ nic, MkDesired (masterNICResourceName (sel_Interface nic)) (sel_Devices nic) (sel_Interface nic)) <$> nics)).
End resources.

(** ** devices.go *)

Definition subENISlotDeviceID (index : Z) : string := "sub-eni-" +:+ itoa index.
Definition masterNICDeviceID (iface : string) (index : Z) : string := iface +:+ "-nic-" +:+ itoa index.
(** The identifiers; every device is healthy. *)
Definition healthyDevices (count : Z) (id : Z → string) : list string := if count <=? 0 then [] else id ∘ Z.of_nat <$> seq 0 (Z.to_nat count).
Definition healthySubENIDevices (maxCount : Z) : list string := healthyDevices maxCount subENISlotDeviceID.
Definition healthyMasterNICDevices (iface : string) (maxCount : Z) : list string := healthyDevices maxCount (masterNICDeviceID iface).
Definition devices_of (r : DesiredResource) : list string :=
  if des_Interface r != EmptyString then healthyMasterNICDevices (des_Interface r) (Devices r) else healthySubENIDevices (Devices r).
Definition deviceIDSet (devices : list string) : gset string := list_to_set devices.

(** ** server.go *)

(** [updateCh] holds at most one update. *)
Record Server := MkServer { srv_resourceName : string; srv_devices : list string; srv_deviceIDs : gset string; updateCh : option (list string) }.
Definition NewServer (resourceName : string) (devices : list string) : Server := MkServer resourceName devices (deviceIDSet devices) None.
(** A request is the identifiers for each container; the answer has one (empty) part for each. *)
Definition Allocate (s : Server) (req : list (list string)) : outcome nat :=
  _ ← for_each (for_each (λ id, check (bool_decide (id ∈ srv_deviceIDs s)) (ErrOther "unknown network resource device ID"))) req;
  Ret (length req).

(** The steps of [UpdateDevices], between which a stream of [ListAndWatch] can receive. *)
Inductive updater := Idle | Offer (devices : list string) | Drop (devices : list string) | OfferAgain (devices : list string).
(** The server with one stream, and what the stream has sent last; a stream starts by sending the
    devices. *)
Record watched := MkWatched { w_server : Server; w_updater : updater; last_sent : list string }.
Definition set_updateCh (ch : option (list string)) (s : Server) : Server := MkServer (srv_resourceName s) (srv_devices s) (srv_deviceIDs s) ch.
Inductive server_step : watched → watched → Prop :=
  | update_begin s l devices :
      server_step (MkWatched s Idle l) (MkWatched (MkServer (srv_resourceName s) devices (deviceIDSet devices) (updateCh s)) (Offer devices) l)
  | update_offer s l devices :
      server_step (MkWatched s (Offer devices) l)
        (match updateCh s with None => MkWatched (set_updateCh (Some devices) s) Idle l | Some _ => MkWatched s (Drop devices) l end)
  | update_drop s l devices : server_step (MkWatched s (Drop devices) l) (MkWatched (set_updateCh None s) (OfferAgain devices) l)
  | update_again s l devices :
      server_step (MkWatched s (OfferAgain devices) l)
        (match updateCh s with None => MkWatched (set_updateCh (Some devices) s) Idle l | Some _ => MkWatched s Idle l end)
  | stream_receive s u l devices : updateCh s = Some devices → server_step (MkWatched s u l) (MkWatched (set_updateCh None s) u devices).
Definition UpdateDevices (devices : list string) (s : Server) : Server := MkServer (srv_resourceName s) devices (deviceIDSet devices) (Some devices).

(** ** register.go *)

Definition replace_char (c : ascii) : ascii := if existsb (λ d, c == d) ["/"; "_"; "."]%char then "-"%char else c.
Fixpoint string_map (f : ascii → ascii) (s : string) : string := match s with EmptyString => EmptyString | String c s => String (f c) (string_map f s) end.
Definition socketName (resourceName : string) : string := "spiderpool-" +:+ string_map replace_char resourceName +:+ ".sock".
(** [pluginapi.DevicePluginPath] *)
Definition legacyDevicePluginDir : string := "/var/lib/kubelet/device-plugins/".
(** [filepath.Join] of two elements. *)
Definition filepath_Join (a b : string) : string :=
  if (a == EmptyString) && (b == EmptyString) then EmptyString
  else if a == EmptyString then filepath_Clean b else if b == EmptyString then filepath_Clean a else filepath_Clean (a +:+ "/" +:+ b).
Definition deriveDevicePluginDir (kubeletRootDir : string) : string :=
  if (kubeletRootDir == EmptyString) || (filepath_Clean kubeletRootDir == DefaultKubeletRootDir) then filepath_Clean legacyDevicePluginDir
  else filepath_Join (filepath_Clean kubeletRootDir) "device-plugins".
Record Registrar := MkRegistrar { reg_resourceName : string; socketPath : string; kubeletSock : string }.
Definition NewRegistrarWithKubeletRootDir (resourceName kubeletRootDir : string) : Registrar :=
  let pluginSocketDir := deriveDevicePluginDir kubeletRootDir in
  MkRegistrar resourceName (filepath_Join pluginSocketDir (socketName resourceName)) (filepath_Join pluginSocketDir "kubelet.sock").

(** ** manager.go *)

Record runningServer := MkRunning { registrar : Registrar; deviceServer : Server; desired_of : DesiredResource }.
Definition desiredResourceByName (desired : list DesiredResource) : gmap string DesiredResource := foldl (λ m r, <[des_ResourceName r := r]> m) ∅ desired.
Definition sameResourceSet (servers : list runningServer) (desired : list DesiredResource) : bool :=
  if negb (length servers =? length desired)%nat then false
  else let byName := desiredResourceByName desired in forallb (λ s, bool_decide (is_Some (byName !! des_ResourceName (desired_of s)))) servers.
(** A resource that is missing reads as the zero value. *)
Definition no_resource : DesiredResource := MkDesired "" 0 "".
Definition update_server (byName : gmap string DesiredResource) (running : runningServer) : runningServer :=
  let next := default no_resource (byName !! des_ResourceName (desired_of running)) in
  if (Devices (desired_of running) =? Devices next) && (des_Interface (desired_of running) == des_Interface next) then running
  else MkRunning (registrar running) (UpdateDevices (devices_of next) (deviceServer running)) next.
Definition updateServers (servers : list runningServer) (desired : list DesiredResource) : list runningServer :=
  update_server (desiredResourceByName desired) <$> servers.

(** [startResourceServer] for every resource, with the files of the sockets: listening removes what
    is there, and the server of a resource is reached under its path. *)
Abbreviation socket_files := (gmap string string).
Record NodeIO := {
  io_listen : Registrar → outcome unit;
  io_register : Registrar → outcome unit
}.
Definition startResourceServer (io : NodeIO) (kubeletRootDir : string) (resource : DesiredResource) (files : socket_files) : outcome runningServer * socket_files :=
  let r := NewRegistrarWithKubeletRootDir (des_ResourceName resource) kubeletRootDir in
  match io_listen io r with
  | Ret _ =>
      let files := <[socketPath r := des_ResourceName resource]> files in
      match io_register io r with
      | Ret _ => (Ret (MkRunning r (NewServer (des_ResourceName resource) (devices_of resource)) resource), files)
      (* stopping the server closes its listener, which removes the file *)
      | Fail e => (Fail e, delete (socketPath r) files)
      | Panic => (Panic, files)
      | OutOfFuel => (OutOfFuel, files)
      end
  | Fail e => (Fail e, files)
  | Panic => (Panic, files)
  | OutOfFuel => (OutOfFuel, files)
  end.
Definition Stop (servers : list runningServer) (files : socket_files) : socket_files := foldl (λ files s, delete (socketPath (registrar s)) files) files servers.
(** The servers that were started when one fails are stopped. *)
Fixpoint start_all (io : NodeIO) (kubeletRootDir : string) (desired : list DesiredResource) (servers : list runningServer) (files : socket_files)
    : outcome (list runningServer) * socket_files :=
  match desired with
  | [] => (Ret servers, files)
  | resource :: desired =>
      match startResourceServer io kubeletRootDir resource files with
      | (Ret running, files) => start_all io kubeletRootDir desired (servers ++ [running]) files
      | (Fail e, files) => (Fail e, Stop servers files)
      | (Panic, files) => (Panic, files)
      | (OutOfFuel, files) => (OutOfFuel, files)
      end
  end.

(** One tick of the loop: [inl] the round ends (everything is stopped and registered again), [inr]
    it goes on. *)
Definition tick (servers : list runningServer) (desired : outcome (list DesiredResource)) (files : socket_files)
    : (list runningServer + list runningServer) * socket_files :=
  if existsb (λ s, negb (bool_decide (is_Some (files !! socketPath (registrar s))))) servers then (inl [], Stop servers files)
  else
    match desired with
    | Ret desired => if sameResourceSet servers desired then (inr (updateServers servers desired), files) else (inl [], Stop servers files)
    | _ => (inr servers, files)
    end.

(** ** What is advertised *)

Section facts.
Context `{MR : MapRange}.

(** A rule selects an interface on a node. *)
Definition selects (node : option (gmap string string)) (iface : string) (rule : MasterNICRuleConfig) : Prop :=
  nodeSelectorMatches node (nic_NodeSelector rule) = Ret true ∧
  (IncludeInterfaces rule = [] ∨ matchAny (IncludeInterfaces rule) iface = true) ∧ matchAny (ExcludeInterfaces rule) iface = false.

Lemma included_lookup (test : string → bool) interfaces (m : gmap string unit) iface :
  is_Some (foldl (λ m i, if test i then <[i := ()]> m else m) m interfaces !! iface) ↔ is_Some (m !! iface) ∨ (iface ∈ interfaces ∧ test iface = true).
Proof.
  revert m. induction interfaces as [|i interfaces IH]; intros m; cbn [foldl]; [by rewrite elem_of_nil; naive_solver|]. rewrite IH, elem_of_cons.
  destruct (decide (iface = i)) as [->|Hn]; destruct (test i) eqn:Ht; rewrite ?lookup_insert_eq, ?lookup_insert_ne by done.
  - split; [intros _; right; by split; [left|]|intros _; by left].
  - split; [intros [?|[_ [=]]]; by left|intros [?|[_ [=]]]; by left].
  - split; [intros [?|[? ?]]; [by left|right; by split; [right|]]|intros [?|[[?|?] ?]]; [by left|done|by right]].
  - split; [intros [?|[? ?]]; [by left|right; by split; [right|]]|intros [?|[[?|?] ?]]; [by left|done|by right]].
Qed.

(** The highest count so far. *)
Definition raised (count : Z) (o : option Z) : option Z := if default 0 o <? count then Some count else o.
Lemma raise_all_lookup (skip : string → bool) count ifaces selected iface : NoDup ifaces →
  foldl (λ sel i, if skip i then sel else raise_count count sel i) selected ifaces !! iface =
    if decide (iface ∈ ifaces ∧ skip iface = false) then raised count (selected !! iface) else selected !! iface.
Proof.
  intros Hnd. revert selected. induction Hnd as [|i ifaces Hi Hnd IH]; intros selected; cbn [foldl].
  { rewrite decide_False; [done|]. by intros [?%elem_of_nil _]. }
  rewrite IH. destruct (decide (iface = i)) as [->|Hn].
  - rewrite decide_False by (by intros [? _]). destruct (skip i) eqn:Hs; [by rewrite decide_False by (by intros [_ ?])|].
    rewrite decide_True by (split; [by left|done]). unfold raise_count, raised. destruct (default 0 (selected !! i) <? count); [by rewrite lookup_insert_eq|done].
  - assert ((if skip i then selected else raise_count count selected i) !! iface = selected !! iface) as ->.
    { destruct (skip i); [done|]. unfold raise_count. destruct (_ <? _); [by rewrite lookup_insert_ne|done]. }
    destruct (decide (iface ∈ ifaces ∧ skip iface = false)) as [[Ha Hb]|Hc]; [rewrite decide_True; [done|split; [by right|done]]|].
    rewrite decide_False; [done|]. intros [[?|?]%elem_of_cons ?]; [done|]. by apply Hc.
Qed.
Lemma apply_rule_lookup node interfaces selected rule iface : nodeSelectorMatches node (nic_NodeSelector rule) = Ret true →
  (iface ∈ interfaces → selects node iface rule → apply_rule interfaces selected rule !! iface = raised (rule_count rule) (selected !! iface)) ∧
  (¬ (iface ∈ interfaces ∧ selects node iface rule) → apply_rule interfaces selected rule !! iface = selected !! iface).
Proof.
  intros Hnode. unfold apply_rule. rewrite raise_all_lookup by apply NoDup_range_keys.
  assert (iface ∈ range_keys (foldl (λ m i, if (length (IncludeInterfaces rule) =? 0)%nat || matchAny (IncludeInterfaces rule) i then <[i := ()]> m else m) (∅ : gmap string unit) interfaces) ∧
          matchAny (ExcludeInterfaces rule) iface = false ↔ iface ∈ interfaces ∧ selects node iface rule) as Hiff.
  { rewrite elem_of_range_keys, (included_lookup (λ i, (length (IncludeInterfaces rule) =? 0)%nat || matchAny (IncludeInterfaces rule) i)), lookup_empty, orb_true_iff, Nat.eqb_eq, length_zero_iff_nil.
    unfold selects. split; [intros [[[? [=]]|[? ?]] ?]; by split_and!|]. intros (? & _ & ? & ?). split; [by right|done]. }
  split.
  - intros Hi Hs. by rewrite decide_True by (by apply Hiff).
  - intros Hn. rewrite decide_False; [done|]. by rewrite Hiff.
Qed.

(** The count of an interface is the highest of the rules that select it. *)
Definition highest (node : option (gmap string string)) (iface : string) (rules : list MasterNICRuleConfig) (n : Z) : Prop :=
  (∃ rule, rule ∈ rules ∧ selects node iface rule ∧ n = rule_count rule) ∧ ∀ rule, rule ∈ rules → selects node iface rule → rule_count rule ≤ n.
Definition counted (node : option (gmap string string)) (iface : string) (rules : list MasterNICRuleConfig) (o : option Z) : Prop :=
  match o with Some n => highest node iface rules n | None => ∀ rule, rule ∈ rules → ¬ selects node iface rule end.
Lemma counted_snoc node iface rules rule o : 0 < rule_count rule → counted node iface rules o → selects node iface rule →
  counted node iface (rules ++ [rule]) (raised (rule_count rule) o).
Proof.
  intros Hp Hc Hs. unfold raised. destruct o as [n|]; cbn in *.
  - destruct Hc as [(r & Hr & Hrs & ->) Hle]. destruct (Z.ltb_spec (rule_count r) (rule_count rule)); split.
    + exists rule. split_and!; [apply elem_of_app; right; by left|done..].
    + intros r' [Hr'|Hr'%list_elem_of_singleton]%elem_of_app Hs'; [|subst r'; lia]. specialize (Hle r' Hr' Hs'). lia.
    + exists r. split_and!; [apply elem_of_app; by left|done..].
    + intros r' [Hr'|Hr'%list_elem_of_singleton]%elem_of_app Hs'; [by apply Hle|subst r'; lia].
  - rewrite (proj2 (Z.ltb_lt _ _) Hp). split.
    + exists rule. split_and!; [apply elem_of_app; right; by left|done..].
    + intros r' [Hr'|Hr'%list_elem_of_singleton]%elem_of_app Hs'; [by destruct (Hc r' Hr')|subst r'; lia].
Qed.
Lemma counted_skip node iface rules rule o : counted node iface rules o → ¬ selects node iface rule → counted node iface (rules ++ [rule]) o.
Proof.
  intros Hc Hn. destruct o as [n|]; cbn in *.
  - destruct Hc as [(r & Hr & Hrs & ->) Hle]. split; [exists r; split_and!; [apply elem_of_app; by left|done..]|].
    intros r' [Hr'|Hr'%list_elem_of_singleton]%elem_of_app Hs'; [by apply Hle|by subst r'].
  - intros r' [Hr'|Hr'%list_elem_of_singleton]%elem_of_app; [by apply Hc|by subst r'].
Qed.
Lemma select_loop_counted node interfaces rules done selected selected' iface :
  Forall (λ r, 0 < rule_count r) rules → iface ∈ interfaces → counted node iface done (selected !! iface) →
  select_loop node interfaces rules selected = Ret selected' → counted node iface (done ++ rules) (selected' !! iface).
Proof.
  intros Hp Hin. revert done selected. induction Hp as [|rule rules Hr Hp IH]; intros done selected Hc; cbn [select_loop].
  { intros [= <-]. by rewrite app_nil_r. }
  intros ([] & Hm & H)%bind_Ret; rewrite cons_middle, app_assoc; eapply IH; [|exact H| |exact H].
  - destruct (apply_rule_lookup node interfaces selected rule iface Hm) as [Hy Hno].
    destruct (decide (matchAny (ExcludeInterfaces rule) iface = false ∧ (IncludeInterfaces rule = [] ∨ matchAny (IncludeInterfaces rule) iface = true))) as [[He Hi]|Hns].
    + rewrite Hy; [|done|by split_and!]. by apply counted_snoc.
    + assert (¬ selects node iface rule) as Hs by (intros (_ & ? & ?); by apply Hns). rewrite Hno by naive_solver. by apply counted_skip.
  - apply counted_skip; [done|]. by intros (Hm' & _); rewrite Hm in Hm'.
Qed.

Lemma select_loop_outside node interfaces rules selected selected' iface : iface ∉ interfaces →
  select_loop node interfaces rules selected = Ret selected' → selected' !! iface = selected !! iface.
Proof.
  intros Hn. revert selected. induction rules as [|rule rules IH]; intros selected; cbn [select_loop]; [by intros [= <-]|].
  intros ([] & Hm & H)%bind_Ret; apply IH in H as ->; [|done]. apply (apply_rule_lookup node interfaces selected rule iface Hm). naive_solver.
Qed.

Lemma selectMasterNICs_exact node interfaces rules l : Forall (λ r, 0 < rule_count r) rules → selectMasterNICs node interfaces rules = Ret l →
  Sorted String.le (sel_Interface <$> l) ∧ NoDup (sel_Interface <$> l) ∧
  ∀ iface n, MkSelection iface n ∈ l ↔ iface ∈ interfaces ∧ highest node iface rules n.
Proof.
  intros Hp (selected & Hs & [= <-])%bind_Ret.
  assert (sel_Interface <$> ((λ iface, MkSelection iface (default 0 (selected !! iface))) <$> merge_sort String.le (range_keys selected)) = merge_sort String.le (range_keys selected)) as ->.
  { rewrite <- list_fmap_compose. rewrite <- (list_fmap_id (merge_sort _ _)) at 2. by apply list_fmap_ext. }
  split_and!; [apply Sorted_merge_sort; intros a b; rewrite <- !leb_le; apply String.leb_total|by rewrite merge_sort_Permutation; apply NoDup_range_keys|].
  intros iface n. rewrite list_elem_of_fmap. setoid_rewrite merge_sort_Permutation. setoid_rewrite elem_of_range_keys.
  assert (counted node iface [] (∅ !! iface : option Z)) as H0 by (rewrite lookup_empty; by intros r Hr%elem_of_nil). split.
  - intros (i & [= <- ->] & [k Hn]). rewrite Hn. cbn. destruct (decide (iface ∈ interfaces)) as [Hi|Hi].
    + pose proof (select_loop_counted _ _ _ _ _ _ _ Hp Hi H0 Hs) as Hc. by rewrite Hn in Hc.
    + pose proof (select_loop_outside _ _ _ _ _ _ Hi Hs) as Ho. by rewrite lookup_empty, Hn in Ho.
  - intros [Hi Hh]. pose proof (select_loop_counted _ _ _ _ _ _ _ Hp Hi H0 Hs) as Hc. cbn [app] in Hc. destruct Hh as [(r & Hr & Hrs & ->) Hle].
    destruct (selected !! iface) as [n|] eqn:Hn; [|by destruct (Hc r Hr)]. destruct Hc as [(r' & Hr' & Hrs' & ->) Hle'].
    exists iface. rewrite Hn. split; [|done]. cbn. f_equal. specialize (Hle r' Hr' Hrs'). specialize (Hle' r Hr Hrs). lia.
Qed.

(** The first rule for a name that matches the node decides. *)
Definition first_rule (node : option (gmap string string)) (name : string) (n : Z) (rules : list SubENIRuleConfig) : Prop :=
  ∃ pre r post, rules = pre ++ r :: post ∧ nodeSelectorMatches node (sub_NodeSelector r) = Ret true ∧ sub_ResourceName r = name ∧ sub_DefaultMaxCount r = n ∧
    Forall (λ r', sub_ResourceName r' = name → nodeSelectorMatches node (sub_NodeSelector r') = Ret false) pre.
Lemma first_rule_cons node name n r rules : first_rule node name n (r :: rules) ↔
  (nodeSelectorMatches node (sub_NodeSelector r) = Ret true ∧ sub_ResourceName r = name ∧ sub_DefaultMaxCount r = n) ∨
  ((sub_ResourceName r = name → nodeSelectorMatches node (sub_NodeSelector r) = Ret false) ∧ first_rule node name n rules).
Proof.
  split.
  - intros ([|p pre] & r' & post & [= <- ->] & Hm & Hn & Hc & Hf); [by left|]. right. apply Forall_cons in Hf as [Hp Hf]. split; [done|]. by exists pre, r', post.
  - intros [(Hm & Hn & Hc)|[Hr (pre & r' & post & -> & Hm & Hn & Hc & Hf)]]; [by exists [], r, rules|]. exists (r :: pre), r', post. split_and!; try done. by constructor.
Qed.
Lemma sub_resources_exact node rules seen l : sub_resources node rules seen = Ret l →
  Forall (λ d, des_Interface d = EmptyString) l ∧ NoDup (des_ResourceName <$> l) ∧
  ∀ name n, MkDesired name n "" ∈ l ↔ seen !! name = None ∧ first_rule node name n rules.
Proof.
  revert seen l. induction rules as [|r rules IH]; intros seen l; cbn [sub_resources].
  { intros [= <-]. split_and!; [constructor..|]. intros name n. rewrite elem_of_nil. split; [done|]. intros (_ & [|] & ? & ? & [=] & _). }
  intros (matched & Hm & H)%bind_Ret. revert H. destruct (negb matched || _) eqn:Hs.
  - intros (H1 & H2 & H3)%IH. split_and!; [done..|]. intros name n. rewrite H3, first_rule_cons. split; [|].
    + intros [Ho Hf]. split; [done|]. right. split; [|done]. intros <-. apply orb_true_iff in Hs as [Hs|Hs]; [by destruct matched|]. rewrite Ho in Hs. discriminate Hs.
    + intros [Ho [(Ht & <- & <-)|[_ Hf]]]; [|done]. rewrite Hm in Ht. injection Ht as ->. cbn in Hs. rewrite Ho in Hs. discriminate Hs.
  - apply orb_false_iff in Hs as [Hmt Hseen]. apply negb_false_iff in Hmt as ->. apply bool_decide_eq_false in Hseen. apply eq_None_not_Some in Hseen.
    intros (rest & (H1 & H2 & H3)%IH & [= <-])%bind_Ret. split_and!.
    + by constructor.
    + cbn. constructor; [|done]. intros (d & Hd & Hin)%list_elem_of_fmap. rewrite Forall_forall in H1. pose proof (H1 d Hin) as He. destruct d as [dn dc di]. cbn in *. subst.
      apply H3 in Hin as [Hin _]. by rewrite lookup_insert_eq in Hin.
    + intros name n. rewrite elem_of_cons, H3, first_rule_cons. split.
      * intros [[= -> ->]|[Ho Hf]]; [split; [done|by left]|]. destruct (decide (name = sub_ResourceName r)) as [->|Hn]; [by rewrite lookup_insert_eq in Ho|].
        rewrite lookup_insert_ne in Ho by done. split; [done|]. right. by split; [intros <-|].
      * intros [Ho [(_ & <- & <-)|[Hf Hr]]]; [by left|]. right. split; [|done]. destruct (decide (name = sub_ResourceName r)) as [->|Hn]; [by rewrite (Hf eq_refl) in Hm|].
        by rewrite lookup_insert_ne.
Qed.

Lemma validated_counts raw cfg : ApplyDefaultsAndValidate raw = Ret cfg → Forall (λ r, 0 < rule_count r) (MasterNICRules cfg).
Proof.
  unfold ApplyDefaultsAndValidate, validate. intros ([] & _ & (sel & _ & (subs & _ & (nics & Hn%map_m_Ret & [= <-])%bind_Ret)%bind_Ret)%bind_Ret)%bind_Ret. cbn.
  eapply Forall2_Forall_r; [exact Hn|]. apply Forall_forall. intros r _ r' ([] & Hc%check_Ret & (reqs & _ & ([] & _ & [= <-])%bind_Ret)%bind_Ret)%bind_Ret.
  unfold rule_count, DefaultMasterNICMaxCount. cbn. destruct (nic_DefaultMaxCount r =? 0) eqn:E; cbn; [lia|]. rewrite E. lia.
Qed.

Lemma masterNICResourceName_request iface : masterNICResourceName iface = master_resource iface.
Proof. done. Qed.
Lemma string_app_inv_l (p a b : string) : p +:+ a = p +:+ b → a = b.
Proof. induction p as [|c p IH]; cbn; [done|]. intros [= H]. by apply IH. Qed.
Lemma string_app_inv_r (a b p : string) : a +:+ p = b +:+ p → a = b.
Proof.
  intros H. apply (f_equal String.rev) in H. rewrite !string_rev_app in H. apply string_app_inv_l in H. apply (f_equal String.rev) in H. by rewrite !string_rev_involutive in H.
Qed.
Lemma master_resource_inj a b : master_resource a = master_resource b → a = b.
Proof. unfold master_resource. intros H. by apply string_app_inv_l, string_app_inv_l, string_app_inv_r in H. Qed.

(** C33: with a validated configuration, an enabled plugin on a node of its affinity, with interfaces
    whose names are not empty, wants to advertise exactly: for every interface that some rule for the
    node selects - includes without excluding it -, the resource that the webhook makes the Pods on
    this master ask for, with the highest count of those rules; and, where a provider is configured,
    every resource for secondary interfaces with the count of its first rule for the node.  In
    particular nothing for masters when no rule is for the node ([no_rule_no_master]), and an
    interface that one rule excludes when another includes it ([excluded_elsewhere]).  This is the
    list that is computed; whether a server for each of its resources can be reached is
    [started_servers_reached]. *)
Theorem node_advertises raw cfg providerEnabled node interfaces l :
  ApplyDefaultsAndValidate raw = Ret cfg → Enabled cfg = true → nodeSelectorMatches node (AffinitySelector cfg) = Ret true → ""%string ∉ interfaces →
  ComputeDesiredResources providerEnabled node interfaces cfg = Ret l →
  (∀ m n, m ≠ EmptyString → MkDesired (master_resource m) n m ∈ l ↔ m ∈ interfaces ∧ highest node m (MasterNICRules cfg) n) ∧
  (∀ name n, MkDesired name n "" ∈ l ↔ providerEnabled = true ∧ first_rule node name n (SubENIRules cfg)) ∧
  Forall (λ d, des_Interface d = EmptyString ∨ des_ResourceName d = master_resource (des_Interface d)) l.
Proof.
  intros Hv%validated_counts He Ha Hempty. unfold ComputeDesiredResources. rewrite He, Ha. cbn [negb mbind outcome_bind].
  intros (subs & Hs & (nics & (_ & _ & Hn)%selectMasterNICs_exact & [= <-])%bind_Ret)%bind_Ret; [|done].
  assert (Forall (λ d, des_Interface d = EmptyString) subs ∧ ∀ name n, MkDesired name n "" ∈ subs ↔ providerEnabled = true ∧ first_rule node name n (SubENIRules cfg)) as [Hsi Hse].
  { destruct providerEnabled; [|injection Hs as <-; split; [constructor|]; intros name n; rewrite elem_of_nil; naive_solver].
    apply sub_resources_exact in Hs as (H1 & _ & H3). split; [done|]. intros name n. rewrite H3, lookup_empty. naive_solver. }
  split_and!.
  - intros m n Hm. rewrite elem_of_app, list_elem_of_fmap, <- Hn. split.
    + intros [Hin|([i k] & [= _ <- <-] & Hin)]; [|done]. rewrite Forall_forall in Hsi. by apply Hsi in Hin.
    + intros Hin. right. by exists (MkSelection m n).
  - intros name n. rewrite elem_of_app, list_elem_of_fmap, <- Hse. split; [|by left]. intros [Hin|([i k] & [= _ <- <-] & Hin)]; [done|].
    by apply Hn in Hin as [Hin _].
  - apply Forall_app. split; [eapply Forall_impl; [exact Hsi|by left]|]. apply Forall_fmap, Forall_forall. intros x _. by right.
Qed.
End facts.

(** ** The server and its stream *)

Definition watched_ok (w : watched) : Prop :=
  srv_deviceIDs (w_server w) = deviceIDSet (srv_devices (w_server w)) ∧
  match w_updater w with
  | Idle => updateCh (w_server w) = Some (srv_devices (w_server w)) ∨ (updateCh (w_server w) = None ∧ last_sent w = srv_devices (w_server w))
  | Offer d | Drop d => srv_devices (w_server w) = d
  | OfferAgain d => srv_devices (w_server w) = d ∧ updateCh (w_server w) = None
  end.
Lemma server_step_ok w w' : server_step w w' → watched_ok w → watched_ok w'.
Proof.
  intros [s l d|s l d|s l d|s l d|s u l d Hch] [Hid Hu]; cbn in *.
  - by split.
  - destruct (updateCh s) eqn:E; (split; [done|]); cbn; subst; [done|by left].
  - by split.
  - destruct Hu as [Hd Hc]. rewrite Hc. split; [done|]. left. cbn. congruence.
  - split; [done|]. destruct u; cbn in *; try done; [|by destruct Hu as [_ Hu]; rewrite Hu in Hch].
    rewrite Hch in Hu. destruct Hu as [[= ->]|[? _]]; [by right|done].
Qed.

(** However updates and the stream interleave, a stream that has nothing to receive, while no update
    is under way, has sent the devices that requests are checked against. *)
Theorem stream_sends_last name devices w : rtc server_step (MkWatched (NewServer name devices) Idle devices) w →
  w_updater w = Idle → updateCh (w_server w) = None → last_sent w = srv_devices (w_server w) ∧
    ∀ req, (∃ n, Allocate (w_server w) req = Ret n) ↔ Forall (Forall (λ id, id ∈ last_sent w)) req.
Proof.
  intros Hr Hi Hc. assert (watched_ok (MkWatched (NewServer name devices) Idle devices)) as H0 by (split; [done|by right]).
  assert (watched_ok w) as [Hid Hu] by (clear Hi Hc; induction Hr as [|a b c Hs _ IH]; [done|by apply IH, (server_step_ok a)]).
  rewrite Hi, Hc in Hu. destruct Hu as [[=]|[_ Hl]]. split; [done|]. intros req. unfold Allocate. rewrite Hid, Hl.
  transitivity (for_each (for_each (λ id, check (bool_decide (id ∈ deviceIDSet (srv_devices (w_server w)))) (ErrOther "unknown network resource device ID"))) req = Ret ()).
  - split; [intros (n & ([] & H & _)%bind_Ret); exact H|]. intros ->. by eexists.
  - rewrite for_each_Ret. apply Forall_proper; [|done]. intros ids. rewrite for_each_Ret. apply Forall_proper; [|done].
    intros id. rewrite check_Ret, bool_decide_eq_true. unfold deviceIDSet. by rewrite elem_of_list_to_set.
Qed.

(** ** Rounds of the manager *)

Definition advertising (s : runningServer) : Prop := srv_devices (deviceServer s) = devices_of (desired_of s).

Lemma byName_loop desired (m : gmap string DesiredResource) name r : NoDup (des_ResourceName <$> desired) →
  foldl (λ m r, <[des_ResourceName r := r]> m) m desired !! name = Some r ↔
    (r ∈ desired ∧ des_ResourceName r = name) ∨ (name ∉ des_ResourceName <$> desired ∧ m !! name = Some r).
Proof.
  revert m. induction desired as [|d l IH]; intros m Hnd; cbn [foldl fmap list_fmap] in *.
  { rewrite elem_of_nil. split; [intros Hm; right; split; [apply not_elem_of_nil|done]|]. by intros [[? _]|[_ ?]]. }
  apply NoDup_cons in Hnd as [Hd Hnd]. rewrite (IH _ Hnd), elem_of_cons, not_elem_of_cons. destruct (decide (name = des_ResourceName d)) as [->|Hn].
  - rewrite lookup_insert_eq. split; [intros [[? ?]|[_ [= <-]]]; [by left; split; [right|]|by left; split; [left|]]|].
    intros [[[->|Hr] He]|[[? _] _]]; [by right|by left|done].
  - rewrite lookup_insert_ne by done. split; [intros [[? ?]|[? ?]]; [by left; split; [right|]|by right]|].
    intros [[[->|Hr] He]|[[_ ?] ?]]; [done|by left|by right].
Qed.
Lemma byName_lookup desired name r : NoDup (des_ResourceName <$> desired) →
  desiredResourceByName desired !! name = Some r ↔ r ∈ desired ∧ des_ResourceName r = name.
Proof. intros Hnd. unfold desiredResourceByName. rewrite byName_loop by done. rewrite lookup_empty. naive_solver. Qed.

(** A tick that goes on leaves the servers advertising exactly what is desired. *)
Theorem tick_converges servers desired files servers' files' :
  NoDup (des_ResourceName <$> desired) → NoDup ((des_ResourceName ∘ desired_of) <$> servers) → Forall advertising servers →
  tick servers (Ret desired) files = (inr servers', files') →
  desired_of <$> servers' ≡ₚ desired ∧ Forall advertising servers' ∧ registrar <$> servers' = registrar <$> servers.
Proof.
  intros Hd Hs Ha. unfold tick. destruct (existsb _ servers); [done|]. destruct (sameResourceSet servers desired) eqn:Hsame; [|done]. intros [= <- _].
  unfold sameResourceSet in Hsame. destruct (length servers =? length desired)%nat eqn:Hlen; [|done]. apply Nat.eqb_eq in Hlen. cbn in Hsame.
  assert (Forall (λ s, ∃ r, desiredResourceByName desired !! des_ResourceName (desired_of s) = Some r) servers) as Hall.
  { apply Forall_forall. intros s Hin. rewrite forallb_forall in Hsame. apply list_elem_of_In in Hin. specialize (Hsame s Hin). by apply bool_decide_eq_true in Hsame as [r ?]; exists r. }
  assert (Forall (λ s, let s' := update_server (desiredResourceByName desired) s in
            desired_of s' ∈ desired ∧ des_ResourceName (desired_of s') = des_ResourceName (desired_of s) ∧ advertising s' ∧ registrar s' = registrar s) servers) as Hupd.
  { apply Forall_forall. intros s Hin. rewrite Forall_forall in Hall, Ha. destruct (Hall s Hin) as [r Hr]. specialize (Ha s Hin). cbn. unfold update_server. rewrite Hr. cbn [default].
    apply (byName_lookup _ _ _ Hd) in Hr as [Hr Hname]. destruct (_ && _) eqn:E; [|by split_and!]. apply andb_true_iff in E as [E1%Z.eqb_eq E2%bool_decide_eq_true].
    assert (desired_of s = r) as <-; [|by split_and!]. destruct (desired_of s), r. cbn in *. by subst. }
  unfold updateServers. rewrite <- !list_fmap_compose. split_and!.
  - apply submseteq_length_Permutation; [|by rewrite length_fmap, Hlen]. apply NoDup_submseteq.
    + apply (NoDup_fmap_1 des_ResourceName). rewrite <- list_fmap_compose. erewrite list_fmap_ext; [exact Hs|]. intros i s Hi. apply list_elem_of_lookup_2 in Hi.
      rewrite Forall_forall in Hupd. by destruct (Hupd s Hi) as (_ & ? & _).
    + intros r (s & -> & Hin)%list_elem_of_fmap. rewrite Forall_forall in Hupd. by destruct (Hupd s Hin).
  - apply Forall_fmap. eapply Forall_impl; [exact Hupd|]. by intros s (_ & _ & ? & _).
  - apply list_fmap_ext. intros i s Hi%list_elem_of_lookup_2. rewrite Forall_forall in Hupd. by destruct (Hupd s Hi) as (_ & _ & _ & ?).
Qed.

(** Every server that was started is reached under its socket, if the names of the sockets differ. *)
Theorem started_servers_reached io root desired servers files files' :
  NoDup ((λ r, socketPath (NewRegistrarWithKubeletRootDir (des_ResourceName r) root)) <$> desired) →
  start_all io root desired [] files = (Ret servers, files') →
  desired_of <$> servers = desired ∧ Forall (λ s, advertising s ∧ files' !! socketPath (registrar s) = Some (des_ResourceName (desired_of s))) servers.
Proof.
  intros Hnd. assert (Forall (λ s, advertising s ∧ files !! socketPath (registrar s) = Some (des_ResourceName (desired_of s)) ∧
    socketPath (registrar s) ∉ (λ r, socketPath (NewRegistrarWithKubeletRootDir (des_ResourceName r) root)) <$> desired) []) as H0 by constructor.
  revert H0. change desired with ((desired_of <$> []) ++ desired) at 3. generalize (@nil runningServer). revert files.
  induction desired as [|r desired IH]; intros files started H0; cbn [start_all].
  { intros [= <- <-]. rewrite app_nil_r. split; [done|]. eapply Forall_impl; [exact H0|]. by intros s (? & ? & _). }
  cbn in Hnd. apply NoDup_cons in Hnd as [Hr Hnd]. unfold startResourceServer. destruct (io_listen _ _) as [[]|e| |]; [|done..]. destruct (io_register _ _) as [[]|e| |]; [|done..].
  intros H. apply IH in H as [Hf Hall]; [|done|].
  - split; [|done]. rewrite Hf, fmap_app. cbn. by rewrite <- app_assoc.
  - apply Forall_app. split.
    + eapply Forall_impl; [exact H0|]. intros s (Ha & Hl & Hn). cbn in Hn. apply not_elem_of_cons in Hn as [Hn1 Hn2]. split_and!; [done| |done]. rewrite lookup_insert_ne; [done|]. cbn. intros He. by rewrite He in Hn1.
    + constructor; [|constructor]. split_and!; [done|cbn; by rewrite lookup_insert_eq|done].
Qed.

(** Two interfaces whose names differ in a dot and a dash have the same socket: the server of the
    first cannot be reached. *)
Theorem socket_names_collide :
  let io := Build_NodeIO (λ _, Ret ()) (λ _, Ret ()) in
  let desired := (λ i, MkDesired (masterNICResourceName i) 1 i) <$> ["eth0-100"; "eth0.100"]%string in
  masterNICResourceName "eth0-100" ≠ masterNICResourceName "eth0.100" ∧
  match start_all io DefaultKubeletRootDir desired [] ∅ with
  | (Ret [a; b], files) => socketPath (registrar a) = socketPath (registrar b) ∧ files !! socketPath (registrar a) = Some (des_ResourceName (desired_of b))
  | _ => False
  end.
Proof. split; [done|]. vm_compute. split; reflexivity. Qed.

(** ** A node with two interfaces *)

Definition demo_raw : Config :=
  MkConfig true "" everything [MkSubENIRule "" 4 everything; MkSubENIRule "" 8 everything]
    [MkMasterRule everything 20 ["ens*"%string] []; MkMasterRule everything 0 ["ens1"%string] []].
Definition demo_cfg : Config :=
  MkConfig true DefaultKubeletRootDir everything [MkSubENIRule "spidernet.io/sub-eni" 4 everything; MkSubENIRule "spidernet.io/sub-eni" 8 everything]
    [MkMasterRule everything 20 ["ens*"%string] []; MkMasterRule everything 10000 ["ens1"%string] []].
Definition demo_desired : list DesiredResource :=
  [MkDesired "spidernet.io/sub-eni" 4 ""; MkDesired "spidernet.io/ens1-nic" 10000 "ens1"; MkDesired "spidernet.io/ens2-nic" 20 "ens2"].
Definition demo_ifaces : list string := ["bond0"; "ens1"; "ens2"]%string.
Lemma node_advertises_witness :
  ComputeDesiredResources (MR := ordered_range) true None demo_ifaces demo_cfg = Ret demo_desired ∧
  (∀ m n, m ≠ EmptyString → MkDesired (master_resource m) n m ∈ demo_desired ↔ m ∈ demo_ifaces ∧ highest (MR := ordered_range) None m (MasterNICRules demo_cfg) n) ∧
  (∀ name n, MkDesired name n "" ∈ demo_desired ↔ true = true ∧ first_rule (MR := ordered_range) None name n (SubENIRules demo_cfg)) ∧
  Forall (λ d, des_Interface d = EmptyString ∨ des_ResourceName d = master_resource (des_Interface d)) demo_desired.
Proof.
  split; [vm_compute; reflexivity|].
  apply (node_advertises (MR := ordered_range) (Some demo_raw) demo_cfg true None demo_ifaces demo_desired); [vm_compute; reflexivity|reflexivity|vm_compute; reflexivity| |vm_compute; reflexivity].
  apply (bool_decide_unpack _); vm_compute; exact I.
Defined.

(** *** What the rules do not do *)

Definition demo_rules (rules : list MasterNICRuleConfig) : outcome (list MasterNICSelection) :=
  selectMasterNICs (MR := ordered_range) (Some {["zone" := "a"]}%string) demo_ifaces rules.

(** Without a rule for the node, none of its interfaces is advertised. *)
Theorem no_rule_no_master :
  demo_rules [] = Ret [] ∧ demo_rules [MkMasterRule (MkSelector {["zone" := "b"]}%string []) 5 [] []] = Ret [].
Proof. split; vm_compute; reflexivity. Qed.

(** An interface that a rule excludes is advertised when another rule for the node includes it. *)
Theorem excluded_elsewhere :
  demo_rules [MkMasterRule everything 5 ["ens*"%string] ["ens1"%string]] = Ret [MkSelection "ens2" 5] ∧
  demo_rules [MkMasterRule everything 5 ["ens*"%string] ["ens1"%string]; MkMasterRule everything 3 ["ens1"%string] []] =
    Ret [MkSelection "ens1" 3; MkSelection "ens2" 5].
Proof. split; vm_compute; reflexivity. Qed.
