(* ===== verification/PodOwner.v ===== *)
(** * pkg/podownercache: which Pod has an address, and who owns it

    The metrics of RDMA devices are labelled with the Pod an address belongs to and with the
    workload at the top of the chain of its owners.  The cache follows the events of the Pod
    informer, one after the other, and its readers take a lock, so that an event and a lookup are
    atomic here; the objects of the chain of owners are read from the API server. *)

From S2P Require Import Prelude K8s Retry WorkQueue CoordinatorSync.
Local Open Scope Z_scope.
Local Open Scope go_scope.

Definition NamespacedName : Type := string * string.
Record OwnerInfo := MkOwnerInfo { oi_APIVersion : string; oi_Kind : string; oi_Namespace : string; oi_Name : string }.
Record CachedPod := MkCachedPod { cp_Key : NamespacedName; cp_Owner : OwnerInfo; cp_IPs : list string }.
(** The zero value, for a Pod without an owner. *)
Definition no_owner : OwnerInfo := MkOwnerInfo "" "" "" "".
#[export] Instance OwnerInfo_eq_dec : EqDecision OwnerInfo.
Proof. solve_decision. Defined.
#[export] Instance CachedPod_eq_dec : EqDecision CachedPod.
Proof. solve_decision. Defined.

Record PodOwnerCache := MkOwnerCache {
  pods : gmap NamespacedName CachedPod;
  ipToPod : gmap string NamespacedName;
  ownerCache : gmap NamespacedName (option OwnerInfo)
}.
Definition empty_cache : PodOwnerCache := MkOwnerCache ∅ ∅ ∅.

(** What the handlers read of a Pod. *)
Record InformedPod := MkInformed { ip_meta : ObjectMeta; HostNetwork : bool; ip_PodIPs : list string }.
Definition MultusNetworkStatus : string := "k8s.v1.cni.cncf.io/network-status".
Definition key_of (meta : ObjectMeta) : NamespacedName := (Namespace meta, Name meta).

Section cache.
(** An object by version, kind, namespace and name. *)
Context (get_object : string → string → string → string → outcome ObjectMeta).

(** The loop along the first owners: [None] if an owner cannot be read. *)
Fixpoint owner_loop (fuel : nat) (obj : ObjectMeta) (finalOwner : option OwnerInfo) : outcome (option OwnerInfo) :=
  match fuel with
  | O => OutOfFuel
  | S fuel =>
      match OwnerReferences obj with
      | [] => Ret finalOwner
      | ref :: _ =>
          match get_object (or_APIVersion ref) (or_Kind ref) (Namespace obj) (or_Name ref) with
          | Ret owner => owner_loop fuel owner (Some (MkOwnerInfo (or_APIVersion ref) (or_Kind ref) (Namespace obj) (or_Name ref)))
          | Fail e => if (api_status e == Some APIForbidden) || not_found e then Ret None else Fail e
          | Panic => Panic
          | OutOfFuel => OutOfFuel
          end
      end
  end.

(** What was found once is kept, an owner that cannot be read as well. *)
Definition getFinalOwner (fuel : nat) (obj : ObjectMeta) : cmd PodOwnerCache (option OwnerInfo) := λ s,
  match ownerCache s !! key_of obj with
  | Some cachedOwner => (Ret cachedOwner, s)
  | None =>
      match owner_loop fuel obj None with
      | Ret owner => (Ret owner, MkOwnerCache (pods s) (ipToPod s) (<[key_of obj := owner]> (ownerCache s)))
      | Fail e => (Fail e, s)
      | Panic => (Panic, s)
      | OutOfFuel => (OutOfFuel, s)
      end
  end.

(** The Pods that are followed. *)
Definition followed (pod : InformedPod) : bool :=
  let status := default ""%string (Annotations (ip_meta pod) !! MultusNetworkStatus) in
  negb (HostNetwork pod) && (status != EmptyString) && Contains status "rdma-device" && negb (length (ip_PodIPs pod) =? 0)%nat.

Definition onPodAdd (fuel : nat) (pod : InformedPod) : cmd PodOwnerCache unit := λ s,
  if negb (followed pod) then (Ret (), s)
  else
    match getFinalOwner fuel (ip_meta pod) s with
    | (Ret owner, s) =>
        let key := key_of (ip_meta pod) in
        (Ret (), MkOwnerCache (<[key := MkCachedPod key (default no_owner owner) (ip_PodIPs pod)]> (pods s))
                   (foldl (λ m ip, <[ip := key]> m) (ipToPod s) (ip_PodIPs pod)) (ownerCache s))
    | (Fail _, s) => (Ret (), s)
    | (Panic, s) => (Panic, s)
    | (OutOfFuel, s) => (OutOfFuel, s)
    end.
Definition onPodUpdate (fuel : nat) (oldPod newPod : InformedPod) : cmd PodOwnerCache unit := onPodAdd fuel newPod.
Definition onPodDel (pod : InformedPod) (s : PodOwnerCache) : PodOwnerCache :=
  let key := key_of (ip_meta pod) in
  match pods s !! key with
  | None => s
  | Some item => MkOwnerCache (delete key (pods s)) (foldl (λ m ip, delete ip m) (ipToPod s) (cp_IPs item)) (ownerCache s)
  end.
Definition GetPodByIP (ip : string) (s : PodOwnerCache) : option CachedPod := key ← ipToPod s !! ip; pods s !! key.
End cache.

(** ** The owner *)

(** The chain of first owners of an object up to one without owners: what is found at its end, and
    its length. *)
Inductive owned (get_object : string → string → string → string → outcome ObjectMeta) : ObjectMeta → option OwnerInfo → option OwnerInfo → nat → Prop :=
  | owned_top obj last : OwnerReferences obj = [] → owned get_object obj last last 0
  | owned_by obj ref refs owner last top n :
      OwnerReferences obj = ref :: refs → get_object (or_APIVersion ref) (or_Kind ref) (Namespace obj) (or_Name ref) = Ret owner →
      owned get_object owner (Some (MkOwnerInfo (or_APIVersion ref) (or_Kind ref) (Namespace obj) (or_Name ref))) top n →
      owned get_object obj last top (S n).

(** The loop ends at the top of a chain that can be read, however long it is. *)
Theorem final_owner_found get_object obj last top n fuel : owned get_object obj last top n → (n < fuel)%nat → owner_loop get_object fuel obj last = Ret top.
Proof.
  intros Ho. revert fuel. induction Ho as [obj last Hr|obj ref refs owner last top n Hr Hg Ho IH]; intros [|fuel] Hf; try lia; cbn [owner_loop]; rewrite Hr; [done|].
  rewrite Hg. apply IH. lia.
Qed.

(** ** The addresses *)

Section lookups.
Context (get_object : string → string → string → string → outcome ObjectMeta) (fuel : nat).

(** Events of a cluster where no two Pods have an address at a time, the addresses of a Pod do not
    change, and the end of a Pod is seen before its addresses are used again. *)
Inductive cache_step : PodOwnerCache → PodOwnerCache → Prop :=
  | pod_added pod s s' :
      (∀ key item ip, pods s !! key = Some item → ip ∈ cp_IPs item → ip ∈ ip_PodIPs pod → key = key_of (ip_meta pod)) →
      (∀ item, pods s !! key_of (ip_meta pod) = Some item → cp_IPs item ⊆ ip_PodIPs pod) →
      onPodAdd get_object fuel pod s = (Ret (), s') → cache_step s s'
  | pod_deleted pod s : cache_step s (onPodDel pod s).

Definition index_ok (s : PodOwnerCache) : Prop :=
  ∀ ip key, ipToPod s !! ip = Some key ↔ ∃ item, pods s !! key = Some item ∧ ip ∈ cp_IPs item.

Lemma insert_all_lookup (key : NamespacedName) ips (m : gmap string NamespacedName) ip :
  foldl (λ m ip, <[ip := key]> m) m ips !! ip = if decide (ip ∈ ips) then Some key else m !! ip.
Proof.
  revert m. induction ips as [|x ips IH]; intros m; cbn [foldl]; [by rewrite decide_False by apply not_elem_of_nil|]. rewrite IH.
  destruct (decide (ip ∈ ips)) as [Hi|Hi]; [by rewrite decide_True by (by right)|]. destruct (decide (ip = x)) as [->|Hn].
  - by rewrite lookup_insert_eq, decide_True by left.
  - rewrite lookup_insert_ne by done. rewrite decide_False; [done|]. by intros [?|?]%elem_of_cons.
Qed.
Lemma delete_all_lookup ips (m : gmap string NamespacedName) ip :
  foldl (λ m ip, delete ip m) m ips !! ip = if decide (ip ∈ ips) then None else m !! ip.
Proof.
  revert m. induction ips as [|x ips IH]; intros m; cbn [foldl]; [by rewrite decide_False by apply not_elem_of_nil|]. rewrite IH.
  destruct (decide (ip ∈ ips)) as [Hi|Hi]; [by rewrite decide_True by (by right)|]. destruct (decide (ip = x)) as [->|Hn].
  - by rewrite lookup_delete_eq, decide_True by left.
  - rewrite lookup_delete_ne by done. rewrite decide_False; [done|]. by intros [?|?]%elem_of_cons.
Qed.

Lemma getFinalOwner_maps obj s o s' : getFinalOwner get_object fuel obj s = (o, s') → pods s' = pods s ∧ ipToPod s' = ipToPod s.
Proof. unfold getFinalOwner. destruct (ownerCache s !! _); [by intros [= _ <-]|]. by destruct (owner_loop _ _ _ _); intros [= _ <-]. Qed.

Lemma cache_step_ok s s' : cache_step s s' → index_ok s → index_ok s'.
Proof.
  intros [pod s0 s1 Hone Hsame Hadd|pod s0] Hok; unfold index_ok in *.
  - unfold onPodAdd in Hadd. destruct (negb (followed pod)); [by injection Hadd as <-|].
    destruct (getFinalOwner _ _ _ s0) as [[owner|e| |] s2] eqn:Hg; [| |done..]; apply getFinalOwner_maps in Hg as [Hp Hi]; injection Hadd as <-.
    2:{ intros ip key. rewrite Hp, Hi. apply Hok. }
    intros ip key. cbn. rewrite insert_all_lookup, Hi, Hp. destruct (decide (ip ∈ ip_PodIPs pod)) as [Hin|Hin]; destruct (decide (key = key_of (ip_meta pod))) as [->|Hn].
    + rewrite lookup_insert_eq. split; [intros _; eexists; split; [done|exact Hin]|done].
    + rewrite lookup_insert_ne by done. split; [by intros [= <-]|]. intros (item & Hk & Hx). by destruct (Hn (Hone _ _ _ Hk Hx Hin)).
    + rewrite lookup_insert_eq, Hok. split; [intros (item & Hk & Hx); by apply (Hsame _ Hk) in Hx|]. intros (item & [= <-] & Hx). by cbn in Hx.
    + rewrite lookup_insert_ne by done. apply Hok.
  - unfold onPodDel. destruct (pods s0 !! key_of (ip_meta pod)) as [item|] eqn:Hk; [|done]. intros ip key. cbn. rewrite delete_all_lookup.
    destruct (decide (ip ∈ cp_IPs item)) as [Hin|Hin]; destruct (decide (key = key_of (ip_meta pod))) as [->|Hn].
    + rewrite lookup_delete_eq. split; [done|]. by intros (? & [=] & _).
    + rewrite lookup_delete_ne by done. split; [done|]. intros (item' & Hk' & Hx).
      assert (ipToPod s0 !! ip = Some key) as H1 by (apply Hok; eauto). assert (ipToPod s0 !! ip = Some (key_of (ip_meta pod))) as H2 by (apply Hok; eauto). congruence.
    + rewrite lookup_delete_eq, Hok. split; [|by intros (? & [=] & _)]. intros (item' & Hk' & Hx). rewrite Hk in Hk'. by injection Hk' as <-.
    + rewrite lookup_delete_ne by done. apply Hok.
Qed.

(** After any such sequence of events, the lookup of an address finds exactly the followed Pod
    that has it. *)
Theorem pod_by_address s ip item : rtc cache_step empty_cache s →
  GetPodByIP ip s = Some item ↔ ∃ key, pods s !! key = Some item ∧ ip ∈ cp_IPs item.
Proof.
  intros Hr. assert (index_ok empty_cache) as H0. { intros x key. cbn. rewrite lookup_empty. split; [done|]. intros (? & H & _). by rewrite lookup_empty in H. }
  assert (index_ok s) as Hok by (induction Hr as [|a b c Hs _ IH]; [done|by apply IH, (cache_step_ok a)]). unfold GetPodByIP. split.
  - destruct (ipToPod s !! ip) as [key|] eqn:Hi; [|done]. cbn. intros Hk. apply Hok in Hi as (item' & Hk' & Hx). rewrite Hk in Hk'. injection Hk' as <-. eauto.
  - intros (key & Hk & Hx). assert (ipToPod s !! ip = Some key) as -> by (apply Hok; eauto). done.
Qed.
End lookups.

(** ** What goes wrong otherwise *)

Definition demo_pod (name : string) (ips : list string) (owners : list OwnerReference) : InformedPod :=
  MkInformed (MkMeta name "default" "" 0 ∅ {[MultusNetworkStatus := "[rdma-device]"%string]} [] owners None) false ips.
Definition demo_owner (name : string) : OwnerReference := MkOwnerReference "apps/v1" "StatefulSet" name "" None.
Definition demo_get (apiVersion kind ns name : string) : outcome ObjectMeta := Ret (plain_meta ns name "").
Definition demo_add (pod : InformedPod) (s : PodOwnerCache) : PodOwnerCache := (onPodAdd demo_get 5 pod s).2.

Lemma pod_by_address_witness : let s := demo_add (demo_pod "a" ["10.6.0.1"%string] [demo_owner "web"]) empty_cache in
  GetPodByIP "10.6.0.1" s = Some (MkCachedPod ("default", "a")%string (MkOwnerInfo "apps/v1" "StatefulSet" "default" "web") ["10.6.0.1"%string]).
Proof.
  cbn zeta. apply (pod_by_address demo_get 5).
  - apply rtc_once. apply (pod_added demo_get 5 (demo_pod "a" ["10.6.0.1"%string] [demo_owner "web"])); [by intros ? ? ? H; cbn in H; rewrite lookup_empty in H|by intros ? H; cbn in H; rewrite lookup_empty in H|].
    vm_compute; reflexivity.
  - exists ("default", "a")%string. split; [vm_compute; reflexivity|by left].
Defined.

(** An address that is used again before the end of its first Pod is seen is lost with it. *)
Theorem reused_address_lost :
  let a := demo_pod "a" ["10.6.0.1"%string] [] in let b := demo_pod "b" ["10.6.0.1"%string] [] in
  let s := onPodDel a (demo_add b (demo_add a empty_cache)) in
  is_Some (pods s !! ("default", "b")%string) ∧ GetPodByIP "10.6.0.1" s = None.
Proof. split; [eexists|]; vm_compute; reflexivity. Qed.

(** A Pod that is created again under its name, with another owner, is given the old one. *)
Theorem stale_owner :
  let a := demo_pod "a" ["10.6.0.1"%string] [demo_owner "old"] in let a' := demo_pod "a" ["10.6.0.1"%string] [demo_owner "new"] in
  cp_Owner <$> GetPodByIP "10.6.0.1" (demo_add a' (onPodDel a (demo_add a empty_cache))) = Some (MkOwnerInfo "apps/v1" "StatefulSet" "default" "old").
Proof. vm_compute. reflexivity. Qed.

(** An address that a Pod had before is still taken for its own. *)
Theorem former_address_found :
  let s := demo_add (demo_pod "a" ["10.6.0.2"%string] []) (demo_add (demo_pod "a" ["10.6.0.1"%string] []) empty_cache) in
  cp_IPs <$> GetPodByIP "10.6.0.1" s = Some ["10.6.0.2"%string].
Proof. vm_compute. reflexivity. Qed.
