(* ===== verification/Init.v ===== *)
(** * cmd/spiderpool-init: the default objects of an installation

    A job that reads its configuration from the environment (config.go), waits for the controller
    (client.go) and creates the default coordinator, subnets, pools and the configuration of the
    default network of the nodes (root.go, multus.go, pkg/utils: the first file of the CNI
    directory).  [logger.Fatalf] ends the process and is an error here. *)

From S2P Require Import Prelude NetIP NetIPFacts IPAddr Cidr IPRange K8s Retry WorkQueue Convert Selector AppUtils NetPrefix Coordinator CoordinatorSync MultusConfig CoordinatorConf.
Local Open Scope Z_scope.
Local Open Scope go_scope.

(** ** config.go *)

Record InitDefaultConfig := MkInitConfig {
  init_Namespace : string;
  ControllerName : string;
  AgentName : string;
  CoordinatorName : string;
  CoordinatorMode : string;
  CoordinatorPodCIDRType : string;
  CoordinatorVethLinkAddress : string;
  CoordinatorVethMTU : Z;
  CoordinatorTunePodRoutes : bool;
  CoordinatorHijackCIDR : list string;
  CoordinatorPolicyRoutes : list Route;
  V4SubnetName : string;
  V4IPPoolName : string;
  V4CIDR : string;
  V4IPRanges : list string;
  V4Gateway : string;
  V6SubnetName : string;
  V6IPPoolName : string;
  V6CIDR : string;
  V6IPRanges : list string;
  V6Gateway : string;
  enableMultusConfig : bool;
  DefaultCNIDir : string;
  DefaultCNIName : string;
  DefaultCNINamespace : string;
  MultusConfigMap : string;
  ReadinessFile : string
}.

(** [strings.ReplaceAll] with one character, by the empty text or by another. *)
Fixpoint remove_char (c : ascii) (s : string) : string :=
  match s with EmptyString => EmptyString | String a s => if a == c then remove_char c s else String a (remove_char c s) end.
Fixpoint replace_by (c d : ascii) (s : string) : string :=
  match s with EmptyString => EmptyString | String a s => String (if a == c then d else a) (replace_by c d s) end.
(** [strings.Fields]: [word] is what was read of the current word, backwards. *)
Definition push_word (word : string) (words : list string) : list string := if word == EmptyString then words else String.rev word :: words.
Fixpoint fields_go (s word : string) : list string :=
  match s with
  | EmptyString => push_word word []
  | String c s => if is_space c then push_word word (fields_go s EmptyString) else fields_go s (String c word)
  end.
Definition Fields (s : string) : list string := fields_go s EmptyString.

Definition quote_char : ascii := "034"%char.
Definition unquote (s : string) : string := remove_char quote_char s.
(** The items of a list as Helm renders it. *)
Definition list_items (v : string) : list string :=
  Fields (replace_by "," " " (remove_char "]" (remove_char "[" (remove_char "\" (unquote v))))).

Section config.
Context `{JR : JSON (list Route)}.
(** [os.Getenv], and whether a directory can be read. *)
Context (getenv : string → string) (ReadDir : string → outcome unit).
Definition env (name : string) : string := unquote (getenv name).
Definition required (name : string) : outcome string := if env name == EmptyString then Fail ErrMissingRequiredParam else Ret (env name).

Definition normal_prefix (r : string) : outcome string := match ParseIPOrCIDR r with Some p => Ret (prefix_string p) | None => Fail ErrInvalidIPFormat end.
Definition map_ok {A B} (f : A → outcome B) : list A → outcome (list B) :=
  fix go l := match l with [] => Ret [] | a :: l => b ← f a; rest ← go l; Ret (b :: rest) end.

Definition hijack_cidrs : outcome (list string) :=
  let v := getenv "SPIDERPOOL_INIT_DEFAULT_COORDINATOR_HIJACK_CIDR" in
  if v == EmptyString then Ret [] else map_ok normal_prefix (list_items v).
Definition policy_routes : outcome (list Route) :=
  let v := getenv "SPIDERPOOL_INIT_DEFAULT_COORDINATOR_POLICY_ROUTES" in
  if v == EmptyString then Ret []
  else
    match json_unmarshal (remove_char "\" v) with
    | None => Fail (ErrOther "json.Unmarshal")
    | Some routes => map_ok (λ r, d ← normal_prefix (Dst r); Ret (MkRoute d (Gw r))) routes
    end.
Definition veth_mtu : outcome Z :=
  let v := env "SPIDERPOOL_INIT_DEFAULT_COORDINATOR_VETH_MTU" in
  if v == EmptyString then Ret 1500
  else match atoi v with
       | None => Fail (ErrOther "strconv.Atoi")
       | Some mtu => if mtu <=? 0 then Fail (ErrOther "veth MTU must be greater than 0") else Ret mtu
       end.

(** The part for the coordinator: nothing of it is read without a name. *)
Record coordinator_part := MkCoordPart {
  part_mode : string; part_type : string; part_tune : bool; part_hijack : list string; part_routes : list Route; part_link : string; part_mtu : Z }.
Definition parse_coordinator (name : string) : outcome coordinator_part :=
  if name == EmptyString then Ret (MkCoordPart "" "" false [] [] "" 0)
  else
    let mode := env "SPIDERPOOL_INIT_DEFAULT_COORDINATOR_MODE" in
    let type := env "SPIDERPOOL_INIT_DEFAULT_COORDINATOR_POD_CIDR_TYPE" in
    tune ← ParseBool (env "SPIDERPOOL_INIT_DEFAULT_COORDINATOR_TUNE_POD_ROUTES");
    hijack ← hijack_cidrs;
    routes ← policy_routes;
    mtu ← veth_mtu;
    Ret (MkCoordPart (if mode == EmptyString then ModeAuto else mode) type tune hijack routes (env "SPIDERPOOL_INIT_DEFAULT_COORDINATOR_VETH_LINK_ADDRESS") mtu).

(** The part for one family: the CIDR, the ranges and the gateway. *)
Definition parse_family (version : IPVersion) (subnetName poolName cidrVar rangesVar gatewayVar : string) : outcome (string * list string * string) :=
  if (subnetName == EmptyString) && (poolName == EmptyString) then Ret (EmptyString, [], EmptyString)
  else
    cidr ← required cidrVar;
    _ ← IsCIDR version cidr;
    let gateway := env gatewayVar in
    _ ← (if gateway == EmptyString then Ret () else IsIP version gateway);
    let v := getenv rangesVar in
    let ranges := if v == EmptyString then [] else list_items v in
    _ ← for_each (IsIPRange version) ranges;
    Ret (cidr, ranges, gateway).

Definition distinct_names (a b : string) : outcome unit := check (negb ((a == b) && (a != EmptyString))) (ErrOther "the IPv4 name cannot be the same as the IPv6 one").

Definition parseENVAsDefault : outcome InitDefaultConfig :=
  namespace ← required "SPIDERPOOL_NAMESPACE";
  controller ← required "SPIDERPOOL_CONTROLLER_NAME";
  agent ← required "SPIDERPOOL_AGENT_NAME";
  let coordinator := env "SPIDERPOOL_INIT_DEFAULT_COORDINATOR_NAME" in
  part ← parse_coordinator coordinator;
  let v4subnet := env "SPIDERPOOL_INIT_DEFAULT_IPV4_SUBNET_NAME" in
  let v4pool := env "SPIDERPOOL_INIT_DEFAULT_IPV4_IPPOOL_NAME" in
  '(v4cidr, v4ranges, v4gateway) ← parse_family 4 v4subnet v4pool "SPIDERPOOL_INIT_DEFAULT_IPV4_IPPOOL_SUBNET"
     "SPIDERPOOL_INIT_DEFAULT_IPV4_IPPOOL_IPRANGES" "SPIDERPOOL_INIT_DEFAULT_IPV4_IPPOOL_GATEWAY";
  let v6subnet := env "SPIDERPOOL_INIT_DEFAULT_IPV6_SUBNET_NAME" in
  let v6pool := env "SPIDERPOOL_INIT_DEFAULT_IPV6_IPPOOL_NAME" in
  '(v6cidr, v6ranges, v6gateway) ← parse_family 6 v6subnet v6pool "SPIDERPOOL_INIT_DEFAULT_IPV6_IPPOOL_SUBNET"
     "SPIDERPOOL_INIT_DEFAULT_IPV6_IPPOOL_IPRANGES" "SPIDERPOOL_INIT_DEFAULT_IPV6_IPPOOL_GATEWAY";
  _ ← distinct_names v4subnet v6subnet;
  _ ← distinct_names v4pool v6pool;
  multus ← ParseBool (env "SPIDERPOOL_INIT_ENABLE_MULTUS_CONFIG");
  let dir := env "SPIDERPOOL_INIT_DEFAULT_CNI_DIR" in
  _ ← (if dir == EmptyString then Ret () else ReadDir dir);
  let ready := env "SPIDERPOOL_INIT_READINESS_FILE" in
  Ret (MkInitConfig namespace controller agent coordinator (part_mode part) (part_type part) (part_link part) (part_mtu part) (part_tune part) (part_hijack part)
         (part_routes part) v4subnet v4pool v4cidr v4ranges v4gateway v6subnet v6pool v6cidr v6ranges v6gateway multus dir
         (env "SPIDERPOOL_INIT_DEFAULT_CNI_NAME") (env "SPIDERPOOL_INIT_DEFAULT_CNI_NAMESPACE") (env "SPIDERPOOL_INIT_MULTUS_CONFIGMAP")
         (if ready == EmptyString then "/etc/spiderpool/ready" else ready)).
End config.

(** ** multus.go, the rest of config.go and findDefaultCNIConf of pkg/utils *)

(** [libcni]: the files of a directory, the name and the types of the plugins of a list, and the
    name and the type of a single configuration. *)
Class CNIFiles := {
  ConfFiles : string → outcome (list string);
  ConfListFromFile : string → outcome (string * list string);
  ConfFromFile : string → outcome (string * string)
}.

Definition has_suffix (suffix s : string) : bool := bool_decide (is_Some (strip_prefix (String.rev suffix) (String.rev s))).

Section cni.
Context `{CF : CNIFiles}.

Definition findDefaultCNIConf (cniDir : string) : outcome string :=
  cnifiles ← ConfFiles cniDir;
  match merge_sort String.le (List.filter (λ file, negb (Contains file "00-multus")) cnifiles) with
  | [] => Ret EmptyString
  | first :: _ => Ret first
  end.

Definition known_type (cniType : string) : string :=
  if existsb (λ t, cniType == t) [MacvlanCNI; IPVlanCNI; SriovCNI; IBSriovCNI; IPoIBCNI] then cniType else CustomCNI.
Definition parseCNIFromConfig (cniConfigPath : string) : outcome (string * string) :=
  if cniConfigPath == EmptyString then Ret ("default"%string, CustomCNI)
  else
    '(cniName, cniType) ←
      (if has_suffix ".conflist" cniConfigPath then
         '(name, types) ← ConfListFromFile cniConfigPath;
         match types with [] => Panic | t :: _ => Ret (name, t) end
       else ConfFromFile cniConfigPath);
    Ret (cniName, known_type cniType).

Definition fetchDefaultCNIName (defaultCNIName cniDir : string) : outcome (string * string) :=
  if defaultCNIName != EmptyString then Ret (defaultCNIName, CustomCNI)
  else path ← findDefaultCNIConf cniDir; parseCNIFromConfig path.
End cni.

Definition legacyCalicoCniName : string := "k8s-pod-network".
Definition calicoCniName : string := "calico".
Definition getMultusCniConfig (cniName cniType ns : string) : SpiderMultusConfig :=
  let '(name, annotations) := if cniName == legacyCalicoCniName then (calicoCniName, {[AnnoNetAttachConfName := legacyCalicoCniName]}) else (cniName, ∅) in
  MkMultus (MkMeta name ns "" 0 ∅ annotations [] [] None) (MkMultusSpec (Some cniType) None None None None None None None (Some false) None None [] None).

(** ** client.go and root.go *)

(** The creations (with the answer of the admission), and the endpoints of the controller. *)
Class InitClient (S : Type) := {
  create_coordinator : SpiderCoordinator → cmd S unit;
  create_subnet : SpiderSubnet → cmd S unit;
  create_pool : SpiderIPPool → cmd S unit;
  create_multus : SpiderMultusConfig → cmd S unit;
  (* the number of subsets; the server may go on while it is read *)
  get_endpoints : string → string → cmd S nat
}.

Section init.
Context {S : Type} `{IC : InitClient S} `{CF : CNIFiles}.

(** The loops that create an object again every two seconds; the context is never done. *)
Fixpoint wait_created (fuel : nat) (create : cmd S unit) : cmd S unit := λ s,
  match fuel with
  | O => (OutOfFuel, s)
  | Datatypes.S fuel =>
      match create s with
      | (Ret _, s') => (Ret (), s')
      | (Fail e, s') => if already_exists e then (Ret (), s') else wait_created fuel create s'
      | (Panic, s') => (Panic, s')
      | (OutOfFuel, s') => (OutOfFuel, s')
      end
  end.
Fixpoint WaitForEndpointReady (fuel : nat) (namespace name : string) : cmd S unit := λ s,
  match fuel with
  | O => (OutOfFuel, s)
  | Datatypes.S fuel =>
      match get_endpoints namespace name s with
      | (Ret n, s') => if (0 <? n)%nat then (Ret (), s') else WaitForEndpointReady fuel namespace name s'
      | (Fail _, s') => WaitForEndpointReady fuel namespace name s'
      | (Panic, s') => (Panic, s')
      | (OutOfFuel, s') => (OutOfFuel, s')
      end
  end.
Definition WaitForCoordinatorCreated (fuel : nat) (c : SpiderCoordinator) : cmd S unit := wait_created fuel (create_coordinator c).
Definition WaitForSubnetCreated (fuel : nat) (c : SpiderSubnet) : cmd S unit := wait_created fuel (create_subnet c).
Definition WaitForIPPoolCreated (fuel : nat) (c : SpiderIPPool) : cmd S unit := wait_created fuel (create_pool c).
Definition WaitMultusCNIConfigCreated (fuel : nat) (c : SpiderMultusConfig) : cmd S unit := wait_created fuel (create_multus c).

Definition named (name : string) : ObjectMeta := plain_meta "" name "".
Definition default_coordinator (config : InitDefaultConfig) : SpiderCoordinator :=
  MkCoordinator (named (CoordinatorName config))
    (MkCoordinatorSpec (Some (CoordinatorMode config)) (Some (CoordinatorPodCIDRType config)) (CoordinatorHijackCIDR config) (CoordinatorPolicyRoutes config)
       (Some ""%string) (Some (CoordinatorTunePodRoutes config)) (Some ""%string) None None None (Some (CoordinatorVethLinkAddress config)) (Some (CoordinatorVethMTU config)))
    (MkCoordinatorStatus "" "" None None).
Definition or_none (s : string) : option string := if s != EmptyString then Some s else None.
Definition default_subnet (name : string) (version : IPVersion) (cidr : string) (ranges : list string) (gateway : string) : SpiderSubnet :=
  MkSubnet (named name) (MkSubnetSpec (Some version) cidr ranges [] (or_none gateway) []) (MkSubnetStatus None None None).
Definition default_pool (name : string) (version : IPVersion) (cidr : string) (ranges : list string) (gateway : string) : SpiderIPPool :=
  MkIPPool (named name) (MkIPPoolSpec (Some version) cidr ranges [] (or_none gateway) None None None [] None [] [] (Some true) None) (MkIPPoolStatus None None None).

Definition InitMultusDefaultCR (fuel : nat) (config : InitDefaultConfig) : cmd S unit :=
  '(name, type) ← lift (fetchDefaultCNIName (DefaultCNIName config) (DefaultCNIDir config));
  WaitMultusCNIConfigCreated fuel (getMultusCniConfig name type (DefaultCNINamespace config)).

(** [if len(name) != 0 { ... }] *)
Definition if_named (name : string) (m : cmd S unit) : cmd S unit := if name != EmptyString then m else mret ().
Definition Execute (fuel : nat) (config : InitDefaultConfig) : cmd S unit :=
  _ ← WaitForEndpointReady fuel (init_Namespace config) (ControllerName config);
  _ ← if_named (CoordinatorName config) (WaitForCoordinatorCreated fuel (default_coordinator config));
  _ ← if_named (V4SubnetName config) (WaitForSubnetCreated fuel (default_subnet (V4SubnetName config) 4 (V4CIDR config) (V4IPRanges config) (V4Gateway config)));
  _ ← if_named (V6SubnetName config) (WaitForSubnetCreated fuel (default_subnet (V6SubnetName config) 6 (V6CIDR config) (V6IPRanges config) (V6Gateway config)));
  _ ← if_named (V4IPPoolName config) (WaitForIPPoolCreated fuel (default_pool (V4IPPoolName config) 4 (V4CIDR config) (V4IPRanges config) (V4Gateway config)));
  _ ← if_named (V6IPPoolName config) (WaitForIPPoolCreated fuel (default_pool (V6IPPoolName config) 6 (V6CIDR config) (V6IPRanges config) (V6Gateway config)));
  if enableMultusConfig config then InitMultusDefaultCR fuel config else mret ().
End init.

(** ** What is created *)

(** The part of a family is usable. *)
Definition family_ready (version : IPVersion) (subnetName poolName cidr : string) (ranges : list string) (gateway : string) : Prop :=
  (subnetName ≠ EmptyString ∨ poolName ≠ EmptyString) →
  IsCIDR version cidr = Ret () ∧ Forall (λ r, IsIPRange version r = Ret ()) ranges ∧ (gateway ≠ EmptyString → IsIP version gateway = Ret ()).
Definition init_ready (c : InitDefaultConfig) : Prop :=
  init_Namespace c ≠ EmptyString ∧ ControllerName c ≠ EmptyString ∧ AgentName c ≠ EmptyString ∧
  (CoordinatorName c ≠ EmptyString → CoordinatorMode c ≠ EmptyString ∧ 0 < CoordinatorVethMTU c ∧
     Forall (λ s, ∃ p, ParseIPOrCIDR s = Some p ∧ s = prefix_string p) (CoordinatorHijackCIDR c) ∧
     Forall (λ r, ∃ p, ParseIPOrCIDR (Dst r) = Some p ∧ Dst r = prefix_string p) (CoordinatorPolicyRoutes c)) ∧
  family_ready 4 (V4SubnetName c) (V4IPPoolName c) (V4CIDR c) (V4IPRanges c) (V4Gateway c) ∧
  family_ready 6 (V6SubnetName c) (V6IPPoolName c) (V6CIDR c) (V6IPRanges c) (V6Gateway c) ∧
  (V4SubnetName c ≠ EmptyString → V4SubnetName c ≠ V6SubnetName c) ∧ (V4IPPoolName c ≠ EmptyString → V4IPPoolName c ≠ V6IPPoolName c).

Section facts.
Context `{JR : JSON (list Route)} (getenv : string → string) (ReadDir : string → outcome unit).

Lemma required_Ret name v : required getenv name = Ret v → v ≠ EmptyString.
Proof. unfold required. case_bool_decide as E; [done|]. by intros [= <-]. Qed.
Lemma map_ok_Ret {A B} (f : A → outcome B) l l' : map_ok f l = Ret l' → Forall2 (λ a b, f a = Ret b) l l'.
Proof.
  revert l'. induction l as [|a l IH]; intros l'; cbn; [intros [= <-]; constructor|]. intros (b & Hb & (rest & Hr & [= <-])%bind_Ret)%bind_Ret. constructor; [done|]. by apply IH.
Qed.
Lemma normal_prefix_Ret r s : normal_prefix r = Ret s → ∃ p, ParseIPOrCIDR s = Some p ∧ s = prefix_string p.
Proof.
  unfold normal_prefix. destruct (ParseIPOrCIDR r) as [p|] eqn:E; [|done]. intros [= <-]. exists p. split; [|done]. by eapply ParseIPOrCIDR_string.
Qed.
Lemma parse_family_Ret v sn pn cv rv gv cidr ranges gateway : parse_family getenv v sn pn cv rv gv = Ret (cidr, ranges, gateway) → family_ready v sn pn cidr ranges gateway.
Proof.
  unfold parse_family, family_ready. destruct ((sn == EmptyString) && (pn == EmptyString)) eqn:E.
  { apply andb_true_iff in E as [E1%bool_decide_eq_true E2%bool_decide_eq_true]. intros _ [?|?]; done. }
  intros (c & _ & ([] & Hc & ([] & Hg & ([] & Hr & [= <- <- <-])%bind_Ret)%bind_Ret)%bind_Ret)%bind_Ret _. split_and!; [done|by apply for_each_Ret|].
  intros Hn. by rewrite bool_decide_false in Hg.
Qed.
Lemma distinct_names_Ret a b : distinct_names a b = Ret () → a ≠ EmptyString → a ≠ b.
Proof. unfold distinct_names. rewrite check_Ret. intros H Hn ->. rewrite !bool_decide_true in H by done. rewrite bool_decide_false in H by done. discriminate H. Qed.
Lemma parse_coordinator_Ret name part : parse_coordinator getenv name = Ret part → name ≠ EmptyString →
  part_mode part ≠ EmptyString ∧ 0 < part_mtu part ∧ Forall (λ s, ∃ p, ParseIPOrCIDR s = Some p ∧ s = prefix_string p) (part_hijack part) ∧
  Forall (λ r, ∃ p, ParseIPOrCIDR (Dst r) = Some p ∧ Dst r = prefix_string p) (part_routes part).
Proof.
  unfold parse_coordinator. intros H Hn. rewrite bool_decide_false in H by done. revert H.
  intros (tune & _ & (hijack & Hh & (routes & Hr & (mtu & Hm & [= <-])%bind_Ret)%bind_Ret)%bind_Ret)%bind_Ret. cbn. split_and!.
  - case_bool_decide; done.
  - revert Hm. unfold veth_mtu. case_bool_decide; [by intros [= <-]|]. destruct (atoi _) as [m|]; [|done]. destruct (Z.leb_spec m 0); [done|]. by intros [= <-].
  - revert Hh. unfold hijack_cidrs. case_bool_decide; [intros [= <-]; constructor|]. intros Hf%map_ok_Ret. eapply Forall2_Forall_r; [exact Hf|]. apply Forall_forall. intros x _ y. apply normal_prefix_Ret.
  - revert Hr. unfold policy_routes. case_bool_decide; [intros [= <-]; constructor|]. destruct (json_unmarshal _) as [rs|]; [|done]. intros Hf%map_ok_Ret.
    eapply Forall2_Forall_r; [exact Hf|]. apply Forall_forall. intros x _ y (d & Hd & [= <-])%bind_Ret. cbn. by eapply normal_prefix_Ret.
Qed.

(** The configuration that the job goes on with is usable. *)
Theorem init_config_ready c : parseENVAsDefault getenv ReadDir = Ret c → init_ready c.
Proof.
  unfold parseENVAsDefault.
  intros (ns & Hns%required_Ret & (ctrl & Hctrl%required_Ret & (agent & Ha%required_Ret & (part & Hpart & ([[c4 r4] g4] & H4%parse_family_Ret &
    ([[c6 r6] g6] & H6%parse_family_Ret & ([] & Hs & ([] & Hp & (multus & _ & ([] & _ & [= <-])%bind_Ret)%bind_Ret)%bind_Ret)%bind_Ret)%bind_Ret)%bind_Ret)%bind_Ret)%bind_Ret)%bind_Ret)%bind_Ret.
  split_and!; try done; cbn; [by apply parse_coordinator_Ret|by apply distinct_names_Ret|by apply distinct_names_Ret].
Qed.
End facts.

(** *** The loops *)

(** An object that the server accepts, or has, after some attempts ends the loop, and not before. *)
Fixpoint attempts {S} (create : cmd S unit) (n : nat) (s : S) : S := match n with O => s | Datatypes.S n => attempts create n (create s).2 end.
Definition refused {S} (create : cmd S unit) (s : S) : Prop := ∃ e, (create s).1 = Fail e ∧ already_exists e = false.
Lemma wait_created_ends {S} (create : cmd S unit) n fuel s :
  (∀ i, (i < n)%nat → refused create (attempts create i s)) → (∃ u, (create (attempts create n s)).1 = Ret u) ∨ (∃ e, (create (attempts create n s)).1 = Fail e ∧ already_exists e = true) →
  (n < fuel)%nat → wait_created fuel create s = (Ret (), attempts create (Datatypes.S n) s).
Proof.
  revert fuel s. induction n as [|n IH]; intros [|fuel] s Hr Hend Hf; try lia; cbn [wait_created attempts] in *.
  - destruct (create s) as [o s']; cbn in *. destruct Hend as [[[] ->]|(e & -> & He)]; [done|by rewrite He].
  - destruct (Hr 0%nat ltac:(lia)) as (e & He & Hn). cbn in He. destruct (create s) as [o s'] eqn:E; cbn in *. rewrite He, Hn. apply IH; [|done|lia].
    intros i Hi. specialize (Hr (Datatypes.S i) ltac:(lia)). cbn in Hr. by rewrite E in Hr.
Qed.
(** One that is refused for good keeps the job waiting for ever. *)
Theorem refused_waits_forever {S} (create : cmd S unit) fuel s : (∀ s, refused create s) → (wait_created fuel create s).1 = OutOfFuel.
Proof.
  intros Hr. revert s. induction fuel as [|fuel IH]; intros s; cbn [wait_created]; [done|]. destruct (Hr s) as (e & He & Hn). destruct (create s) as [o s']; cbn in He. rewrite He, Hn. apply IH.
Qed.

(** The default network of a node whose first CNI configuration is one of macvlan: the object has no
    configuration of macvlan, and the webhook refuses it. *)
Theorem macvlan_default_refused conf_valid json_valid :
  ValidateCreate (λ _ _, Fail APINotFound) conf_valid json_valid (Default (getMultusCniConfig "mynet" (known_type "macvlan") "kube-system")) = Fail APIInvalid.
Proof. vm_compute. reflexivity. Qed.

(** What the server has: a creation that succeeds or finds the object leaves it there, and none
    takes anything away. *)
Class InitLaws (S : Type) `{InitClient S} := {
  has_object : string → string → S → Prop;
  create_coordinator_has c s : (∃ s' o, create_coordinator c s = (o, s') ∧ (o = Ret () ∨ ∃ e, o = Fail e ∧ already_exists e = true)) →
    has_object "coordinator" (Name (coord_meta c)) (create_coordinator c s).2;
  create_subnet_has c s : (∃ s' o, create_subnet c s = (o, s') ∧ (o = Ret () ∨ ∃ e, o = Fail e ∧ already_exists e = true)) →
    has_object "subnet" (Name (subnet_meta c)) (create_subnet c s).2;
  create_pool_has c s : (∃ s' o, create_pool c s = (o, s') ∧ (o = Ret () ∨ ∃ e, o = Fail e ∧ already_exists e = true)) →
    has_object "pool" (Name (pool_meta c)) (create_pool c s).2;
  kept_coordinator kind name c s : has_object kind name s → has_object kind name (create_coordinator c s).2;
  kept_subnet kind name c s : has_object kind name s → has_object kind name (create_subnet c s).2;
  kept_pool kind name c s : has_object kind name s → has_object kind name (create_pool c s).2;
  kept_multus kind name c s : has_object kind name s → has_object kind name (create_multus c s).2;
  kept_endpoints kind name ns n s : has_object kind name s → has_object kind name (get_endpoints ns n s).2
}.

Section created.
Context {S : Type} `{IC : InitClient S} `{IL : !InitLaws S} `{CF : CNIFiles}.

Definition kept (s s' : S) : Prop := ∀ kind name, has_object kind name s → has_object kind name s'.
#[local] Instance kept_preorder : PreOrder kept.
Proof. split; [by intros s k n|]. intros a b c H1 H2 k n H. by apply H2, H1. Qed.

Lemma wait_created_kept fuel create : evolves kept create → evolves kept (wait_created fuel create).
Proof.
  intros Hc. induction fuel as [|fuel IH]; intros s; cbn [wait_created]; [reflexivity|]. specialize (Hc s). destruct (create s) as [[[]|e| |] s']; cbn in Hc; try done.
  destruct (already_exists e); [done|]. etrans; [exact Hc|apply IH].
Qed.
Lemma wait_endpoints_kept fuel ns n : evolves kept (WaitForEndpointReady fuel ns n).
Proof.
  induction fuel as [|fuel IH]; intros s; cbn [WaitForEndpointReady]; [reflexivity|]. assert (kept s (get_endpoints ns n s).2) as Hk by (intros k x; apply kept_endpoints).
  destruct (get_endpoints ns n s) as [[k|e| |] s']; cbn in Hk; try done; [destruct (0 <? k)%nat; [done|]|]; (etrans; [exact Hk|apply IH]).
Qed.
Lemma wait_created_has fuel create (P : S → Prop) s s' :
  (∀ s s' o, create s = (o, s') → (o = Ret () ∨ ∃ e, o = Fail e ∧ already_exists e = true) → P s') → wait_created fuel create s = (Ret (), s') → P s'.
Proof.
  intros HP. revert s. induction fuel as [|fuel IH]; intros s; cbn [wait_created]; [done|]. destruct (create s) as [[[]|e| |] s1] eqn:E; [|destruct (already_exists e) eqn:He|done..].
  - intros [= <-]. eapply HP; [exact E|by left]. - intros [= <-]. eapply HP; [exact E|]. right. by exists e. - apply IH.
Qed.
Lemma if_named_kept name m : evolves kept m → evolves kept (if_named name m).
Proof. intros Hm. unfold if_named. destruct (name != EmptyString); [done|apply evolves_ret, _]. Qed.
Lemma if_named_has name m (P : S → Prop) s s' : (m s = (Ret (), s') → P s') → if_named name m s = (Ret (), s') → name ≠ EmptyString → P s'.
Proof. intros HP H Hn. unfold if_named in H. rewrite bool_decide_false in H by done. by apply HP. Qed.

Lemma coordinator_has fuel c s s' : WaitForCoordinatorCreated fuel c s = (Ret (), s') → has_object "coordinator" (Name (coord_meta c)) s'.
Proof. apply wait_created_has. intros s0 s1 o E Ho. pose proof (create_coordinator_has c s0) as H. rewrite E in H. apply H. eauto. Qed.
Lemma subnet_has fuel c s s' : WaitForSubnetCreated fuel c s = (Ret (), s') → has_object "subnet" (Name (subnet_meta c)) s'.
Proof. apply wait_created_has. intros s0 s1 o E Ho. pose proof (create_subnet_has c s0) as H. rewrite E in H. apply H. eauto. Qed.
Lemma pool_has fuel c s s' : WaitForIPPoolCreated fuel c s = (Ret (), s') → has_object "pool" (Name (pool_meta c)) s'.
Proof. apply wait_created_has. intros s0 s1 o E Ho. pose proof (create_pool_has c s0) as H. rewrite E in H. apply H. eauto. Qed.
Lemma subnet_kept fuel c : evolves kept (WaitForSubnetCreated fuel c).
Proof. apply wait_created_kept. intros s k n. apply kept_subnet. Qed.
Lemma pool_kept fuel c : evolves kept (WaitForIPPoolCreated fuel c).
Proof. apply wait_created_kept. intros s k n. apply kept_pool. Qed.
Lemma multus_kept fuel config : evolves kept (InitMultusDefaultCR fuel config).
Proof.
  apply evolves_bind; [apply _|apply evolves_lift, _|]. intros [name type]. apply wait_created_kept. intros s k n. apply kept_multus.
Qed.
Lemma kept_to {A} (m : cmd S A) s a s' : evolves kept m → m s = (Ret a, s') → kept s s'.
Proof. intros Hm E. specialize (Hm s). by rewrite E in Hm. Qed.

(** When the job ends, every default object that the environment asks for is there: the
    coordinator, and the subnet and the pool of each family. *)
Theorem init_creates_all fuel config s s' : Execute fuel config s = (Ret (), s') →
  (CoordinatorName config ≠ EmptyString → has_object "coordinator" (CoordinatorName config) s') ∧
  (∀ name, name ∈ [V4SubnetName config; V6SubnetName config] → name ≠ EmptyString → has_object "subnet" name s') ∧
  (∀ name, name ∈ [V4IPPoolName config; V6IPPoolName config] → name ≠ EmptyString → has_object "pool" name s').
Proof.
  unfold Execute.
  intros ([] & s1 & _ & ([] & s2 & H2 & ([] & s3 & H3 & ([] & s4 & H4 & ([] & s5 & H5 & ([] & s6 & H6 & H7)%cmd_bind_Ret)%cmd_bind_Ret)%cmd_bind_Ret)%cmd_bind_Ret)%cmd_bind_Ret)%cmd_bind_Ret.
  assert (kept s6 s') as K6. { destruct (enableMultusConfig config); [by eapply (kept_to _ _ _ _ (multus_kept _ _))|by injection H7 as <-; intros k n]. }
  assert (kept s5 s6) as K5 by (eapply kept_to; [apply if_named_kept, pool_kept|exact H6]).
  assert (kept s4 s5) as K4 by (eapply kept_to; [apply if_named_kept, pool_kept|exact H5]).
  assert (kept s3 s4) as K3 by (eapply kept_to; [apply if_named_kept, subnet_kept|exact H4]).
  assert (kept s2 s3) as K2 by (eapply kept_to; [apply if_named_kept, subnet_kept|exact H3]).
  split_and!.
  - intros Hn. apply K6, K5, K4, K3, K2. eapply if_named_has in H2; [exact H2| |done]. apply coordinator_has.
  - intros name [->|[->|?%elem_of_nil]%elem_of_cons]%elem_of_cons Hn; [| |done].
    + apply K6, K5, K4, K3. eapply if_named_has in H3; [exact H3| |done]. apply subnet_has.
    + apply K6, K5, K4. eapply if_named_has in H4; [exact H4| |done]. apply subnet_has.
  - intros name [->|[->|?%elem_of_nil]%elem_of_cons]%elem_of_cons Hn; [| |done].
    + apply K6, K5. eapply if_named_has in H5; [exact H5| |done]. apply pool_has.
    + apply K6. eapply if_named_has in H6; [exact H6| |done]. apply pool_has.
Qed.
End created.

(** ** An installation *)

(** A server that accepts everything, with its objects by kind and name. *)
Definition objects := list (string * string).
Definition create_in (kind name : string) : cmd objects unit := λ s,
  if bool_decide ((kind, name) ∈ s) then (Fail APIAlreadyExists, s) else (Ret (), (kind, name) :: s).
#[export] Instance objects_client : InitClient objects := {
  create_coordinator c := create_in "coordinator" (Name (coord_meta c));
  create_subnet c := create_in "subnet" (Name (subnet_meta c));
  create_pool c := create_in "pool" (Name (pool_meta c));
  create_multus c := create_in "multus" (Name (smc_meta c));
  get_endpoints ns n := mret 1%nat
}.
Lemma create_in_has kind name s : (kind, name) ∈ (create_in kind name s).2.
Proof. unfold create_in. case_bool_decide; cbn; [done|by left]. Qed.
Lemma create_in_kept kind name o s : o ∈ s → o ∈ (create_in kind name s).2.
Proof. unfold create_in. case_bool_decide; cbn; [done|by right]. Qed.
#[export] Instance objects_laws : InitLaws objects.
Proof. refine {| has_object kind name s := (kind, name) ∈ s |}; intros; try apply create_in_has; try by apply create_in_kept. done. Defined.
#[export] Instance no_cni_files : CNIFiles := {| ConfFiles _ := Ret []; ConfListFromFile _ := Fail ErrUnknown; ConfFromFile _ := Fail ErrUnknown |}.

Definition demo_env (name : string) : string :=
  default ""%string (list_to_map (M := gmap string string)
    [("SPIDERPOOL_NAMESPACE", "kube-system"); ("SPIDERPOOL_CONTROLLER_NAME", "controller"); ("SPIDERPOOL_AGENT_NAME", "agent");
     ("SPIDERPOOL_INIT_DEFAULT_COORDINATOR_NAME", "default"); ("SPIDERPOOL_INIT_DEFAULT_COORDINATOR_TUNE_POD_ROUTES", "true");
     ("SPIDERPOOL_INIT_DEFAULT_COORDINATOR_HIJACK_CIDR", "[10.9.0.0/16,10.8.1.1]");
     ("SPIDERPOOL_INIT_DEFAULT_IPV4_IPPOOL_NAME", "default-v4"); ("SPIDERPOOL_INIT_DEFAULT_IPV4_IPPOOL_SUBNET", "10.6.0.0/16");
     ("SPIDERPOOL_INIT_DEFAULT_IPV4_IPPOOL_IPRANGES", "[10.6.0.10-10.6.0.20 10.6.0.30]"); ("SPIDERPOOL_INIT_ENABLE_MULTUS_CONFIG", "true")]%string !! name).
Definition demo_config : InitDefaultConfig :=
  MkInitConfig "kube-system" "controller" "agent" "default" "auto" "" "" 1500 true ["10.9.0.0/16"; "10.8.1.1/32"]%string []
    "" "default-v4" "10.6.0.0/16" ["10.6.0.10-10.6.0.20"; "10.6.0.30"]%string "" "" "" "" [] "" true "" "" "" "" "/etc/spiderpool/ready".
#[local] Instance no_routes_json : JSON (list Route) := {| json_marshal _ := ""%string; json_unmarshal _ := None |}.
Example demo_parsed : parseENVAsDefault demo_env (λ _, Ret ()) = Ret demo_config.
Proof. vm_compute. reflexivity. Qed.

Lemma init_creates_all_witness : let s' := (Execute (S := objects) 3 demo_config []).2 in
  has_object "coordinator" "default" s' ∧ has_object "pool" "default-v4" s'.
Proof.
  cbn zeta. set (s' := (Execute 3 demo_config ([] : objects)).2). assert (Execute 3 demo_config ([] : objects) = (Ret (), s')) as H by (vm_compute; reflexivity).
  destruct (init_creates_all 3 demo_config [] s' H) as (Hc & _ & Hp). split; [apply Hc|apply Hp]; [done|by left|done].
Defined.
