(* ===== verification/Clean.v ===== *)
(** * cmd/spiderpool-controller/cmd/clean.go: the end of an installation

    The command that Helm runs before it removes Spiderpool: it deletes the webhook configurations,
    the objects of Spiderpool (taking the finalizers of some kinds off first, since nobody will do
    so later), the resource definitions and the job of spiderpool-init.  Errors are collected, and
    what follows is done nevertheless. *)

From S2P Require Import Prelude K8s Retry WorkQueue IPPoolWebhook SubnetWebhook.
Local Open Scope Z_scope.
Local Open Scope go_scope.

(** The client, by kind, namespace and name; resource definitions with their group. *)
Class CleanClient (S : Type) := {
  list_objects : string → S → outcome (list ObjectMeta);
  get_object : string → string → string → S → outcome ObjectMeta;
  update_object : string → ObjectMeta → cmd S unit;
  delete_object : string → string → string → cmd S unit;
  list_crds : S → outcome (list (string * string))
}.

Definition MutatingWebhookConfiguration : string := "MutatingWebhookConfiguration".
Definition ValidatingWebhookConfiguration : string := "ValidatingWebhookConfiguration".
Definition SriovNetworkResourcesInjectorMutating : string := "network-resources-injector-config".
Definition SriovOperatorWebhookConfigMutatingOrValidate : string := "sriov-operator-webhook-config".
Definition SpiderpoolAPIGroup : string := "spiderpool.spidernet.io".
Definition SriovNetworkOperatorAPIGroup : string := "sriovnetwork.openshift.io".
Definition SriovNetworkOperatorConfigs : string := "sriovoperatorconfigs.sriovnetwork.openshift.io".
Definition KindSpiderIPPool : string := "SpiderIPPool".
Definition KindSpiderSubnet : string := "SpiderSubnet".
Definition KindSpiderEndpoint : string := "SpiderEndpoint".
Definition KindSpiderReservedIP : string := "SpiderReservedIP".
Definition KindSpiderMultusConfig : string := "SpiderMultusConfig".
Definition KindSpiderCoordinator : string := "SpiderCoordinator".

Section clean.
Context {S : Type} `{CC : CleanClient S}.
(** [retry.DefaultBackoff], and the end of the context between attempts. *)
Context (steps : nat) (cancelled : nat → bool).

(** An object that is not there is as good as deleted. *)
Definition ignore_missing (m : cmd S unit) : cmd S unit := λ s,
  match m s with (Fail e, s') => if not_found e then (Ret (), s') else (Fail e, s') | r => r end.

(** [multierror.Append]: the step is done, and its error kept. *)
Definition collect (m : cmd S unit) : cmd S (list error) := λ s,
  match m s with
  | (Ret _, s') => (Ret [], s')
  | (Fail e, s') => (Ret [e], s')
  | (Panic, s') => (Panic, s')
  | (OutOfFuel, s') => (OutOfFuel, s')
  end.
Fixpoint collect_all (ms : list (cmd S unit)) : cmd S (list error) :=
  match ms with [] => mret [] | m :: ms => es ← collect m; rest ← collect_all ms; mret (es ++ rest) end.
(** [jobResult.ErrorOrNil()] *)
Fixpoint join_errors (es : list error) : option error :=
  match es with [] => None | e :: es => Some match join_errors es with None => e | Some e' => ErrAppend e e' end end.
Definition error_or_nil (es : list error) : outcome unit := match join_errors es with None => Ret () | Some e => Fail e end.

Definition DeleteWebhookConfiguration (kind name : string) : cmd S unit :=
  _ ← read (get_object kind "" name);
  delete_object kind "" name.
Definition cleanWebhookResources (kind name : string) : cmd S unit := ignore_missing (DeleteWebhookConfiguration kind name).

(** One attempt to take the finalizers off. *)
Definition clear_finalizers (kind : string) (item : ObjectMeta) (i : nat) : cmd S unit := λ s,
  match get_object kind (Namespace item) (Name item) s with
  | Fail e => if not_found e then (Ret (), s) else (Fail e, s)
  | Panic => (Panic, s)
  | OutOfFuel => (OutOfFuel, s)
  | Ret copyItem =>
      if (length (Finalizers copyItem) =? 0)%nat then (Ret (), s)
      else ignore_missing (update_object kind (MkMeta (Name copyItem) (Namespace copyItem) (UID copyItem) (ResourceVersion copyItem)
             (Labels copyItem) (Annotations copyItem) [] (OwnerReferences copyItem) (DeletionTimestamp copyItem))) s
  end.
Definition cleanFinalizers (kind : string) : bool := existsb (λ k, kind == k) [KindSpiderIPPool; KindSpiderEndpoint; KindSpiderCoordinator].
Definition clean_item (kind : string) (item : ObjectMeta) : cmd S unit :=
  _ ← (if cleanFinalizers kind then RetryOnConflictWithContext cancelled steps (clear_finalizers kind item) else mret ());
  ignore_missing (delete_object kind (Namespace item) (Name item)).
Definition cleanSpiderpoolResources (kind : string) : cmd S unit := λ s,
  match list_objects kind s with
  | Fail e => if not_found e then (Ret (), s) else (Fail e, s)
  | Panic => (Panic, s)
  | OutOfFuel => (OutOfFuel, s)
  | Ret items => (errs ← collect_all (clean_item kind <$> items); lift (error_or_nil errs)) s
  end.

Definition cleanCRD (crd : string * string) : bool :=
  let '(name, group) := crd in
  if group == SpiderpoolAPIGroup then true
  else if group == SriovNetworkOperatorAPIGroup then (name != SriovNetworkOperatorConfigs) else false.
Definition cleanCRDs : cmd S unit := λ s,
  match list_crds s with
  | Fail e => if not_found e then (Ret (), s) else (Fail e, s)
  | Panic => (Panic, s)
  | OutOfFuel => (OutOfFuel, s)
  | Ret items =>
      (errs ← collect_all ((λ crd, ignore_missing (delete_object "CustomResourceDefinition" "" crd.1)) <$> List.filter cleanCRD items);
       lift (error_or_nil errs)) s
  end.

Definition cleanSpiderpoolInitJob (namespace name : string) : cmd S unit := λ s,
  match get_object "Job" namespace name s with
  | Fail e => if not_found e then (Ret (), s) else (Fail e, s)
  | Panic => (Panic, s)
  | OutOfFuel => (OutOfFuel, s)
  | Ret job => ignore_missing (delete_object "Job" (Namespace job) (Name job)) s
  end.

(** The namespace and the name of the job are from the environment, without quotes. *)
Definition clean (validate mutating jobNamespace jobName : string) : cmd S unit :=
  errs ← collect_all (
    [cleanWebhookResources MutatingWebhookConfiguration mutating;
     cleanWebhookResources MutatingWebhookConfiguration SriovNetworkResourcesInjectorMutating;
     cleanWebhookResources MutatingWebhookConfiguration SriovOperatorWebhookConfigMutatingOrValidate;
     cleanWebhookResources ValidatingWebhookConfiguration validate;
     cleanWebhookResources ValidatingWebhookConfiguration SriovOperatorWebhookConfigMutatingOrValidate;
     cleanSpiderpoolResources KindSpiderIPPool;
     cleanSpiderpoolResources KindSpiderSubnet;
     cleanSpiderpoolResources KindSpiderEndpoint;
     cleanSpiderpoolResources KindSpiderReservedIP;
     cleanSpiderpoolResources KindSpiderMultusConfig;
     cleanSpiderpoolResources KindSpiderCoordinator;
     cleanCRDs] ++
    (if (jobNamespace != EmptyString) && (jobName != EmptyString) then [cleanSpiderpoolInitJob jobNamespace jobName] else []));
  lift (error_or_nil errs).
End clean.

(** ** What is left *)

(** The server: an object with finalizers is marked by a deletion and goes with the last one. *)
Class CleanLaws (S : Type) `{CleanClient S} := {
  objects : S → string * string * string → option ObjectMeta;
  list_exact kind s items : list_objects kind s = Ret items → ∀ ns name, is_Some (objects s (kind, ns, name)) → ∃ m, m ∈ items ∧ Namespace m = ns ∧ Name m = name;
  list_missing kind s e : list_objects kind s = Fail e → not_found e = true → ∀ ns name, objects s (kind, ns, name) = None;
  get_found kind ns name s m : get_object kind ns name s = Ret m → objects s (kind, ns, name) = Some m ∧ Namespace m = ns ∧ Name m = name;
  get_missing kind ns name s e : get_object kind ns name s = Fail e → not_found e = true → objects s (kind, ns, name) = None;
  update_done kind m s s' : update_object kind m s = (Ret (), s') →
    (∀ k, k ≠ (kind, Namespace m, Name m) → objects s' k = objects s k) ∧
    ∀ m', objects s' (kind, Namespace m, Name m) = Some m' → Finalizers m' = Finalizers m;
  update_failed kind m s e s' : update_object kind m s = (Fail e, s') → objects s' = objects s ∧ (not_found e = true → objects s (kind, Namespace m, Name m) = None);
  delete_done kind ns name s s' : delete_object kind ns name s = (Ret (), s') →
    (∀ k, k ≠ (kind, ns, name) → objects s' k = objects s k) ∧
    (∀ m, objects s (kind, ns, name) = Some m → Finalizers m = [] → objects s' (kind, ns, name) = None) ∧
    (objects s (kind, ns, name) = None → objects s' (kind, ns, name) = None);
  delete_failed kind ns name s e s' : delete_object kind ns name s = (Fail e, s') → objects s' = objects s ∧ (not_found e = true → objects s (kind, ns, name) = None)
}.

Section facts.
Context {S : Type} `{CC : CleanClient S} `{CL : !CleanLaws S} (steps : nat) (cancelled : nat → bool).

(** Other objects stay as they are; those that are gone stay away. *)
Definition only (kind ns name : string) (s s' : S) : Prop := ∀ k, k ≠ (kind, ns, name) → objects s' k = objects s k.
(** No finalizer keeps the object. *)
Definition unguarded (kind ns name : string) (s : S) : Prop := ∀ m, objects s (kind, ns, name) = Some m → Finalizers m = [].

Lemma clear_finalizers_spec kind item i s o s' : clear_finalizers kind item i s = (o, s') → (o = Ret () ∨ ∃ e, o = Fail e) →
  only kind (Namespace item) (Name item) s s' ∧ (objects s (kind, Namespace item, Name item) = None → objects s' (kind, Namespace item, Name item) = None) ∧
  (o = Ret () → unguarded kind (Namespace item) (Name item) s').
Proof.
  unfold clear_finalizers. destruct (get_object kind (Namespace item) (Name item) s) as [m|e| |] eqn:Hg; [| |by intros [= <- <-] [?|[? ?]]..].
  - apply get_found in Hg as (Hm & Hns & Hn). destruct (Nat.eqb_spec (length (Finalizers m)) 0) as [Hl|Hl].
    + intros [= <- <-] _. split_and!; [done..|]. intros _ m'. rewrite Hm. intros [= <-]. by apply length_zero_iff_nil.
    + unfold ignore_missing. destruct (update_object kind _ s) as [[[]|e| |] s1] eqn:Hu; [| |by intros [= <- <-] [?|[? ?]]..]; rewrite <- Hns, <- Hn in *.
      * apply update_done in Hu as [H1 H2]. cbn in *. intros [= <- <-] _. split_and!; [done|congruence|]. intros _ m' Hm'. by apply H2.
      * apply update_failed in Hu as [H1 H2]. cbn in *. destruct (not_found e) eqn:He; intros [= <- <-] _; (split_and!; [by intros k _; rewrite H1|by rewrite H1|]); [|done].
        intros _ m'. rewrite H1, (H2 eq_refl). done.
  - destruct (not_found e) eqn:He; intros [= <- <-] _; (split_and!; [done..|]); [|done]. intros _ m'. by rewrite (get_missing _ _ _ _ _ Hg He).
Qed.
Lemma retry_clear_spec kind item s s' : RetryOnConflictWithContext cancelled steps (clear_finalizers kind item) s = (Ret (), s') →
  only kind (Namespace item) (Name item) s s' ∧ unguarded kind (Namespace item) (Name item) s'.
Proof.
  intros (j & sj & _ & Hat & [(? & _)|(Hf & _)])%OnError_inv; [done|].
  assert (only kind (Namespace item) (Name item) s sj) as Ho.
  { clear Hf. induction Hat as [|i s e s1 j s2 Hf He _ IH]; [done|]. apply clear_finalizers_spec in Hf as (H1 & _); [|right; by exists e]. intros k Hk. by rewrite IH, H1. }
  apply clear_finalizers_spec in Hf as (H1 & _ & H2); [|by left]. split; [|by apply H2]. intros k Hk. by rewrite H1, Ho.
Qed.
Lemma clean_item_spec kind item s s' : clean_item steps cancelled kind item s = (Ret (), s') →
  only kind (Namespace item) (Name item) s s' ∧ (cleanFinalizers kind = true → objects s' (kind, Namespace item, Name item) = None).
Proof.
  intros ([] & s1 & H1 & H2)%cmd_bind_Ret.
  assert (only kind (Namespace item) (Name item) s s1 ∧ (cleanFinalizers kind = true → unguarded kind (Namespace item) (Name item) s1)) as [Ho Hu].
  { destruct (cleanFinalizers kind); [apply retry_clear_spec in H1 as [? ?]; done|]. by injection H1 as <-. }
  unfold ignore_missing in H2. destruct (delete_object _ _ _ s1) as [[[]|e| |] s2] eqn:Hd; [| |done..].
  - injection H2 as <-. apply delete_done in Hd as (D1 & D2 & D3). split; [intros k Hk; by rewrite D1, Ho|]. intros Hc. specialize (Hu Hc).
    destruct (objects s1 (kind, Namespace item, Name item)) as [m|] eqn:Hm; [|by apply D3]. by eapply D2, Hu.
  - apply delete_failed in Hd as [D1 D2]. destruct (not_found e); [|done]. injection H2 as <-. split; [intros k Hk; by rewrite D1, Ho|]. intros _. rewrite D1. by apply D2.
Qed.

(** Without an error at the end there was none in any step. *)
Lemma error_or_nil_Ret es : error_or_nil es = Ret () → es = [].
Proof. by destruct es. Qed.

(** Cleaning a kind whose finalizers are taken off (pools, endpoints and coordinators), when it
    reports no error, has removed every object of the kind, whatever finalizers they had and however
    often the updates ran into conflicts, and has left the objects of other kinds alone. *)
Theorem clean_removes_all kind s s' : cleanFinalizers kind = true → cleanSpiderpoolResources steps cancelled kind s = (Ret (), s') →
  (∀ ns name, objects s' (kind, ns, name) = None) ∧ ∀ k ns name, k ≠ kind → objects s' (k, ns, name) = objects s (k, ns, name).
Proof.
  intros Hc. unfold cleanSpiderpoolResources. destruct (list_objects kind s) as [items|e| |] eqn:Hl; [| |done..].
  2:{ destruct (not_found e) eqn:He; [|done]. intros [= <-]. split; [|done]. by eapply list_missing. }
  intros (es & s1 & Hall & [->%error_or_nil_Ret ->]%lift_Ret)%cmd_bind_Ret.
  (* what is gone stays away; what is not in the rest of the list is gone *)
  assert (∀ items, collect_all (clean_item steps cancelled kind <$> items) s = (Ret [], s1) → (∀ ns name, is_Some (objects s (kind, ns, name)) → ∃ m, m ∈ items ∧ Namespace m = ns ∧ Name m = name) →
    (∀ ns name, objects s1 (kind, ns, name) = None) ∧ ∀ k ns name, k ≠ kind → objects s1 (k, ns, name) = objects s (k, ns, name)) as Hmain; [|by apply (Hmain items), list_exact].
  clear Hall Hl items. intros items. revert s. induction items as [|item items IH]; intros s; cbn [fmap list_fmap collect_all].
  - intros [= <-] Hin. split; [|done]. intros ns name. apply eq_None_not_Some. intros Hs. destruct (Hin ns name Hs) as (m & Hm & _). by apply elem_of_nil in Hm.
  - intros (es & s2 & He & (rest & s3 & Hr & [= Hnil <-])%cmd_bind_Ret)%cmd_bind_Ret Hin. apply app_eq_nil in Hnil as [-> ->].
    unfold collect in He. destruct (clean_item _ _ kind item s) as [[[]|e| |] s4] eqn:Hm; try done. injection He as <-.
    apply clean_item_spec in Hm as [Ho Hgone]. specialize (Hgone Hc). destruct (IH _ Hr) as [H1 H2].
    + intros ns name Hs. destruct (decide ((kind, ns, name) = (kind, Namespace item, Name item))) as [E|Hn]; [rewrite E, Hgone in Hs; by destruct Hs|].
      rewrite Ho in Hs by done. destruct (Hin ns name Hs) as (m & [->|Hm]%elem_of_cons & <- & <-); [done|by exists m].
    + split; [done|]. intros k ns name Hk. rewrite H2, Ho by congruence. done.
Qed.
End facts.

(** ** A server *)

Module Server.
(** The objects, by their keys. *)
Definition key : Type := string * string * string.
Definition store : Type := list (key * ObjectMeta).
Fixpoint find_key (k : key) (s : store) : option ObjectMeta :=
  match s with [] => None | (k', m) :: s => if k == k' then Some m else find_key k s end.
Definition delete_key (k : key) (s : store) : store := List.filter (λ '(k', _), k != k') s.
Definition set_key (k : key) (m : ObjectMeta) (s : store) : store := (k, m) :: delete_key k s.

Lemma find_delete_eq k s : find_key k (delete_key k s) = None.
Proof. induction s as [|[k' m] s IH]; [done|]. cbn. destruct (decide (k = k')) as [<-|Hn]; [by rewrite bool_decide_true|]. rewrite bool_decide_false by done. cbn. by rewrite bool_decide_false. Qed.
Lemma find_delete_ne k k' s : k' ≠ k → find_key k' (delete_key k s) = find_key k' s.
Proof.
  intros Hn. induction s as [|[k1 m] s IH]; [done|]. cbn. destruct (decide (k = k1)) as [<-|Hk].
  - rewrite (bool_decide_true (k = k)), (bool_decide_false (k' = k)) by done. exact IH.
  - rewrite (bool_decide_false (k = k1)) by done. cbn. case_bool_decide; [done|exact IH].
Qed.
Lemma find_set_eq k m s : find_key k (set_key k m s) = Some m.
Proof. cbn. by rewrite bool_decide_true. Qed.
Lemma find_set_ne k k' m s : k' ≠ k → find_key k' (set_key k m s) = find_key k' s.
Proof. intros Hn. cbn. rewrite bool_decide_false by done. by apply find_delete_ne. Qed.
Lemma find_key_In k m s : find_key k s = Some m → In (k, m) s.
Proof. induction s as [|[k' m'] s IH]; [done|]. cbn. case_bool_decide; [intros [= ->]; left; congruence|right; auto]. Qed.

Definition mark (m : ObjectMeta) : ObjectMeta :=
  MkMeta (Name m) (Namespace m) (UID m) (ResourceVersion m) (Labels m) (Annotations m) (Finalizers m) (OwnerReferences m) (Some (default 0 (DeletionTimestamp m))).
(** The key of an object carries its name. *)
Definition rename (k : key) (m : ObjectMeta) : ObjectMeta :=
  MkMeta k.2 k.1.2 (UID m) (ResourceVersion m) (Labels m) (Annotations m) (Finalizers m) (OwnerReferences m) (DeletionTimestamp m).
#[export] Instance store_client : CleanClient store := {
  list_objects kind s := Ret ((λ '(k, m), rename k m) <$> List.filter (λ '(k, m), k.1.1 == kind) s);
  get_object kind ns name s := match find_key (kind, ns, name) s with Some m => Ret (rename (kind, ns, name) m) | None => Fail APINotFound end;
  update_object kind m s :=
    let k := (kind, Namespace m, Name m) in
    match find_key k s with
    | None => (Fail APINotFound, s)
    | Some _ => (Ret (), if (DeletionTimestamp m != None) && (Finalizers m == []) then delete_key k s else set_key k m s)
    end;
  delete_object kind ns name s :=
    let k := (kind, ns, name) in
    match find_key k s with
    | None => (Fail APINotFound, s)
    | Some m => (Ret (), if Finalizers m == [] then delete_key k s else set_key k (mark m) s)
    end;
  list_crds s := Ret []
}.
#[local] Arguments set_key : simpl never.
#[export] Instance store_laws : CleanLaws store.
Proof.
  refine {| objects s k := rename k <$> find_key k s |}.
  - intros kind s items [= <-] ns name [m Hm]. destruct (find_key (kind, ns, name) s) as [m0|] eqn:E; [|done].
    exists (rename (kind, ns, name) m0). split; [|done]. apply list_elem_of_fmap. exists ((kind, ns, name), m0). split; [done|].
    apply list_elem_of_In, filter_In. split; [by apply find_key_In|]. cbn. by apply bool_decide_eq_true.
  - intros kind s e [=].
  - intros kind ns name s m. cbn. destruct (find_key _ s); [|done]. by intros [= <-].
  - intros kind ns name s e. cbn. by destruct (find_key _ s).
  - intros kind m s s'. cbn. destruct (find_key _ s) as [m0|] eqn:E; [|done]. intros [= <-].
    split; [intros k Hk|intros m']; destruct (_ && _).
    + by rewrite find_delete_ne. + by rewrite find_set_ne. + by rewrite find_delete_eq. + rewrite find_set_eq. by intros [= <-].
  - intros kind m s e s'. cbn. destruct (find_key _ s) eqn:E; [done|]. intros [= <- <-]. split; [done|]. intros _. by destruct (find_key _ s).
  - intros kind ns name s s'. cbn. destruct (find_key _ s) as [m0|] eqn:E; [|done]. intros [= <-].
    split_and!; [intros k Hk|intros m|done].
    + case_bool_decide; [by rewrite find_delete_ne|by rewrite find_set_ne].
    + intros [= <-] Hf. cbn in Hf. rewrite bool_decide_true by done. by rewrite find_delete_eq.
  - intros kind ns name s e s'. cbn. destruct (find_key _ s) eqn:E; [done|]. intros [= <- <-]. split; [done|]. intros _. by destruct (find_key _ s).
Defined.
End Server.
Import Server.

Definition guarded_object (name : string) : ObjectMeta := MkMeta name "" "" 0 ∅ ∅ [SpiderFinalizer] [] None.
Definition demo_store : store := 
  [((KindSpiderIPPool, "", "p1")%string, guarded_object "p1"); ((KindSpiderSubnet, "", "s1")%string, guarded_object "s1")].

Lemma clean_removes_all_witness :
  is_Some (objects demo_store (KindSpiderIPPool, "", "p1")%string) ∧
  let s' := (cleanSpiderpoolResources 3 (λ _, false) KindSpiderIPPool demo_store).2 in
  (∀ ns name, objects s' (KindSpiderIPPool, ns, name) = None) ∧
  ∀ k ns name, k ≠ KindSpiderIPPool → objects s' (k, ns, name) = objects demo_store (k, ns, name).
Proof.
  split; [eexists; vm_compute; reflexivity|]. cbn zeta.
  apply (clean_removes_all 3 (λ _, false) KindSpiderIPPool demo_store _ eq_refl). vm_compute; reflexivity.
Defined.

(** A subnet, which has the finalizer from the webhook as a pool has, is only marked: its finalizer
    is not taken off, although no error is reported. *)
Theorem subnet_survives_clean :
  let r := cleanSpiderpoolResources 3 (λ _, false) KindSpiderSubnet demo_store in
  r.1 = Ret () ∧ find_key (KindSpiderSubnet, "", "s1")%string r.2 = Some (mark (guarded_object "s1")).
Proof. split; vm_compute; reflexivity. Qed.
