(* ===== verification/SubnetSelection.v ===== *)
(** * pkg/ipam/pool_selections.go: the pools of an application for its Pods

    The rule for Pods with a subnet annotation: [getPoolFromSubnetAnno] looks for the pool that the
    controller has created for the application of the Pod, and waits for it ([findAppAutoPool]), or
    creates and resizes the pool itself for controllers that are not built in
    ([applyThirdControllerAutoPool]).  With [getAutoPoolIPNumber] and [isPoolIPsDesired] of
    pkg/ipam/utils.go. *)

From S2P Require Import Prelude NetIP NetIPFacts IPAddr Cidr IPRange K8s Retry WorkQueue ReservedIP Convert IPPoolManager PoolLease PoolUtils IPPoolWebhook Workload AppUtils SubnetWebhook SubnetManager AppController Endpoint IPAMRelease Selector PoolSelection IPAMAllocate.
Local Open Scope Z_scope.
Local Open Scope go_scope.

(** ** utils.go: the number of addresses *)

Section number.
(** [podController.APP]: the application itself, [None] for nil. *)
Context (app_of : PodTopController → option application).

(** The type assertion by the kind panics on another type and on nil. *)
Definition asserted_replicas (podController : PodTopController) : outcome Z :=
  app ← deref (app_of podController);
  if app_kind app == app_Kind (top_app podController) then Ret (app_replicas app) else Panic.

(** [None] for a third-party controller. *)
Definition controller_replicas (podController : PodTopController) : outcome (option Z) :=
  if bool_decide (app_APIVersion (top_app podController) ∈ K8sAPIVersions) && bool_decide (app_Kind (top_app podController) ∈ AppKinds)
  then replicas ← asserted_replicas podController; Ret (Some replicas) else Ret None.

Definition getAutoPoolIPNumber (anno : gmap string string) (podController : PodTopController) : outcome Z :=
  if bool_decide (app_APIVersion (top_app podController) ∈ K8sAPIVersions) && (app_Kind (top_app podController) == KindPod) then Ret 1
  else
    replicas ← controller_replicas podController;
    match anno !! AnnoSpiderSubnetPoolIPNumber with
    | Some poolIPNumStr =>
        '(isFlexible, ipNum) ← GetPoolIPNumber poolIPNumStr;
        if ipNum <? 0 then Fail (ErrOther "value must equal or greater than 0")
        else if negb isFlexible then Ret ipNum
        else Ret (int64 (default 0 replicas + ipNum))
    | None =>
        match replicas with
        | None => Fail (ErrOther "only supports fixed auto-created IPPool IP Number")
        | Some replicas => Ret (int64 (replicas + 0))
        end
    end.
End number.

Definition isPoolIPsDesired (pool : SpiderIPPool) (desiredIPCount : Z) : outcome bool :=
  version ← deref (ps_IPVersion (pool_spec pool));
  ignore_err false (totalIPs ← AssembleTotalIPs version (ps_IPs (pool_spec pool)) (ps_ExcludeIPs (pool_spec pool));
                    Ret (Z.of_nat (length totalIPs) =? desiredIPCount)).

(** ** pool_selections.go *)

(** The subnets for an interface: those of another interface are not looked at, and an interface
    that is not listed has none. *)
Definition item_of (c : PodSubnetAnnoConfig) (nic : string) : outcome AnnoSubnetItem :=
  match MultipleSubnets c, SingleSubnet c with
  | _ :: _, _ => Ret (from_option snd (MkSubnetItem "" [] []) (list_find (λ item, si_Interface item = nic) (MultipleSubnets c)))
  | [], Some item => Ret item
  | [], None => Fail (ErrOther "there are no subnet specified")
  end.

(** The families that are enabled and have a subnet, with their first subnet. *)
Definition family_of (enabled : bool) (v : Z) (subnets : list string) : list (Z * string) :=
  match subnets with subnet :: _ => if enabled then [(v, subnet)] else [] | [] => [] end.
Definition families_of (config : IPAMConfig) (item : AnnoSubnetItem) : list (Z * string) :=
  family_of (cfg_EnableIPv4 config) IPv4 (si_IPv4 item) ++ family_of (cfg_EnableIPv6 config) IPv6 (si_IPv6 item).

(** The labels of the pool of an application, an interface and a family. *)
Definition own_labels (subnetName : string) (podController : PodTopController) (ipVersion : Z) (ifName : string) : gmap string string :=
  <[LabelIPPoolOwnerApplicationUID := top_UID podController]> (match_labels subnetName podController ipVersion ifName).

(** The candidate of a family. *)
Definition candidate_of (version : Z) (pool : SpiderIPPool) : PoolCandidate :=
  MkCandidate version [Name (pool_meta pool)] {[Name (pool_meta pool) := pool]}.

Section selection.
Context `{MR : MapRange} `{J : JSON PoolIPAllocations} `{J' : JSON PoolIPPreAllocations} `{SCH : Schedule}.
Context {W : Type} `{KS : KubeStore W SpiderSubnet}.
Context (config : IPAMConfig).
Context (json_items : string → option (list AnnoSubnetItem)) (json_item : string → option (option AnnoSubnetItem)) (redundant : Z).
(** The arguments of [ReconcileAutoIPPool]. *)
Context (rIPs : list SpiderReservedIP) (env : W → W) (create_pool update_pool : SpiderIPPool → cmd W SpiderIPPool).
(** The cached list of pools by labels, the application of a controller, and what happens during
    [time.Sleep]. *)
Context (list_pools : gmap string string → W → outcome (list SpiderIPPool)) (app_of : PodTopController → option application) (pause : W → W).

(** The pool of the last attempt is kept when its addresses are not the desired ones. *)
Fixpoint find_loop (tries : nat) (labels : gmap string string) (desiredIPNumber : Z) (pool : option SpiderIPPool) : cmd W (option SpiderIPPool) :=
  match tries with
  | O => mret pool
  | S tries =>
      pools ← read (list_pools labels);
      match pools with
      | [] => _ ← meanwhile pause; find_loop tries labels desiredIPNumber pool
      | [p] =>
          desired ← lift (isPoolIPsDesired p desiredIPNumber);
          if desired : bool then mret (Some p)
          else _ ← meanwhile pause; find_loop tries labels desiredIPNumber (Some p)
      | _ => lift (Fail (ErrOther "multiple IPPools for one specify application"))
      end
  end.

Definition no_pool {A} : outcome A := Fail (ErrOther "no matching auto-created IPPool candidate").
Definition some_pool (pool : option SpiderIPPool) : outcome SpiderIPPool := match pool with Some p => Ret p | None => no_pool end.

Definition findAppAutoPool (subnetName ifName : string) (ipVersion desiredIPNumber : Z) (podController : PodTopController) : cmd W SpiderIPPool :=
  pool ← find_loop (OperationRetries config) (own_labels subnetName podController ipVersion ifName) desiredIPNumber None;
  lift (some_pool pool).

(** After a failed reconciliation there is no pool. *)
Fixpoint apply_loop (tries : nat) (subnetName : string) (podController : PodTopController) (prop : AutoPoolProperty) : cmd W (option SpiderIPPool) :=
  match tries with
  | O => mret None
  | S tries =>
      pools ← read (list_pools (match_labels subnetName podController (ap_IPVersion prop) (IfName prop)));
      ((λ s, match ReconcileAutoIPPool rIPs env create_pool update_pool (find_pool (top_UID podController) pools) subnetName podController prop s with
           | (Ret pool, s') => (Ret (Some pool), s')
           | (Fail e, s') => (if conflict e || already_exists e then _ ← meanwhile pause; apply_loop tries subnetName podController prop
                              else lift (Fail e)) s'
           | (Panic, s') => (Panic, s')
           | (OutOfFuel, s') => (OutOfFuel, s')
           end) : cmd W (option SpiderIPPool))
  end.
Definition applyThirdControllerAutoPool (subnetName : string) (podController : PodTopController) (prop : AutoPoolProperty) : cmd W SpiderIPPool :=
  pool ← apply_loop (OperationRetries config) subnetName podController prop;
  lift (some_pool pool).

(** What one goroutine does. *)
Definition family_pool (c : PodSubnetAnnoConfig) (nic : string) (podController : PodTopController) (poolIPNum : Z) (v : Z) (subnetName : string) : cmd W SpiderIPPool :=
  if IsThirdController (top_app podController)
  then applyThirdControllerAutoPool subnetName podController (MkAutoPoolProperty poolIPNum v (ReclaimIPPool c) nic (itoa poolIPNum))
  else findAppAutoPool subnetName nic v poolIPNum podController.

(** Both goroutines run to their end. *)
Fixpoint run_pools (tasks : list (Z * cmd W SpiderIPPool)) : cmd W (list (Z * SpiderIPPool) * list (Z * error)) :=
  match tasks with
  | [] => mret ([], [])
  | (v, m) :: tasks => λ s,
      match m s with
      | (Ret p, s') => ('(pools, errs) ← run_pools tasks; mret ((v, p) :: pools, errs)) s'
      | (Fail e, s') => ('(pools, errs) ← run_pools tasks; mret (pools, (v, e) :: errs)) s'
      | (Panic, s') => (Panic, s')
      | (OutOfFuel, s') => (OutOfFuel, s')
      end
  end.

Definition of_version {A} (v : Z) (l : list (Z * A)) : option A := (λ x, x.2.2) <$> list_find (λ x, x.1 = v) l.
(** [multierr.Append(errV4, errV6)] *)
Definition append_errors (errs : list (Z * error)) : option error :=
  match of_version IPv4 errs, of_version IPv6 errs with
  | None, e | e, None => e
  | Some e4, Some e6 => Some (ErrAppend e4 e6)
  end.
Definition version_candidate (v : Z) (pools : list (Z * SpiderIPPool)) : list PoolCandidate := candidate_of v <$> option_list (of_version v pools).

Definition getPoolFromSubnetAnno (pod : Pod) (nic : string) (cleanGateway : bool) (podController : PodTopController) : cmd W (option ToBeAllocated) :=
  subnetAnnoConfig ← lift (GetSubnetAnnoConfig json_items json_item redundant (Annotations (pod_meta pod)));
  match subnetAnnoConfig with
  | None => mret None
  | Some c =>
      if (app_APIVersion (top_app podController) == CoreGroupVersion) && (app_Kind (top_app podController) == KindPod)
      then lift (Fail (ErrOther "SpiderSubnet feature doesn't support no-controller pod"))
      else
        subnetItem ← lift (item_of c nic);
        poolIPNum ← lift (getAutoPoolIPNumber app_of (Annotations (pod_meta pod)) podController);
        '(pools, errs) ← run_pools ((λ '(v, subnetName), (v, family_pool c nic podController poolIPNum v subnetName)) <$> reorder (families_of config subnetItem));
        match append_errors errs with
        | Some e => lift (Fail e)
        | None => mret (Some (MkToBeAllocated nic cleanGateway (version_candidate IPv4 pools ++ version_candidate IPv6 pools)))
        end
  end.
End selection.

(** ** Whose pools are chosen *)

(** Two different labels. *)
Ltac labels_differ := apply (bool_decide_unpack _); vm_compute; exact I.

Section own_pools.
Context `{MR : MapRange} `{J : JSON PoolIPAllocations} `{J' : JSON PoolIPPreAllocations} `{SCH : Schedule}.
Context {W : Type} `{KS : KubeStore W SpiderSubnet}.
Context (config : IPAMConfig).
Context (json_items : string → option (list AnnoSubnetItem)) (json_item : string → option (option AnnoSubnetItem)) (redundant : Z).
Context (rIPs : list SpiderReservedIP) (env : W → W) (create_pool update_pool : SpiderIPPool → cmd W SpiderIPPool).
Context (list_pools : gmap string string → W → outcome (list SpiderIPPool)) (app_of : PodTopController → option application) (pause : W → W).

Lemma match_labels_none k top v i l : l ∉ [LabelIPPoolOwnerSpiderSubnet; LabelIPPoolOwnerApplicationGV; LabelIPPoolOwnerApplicationKind;
    LabelIPPoolOwnerApplicationNamespace; LabelIPPoolOwnerApplicationName; LabelIPPoolIPVersion; LabelIPPoolInterface] →
  match_labels k top v i !! l = None.
Proof. intros Hl. unfold match_labels. cbv zeta. rewrite !lookup_insert_ne by set_solver. apply lookup_singleton_ne. set_solver. Qed.

Lemma new_auto_pool_labels s top prop p : new_auto_pool s top prop = Ret p →
  own_labels (Name (subnet_meta s)) top (ap_IPVersion prop) (IfName prop) ⊆ Labels (pool_meta p).
Proof.
  unfold new_auto_pool. intros (name & _ & (cidr & _ & (m & Hm & [= <-])%bind_Ret)%bind_Ret)%bind_Ret. cbn [pool_meta].
  assert (Labels (AddFinalizer m SpiderFinalizer) = Labels m) as -> by (unfold AddFinalizer; by destruct (ContainsFinalizer _ _)).
  apply SetControllerReference_meta in Hm as [refs ->]. cbn [Labels set_Labels set_OwnerReferences].
  apply insert_subseteq_r.
  { unfold own_labels. rewrite lookup_insert_ne by labels_differ. apply match_labels_none. labels_differ. }
  unfold own_labels, match_labels. cbv zeta.
  repeat (apply insert_subseteq_l; [repeat first [apply lookup_insert_eq | rewrite lookup_insert_ne by labels_differ | apply lookup_singleton_eq]|]).
  apply map_empty_subseteq.
Qed.

Lemma refresh_pool_labels s pool top prop r k v i : top_UID top ≠ ""%string → match_labels k top v i ⊆ Labels (pool_meta pool) →
  refresh_pool s pool top prop = Ret r → own_labels k top v i ⊆ Labels (pool_meta (match r with inl p | inr p => p end)).
Proof.
  intros Hu Hm. unfold refresh_pool. case_match; [done|]. intros (ips & _ & Hr)%bind_Ret. destruct (_ && _) eqn:Eb.
  - injection Hr as <-. apply andb_true_iff in Eb as [[_ E]%andb_true_iff _]. apply bool_decide_eq_true in E.
    apply insert_subseteq_l; [|done]. destruct (Labels (pool_meta pool) !! LabelIPPoolOwnerApplicationUID); cbn in E; congruence.
  - destruct (Labels (pool_meta pool) == ∅); [done|]. injection Hr as <-. cbn. apply insert_subseteq_r; [|by apply insert_mono].
    unfold own_labels. rewrite lookup_insert_ne by labels_differ. apply match_labels_none. labels_differ.
Qed.

Lemma apply_pool_labels write s pool top prop st p st' : (∀ p st q st', write p st = (Ret q, st') → answered p q) →
  apply_pool rIPs env write s pool top prop st = (Ret p, st') → Labels (pool_meta pool) ⊆ Labels (pool_meta p).
Proof. unfold apply_pool. intros Hw (ips & s1 & _ & (_ & _ & Hl)%Hw)%cmd_bind_Ret. exact Hl. Qed.

(** The server finds a subnet by its name. *)
Context (named : ∀ st k s, api_get st k = Ret s → Name (subnet_meta s) = k).
Context (create_answer : ∀ p st q st', create_pool p st = (Ret q, st') → answered p q).
Context (update_answer : ∀ p st q st', update_pool p st = (Ret q, st') → answered p q).
(** The cache lists the pools with the labels. *)
Context (listed_labels : ∀ labels st l, list_pools labels st = Ret l → Forall (λ p, labels ⊆ Labels (pool_meta p)) l).

Lemma Reconcile_labels found k top prop st p st' : top_UID top ≠ ""%string →
  (∀ q, found = Some q → match_labels k top (ap_IPVersion prop) (IfName prop) ⊆ Labels (pool_meta q)) →
  ReconcileAutoIPPool rIPs env create_pool update_pool found k top prop st = (Ret p, st') →
  own_labels k top (ap_IPVersion prop) (IfName prop) ⊆ Labels (pool_meta p).
Proof.
  intros Hu Hf. unfold ReconcileAutoIPPool. case_match; [done|]. case_match; [done|].
  intros (s & s1 & [Hs _]%read_Ret & Hr)%cmd_bind_Ret. case_match; [done|]. destruct found as [q|].
  - apply cmd_bind_Ret in Hr as (r & s2 & [Hq ->]%lift_Ret & Hr). apply refresh_pool_labels with (k := k) (v := ap_IPVersion prop) (i := IfName prop) in Hq; [|done|by apply Hf].
    destruct r as [q'|q']; [by injection Hr as <- <-|]. apply apply_pool_labels in Hr; [by etrans|done].
  - apply cmd_bind_Ret in Hr as (q & s2 & [Hq ->]%lift_Ret & Hr). apply new_auto_pool_labels in Hq. apply apply_pool_labels in Hr; [|done].
    rewrite (named _ _ _ Hs) in Hq. by etrans.
Qed.

Lemma find_pool_elem uid l p : find_pool uid l = Some p → p ∈ l.
Proof. induction l as [|q l IH]; [done|]. cbn. destruct (reusable uid q); [intros [= <-]; left|right; auto]. Qed.

Lemma apply_loop_labels tries k top prop st p st' : top_UID top ≠ ""%string →
  apply_loop rIPs env create_pool update_pool list_pools pause tries k top prop st = (Ret (Some p), st') →
  own_labels k top (ap_IPVersion prop) (IfName prop) ⊆ Labels (pool_meta p).
Proof.
  intros Hu. revert st. induction tries as [|tries IH]; intros st; [done|]. cbn [apply_loop].
  intros (l & s1 & [Hl ->]%read_Ret & H)%cmd_bind_Ret. destruct (ReconcileAutoIPPool _ _ _ _ _ _ _ _ _) as [[q|e| |] s2] eqn:E; [| |done..].
  - injection H as <- <-. eapply Reconcile_labels; [done| |exact E]. intros q' Hq%find_pool_elem. apply listed_labels in Hl. rewrite Forall_forall in Hl. by apply Hl.
  - destruct (_ || _); [|done]. apply cmd_bind_Ret in H as ([] & s3 & _ & H). by eapply IH.
Qed.

Lemma find_loop_labels tries labels n pool st p st' : (∀ q, pool = Some q → labels ⊆ Labels (pool_meta q)) →
  find_loop list_pools pause tries labels n pool st = (Ret (Some p), st') → labels ⊆ Labels (pool_meta p).
Proof.
  revert pool st. induction tries as [|tries IH]; intros pool st Hp; cbn [find_loop]; [intros [= ? _]; by apply Hp|].
  intros (l & s1 & [Hl%listed_labels ->]%read_Ret & H)%cmd_bind_Ret. destruct l as [|q [|? ?]]; [..|done].
  - apply cmd_bind_Ret in H as ([] & s2 & _ & H). by apply IH in H.
  - rewrite Forall_singleton in Hl. apply cmd_bind_Ret in H as (b & s2 & _ & H). destruct b; [injection H as <- <-; exact Hl|].
    apply cmd_bind_Ret in H as ([] & s3 & _ & H). eapply IH; [|exact H]. by intros ? [= <-].
Qed.

Lemma family_pool_labels c nic top n v k st p st' : top_UID top ≠ ""%string →
  family_pool config rIPs env create_pool update_pool list_pools pause c nic top n v k st = (Ret p, st') → own_labels k top v nic ⊆ Labels (pool_meta p).
Proof.
  intros Hu. unfold family_pool, applyThirdControllerAutoPool, findAppAutoPool.
  destruct (IsThirdController _); intros (o & s1 & H & [Ho _]%lift_Ret)%cmd_bind_Ret; (destruct o as [q|]; [|discriminate Ho]); injection Ho as <-.
  - by apply apply_loop_labels in H.
  - by apply find_loop_labels in H.
Qed.

(** What the goroutines leave: a pool or an error for every task. *)
Lemma run_pools_spec (P : Z → SpiderIPPool → Prop) tasks st pools errs st' :
  (∀ v (m : cmd W SpiderIPPool) s p s', (v, m) ∈ tasks → m s = (Ret p, s') → P v p) → run_pools (W := W) tasks st = (Ret (pools, errs), st') →
  Forall (λ x, P x.1 x.2) pools ∧ pools.*1 ++ errs.*1 ≡ₚ tasks.*1.
Proof.
  revert st pools errs st'. induction tasks as [|[v m] tasks IH]; intros st pools errs st' HP; cbn [run_pools]; [by intros [= <- <- _]|].
  destruct (m st) as [[p|e| |] s1] eqn:E; [| |done..]; intros ([ps es] & s2 & Hr & H)%cmd_bind_Ret; injection H as <- <- _;
    apply IH in Hr as [Hps Hperm]; try (intros; eapply HP; [by apply list_elem_of_further|done]).
  - split; [constructor; [|done]; by eapply HP, E; apply list_elem_of_here|]. cbn. by rewrite Hperm.
  - split; [done|]. cbn. by rewrite <- Permutation_middle, Hperm.
Qed.

Lemma of_version_Some {A} v (l : list (Z * A)) a : of_version v l = Some a → (v, a) ∈ l.
Proof. unfold of_version. intros ([i [v' a']] & (Hi & <- & _)%list_find_Some & ->)%fmap_Some. cbn. by eapply list_elem_of_lookup_2. Qed.
Lemma of_version_None {A} v (l : list (Z * A)) : of_version v l = None → v ∉ l.*1.
Proof.
  unfold of_version. rewrite fmap_None, list_find_None. intros Hf ([v' a] & -> & Hin)%list_elem_of_fmap. rewrite Forall_forall in Hf. by apply (Hf _ Hin).
Qed.

Lemma family_of_elem enabled v subnets x : x ∈ family_of enabled v subnets → x.1 = v.
Proof. unfold family_of. repeat case_match; intros Hx; try (by apply elem_of_nil in Hx). by apply list_elem_of_singleton in Hx as ->. Qed.
Lemma family_of_one enabled v subnets : family_of enabled v subnets = [] ∨ ∃ k, family_of enabled v subnets = [(v, k)].
Proof. unfold family_of. repeat case_match; eauto. Qed.
Lemma families_versions item v : v ∈ (families_of config item).*1 → v = IPv4 ∨ v = IPv6.
Proof. intros (x & -> & [Hin|Hin]%elem_of_app)%list_elem_of_fmap; apply family_of_elem in Hin; auto. Qed.
Lemma append_errors_None errs : (∀ v, v ∈ errs.*1 → v = IPv4 ∨ v = IPv6) → append_errors errs = None → errs = [].
Proof.
  intros Hv. unfold append_errors. destruct (of_version IPv4 errs) eqn:E4; [by destruct (of_version IPv6 errs)|]. intros E6.
  apply of_version_None in E4, E6. destruct errs as [|[v e] errs]; [done|]. destruct (Hv v) as [->| ->]; [apply list_elem_of_here|..];
    exfalso; [apply E4|apply E6]; apply list_elem_of_here.
Qed.

(** A family with its subnet has the candidate of a pool of its own. *)
Definition own_candidate (nic : string) (top : PodTopController) (pc : PoolCandidate) (family : Z * string) : Prop :=
  ∃ p, pc = candidate_of family.1 p ∧ own_labels family.2 top family.1 nic ⊆ Labels (pool_meta p).

(** The part of one version. *)
Lemma version_candidate_own nic top item pools enabled v subnets :
  pools.*1 ≡ₚ (families_of config item).*1 → (∀ x, x ∈ families_of config item → x.1 = v → x ∈ family_of enabled v subnets) →
  (∀ x, x ∈ family_of enabled v subnets → x ∈ families_of config item) →
  Forall (λ x, ∃ k, (x.1, k) ∈ families_of config item ∧ own_labels k top x.1 nic ⊆ Labels (pool_meta x.2)) pools →
  Forall2 (own_candidate nic top) (version_candidate v pools) (family_of enabled v subnets).
Proof.
  intros Hperm Hin Hsub Hall. rewrite Forall_forall in Hall. unfold version_candidate. destruct (of_version v pools) as [p|] eqn:E; cbn.
  - apply of_version_Some in E. destruct (Hall _ E) as (k & Hk & Hl). pose proof (Hin _ Hk eq_refl) as Hf.
    destruct (family_of_one enabled v subnets) as [E'|[k' E']]; rewrite E' in Hf |- *; [exfalso; exact (not_elem_of_nil _ Hf)|].
    apply list_elem_of_singleton in Hf as [= ->]. constructor; [|constructor]. exists p. split; [reflexivity|exact Hl].
  - apply of_version_None in E. destruct (family_of_one enabled v subnets) as [->|[k E']]; [constructor|]. exfalso. apply E. rewrite Hperm.
    apply list_elem_of_fmap. exists (v, k). split; [done|]. apply Hsub. rewrite E'. apply list_elem_of_here.
Qed.

(** C11: a Pod with a subnet annotation gets its candidates from the pools of its own application
    only.  When [getPoolFromSubnetAnno] succeeds, it has for every enabled family for which the
    annotation names a subnet for the interface, IPv4 first, one candidate with one pool, and the
    labels of the pool are those of that subnet, of the application of the Pod with its UID, of the
    family and of the interface - whether the pool was found, reused or created, and in any order of
    the goroutines. *)
Theorem subnet_candidates_own pod nic clean top st t st' : top_UID top ≠ ""%string →
  getPoolFromSubnetAnno config json_items json_item redundant rIPs env create_pool update_pool list_pools app_of pause pod nic clean top st = (Ret (Some t), st') →
  t_NIC t = nic ∧ t_CleanGateway t = clean ∧
  ∃ c item, GetSubnetAnnoConfig json_items json_item redundant (Annotations (pod_meta pod)) = Ret (Some c) ∧ item_of c nic = Ret item ∧
    Forall2 (own_candidate nic top) (PoolCandidates t) (families_of config item).
Proof.
  intros Hu. unfold getPoolFromSubnetAnno. intros ([c|] & s1 & [Hc ->]%lift_Ret & H)%cmd_bind_Ret; [|done]. case_match; [done|].
  apply cmd_bind_Ret in H as (item & s2 & [Hi ->]%lift_Ret & H). apply cmd_bind_Ret in H as (n & s3 & _ & H).
  apply cmd_bind_Ret in H as ([pools errs] & s4 & Hr & H). set (fams := families_of config item) in *.
  apply (run_pools_spec (λ v p, ∃ k, (v, k) ∈ fams ∧ own_labels k top v nic ⊆ Labels (pool_meta p))) in Hr as [Hall Hperm].
  2:{ intros v m s p s' ([v' k] & [= -> ->] & Hin)%list_elem_of_fmap Hm. rewrite reorder_perm in Hin. exists k. split; [done|]. by eapply family_pool_labels. }
  assert (pools.*1 ++ errs.*1 ≡ₚ fams.*1) as Hp.
  { rewrite Hperm, <- list_fmap_compose, (list_fmap_ext _ fst); [by rewrite (fmap_Permutation _ _ _ (reorder_perm fams))|]. by intros ? [? ?] ?. }
  destruct (append_errors errs) eqn:Ee; [done|]. apply append_errors_None in Ee as ->.
  2:{ intros v Hv. apply (families_versions item). change (v ∈ fams.*1). rewrite <- Hp. set_solver. }
  rewrite app_nil_r in Hp. injection H as <- _. split_and!; [done..|]. exists c, item. split_and!; [done..|]. cbn [PoolCandidates].
  apply Forall2_app; (eapply version_candidate_own; [exact Hp|..|exact Hall]); unfold families_of;
    intros x; rewrite elem_of_app; try tauto; intros [Hx|Hx] Ev; try done; apply family_of_elem in Hx; rewrite Hx in Ev; discriminate Ev.
Qed.
End own_pools.

(** ** What the selection changes *)

Section evolution.
Context `{MR : MapRange} `{J : JSON PoolIPAllocations} `{J' : JSON PoolIPPreAllocations} `{SCH : Schedule}.
Context {W : Type} `{KS : KubeStore W SpiderSubnet}.
Context (config : IPAMConfig).
Context (json_items : string → option (list AnnoSubnetItem)) (json_item : string → option (option AnnoSubnetItem)) (redundant : Z).
Context (rIPs : list SpiderReservedIP) (env : W → W) (create_pool update_pool : SpiderIPPool → cmd W SpiderIPPool).
Context (list_pools : gmap string string → W → outcome (list SpiderIPPool)) (app_of : PodTopController → option application) (pause : W → W).
(** What each write does, and others do meanwhile, is within [R]. *)
Context (R : W → W → Prop) `{HR : !PreOrder R}.
Context (Henv : ∀ s, R s (env s)) (Hpause : ∀ s, R s (pause s)).
Context (Hcreate : ∀ p, evolves R (create_pool p)) (Hupdate : ∀ p, evolves R (update_pool p)).
Context (Hstatus : ∀ o : SpiderSubnet, evolves R (λ s, api_update_status s o)).

#[local] Hint Extern 0 (PreOrder _) => exact HR : evolves.

Lemma meanwhile_evolves f : (∀ s, R s (f s)) → evolves R (meanwhile f).
Proof. intros H s. apply H. Qed.
#[local] Hint Resolve meanwhile_evolves : evolves.

Lemma apply_pool_evolves write s pool top prop : (∀ p, evolves R (write p)) → evolves R (apply_pool rIPs env write s pool top prop).
Proof.
  intros Hw. unfold apply_pool, preAllocateIPsFromSubnet. apply evolves_bind; [done| |intros ips; apply Hw].
  apply evolves_lift_bind; [done|]. intros [ips [s'|]] _; cbn [fst snd]; [|eauto with evolves].
  apply evolves_bind; [done|by apply meanwhile_evolves|intros _]. apply evolves_bind; [done|apply Hstatus|eauto with evolves].
Qed.

Lemma Reconcile_evolves found k top prop : evolves R (ReconcileAutoIPPool rIPs env create_pool update_pool found k top prop).
Proof.
  unfold ReconcileAutoIPPool. repeat (apply evolves_if; [eauto with evolves|]). apply evolves_bind; [done|eauto with evolves|]. intros s.
  apply evolves_if; [eauto with evolves|]. destruct found as [q|]; (apply evolves_lift_bind; [done|]); [intros [p|p] _|intros p _]; [eauto with evolves|..];
    by apply apply_pool_evolves.
Qed.

Lemma find_loop_evolves tries labels n pool : evolves R (find_loop list_pools pause tries labels n pool).
Proof.
  revert pool. induction tries as [|tries IH]; intros pool; cbn [find_loop]; [eauto with evolves|].
  apply evolves_bind; [done|eauto with evolves|]. intros [|p [|? ?]]; eauto 12 with evolves.
Qed.

Lemma apply_loop_evolves tries k top prop : evolves R (apply_loop rIPs env create_pool update_pool list_pools pause tries k top prop).
Proof.
  induction tries as [|tries IH]; cbn [apply_loop]; [eauto with evolves|]. apply evolves_bind; [done|eauto with evolves|]. intros pools.
  apply (evolves_handle R (ReconcileAutoIPPool rIPs env create_pool update_pool (find_pool (top_UID top) pools) k top prop) (λ p, (λ s, (Ret (Some p), s)) : cmd W (option SpiderIPPool))
    (λ e, if conflict e || already_exists e then _ ← meanwhile pause; apply_loop rIPs env create_pool update_pool list_pools pause tries k top prop else lift (Fail e))); [apply Reconcile_evolves|eauto 12 with evolves..].
Qed.

Lemma family_pool_evolves c nic top n v k : evolves R (family_pool config rIPs env create_pool update_pool list_pools pause c nic top n v k).
Proof.
  unfold family_pool, applyThirdControllerAutoPool, findAppAutoPool. pose proof find_loop_evolves. pose proof apply_loop_evolves.
  apply evolves_if; eauto 12 with evolves.
Qed.

Lemma run_pools_evolves tasks : (∀ v m, (v, m) ∈ tasks → evolves R m) → evolves R (run_pools (W := W) tasks).
Proof.
  induction tasks as [|[v m] tasks IH]; intros Hm; cbn [run_pools]; [eauto with evolves|].
  assert (evolves R (run_pools tasks)) as Hrest by (apply IH; intros v' m' Hin; eapply Hm; by apply list_elem_of_further).
  apply (evolves_handle R m (λ p, _) (λ e, _)); [eapply Hm, list_elem_of_here|..];
    intros a; (apply evolves_bind; [done..|]); intros [pools errs]; eauto with evolves.
Qed.

Lemma getPoolFromSubnetAnno_evolves pod nic clean top :
  evolves R (getPoolFromSubnetAnno config json_items json_item redundant rIPs env create_pool update_pool list_pools app_of pause pod nic clean top).
Proof.
  unfold getPoolFromSubnetAnno. apply evolves_lift_bind; [done|]. intros [c|] _; [|eauto with evolves]. apply evolves_if; [eauto with evolves|].
  apply evolves_lift_bind; [done|]. intros item _. apply evolves_lift_bind; [done|]. intros n _. apply evolves_bind; [done| |].
  - apply run_pools_evolves. intros v m ([v' k] & [= -> ->] & _)%list_elem_of_fmap. apply family_pool_evolves.
  - intros [pools errs]. destruct (append_errors errs); eauto with evolves.
Qed.
End evolution.

(** ** The allocation with its selection *)

(** What the server makes of the creation of a pool: nothing, or a pool of a new name without a
    lease. *)
Definition opened (pool : string) (L L' : lease_table) : Prop := L' = L ∨ (L !! pool = None ∧ L' = <[pool := ∅]> L).
(** What happens to the tables beside the steps of the allocation itself. *)
Definition aside (others : lease_table → lease_table → Prop) (L L' : lease_table) : Prop := others L L' ∨ ∃ pool, opened pool L L'.

Section composition.
Context `{MR : MapRange} `{SC : Schedule} `{J : JSON PoolIPAllocations} `{JLaws : !JSONLaws PoolIPAllocations} `{J' : JSON PoolIPPreAllocations}.
Context `{JI : JSON (list AnnoIPPoolItem)} `{JP : JSON AnnoPodIPPoolValue} `{JL : JSON (list string)}.
Context `{JN : JSON (list (option NetworkSelectionElement))} `{JR : JSON (list (string * string))}.
Context {S E : Type} `{KS : KubeStore S SpiderIPPool} `{KL : !KubeStoreLaws S SpiderIPPool} `{KSs : KubeStore S SpiderSubnet} `{ES : EndpointStore E}.
Context (config : IPAMConfig) (pconfig : IPPoolManagerConfig) (em : EndpointConfig).
Context (rIPs : string → string → nat → list SpiderReservedIP) (env : string → string → nat → S → S) (cancelled : nat → bool).
Context (acquire : list string → outcome unit).
Context (get_pod : string → string → outcome Pod) (get_controller : string → string → string → outcome ObjectMeta).
Context (listed : Z → outcome (list SpiderIPPool)) (default_pools : outcome (list SpiderIPPool)).
Context (cached_pool : string → outcome SpiderIPPool) (get_node get_ns : string → outcome ObjectMeta).
Context (get_vmim : string → string → outcome unit) (pf_addrs : string → string → outcome (list IP)).
Context (callIaaSAllocate : Pod → list AllocationResult → outcome (list AllocationResult)).
(** For the selection by subnets. *)
Context (json_items : string → option (list AnnoSubnetItem)) (json_item : string → option (option AnnoSubnetItem)) (redundant : Z).
Context (subnet_rIPs : list SpiderReservedIP) (subnet_env pause : S → S) (create_pool update_pool : SpiderIPPool → cmd S SpiderIPPool).
Context (list_pools : gmap string string → S → outcome (list SpiderIPPool)) (app_of : PodTopController → option application).

(** [getPoolFromSubnetAnno] in the state of the IPAM. *)
Definition subnet_rule (pod : Pod) (nic : string) (clean : bool) (top : PodTopController) : cmd (world S E) (option ToBeAllocated) :=
  on_pools (getPoolFromSubnetAnno config json_items json_item redundant subnet_rIPs subnet_env create_pool update_pool list_pools app_of pause pod nic clean top).

(** C7: the whole allocation for a Pod that is found with its controller, with the selection and the
    creation of pools for subnet annotations, refines the tables of leases: whatever it does, retried
    or cancelled, and however it ends, all that happens to the pools, beside what other clients do,
    is that free addresses are granted under the UID of the Pod, that what is recorded for the name of
    the Pod's endpoint is renewed under that UID, that what is recorded under the UID of the endpoint
    is revoked, and that new pools without a lease are opened.  (The server makes of a creation a
    pool without a status, if anything; updates of the spec of a pool and of the status of a subnet
    leave the leases alone.) *)
Theorem subnet_allocate_refines (others : lease_table → lease_table → Prop) addArgs pod top w :
  (∀ nic pool i s, guaranteed others s (env nic pool i s)) → (∀ s, guaranteed others s (subnet_env s)) → (∀ s, guaranteed others s (pause s)) →
  (∀ p, evolves (guaranteed (opened (obj_key p))) (create_pool p)) → (∀ p, evolves (guaranteed eq) (update_pool p)) →
  (∀ o : SpiderSubnet, evolves (guaranteed eq) (λ s, api_update_status s o)) →
  valid (w_pools w) →
  get_pod (aa_PodNamespace addArgs) (aa_PodName addArgs) = Ret pod → GetPodTopController get_controller pod = Ret top →
  rtc (beside (aside others) (add_step (λ _, False) w pod top))
    (leases (w_pools w)) (leases (w_pools (Allocate config pconfig em rIPs env cancelled acquire get_pod get_controller listed default_pools
    cached_pool get_node get_ns get_vmim pf_addrs subnet_rule callIaaSAllocate addArgs w).2)).
Proof.
  intros Henv Hsub Hpause Hcreate Hupdate Hstatus Hv Hp Ht.
  assert (∀ Q s s', (∀ L L', Q L L' → rtc (beside (aside others) (add_step (λ _, False) w pod top)) L L') →
    guaranteed Q s s' → guaranteed (rtc (beside (aside others) (add_step (λ _, False) w pod top))) s s') as Hweak.
  { intros Q s s' HQ Hg V. destruct (Hg V) as (V' & Hl & Hq). split_and!; [done..|by apply HQ]. }
  assert (∀ s s', guaranteed others s s' → guaranteed (rtc (beside (aside others) (add_step (λ _, False) w pod top))) s s') as Hother.
  { intros s s'. apply Hweak. intros L L' Ho. by apply others_beside; left. }
  apply Allocate_add_steps; [done..|intros; by apply Hother| |done].
  intros pod' nic clean top'. apply evolves_on_pools, getPoolFromSubnetAnno_evolves.
  - exact (guaranteed_preorder (G := steps_guarantee _ _ _ _) _).
  - intros s. apply Hother, Hsub.
  - intros s. apply Hother, Hpause.
  - intros p s. eapply Hweak; [|apply Hcreate]. intros L L' Ho. apply others_beside. right. by exists (obj_key p).
  - intros p s. eapply Hweak; [|apply Hupdate]. by intros L L' ->.
  - intros o s. eapply Hweak; [|apply Hstatus]. by intros L L' ->.
Qed.
End composition.

(** ** Selections that do not end as they should *)

Section surprises.
Context `{MR : MapRange} `{J : JSON PoolIPAllocations} `{J' : JSON PoolIPPreAllocations} `{SCH : Schedule}.
Context {W : Type} `{KS : KubeStore W SpiderSubnet}.
Context (config : IPAMConfig).
Context (json_items : string → option (list AnnoSubnetItem)) (json_item : string → option (option AnnoSubnetItem)) (redundant : Z).
Context (rIPs : list SpiderReservedIP) (env : W → W) (create_pool update_pool : SpiderIPPool → cmd W SpiderIPPool).
Context (list_pools : gmap string string → W → outcome (list SpiderIPPool)) (app_of : PodTopController → option application) (pause : W → W).

(** An interface that is not in the list of the annotation has no candidate, without an error: the
    Pod gets no address for it. *)
Theorem unlisted_interface pod nic clean top c n st :
  GetSubnetAnnoConfig json_items json_item redundant (Annotations (pod_meta pod)) = Ret (Some c) →
  MultipleSubnets c ≠ [] → nic ∉ si_Interface <$> MultipleSubnets c → app_Kind (top_app top) ≠ KindPod →
  getAutoPoolIPNumber app_of (Annotations (pod_meta pod)) top = Ret n →
  getPoolFromSubnetAnno config json_items json_item redundant rIPs env create_pool update_pool list_pools app_of pause pod nic clean top st
  = (Ret (Some (MkToBeAllocated nic clean [])), st).
Proof.
  intros Hc Hm Hnic Hk Hn. unfold getPoolFromSubnetAnno, mbind, cmd_bind, lift. rewrite Hc, (bool_decide_false (app_Kind _ = _)), andb_false_r by done.
  assert (item_of c nic = Ret (MkSubnetItem "" [] [])) as ->.
  { unfold item_of. destruct (MultipleSubnets c) as [|x l] eqn:E; [done|]. destruct (list_find _ _) as [[i y]|] eqn:Ef; [|done].
    apply list_find_Some in Ef as (Hi & <- & _). exfalso. apply Hnic, list_elem_of_fmap_2. by eapply list_elem_of_lookup_2. }
  rewrite Hn. unfold families_of, family_of. cbn [si_IPv4 si_IPv6 app]. assert (@reorder _ (Z * string) [] = []) as ->; [|done].
  apply Permutation_nil_r, reorder_perm.
Qed.

Lemma find_loop_undesired tries labels n p st : (∀ s, list_pools labels s = Ret [p]) → isPoolIPsDesired p n = Ret false →
  ∀ pool, find_loop list_pools pause tries labels n pool st = (Ret (if (tries =? 0)%nat then pool else Some p), Nat.iter tries pause st).
Proof.
  intros Hl Hd. revert st. induction tries as [|tries IH]; intros st pool; [done|]. cbn [find_loop]. unfold mbind, cmd_bind, read, lift, meanwhile. rewrite Hl, Hd.
  rewrite IH. rewrite Nat.iter_succ_r. by destruct tries.
Qed.

(** Without an annotation for the number of addresses, the controller of applications adds the
    cluster's redundant number to the replicas and the agent does not: it waits for a pool of
    another size than the one the controller makes, as often as it is configured to, and takes the
    pool in the end. *)
Theorem redundant_pool_waits anno top c extra r k nic v p st :
  anno !! AnnoSpiderSubnetPoolIPNumber = None → controller_replicas app_of top = Ret (Some r) →
  FlexibleIPNum c = Some extra → 0 < extra → 0 ≤ r → r + extra < 2 ^ 63 →
  isPoolIPsDesired p (desired_number c r).1 = Ret true → (∀ s, list_pools (own_labels k top v nic) s = Ret [p]) →
  (0 < OperationRetries config)%nat →
  ∃ n, getAutoPoolIPNumber app_of anno top = Ret n ∧
    findAppAutoPool config list_pools pause k nic v n top st = (Ret p, Nat.iter (OperationRetries config) pause st).
Proof.
  intros Ha Hr Hf He Hr0 Hmax Hd Hl Ht. exists r.
  assert (getAutoPoolIPNumber app_of anno top = Ret r) as Hn.
  { unfold getAutoPoolIPNumber. assert (app_Kind (top_app top) ≠ KindPod) as Hk.
    { intros Hk. unfold controller_replicas in Hr. rewrite Hk in Hr. replace (bool_decide (KindPod ∈ AppKinds)) with false in Hr by (vm_compute; reflexivity).
      by rewrite andb_false_r in Hr. }
    rewrite (bool_decide_false (app_Kind _ = _)), andb_false_r by done. rewrite Hr. cbn [mbind outcome_bind]. rewrite Ha, Z.add_0_r. by rewrite int64_small by lia. }
  split; [done|]. assert (isPoolIPsDesired p r = Ret false) as Hd'.
  { unfold desired_number in Hd. rewrite Hf in Hd. cbn [fst] in Hd. rewrite int64_small in Hd by lia. revert Hd. unfold isPoolIPsDesired.
    destruct (ps_IPVersion _) as [ver|]; [|done]. cbn [deref mbind outcome_bind]. destruct (AssembleTotalIPs _ _ _) as [l|e| |]; cbn; [|done..].
    intros [= Hz%Z.eqb_eq]. f_equal. apply Z.eqb_neq. lia. }
  unfold findAppAutoPool, mbind, cmd_bind. rewrite (find_loop_undesired _ _ _ _ _ Hl Hd'). by destruct (OperationRetries config); [lia|].
Qed.
End surprises.

(** The number of a third-party controller may be given as flexible, although only fixed numbers
    are supported for it: it is taken as fixed. *)
Theorem third_flexible_taken app_of top : IsThirdController (top_app top) = true →
  getAutoPoolIPNumber app_of {[AnnoSpiderSubnetPoolIPNumber := "+3"%string]} top = Ret 3.
Proof.
  unfold IsThirdController, getAutoPoolIPNumber, controller_replicas. intros H.
  destruct (bool_decide (app_APIVersion (top_app top) ∈ K8sAPIVersions)); [|vm_compute; reflexivity]. apply negb_true_iff, bool_decide_eq_false in H.
  rewrite bool_decide_false by (intros Hk; apply H; rewrite Hk; apply list_elem_of_here). cbn [andb].
  rewrite bool_decide_false by (intros Hk; apply H; unfold K8sKinds, AppKinds in *; set_solver). cbn [andb mbind outcome_bind].
  rewrite lookup_singleton_eq. vm_compute. reflexivity.
Qed.

(** ** A server with pools and subnets *)

Module Paired.
Definition both : Type := mem_store SpiderIPPool * mem_store SpiderSubnet.

#[export] Instance both_pools : KubeStore both SpiderIPPool := {|
  api_get s k := api_get s.1 k;
  api_update_status s o := let '(r, a) := api_update_status s.1 o in (r, (a, s.2))
|}.
Lemma both_update (s : both) (o : SpiderIPPool) r s' : api_update_status s o = (r, s') → api_update_status s.1 o = (r, s'.1).
Proof. change (api_update_status s o) with (let '(r, a) := api_update_status s.1 o in (r, (a, s.2))). destruct (api_update_status s.1 o). by intros [= <- <-]. Qed.
#[export] Instance both_pools_laws : KubeStoreLaws both SpiderIPPool.
Proof.
  refine {| valid s := mem_valid s.1; view s := objs s.1; later s s' := mem_later s.1 s'.1 |}.
  - split; [intros s|intros s1 s2 s3 H1 H2]; [reflexivity|by etrans].
  - intros s s'. apply (later_valid (KubeStoreLaws := mem_pools)).
  - intros s s' k o o'. apply (later_version (KubeStoreLaws := mem_pools)).
  - intros s k o. apply (get_found (KubeStoreLaws := mem_pools)).
  - intros s k. apply (get_total (KubeStoreLaws := mem_pools)).
  - intros s o r s' Hv H%both_update. by eapply (update_later (KubeStoreLaws := mem_pools)).
  - intros s o r s' H%both_update. by eapply (update_total (KubeStoreLaws := mem_pools)).
  - intros s o s' Hv H%both_update. by eapply (update_applied (KubeStoreLaws := mem_pools)).
  - intros s o e s' Hv H%both_update. by eapply (update_failed (KubeStoreLaws := mem_pools)).
Defined.
#[export] Instance both_subnets : KubeStore both SpiderSubnet := {|
  api_get s k := match objs s.2 !! k with Some o => if Name (subnet_meta o) == k then Ret o else Fail APINotFound | None => Fail APINotFound end;
  api_update_status s o := let '(r, b) := api_update_status s.2 o in (r, (s.1, b))
|}.

(** The status is not written with the object; a webhook sets the default of one field. *)
Definition stored (p : SpiderIPPool) (status : IPPoolStatus) (s : both) : SpiderIPPool :=
  let sp := pool_spec p in
  MkIPPool (set_ResourceVersion (clock s.1) (pool_meta p))
    (MkIPPoolSpec (ps_IPVersion sp) (ps_Subnet sp) (ps_IPs sp) (ps_ExcludeIPs sp) (ps_Gateway sp) (ps_Routes sp) (ps_PodAffinity sp) (ps_NamespaceAffinity sp)
       (ps_NamespaceName sp) (ps_NodeAffinity sp) (ps_NodeName sp) (ps_MultusName sp) (ps_Default sp) (Some (default false (ps_Disable sp)))) status.
Definition store_pool (p : SpiderIPPool) (status : IPPoolStatus) (s : both) : outcome SpiderIPPool * both :=
  (Ret (stored p status s), (MkStore (<[obj_key p := stored p status s]> (objs s.1)) (clock s.1 + 1), s.2)).
Definition create_pool (p : SpiderIPPool) : cmd both SpiderIPPool := λ s,
  match objs s.1 !! obj_key p with Some _ => (Fail APIAlreadyExists, s) | None => store_pool p (MkIPPoolStatus None None None) s end.
Definition update_pool (p : SpiderIPPool) : cmd both SpiderIPPool := λ s,
  match objs s.1 !! obj_key p with
  | Some old => if obj_version old == obj_version p then store_pool p (pool_status old) s else (Fail APIConflict, s)
  | None => (Fail APINotFound, s)
  end.
Definition has_labels (labels : gmap string string) (p : SpiderIPPool) : Prop := map_Forall (λ l v, Labels (pool_meta p) !! l = Some v) labels.
#[export] Instance has_labels_dec labels p : Decision (has_labels labels p).
Proof. unfold has_labels. apply _. Defined.
Definition list_pools (labels : gmap string string) (s : both) : outcome (list SpiderIPPool) := Ret (filter (has_labels labels) (snd <$> map_to_list (objs s.1))).

Lemma list_pools_labels labels s l : list_pools labels s = Ret l → Forall (λ p, labels ⊆ Labels (pool_meta p)) l.
Proof. intros [= <-]. apply Forall_forall. intros p [Hp _]%list_elem_of_filter. by apply map_subseteq_spec. Qed.

Lemma store_pool_guaranteed p status s : mem_valid s.1 → mem_valid (store_pool p status s).2.1 ∧ mem_later s.1 (store_pool p status s).2.1.
Proof.
  intros Hv. assert (mem_valid (store_pool p status s).2.1) as Hv'.
  { intros k o. cbn. intros [[<- <-]|[Hne Ho]]%lookup_insert_Some; cbn; [split; [done|unfold obj_version; cbn; lia]|]. destruct (Hv _ _ Ho). split; [done|lia]. }
  split; [done|]. split_and!; cbn; [lia|done|]. intros k o. intros [[<- <-]|[Hne Ho]]%lookup_insert_Some; [right; unfold obj_version; cbn; lia|by left].
Qed.

Local Abbreviation within := (guaranteed (J := ex_json) (KL := both_pools_laws)).
Lemma create_within p : evolves (within (opened (obj_key p))) (create_pool p).
Proof.
  intros s Hv. unfold create_pool. destruct (objs s.1 !! obj_key p) eqn:E; cbn [snd]; [by split_and!; [| |left]|].
  destruct (store_pool_guaranteed p (MkIPPoolStatus None None None) s Hv) as [H1 H2]. split_and!; [done..|]. right.
  unfold leases. cbn -[pool_leases]. erewrite omap_insert_Some by (vm_compute; reflexivity). split; [by rewrite lookup_omap, E|done].
Qed.
Lemma update_within p : evolves (within eq) (update_pool p).
Proof.
  intros s Hv. unfold update_pool. destruct (objs s.1 !! obj_key p) as [old|] eqn:E; cbn [snd]; [|by split_and!].
  case_bool_decide; cbn [snd]; [|by split_and!]. destruct (store_pool_guaranteed p (pool_status old) s Hv) as [H1 H2]. split_and!; [done..|].
  unfold leases. cbn -[pool_leases]. symmetry.
  apply map_eq. intros k. rewrite !lookup_omap. destruct (decide (k = obj_key p)) as [->|Hne]; [by rewrite lookup_insert_eq, E|by rewrite lookup_insert_ne].
Qed.
Lemma create_answers p s q s' : create_pool p s = (Ret q, s') → answered p q.
Proof. unfold create_pool. destruct (_ !! _); [done|]. by intros [= <- <-]. Qed.
Lemma update_answers p s q s' : update_pool p s = (Ret q, s') → answered p q.
Proof. unfold update_pool. destruct (_ !! _); [|done]. case_bool_decide; [|done]. by intros [= <- <-]. Qed.
Lemma status_within (o : SpiderSubnet) : evolves (within eq) (λ s : both, api_update_status s o).
Proof. intros s Hv. cbn -[leases]. repeat case_match; cbn -[leases]; by split_and!. Qed.
Lemma both_named (s : both) k (o : SpiderSubnet) : api_get s k = Ret o → Name (subnet_meta o) = k.
Proof. cbn. destruct (objs s.2 !! k) as [o'|]; [|done]. case_bool_decide; [|done]. by intros [= <-]. Qed.
End Paired.
Import Paired.

(** The subnet "s1", and a Pod of a third-party controller that asks for three addresses of it. *)
Definition demo_both : both := (MkStore ∅ 1, MkStore {["s1" := ex_s1_used]} 1).
Definition demo_config : IPAMConfig := MkIPAMConfig true false true true true false true false false 5 (Some "kube-system/default") "kube-system" false.
Definition demo_pod : Pod :=
  MkPod (MkMeta "game-0" "default" "uid-0" 1 ∅ (<[AnnoSpiderSubnet := "s1"%string]> {[AnnoSpiderSubnetPoolIPNumber := "3"%string]}) []
    [MkOwnerReference "apps.kruise.io/v1alpha1" "CloneSet" "game" "uid-game" (Some true)] None) "node" RestartAlways PodRunning "".
Definition demo_top : PodTopController := MkTopController (MkApp "apps.kruise.io/v1alpha1" "CloneSet" "default" "game") "uid-game".
Definition demo_rule : cmd both (option ToBeAllocated) :=
  getPoolFromSubnetAnno (MR := ordered_range) (J := ex_json) (J' := countable_json) (SCH := in_order) demo_config ex_json_items ex_json_item 0
    [] id create_pool update_pool list_pools (λ _, None) id demo_pod "eth0" false demo_top.
Definition demo_selected : ToBeAllocated := match (demo_rule demo_both).1 with Ret (Some t) => t | _ => MkToBeAllocated "" true [] end.

Lemma subnet_candidates_own_witness :
  ((λ pc, length (pc_Pools pc)) <$> PoolCandidates demo_selected) = [1%nat] ∧
  t_NIC demo_selected = "eth0"%string ∧ t_CleanGateway demo_selected = false ∧
  ∃ c item, GetSubnetAnnoConfig ex_json_items ex_json_item 0 (Annotations (pod_meta demo_pod)) = Ret (Some c) ∧ item_of c "eth0" = Ret item ∧
    Forall2 (own_candidate "eth0" demo_top) (PoolCandidates demo_selected) (families_of demo_config item).
Proof.
  split; [vm_compute; reflexivity|].
  apply (subnet_candidates_own (MR := ordered_range) (J := ex_json) (J' := countable_json) (SCH := in_order) demo_config ex_json_items ex_json_item 0
    [] id create_pool update_pool list_pools (λ _, None) id both_named create_answers update_answers list_pools_labels demo_pod "eth0" false demo_top demo_both demo_selected (demo_rule demo_both).2).
  - done.
  - assert (match (demo_rule demo_both).1 with Ret (Some _) => true | _ => false end = true) as H by (vm_compute; reflexivity).
    unfold demo_selected. change (getPoolFromSubnetAnno _ _ _ _ _ _ _ _ _ _ _ _ _ _ _ demo_both) with (demo_rule demo_both).
    destruct (demo_rule demo_both) as [[[t|]|e| |] s]; [reflexivity|discriminate H..].
Defined.

Definition demo_world : world both mem_eps := MkWorld demo_both (MkEps ∅ 1) ∅.
Definition demo_allocate : cmd (world both mem_eps) IpamAddResponse :=
  Allocate (MR := ordered_range) (SC := in_order) (J := ex_json) (JI := countable_json) (JP := countable_json) (JL := countable_json)
    (JN := ex_nse_json) (JR := countable_json) demo_config ex_config (MkEndpointConfig true false) (λ _ _ _, []) (λ _ _ _ s, s) (λ _, false)
    (λ _, Ret ()) (λ _ _, Ret demo_pod) (λ _ _ _, Fail APINotFound) (λ _, Ret []) (Ret [])
    (λ _, Fail APINotFound) ex_meta ex_meta (λ _ _, Fail APINotFound) (λ _ _, Ret [])
    (subnet_rule (MR := ordered_range) (SC := in_order) (J := ex_json) (J' := countable_json) demo_config ex_json_items ex_json_item 0 [] id id create_pool update_pool list_pools (λ _, None))
    ex_iaas (MkAddArgs "default" "game-0" "eth0" false [] [] None false).

Lemma subnet_allocate_refines_witness :
  (match (demo_allocate demo_world).1 with Ret r => Address <$> r.1 | _ => [] end) = ["10.6.0.10/16"%string] ∧
  rtc (beside (aside eq) (add_step (λ _, False) demo_world demo_pod demo_top))
    (leases (J := ex_json) (w_pools demo_world)) (leases (J := ex_json) (w_pools (demo_allocate demo_world).2)).
Proof.
  split; [vm_compute; reflexivity|].
  apply (subnet_allocate_refines (MR := ordered_range) (SC := in_order) (J := ex_json) (JLaws := ex_json_laws) (J' := countable_json) (JI := countable_json)
    (JP := countable_json) (JL := countable_json) (JN := ex_nse_json) (JR := countable_json) (KL := both_pools_laws)).
  - intros _ _ _ s V. split_and!; [exact V|reflexivity..].
  - intros s V. split_and!; [exact V|reflexivity..].
  - intros s V. split_and!; [exact V|reflexivity..].
  - apply create_within.
  - apply update_within.
  - apply status_within.
  - by intros k o Ho.
  - reflexivity.
  - vm_compute. reflexivity.
Defined.
