(* ===== verification/RDMAMetrics.v ===== *)
(** * pkg/rdmametrics: the counters of RDMA devices

    The exporter of the agent: which network device an RDMA device is (by its GUID), the counters of
    every network namespace with their labels (metrics.go, ethtool.go), the traffic class of a
    device (tos.go), and the registration of counters that are met for the first time, which the
    callback hands to a goroutine through a channel.  The kernel, the commands "rdma" and "ip" and
    the files are parameters; names are ASCII texts. *)

From S2P Require Import Prelude NetIP K8s Retry Convert Selector AppUtils CoordinatorSync PodOwner.
Local Open Scope Z_scope.
Local Open Scope go_scope.

(** ** Texts *)

Definition reverseMACAddress (mac : string) : string := join ":" (reverse (split ":" mac)).

(** The address after the first marker, up to a space. *)
Definition extractSrcIPStringIndex (raw : string) : option string :=
  match find_first (strip_prefix " src ") raw with
  | None | Some EmptyString => None
  | Some rest => Some match cut " " rest with Some (ip, _) => ip | None => rest end
  end.

Definition next_lower (s : string) : bool := match s with String c _ => is_lower c | EmptyString => false end.
Fixpoint snake_go (first : bool) (camel : string) : string :=
  match camel with
  | EmptyString => EmptyString
  | String c rest =>
      if is_upper c then
        if negb first && next_lower rest then String "_" (String (lower_char c) (snake_go false rest)) else String (lower_char c) (snake_go false rest)
      else String c (snake_go false rest)
  end.
Definition camelToSnake (camel : string) : string := snake_go true camel.

(** ** Devices *)

(** What is read of a link ([HardwareAddr.String()]) and of an RDMA link. *)
Record NetDev := MkNetDev { nd_Name : string; nd_HardwareAddr : string; nd_Type : string }.
Record RdmaLink := MkRdmaLink { rl_Name : string; NodeGuid : string; SysImageGuid : string }.
Record RDMADevice := MkRDMADevice { NetDevName : string; NodeGUID : string; SysImageGUID : string; IsRoot : bool }.
#[export] Instance RDMADevice_eq_dec : EqDecision RDMADevice.
Proof. solve_decision. Defined.

(** [s[i:]] within the text. *)
Definition string_from (i : nat) (s : string) : string := String.substring i (String.length s - i) s.

(** The address under which a device is known; the GUID is at the end of that of an IPoIB device. *)
Definition device_addr (d : NetDev) : option string :=
  let addr := nd_HardwareAddr d in
  if (nd_Name d == EmptyString) || (addr == EmptyString) then None
  else if nd_Type d == "ipoib"%string then (if (String.length addr =? 59)%nat then Some (string_from 36 addr) else None)
  else Some addr.
Definition netDevHardwareAddrMap (netList : list NetDev) : gmap string string :=
  foldl (λ m d, match device_addr d with Some addr => <[addr := nd_Name d]> m | None => m end) ∅ netList.

(** The MAC address within a GUID of 64 bits. *)
Definition roceHardwareAddr (guid : string) : string := String.substring 0 9 guid +:+ string_from 15 guid.
Definition rdma_device (m : gmap string string) (l : RdmaLink) : option RDMADevice :=
  let guid := reverseMACAddress (NodeGuid l) in
  let device devName := MkRDMADevice devName (NodeGuid l) (SysImageGuid l) (NodeGuid l == SysImageGuid l) in
  match m !! guid with
  | Some devName => Some (device devName)
  | None => if (String.length guid =? 23)%nat then device <$> m !! roceHardwareAddr guid else None
  end.
Definition getIfnameNetDevMap (netList : outcome (list NetDev)) (rdmaList : outcome (list RdmaLink)) : outcome (gmap string RDMADevice) :=
  netList ← netList;
  let m := netDevHardwareAddrMap netList in
  rdmaList ← rdmaList;
  Ret (foldl (λ res l, match rdma_device m l with Some d => <[rl_Name l := d]> res | None => res end) ∅ rdmaList).

(** ** Counters *)

Inductive attribute := AttrString (k v : string) | AttrBool (k : string) (v : bool) | AttrInt (k : string) (v : Z).
Record Metrics := MkMetrics { m_Name : string; m_Value : Z; m_Labels : list attribute }.

(** *** ethtool.go *)

Definition expectPriorityMetrics (s : string) : bool :=
  let prio := bool_decide (is_Some (strip_prefix "rx_prio" s)) || bool_decide (is_Some (strip_prefix "tx_prio" s)) in
  ((String.length s =? 14)%nat && prio && HasSuffix s "_pause") || ((String.length s =? 17)%nat && prio && HasSuffix s "_discards").
Definition extractNameWithPriority (str : string) : option (string * Z) :=
  match split "_" str with
  | [a; rawPriority; c] =>
      if (String.length rawPriority <? 5)%nat then None
      else digits ← strip_prefix "prio" rawPriority;
           priority ← atoi digits;
           Some (a +:+ "_" +:+ c, priority)
  | _ => None
  end.
Definition stat_metric (kv : string * Z) : option Metrics :=
  let '(k, v) := kv in
  if Contains k "vport" then Some (MkMetrics k (int64 v) [])
  else if expectPriorityMetrics k then '(name, priority) ← extractNameWithPriority k; Some (MkMetrics name (int64 v) [AttrInt "priority" priority])
  else None.
(** The counters of the driver, and the settings of the link; an unknown speed is all ones. *)
Definition Stats `{MapRange} (stats : outcome (gmap string Z)) (mapped : outcome (gmap string Z)) : outcome (list Metrics) :=
  stats ← stats;
  mapped ← mapped;
  Ret (omap stat_metric (range_kv stats) ++
       match mapped !! "speed"%string with Some v => if v =? 4294967295 then [] else [MkMetrics "vport_speed_mbps" (int64 v) []] | None => [] end).

(** *** metrics.go *)

(** A value of the JSON output of "rdma", whose counters are integers.  A number is decoded as a
    float64, to the nearest of 53 bits, ties to even, and converted to an int64; what a number out
    of range is converted to depends on the machine. *)
Inductive json_value := JString (s : string) | JNumber (z : Z) | JOther.
Definition float64_of (z : Z) : Z :=
  let a := Z.abs z in
  if a <? 2 ^ 53 then z
  else
    let unit := 2 ^ (Z.log2 a - 52) in
    let q := a / unit in
    let r := a mod unit in
    let up := (unit <? 2 * r) || ((2 * r =? unit) && Z.odd q) in
    Z.sgn z * ((if up then q + 1 else q) * unit).
Definition counter_value (overflow : Z) (z : Z) : Z :=
  let f := float64_of z in if (- 2 ^ 63 <=? f) && (f <? 2 ^ 63) then f else overflow.

Record NetnsItem := MkNetns { ns_ID : string; ns_Fd : string }.
(** What the commands and libraries answer inside a network namespace. *)
Record netns_io := MkNetnsIO {
  io_enter : outcome unit;
  io_rdma : outcome (list (gmap string json_value));
  io_links : outcome (list NetDev);
  io_rdma_links : outcome (list RdmaLink);
  io_BusInfo : string → outcome string;
  io_Stats : string → outcome (list Metrics);
  io_route4 : outcome string;
  io_route6 : outcome string
}.

Definition extracted (o : outcome string) : option string := match o with Ret s => extractSrcIPStringIndex s | _ => None end.
Definition getDefaultIP (io : netns_io) : outcome string :=
  match extracted (io_route4 io) with
  | Some ip => Ret ip
  | None => match extracted (io_route6 io) with Some ip => Ret ip | None => Fail (ErrOther "failed to find default IP address") end
  end.

Section exporter.
Context `{MR : MapRange}.
Context (nodeName : string) (overflow : Z).

Definition pod_labels (pod : option CachedPod) : list attribute :=
  match pod with
  | None => []
  | Some pod =>
      [AttrString "pod_namespace" (cp_Key pod).1; AttrString "pod_name" (cp_Key pod).2;
       AttrString "owner_api_version" (oi_APIVersion (cp_Owner pod)); AttrString "owner_kind" (oi_Kind (cp_Owner pod));
       AttrString "owner_namespace" (oi_Namespace (cp_Owner pod)); AttrString "owner_name" (oi_Name (cp_Owner pod))]
  end.

(** The labels of a device: those of the host's namespace are without a Pod. *)
Definition common_labels (io : netns_io) (netns : NetnsItem) (vfToPf : gmap string string) (cache : PodOwnerCache) (ifName : string) (d : RDMADevice)
    : outcome (list attribute) :=
  busInfo ← io_BusInfo io (NetDevName d);
  let parent := match vfToPf !! busInfo with Some name => [AttrString "rdma_parent_name" name] | None => [] end in
  pod ← (if ns_ID netns != EmptyString then srcIP ← getDefaultIP io; Ret (pod_labels (GetPodByIP srcIP cache)) else Ret []);
  Ret ([AttrString "node_name" nodeName; AttrString "ifname" ifName; AttrString "net_dev_name" (NetDevName d);
        AttrString "node_guid" (NodeGUID d); AttrString "sys_image_guid" (SysImageGUID d); AttrBool "is_root" (IsRoot d)] ++ parent ++ pod).

Definition json_metric (labels : list attribute) (kv : string * json_value) : option Metrics :=
  match kv with
  | (key, JNumber z) => if (key == "ifname"%string) || (key == "port"%string) then None else Some (MkMetrics (camelToSnake key) (counter_value overflow z) labels)
  | _ => None
  end.
Definition item_metrics (io : netns_io) (netns : NetnsItem) (vfToPf : gmap string string) (cache : PodOwnerCache) (devs : gmap string RDMADevice)
    (item : gmap string json_value) : outcome (list Metrics) :=
  match item !! "ifname"%string with
  | Some (JString ifName) =>
      match devs !! ifName with
      | None => Ret []
      | Some d =>
          labels ← common_labels io netns vfToPf cache ifName d;
          Ret (omap (json_metric labels) (range_kv item) ++
               match io_Stats io (NetDevName d) with
               | Ret stats => (λ s, MkMetrics (m_Name s) (m_Value s) (m_Labels s ++ labels)) <$> stats
               | _ => []
               end)
      end
  | _ => Ret []
  end.
(** The part of [processNetNS] inside the namespace: an error for one device is one for all. *)
Definition collect_netns (io : netns_io) (netns : NetnsItem) (vfToPf : gmap string string) (cache : PodOwnerCache) : outcome (list Metrics) :=
  _ ← (if ns_ID netns != EmptyString then io_enter io else Ret ());
  rdmaStats ← io_rdma io;
  devs ← getIfnameNetDevMap (io_links io) (io_rdma_links io);
  concat_map_m (item_metrics io netns vfToPf cache devs) rdmaStats.

(** *** tos.go *)

(** The file of a device: [None] if it does not exist. *)
Definition traffic_class (data : option (outcome string)) : outcome Z :=
  match data with
  | None => Ret 0
  | Some data =>
      data ← data;
      match strip_prefix "Global tclass=" (TrimSpace data) with
      | Some tosStr => match atoi tosStr with Some tos => Ret tos | None => Fail (ErrOther "invalid tclass value") end
      | None => Ret 0
      end
  end.
Record DeviceTrafficClass := MkTrafficClass { tc_NetDevName : string; tc_IfName : string; TrafficClass : Z }.
Definition GetDeviceTrafficClass (io : netns_io) (file : string → option (outcome string)) : outcome (list DeviceTrafficClass) :=
  devs ← getIfnameNetDevMap (io_links io) (io_rdma_links io);
  concat_map_m (λ kv : string * RDMADevice,
    if IsRoot kv.2 then
      tos ← traffic_class (file ("/sys/class/infiniband/" +:+ kv.1 +:+ "/tc/1/traffic_class"));
      Ret [MkTrafficClass (NetDevName kv.2) kv.1 tos]
    else Ret []) (range_kv devs).

(** *** The namespaces of a node *)

Definition netnsPathList : list string := ["/var/run/netns"; "/var/run/docker/netns"]%string.
(** A directory that does not exist is [None]. *)
Definition listNodeNetNS (mode : outcome string) (readDir : string → option (outcome (list string))) : outcome (list NetnsItem) :=
  mode ← mode;
  if mode != "exclusive"%string then Ret []
  else concat_map_m (λ path,
    match readDir path with
    | None => Ret []
    | Some entries => entries ← entries; Ret ((λ name, MkNetns name (path +:+ "/" +:+ name)) <$> List.filter (λ name, name != "default"%string) entries)
    end) netnsPathList.

(** A directory below "/sys/devices/pci*", in the order of the walk: its base name, and the entries
    of the network devices of its physical function, if it has one.  No error of the walk is
    returned, and the pattern is well formed. *)
Record pci_dir := MkPciDir { pd_base : string; pd_physfn : option (outcome (list string)) }.
Definition getVfToPfNameMapAt (pciDirs : list (list pci_dir)) : gmap string string :=
  foldl (λ result d, match pd_physfn d with Some (Ret (pf :: _)) => <[pd_base d := pf]> result | _ => result end) ∅ (concat pciDirs).

(** The root devices by GUID. *)
Definition getNodeGUIDNetDeviceNameMap (io : netns_io) : outcome (gmap string string) :=
  list ← getIfnameNetDevMap (io_links io) (io_rdma_links io);
  Ret (foldl (λ res kv, if IsRoot kv.2 then <[NodeGUID kv.2 := NetDevName kv.2]> res else res) ∅ (range_kv list)).

(** *** The exporter *)

Definition rdmaMetricsPrefix : string := "rdma_".
Definition knownMetricsKeyDescription : list string := [
  "rx_write_requests"; "rx_read_requests"; "rx_atomic_requests"; "rx_dct_connect"; "out_of_buffer"; "out_of_sequence";
  "duplicate_request"; "rnr_nak_retry_err"; "packet_seq_err"; "implied_nak_seq_err"; "local_ack_timeout_err";
  "resp_local_length_error"; "resp_cqe_error"; "req_cqe_error"; "req_remote_invalid_request"; "req_remote_access_errors";
  "resp_remote_access_errors"; "resp_cqe_flush_error"; "req_cqe_flush_error"; "roce_adp_retrans"; "roce_adp_retrans_to";
  "roce_slow_restart"; "roce_slow_restart_cnps"; "roce_slow_restart_trans"; "rp_cnp_ignored"; "rp_cnp_handled";
  "np_ecn_marked_roce_packets"; "np_cnp_sent"; "rx_icrc_encapsulated"; "rx_vport_rdma_unicast_packets";
  "tx_vport_rdma_unicast_packets"; "rx_vport_rdma_multicast_packets"; "tx_vport_rdma_multicast_packets";
  "rx_vport_rdma_unicast_bytes"; "tx_vport_rdma_unicast_bytes"; "rx_vport_rdma_multicast_bytes"; "tx_vport_rdma_multicast_bytes";
  "vport_speed_mbps"; "rx_discards"; "tx_discards"; "rx_pause"; "tx_pause"; "device_tos"]%string.
Definition known_metrics : gmap string unit := list_to_map ((λ k, (k, ())) <$> knownMetricsKeyDescription).

(** The state: the observables created, the metrics that wait for one, the messages of the channel
    and whether it is closed, and the registration of the callback with the observables it may
    report ([None]: not registered). *)
Record exporter := MkExporter {
  observableMap : gset string;
  waitToRegisterMetrics : gmap string unit;
  ch : nat;
  ch_closed : bool;
  registration : option (list string)
}.
Definition ch_cap : nat := 10.
Definition new_exporter : exporter := MkExporter ∅ ∅ 0 false None.

(** The meter of OpenTelemetry: whether it makes a counter of a name, and whether it registers a
    callback, or cancels a registration. *)
Record Meter := MkMeter {
  Int64ObservableCounter : string → outcome unit;
  RegisterCallback : list string → outcome unit;
  Unregister : outcome unit
}.
Context (meter : Meter).

Definition add_observable (name : string) (e : exporter) : exporter :=
  MkExporter ({[name]} ∪ observableMap e) (waitToRegisterMetrics e) (ch e) (ch_closed e) (registration e).
Fixpoint register_keys (keys : list string) : cmd exporter (list string) :=
  match keys with
  | [] => mret []
  | key :: keys =>
      let name := (rdmaMetricsPrefix +:+ key)%string in
      _ ← lift (Int64ObservableCounter meter name);
      _ ← modify (add_observable name);
      list ← register_keys keys;
      mret (name :: list)
  end.
Definition set_registration (r : option (list string)) (e : exporter) : exporter :=
  MkExporter (observableMap e) (waitToRegisterMetrics e) (ch e) (ch_closed e) r.
Definition registerMetrics : cmd exporter unit :=
  known ← register_keys (range_keys known_metrics);
  discovered ← (λ e, register_keys (range_keys (waitToRegisterMetrics e)) e);
  _ ← modify (λ e, MkExporter (observableMap e) ∅ (ch e) (ch_closed e) (registration e));
  _ ← lift (RegisterCallback meter (known ++ discovered));
  modify (set_registration (Some (known ++ discovered))).
Definition reRegisterMetrics : cmd exporter unit :=
  _ ← lift (Unregister meter);
  _ ← modify (set_registration None);
  registerMetrics.

(** A turn of [daemon]: the end of the context, or a message; an error is logged.  [None] if the
    case is not ready or the goroutine has ended. *)
Definition daemon_done (e : exporter) : option exporter :=
  if ch_closed e then None else Some (MkExporter (observableMap e) (waitToRegisterMetrics e) (ch e) true (registration e)).
Definition daemon_turn (e : exporter) : option exporter :=
  if ch_closed e then None
  else match ch e with
       | O => None
       | S n => Some (reRegisterMetrics (MkExporter (observableMap e) (waitToRegisterMetrics e) n false (registration e))).2
       end.

(** A send on a closed channel panics, in a [select] with a default as well. *)
Definition updateUnregisteredMetrics (unRegistrationMetric : list string) : cmd exporter unit := λ e,
  let e := MkExporter (observableMap e) (foldl (λ m key, <[key := ()]> m) (waitToRegisterMetrics e) unRegistrationMetric) (ch e) (ch_closed e) (registration e) in
  if ch_closed e then (Panic, e)
  else (Ret (), if (ch e <? ch_cap)%nat then MkExporter (observableMap e) (waitToRegisterMetrics e) (S (ch e)) false (registration e) else e).

(** What a node answers. *)
Record node_io := MkNodeIO {
  nio_mode : outcome string;
  nio_readDir : string → option (outcome (list string));
  nio_pci : list (list pci_dir);
  nio_netns : NetnsItem → netns_io;
  nio_file : string → option (outcome string);
  nio_cache : PodOwnerCache
}.
Definition host_netns : NetnsItem := MkNetns EmptyString EmptyString.
(** The metrics of a collection: a namespace with an error is left out. *)
Definition node_metrics (io : node_io) : outcome (list Metrics) :=
  list ← listNodeNetNS (nio_mode io) (nio_readDir io);
  let vfToPf := getVfToPfNameMapAt (nio_pci io) in
  let stats := concat ((λ netns, match collect_netns (nio_netns io netns) netns vfToPf (nio_cache io) with Ret l => l | _ => [] end) <$> (list ++ [host_netns])) in
  let tos := match GetDeviceTrafficClass (nio_netns io host_netns) (nio_file io) with
             | Ret items => (λ i, MkMetrics "device_tos" (TrafficClass i)
                              [AttrString "node_name" nodeName; AttrString "ifname" (tc_IfName i); AttrString "net_dev_name" (tc_NetDevName i)]) <$> items
             | _ => []
             end in
  Ret (stats ++ tos).
Definition has_observable (e : exporter) (x : Metrics) : bool := bool_decide (rdmaMetricsPrefix +:+ m_Name x ∈ observableMap e).
(** The metrics handed to the observer; the others are to be registered. *)
Definition Callback (io : node_io) : cmd exporter (list Metrics) :=
  l ← lift (node_metrics io);
  e ← (λ e, (Ret e, e));
  _ ← match m_Name <$> List.filter (λ x, negb (has_observable e x)) l with
      | [] => mret ()
      | unRegistrationMetric => updateUnregisteredMetrics unRegistrationMetric
      end;
  mret (List.filter (has_observable e) l).
(** A collection of the meter: the callback runs if it is registered, and an observation is
    recorded if the callback is registered for its observable. *)
Definition recorded (names : list string) (x : Metrics) : bool := bool_decide ((rdmaMetricsPrefix +:+ m_Name x)%string ∈ names).
Definition collect (io : node_io) : cmd exporter (list Metrics) := λ e,
  match registration e with
  | None => (Ret [], e)
  | Some names => (observed ← Callback io; mret (List.filter (recorded names) observed)) e
  end.

End exporter.

(** ** Devices are found by their GUID *)

(** Two characters, none of them a colon. *)
Definition octet (s : string) : bool := (String.length s =? 2)%nat && negb (contains_char ":" s).
Lemma octet_chars x : octet x → contains_char ":" x = false ∧ ∃ a b, x = String a (String b EmptyString).
Proof.
  unfold octet. intros [Hl%Is_true_true%Nat.eqb_eq Hc]%andb_prop_elim. split; [by destruct (contains_char ":" x)|].
  destruct x as [|a [|b [|]]]; try done. by exists a, b.
Qed.
Lemma split_octet x s : octet x → split ":" (x +:+ ":" +:+ s) = x :: split ":" s.
Proof. intros [H _]%octet_chars. by apply split_app. Qed.
Lemma split_last_octet x : octet x → split ":" x = [x].
Proof. intros [H _]%octet_chars. by apply split_none. Qed.

(** The GUID of a device, least significant octet first, is that of its MAC address with "ff:fe" in
    the middle. *)
Lemma roce_guid a b c d e f :
  Forall octet [a; b; c; d; e; f] →
  let guid := reverseMACAddress (join ":" [f; e; d; "fe"; "ff"; c; b; a]%string) in
  guid = join ":" [a; b; c; "ff"; "fe"; d; e; f]%string ∧ String.length guid = 23%nat ∧ roceHardwareAddr guid = join ":" [a; b; c; d; e; f].
Proof.
  rewrite !Forall_cons. intros (Ha & Hb & Hc & Hd & He & Hf & _). cbv zeta.
  assert (octet "fe" ∧ octet "ff") as [H1 H2] by done.
  unfold reverseMACAddress. cbn [join]. rewrite !split_octet, split_last_octet by done. cbn [reverse rev_append].
  split; [done|].
  apply octet_chars in Ha as (_ & ? & ? & ->), Hb as (_ & ? & ? & ->), Hc as (_ & ? & ? & ->), Hd as (_ & ? & ? & ->), He as (_ & ? & ? & ->), Hf as (_ & ? & ? & ->).
  done.
Qed.

(** An RDMA device is found under the name of the network device that has its MAC address, when no
    device has its whole GUID as address. *)
Theorem rdma_device_found a b c d e f m dev l :
  Forall octet [a; b; c; d; e; f] →
  NodeGuid l = join ":" [f; e; d; "fe"; "ff"; c; b; a]%string →
  m !! join ":" [a; b; c; "ff"; "fe"; d; e; f]%string = None →
  m !! join ":" [a; b; c; d; e; f] = Some dev →
  NetDevName <$> rdma_device m l = Some dev.
Proof.
  intros H Hg Hm Hd. destruct (roce_guid _ _ _ _ _ _ H) as (H1 & H2 & H3).
  unfold rdma_device. rewrite Hg. rewrite H1 in *. by rewrite Hm, H2, H3, Hd.
Qed.

(** ** The exporter and its goroutine *)

(** A meter that takes the names used and never fails otherwise. *)
Definition accepts (meter : Meter) (ok : string → Prop) : Prop :=
  (∀ name, ok name → Int64ObservableCounter meter (rdmaMetricsPrefix +:+ name) = Ret ()) ∧
  (∀ names, RegisterCallback meter names = Ret ()) ∧ Unregister meter = Ret ().
Definition prefixed (keys : list string) : list string := (λ k, rdmaMetricsPrefix +:+ k)%string <$> keys.

Section exporter_laws.
Context `{MR : MapRange}.
Context (nodeName : string) (overflow : Z) (meter : Meter).
Implicit Types e : exporter.

Lemma elem_of_prefixed k keys : (rdmaMetricsPrefix +:+ k)%string ∈ prefixed keys ↔ k ∈ keys.
Proof.
  unfold prefixed. rewrite list_elem_of_fmap. split; [|eauto]. intros (k' & Heq & Hk).
  apply (inj (String.append _)) in Heq. by subst.
Qed.

Lemma register_keys_ok (ok : string → Prop) keys e :
  accepts meter ok → (∀ k, k ∈ keys → ok k) →
  register_keys meter keys e =
    (Ret (prefixed keys), MkExporter (list_to_set (prefixed keys) ∪ observableMap e) (waitToRegisterMetrics e) (ch e) (ch_closed e) (registration e)).
Proof.
  intros (Hacc & _) Hk. revert e. induction keys as [|k keys IH]; intros e; cbn [register_keys].
  - unfold mret, cmd_ret. f_equal. destruct e. cbn. f_equal. set_solver.
  - unfold mbind, cmd_bind, lift, modify. rewrite (Hacc k) by (apply Hk; left).
    rewrite IH by (intros; apply Hk; by right). cbn. do 2 f_equal. set_solver.
Qed.

Lemma known_keys k : k ∈ range_keys known_metrics ↔ k ∈ knownMetricsKeyDescription.
Proof.
  rewrite elem_of_range_keys. unfold known_metrics. rewrite <- elem_of_dom, dom_list_to_map_L, elem_of_list_to_set.
  rewrite <- list_fmap_compose. by rewrite list_fmap_id.
Qed.

Definition registered (e : exporter) (keys : list string) (e' : exporter) : Prop :=
  e' = MkExporter (list_to_set (prefixed keys) ∪ observableMap e) ∅ (ch e) (ch_closed e) (Some (prefixed keys)).
Lemma registerMetrics_ok ok e :
  accepts meter ok → (∀ k, k ∈ knownMetricsKeyDescription → ok k) → (∀ k, is_Some (waitToRegisterMetrics e !! k) → ok k) →
  ∃ e', registerMetrics meter e = (Ret (), e') ∧ registered e (range_keys known_metrics ++ range_keys (waitToRegisterMetrics e)) e'.
Proof.
  intros Hacc Hk Hw. unfold registerMetrics, mbind, cmd_bind.
  rewrite (register_keys_ok ok) by (done || (intros k; rewrite known_keys; apply Hk)). cbn.
  rewrite (register_keys_ok ok) by (done || (intros k; rewrite elem_of_range_keys; apply Hw)). cbn.
  destruct Hacc as (_ & -> & _). eexists. split; [reflexivity|]. unfold registered, prefixed.
  rewrite fmap_app, list_to_set_app_L, (assoc_L (∪)), (comm_L (∪) (list_to_set (_ <$> range_keys (waitToRegisterMetrics e)))). reflexivity.
Qed.

Lemma foldl_waiting l (m : gmap string unit) k : is_Some (foldl (λ m key, <[key := ()]> m) m l !! k) ↔ k ∈ l ∨ is_Some (m !! k).
Proof.
  revert m. induction l as [|a l IH]; intros m; cbn [foldl].
  - split; [by right|]. intros [H|H]; [by apply not_elem_of_nil in H|done].
  - rewrite IH, lookup_insert_is_Some', elem_of_cons. naive_solver.
Qed.

(** The metrics that are handed over. *)
Definition unregistered (e : exporter) (l : list Metrics) : list string := m_Name <$> List.filter (λ x, negb (has_observable e x)) l.
Lemma elem_of_unregistered e l k : k ∈ unregistered e l ↔ (rdmaMetricsPrefix +:+ k)%string ∉ observableMap e ∧ ∃ x, x ∈ l ∧ m_Name x = k.
Proof.
  unfold unregistered, has_observable. rewrite list_elem_of_fmap. setoid_rewrite list_elem_of_In. setoid_rewrite filter_In.
  setoid_rewrite negb_true_iff. setoid_rewrite bool_decide_eq_false. naive_solver.
Qed.

(** A collection hands over the metrics without an observable; it only panics after the shutdown. *)
Definition handed (e : exporter) (l : list Metrics) : exporter :=
  match unregistered e l with
  | [] => e
  | keys => (updateUnregisteredMetrics keys e).2
  end.
Lemma collect_spec io l e names :
  registration e = Some names → node_metrics nodeName overflow io = Ret l → ch_closed e = false →
  collect nodeName overflow io e = (Ret (List.filter (recorded names) (List.filter (has_observable e) l)), handed e l).
Proof.
  intros Hr Hl Hc. unfold collect, Callback, handed, mbind, cmd_bind, lift. rewrite Hr, Hl. cbn. unfold unregistered.
  destruct (m_Name <$> _) as [|k keys]; [reflexivity|]. unfold updateUnregisteredMetrics. cbn [ch_closed]. rewrite Hc. reflexivity.
Qed.
Lemma collect_state io e :
  (collect nodeName overflow io e).2 = match registration e, node_metrics nodeName overflow io with Some _, Ret l => handed e l | _, _ => e end.
Proof.
  unfold collect, Callback, handed, mbind, cmd_bind, lift. destruct (registration e); [|done].
  destruct (node_metrics _ _ io) as [l0| | |]; cbn; [|done..]. unfold unregistered. destruct (m_Name <$> _); [done|].
  unfold updateUnregisteredMetrics. cbn [ch_closed]. by destruct (ch_closed e).
Qed.

(** The metrics of the list are always reported, no metric that waits is forgotten, and the channel
    keeps to its capacity. *)
Record exporter_inv (ok : string → Prop) (e : exporter) : Prop := MkExporterInv {
  inv_names : ∃ names, registration e = Some names ∧ ∀ k, k ∈ knownMetricsKeyDescription → (rdmaMetricsPrefix +:+ k)%string ∈ names;
  inv_known : ∀ k, k ∈ knownMetricsKeyDescription → (rdmaMetricsPrefix +:+ k)%string ∈ observableMap e;
  inv_wait : ∀ k, is_Some (waitToRegisterMetrics e !! k) → ok k ∧ (rdmaMetricsPrefix +:+ k)%string ∉ observableMap e;
  inv_pending : ch_closed e = false → waitToRegisterMetrics e ≠ ∅ → (0 < ch e)%nat;
  inv_cap : (ch e ≤ ch_cap)%nat
}.

Lemma inv_registered ok e keys e' :
  (∀ k, k ∈ knownMetricsKeyDescription → k ∈ keys) → (ch e ≤ ch_cap)%nat → registered e keys e' → exporter_inv ok e'.
Proof.
  intros Hk Hc ->. split; cbn; [|intros k Hin|by intros k [? ?%lookup_empty_Some]|done|done].
  - eexists. split; [reflexivity|]. intros k Hin. apply elem_of_prefixed; auto.
  - apply elem_of_union_l, elem_of_list_to_set, elem_of_prefixed; auto.
Qed.
Lemma inv_handed ok e l : (∀ x, x ∈ l → ok (m_Name x)) → exporter_inv ok e → exporter_inv ok (handed e l).
Proof.
  intros Hok [Hn Hk Hw Hp Hc]. pose proof (elem_of_unregistered e l) as He.
  unfold handed. destruct (unregistered e l) as [|k keys]; [by split|]. unfold updateUnregisteredMetrics.
  assert (∀ k', is_Some (foldl (λ m key, <[key := ()]> m) (waitToRegisterMetrics e) (k :: keys) !! k') → ok k' ∧ (rdmaMetricsPrefix +:+ k')%string ∉ observableMap e) as Hw'.
  { intros k' [(H1 & x & Hx & <-)%He|H]%foldl_waiting; auto. }
  cbn [ch ch_closed]. destruct (ch_closed e) eqn:Ecl; [split; try done; cbn; congruence|].
  destruct (ch e <? ch_cap)%nat eqn:E; split; try done; cbn.
  - lia.
  - apply Nat.ltb_lt in E. lia.
  - apply Nat.ltb_ge in E. unfold ch_cap in E. lia.
Qed.

Lemma daemon_turn_ok ok e n :
  accepts meter ok → (∀ k, k ∈ knownMetricsKeyDescription → ok k) → (∀ k, is_Some (waitToRegisterMetrics e !! k) → ok k) →
  ch_closed e = false → ch e = S n →
  ∃ e', daemon_turn meter e = Some e' ∧
    registered (MkExporter (observableMap e) (waitToRegisterMetrics e) n false None) (range_keys known_metrics ++ range_keys (waitToRegisterMetrics e)) e'.
Proof.
  intros Ha Hk Hw Hc En. unfold daemon_turn. rewrite Hc, En. unfold reRegisterMetrics, mbind, cmd_bind, lift.
  rewrite (proj2 (proj2 Ha)). unfold modify, set_registration. cbn.
  destruct (registerMetrics_ok ok (MkExporter (observableMap e) (waitToRegisterMetrics e) n false None)) as (e' & He' & Hr); [done..|].
  exists e'. split; [|done]. by setoid_rewrite He'.
Qed.

(** The collections of a meter, the turns of the goroutine and the shutdown. *)
Inductive exp_step (ok : string → Prop) : exporter → exporter → Prop :=
  | step_collect io e :
      (∀ l, node_metrics nodeName overflow io = Ret l → ∀ x, x ∈ l → ok (m_Name x)) → exp_step ok e (collect nodeName overflow io e).2
  | step_daemon e e' : daemon_turn meter e = Some e' → exp_step ok e e'
  | step_done e e' : daemon_done e = Some e' → exp_step ok e e'.

Lemma exp_step_inv ok e e' :
  accepts meter ok → (∀ k, k ∈ knownMetricsKeyDescription → ok k) → exp_step ok e e' → exporter_inv ok e → exporter_inv ok e'.
Proof.
  intros Ha Hk Hs Hi. destruct Hs as [io e Hio|e e' Ht|e e' Hd].
  - rewrite collect_state. destruct (registration e); [|done]. destruct (node_metrics _ _ io) as [l0| | |] eqn:E; try done.
    apply inv_handed; [|done]. by apply Hio.
  - assert (ch_closed e = false ∧ ∃ n, ch e = S n) as [Hc [n En]].
    { revert Ht. unfold daemon_turn. destruct (ch_closed e); [done|]. destruct (ch e); [done|eauto]. }
    destruct (daemon_turn_ok ok e n) as (e2 & He2 & Hr); [done|done|by intros k [? _]%(inv_wait _ _ Hi)|done..|].
    rewrite Ht in He2. injection He2 as <-. eapply inv_registered, Hr; cbn.
    + intros k Hin. apply elem_of_app. left. by apply known_keys.
    + pose proof (inv_cap _ _ Hi). lia.
  - unfold daemon_done in Hd. destruct (ch_closed e) eqn:E; [done|]. injection Hd as <-. by destruct Hi; split; cbn.
Qed.

Lemma start_inv ok : accepts meter ok → (∀ k, k ∈ knownMetricsKeyDescription → ok k) → exporter_inv ok (registerMetrics meter new_exporter).2.
Proof.
  intros Ha Hk.
  destruct (registerMetrics_ok ok new_exporter) as (e0 & -> & H0); [done|done|cbn; by intros k [? ?%lookup_empty_Some]|].
  eapply inv_registered, H0; [|cbn; lia]. intros k Hin. apply elem_of_app. left. by apply known_keys.
Qed.

(** As long as the meter takes the names it is given, whatever the order of collections, turns of
    the goroutine and the shutdown after a successful registration: the callback stays registered
    for every known RDMA metric, each of which has an observable, a metric that waits for its
    registration has no observable yet and, before the shutdown, there is a message in the channel
    for it, and the channel stays within its ten messages. *)
Theorem rdma_exporter_invariant ok e :
  accepts meter ok → (∀ k, k ∈ knownMetricsKeyDescription → ok k) →
  rtc (exp_step ok) (registerMetrics meter new_exporter).2 e →
  exporter_inv ok e.
Proof.
  intros Ha Hk Hr. refine (rtc_ind_r (R := exp_step ok) (exporter_inv ok) _ _ _ e Hr); [by apply start_inv|intros; by eapply exp_step_inv].
Qed.




(** *** What ends a metric *)

(** The registration made for new metrics leaves out those discovered before: they have an
    observable, so they are never handed over again, and the meter drops their values. *)
Theorem rediscovery_loses_metric ok e n e2 io l x :
  accepts meter ok → (∀ k, k ∈ knownMetricsKeyDescription → ok k) → (∀ k, is_Some (waitToRegisterMetrics e !! k) → ok k) →
  ch_closed e = false → ch e = S n → daemon_turn meter e = Some e2 →
  has_observable e x = true → m_Name x ∉ knownMetricsKeyDescription → waitToRegisterMetrics e !! m_Name x = None →
  node_metrics nodeName overflow io = Ret l → x ∈ l →
  ∃ r e3, collect nodeName overflow io e2 = (Ret r, e3) ∧ x ∉ r ∧ waitToRegisterMetrics e3 !! m_Name x = None.
Proof.
  intros Ha Hk Hw Hc En Ht Ho Hx Hn Hl Hin. destruct (daemon_turn_ok ok e n) as (e2' & He & Hr); [done..|].
  rewrite Ht in He. injection He as <-. rewrite Hr. eexists _, _. split; [by apply collect_spec|].
  assert ((rdmaMetricsPrefix +:+ m_Name x)%string ∈ observableMap e) as Ho' by (by apply bool_decide_eq_true in Ho).
  split.
  - rewrite list_elem_of_In, filter_In. intros [_ Hrec]. unfold recorded in Hrec.
    rewrite bool_decide_eq_true, elem_of_prefixed, elem_of_app, known_keys, elem_of_range_keys, Hn in Hrec.
    destruct Hrec as [?|[? ?]]; done.
  - apply eq_None_not_Some. unfold handed. set (e' := MkExporter _ _ _ _ _). pose proof (elem_of_unregistered e' l (m_Name x)) as Hu.
    destruct (unregistered e' l) as [|k keys]; [cbn; by intros [? ?%lookup_empty_Some]|].
    unfold updateUnregisteredMetrics. unfold e'. cbn [ch ch_closed waitToRegisterMetrics].
    assert (¬ is_Some (foldl (λ m key, <[key := ()]> m) (∅ : gmap string unit) (k :: keys) !! m_Name x)) as Hf.
    { intros [[Hnot _]%Hu|[? ?%lookup_empty_Some]]%foldl_waiting; [|done]. apply Hnot. cbn. by apply elem_of_union_r. }
    by destruct (n <? ch_cap)%nat.
Qed.

Lemma register_keys_state keys e :
  let e' := (register_keys meter keys e).2 in
  waitToRegisterMetrics e' = waitToRegisterMetrics e ∧ ch e' = ch e ∧ ch_closed e' = ch_closed e ∧ registration e' = registration e.
Proof.
  cbv zeta. revert e. induction keys as [|k keys IH]; intros e; cbn [register_keys]; [done|].
  unfold mbind, cmd_bind, lift, modify. destruct (Int64ObservableCounter _ _); try done.
  specialize (IH (add_observable (rdmaMetricsPrefix +:+ k) e)). by destruct (register_keys meter keys _) as [[] ?].
Qed.
Lemma register_keys_Ret keys e l e' k :
  register_keys meter keys e = (Ret l, e') → k ∈ keys → Int64ObservableCounter meter (rdmaMetricsPrefix +:+ k) = Ret ().
Proof.
  revert e l e'. induction keys as [|k' keys IH]; intros e l e' H Hk; [by apply not_elem_of_nil in Hk|].
  cbn [register_keys] in H. apply cmd_bind_Ret in H as ([] & ? & [H1 _]%lift_Ret & (? & ? & _ & (? & ? & H2 & _)%cmd_bind_Ret)%cmd_bind_Ret).
  apply elem_of_cons in Hk as [->|Hk]; [done|by eapply IH].
Qed.
(** While a metric that the meter refuses waits, no registration succeeds, and it goes on waiting. *)
Lemma registerMetrics_refused e k err :
  Int64ObservableCounter meter (rdmaMetricsPrefix +:+ k) = Fail err → is_Some (waitToRegisterMetrics e !! k) → registration e = None →
  let e' := (registerMetrics meter e).2 in registration e' = None ∧ is_Some (waitToRegisterMetrics e' !! k).
Proof.
  intros Hf Hw Hr. cbv zeta. unfold registerMetrics, mbind, cmd_bind.
  pose proof (register_keys_state (range_keys known_metrics) e) as (Hw1 & _ & _ & Hr1).
  destruct (register_keys meter (range_keys known_metrics) e) as [[l| | |] e1]; cbn in *; [|by rewrite Hw1, Hr1..].
  pose proof (register_keys_state (range_keys (waitToRegisterMetrics e1)) e1) as (Hw2 & _ & _ & Hr2).
  destruct (register_keys meter (range_keys (waitToRegisterMetrics e1)) e1) as [[l2| | |] e2] eqn:E; cbn in *; [|by rewrite Hw2, Hr2, Hw1, Hr1..].
  eapply register_keys_Ret in E; [by rewrite Hf in E|]. apply elem_of_range_keys. by rewrite Hw1.
Qed.

(** One name that the meter refuses ends all RDMA metrics of the agent: the registration is undone
    before the new one is tried, and the callback that would be its next attempt never runs again. *)
Theorem refused_name_ends_metrics ok e e2 e3 k err :
  Unregister meter = Ret () → Int64ObservableCounter meter (rdmaMetricsPrefix +:+ k) = Fail err → is_Some (waitToRegisterMetrics e !! k) →
  daemon_turn meter e = Some e2 → rtc (exp_step ok) e2 e3 →
  registration e3 = None ∧ ∀ io, collect nodeName overflow io e3 = (Ret [], e3).
Proof.
  intros Hu Hf Hw Ht Hs.
  assert (∀ e e', is_Some (waitToRegisterMetrics e !! k) → daemon_turn meter e = Some e' → registration e' = None ∧ is_Some (waitToRegisterMetrics e' !! k)) as Hturn.
  { clear -Hu Hf. intros e e' Hw. unfold daemon_turn. destruct (ch_closed e); [done|]. destruct (ch e) as [|n]; [done|]. intros [= <-].
    unfold reRegisterMetrics, mbind, cmd_bind, lift, modify, set_registration. rewrite Hu. by eapply registerMetrics_refused. }
  assert (registration e3 = None ∧ is_Some (waitToRegisterMetrics e3 !! k)) as [Hr _].
  { refine (rtc_ind_r (R := exp_step ok) (λ e, registration e = None ∧ is_Some (waitToRegisterMetrics e !! k)) _ _ _ _ Hs); [by eapply Hturn|].
    intros y z _ Hyz [H1 H2]. destruct Hyz as [io y Hio|y z Hd|y z Hd]; [|by eapply Hturn|].
    - by rewrite collect_state, H1.
    - unfold daemon_done in Hd. destruct (ch_closed y); [done|]. by injection Hd as <-. }
  split; [done|]. intros io. unfold collect. by rewrite Hr.
Qed.

(** After the shutdown a new metric panics: a closed channel is not the default case of a select. *)
Theorem late_metric_panics e io l x :
  is_Some (registration e) → ch_closed e = true → node_metrics nodeName overflow io = Ret l → x ∈ l → has_observable e x = false →
  (collect nodeName overflow io e).1 = Panic.
Proof.
  intros [names Hn] Hc Hl Hx Ho.
  assert (m_Name x ∈ unregistered e l) as Hu.
  { apply elem_of_unregistered. split; [|eauto]. by apply bool_decide_eq_false in Ho. }
  unfold collect, Callback, mbind, cmd_bind, lift. rewrite Hn, Hl. unfold unregistered in Hu.
  destruct (m_Name <$> _) as [|k keys]; [by apply not_elem_of_nil in Hu|]. unfold updateUnregisteredMetrics. cbn [ch_closed]. by rewrite Hc.
Qed.
End exporter_laws.

(** ** The locks of a collection and of the goroutine

    A collection of the SDK holds the mutex of its pipeline while it runs the callbacks, and
    [Unregister] takes that mutex; the callback takes the lock of the exporter at its end, and the
    goroutine holds it while it calls [Unregister]. *)

Inductive collector := CollectorIdle | CollectorRuns | CollectorUpdates.
Inductive goroutine := DaemonIdle | DaemonLocked.
Record locks := MkLocks { lk_collector : collector; lk_daemon : goroutine; lk_pending : nat }.
Inductive lock_step : locks → locks → Prop :=
  | lock_collect d n : lock_step (MkLocks CollectorIdle d n) (MkLocks CollectorRuns d n)
  | lock_nothing_new d n : lock_step (MkLocks CollectorRuns d n) (MkLocks CollectorIdle d n)
  | lock_new_metric d n : lock_step (MkLocks CollectorRuns d n) (MkLocks CollectorUpdates d n)
  | lock_update n : lock_step (MkLocks CollectorUpdates DaemonIdle n) (MkLocks CollectorIdle DaemonIdle (if (n <? ch_cap)%nat then S n else n))
  | lock_receive c n : lock_step (MkLocks c DaemonIdle (S n)) (MkLocks c DaemonLocked n)
  | lock_reregister n : lock_step (MkLocks CollectorIdle DaemonLocked n) (MkLocks CollectorIdle DaemonIdle n).

(** Two collections that meet a new metric in a row, the second while the goroutine is at the first:
    neither of them goes on. *)
Theorem collection_deadlock :
  ∃ s, rtc lock_step (MkLocks CollectorIdle DaemonIdle 0) s ∧ ∀ s', ¬ lock_step s s'.
Proof.
  exists (MkLocks CollectorUpdates DaemonLocked 0). split.
  - eapply rtc_l; [apply lock_collect|]. eapply rtc_l; [apply lock_new_metric|]. eapply rtc_l; [apply lock_update|].
    eapply rtc_l; [apply lock_collect|]. eapply rtc_l; [apply lock_receive|]. by eapply rtc_l; [apply lock_new_metric|].
  - inversion 1.
Qed.

(** ** A node with one device *)

Definition ex_netns : netns_io := {|
  io_enter := Ret ();
  io_rdma := Ret [<["ifname" := JString "mlx5_0"]> (<["port" := JNumber 1]> (<["npCnpSent" := JNumber 7]> {["newErrCount" := JNumber 9]}))]%string;
  io_links := Ret [MkNetDev "eth0" "3a:b0:33:1a:0d:70" "device"];
  io_rdma_links := Ret [MkRdmaLink "mlx5_0" "70:0d:1a:fe:ff:33:b0:3a" "70:0d:1a:fe:ff:33:b0:3a"];
  io_BusInfo := λ _, Ret "0000:12:00.0"%string;
  io_Stats := λ _, Ret [];
  io_route4 := Ret "1.0.0.0 via 10.6.0.1 dev eth0 src 10.6.1.20 uid 0"%string;
  io_route6 := Fail (ErrOther "no route")
|}.
Definition ex_node : node_io := MkNodeIO (Ret "shared"%string) (λ _, None) [] (λ _, ex_netns) (λ _, None) empty_cache.
Definition ex_meter : Meter := MkMeter (λ _, Ret ()) (λ _, Ret ()) (Ret ()).


Lemma ex_meter_accepts : accepts ex_meter (λ _, True).
Proof. by repeat split. Qed.

Lemma rdma_exporter_invariant_witness :
  exporter_inv (λ _, True) (@collect ordered_range "node-1" 0 ex_node (@registerMetrics ordered_range ex_meter new_exporter).2).2.
Proof.
  apply (@rdma_exporter_invariant ordered_range "node-1" 0 ex_meter); [exact ex_meter_accepts|exact (λ _ _, I)|].
  apply rtc_once, step_collect. exact (λ _ _ _ _, I).
Defined.


(** Three collections and two turns: the metric discovered first is reported by the second
    collection, and no more by the third, after another one was discovered. *)
Definition ex_netns_2 : netns_io :=
  MkNetnsIO (Ret ()) (Ret [<["ifname" := JString "mlx5_0"]> (<["otherCount" := JNumber 1]> {["newErrCount" := JNumber 9]})]%string)
    (io_links ex_netns) (io_rdma_links ex_netns) (io_BusInfo ex_netns) (io_Stats ex_netns) (io_route4 ex_netns) (io_route6 ex_netns).
Definition ex_node_2 : node_io := MkNodeIO (Ret "shared"%string) (λ _, None) [] (λ _, ex_netns_2) (λ _, None) empty_cache.
Definition reported (r : outcome (list Metrics)) : list string := match r with Ret l => m_Name <$> l | _ => [] end.
Example discovered_then_lost :
  let collect := @collect ordered_range "node-1" 0 in
  let turn e := default e (@daemon_turn ordered_range ex_meter e) in
  let e0 := (@registerMetrics ordered_range ex_meter new_exporter).2 in
  let e1 := turn (collect ex_node e0).2 in
  let second := collect ex_node_2 e1 in
  let third := collect ex_node_2 (turn second.2) in
  bool_decide ("new_err_count"%string ∈ reported second.1) = true ∧ bool_decide ("new_err_count"%string ∈ reported third.1) = false.
Proof. vm_compute. split; reflexivity. Qed.

(** A counter that a float64 holds is exported as it is. *)
Theorem counter_exact overflow z : Z.abs z < 2 ^ 53 → counter_value overflow z = z.
Proof.
  intros H. unfold counter_value, float64_of. rewrite (proj2 (Z.ltb_lt _ _) H).
  rewrite (proj2 (Z.leb_le _ _)), (proj2 (Z.ltb_lt _ _)) by lia. done.
Qed.
