(* ===== verification/Leader.v ===== *)
(** * Leader election and the life of a controller

    pkg/election/lease_election.go: the flag that tells whether this process is the leader, as the
    callbacks of client-go set it.  The loop of [SetupInformer] and [Run], written out for the
    controller of pools (pkg/ippoolmanager/ippool_informer.go) and the same in those of subnets,
    applications, coordinators and Multus configurations: a leader makes a context, a queue and
    workers, a goroutine watches the flag and cancels the context, and the loop starts again. *)

From S2P Require Import Prelude Retry Selector WorkQueue.
Local Open Scope Z_scope.
Local Open Scope go_scope.

(** ** The elector *)

Record SpiderLeader := MkLeader {
  leaseLockName : string;
  leaseLockNamespace : string;
  leaseLockIdentity : string;
  leaseDuration : Z;
  leaseRenewDeadline : Z;
  leaseRetryPeriod : Z;
  leaderRetryElectGap : Z;
  isLeader : bool
}.

(** [MatchString] looks for a match of the pattern anywhere in the text, and one letter is a match. *)
Definition lower_or_digit (c : ascii) : bool := is_lower c || is_digit c.
Fixpoint QualifiedK8sObjName_MatchString (s : string) : bool :=
  match s with EmptyString => false | String c s => lower_or_digit c || QualifiedK8sObjName_MatchString s end.

Definition specified {A} (o : option A) : outcome A := match o with Some a => Ret a | None => Fail (ErrOther "failed to new lease elector") end.
Definition NewLeaseElector (leaseLockNS leaseLockName leaseLockIdentity : string)
    (leaseDuration leaseRenewDeadline leaseRetryPeriod leaderRetryElectGap : option Z) : outcome SpiderLeader :=
  _ ← check (leaseLockNS != EmptyString) (ErrOther "failed to new lease elector");
  _ ← check (leaseLockName != EmptyString) (ErrOther "failed to new lease elector");
  _ ← check (leaseLockIdentity != EmptyString) (ErrOther "failed to new lease elector");
  duration ← specified leaseDuration;
  deadline ← specified leaseRenewDeadline;
  period ← specified leaseRetryPeriod;
  gap ← specified leaderRetryElectGap;
  _ ← check (QualifiedK8sObjName_MatchString leaseLockName) (ErrOther "the given leaseLockName is invalid");
  Ret (MkLeader leaseLockName leaseLockNS leaseLockIdentity duration deadline period gap false).

(** Where [tryToElect] is: in [LeaderElector.Run], which acquires the lease and renews it, or in its
    pause.  [OnStartedLeading] runs in a goroutine of its own; [started] is the number of those that
    have not got to the flag yet. *)
Inductive election_phase := Acquiring | Renewing | Pausing.
Record election := MkElection { phase : election_phase; started : nat; elected : bool }.
Definition IsElected (e : election) : bool := elected e.
Definition new_election : election := MkElection Acquiring 0 false.

Inductive elect_step : election → election → Prop :=
  | elect_acquired n b : elect_step (MkElection Acquiring n b) (MkElection Renewing (S n) b)
  | elect_OnStartedLeading p n b : elect_step (MkElection p (S n) b) (MkElection p n true)
  | elect_OnStoppedLeading p n b : p ≠ Pausing → elect_step (MkElection p n b) (MkElection Pausing n false)
  | elect_again n b : elect_step (MkElection Pausing n b) (MkElection Acquiring n b).

(** The goroutine of a term gets to the flag within the term. *)
Definition timely (e : election) : Prop := phase e = Renewing ∨ started e = 0%nat.
Definition timely_step (e e' : election) : Prop := elect_step e e' ∧ timely e'.

(** The flag is only set while the lease is held. *)
Theorem elected_holds_lease e : rtc timely_step new_election e → IsElected e = true → phase e = Renewing.
Proof.
  intros Hr. cut (timely e ∧ (elected e = true → phase e = Renewing)); [by intros [_ ?]|].
  refine (rtc_ind_r (R := timely_step) (λ e, timely e ∧ (elected e = true → phase e = Renewing)) _ _ _ e Hr); [split; [by right|done]|].
  intros y z _ [Hs Ht] [Hy IH]. split; [done|]. destruct Hs as [n b|p n b|p n b Hp|n b]; cbn in *; try done.
  - destruct Hy as [Hy|Hy]; cbn in Hy; done.
  - intros Hb. by specialize (IH Hb).
Qed.
(** If it does not, the flag of a former term outlives it. *)
Theorem late_start_stays_elected : ∃ e, rtc elect_step new_election e ∧ IsElected e = true ∧ phase e = Acquiring ∧ started e = 0%nat.
Proof.
  exists (MkElection Acquiring 0 true). split; [|done].
  eapply rtc_l; [apply elect_acquired|]. eapply rtc_l; [by apply elect_OnStoppedLeading|]. eapply rtc_l; [apply elect_again|].
  by eapply rtc_l; [apply elect_OnStartedLeading|].
Qed.

(** Names that are no names of Kubernetes objects pass the check of [NewLeaseElector]. *)
Theorem lease_name_unchecked :
  is_ret (NewLeaseElector "kube-system" "NOT a Name!" "node-1" (Some 1) (Some 1) (Some 1) (Some 1)) = true.
Proof. vm_compute. reflexivity. Qed.

(** ** The controller *)

(** What one turn of the loop makes: its queue, whether its context is done, and whether the
    goroutine that watches the flag is still there. *)
Record generation := MkGeneration { g_queue : workqueue string; g_cancelled : bool; g_monitor : bool }.
(** A worker: [wait.Until] calls [runWorker], which takes items from the queue that the field of the
    controller has at that moment.  The deferred [Done] is for the queue that the field has when the
    defer statement is reached, [dq], which may be that of a later generation. *)
Inductive worker_state := Ready | Getting (q : nat) | Got (q : nat) (item : string) | Busy (q dq : nat) (item : string) | Gone.
(** The item that a worker has, and the queue it is from. *)
Definition holds (s : worker_state) : option (nat * string) := match s with Got q item | Busy q _ item => Some (q, item) | _ => None end.
Record worker := MkWorker { w_generation : nat; w_state : worker_state }.
Inductive main_pc := Waiting | Syncing (g : nat) | Running (g : nat) | Ended.
(** The field with the queue has that of the last generation. *)
Record controller := MkController { main : main_pc; gens : list generation; workers : list worker; outer_done : bool }.
Definition new_controller : controller := MkController Waiting [] [] false.
Definition field (c : controller) : nat := pred (length (gens c)).

Definition cancel (g : generation) : generation := MkGeneration (g_queue g) true (g_monitor g).
Definition monitor_ends (g : generation) : generation := MkGeneration (g_queue g) true false.
Definition on_queue (f : workqueue string → workqueue string) (g : generation) : generation := MkGeneration (f (g_queue g)) (g_cancelled g) (g_monitor g).
Definition new_generation (outer : bool) : generation := MkGeneration new_queue outer true.

(** What a worker does to the queue when it is through with an item. *)
Inductive settles (item : string) : (workqueue string → workqueue string) → Prop :=
  | settles_forget : settles item (Forget item)
  | settles_limited now bucket : settles item (AddRateLimited now bucket item)
  | settles_after now d : settles item (AddAfter now item d).
(** What informers and the timer of a queue do. *)
Inductive feeds : (workqueue string → workqueue string) → Prop :=
  | feeds_event max item : feeds (enqueue max item)
  | feeds_timer now item : feeds (fire now item).

Section controller.
Context (ControllerWorkers : nat).

Definition set_main (pc : main_pc) (c : controller) : controller := MkController pc (gens c) (workers c) (outer_done c).
Definition at_gen (g : nat) (f : generation → generation) (c : controller) : controller := MkController (main c) (alter f g (gens c)) (workers c) (outer_done c).
Definition set_worker (i : nat) (s : worker_state) (c : controller) : controller :=
  MkController (main c) (gens c) (alter (λ w, MkWorker (w_generation w) s) i (workers c)) (outer_done c).

(** The steps, when the flag of the leader is [flag]. *)
Inductive ctl_step (flag : bool) : controller → controller → Prop :=
  (** the loop of [SetupInformer] *)
  | main_ends c : main c = Waiting → outer_done c = true → ctl_step flag c (set_main Ended c)
  | main_setup_fails c : main c = Waiting → outer_done c = false → flag = true →
      ctl_step flag c (MkController Waiting (gens c ++ [new_generation false]) (workers c) false)
  | main_setup c : main c = Waiting → outer_done c = false → flag = true →
      ctl_step flag c (MkController (Syncing (length (gens c))) (gens c ++ [new_generation false]) (workers c) false)
  (** [Run] *)
  | main_synced c g : main c = Syncing g →
      ctl_step flag c (MkController (Running g) (gens c) (workers c ++ replicate ControllerWorkers (MkWorker g Ready)) (outer_done c))
  | main_stopped c g x : (main c = Syncing g ∨ main c = Running g) → gens c !! g = Some x → g_cancelled x = true →
      ctl_step flag c (set_main Waiting (at_gen g (on_queue ShutDown) c))
  (** the goroutine that watches the flag *)
  | monitor_cancels c g x : gens c !! g = Some x → g_monitor x = true → (flag = false ∨ g_cancelled x = true) →
      ctl_step flag c (at_gen g monitor_ends c)
  | outer_cancels c : ctl_step flag c (MkController (main c) (cancel <$> gens c) (workers c) true)
  (** the workers *)
  | worker_enters c i w : workers c !! i = Some w → w_state w = Ready → (0 < length (gens c))%nat → ctl_step flag c (set_worker i (Getting (field c)) c)
  | worker_takes c i w q x item wq : workers c !! i = Some w → w_state w = Getting q → gens c !! q = Some x → Get (g_queue x) = Some (Some item, wq) →
      ctl_step flag c (set_worker i (Got q item) (at_gen q (on_queue (λ _, wq)) c))
  | worker_shut c i w q x wq y : workers c !! i = Some w → w_state w = Getting q → gens c !! q = Some x → Get (g_queue x) = Some (None, wq) →
      gens c !! w_generation w = Some y → ctl_step flag c (set_worker i (if g_cancelled y then Gone else Ready) c)
  | worker_defers c i w q item : workers c !! i = Some w → w_state w = Got q item → ctl_step flag c (set_worker i (Busy q (field c) item) c)
  | worker_settles c i w q dq item f : workers c !! i = Some w → w_state w = Busy q dq item → settles item f →
      ctl_step flag c (set_worker i Ready (at_gen dq (on_queue (Done item)) (at_gen (field c) (on_queue f) c)))
  (** informers and timers *)
  | queue_fed c q f : feeds f → ctl_step flag c (at_gen q (on_queue f) c).
End controller.

(** ** What generations share *)

(** An operation that keeps a queue well formed and what is being processed. *)
Definition keeps_processing (f : workqueue string → workqueue string) : Prop :=
  ∀ q, (queue_wf q → queue_wf (f q)) ∧ processing (f q) = processing q.
Lemma Add_keeps item : keeps_processing (Add item).
Proof. intros q. split; [apply Add_wf|]. by destruct (Add_cases item q) as [->|(_ & _ & _ & -> & _)]. Qed.
Lemma same_sets_keeps f : (∀ q, same_sets q (f q)) → keeps_processing f.
Proof. intros H q. split; [by apply same_sets_wf|]. by destruct (H q) as (_ & _ & ->). Qed.
Lemma AddAfter_keeps now item d : keeps_processing (AddAfter now item d).
Proof.
  intros q. split; [apply AddAfter_both|]. destruct (AddAfter_cases now item d q) as [(_ & _ & ->)| ->]; [done|]. apply Add_keeps.
Qed.
Lemma settles_keeps item f : settles item f → keeps_processing f.
Proof.
  destruct 1; [by apply same_sets_keeps| |apply AddAfter_keeps]. intros q. split; [apply AddRateLimited_both|].
  unfold AddRateLimited. by rewrite (proj2 (AddAfter_keeps _ _ _ _)).
Qed.
Lemma feeds_keeps f : feeds f → keeps_processing f.
Proof.
  destruct 1 as [max item|now item]; intros q.
  - unfold enqueue. destruct (_ <=? _); [done|]. apply Add_keeps.
  - split; [|destruct (fire_cases now item q) as [(_ & _ & ->)|(_ & _ & ->)]; [done|apply Add_keeps]].
    intros W. by apply (queue_step_wf None q (fire now item q)); [constructor|].
Qed.
Lemma ShutDown_keeps : keeps_processing ShutDown.
Proof. by apply same_sets_keeps. Qed.

Record queues_inv (gs : list generation) (ws : list worker) : Prop := MkQueuesInv {
  qi_wf : ∀ q x, gs !! q = Some x → queue_wf (g_queue x);
  qi_busy : ∀ i w q item, ws !! i = Some w → holds (w_state w) = Some (q, item) → ∃ x, gs !! q = Some x ∧ item ∈ processing (g_queue x);
  qi_alone : ∀ i j w w' q item, ws !! i = Some w → ws !! j = Some w' → holds (w_state w) = Some (q, item) → holds (w_state w') = Some (q, item) → i = j
}.

(** The generations change, and every item that was being processed still is. *)
Lemma queues_gens gs gs' ws :
  (∀ q x, gs !! q = Some x → ∃ x', gs' !! q = Some x' ∧ processing (g_queue x) ⊆ processing (g_queue x')) →
  (∀ q x', gs' !! q = Some x' → queue_wf (g_queue x')) → queues_inv gs ws → queues_inv gs' ws.
Proof.
  intros Hp Hw [_ H2 H3]. split; [done| |done]. intros i w q item Hi Hs. destruct (H2 _ _ _ _ Hi Hs) as (x & Hx & Hin).
  destruct (Hp _ _ Hx) as (x' & Hx' & Hsub). exists x'. split; [done|]. by apply Hsub.
Qed.
Lemma queues_alter h q gs ws :
  (∀ x, (queue_wf (g_queue x) → queue_wf (g_queue (h x))) ∧ processing (g_queue (h x)) = processing (g_queue x)) → queues_inv gs ws → queues_inv (alter h q gs) ws.
Proof.
  intros Hh Hi. refine (queues_gens gs _ ws _ _ Hi).
  - intros q' x Hx. destruct (decide (q' = q)) as [->|Hn]; [rewrite list_lookup_alter_eq, Hx|rewrite list_lookup_alter_ne, Hx by done]; cbn; [|eauto].
    eexists. split; [done|]. by rewrite (proj2 (Hh x)).
  - intros q' x' Hx. destruct (decide (q' = q)) as [->|Hn]; [rewrite list_lookup_alter_eq in Hx|rewrite list_lookup_alter_ne in Hx by done; by eapply qi_wf].
    destruct (gs !! q) as [x|] eqn:E; [|done]. injection Hx as <-. apply Hh. by eapply qi_wf.
Qed.
Lemma queues_on_queue f q gs ws : keeps_processing f → queues_inv gs ws → queues_inv (alter (on_queue f) q gs) ws.
Proof. intros Hf. apply queues_alter. intros x. apply Hf. Qed.
Lemma queues_new gs ws : queues_inv gs ws → queues_inv (gs ++ [new_generation false]) ws.
Proof.
  intros Hi. refine (queues_gens gs _ ws _ _ Hi).
  - intros q x Hx. exists x. split; [by apply lookup_app_l_Some|done].
  - intros q x [Hx|[_ Hx]]%lookup_app_Some; [by eapply qi_wf|]. apply list_lookup_singleton_Some in Hx as [_ <-]. apply new_queue_wf.
Qed.

Definition with_state (i : nat) (s : worker_state) (ws : list worker) : list worker := alter (λ w, MkWorker (w_generation w) s) i ws.
Lemma with_state_lookup i s ws j w' :
  with_state i s ws !! j = Some w' → ∃ w, ws !! j = Some w ∧ w_generation w = w_generation w' ∧ ((j = i ∧ w_state w' = s) ∨ (j ≠ i ∧ w = w')).
Proof.
  unfold with_state. destruct (decide (j = i)) as [->|Hn]; [rewrite list_lookup_alter_eq|rewrite list_lookup_alter_ne by done]; [|eauto 10].
  destruct (ws !! i) as [w|]; [|done]. intros [= <-]. eauto 10.
Qed.

Lemma queues_workers gs ws ws' :
  (∀ i w' q item, ws' !! i = Some w' → holds (w_state w') = Some (q, item) → ∃ w, ws !! i = Some w ∧ holds (w_state w) = Some (q, item)) → queues_inv gs ws → queues_inv gs ws'.
Proof.
  intros Hw [H1 H2 H3]. split; [done| |].
  - intros i w' q item Hi Hs. destruct (Hw _ _ _ _ Hi Hs) as (w & Hi0 & Hs0). by eapply H2.
  - intros i j w w' q item Hi Hj Hs Hs'. destruct (Hw _ _ _ _ Hi Hs) as (? & ? & ?), (Hw _ _ _ _ Hj Hs') as (? & ? & ?). by eapply H3.
Qed.
Lemma queues_idle i s gs ws : holds s = None → queues_inv gs ws → queues_inv gs (with_state i s ws).
Proof.
  intros Hs. apply queues_workers. intros j w' q item (w & Hw & _ & [[_ Hst]|[_ ->]])%with_state_lookup Hb; [|eauto]. congruence.
Qed.
Lemma queues_takes i w q x item wq gs ws :
  ws !! i = Some w → gs !! q = Some x → Get (g_queue x) = Some (Some item, wq) → queues_inv gs ws →
  queues_inv (alter (on_queue (λ _, wq)) q gs) (with_state i (Got q item) ws).
Proof.
  intros Hw Hx Hg Hi. destruct (Get_wf _ _ _ Hg (qi_wf _ _ Hi _ _ Hx)) as (Hwf & _ & Hfree & Hp & _).
  assert (∀ j v, ws !! j = Some v → holds (w_state v) ≠ Some (q, item)) as Hnone.
  { intros j v Hj Hs. destruct (qi_busy _ _ Hi _ _ _ _ Hj Hs) as (x' & Hx' & Hin). rewrite Hx in Hx'. by injection Hx' as <-. }
  assert (queues_inv (alter (on_queue (λ _, wq)) q gs) ws) as Hi'.
  { refine (queues_gens gs _ ws _ _ Hi).
    - intros q' x' Hx'. destruct (decide (q' = q)) as [->|Hn]; [rewrite list_lookup_alter_eq, Hx'|rewrite list_lookup_alter_ne, Hx' by done]; cbn; [|eauto].
      eexists. split; [done|]. cbn. rewrite Hp. rewrite Hx in Hx'. injection Hx' as <-. set_solver.
    - intros q' x' Hx'. destruct (decide (q' = q)) as [->|Hn]; [rewrite list_lookup_alter_eq, Hx in Hx'; by injection Hx' as <-|].
      rewrite list_lookup_alter_ne in Hx' by done. by eapply qi_wf. }
  split; [apply Hi'| |].
  - intros j w' q' item' (v & Hv & _ & [[_ Hst]|[_ ->]])%with_state_lookup Hb; [|by eapply qi_busy].
    rewrite Hst in Hb. injection Hb as <- <-. rewrite list_lookup_alter_eq, Hx. cbn. eexists. split; [done|]. cbn. set_solver.
  - intros j k v v' q' item' (v1 & Hv1 & _ & [[-> Hs1]|[Hj ->]])%with_state_lookup (v2 & Hv2 & _ & [[-> Hs2]|[Hk ->]])%with_state_lookup Hb Hb'; [done|..|by eapply qi_alone].
    + rewrite Hs1 in Hb. injection Hb as <- <-. by destruct (Hnone _ _ Hv2).
    + rewrite Hs2 in Hb'. injection Hb' as <- <-. by destruct (Hnone _ _ Hv1).
Qed.
Lemma queues_done i w q item gs ws :
  ws !! i = Some w → holds (w_state w) = Some (q, item) → queues_inv gs ws → queues_inv (alter (on_queue (Done item)) q gs) (with_state i Ready ws).
Proof.
  intros Hw Hs Hi. destruct (qi_busy _ _ Hi _ _ _ _ Hw Hs) as (x & Hx & Hin). split.
  - intros q' x' Hx'. destruct (decide (q' = q)) as [->|Hn]; [|rewrite list_lookup_alter_ne in Hx' by done; by eapply qi_wf].
    rewrite list_lookup_alter_eq, Hx in Hx'. injection Hx' as <-. apply Done_wf; [done|by eapply qi_wf].
  - intros j w' q' item' (v & Hv & _ & [[_ Hst]|[Hj ->]])%with_state_lookup Hb; [by rewrite Hst in Hb|].
    destruct (qi_busy _ _ Hi _ _ _ _ Hv Hb) as (x' & Hx' & Hin'). destruct (decide (q' = q)) as [->|Hn]; [|rewrite list_lookup_alter_ne by done; eauto].
    rewrite list_lookup_alter_eq, Hx. rewrite Hx in Hx'. injection Hx' as <-. cbn. eexists. split; [done|]. cbn. apply elem_of_difference. split; [done|].
    intros ->%elem_of_singleton. apply Hj. by eapply (qi_alone _ _ Hi).
  - intros j k v v' q' item' (v1 & Hv1 & _ & [[-> Hs1]|[Hj ->]])%with_state_lookup (v2 & Hv2 & _ & [[-> Hs2]|[Hk ->]])%with_state_lookup Hb Hb'; [done|by rewrite Hs1 in Hb|by rewrite Hs2 in Hb'|].
    by eapply qi_alone.
Qed.

Lemma queues_same i w s gs ws : ws !! i = Some w → holds s = holds (w_state w) → queues_inv gs ws → queues_inv gs (with_state i s ws).
Proof.
  intros Hi Hh. apply queues_workers. intros j w' q item (v & Hv & _ & [[-> Hst]|[_ ->]])%with_state_lookup Hb; [|eauto].
  exists w. split; [done|]. congruence.
Qed.

Section generations.
Context (ControllerWorkers : nat).

(** The loop, the generations, and the generation of each worker. *)
Record main_inv (pc : main_pc) (gs : list generation) (ws : list nat) : Prop := MkMainInv {
  mi_last : ∀ g, pc = Running g ∨ pc = Syncing g → S g = length gs;
  mi_fresh : ∀ g, pc = Syncing g → g ∉ ws;
  mi_stopped : ∀ g, g ∈ ws → pc = Running g ∨ ∃ x, gs !! g = Some x ∧ g_cancelled x = true;
  mi_count : ∀ g, (length (filter (g =.) ws) ≤ ControllerWorkers)%nat;
  mi_monitor : ∀ g x, gs !! g = Some x → g_cancelled x = true ∨ g_monitor x = true
}.

Lemma main_gens pc gs gs' ws : length gs' = length gs →
  (∀ g x', gs' !! g = Some x' → ∃ x, gs !! g = Some x ∧ (g_cancelled x = true → g_cancelled x' = true) ∧ (g_monitor x = true → g_cancelled x' = true ∨ g_monitor x' = true)) →
  main_inv pc gs ws → main_inv pc gs' ws.
Proof.
  intros Hl Hg [H1 H2 H3 H4 H5]. split; [by rewrite Hl|done| |done|].
  - intros g Hin. destruct (H3 g Hin) as [?|(x & Hx & Hc)]; [by left|]. right.
    assert (is_Some (gs' !! g)) as [x' Hx'] by (apply lookup_lt_is_Some; rewrite Hl; by eapply lookup_lt_Some).
    destruct (Hg _ _ Hx') as (x1 & Hx1 & Hc1 & _). rewrite Hx in Hx1. injection Hx1 as <-. eauto.
  - intros g x' Hx'. destruct (Hg _ _ Hx') as (x & Hx & Hc & Hm). destruct (H5 _ _ Hx); auto.
Qed.
Lemma main_alter h g pc gs ws :
  (∀ x, (g_cancelled x = true → g_cancelled (h x) = true) ∧ (g_monitor x = true → g_cancelled (h x) = true ∨ g_monitor (h x) = true)) →
  main_inv pc gs ws → main_inv pc (alter h g gs) ws.
Proof.
  intros Hh. apply main_gens; [by rewrite length_alter|]. intros g' x' Hx'. destruct (decide (g' = g)) as [->|Hn].
  - rewrite list_lookup_alter_eq in Hx'. destruct (gs !! g) as [x|]; [|done]. injection Hx' as <-. exists x. split; [done|apply Hh].
  - rewrite list_lookup_alter_ne in Hx' by done. eauto.
Qed.
Lemma main_on_queue f g pc gs ws : main_inv pc gs ws → main_inv pc (alter (on_queue f) g gs) ws.
Proof. apply main_alter. intros x. cbn. auto. Qed.

(** The loop leaves a generation, and begins one. *)
Lemma main_leaves pc pc' gs ws : (∀ g, pc' ≠ Running g ∧ pc' ≠ Syncing g) → (∀ g, pc = Running g → ∃ x, gs !! g = Some x ∧ g_cancelled x = true) →
  main_inv pc gs ws → main_inv pc' gs ws.
Proof.
  intros Hn Hc [H1 H2 H3 H4 H5]. split; [|intros g Hg; by destruct (Hn g)| |done|done].
  - intros g [Hg|Hg]; by destruct (Hn g).
  - intros g Hin. destruct (H3 g Hin) as [Hr|?]; right; auto.
Qed.
Lemma main_begins pc gs ws : pc = Waiting ∨ pc = Syncing (length gs) → main_inv Waiting gs ws → main_inv pc (gs ++ [new_generation false]) ws.
Proof.
  intros Hpc [_ _ H3 H4 H5].
  assert (∀ g, g ∈ ws → ∃ x, gs !! g = Some x ∧ g_cancelled x = true) as Hold by (intros g [?|?]%H3; done).
  split; [| | |done|].
  - intros g Hg. rewrite length_app. cbn. destruct Hpc as [-> | ->]; [by destruct Hg|]. destruct Hg as [?|[= <-]]; [done|lia].
  - intros g Hg Hin. destruct (Hold g Hin) as (x & Hx%lookup_lt_Some & _). destruct Hpc as [-> | ->]; [done|]. injection Hg as <-. lia.
  - intros g Hin. destruct (Hold g Hin) as (x & Hx & Hc). right. exists x. split; [by apply lookup_app_l_Some|done].
  - intros g x [Hx|[_ Hx]]%lookup_app_Some; [by eapply H5|]. apply list_lookup_singleton_Some in Hx as [_ <-]. by right.
Qed.
Lemma main_synced_inv g gs ws : main_inv (Syncing g) gs ws → main_inv (Running g) gs (ws ++ replicate ControllerWorkers g).
Proof.
  intros [H1 H2 H3 H4 H5]. split; [|done| | |done].
  - intros g' [[= <-]|?]; [|done]. apply H1. by right.
  - intros g' [Hin|[-> _]%elem_of_replicate]%elem_of_app; [|by left]. right. by destruct (H3 _ Hin).
  - intros g'. rewrite filter_app, length_app. destruct (decide (g' = g)) as [->|Hn].
    + assert (filter (g =.) ws = []) as ->.
      { apply filter_none, Forall_forall. intros y Hy Heq. subst y. by destruct (H2 g). }
      cbn. etrans; [apply length_filter|]. by rewrite length_replicate.
    + assert (filter (g' =.) (replicate ControllerWorkers g) = []) as ->.
      { apply filter_none, Forall_forall. by intros y [-> _]%elem_of_replicate. }
      cbn. rewrite Nat.add_0_r. apply H4.
Qed.

Definition main_ok (c : controller) : Prop := main_inv (main c) (gens c) (w_generation <$> workers c).
Definition queues_ok (c : controller) : Prop := queues_inv (gens c) (workers c).
(** Every worker has met the same queue at its defer statement as at [Get]. *)
Definition prompt (c : controller) : Prop := Forall (λ w, match w_state w with Busy q dq _ => dq = q | _ => True end) (workers c).
Lemma with_state_generation i s ws : w_generation <$> with_state i s ws = w_generation <$> ws.
Proof.
  apply list_eq. intros j. rewrite !list_lookup_fmap. unfold with_state. destruct (decide (j = i)) as [->|Hn].
  - rewrite list_lookup_alter_eq. by destruct (ws !! i).
  - by rewrite list_lookup_alter_ne by done.
Qed.

Lemma queues_cancel gs ws : queues_inv gs ws → queues_inv (cancel <$> gs) ws.
Proof.
  intros Hi. refine (queues_gens gs _ ws _ _ Hi).
  - intros q x Hx. exists (cancel x). by rewrite list_lookup_fmap, Hx.
  - intros q x' Hx'. rewrite list_lookup_fmap in Hx'. destruct (gs !! q) as [x|] eqn:E; [|done]. injection Hx' as <-. exact (qi_wf _ _ Hi _ _ E).
Qed.
Lemma main_cancel pc gs ws : main_inv pc gs ws → main_inv pc (cancel <$> gs) ws.
Proof.
  apply main_gens; [by rewrite length_fmap|]. intros g x' Hx'. rewrite list_lookup_fmap in Hx'. destruct (gs !! g) as [x|]; [|done]. injection Hx' as <-.
  exists x. cbn. auto.
Qed.

Ltac step_cases Hs :=
  destruct Hs as [c Hw Ho|c Hw Ho Hf|c Hw Ho Hf|c g Hg|c g x Hg Hx Hc|c g x Hx Hmo Hf|c|c i w Hw Hs Hl|c i w q x item wq Hw Hs Hx Hget|c i w q x wq y Hw Hs Hx Hget Hy
    |c i w q item Hw Hs|c i w q dq item f Hw Hs Hf|c q f Hf].
Lemma ctl_step_main flag c c' : ctl_step ControllerWorkers flag c c' → main_ok c → main_ok c'.
Proof.
  unfold main_ok. intros Hs Hm. step_cases Hs; unfold at_gen, set_worker, set_main; cbn [main gens workers]; rewrite ?with_state_generation; try (setoid_rewrite with_state_generation).
  - rewrite Hw in Hm. by eapply main_leaves, Hm.
  - rewrite Hw in Hm. apply main_begins; auto.
  - rewrite Hw in Hm. apply main_begins; auto.
  - rewrite Hg in Hm. rewrite fmap_app, fmap_replicate. by apply main_synced_inv.
  - apply (main_leaves (main c)); [done| |by apply main_on_queue].
    intros g' Hr. assert (g' = g) as ->. { destruct Hg as [Hg|Hg]; rewrite Hg in Hr; [done|by injection Hr]. }
    rewrite list_lookup_alter_eq, Hx. eexists. split; [done|exact Hc].
  - apply main_alter; [|done]. cbn. auto.
  - by apply main_cancel.
  - done.
  - by apply main_on_queue.
  - done.
  - done.
  - by apply main_on_queue, main_on_queue.
  - by apply main_on_queue.
Qed.
Lemma ctl_step_queues flag c c' : ctl_step ControllerWorkers flag c c' → prompt c → queues_ok c → queues_ok c'.
Proof.
  unfold queues_ok. intros Hs Hp Hq. step_cases Hs; unfold at_gen, set_worker, set_main; cbn [main gens workers].
  - done.
  - by apply queues_new.
  - by apply queues_new.
  - refine (queues_workers _ _ _ _ Hq). intros i w' q item [Hw|[_ Hw]]%lookup_app_Some Hst; [eauto|]. by apply lookup_replicate in Hw as [-> _].
  - apply queues_on_queue; [apply ShutDown_keeps|done].
  - by apply queues_alter.
  - by apply queues_cancel.
  - by apply queues_idle.
  - by eapply queues_takes.
  - apply queues_idle; [by destruct (g_cancelled y)|done].
  - eapply queues_same; [done| |done]. by rewrite Hs.
  - assert (dq = q) as -> by (pose proof (Forall_lookup_1 _ _ _ _ Hp Hw) as E; cbn in E; by rewrite Hs in E). eapply queues_done; [done|by rewrite Hs|]. apply queues_on_queue; [by eapply settles_keeps|done].
  - apply queues_on_queue; [by apply feeds_keeps|done].
Qed.

(** The context of the worker is not done. *)
Definition live (gs : list generation) (w : worker) : bool :=
  match gs !! w_generation w with Some x => negb (g_cancelled x) | None => false end.
Lemma live_count pc gs ws : main_inv pc gs (w_generation <$> ws) → (length (List.filter (live gs) ws) ≤ ControllerWorkers)%nat.
Proof.
  intros Hm.
  assert (∀ w, w ∈ ws → live gs w = true → pc = Running (w_generation w)) as Hl.
  { intros w Hw Hlive. destruct (mi_stopped _ _ _ Hm (w_generation w)) as [?|(x & Hx & Hc)]; [by apply list_elem_of_fmap_2|done|].
    unfold live in Hlive. by rewrite Hx, Hc in Hlive. }
  destruct (List.filter (live gs) ws) as [|v rest] eqn:E; [cbn; lia|]. rewrite <- E.
  assert (v ∈ ws ∧ live gs v = true) as [Hv Hvl] by (rewrite list_elem_of_In; apply (filter_In (live gs)); rewrite E; by left).
  etrans; [|apply (mi_count _ _ _ Hm (w_generation v))]. pose proof (Hl v Hv Hvl) as Hpc. clear E Hv Hvl Hm. revert Hl. induction ws as [|w ws IH]; intros Hl; [done|].
  cbn [List.filter fmap list_fmap]. specialize (IH (λ u Hu, Hl u (list_elem_of_further _ _ _ Hu))). destruct (live gs w) eqn:Ew.
  - assert (w_generation v = w_generation w) as Hg. { specialize (Hl w (list_elem_of_here _ _) Ew). rewrite Hpc in Hl. by injection Hl. }
    rewrite filter_cons_True by done. cbn [length]. by apply le_n_S.
  - etrans; [exact IH|]. rewrite filter_cons. case_decide; cbn [length]; lia.
Qed.

Definition any_step (c c' : controller) : Prop := ∃ flag, ctl_step ControllerWorkers flag c c'.
Lemma controller_main c : rtc any_step new_controller c → main_ok c.
Proof.
  intros Hr. refine (rtc_ind_r (R := any_step) main_ok _ _ _ c Hr); [|by intros y z _ [flag Hs] ?; eapply ctl_step_main].
  split; cbn; [by intros ? [?|?]|by intros ? ?|by intros ? ?%not_elem_of_nil|intros; lia|done].
Qed.
Definition prompt_step (c c' : controller) : Prop := any_step c c' ∧ prompt c'.
Lemma controller_queues c : rtc prompt_step new_controller c → prompt c ∧ queues_ok c.
Proof.
  intros Hr. refine (rtc_ind_r (R := prompt_step) (λ c, prompt c ∧ queues_ok c) _ _ _ c Hr); [|intros y z _ [[flag Hs] Hz] [Hy Hq]; split; [done|by eapply ctl_step_queues]].
  split; [constructor|]. split; done.
Qed.

(** C25: However leadership comes and goes, however often the informers cannot be set up, and whatever
    the events and the workers do: the workers of every generation but the one that runs have been
    told to stop, and of the others there are no more than the configured number.  And no two workers
    handle the same item of one queue, as long as no re-election has replaced the queue of the
    controller between a worker's call of Get and its defer statement, which looks the queue up
    again. *)
Theorem controller_generations c : rtc any_step new_controller c →
  (∀ i w, workers c !! i = Some w → main c = Running (w_generation w) ∨ ∃ x, gens c !! w_generation w = Some x ∧ g_cancelled x = true) ∧
  (length (List.filter (live (gens c)) (workers c)) ≤ ControllerWorkers)%nat ∧
  (rtc prompt_step new_controller c →
   ∀ i j w w' q item, workers c !! i = Some w → workers c !! j = Some w' → holds (w_state w) = Some (q, item) → holds (w_state w') = Some (q, item) → i = j).
Proof.
  intros Hm%controller_main. split_and!.
  - intros i w Hw. apply (mi_stopped _ _ _ Hm). apply list_elem_of_fmap_2. by eapply list_elem_of_lookup_2.
  - by eapply live_count.
  - intros [_ Hq]%controller_queues. apply (qi_alone _ _ Hq).
Qed.

(** When the leadership is lost the controller stops: the goroutine that watches it is there. *)
Theorem lost_leader_stops c g : rtc any_step new_controller c → main c = Running g →
  ∃ c' x, rtc (ctl_step ControllerWorkers false) c c' ∧ main c' = Waiting ∧ gens c' !! g = Some x ∧ g_cancelled x = true ∧ shuttingDown (g_queue x) = true.
Proof.
  intros Hm%controller_main Hg. assert (is_Some (gens c !! g)) as [x Hx].
  { apply lookup_lt_is_Some. rewrite <- (mi_last _ _ _ Hm g); [lia|by left]. }
  assert (∃ c1 x1, rtc (ctl_step ControllerWorkers false) c c1 ∧ main c1 = Running g ∧ gens c1 !! g = Some x1 ∧ g_cancelled x1 = true) as (c1 & x1 & H1 & Hm1 & Hx1 & Hc1).
  { destruct (mi_monitor _ _ _ Hm _ _ Hx) as [Hc|Hmo]; [exists c, x; split; [reflexivity|done]|].
    exists (at_gen g monitor_ends c), (monitor_ends x). split; [apply rtc_once; eapply monitor_cancels; eauto|]. cbn. by rewrite list_lookup_alter_eq, Hx. }
  eexists _, (on_queue ShutDown x1). split; [eapply rtc_r; [exact H1|eapply main_stopped; eauto]|]. cbn. by rewrite list_lookup_alter_eq, Hx1.
Qed.

(** Every time the informers cannot be set up, a goroutine that watches the flag stays, as the
    context is not cancelled; there is no pause before the next attempt. *)
Theorem failed_setups_leak n : ∃ c, rtc (ctl_step ControllerWorkers true) new_controller c ∧ main c = Waiting ∧ outer_done c = false ∧
  length (gens c) = n ∧ Forall (λ x, g_monitor x = true ∧ g_cancelled x = false) (gens c).
Proof.
  induction n as [|n (c & Hr & Hw & Ho & Hl & Hf)]; [exists new_controller; split_and!; [reflexivity|done..|constructor]|].
  exists (MkController Waiting (gens c ++ [new_generation false]) (workers c) false). split_and!; [|done..| |].
  - eapply rtc_r; [exact Hr|by apply main_setup_fails].
  - cbn. rewrite length_app, Hl. cbn. lia.
  - apply Forall_app. split; [done|]. by constructor.
Qed.
End generations.

(** ** A worker outlives its leadership *)

(** The leadership is lost while a worker is at a pool, and won again. *)
Definition ex_busy (shut : bool) : workqueue string := MkQueue [] ∅ {["pool"%string]} ∅ ∅ shut.
Definition ex_twice : controller :=
  MkController (Running 1) [MkGeneration (ex_busy true) true false; MkGeneration (ex_busy false) false true]
    [MkWorker 0 (Busy 0 0 "pool"); MkWorker 1 (Busy 1 1 "pool")] false.
Lemma ex_twice_reached : rtc (prompt_step 1) new_controller ex_twice.
Proof.
  eapply rtc_l; [split; [exists true; by apply main_setup|repeat constructor]|]. cbn. eapply rtc_l; [split; [exists true; by eapply main_synced|repeat constructor]|]. cbn.
  eapply rtc_l; [split; [exists true; apply (queue_fed _ _ _ 0 _ (feeds_event 10 "pool"))|repeat constructor]|]. vm_compute.
  eapply rtc_l; [split; [exists true; eapply (worker_enters _ _ _ 0); [reflexivity|reflexivity|cbn; lia]|repeat constructor]|]. cbn.
  eapply rtc_l; [split; [exists true; eapply (worker_takes _ _ _ 0); reflexivity|repeat constructor]|]. cbn.
  eapply rtc_l; [split; [exists true; eapply (worker_defers _ _ _ 0); reflexivity|repeat constructor]|]. cbn.
  eapply rtc_l; [split; [exists false; eapply (monitor_cancels _ _ _ 0); [reflexivity|reflexivity|by left]|repeat constructor]|]. cbn.
  eapply rtc_l; [split; [exists false; eapply (main_stopped _ _ _ 0); [by right|reflexivity|reflexivity]|repeat constructor]|]. cbn.
  eapply rtc_l; [split; [exists true; by apply main_setup|repeat constructor]|]. cbn. eapply rtc_l; [split; [exists true; by eapply main_synced|repeat constructor]|]. cbn.
  eapply rtc_l; [split; [exists true; apply (queue_fed _ _ _ 1 _ (feeds_event 10 "pool"))|repeat constructor]|]. cbn.
  eapply rtc_l; [split; [exists true; eapply (worker_enters _ _ _ 1); [reflexivity|reflexivity|cbn; lia]|repeat constructor]|]. cbn.
  eapply rtc_l; [split; [exists true; eapply (worker_takes _ _ _ 1); reflexivity|repeat constructor]|]. cbn.
  eapply rtc_l; [split; [exists true; eapply (worker_defers _ _ _ 1); reflexivity|repeat constructor]|]. vm_compute. apply rtc_refl.
Qed.
Lemma prompt_any n c c' : rtc (prompt_step n) c c' → rtc (any_step n) c c'.
Proof. apply rtc_subrel. by intros x y [? _]. Qed.

Lemma controller_generations_witness :
  rtc (any_step 1) new_controller ex_twice ∧ (length (List.filter (live (gens ex_twice)) (workers ex_twice)) ≤ 1)%nat ∧
  (∀ i j w w' q item, workers ex_twice !! i = Some w → workers ex_twice !! j = Some w' → holds (w_state w) = Some (q, item) → holds (w_state w') = Some (q, item) → i = j).
Proof.
  split; [exact (prompt_any _ _ _ ex_twice_reached)|].
  destruct (controller_generations 1 ex_twice (prompt_any _ _ _ ex_twice_reached)) as (_ & Hc & Ha). split; [exact Hc|exact (Ha ex_twice_reached)].
Defined.

(** The queue of a generation does not know what the workers of the former one are at: two workers
    handle the same pool; and the former one, when it is through, takes from the new queue. *)
Theorem same_pool_twice :
  rtc (any_step 1) new_controller ex_twice ∧ holds ∘ w_state <$> workers ex_twice = [Some (0%nat, "pool"); Some (1%nat, "pool")]%string ∧
  ∃ c, rtc (any_step 1) ex_twice c ∧ w_state <$> workers c = [Getting 1; Busy 1 1 "pool"]%string.
Proof.
  split; [exact (prompt_any _ _ _ ex_twice_reached)|]. split; [reflexivity|]. eexists. split.
  - eapply rtc_l; [exists true; eapply (worker_settles _ _ _ 0); [reflexivity|reflexivity|apply settles_forget]|]. cbn.
    eapply rtc_l; [exists true; eapply (worker_enters _ _ _ 0); [reflexivity|reflexivity|cbn; lia]|]. reflexivity.
  - reflexivity.
Qed.

(** A worker that has taken a pool when the leadership is lost and won again, and reaches its defer
    statement then, marks the pool as done in the new queue, where another worker is at it: the new
    queue hands it out a second time. *)
Theorem done_hits_later_queue : ∃ c, rtc (any_step 2) new_controller c ∧
  ∃ i j w w', i ≠ j ∧ workers c !! i = Some w ∧ workers c !! j = Some w' ∧ holds (w_state w) = Some (1%nat, "pool"%string) ∧ holds (w_state w') = Some (1%nat, "pool"%string).
Proof.
  eexists. split.
  - eapply rtc_l; [exists true; by apply main_setup|]. cbn. eapply rtc_l; [exists true; by eapply main_synced|]. cbn.
    eapply rtc_l; [exists true; apply (queue_fed _ _ _ 0 _ (feeds_event 10 "pool"))|]. vm_compute.
    eapply rtc_l; [exists true; eapply (worker_enters _ _ _ 0); [reflexivity|reflexivity|cbn; lia]|]. cbn.
    eapply rtc_l; [exists true; eapply (worker_takes _ _ _ 0); reflexivity|]. cbn.
    eapply rtc_l; [exists false; eapply (monitor_cancels _ _ _ 0); [reflexivity|reflexivity|by left]|]. cbn.
    eapply rtc_l; [exists false; eapply (main_stopped _ _ _ 0); [by right|reflexivity|reflexivity]|]. cbn.
    eapply rtc_l; [exists true; by apply main_setup|]. cbn. eapply rtc_l; [exists true; by eapply main_synced|]. cbn.
    eapply rtc_l; [exists true; apply (queue_fed _ _ _ 1 _ (feeds_event 10 "pool"))|]. cbn.
    eapply rtc_l; [exists true; eapply (worker_enters _ _ _ 2); [reflexivity|reflexivity|cbn; lia]|]. cbn.
    eapply rtc_l; [exists true; eapply (worker_takes _ _ _ 2); reflexivity|]. cbn.
    eapply rtc_l; [exists true; eapply (worker_defers _ _ _ 0); reflexivity|]. cbn.
    eapply rtc_l; [exists true; eapply (worker_settles _ _ _ 0); [reflexivity|reflexivity|apply settles_forget]|]. cbn.
    eapply rtc_l; [exists true; apply (queue_fed _ _ _ 1 _ (feeds_event 10 "pool"))|]. vm_compute.
    eapply rtc_l; [exists true; eapply (worker_enters _ _ _ 3); [reflexivity|reflexivity|cbn; lia]|]. cbn.
    eapply rtc_l; [exists true; eapply (worker_takes _ _ _ 3); reflexivity|]. vm_compute. apply rtc_refl.
  - exists 2%nat, 3%nat. eexists _, _. split_and!; reflexivity || done.
Qed.
